(* ===== verification/_CoqProject ===== *)
-Q . S2P
Prelude.v
Text.v
Wire.v
Utf8.v
RudpPacket.v
AckWindow.v
RetransmissionQueue.v
RudpEngine.v
RudpEngineProps.v
RudpLink.v
Resilience.v
ProtocolErrors.v
Dispatch.v
Redis.v
SessionDirectory.v
AdminAuth.v
RuntimeMetrics.v
Monitor.v
JobQueue.v
DbWorkerPool.v
ThreadManager.v
TaskScheduler.v
MemoryPool.v
Session.v
Acceptor.v
UdpGuard.v
Rollout.v
Connection.v
BackendConnection.v
GatewayConnection.v
GatewayUdp.v
GatewayUdpProps.v
SessionClient.v
ChatText.v
GatewayConfig.v
InstanceRegistry.v
InstanceRegistryProps.v
GatewayRouting.v
HttpServer.v
HttpServerProps.v
Metrics.v
Trace.v
Log.v
ServerConfig.v
AppHost.v
WriteBehind.v
WriteBehindProps.v
LuaRuntime.v
LuaBindings.v
Plugins.v
ScriptWatcher.v
Bootstrap.v
ChatHooks.v
ChatState.v
ChatCore.v
ChatViews.v
ChatRooms.v
ChatCommands.v
ChatSend.v
ChatAdmin.v
AdminQuery.v
AdminState.v
AdminCommands.v
Fanout.v
AdminFanoutProps.v
AdminExt.v
AdminDeploy.v
AdminViews.v
AdminApp.v
AdminAppProps.v
AdminDeployProps.v
AdminStoreProps.v
AdminViewsProps.v
ChatInv.v
ChatConsistency.v
ChatProps.v
ChatDelivery.v
ChatGate.v
ChatNames.v
ChatHistory.v
