(* ===== verification/Prelude.v ===== *)
(** * Verification of the Dynaxis chat stack

    The repository is a chat server in C++ with its gateway, its tools and the runtime
    library they share.  This development is a shallow embedding of it: pure functions of
    the source are functions here, code with state passes the state explicitly, code that
    can fail returns an option or an error, and what runs concurrently is a step relation.
    Names follow the source.

    ** The program and its models

    Clients connect over TCP to a gateway, which authenticates them, picks a server and
    forwards bytes both ways; a second path over UDP carries selected messages, plain or
    through a reliable transport.  Servers run the chat service: a session per connection
    decodes packets, a dispatcher queues a job per request, and the jobs work on shared
    tables under one mutex, talk to Redis and to a database, and call plugins and scripts.
    Servers exchange messages through Redis channels, and keep events in a Redis stream
    which a separate worker stores in the database.  An administration service sends signed
    commands to the servers over the same channels and schedules the deployment of plugins
    and scripts.

    - _Wire formats_ ([core/protocol/packet.hpp], [core/net/rudp/rudp_packet.hpp]):
      [Wire], [Utf8], [RudpPacket]; text and numbers of the C++ library: [Text], [ChatText].
    - _Reliable UDP_ ([core/net/rudp]): [AckWindow], [RetransmissionQueue], [RudpEngine] with
      [RudpEngineProps], and two engines over a network in [RudpLink].
    - _Overload protection_ ([core/net/resilience_controls.hpp], [queue_budget.hpp]):
      [Resilience].
    - _Messages of a server_ ([core/net/session.cpp], [dispatcher.cpp], [connection.cpp],
      [core/protocol]): [Acceptor] for new connections, [Session] over the buffers of
      [MemoryPool], [Dispatch], [ProtocolErrors], [Connection].
    - _Concurrency_ ([core/concurrent], [core/runtime_metrics.cpp]): threads under a mutex
      and a condition variable in [Monitor], its instances [JobQueue]; the worker threads in
      [ThreadManager] and those of the database ([core/storage/db_worker_pool.cpp]) in
      [DbWorkerPool]; [TaskScheduler]; the atomic counters of [RuntimeMetrics].
    - _Host of a process_ ([core/app], [core/metrics], [core/trace], [core/util/log.cpp]):
      [AppHost], [HttpServer] with [HttpServerProps], [Metrics], [Trace], [Log].
    - _Start of a server_ ([server/app/config.cpp], [server/app/bootstrap.cpp]):
      [ServerConfig], [Bootstrap].
    - _Extensions_ ([core/plugin], [core/scripting], [server/chat/chat_hook_plugin_chain.cpp]):
      [Plugins], [LuaRuntime], [ScriptWatcher], [ChatHooks]; the functions that scripts may
      call ([server/scripting/chat_lua_bindings.cpp]): [LuaBindings].
    - _Shared state_ ([core/storage/redis/client.hpp], [core/state], [server/state]): the
      interface to Redis in [Redis], [InstanceRegistry] with [InstanceRegistryProps].
    - _Gateway_ ([gateway/]): [GatewayConfig], [GatewayConnection] and [BackendConnection]
      over [Connection], [GatewayRouting] over [SessionDirectory] and [InstanceRegistry],
      [GatewayUdp] with [GatewayUdpProps] over [UdpGuard], [Rollout] and [RudpEngine].
    - _Client_ ([tools/loadgen/session_client.cpp]): [SessionClient].
    - _Chat service_ ([server/chat]): tables and jobs in [ChatState]; the handlers in
      [ChatCore], [ChatViews], [ChatRooms], [ChatCommands], [ChatSend], [ChatAdmin]; the
      theorems in [ChatInv], [ChatConsistency], [ChatProps], [ChatDelivery], [ChatGate],
      [ChatNames], [ChatHistory].
    - _Messages between servers_ ([server/app/bootstrap.cpp],
      [core/security/admin_command_auth.cpp]): [Fanout], [AdminAuth].
    - _Write-behind pipeline_ ([tools/wb_worker], [tools/wb_dlq_replayer]): [WriteBehind]
      with [WriteBehindProps].
    - _Administration service_ ([tools/admin_app/main.cpp]): [AdminQuery], [AdminState],
      [AdminCommands], [AdminExt], [AdminDeploy], [AdminViews], [AdminApp]; the theorems in
      [AdminFanoutProps], [AdminAppProps], [AdminDeployProps], [AdminStoreProps],
      [AdminViewsProps].

    ** How the source is rendered

    An unsigned integer of N bits is a [Z] with its wrap-around written out ([wrap], [fits]
    below).  A class is a record and its methods are functions of it where a mutex or a
    strand serialises them; where threads interleave, the unit of interleaving is the
    critical section or the atomic instruction.  An undefined behaviour of C++ (an access
    outside a buffer, a signed overflow) is the result [None], so that a theorem that a
    routine yields [Some] excludes it.  Clocks, random numbers, what a socket or a file
    delivers, and the traversal order of unordered containers are arguments.  Code outside
    the sources is a type class or a parameter with its documented behaviour as named laws:
    the Redis server ([RedisServer], [RedisLaws]), the Lua interpreter ([LuaVm]), HMAC
    ([AdminAuth], [GatewayEnv]), plugins, protobuf and the JSON library.  Each theorem that
    uses such laws has a witness with a concrete instance.

    ** What the theorems show

    - _Formats_: headers round-trip and reject what they should; the UTF-8 validator decides
      exactly the well-formed sequences of RFC 3629; a length-prefixed string is read
      exactly when it is there, and otherwise the caller's span and output stay as they were.
    - _Reliable UDP_: the 64-bit window refines the set of accepted numbers; every payload
      is handed up at most once, under any reordering, loss and repetition, and, once the
      two ends are connected, one that arrives is delivered and acknowledged; no datagram
      leads to undefined behaviour.  Clocks stay below 2^31 ms there, where the 32-bit time
      stamps do not wrap.
    - _Session, gateway and HTTP connections_: framing does not depend on how the bytes are
      cut, whatever the handlers do; an exception of a handler stays in its job; the
      handshake refines a grammar; a backend is opened and bytes are forwarded only after a
      login request was admitted, and from then on the bridge is transparent; the loops of
      an HTTP connection end, and callbacks run for authorised requests only; a client keeps
      its server across gateways.
    - _UDP path_: only datagrams of a bound, authenticated endpoint are forwarded, and a
      bound session is not moved to another endpoint; a client that gets a ticket and
      follows the protocol is bound.
    - _Chat service_: its tables stay consistent in every interleaving of every job, as
      long as a new session is not placed at an address the tables still name ([fresh_step]
      of [ChatState]; [ChatNames] shows what happens otherwise); who may enter a room and with which error others are refused, who hears
      a message or a whisper, who may sanction; bans and the spam gate hold; names are unique
      as long as logins do not overlap.
    - _Processes_: the start of a server on all its paths, readiness published only after the
      acceptor was started, the order of the shutdown and the end of the drain; what the
      probe of readiness answers as a function of what was reported; the accept loop
      neither ends nor doubles; jobs run once, and those of the database all before its pool
      stops; log lines keep their order, each loss is counted, and secrets in the form the
      logger knows are masked; the pages of metrics show the sums of what was counted;
      scripts reach the service with checked arguments only.
    - _Write-behind_: no delivered event is lost, whatever fails, and a replayed dead letter
      gives the row of the event it was.
    - _Administration_: a change needs the role and a writable service; a command published
      by the service is verified, read back and executed by exactly the servers its selector
      means; the life cycle of deployments over all interleavings of requests and
      scheduler; a restart reads back what was stored; following the pages of a listing ends
      and visits all of it.

    Where the code does not do what it means to, the lemma that shows it is next to the
    theorem it limits.

    ** Bounds and fuel

    Loops of the source are structural recursions where the data allows.  The others carry
    fuel, and each has a lemma that the fuel given is enough: the length of the text for
    the loops over characters ([utf8_loop], [allowlist_loop], [components], [getlines],
    [mask_loop]),
    the length of the buffered input for the handshake ([try_finish_handshake]), sixteen
    digits for a 64-bit word in [hex_go], and for the polled reads of [HttpServer] the
    number of polls the time limit admits ([http_connection_terminates]), and one more than
    the largest listing for the pages of [walk] in [AdminViewsProps].  [None] of such a loop
    is never the result at the fuel given.  [JobQueue] and [RuntimeMetrics] use step
    relations instead, since their loops end by what other threads do.  A loop that waits
    for the outside ([drain_loop], the waits of [SessionClient]) recurses over what it is
    given, and [None] is an input that ends too early.

    ** Not modelled

    - Time that is not read from a clock: how long a callback, a job or a blocking call takes
      ([asio::write] of the HTTP server has no time limit), and the exhaustion of memory or
      of threads.
    - Foreign code behind an interface: the Redis client ([server/storage/redis/client.cpp],
      calls of redis++), the database ([server/storage/postgres], SQL through libpqxx),
      OpenSSL, Asio, LuaJIT, protobuf.  Their callers are modelled against the interface.
    - User interface and test traffic: [client_gui] (ImGui), the scenarios and reports of
      [tools/loadgen], the tests and the sample plugins.  They use the protocol and promise
      nothing about it.
    - Platform services: the crash handler, shared libraries, LZ4 and ciphers, the streams a
      log line is written to; the operating system or a library decides what they do.
    - Wiring without behaviour of its own: the adapters, factories and the table of routes of
      [server/app], the registry of services, the accept loop of the gateway's listener,
      the manager of a single plugin that the chain has replaced, the page of
      [server/app/metrics_server.cpp], and the cleaning that [run_server] repeats after the
      shutdown steps have run.
*)

From stdpp Require Export base gmap strings list pretty.
From Stdlib Require Export Lia.

Open Scope Z_scope.

(** ** Fixed-width unsigned integers

    A C++ [std::uintN_t] is a [Z] between 0 and [2^N - 1]; [uN] is the
    conversion to that width (assignment, cast or wrap-around arithmetic). *)

Declare Scope mach_scope.
Delimit Scope mach_scope with mach.

Definition wrap (w z : Z) : Z := z mod 2 ^ w.
Definition fits (w z : Z) : Prop := 0 <= z < 2 ^ w.

Abbreviation u8 := (wrap 8).
Abbreviation u16 := (wrap 16).
Abbreviation u32 := (wrap 32).
Abbreviation u64 := (wrap 64).

Notation "x '+32' y" := (u32 (x + y)) (at level 50, left associativity) : mach_scope.
Notation "x '-32' y" := (u32 (x - y)) (at level 50, left associativity) : mach_scope.
Notation "x '*32' y" := (u32 (x * y)) (at level 40, left associativity) : mach_scope.
Notation "x '+64' y" := (u64 (x + y)) (at level 50, left associativity) : mach_scope.
Notation "x '-64' y" := (u64 (x - y)) (at level 50, left associativity) : mach_scope.
Notation "x '*64' y" := (u64 (x * y)) (at level 40, left associativity) : mach_scope.

#[global] Arguments wrap : simpl never.

#[global] Instance fits_dec w z : Decision (fits w z).
Proof. unfold fits. apply _. Defined.

(** The development's arithmetic tactic: widths are turned into numbers,
    [mod] and [/] into their defining equations. *)
Ltac widths :=
  unfold fits, wrap in *;
  repeat match goal with
  | |- context [2 ^ ?w] => is_ground w; let v := eval vm_compute in (2 ^ w) in change (2 ^ w) with v
  | H : context [2 ^ ?w] |- _ => is_ground w; let v := eval vm_compute in (2 ^ w) in change (2 ^ w) with v in H
  end.
Ltac zlia := widths; Z.to_euclidean_division_equations; lia.

(** Case analysis on the boolean comparisons and decisions of the code. *)
Ltac zbool :=
  repeat match goal with
  | H : context [?x <? ?y] |- _ => destruct (Z.ltb_spec x y)
  | H : context [?x <=? ?y] |- _ => destruct (Z.leb_spec x y)
  | H : context [?x =? ?y] |- _ => destruct (Z.eqb_spec x y)
  | |- context [?x <? ?y] => destruct (Z.ltb_spec x y)
  | |- context [?x <=? ?y] => destruct (Z.leb_spec x y)
  | |- context [?x =? ?y] => destruct (Z.eqb_spec x y)
  end; simpl in *; try discriminate; try lia.

Create HintDb mach discriminated.

Section widths.
Implicit Types (w z : Z).

Lemma wrap_fits w z : 0 <= w -> fits w (wrap w z).
Proof. intros. unfold fits, wrap. apply Z.mod_pos_bound. lia. Qed.

Lemma wrap_id w z : fits w z -> wrap w z = z.
Proof. intros. by apply Z.mod_small. Qed.

Lemma wrap_add w x y : wrap w (wrap w x + y) = wrap w (x + y).
Proof. unfold wrap. apply Zplus_mod_idemp_l. Qed.

Lemma fits_mono w w' z : 0 <= w <= w' -> fits w z -> fits w' z.
Proof.
  unfold fits. intros ? [??]. split; [done|].
  apply Z.lt_le_trans with (2 ^ w); [done|]. apply Z.pow_le_mono_r; lia.
Qed.
End widths.

#[export] Hint Resolve wrap_fits : mach.
#[export] Hint Extern 1 (_ <= _) => lia : mach.

(** ** Bit operations as arithmetic *)

Section bits.
Implicit Types (a b n : Z).

Lemma lor_shiftl_add a b n :
  0 <= n -> 0 <= b < 2 ^ n -> Z.lor (Z.shiftl a n) b = a * 2 ^ n + b.
Proof.
  intros Hn Hb. rewrite <- Z.shiftl_mul_pow2 by done. symmetry.
  apply Z.add_nocarry_lor. apply Z.bits_inj'. intros i Hi.
  rewrite Z.land_spec, Z.bits_0, Z.shiftl_spec by lia.
  destruct (decide (i < n)) as [|Hge].
  - by rewrite Z.testbit_neg_r by lia.
  - destruct (decide (b = 0)) as [->|]; [by rewrite Z.bits_0, andb_false_r|].
    rewrite (Z.bits_above_log2 b i), andb_false_r; [done|lia|].
    apply Z.log2_lt_pow2; [lia|].
    apply Z.lt_le_trans with (2 ^ n); [lia|]. apply Z.pow_le_mono_r; lia.
Qed.

Lemma land_ff a : Z.land a 0xFF = a mod 2 ^ 8.
Proof. change 0xFF with (Z.ones 8). by rewrite Z.land_ones. Qed.

Lemma land_ffffffff a : Z.land a 0xFFFFFFFF = a mod 2 ^ 32.
Proof. change 0xFFFFFFFF with (Z.ones 32). by rewrite Z.land_ones. Qed.

Lemma land_pow2 a n : 0 <= n -> (Z.land a (Z.shiftl 1 n) =? 0) = negb (Z.testbit a n).
Proof.
  intros Hn. rewrite Z.shiftl_1_l.
  destruct (Z.testbit a n) eqn:E; simpl.
  - apply Z.eqb_neq. intros H0.
    assert (Z.testbit (Z.land a (2 ^ n)) n = false) as Hf by (rewrite H0; apply Z.bits_0).
    rewrite Z.land_spec, E, Z.pow2_bits_true in Hf by lia. done.
  - apply Z.eqb_eq. apply Z.bits_inj'. intros i Hi.
    rewrite Z.land_spec, Z.bits_0.
    destruct (decide (i = n)) as [->|].
    + by rewrite E.
    + rewrite Z.pow2_bits_false by lia. by rewrite andb_false_r.
Qed.
End bits.

(** A property of every byte value is checked by enumeration. *)
Lemma testbit_wrap w z d : 0 <= d < w -> Z.testbit (wrap w z) d = Z.testbit z d.
Proof. intros. unfold wrap. by rewrite Z.mod_pow2_bits_low by lia. Qed.

Lemma testbit_fits w z d : 0 <= w <= d -> fits w z -> Z.testbit z d = false.
Proof. intros ? Hz. rewrite <- (wrap_id w z Hz). unfold wrap. apply Z.mod_pow2_bits_high; lia. Qed.

Lemma fits_lor w a b : 0 <= w -> fits w a -> fits w b -> fits w (Z.lor a b).
Proof.
  intros Hw Ha Hb. cut (wrap w (Z.lor a b) = Z.lor a b).
  { intros <-. by apply wrap_fits. }
  apply Z.bits_inj'. intros n Hn. unfold wrap. rewrite Z.testbit_mod_pow2 by done.
  destruct (Z.ltb_spec n w); [done|].
  by rewrite Z.lor_spec, !(testbit_fits w) by done.
Qed.

Lemma byte_forall (P : Z -> bool) :
  forallb P (seqZ 0 256) = true -> forall b, fits 8 b -> P b = true.
Proof.
  intros HP b Hb. rewrite forallb_forall in HP. apply HP.
  apply list_elem_of_In, elem_of_seqZ. widths. lia.
Qed.

(** ** Byte buffers

    A [std::uint8_t*] with its extent is a [list Z].  An access outside the
    buffer is undefined behaviour in C++; here it is [None], so that "the
    result is [Some]" states memory safety. *)

Definition bytes (l : list Z) : Prop := Forall (fits 8) l.

Definition poke (off : nat) (bs buf : list Z) : option (list Z) :=
  if decide (off + length bs <= length buf)%nat then Some (list_inserts off bs buf) else None.

Abbreviation zlen l := (Z.of_nat (length l)).

Lemma bytes_app l k : bytes (l ++ k) <-> bytes l /\ bytes k.
Proof. apply Forall_app. Qed.

Lemma bytes_cons b l : bytes (b :: l) <-> fits 8 b /\ bytes l.
Proof. apply Forall_cons. Qed.

Lemma bytes_lookup l i b : bytes l -> l !! i = Some b -> fits 8 b.
Proof. intros Hl Hi. eapply Forall_lookup_1; eauto. Qed.

Lemma bytes_take n l : bytes l -> bytes (take n l).
Proof. apply Forall_take. Qed.

Lemma bytes_drop n l : bytes l -> bytes (drop n l).
Proof. apply Forall_drop. Qed.

#[export] Hint Resolve bytes_take bytes_drop bytes_lookup : mach.

(** Two adjacent writes are one write. *)
Lemma poke_app off a b buf :
  poke off (a ++ b) buf = (poke off a buf ≫= poke (off + length a) b).
Proof.
  unfold poke. rewrite length_app.
  repeat case_decide; simpl; repeat case_decide; try done; rewrite ?length_inserts in *; try lia.
  f_equal. rewrite list_inserts_app_l. f_equal; lia.
Qed.

(** A closed decidable statement, by evaluation. *)
Ltac by_decide := apply (bool_decide_unpack _); vm_compute; reflexivity.

(** A chain of adjacent writes is split into the writes of the code. *)
Ltac split_pokes :=
  repeat (rewrite poke_app; apply option_bind_ext_fun; intros ?;
          rewrite <- ?Nat.add_assoc; simpl length; simpl Nat.add).

Lemma poke_split pre mid post bs :
  length bs = length mid -> poke (length pre) bs (pre ++ mid ++ post) = Some (pre ++ bs ++ post).
Proof.
  intros Hl. unfold poke. rewrite decide_True.
  - f_equal. replace (length pre) with (length pre + 0)%nat by lia.
    rewrite list_inserts_app_r. f_equal. by apply list_inserts_0_r.
  - rewrite !length_app. lia.
Qed.

Lemma poke_Some off bs buf :
  (off + length bs <= length buf)%nat ->
  poke off bs buf = Some (take off buf ++ bs ++ drop (off + length bs) buf).
Proof.
  intros Hl.
  rewrite <- (take_drop off buf) at 1. rewrite <- (take_drop (length bs) (drop off buf)).
  replace off with (length (take off buf)) at 1 by (rewrite length_take; lia).
  rewrite poke_split, drop_drop; [done|].
  rewrite length_take, length_drop. lia.
Qed.

(** ** Strings

    A [std::string] is a Rocq [string]; its bytes are a [list Z]. *)

Definition byte_of_ascii (a : Ascii.ascii) : Z := Z.of_N (Ascii.N_of_ascii a).
Definition ascii_of_byte (b : Z) : Ascii.ascii := Ascii.ascii_of_N (Z.to_N b).

Fixpoint bytes_of_string (s : string) : list Z :=
  match s with
  | EmptyString => []
  | String a s => byte_of_ascii a :: bytes_of_string s
  end.

Fixpoint string_of_bytes (l : list Z) : string :=
  match l with
  | [] => EmptyString
  | b :: l => String (ascii_of_byte b) (string_of_bytes l)
  end.

Lemma byte_of_ascii_fits a : fits 8 (byte_of_ascii a).
Proof.
  unfold byte_of_ascii. pose proof (Ascii.N_ascii_bounded a). widths. lia.
Qed.

Lemma ascii_byte_id a : ascii_of_byte (byte_of_ascii a) = a.
Proof.
  unfold ascii_of_byte, byte_of_ascii. rewrite N2Z.id. apply Ascii.ascii_N_embedding.
Qed.

Lemma byte_ascii_id b : fits 8 b -> byte_of_ascii (ascii_of_byte b) = b.
Proof.
  intros Hb. unfold ascii_of_byte, byte_of_ascii.
  rewrite Ascii.N_ascii_embedding; widths; lia.
Qed.

Lemma bytes_of_string_bytes s : bytes (bytes_of_string s).
Proof. induction s; constructor; auto using byte_of_ascii_fits. Qed.

Lemma string_of_bytes_of_string s : string_of_bytes (bytes_of_string s) = s.
Proof. induction s as [|a s IH]; simpl; [done|]. by rewrite ascii_byte_id, IH. Qed.

Lemma bytes_of_string_of_bytes l : bytes l -> bytes_of_string (string_of_bytes l) = l.
Proof.
  induction l as [|b l IH]; simpl; [done|]. rewrite bytes_cons. intros [??].
  by rewrite byte_ascii_id, IH.
Qed.

Lemma length_bytes_of_string s : length (bytes_of_string s) = String.length s.
Proof. induction s; simpl; congruence. Qed.

#[export] Hint Resolve byte_of_ascii_fits bytes_of_string_bytes : mach.

(** ** Lists *)

Lemma filter_full {A} (P : A -> Prop) `{!forall x, Decision (P x)} (l : list A) :
  length (filter P l) = length l -> filter P l = l.
Proof.
  induction l as [|x l IH]; [done|]. rewrite filter_cons. pose proof (length_filter P l).
  case_decide; simpl; intros; [f_equal; apply IH; lia|lia].
Qed.

Lemma filter_map {A B} (f : A -> B) (P : B -> Prop) `{!forall y, Decision (P y)} (l : list A) :
  filter P (map f l) = map f (filter (fun x => P (f x)) l).
Proof.
  induction l as [|x l IH]; [done|]. cbn [map]. rewrite !filter_cons.
  case_decide; cbn [map]; congruence.
Qed.

Lemma filter_all {A} (P : A -> Prop) `{!forall x, Decision (P x)} (l : list A) :
  Forall P l -> filter P l = l.
Proof.
  induction 1; [done|]. rewrite filter_cons_True by done. congruence.
Qed.

Lemma filter_none {A} (P : A -> Prop) `{!forall x, Decision (P x)} (l : list A) :
  Forall (fun x => ~ P x) l -> filter P l = [].
Proof. induction 1; [done|]. by rewrite filter_cons_False. Qed.

Lemma Forall_filter {A} (P Q : A -> Prop) `{!forall x, Decision (Q x)} (l : list A) :
  Forall P l -> Forall P (filter Q l).
Proof. induction 1; [constructor|]. rewrite filter_cons. case_decide; [by constructor|done]. Qed.

Lemma last_cons_default {A} (x d : A) l : List.last (x :: l) d = List.last l x.
Proof.
  revert x d. induction l as [|y l IH]; intros x d; [done|].
  change (List.last (x :: y :: l) d) with (List.last (y :: l) d). by rewrite !IH.
Qed.

(** ** Removing one occurrence *)

Fixpoint remove_first `{EqDecision A} (x : A) (l : list A) : list A :=
  match l with
  | [] => []
  | y :: l => if decide (x = y) then l else y :: remove_first x l
  end.

Lemma remove_first_perm `{EqDecision A} (x : A) (l : list A) : x ∈ l -> l ≡ₚ x :: remove_first x l.
Proof.
  induction l as [|y l IH]; [by intros ?%elem_of_nil|]. intros [->|Hin]%elem_of_cons; simpl.
  - by rewrite decide_True.
  - destruct (decide (x = y)) as [->|]; [done|]. rewrite Permutation_swap. by rewrite <- IH.
Qed.

(** ** Runs of a step relation *)

Lemma rtc_preserved {A} {R : relation A} (P : A -> Prop) {x y} :
  rtc R x y -> (forall a b, P a -> R a b -> P b) -> P x -> P y.
Proof. intros H Hstep. induction H; eauto. Qed.
