(* ===== verification/Text.v ===== *)
(** Text as lists of characters: decimal and hexadecimal digits, [std::from_chars] and
    [std::to_string] for unsigned integers, comma-separated lists.  These are parts
    of the C++ library that the parsers of the program use. *)

From S2P Require Import Prelude.

Abbreviation chars := (list Ascii.ascii).
Definition chars_of (s : string) : chars := String.list_ascii_of_string s.

(** ** Unsigned integers *)

Definition digit_value (c : Ascii.ascii) : option Z :=
  let b := byte_of_ascii c in
  if (48 <=? b) && (b <=? 57) then Some (b - 48)
  else if (97 <=? b) && (b <=? 122) then Some (b - 97 + 10)
  else if (65 <=? b) && (b <=? 90) then Some (b - 65 + 10)
  else None.

(** The prefix of digits of the base, its value, its length, and what follows. *)
Fixpoint scan_digits (base : Z) (s : chars) (acc : Z) (n : nat) : Z * nat * chars :=
  match s with
  | c :: rest =>
      match digit_value c with
      | Some d => if d <? base then scan_digits base rest (acc * base + d) (S n) else (acc, n, s)
      | None => (acc, n, s)
      end
  | [] => (acc, n, [])
  end.

(** [std::from_chars(first, last, parsed, base)] for an unsigned type of [w] bits: no
    sign and no base prefix; [None] is an error code (no digits, or out of range),
    otherwise the value and the rest from [ptr] on. *)
Definition from_chars (w base : Z) (s : chars) : option (Z * chars) :=
  let '(v, n, rest) := scan_digits base s 0 0 in
  if Nat.eqb n 0 then None else if 2 ^ w <=? v then None else Some (v, rest).

(** [std::to_string] of an unsigned integer. *)
Definition decimal (n : Z) : chars := chars_of (pretty n).

Abbreviation str := String.string_of_list_ascii.

Definition to_string (n : Z) : string := str (decimal n).
Definition newline : string := str [ascii_of_byte 10].
Definition quote : string := str [ascii_of_byte 34].

Definition digit10 (c : Ascii.ascii) : Prop := exists d, digit_value c = Some d /\ 0 <= d < 10.

Definition value10 (ds : chars) (acc : Z) : Z :=
  fold_left (fun a c => a * 10 + default 0 (digit_value c)) ds acc.

Lemma chars_of_string_of_list l : chars_of (String.string_of_list_ascii l) = l.
Proof. apply String.list_ascii_of_string_of_list_ascii. Qed.

Lemma scan_digits_app ds rest acc n :
  Forall digit10 ds ->
  scan_digits 10 (ds ++ rest) acc n = scan_digits 10 rest (value10 ds acc) (n + length ds).
Proof.
  intros Hds. revert acc n. induction Hds as [|c ds (d & Hd & H0 & Hlt) _ IH]; intros acc n; simpl.
  { by rewrite Nat.add_0_r. }
  rewrite Hd. apply Z.ltb_lt in Hlt. rewrite Hlt, IH. f_equal; simpl; lia.
Qed.

Lemma digit_char x :
  (x < 10)%N -> digit_value (pretty_N_char x) = Some (Z.of_N x).
Proof.
  intros. assert (x = 0 \/ x = 1 \/ x = 2 \/ x = 3 \/ x = 4 \/ x = 5 \/ x = 6 \/ x = 7 \/ x = 8 \/ x = 9)%N
    as Hx by lia. by destruct_or! Hx; subst x.
Qed.

Lemma value10_app ds1 ds2 acc : value10 (ds1 ++ ds2) acc = value10 ds2 (value10 ds1 acc).
Proof. apply fold_left_app. Qed.

Lemma pretty_N_go_digits x s :
  exists ds, chars_of (pretty_N_go x s) = ds ++ chars_of s /\ Forall digit10 ds
    /\ value10 ds 0 = Z.of_N x /\ (0 < x -> ds <> [])%N.
Proof.
  revert s. induction (N.lt_wf_0 x) as [x _ IH]; intros s.
  assert (x = 0 \/ 0 < x)%N as [->|Hx] by lia; [by exists []|].
  rewrite pretty_N_go_step by done.
  destruct (IH (x / 10)%N (N.div_lt x 10 Hx eq_refl) (String (pretty_N_char (x mod 10)) s))
    as (ds & -> & Hds & Hv & _).
  assert (Hlt : (x mod 10 < 10)%N) by (by apply N.mod_lt).
  exists (ds ++ [pretty_N_char (x mod 10)]). split_and!.
  - by rewrite <- app_assoc.
  - apply Forall_app. split; [done|]. constructor; [|constructor].
    exists (Z.of_N (x mod 10)). rewrite digit_char by done. split; [done|].
    split; [apply N2Z.is_nonneg|by apply (N2Z.inj_lt _ 10)].
  - rewrite value10_app, Hv. unfold value10. simpl. rewrite digit_char by done. simpl.
    pose proof (N.div_mod x 10 ltac:(done)). lia.
  - intros _. by destruct ds.
Qed.

Lemma decimal_digits n :
  0 <= n -> Forall digit10 (decimal n) /\ value10 (decimal n) 0 = n /\ decimal n <> [].
Proof.
  intros Hn. unfold decimal. destruct n as [|p|p]; [|change (pretty (Z.pos p)) with (pretty (N.pos p))|lia].
  - split_and!; [|done|done]. constructor; [|constructor]. by exists 0.
  - unfold pretty, pretty_N. rewrite decide_False by done.
    destruct (pretty_N_go_digits (N.pos p) EmptyString) as (ds & -> & Hds & Hv & Hne).
    rewrite app_nil_r. split_and!; [done|done|]. apply Hne. lia.
Qed.

(** Printing and parsing are inverse. *)
Lemma from_chars_decimal w n rest :
  0 <= n < 2 ^ w -> (match rest with [] => True | c :: _ => digit_value c = None end) ->
  from_chars w 10 (decimal n ++ rest) = Some (n, rest).
Proof.
  intros Hn Hrest. destruct (decimal_digits n) as (Hds & Hv & Hne); [lia|].
  unfold from_chars. rewrite scan_digits_app, Hv by done.
  assert (Hstop : scan_digits 10 rest n (0 + length (decimal n)) = (n, length (decimal n), rest)).
  { destruct rest as [|c rest]; [done|]. simpl. by rewrite Hrest. }
  rewrite Hstop. destruct (decimal n); [done|]. simpl. by destruct (Z.leb_spec (2 ^ w) n); [lia|].
Qed.

Lemma from_chars_fits w base s v rest :
  0 <= base -> from_chars w base s = Some (v, rest) -> 0 <= v < 2 ^ w.
Proof.
  intros Hb. unfold from_chars. destruct (scan_digits base s 0 0) as [[v' n] r] eqn:Hs.
  assert (Hpos : forall s acc n, 0 <= acc -> 0 <= (scan_digits base s acc n).1.1).
  { clear -Hb. induction s as [|c s IH]; intros acc n Ha; simpl; [done|].
    unfold digit_value. repeat case_match; simpl; try done; apply IH; simplify_eq; zbool; try lia; nia. }
  specialize (Hpos s 0 0%nat ltac:(lia)). rewrite Hs in Hpos. simpl in Hpos.
  destruct (Nat.eqb n 0); [done|]. destruct (Z.leb_spec (2 ^ w) v'); [done|]. intros. simplify_eq. lia.
Qed.

(** ** Lists with a separator *)

Section separated.
Context (sep : Z).

Definition is_sep (c : Ascii.ascii) : bool := byte_of_ascii c =? sep.

Fixpoint split_sep (s : chars) : list chars :=
  match s with
  | [] => [[]]
  | c :: rest =>
      if is_sep c then [] :: split_sep rest
      else match split_sep rest with
           | tok :: toks => (c :: tok) :: toks
           | [] => [[c]]
           end
  end.

Definition join_sep (toks : list chars) : chars :=
  match toks with
  | [] => []
  | tok :: toks => tok ++ concat (map (fun t => ascii_of_byte sep :: t) toks)
  end.

Lemma split_sep_tok tok s :
  Forall (fun c => is_sep c = false) tok ->
  split_sep (tok ++ s)
  = match split_sep s with t :: ts => (tok ++ t) :: ts | [] => [tok] end.
Proof.
  intros Ht. assert (Hne : forall s, split_sep s <> []).
  { clear. induction s as [|c s IH]; [done|]. cbn [split_sep]. case_match; [done|].
    by destruct (split_sep s). }
  induction Ht as [|c tok Hc _ IH]; cbn [app].
  { specialize (Hne s). by destruct (split_sep s). }
  cbn [split_sep]. rewrite Hc, IH. by destruct (split_sep s).
Qed.

Lemma split_join toks :
  fits 8 sep -> toks <> [] -> Forall (Forall (fun c => is_sep c = false)) toks ->
  split_sep (join_sep toks) = toks.
Proof.
  intros Hsep Hne Hall. destruct toks as [|tok toks]; [done|]. clear Hne. cbn [join_sep].
  apply Forall_cons in Hall as [Ht Hall]. rewrite split_sep_tok by done.
  assert (Hrest : split_sep (concat (map (fun t => ascii_of_byte sep :: t) toks)) = [] :: toks).
  { clear Ht tok. induction Hall as [|tok toks Ht _ IH]; [done|]. cbn [map concat app split_sep].
    unfold is_sep at 1. rewrite byte_ascii_id, Z.eqb_refl by done.
    rewrite split_sep_tok, IH by done. by rewrite app_nil_r. }
  by rewrite Hrest, app_nil_r.
Qed.

Lemma digit10_not_sep ds : sep < 48 -> Forall digit10 ds -> Forall (fun c => is_sep c = false) ds.
Proof.
  intros Hsep Hds. eapply Forall_impl; [exact Hds|]. intros c (d & Hd & _).
  unfold is_sep, digit_value in *. destruct (Z.eqb_spec (byte_of_ascii c) sep); [|done].
  repeat case_match; simplify_eq; zbool; lia.
Qed.

End separated.

(** ** Entries ordered by key: [std::sort] on the pairs of a map *)

Definition key_le (a b : string * string) : Prop := String.leb a.1 b.1 = true.

#[export] Instance key_le_dec a b : Decision (key_le a b).
Proof. unfold key_le. apply _. Defined.
