(* ===== verification/Wire.v ===== *)
(** The framing layer of core/include/server/core/protocol/packet.hpp: the
    big-endian primitives and the fixed 14-byte packet header.  [None] as the result of an
    operation is an access outside its buffer. *)

From S2P Require Import Prelude.

(** ** Header and segment data *)

Definition k_header_bytes : nat := 14.

Inductive SegmentType := kUnknown | kSystemControl | kApplicationPayload.

Definition is_system_msg_id (msg_id : Z) : bool := (0x0001 <=? msg_id) && (msg_id <=? 0x000F).

Definition classify_segment_type (msg_id : Z) : SegmentType :=
  if is_system_msg_id msg_id then kSystemControl else kApplicationPayload.

Record PacketHeader := mkPacketHeader {
  ph_length : Z;
  ph_msg_id : Z;
  ph_flags : Z;
  ph_seq : Z;
  ph_utc_ts_ms32 : Z;
}.

Definition wf_PacketHeader (h : PacketHeader) : Prop :=
  fits 16 (ph_length h) /\ fits 16 (ph_msg_id h) /\ fits 16 (ph_flags h)
  /\ fits 32 (ph_seq h) /\ fits 32 (ph_utc_ts_ms32 h).

(** ** Big-endian primitives *)

Definition read_be16 (p : list Z) (off : nat) : option Z :=
  p0 ← p !! off;
  p1 ← p !! (off + 1)%nat;
  Some (u16 (Z.lor (Z.shiftl p0 8) p1)).

Definition read_be32 (p : list Z) (off : nat) : option Z :=
  p0 ← p !! off;
  p1 ← p !! (off + 1)%nat;
  p2 ← p !! (off + 2)%nat;
  p3 ← p !! (off + 3)%nat;
  Some (Z.lor (Z.lor (Z.lor (u32 (Z.shiftl p0 24)) (u32 (Z.shiftl p1 16)))
                     (u32 (Z.shiftl p2 8)))
              p3).

Definition be16 (v : Z) : list Z :=
  [u8 (Z.land (Z.shiftr v 8) 0xFF); u8 (Z.land v 0xFF)].

Definition be32 (v : Z) : list Z :=
  [u8 (Z.land (Z.shiftr v 24) 0xFF); u8 (Z.land (Z.shiftr v 16) 0xFF);
   u8 (Z.land (Z.shiftr v 8) 0xFF); u8 (Z.land v 0xFF)].

Definition write_be16 (v : Z) (off : nat) (out : list Z) : option (list Z) :=
  poke off (be16 v) out.

Definition write_be32 (v : Z) (off : nat) (out : list Z) : option (list Z) :=
  poke off (be32 v) out.

(** ** Packet header codec *)

Definition encode_header (h : PacketHeader) (off : nat) (out : list Z) : option (list Z) :=
  out ← write_be16 (ph_length h) off out;
  out ← write_be16 (ph_msg_id h) (off + 2) out;
  out ← write_be16 (ph_flags h) (off + 4) out;
  out ← write_be32 (ph_seq h) (off + 6) out;
  write_be32 (ph_utc_ts_ms32 h) (off + 10) out.

Definition decode_header (p : list Z) (off : nat) : option PacketHeader :=
  length ← read_be16 p off;
  msg_id ← read_be16 p (off + 2);
  flags ← read_be16 p (off + 4);
  seq ← read_be32 p (off + 6);
  ts ← read_be32 p (off + 10);
  Some (mkPacketHeader length msg_id flags seq ts).

(** ** Lemmas on the primitives *)

Lemma be16_arith v : fits 16 v -> be16 v = [v / 256; v mod 256].
Proof.
  intros Hv. unfold be16. rewrite !land_ff, !Z.shiftr_div_pow2 by lia.
  repeat f_equal; zlia.
Qed.

Lemma be32_arith v :
  fits 32 v -> be32 v = [v / 2 ^ 24; v / 2 ^ 16 mod 256; v / 2 ^ 8 mod 256; v mod 256].
Proof.
  intros Hv. unfold be32. rewrite !land_ff, !Z.shiftr_div_pow2 by lia.
  repeat f_equal; zlia.
Qed.

Lemma bytes_be16 v : bytes (be16 v).
Proof. unfold be16. repeat constructor; zlia. Qed.

Lemma bytes_be32 v : bytes (be32 v).
Proof. unfold be32. repeat constructor; zlia. Qed.

Lemma combine16 p0 p1 :
  fits 8 p0 -> fits 8 p1 -> u16 (Z.lor (Z.shiftl p0 8) p1) = p0 * 256 + p1.
Proof. intros. rewrite lor_shiftl_add; zlia. Qed.

Lemma combine32 p0 p1 p2 p3 :
  fits 8 p0 -> fits 8 p1 -> fits 8 p2 -> fits 8 p3 ->
  Z.lor (Z.lor (Z.lor (u32 (Z.shiftl p0 24)) (u32 (Z.shiftl p1 16))) (u32 (Z.shiftl p2 8))) p3
  = p0 * 2 ^ 24 + p1 * 2 ^ 16 + p2 * 2 ^ 8 + p3.
Proof.
  intros H0 H1 H2 H3.
  assert (forall x n, fits 8 x -> 0 <= n <= 24 -> u32 (Z.shiftl x n) = Z.shiftl x n) as Hs.
  { intros x n Hx Hn. apply wrap_id. rewrite Z.shiftl_mul_pow2 by lia.
    assert (0 < 2 ^ n <= 2 ^ 24) by (split; [lia | apply Z.pow_le_mono_r; lia]).
    widths. nia. }
  rewrite !Hs by (done || lia).
  replace (Z.shiftl p0 24) with (Z.shiftl (p0 * 2 ^ 8) 16)
    by (rewrite !Z.shiftl_mul_pow2 by lia; lia).
  rewrite <- Z.shiftl_lor, <- (Z.shiftl_mul_pow2 p0 8), (lor_shiftl_add p0 p1 8) by (widths; lia).
  replace (Z.shiftl (p0 * 2 ^ 8 + p1) 16) with (Z.shiftl ((p0 * 2 ^ 8 + p1) * 2 ^ 8) 8)
    by (rewrite !Z.shiftl_mul_pow2 by lia; lia).
  rewrite <- Z.shiftl_lor, <- (Z.shiftl_mul_pow2 (p0 * 2 ^ 8 + p1) 8), (lor_shiftl_add (p0 * 2 ^ 8 + p1) p2 8) by (widths; lia).
  rewrite lor_shiftl_add by (widths; lia). lia.
Qed.

Lemma read_be16_total p off :
  bytes p -> (off + 2 <= length p)%nat -> exists v, read_be16 p off = Some v /\ fits 16 v.
Proof.
  intros Hp Hl. unfold read_be16.
  destruct (lookup_lt_is_Some_2 p off) as [p0 H0]; [lia|].
  destruct (lookup_lt_is_Some_2 p (off + 1)) as [p1 H1]; [lia|].
  rewrite H0, H1. simpl. eexists; split; [done|]. apply wrap_fits. lia.
Qed.

Lemma read_be32_total p off :
  bytes p -> (off + 4 <= length p)%nat -> exists v, read_be32 p off = Some v /\ fits 32 v.
Proof.
  intros Hp Hl. unfold read_be32.
  destruct (lookup_lt_is_Some_2 p off) as [p0 H0]; [lia|].
  destruct (lookup_lt_is_Some_2 p (off + 1)) as [p1 H1]; [lia|].
  destruct (lookup_lt_is_Some_2 p (off + 2)) as [p2 H2]; [lia|].
  destruct (lookup_lt_is_Some_2 p (off + 3)) as [p3 H3]; [lia|].
  rewrite H0, H1, H2, H3. simpl. eexists; split; [done|].
  rewrite combine32 by eauto using bytes_lookup.
  eapply bytes_lookup in H0, H1, H2, H3; [|done..]. zlia.
Qed.

(** Reads past a prefix, and reading back what was written. *)
Lemma read_be16_skip pre l k : read_be16 (pre ++ l) (length pre + k) = read_be16 l k.
Proof.
  unfold read_be16. rewrite <- !Nat.add_assoc, !lookup_app_r by lia.
  by rewrite !(Nat.add_comm (length pre)), !Nat.add_sub.
Qed.

Lemma read_be32_skip pre l k : read_be32 (pre ++ l) (length pre + k) = read_be32 l k.
Proof.
  unfold read_be32. rewrite <- !Nat.add_assoc, !lookup_app_r by lia.
  by rewrite !(Nat.add_comm (length pre)), !Nat.add_sub.
Qed.

Lemma read_be16_app v post : fits 16 v -> read_be16 (be16 v ++ post) 0 = Some v.
Proof.
  intros Hv. unfold read_be16. rewrite be16_arith by done. simpl. f_equal. rewrite combine16; zlia.
Qed.

Lemma read_be32_app v post : fits 32 v -> read_be32 (be32 v ++ post) 0 = Some v.
Proof.
  intros Hv. unfold read_be32. rewrite be32_arith by done. simpl. f_equal. rewrite combine32; zlia.
Qed.

Lemma read_be16_after_be16 v l k : read_be16 (be16 v ++ l) (S (S k)) = read_be16 l k.
Proof. done. Qed.

Lemma read_be32_after_be16 v l k : read_be32 (be16 v ++ l) (S (S k)) = read_be32 l k.
Proof. done. Qed.

Lemma read_be16_after_be32 v l k : read_be16 (be32 v ++ l) (S (S (S (S k)))) = read_be16 l k.
Proof. done. Qed.

Lemma read_be32_after_be32 v l k : read_be32 (be32 v ++ l) (S (S (S (S k)))) = read_be32 l k.
Proof. done. Qed.

Lemma read_be16_after_byte v l k : read_be16 ([v] ++ l) (S k) = read_be16 l k.
Proof. done. Qed.

Lemma read_be32_after_byte v l k : read_be32 ([v] ++ l) (S k) = read_be32 l k.
Proof. done. Qed.

Lemma lookup_after_be16 v l k : (be16 v ++ l) !! S (S k) = l !! k.
Proof. done. Qed.

Lemma lookup_after_be32 v l k : (be32 v ++ l) !! S (S (S (S k))) = l !! k.
Proof. done. Qed.

Lemma lookup_after_byte (v : Z) l k : ([v] ++ l) !! S k = l !! k.
Proof. done. Qed.

Lemma lookup_byte (v : Z) l : ([v] ++ l) !! 0%nat = Some v.
Proof. done. Qed.

#[global] Arguments be16 : simpl never.
#[global] Arguments be32 : simpl never.

Create Rewrite HintDb wire.
#[export] Hint Rewrite read_be16_after_be16 read_be32_after_be16 read_be16_after_be32
  read_be32_after_be32 read_be16_after_byte read_be32_after_byte
  lookup_after_be16 lookup_after_be32 lookup_after_byte lookup_byte : wire.
#[export] Hint Rewrite read_be16_app read_be32_app using done : wire.

(** Evaluate the reads of a decoder on an encoder's output. *)
Ltac read_fields := cbn [Nat.add]; autorewrite with wire; cbn [mbind option_bind].

#[export] Hint Resolve bytes_be16 bytes_be32 : mach.

(** ** The packet header codec *)

(** The 14 bytes of a header, in wire order. *)
Definition header_bytes (h : PacketHeader) : list Z :=
  be16 (ph_length h) ++ be16 (ph_msg_id h) ++ be16 (ph_flags h)
  ++ be32 (ph_seq h) ++ be32 (ph_utc_ts_ms32 h).

Lemma encode_header_poke h off out : encode_header h off out = poke off (header_bytes h) out.
Proof.
  unfold encode_header, write_be16, write_be32, header_bytes. split_pokes. done.
Qed.

Lemma length_header_bytes h : length (header_bytes h) = k_header_bytes.
Proof. done. Qed.

Lemma bytes_header_bytes h : bytes (header_bytes h).
Proof. unfold header_bytes. rewrite !bytes_app. auto 10 with mach. Qed.

Lemma decode_header_app h post :
  wf_PacketHeader h -> decode_header (header_bytes h ++ post) 0 = Some h.
Proof.
  intros (Hl & Hm & Hf & Hs & Ht). unfold decode_header, header_bytes.
  rewrite <- !app_assoc. read_fields. by destruct h.
Qed.

Lemma decode_header_skip pre l off :
  length pre = off -> decode_header (pre ++ l) off = decode_header l 0.
Proof.
  intros <-.
  unfold decode_header. rewrite <- (Nat.add_0_r (length pre)) at 1.
  by rewrite !read_be16_skip, !read_be32_skip.
Qed.

Lemma be16_read a b : fits 8 a -> fits 8 b -> be16 (u16 (Z.lor (Z.shiftl a 8) b)) = [a; b].
Proof.
  intros. rewrite be16_arith by auto with mach. rewrite combine16 by done.
  repeat f_equal; zlia.
Qed.

Lemma be32_read a b c d :
  fits 8 a -> fits 8 b -> fits 8 c -> fits 8 d ->
  be32 (Z.lor (Z.lor (Z.lor (u32 (Z.shiftl a 24)) (u32 (Z.shiftl b 16))) (u32 (Z.shiftl c 8))) d)
  = [a; b; c; d].
Proof.
  intros. rewrite combine32 by done. rewrite be32_arith by zlia. repeat f_equal; zlia.
Qed.

Lemma fits_combine32 a b c d :
  fits 8 a -> fits 8 b -> fits 8 c -> fits 8 d ->
  fits 32 (Z.lor (Z.lor (Z.lor (u32 (Z.shiftl a 24)) (u32 (Z.shiftl b 16))) (u32 (Z.shiftl c 8))) d).
Proof. intros. rewrite combine32 by done. zlia. Qed.

Lemma decode_header_inv l :
  bytes l -> (k_header_bytes <= length l)%nat ->
  exists h, decode_header l 0 = Some h /\ wf_PacketHeader h /\ take k_header_bytes l = header_bytes h.
Proof.
  intros Hb Hl. unfold k_header_bytes in *.
  do 14 (destruct l as [|? l]; [simpl in Hl; lia|]; apply bytes_cons in Hb as [? Hb]).
  unfold decode_header. cbn -[Z.lor Z.shiftl wrap be16 be32]. eexists; split; [done|].
  unfold wf_PacketHeader, header_bytes. cbn [ph_length ph_msg_id ph_flags ph_seq ph_utc_ts_ms32].
  rewrite !be16_read, !be32_read by done. split_and!; auto using fits_combine32 with mach.
Qed.

(** ** Theorems *)

(** Header codec, both directions: a well-formed header written anywhere into a
    buffer is read back from there, the write touches its 14 bytes only, and
    any 14 bytes decode to a well-formed header whose encoding they are. *)
Theorem packet_header_codec (h : PacketHeader) (off : nat) (out : list Z) :
  wf_PacketHeader h -> bytes out -> (off + k_header_bytes <= length out)%nat ->
  (exists out', encode_header h off out = Some out'
     /\ decode_header out' off = Some h
     /\ take off out' = take off out
     /\ drop (off + k_header_bytes) out' = drop (off + k_header_bytes) out)
  /\ (exists h', decode_header out off = Some h'
        /\ wf_PacketHeader h'
        /\ encode_header h' off out = Some out).
Proof.
  intros Hh Hout Hlen. unfold k_header_bytes in *.
  assert (length (take off out) = off) as Hoff by (rewrite length_take; lia).
  split.
  - exists (take off out ++ header_bytes h ++ drop (off + 14) out).
    rewrite encode_header_poke, poke_Some by (rewrite length_header_bytes; unfold k_header_bytes; lia).
    split_and!; [done|..].
    + rewrite decode_header_skip by done. by apply decode_header_app.
    + by rewrite take_app_length' by done.
    + rewrite drop_app_ge, drop_app_ge; rewrite Hoff, ?length_header_bytes; unfold k_header_bytes; [|lia..].
      by replace (off + 14 - off - 14)%nat with 0%nat by lia.
  - destruct (decode_header_inv (drop off out)) as (h' & Hd & Hwf & Htake);
      [by apply bytes_drop|rewrite length_drop; unfold k_header_bytes; lia|].
    exists h'. rewrite <- (take_drop off out) at 1.
    rewrite decode_header_skip by done. split_and!; [done..|].
    rewrite encode_header_poke, poke_Some by (rewrite length_header_bytes; unfold k_header_bytes; lia).
    rewrite <- Htake, length_take, length_drop. unfold k_header_bytes.
    rewrite Nat.min_l by lia. by rewrite <- drop_drop, take_drop, take_drop.
Qed.


Lemma packet_header_codec_witness :
  (exists out', encode_header (mkPacketHeader 5 0x0100 1 77 123456789) 2 (replicate 20 0) = Some out'
     /\ decode_header out' 2 = Some (mkPacketHeader 5 0x0100 1 77 123456789)
     /\ take 2 out' = take 2 (replicate 20 0)
     /\ drop (2 + k_header_bytes) out' = drop (2 + k_header_bytes) (replicate 20 0))
  /\ (exists h', decode_header (replicate 20 0) 2 = Some h'
        /\ wf_PacketHeader h'
        /\ encode_header h' 2 (replicate 20 0) = Some (replicate 20 0)).
Proof.
  apply packet_header_codec.
  - repeat split; vm_compute; discriminate || reflexivity.
  - apply Forall_replicate. vm_compute. split; discriminate || reflexivity.
  - vm_compute. lia.
Defined.
