(* ===== verification/Utf8.v ===== *)
(** Strict UTF-8 validation and length-prefixed strings
    (core/include/server/core/protocol/packet.hpp), against the RFC 3629
    definition of well-formed text. *)

From S2P Require Import Prelude Wire.

(** ** Strict UTF-8 validation *)

(** Classification of a lead byte: continuation bytes to follow, the payload
    bits of the lead byte, and the least code point of that length. *)
Definition utf8_lead (byte0 : Z) : option (nat * Z * Z) :=
  if Z.land byte0 0xE0 =? 0xC0 then Some (1%nat, Z.land byte0 0x1F, 0x80)
  else if Z.land byte0 0xF0 =? 0xE0 then Some (2%nat, Z.land byte0 0x0F, 0x800)
  else if Z.land byte0 0xF8 =? 0xF0 then Some (3%nat, Z.land byte0 0x07, 0x10000)
  else None.

(** The inner loop [for (k = 1; k <= follow; ++k)]: [Some None] is the early
    [return false], [Some (Some cp)] the accumulated code point. *)
Fixpoint utf8_follow (todo : nat) (s : list Z) (at_ : nat) (codepoint : Z) : option (option Z) :=
  match todo with
  | O => Some (Some codepoint)
  | S todo =>
      cont ← s !! at_;
      if negb (Z.land cont 0xC0 =? 0x80) then Some None
      else utf8_follow todo s (S at_) (Z.lor (u32 (Z.shiftl codepoint 6)) (Z.land cont 0x3F))
  end.

(** The outer loop from index [i]; running out of [fuel] is also [None]. *)
Fixpoint utf8_loop (fuel : nat) (s : list Z) (i : nat) : option bool :=
  match fuel with
  | O => None
  | S fuel =>
      if (i <? length s)%nat then
        byte0 ← s !! i;
        if byte0 <? 0x80 then utf8_loop fuel s (S i)
        else
          match utf8_lead byte0 with
          | None => Some false
          | Some (follow, codepoint, min_codepoint) =>
              if (length s <=? i + follow)%nat then Some false
              else
                r ← utf8_follow follow s (S i) codepoint;
                match r with
                | None => Some false
                | Some codepoint =>
                    if codepoint <? min_codepoint then Some false
                    else if 0x10FFFF <? codepoint then Some false
                    else if (0xD800 <=? codepoint) && (codepoint <=? 0xDFFF) then Some false
                    else utf8_loop fuel s (i + (follow + 1))
                end
          end
      else Some true
  end.

Definition is_valid_utf8 (s : list Z) : option bool := utf8_loop (S (length s)) s 0.

(** ** Length-prefixed strings *)

Definition write_lp_utf8 (out : list Z) (str : string) : option (list Z) :=
  let data := bytes_of_string str in
  let data := if 0xFFFF <? zlen data then take (Z.to_nat 0xFFFF) data else data in
  let len := u16 (zlen data) in
  let offset := length out in
  let out := resize (offset + 2 + Z.to_nat len) 0 out in
  out ← write_be16 len offset out;
  if len =? 0 then Some out else poke (offset + 2) (take (Z.to_nat len) data) out.

(** The [bool] result with the values of the reference parameters [in] and [out] after the
    call; [None] is a memory error. *)
Definition read_lp_utf8_refs (input : list Z) (out : string) : option (bool * list Z * string) :=
  if zlen input <? 2 then Some (false, input, out)
  else
    len ← read_be16 input 0;
    if zlen input <? 2 + len then Some (false, input, out)
    else
      let payload := take (Z.to_nat len) (drop 2 input) in
      valid ← is_valid_utf8 payload;
      if negb valid then Some (false, input, out)
      else Some (true, drop (2 + Z.to_nat len) input, string_of_bytes payload).

(** The form the models of the callers use, with [out] empty before the call: the string
    read and the advanced span, or [None] with both as before. *)
Definition read_lp_utf8 (input : list Z) : option (option (string * list Z)) :=
  '(ok, rest, s) ← read_lp_utf8_refs input EmptyString;
  Some (if ok : bool then Some (s, rest) else None).

(** ** The UTF-8 specification (RFC 3629) *)

Definition scalar_value (c : Z) : Prop := 0 <= c <= 0x10FFFF /\ ~ (0xD800 <= c <= 0xDFFF).

Definition utf8_encode (c : Z) : list Z :=
  if c <? 0x80 then [c]
  else if c <? 0x800 then [0xC0 + c / 64; 0x80 + c mod 64]
  else if c <? 0x10000 then [0xE0 + c / 4096; 0x80 + c / 64 mod 64; 0x80 + c mod 64]
  else [0xF0 + c / 262144; 0x80 + c / 4096 mod 64; 0x80 + c / 64 mod 64; 0x80 + c mod 64].

Definition well_formed_utf8 (s : list Z) : Prop :=
  exists cs, Forall scalar_value cs /\ s = cs ≫= utf8_encode.

Lemma well_formed_nil : well_formed_utf8 [].
Proof. exists []. done. Qed.

Lemma well_formed_cons l :
  l <> [] ->
  well_formed_utf8 l <->
  exists c tail, scalar_value c /\ l = utf8_encode c ++ tail /\ well_formed_utf8 tail.
Proof.
  intros Hl. split.
  - intros ([|c cs] & Hcs & ->); [done|]. apply Forall_cons in Hcs as [??].
    exists c, (cs ≫= utf8_encode). split_and!; [done..|]. by exists cs.
  - intros (c & tail & Hc & -> & cs & Hcs & ->). exists (c :: cs). split; [by constructor|done].
Qed.

(** The lead and continuation tests as ranges, checked on all 256 bytes. *)
Definition utf8_lead_range (b : Z) : option (nat * Z * Z) :=
  if b <? 0xC0 then None
  else if b <? 0xE0 then Some (1%nat, b - 0xC0, 0x80)
  else if b <? 0xF0 then Some (2%nat, b - 0xE0, 0x800)
  else if b <? 0xF8 then Some (3%nat, b - 0xF0, 0x10000)
  else None.

Lemma utf8_lead_ranges b : fits 8 b -> 0x80 <= b -> utf8_lead b = utf8_lead_range b.
Proof.
  intros Hb H80.
  enough ((b <? 0x80) || bool_decide (utf8_lead b = utf8_lead_range b) = true) as H.
  { destruct (Z.ltb_spec b 0x80); [lia|]. by apply bool_decide_eq_true in H. }
  clear H80. revert b Hb.
  apply (byte_forall (fun b => (b <? 0x80) || bool_decide (utf8_lead b = utf8_lead_range b))).
  vm_compute. done.
Qed.

Lemma utf8_cont_range b : fits 8 b -> (Z.land b 0xC0 =? 0x80) = (0x80 <=? b) && (b <? 0xC0).
Proof.
  intros Hb.
  enough (Bool.eqb (Z.land b 0xC0 =? 0x80) ((0x80 <=? b) && (b <? 0xC0)) = true) as H
    by by apply Bool.eqb_prop in H.
  revert b Hb.
  apply (byte_forall (fun b => Bool.eqb (Z.land b 0xC0 =? 0x80) ((0x80 <=? b) && (b <? 0xC0)))).
  vm_compute. done.
Qed.

Lemma land_3f b : Z.land b 0x3F = b mod 64.
Proof. change 0x3F with (Z.ones 6). by rewrite Z.land_ones. Qed.

Lemma utf8_shift_in cp b :
  0 <= cp < 2 ^ 26 -> Z.lor (u32 (Z.shiftl cp 6)) (b mod 64) = cp * 64 + b mod 64.
Proof.
  intros. rewrite wrap_id by (rewrite Z.shiftl_mul_pow2 by lia; zlia).
  rewrite lor_shiftl_add; zlia.
Qed.

Lemma utf8_encode_prefix c c' t t' :
  scalar_value c -> scalar_value c' ->
  utf8_encode c ++ t = utf8_encode c' ++ t' -> c = c' /\ t = t'.
Proof.
  unfold scalar_value, utf8_encode. intros Hc Hc' Heq.
  repeat case_match; simplify_eq/=; split; try done; zbool; zlia.
Qed.

Lemma well_formed_step c t :
  scalar_value c -> well_formed_utf8 (utf8_encode c ++ t) <-> well_formed_utf8 t.
Proof.
  intros Hc.
  rewrite well_formed_cons by (unfold utf8_encode; repeat case_match; done).
  split.
  - intros (c' & t' & Hc' & Heq & Ht'). by apply utf8_encode_prefix in Heq as [<- <-].
  - intros Ht. by exists c, t.
Qed.

(** A byte string none of whose prefixes encodes a scalar value. *)
Ltac utf8_reject :=
  exists false; split; [done|split; [done|]]; intros Hwf; exfalso;
  apply well_formed_cons in Hwf as (c & t & [Hc1 Hc2] & Heq & _); [|done];
  unfold utf8_encode in Heq; repeat case_match; simplify_eq/=; zbool; zlia.

Lemma utf8_follow_skip pre l todo k cp :
  utf8_follow todo (pre ++ l) (length pre + k) cp = utf8_follow todo l k cp.
Proof.
  revert k cp. induction todo as [|todo IH]; intros k cp; simpl; [done|].
  rewrite lookup_app_r by lia. replace (length pre + k - length pre)%nat with k by lia.
  destruct (l !! k); simpl; [|done]. destruct (negb _); [done|].
  by rewrite <- IH, Nat.add_succ_r.
Qed.

Lemma utf8_loop_skip pre l fuel k :
  utf8_loop fuel (pre ++ l) (length pre + k) = utf8_loop fuel l k.
Proof.
  revert k. induction fuel as [|fuel IH]; intros k; simpl; [done|].
  rewrite length_app, lookup_app_r by lia.
  replace (length pre + k - length pre)%nat with k by lia.
  replace (length pre + k <? length pre + length l)%nat with (k <? length l)%nat
    by (destruct (Nat.ltb_spec k (length l)), (Nat.ltb_spec (length pre + k) (length pre + length l)); lia).
  destruct (k <? length l)%nat; [|done]. destruct (l !! k) as [b|]; simpl; [|done].
  rewrite <- Nat.add_succ_r, IH. destruct (b <? 128); [done|].
  destruct (utf8_lead b) as [[[follow cp] lo]|]; [|done].
  replace (length pre + length l <=? length pre + k + follow)%nat with (length l <=? k + follow)%nat
    by (destruct (Nat.leb_spec (length l) (k + follow)),
          (Nat.leb_spec (length pre + length l) (length pre + k + follow)); lia).
  destruct (length l <=? k + follow)%nat; [done|].
  rewrite utf8_follow_skip. destruct (utf8_follow _ _ _ _) as [[r|]|]; simpl; [|done..].
  repeat (destruct (_ : bool); [done|]). by rewrite <- Nat.add_assoc, IH.
Qed.

(** The loop continued after a decoded code point. *)
Lemma utf8_accept fuel pre tail c :
  scalar_value c -> pre = utf8_encode c ->
  (exists b, utf8_loop fuel tail 0 = Some b /\ (b = true <-> well_formed_utf8 tail)) ->
  exists b, utf8_loop fuel (pre ++ tail) (length pre) = Some b
            /\ (b = true <-> well_formed_utf8 (pre ++ tail)).
Proof.
  intros Hc -> (b & Hb & Hiff). exists b. split.
  - rewrite <- (Nat.add_0_r (length _)), utf8_loop_skip. done.
  - by rewrite well_formed_step.
Qed.

(** One continuation byte of the inner loop. *)
Lemma utf8_follow_cont todo s k cp b :
  s !! k = Some b -> fits 8 b -> 0 <= cp < 2 ^ 26 ->
  utf8_follow (S todo) s k cp =
    if (0x80 <=? b) && (b <? 0xC0) then utf8_follow todo s (S k) (cp * 64 + b mod 64)
    else Some None.
Proof.
  intros Hk Hb Hcp. cbn [utf8_follow]. rewrite Hk. cbn [mbind option_bind].
  rewrite utf8_cont_range, land_3f, utf8_shift_in by done.
  by destruct ((0x80 <=? b) && (b <? 0xC0)).
Qed.

Ltac utf8_follow_step :=
  erewrite utf8_follow_cont; [|reflexivity|done|zlia];
  match goal with
  | |- context [(0x80 <=? ?b) && (?b <? 0xC0)] =>
      destruct (Z.leb_spec 0x80 b), (Z.ltb_spec b 0xC0); cbn [andb mbind option_bind]
  end.

Lemma utf8_loop_spec fuel l :
  (length l < fuel)%nat -> bytes l ->
  exists b, utf8_loop fuel l 0 = Some b /\ (b = true <-> well_formed_utf8 l).
Proof.
  revert l. induction fuel as [|fuel IH]; intros l Hfuel Hl; [lia|].
  destruct l as [|b0 l]; [exists true; split; [done|]; by split; [intros; apply well_formed_nil|]|].
  apply bytes_cons in Hl as [Hb0 Hl]. simpl in Hfuel.
  cbn [utf8_loop length Nat.ltb Nat.leb lookup list_lookup mbind option_bind].
  destruct (Z.ltb_spec b0 0x80) as [Hlt|Hge].
  { apply (utf8_accept fuel [b0] l b0); [| |apply IH; [lia|done]].
    - unfold scalar_value. widths. lia.
    - unfold utf8_encode. by zbool. }
  rewrite utf8_lead_ranges by done. unfold utf8_lead_range.
  destruct (Z.ltb_spec b0 0xC0); [utf8_reject|].
  destruct (Z.ltb_spec b0 0xE0); [|destruct (Z.ltb_spec b0 0xF0); [|destruct (Z.ltb_spec b0 0xF8)]].
  4: { utf8_reject. }
  - destruct l as [|b1 l]; cbn [length Nat.leb Nat.add]; [utf8_reject|].
    apply bytes_cons in Hl as [Hb1 Hl]. simpl in Hfuel.
    utf8_follow_step; try utf8_reject. cbn [utf8_follow mbind option_bind].
    repeat (case_match; [utf8_reject|]).
    apply (utf8_accept fuel [b0; b1] l ((b0 - 0xC0) * 64 + b1 mod 64)); [..|apply IH; [lia|done]].
    + unfold scalar_value. zbool; zlia.
    + unfold utf8_encode. zbool; repeat f_equal; zlia.
  - destruct l as [|b1 [|b2 l]]; cbn [length Nat.leb Nat.add]; try utf8_reject.
    apply bytes_cons in Hl as [Hb1 Hl]. apply bytes_cons in Hl as [Hb2 Hl]. simpl in Hfuel.
    do 2 (utf8_follow_step; try utf8_reject). cbn [utf8_follow mbind option_bind].
    repeat (case_match; [utf8_reject|]).
    apply (utf8_accept fuel [b0; b1; b2] l (((b0 - 0xE0) * 64 + b1 mod 64) * 64 + b2 mod 64));
      [..|apply IH; [lia|done]].
    + unfold scalar_value. zbool; zlia.
    + unfold utf8_encode. zbool; repeat f_equal; zlia.
  - destruct l as [|b1 [|b2 [|b3 l]]]; cbn [length Nat.leb Nat.add]; try utf8_reject.
    apply bytes_cons in Hl as [Hb1 Hl]. apply bytes_cons in Hl as [Hb2 Hl].
    apply bytes_cons in Hl as [Hb3 Hl]. simpl in Hfuel.
    do 3 (utf8_follow_step; try utf8_reject). cbn [utf8_follow mbind option_bind].
    repeat (case_match; [utf8_reject|]).
    apply (utf8_accept fuel [b0; b1; b2; b3] l
      ((((b0 - 0xF0) * 64 + b1 mod 64) * 64 + b2 mod 64) * 64 + b3 mod 64));
      [..|apply IH; [lia|done]].
    + unfold scalar_value. zbool; zlia.
    + unfold utf8_encode. zbool; repeat f_equal; zlia.
Qed.

Lemma is_valid_utf8_total s :
  bytes s -> exists b, is_valid_utf8 s = Some b /\ (b = true <-> well_formed_utf8 s).
Proof. intros Hs. apply utf8_loop_spec; [lia|done]. Qed.

(** ** Lemmas on length-prefixed strings *)

(** What the writer appends: at most 0xFFFF bytes after their count. *)
Lemma write_lp_utf8_eq out str :
  let data := take (Z.to_nat 0xFFFF) (bytes_of_string str) in
  write_lp_utf8 out str = Some (out ++ be16 (zlen data) ++ data).
Proof.
  unfold write_lp_utf8.
  set (d := bytes_of_string str). set (n := Z.to_nat 0xFFFF).
  assert ((if 0xFFFF <? zlen d then take n d else d) = take n d) as ->.
  { destruct (Z.ltb_spec 0xFFFF (zlen d)); [done|]. rewrite take_ge; [done|]. unfold n; lia. }
  set (data := take n d).
  assert (u16 (zlen data) = zlen data) as ->.
  { apply wrap_id. unfold data. rewrite length_take. unfold n. widths. lia. }
  cbn zeta. rewrite Nat2Z.id, resize_ge by lia.
  replace (length out + 2 + length data - length out)%nat with (2 + length data)%nat by lia.
  rewrite replicate_add. unfold write_be16. rewrite poke_split by done. cbn [mbind option_bind].
  destruct (Z.eqb_spec (zlen data) 0) as [H0|Hne].
  - destruct data; [done|simpl in *; lia].
  - rewrite take_ge by lia.
    rewrite (app_assoc out). replace (length out + 2)%nat with (length (out ++ be16 (zlen data)))
      by (by rewrite length_app).
    rewrite <- (app_nil_r (replicate _ 0)), poke_split by (by rewrite length_replicate).
    by rewrite app_nil_r, <- app_assoc.
Qed.

Lemma read_lp_utf8_app data rest v :
  zlen data <= 0xFFFF -> is_valid_utf8 data = Some v ->
  read_lp_utf8 (be16 (zlen data) ++ data ++ rest)
  = Some (if v then Some (string_of_bytes data, rest) else None).
Proof.
  intros Hlen Hv. unfold read_lp_utf8, read_lp_utf8_refs.
  assert (fits 16 (zlen data)) as Hfit by (widths; lia).
  rewrite read_be16_app by done. cbn [mbind option_bind].
  rewrite Nat2Z.id. change (drop 2 (be16 (zlen data) ++ data ++ rest)) with (data ++ rest).
  change (drop (2 + length data) (be16 (zlen data) ++ data ++ rest)) with (drop (length data) (data ++ rest)).
  rewrite take_app_length, drop_app_length, Hv. cbn [mbind option_bind].
  rewrite !length_app. change (length (be16 _)) with 2%nat.
  destruct (Z.ltb_spec (Z.of_nat (2 + (length data + length rest))) 2); [lia|].
  destruct (Z.ltb_spec (Z.of_nat (2 + (length data + length rest))) (2 + zlen data)); [lia|].
  by destruct v.
Qed.

Lemma read_lp_utf8_well_formed data rest :
  bytes data -> zlen data <= 0xFFFF -> well_formed_utf8 data ->
  read_lp_utf8 (be16 (zlen data) ++ data ++ rest) = Some (Some (string_of_bytes data, rest)).
Proof.
  intros Hb Hlen Hwf. destruct (is_valid_utf8_total data Hb) as (v & Hv & Hiff).
  rewrite (read_lp_utf8_app data rest v) by done. by rewrite (proj2 Hiff Hwf).
Qed.

Lemma well_formed_ascii_run k b t :
  0 <= b < 0x80 -> well_formed_utf8 (replicate k b ++ t) <-> well_formed_utf8 t.
Proof.
  intros Hb. induction k as [|k IH]; [done|]. cbn [replicate app].
  assert (utf8_encode b = [b]) as He by (unfold utf8_encode; by zbool).
  change (b :: replicate k b ++ t) with ([b] ++ replicate k b ++ t).
  rewrite <- He at 1. rewrite well_formed_step; [done|]. unfold scalar_value. lia.
Qed.

Lemma read_lp_utf8_inv input :
  bytes input ->
  exists r, read_lp_utf8 input = Some r /\
    forall s rest, r = Some (s, rest) ->
      input = be16 (zlen (bytes_of_string s)) ++ bytes_of_string s ++ rest
      /\ zlen (bytes_of_string s) <= 0xFFFF /\ well_formed_utf8 (bytes_of_string s).
Proof.
  intros Hin. unfold read_lp_utf8, read_lp_utf8_refs.
  destruct (Z.ltb_spec (zlen input) 2) as [|H2]; [by exists None|].
  destruct input as [|a [|b input]]; [simpl in H2; lia..|].
  apply bytes_cons in Hin as [Ha Hin]. apply bytes_cons in Hin as [Hb Hin].
  set (len := u16 (Z.lor (Z.shiftl a 8) b)).
  change (read_be16 (a :: b :: input) 0) with (Some len). cbn [mbind option_bind].
  assert (fits 16 len) as Hlen by (apply wrap_fits; lia).
  destruct (Z.ltb_spec (zlen (a :: b :: input)) (2 + len)) as [|Hl]; [by exists None|].
  cbv zeta. change (drop 2 (a :: b :: input)) with input. set (payload := take (Z.to_nat len) input).
  assert (bytes payload) as Hp by (by apply bytes_take).
  destruct (is_valid_utf8_total payload Hp) as (v & -> & Hv). cbn [mbind option_bind].
  destruct v; cbn [negb]; [|by exists None].
  eexists; split; [done|]. intros s rest [= <- <-].
  rewrite bytes_of_string_of_bytes by done.
  assert (zlen payload = len) as Hpl.
  { unfold payload. rewrite length_take. simpl in Hl. widths. lia. }
  split_and!; [|widths; lia|by apply Hv].
  rewrite Hpl. replace (be16 len) with [a; b] by (unfold len; by rewrite be16_read).
  change (drop (2 + Z.to_nat len) (a :: b :: input)) with (drop (Z.to_nat len) input).
  unfold payload. by rewrite take_drop.
Qed.

(** ** Theorems *)

(** C30. The validator terminates without leaving its buffer on every byte string,
    and accepts exactly the concatenations of RFC 3629 encodings of Unicode
    scalar values. *)
Theorem is_valid_utf8_correct (s : list Z) :
  bytes s -> exists b, is_valid_utf8 s = Some b /\ (b = true <-> well_formed_utf8 s).
Proof. apply is_valid_utf8_total. Qed.

Lemma is_valid_utf8_correct_witness :
  exists b, is_valid_utf8 [0xF0; 0x9F; 0x98; 0x80; 0x41] = Some b
            /\ (b = true <-> well_formed_utf8 [0xF0; 0x9F; 0x98; 0x80; 0x41]).
Proof. apply is_valid_utf8_correct. repeat constructor; vm_compute; done. Defined.

(** The result of the call from that of the reduced form. *)
Lemma read_lp_utf8_refs_result input out r :
  read_lp_utf8 input = Some r ->
  read_lp_utf8_refs input out
  = Some (match r with Some (s, rest) => (true, rest, s) | None => (false, input, out) end).
Proof.
  unfold read_lp_utf8, read_lp_utf8_refs. destruct (_ <? _); [by intros [= <-]|].
  destruct (read_be16 input 0) as [len|]; [|done]. cbn [mbind option_bind].
  destruct (_ <? _); [by intros [= <-]|]. cbv zeta. destruct (is_valid_utf8 _) as [[]|]; [..|done]; by intros [= <-].
Qed.

(** C32. The reader never leaves its span.  It returns [true] exactly on a 16-bit byte count
    followed by that many bytes of well-formed UTF-8, whatever follows; the string is then
    in [out] and the span has advanced to what follows.  Otherwise it returns [false], and
    both the span and [out] are as before the call. *)
Theorem read_lp_utf8_exact (input : list Z) (out : string) :
  bytes input ->
  exists ok input' out', read_lp_utf8_refs input out = Some (ok, input', out') /\
    if ok : bool
    then input = be16 (zlen (bytes_of_string out')) ++ bytes_of_string out' ++ input'
         /\ zlen (bytes_of_string out') <= 0xFFFF /\ well_formed_utf8 (bytes_of_string out')
    else input' = input /\ out' = out
         /\ forall s rest, input = be16 (zlen (bytes_of_string s)) ++ bytes_of_string s ++ rest ->
              zlen (bytes_of_string s) <= 0xFFFF -> ~ well_formed_utf8 (bytes_of_string s).
Proof.
  intros Hin. destruct (read_lp_utf8_inv input Hin) as (r & Hr & Hinv).
  rewrite (read_lp_utf8_refs_result input out r Hr). destruct r as [[s rest]|].
  - exists true, rest, s. split; [done|]. by apply Hinv.
  - exists false, input, out. split_and!; [done..|]. intros s rest -> Hlen Hwf.
    by rewrite read_lp_utf8_well_formed in Hr by auto with mach.
Qed.

Lemma read_lp_utf8_exact_witness :
  exists ok input' out', read_lp_utf8_refs [0; 2; 0xC3; 0xA9; 7] EmptyString = Some (ok, input', out') /\
    if ok : bool
    then [0; 2; 0xC3; 0xA9; 7] = be16 (zlen (bytes_of_string out')) ++ bytes_of_string out' ++ input'
         /\ zlen (bytes_of_string out') <= 0xFFFF /\ well_formed_utf8 (bytes_of_string out')
    else input' = [0; 2; 0xC3; 0xA9; 7] /\ out' = EmptyString
         /\ forall s rest, [0; 2; 0xC3; 0xA9; 7] = be16 (zlen (bytes_of_string s)) ++ bytes_of_string s ++ rest ->
              zlen (bytes_of_string s) <= 0xFFFF -> ~ well_formed_utf8 (bytes_of_string s).
Proof. apply read_lp_utf8_exact. repeat constructor; vm_compute; done. Defined.

(** Round trip: a well-formed string of at most 0xFFFF bytes appended to any
    buffer is read back from there, whatever follows it. *)
Theorem lp_utf8_roundtrip (out : list Z) (str : string) (rest : list Z) :
  well_formed_utf8 (bytes_of_string str) -> zlen (bytes_of_string str) <= 0xFFFF ->
  exists field, write_lp_utf8 out str = Some (out ++ field)
    /\ read_lp_utf8 (field ++ rest) = Some (Some (str, rest)).
Proof.
  intros Hwf Hlen. eexists. rewrite write_lp_utf8_eq. split; [done|].
  rewrite take_ge by lia. rewrite <- app_assoc, read_lp_utf8_well_formed by auto with mach.
  by rewrite string_of_bytes_of_string.
Qed.

Lemma lp_utf8_roundtrip_witness :
  exists field, write_lp_utf8 [1; 2] "lobby" = Some ([1; 2] ++ field)
    /\ read_lp_utf8 (field ++ [9]) = Some (Some ("lobby", [9])).
Proof.
  apply lp_utf8_roundtrip; [|vm_compute; discriminate].
  exists [108; 111; 98; 98; 121].
  split; [repeat constructor; cbv; intuition discriminate|reflexivity].
Defined.

Lemma lone_lead_ill_formed : ~ well_formed_utf8 [0xC3].
Proof.
  intros Hwf. apply well_formed_cons in Hwf as (c & t & [Hc _] & Heq & _); [|done].
  unfold utf8_encode in Heq. repeat case_match; simplify_eq/=; zbool; zlia.
Qed.

(** The writer cuts a longer string at 0xFFFF bytes, possibly inside a
    character: the peer then rejects the field it was sent. *)
Definition cut_bytes : list Z := replicate (Z.to_nat 0xFFFE) 0x61 ++ [0xC3; 0xA9].

Theorem write_lp_utf8_cuts_characters :
  well_formed_utf8 cut_bytes
  /\ (write_lp_utf8 [] (string_of_bytes cut_bytes) ≫= read_lp_utf8) = Some None.
Proof.
  assert (bytes cut_bytes) as Hb.
  { apply Forall_app. split; [apply Forall_replicate|repeat constructor]; widths; lia. }
  split.
  - apply well_formed_ascii_run; [lia|]. exists [0xE9]. split; [|done].
    repeat constructor; unfold scalar_value; lia.
  - rewrite write_lp_utf8_eq, bytes_of_string_of_bytes by done. cbn [mbind option_bind].
    assert (take (Z.to_nat 0xFFFF) cut_bytes = replicate (Z.to_nat 0xFFFE) 0x61 ++ [0xC3]) as ->.
    { unfold cut_bytes. rewrite take_app_ge by (rewrite length_replicate; lia).
      rewrite length_replicate. by replace (Z.to_nat 0xFFFF - Z.to_nat 0xFFFE)%nat with 1%nat by lia. }
    set (data := replicate _ _ ++ _).
    assert (bytes data) as Hd.
    { apply Forall_app. split; [apply Forall_replicate|repeat constructor]; widths; lia. }
    destruct (is_valid_utf8_total data Hd) as (v & Hv & Hiff).
    pose proof (read_lp_utf8_app data [] v) as Hread. rewrite app_nil_r in Hread.
    rewrite app_nil_l, Hread; [|unfold data; rewrite length_app, length_replicate; simpl length; lia|done].
    destruct v; [|done]. exfalso. pose proof (proj1 Hiff eq_refl) as Hwf.
    apply well_formed_ascii_run in Hwf; [|lia]. by apply lone_lead_ill_formed in Hwf.
Qed.
