(* ===== verification/RudpPacket.v ===== *)
(** The outer header of the reliable-UDP transport
    (core/include/server/core/net/rudp/rudp_packet.hpp): a 34-byte big-endian
    header followed by its payload.  [None] is an access outside a buffer. *)

From S2P Require Import Prelude Wire.

Definition kRudpMagic : Z := 0x5255.
Definition kRudpHeaderBytes : nat := 34.

(** [enum class PacketType : std::uint8_t]; the decoder casts any byte to it,
    so a packet type is its underlying byte. *)
Definition kHello : Z := 1.
Definition kHelloAck : Z := 2.
Definition kData : Z := 3.
Definition kPing : Z := 4.
Definition kClose : Z := 5.

Definition kFlagAckOnly : Z := 1.
Definition kFlagRetransmit : Z := 2.

Record RudpHeader := mkRudpHeader {
  rh_magic : Z;
  rh_version : Z;
  rh_type : Z;
  rh_connection_id : Z;
  rh_packet_number : Z;
  rh_ack_largest : Z;
  rh_ack_mask : Z;
  rh_ack_delay_ms : Z;
  rh_channel : Z;
  rh_flags : Z;
  rh_timestamp_ms : Z;
  rh_payload_length : Z;
}.

(** [RudpHeader{}] *)
Definition default_RudpHeader : RudpHeader :=
  mkRudpHeader kRudpMagic 1 kData 0 0 0 0 0 0 0 0 0.

Definition wf_RudpHeader (h : RudpHeader) : Prop :=
  fits 16 (rh_magic h) /\ fits 8 (rh_version h) /\ fits 8 (rh_type h)
  /\ fits 32 (rh_connection_id h) /\ fits 32 (rh_packet_number h)
  /\ fits 32 (rh_ack_largest h) /\ fits 64 (rh_ack_mask h)
  /\ fits 16 (rh_ack_delay_ms h) /\ fits 8 (rh_channel h) /\ fits 8 (rh_flags h)
  /\ fits 32 (rh_timestamp_ms h) /\ fits 16 (rh_payload_length h).

Definition set_payload_length (n : Z) (h : RudpHeader) : RudpHeader :=
  mkRudpHeader (rh_magic h) (rh_version h) (rh_type h) (rh_connection_id h)
    (rh_packet_number h) (rh_ack_largest h) (rh_ack_mask h) (rh_ack_delay_ms h)
    (rh_channel h) (rh_flags h) (rh_timestamp_ms h) n.

Record DecodeResult := mkDecodeResult {
  dr_ok : bool;
  dr_header : RudpHeader;
  dr_payload : list Z;
}.

Definition default_DecodeResult : DecodeResult := mkDecodeResult false default_RudpHeader [].

Definition rudp_encode_header (h : RudpHeader) (out : list Z) : option (list Z) :=
  out ← write_be16 (rh_magic h) 0 out;
  out ← poke 2 [rh_version h] out;
  out ← poke 3 [rh_type h] out;
  out ← write_be32 (rh_connection_id h) 4 out;
  out ← write_be32 (rh_packet_number h) 8 out;
  out ← write_be32 (rh_ack_largest h) 12 out;
  out ← write_be32 (u32 (Z.land (Z.shiftr (rh_ack_mask h) 32) 0xFFFFFFFF)) 16 out;
  out ← write_be32 (u32 (Z.land (rh_ack_mask h) 0xFFFFFFFF)) 20 out;
  out ← write_be16 (rh_ack_delay_ms h) 24 out;
  out ← poke 26 [rh_channel h] out;
  out ← poke 27 [rh_flags h] out;
  out ← write_be32 (rh_timestamp_ms h) 28 out;
  write_be16 (rh_payload_length h) 32 out.

Definition decode_packet (datagram : list Z) : option DecodeResult :=
  if zlen datagram <? Z.of_nat kRudpHeaderBytes then Some default_DecodeResult
  else
    magic ← read_be16 datagram 0;
    version ← datagram !! 2%nat;
    type ← datagram !! 3%nat;
    connection_id ← read_be32 datagram 4;
    packet_number ← read_be32 datagram 8;
    ack_largest ← read_be32 datagram 12;
    ack_hi ← read_be32 datagram 16;
    ack_lo ← read_be32 datagram 20;
    let ack_mask := Z.lor (u64 (Z.shiftl ack_hi 32)) ack_lo in
    ack_delay_ms ← read_be16 datagram 24;
    channel ← datagram !! 26%nat;
    flags ← datagram !! 27%nat;
    timestamp_ms ← read_be32 datagram 28;
    payload_length ← read_be16 datagram 32;
    if negb (zlen datagram =? Z.of_nat kRudpHeaderBytes + payload_length)
    then Some default_DecodeResult
    else
      Some (mkDecodeResult true
        (mkRudpHeader magic version type connection_id packet_number ack_largest ack_mask
           ack_delay_ms channel flags timestamp_ms payload_length)
        (take (Z.to_nat payload_length) (drop kRudpHeaderBytes datagram))).

Definition encode_packet (header : RudpHeader) (payload : list Z) : option (list Z) :=
  let out := replicate (kRudpHeaderBytes + length payload) 0 in
  let mutable_header := set_payload_length (u16 (zlen payload)) header in
  out ← rudp_encode_header mutable_header out;
  if decide (payload = []) then Some out else poke kRudpHeaderBytes payload out.

Definition looks_like_rudp (datagram : list Z) : option bool :=
  if 2 <=? zlen datagram then
    m ← read_be16 datagram 0;
    Some (m =? kRudpMagic)
  else Some false.

(** ** Lemmas *)

Definition rudp_header_bytes (h : RudpHeader) : list Z :=
  be16 (rh_magic h) ++ [rh_version h] ++ [rh_type h] ++ be32 (rh_connection_id h)
  ++ be32 (rh_packet_number h) ++ be32 (rh_ack_largest h)
  ++ be32 (u32 (Z.land (Z.shiftr (rh_ack_mask h) 32) 0xFFFFFFFF))
  ++ be32 (u32 (Z.land (rh_ack_mask h) 0xFFFFFFFF))
  ++ be16 (rh_ack_delay_ms h) ++ [rh_channel h] ++ [rh_flags h]
  ++ be32 (rh_timestamp_ms h) ++ be16 (rh_payload_length h).

Lemma rudp_encode_header_poke h out :
  rudp_encode_header h out = poke 0 (rudp_header_bytes h) out.
Proof.
  unfold rudp_encode_header, write_be16, write_be32, rudp_header_bytes. split_pokes. done.
Qed.

Lemma length_rudp_header_bytes h : length (rudp_header_bytes h) = kRudpHeaderBytes.
Proof. done. Qed.

Lemma bytes_rudp_header_bytes h : wf_RudpHeader h -> bytes (rudp_header_bytes h).
Proof.
  intros (?&?&?&?&?&?&?&?&?&?&?&?). unfold rudp_header_bytes.
  rewrite !bytes_app, !bytes_cons. unfold bytes. intuition auto with mach.
  all: try apply bytes_be16; try apply bytes_be32; done.
Qed.

Lemma encode_packet_eq h payload :
  encode_packet h payload
  = Some (rudp_header_bytes (set_payload_length (u16 (zlen payload)) h) ++ payload).
Proof.
  unfold encode_packet. rewrite rudp_encode_header_poke, replicate_add.
  pose proof (poke_split [] (replicate kRudpHeaderBytes 0) (replicate (length payload) 0)
    (rudp_header_bytes (set_payload_length (u16 (zlen payload)) h)) eq_refl) as Hp.
  cbn [length app] in Hp. rewrite Hp. cbn [mbind option_bind].
  case_decide as Hnil; [by subst|].
  pose proof (poke_split (rudp_header_bytes (set_payload_length (u16 (zlen payload)) h))
    (replicate (length payload) 0) [] payload) as Hq.
  rewrite !app_nil_r in Hq. apply Hq. by rewrite length_replicate.
Qed.

Lemma split64 m :
  fits 64 m ->
  let hi := u32 (Z.land (Z.shiftr m 32) 0xFFFFFFFF) in
  let lo := u32 (Z.land m 0xFFFFFFFF) in
  fits 32 hi /\ fits 32 lo /\ Z.lor (u64 (Z.shiftl hi 32)) lo = m.
Proof.
  intros Hm. cbv zeta. rewrite !land_ffffffff, !Z.shiftr_div_pow2 by lia.
  split_and!; [apply wrap_fits; lia..|].
  rewrite (wrap_id 64) by (rewrite Z.shiftl_mul_pow2 by lia; zlia).
  rewrite lor_shiftl_add; zlia.
Qed.

Lemma join64 hi lo :
  fits 32 hi -> fits 32 lo ->
  let m := Z.lor (u64 (Z.shiftl hi 32)) lo in
  fits 64 m /\ u32 (Z.land (Z.shiftr m 32) 0xFFFFFFFF) = hi /\ u32 (Z.land m 0xFFFFFFFF) = lo.
Proof.
  intros Hh Hl. cbv zeta.
  rewrite (wrap_id 64) by (rewrite Z.shiftl_mul_pow2 by lia; zlia).
  rewrite lor_shiftl_add by (widths; lia).
  rewrite !land_ffffffff, Z.shiftr_div_pow2 by lia. split_and!; zlia.
Qed.

Lemma decode_packet_app h rest :
  wf_RudpHeader h ->
  decode_packet (rudp_header_bytes h ++ rest)
  = Some (if rh_payload_length h =? zlen rest then mkDecodeResult true h rest
          else default_DecodeResult).
Proof.
  intros (?&?&?&?&?&?&Hmask&?&?&?&?&?). unfold decode_packet.
  rewrite length_app, length_rudp_header_bytes.
  destruct (Z.ltb_spec (Z.of_nat (kRudpHeaderBytes + length rest)) (Z.of_nat kRudpHeaderBytes)); [lia|].
  destruct (split64 (rh_ack_mask h) Hmask) as (? & ? & Hjoin).
  rewrite drop_app_length' by done.
  unfold rudp_header_bytes. rewrite <- !app_assoc. read_fields. rewrite Hjoin.
  replace (Z.of_nat (kRudpHeaderBytes + length rest) =? Z.of_nat kRudpHeaderBytes + rh_payload_length h)
    with (rh_payload_length h =? zlen rest) by (apply Bool.eq_iff_eq_true; rewrite !Z.eqb_eq; lia).
  destruct (Z.eqb_spec (rh_payload_length h) (zlen rest)) as [Hlen|]; cbn [negb]; [|done].
  rewrite take_ge by lia. by destruct h.
Qed.

(** Every 34 bytes are the encoding of one header. *)
Lemma rudp_header_bytes_surj l :
  bytes l -> length l = kRudpHeaderBytes ->
  exists h, wf_RudpHeader h /\ rudp_header_bytes h = l.
Proof.
  intros Hb Hl. unfold kRudpHeaderBytes in *.
  do 34 (destruct l as [|? l]; [discriminate|]; apply bytes_cons in Hb as [? Hb]).
  destruct l; [|discriminate]. clear Hl Hb.
  match goal with |- context [[?b0;?b1;?b2;?b3;?b4;?b5;?b6;?b7;?b8;?b9;?b10;?b11;?b12;?b13;?b14;?b15;
    ?b16;?b17;?b18;?b19;?b20;?b21;?b22;?b23;?b24;?b25;?b26;?b27;?b28;?b29;?b30;?b31;?b32;?b33]] =>
    set (w16 x y := u16 (Z.lor (Z.shiftl x 8) y));
    set (w32 x y z t := Z.lor (Z.lor (Z.lor (u32 (Z.shiftl x 24)) (u32 (Z.shiftl y 16)))
      (u32 (Z.shiftl z 8))) t);
    assert (Fhi : fits 32 (w32 b16 b17 b18 b19)) by (by apply fits_combine32);
    assert (Flo : fits 32 (w32 b20 b21 b22 b23)) by (by apply fits_combine32);
    destruct (join64 _ _ Fhi Flo) as (? & Hhi & Hlo);
    exists (mkRudpHeader (w16 b0 b1) b2 b3 (w32 b4 b5 b6 b7) (w32 b8 b9 b10 b11)
      (w32 b12 b13 b14 b15) (Z.lor (u64 (Z.shiftl (w32 b16 b17 b18 b19) 32)) (w32 b20 b21 b22 b23))
      (w16 b24 b25) b26 b27 (w32 b28 b29 b30 b31) (w16 b32 b33))
  end.
  unfold wf_RudpHeader, rudp_header_bytes.
  cbn [rh_magic rh_version rh_type rh_connection_id rh_packet_number rh_ack_largest rh_ack_mask
       rh_ack_delay_ms rh_channel rh_flags rh_timestamp_ms rh_payload_length].
  rewrite Hhi, Hlo. subst w16 w32. cbv beta. rewrite !be16_read, !be32_read by done.
  split_and!; auto using fits_combine32 with mach.
Qed.

Lemma decode_packet_inv d :
  bytes d ->
  exists r, decode_packet d = Some r /\
    if dr_ok r
    then wf_RudpHeader (dr_header r) /\ rh_payload_length (dr_header r) = zlen (dr_payload r)
         /\ d = rudp_header_bytes (dr_header r) ++ dr_payload r
    else r = default_DecodeResult.
Proof.
  intros Hd. destruct (Z.ltb_spec (zlen d) (Z.of_nat kRudpHeaderBytes)) as [Hs|Hl].
  { exists default_DecodeResult. unfold decode_packet. apply Z.ltb_lt in Hs. by rewrite Hs. }
  destruct (rudp_header_bytes_surj (take kRudpHeaderBytes d)) as (h & Hwf & Hh);
    [by apply bytes_take|rewrite length_take; lia|].
  rewrite <- (take_drop kRudpHeaderBytes d), <- Hh, decode_packet_app by done.
  eexists; split; [done|].
  by destruct (Z.eqb_spec (rh_payload_length h) (zlen (drop kRudpHeaderBytes d))).
Qed.

Lemma looks_like_rudp_app h rest :
  wf_RudpHeader h ->
  looks_like_rudp (rudp_header_bytes h ++ rest) = Some (rh_magic h =? kRudpMagic).
Proof.
  intros Hwf. unfold looks_like_rudp. rewrite (proj2 (Z.leb_le 2 _))
    by (rewrite length_app, length_rudp_header_bytes; unfold kRudpHeaderBytes; lia).
  unfold rudp_header_bytes. rewrite <- !app_assoc, read_be16_app; [done|apply Hwf].
Qed.

Lemma looks_like_rudp_total d : bytes d -> exists b, looks_like_rudp d = Some b.
Proof.
  intros Hd. unfold looks_like_rudp. destruct (Z.leb_spec 2 (zlen d)); [|by eexists].
  destruct (read_be16_total d 0) as (v & -> & _); [done|lia|]. by eexists.
Qed.

(** ** Theorems *)

(** The RUDP datagram codec is exact.  Decoding never reads outside the datagram;
    it accepts a datagram precisely when it is the encoding of a header whose
    [payload_length] is the length of the bytes that follow, and then returns
    that header and those bytes; so a packet with a payload of at most 65535
    bytes survives [encode_packet] followed by [decode_packet] unchanged. *)
Theorem rudp_packet_codec h payload :
  wf_RudpHeader h -> bytes payload -> zlen payload < 2 ^ 16 ->
  (exists d, encode_packet h payload = Some d /\ bytes d
     /\ zlen d = Z.of_nat kRudpHeaderBytes + zlen payload
     /\ looks_like_rudp d = Some (rh_magic h =? kRudpMagic)
     /\ decode_packet d
        = Some (mkDecodeResult true (set_payload_length (zlen payload) h) payload))
  /\ forall d, bytes d ->
     exists r, decode_packet d = Some r /\
       if dr_ok r then encode_packet (dr_header r) (dr_payload r) = Some d
       else r = default_DecodeResult /\
         forall h' p, wf_RudpHeader h' -> rh_payload_length h' = zlen p ->
           d <> rudp_header_bytes h' ++ p.
Proof.
  intros Hwf Hp Hlen. split.
  - eexists; split; [apply encode_packet_eq|].
    rewrite wrap_id by (widths; lia).
    assert (Hwf' : wf_RudpHeader (set_payload_length (zlen payload) h))
      by (destruct Hwf as (?&?&?&?&?&?&?&?&?&?&?&?); split_and!; try done; simpl; widths; lia).
    split_and!.
    + apply bytes_app; split; [by apply bytes_rudp_header_bytes|done].
    + rewrite length_app, length_rudp_header_bytes; lia.
    + exact (looks_like_rudp_app (set_payload_length (zlen payload) h) payload Hwf').
    + rewrite decode_packet_app by done. simpl rh_payload_length. by rewrite Z.eqb_refl.
  - intros d Hd. destruct (decode_packet_inv d Hd) as (r & Hr & Hi). exists r; split; [done|].
    destruct (dr_ok r) eqn:Hok.
    + destruct Hi as (Hwf' & Hpl & ->). rewrite encode_packet_eq. do 2 f_equal.
      destruct Hwf' as (?&?&?&?&?&?&?&?&?&?&?&?). rewrite <- Hpl, wrap_id by done.
      by destruct (dr_header r).
    + split; [done|]. intros h' p Hwf' Hpl ->.
      rewrite decode_packet_app, Hpl, Z.eqb_refl in Hr by done. by simplify_eq.
Qed.

Lemma rudp_packet_codec_witness :
  exists d, encode_packet default_RudpHeader [1; 2; 3] = Some d
    /\ decode_packet d = Some (mkDecodeResult true (set_payload_length 3 default_RudpHeader) [1; 2; 3]).
Proof.
  destruct (rudp_packet_codec default_RudpHeader [1; 2; 3]) as [(d & ? & ? & ? & ? & ?) _];
    [by vm_compute|repeat constructor; widths; lia|simpl; lia|].
  exists d. by split.
Defined.
