(* ===== verification/AckWindow.v ===== *)
(** The receive-side acknowledgement window of the reliable UDP transport,
    [core/net/rudp/ack_window.hpp] and [ack_window.cpp]: the class state, [reset]
    and [observe].

    The class promises to tell a packet number that was accepted before from a new
    one with a 64-bit mask below the largest number seen.  The abstract
    specification is the finite set of accepted packet numbers; [represents] relates
    it to the two machine words, and [observe] is proved to implement it. *)

From S2P Require Import Prelude.

(** ** Definitions *)

Record AckObservation := mkAckObservation {
  accepted : bool;
  duplicate : bool;
  reordered : bool;
  estimated_lost_packets : Z;
  ao_ack_largest : Z;
  ao_ack_mask : Z;
}.

Record AckWindow := mkAckWindow {
  initialized_ : bool;
  largest_ : Z;
  mask_ : Z;
}.

Definition default_AckWindow : AckWindow := mkAckWindow false 0 0.

Definition ack_window_reset (w : AckWindow) : AckWindow := mkAckWindow false 0 0.

Definition observe (packet_number : Z) (w : AckWindow) : AckWindow * AckObservation :=
  if negb (initialized_ w) then
    let w := mkAckWindow true packet_number 1 in
    (w, mkAckObservation true false false 0 (largest_ w) (mask_ w))
  else if largest_ w <? packet_number then
    let delta := u32 (packet_number - largest_ w) in
    let lost := if 1 <? delta then u32 (delta - 1) else 0 in
    let mask := if 64 <=? delta then 1 else Z.lor (u64 (Z.shiftl (mask_ w) delta)) 1 in
    let w := mkAckWindow (initialized_ w) packet_number mask in
    (w, mkAckObservation true false false lost (largest_ w) (mask_ w))
  else
    let distance := u32 (largest_ w - packet_number) in
    if 64 <=? distance then
      (w, mkAckObservation false true false 0 (largest_ w) (mask_ w))
    else
      let bit := u64 (Z.shiftl 1 distance) in
      if negb (Z.land (mask_ w) bit =? 0) then
        (w, mkAckObservation false true false 0 (largest_ w) (mask_ w))
      else
        let w := mkAckWindow (initialized_ w) (largest_ w) (Z.lor (mask_ w) bit) in
        (w, mkAckObservation true false true 0 (largest_ w) (mask_ w)).

(** A stream of datagrams observed one after the other, with the packet numbers
    that were accepted, in order of arrival. *)
Fixpoint observe_all (ps : list Z) (w : AckWindow) : AckWindow * list Z :=
  match ps with
  | [] => (w, [])
  | p :: ps =>
      let '(w, o) := observe p w in
      let '(w, rest) := observe_all ps w in
      (w, if accepted o then p :: rest else rest)
  end.

(** ** Specification: the set of accepted packet numbers *)

Definition represents (w : AckWindow) (R : gset Z) : Prop :=
  (forall x, x ∈ R -> fits 32 x) /\
  if initialized_ w then
    largest_ w ∈ R /\ (forall x, x ∈ R -> x <= largest_ w) /\ fits 64 (mask_ w)
    /\ forall d, 0 <= d < 64 -> Z.testbit (mask_ w) d = bool_decide (largest_ w - d ∈ R)
  else (R = ∅) /\ w = default_AckWindow.

(** A number is fresh when it was not accepted before and is not 64 or more below
    the largest accepted number. *)
Definition fresh (R : gset Z) (p : Z) : Prop := (p ∉ R) /\ forall x, x ∈ R -> x - p < 64.

(** ** Lemmas *)

Lemma represents_default : represents default_AckWindow ∅.
Proof. split; [set_solver|done]. Qed.

Lemma testbit_lor_pow2 m k d :
  0 <= k -> 0 <= d -> Z.testbit (Z.lor m (Z.shiftl 1 k)) d = (d =? k) || Z.testbit m d.
Proof.
  intros. rewrite Z.lor_spec, Z.shiftl_1_l, Z.pow2_bits_eqb by lia.
  rewrite (Z.eqb_sym k d). by destruct (Z.testbit m d), (d =? k).
Qed.


Lemma testbit_1 d : 0 <= d -> Z.testbit 1 d = (d =? 0).
Proof. intros. change 1 with (2 ^ 0). by rewrite Z.pow2_bits_eqb, Z.eqb_sym by lia. Qed.

Section observe.
Context (w : AckWindow) (R : gset Z) (p : Z).
Context (Hrep : represents w R) (Hp : fits 32 p).

(** The first packet opens the window at its own number. *)
Lemma represents_first : initialized_ w = false -> represents (mkAckWindow true p 1) ({[p]} ∪ R).
Proof.
  destruct Hrep as [_ Hw]. intros Hi. rewrite Hi in Hw. destruct Hw as [-> ->].
  split; [set_solver|]. simpl. split_and!; [set_solver|set_solver|widths; lia|].
  intros d Hd. rewrite testbit_1 by lia.
  destruct (Z.eqb_spec d 0); symmetry; [apply bool_decide_eq_true|apply bool_decide_eq_false]; set_solver by lia.
Qed.

(** A larger number shifts the window up. *)
Lemma represents_advance :
  initialized_ w = true -> largest_ w < p ->
  represents (mkAckWindow true p
    (if 64 <=? p - largest_ w then 1 else Z.lor (u64 (Z.shiftl (mask_ w) (p - largest_ w))) 1))
    ({[p]} ∪ R).
Proof.
  destruct Hrep as [HR Hw]. intros Hi Hlt. rewrite Hi in Hw. destruct Hw as (Hin & Hmax & Hfit & Hbits).
  split; [set_solver|]. simpl. split_and!; [set_solver| | |].
  - intros x [->%elem_of_singleton|Hx]%elem_of_union; [lia|]. apply Hmax in Hx. lia.
  - case_match; [widths; lia|]. apply fits_lor; [lia|apply wrap_fits; lia|widths; lia].
  - intros d Hd.
    assert (Hmem : bool_decide (p - d ∈ ({[p]} ∪ R : gset Z)) = (d =? 0) || bool_decide (p - d ∈ R)).
    { apply Bool.eq_iff_eq_true. rewrite orb_true_iff, Z.eqb_eq, !bool_decide_eq_true. set_solver by lia. }
    rewrite Hmem. destruct (Z.leb_spec 64 (p - largest_ w)).
    + rewrite testbit_1 by lia.
      rewrite (bool_decide_eq_false_2 (p - d ∈ R)), orb_false_r; [done|].
      intros Hx%Hmax. lia.
    + rewrite Z.lor_spec, testbit_1, orb_comm, testbit_wrap, Z.shiftl_spec by lia. f_equal.
      destruct (Z.le_gt_cases (p - largest_ w) d).
      * rewrite Hbits by lia. by replace (largest_ w - (d - (p - largest_ w))) with (p - d) by lia.
      * rewrite Z.testbit_neg_r by lia. symmetry. apply bool_decide_eq_false. intros Hx%Hmax. lia.
Qed.

(** A missing number inside the window fills its bit. *)
Lemma represents_fill :
  initialized_ w = true -> p <= largest_ w -> largest_ w - p < 64 ->
  represents (mkAckWindow true (largest_ w) (Z.lor (mask_ w) (Z.shiftl 1 (largest_ w - p)))) ({[p]} ∪ R).
Proof.
  destruct Hrep as [HR Hw]. intros Hi Hle Hd. rewrite Hi in Hw. destruct Hw as (Hin & Hmax & Hfit & Hbits).
  split; [set_solver|]. simpl. split_and!; [set_solver| | |].
  - intros x [->%elem_of_singleton|Hx]%elem_of_union; [lia|]. by apply Hmax in Hx.
  - apply fits_lor; [lia|done|]. rewrite Z.shiftl_1_l. unfold fits.
    split; [apply Z.pow_nonneg; lia|apply Z.pow_lt_mono_r; lia].
  - intros d Hd'. rewrite testbit_lor_pow2, Hbits by lia.
    apply Bool.eq_iff_eq_true. rewrite orb_true_iff, Z.eqb_eq, !bool_decide_eq_true.
    rewrite elem_of_union, elem_of_singleton. split; intros [?|?]; auto; left; lia.
Qed.

End observe.

(** What [observe] does on each of its branches, against the set it represents. *)
Lemma observe_spec w R p :
  represents w R -> fits 32 p ->
  let '(w', o) := observe p w in
  represents w' (if accepted o then {[p]} ∪ R else R)
  /\ (accepted o = true <-> fresh R p)
  /\ duplicate o = negb (accepted o)
  /\ (reordered o = true <-> accepted o = true /\ exists x, x ∈ R /\ p < x)
  /\ ao_ack_largest o = largest_ w' /\ ao_ack_mask o = mask_ w'
  /\ estimated_lost_packets o
     = (if initialized_ w then Z.max 0 (p - largest_ w - 1) else 0).
Proof.
  intros Hrep Hp. pose proof Hrep as [HR Hw]. unfold observe, fresh.
  destruct (initialized_ w) eqn:Hi; cbn [negb].
  2: { destruct Hw as [HR0 _]. simpl. split; [by apply (represents_first w)|].
       subst R. split_and!; set_solver. }
  destruct Hw as (Hin & Hmax & Hfit & Hbits).
  assert (Hl : fits 32 (largest_ w)) by auto.
  destruct (Z.ltb_spec (largest_ w) p) as [Hlt|Hge].
  - rewrite (wrap_id 32 (p - _)) by (widths; lia). simpl.
    split; [by apply (represents_advance w)|].
    rewrite (wrap_id 32) by (widths; lia).
    split_and!; [|done| |done|done|destruct (Z.ltb_spec 1 (p - largest_ w)); lia].
    + split; [|done]. intros _. split; [intros Hx%Hmax; lia|]. intros x Hx%Hmax. lia.
    + split; [done|]. intros [_ (x & Hx%Hmax & ?)]. lia.
  - rewrite (wrap_id 32 (largest_ w - p)) by (widths; lia).
    destruct (Z.leb_spec 64 (largest_ w - p)) as [Hfar|Hnear]; simpl.
    { split_and!; [done| |done| |done|done|lia]; split; try done.
      - intros [_ Hx]. specialize (Hx _ Hin). lia.
      - by intros [? _]. }
    assert (Hbit : 0 <= Z.shiftl 1 (largest_ w - p) < 2 ^ 64).
    { rewrite Z.shiftl_1_l. split; [apply Z.pow_nonneg; lia|apply Z.pow_lt_mono_r; lia]. }
    rewrite (wrap_id 64) by (unfold fits; lia). rewrite land_pow2, negb_involutive by lia.
    rewrite Hbits by lia. replace (largest_ w - (largest_ w - p)) with p by lia.
    case_bool_decide as Hmem; simpl.
    { split_and!; [done| |done| |done|done|lia]; split; try done; by intros [? _]. }
    split; [by apply (represents_fill w)|].
    split_and!; [|done| |done|done|lia].
    + split; [|done]. intros _. split; [done|]. intros x Hx%Hmax. lia.
    + split; [|done]. intros _. split; [done|]. exists (largest_ w). split; [done|].
      destruct (Z.eq_dec p (largest_ w)); [congruence|lia].
Qed.

Lemma observe_all_spec ps w R :
  represents w R -> Forall (fits 32) ps ->
  let '(w', acc) := observe_all ps w in
  represents w' (list_to_set acc ∪ R) /\ NoDup acc
  /\ (forall x, x ∈ acc -> (x ∉ R) /\ x ∈ ps).
Proof.
  revert w R. induction ps as [|p ps IH]; intros w R Hrep Hps; simpl.
  { split_and!; [by rewrite union_empty_l_L|constructor|set_solver]. }
  apply Forall_cons in Hps as [Hp Hps].
  pose proof (observe_spec w R p Hrep Hp) as Hobs.
  destruct (observe p w) as [w1 o]. destruct Hobs as (Hrep1 & Hacc & _).
  specialize (IH _ _ Hrep1 Hps). destruct (observe_all ps w1) as [w2 acc].
  destruct IH as (Hrep2 & Hnd & Hnew). destruct (accepted o).
  - split_and!.
    + simpl. by replace ({[p]} ∪ list_to_set acc ∪ R) with (list_to_set acc ∪ ({[p]} ∪ R))
        by set_solver.
    + constructor; [|done]. intros [? _]%Hnew. set_solver.
    + intros x [->|Hx]%elem_of_cons; [split; [by apply Hacc|set_solver]|].
      apply Hnew in Hx as [??]. split; set_solver.
  - split_and!; [done..|]. intros x Hx%Hnew. set_solver.
Qed.

(** ** Theorems *)

(** C7. [AckWindow] implements exactly-once acceptance.  Over any sequence of datagrams
    with 32-bit packet numbers, observed from a fresh (or reset) window: no number
    is accepted twice; the published pair [(ack_largest, ack_mask)] is the maximum
    of the accepted numbers with bit [d] set precisely when [ack_largest - d] was
    accepted; and the next datagram is accepted if and only if its number is new
    and less than 64 below that maximum, is reported as duplicate otherwise, and
    as reordered precisely when it is accepted below the maximum. *)
Theorem ack_window_accepts_once w0 ps p :
  Forall (fits 32) ps -> fits 32 p ->
  let '(w, acc) := observe_all ps (ack_window_reset w0) in
  let '(_, o) := observe p w in
  NoDup acc /\ (forall x, x ∈ acc -> x ∈ ps)
  /\ (acc <> [] -> largest_ w ∈ acc /\ forall x, x ∈ acc -> x <= largest_ w)
  /\ (forall d, 0 <= d < 64 -> Z.testbit (mask_ w) d = true <-> acc <> [] /\ largest_ w - d ∈ acc)
  /\ (accepted o = true <-> (p ∉ acc) /\ forall x, x ∈ acc -> x - p < 64)
  /\ duplicate o = negb (accepted o)
  /\ (reordered o = true <-> accepted o = true /\ exists x, x ∈ acc /\ p < x).
Proof.
  intros Hps Hp.
  pose proof (observe_all_spec ps (ack_window_reset w0) ∅ represents_default Hps) as Hall.
  destruct (observe_all ps (ack_window_reset w0)) as [w acc]. destruct Hall as (Hrep & Hnd & Hsub).
  rewrite union_empty_r_L in Hrep. pose proof (observe_spec w _ p Hrep Hp) as Hobs.
  destruct (observe p w) as [w' o]. destruct Hobs as (_ & Hacc & Hdup & Hre & _).
  setoid_rewrite elem_of_list_to_set in Hre.
  assert (Hfresh : fresh (list_to_set acc) p <-> (p ∉ acc) /\ forall x, x ∈ acc -> x - p < 64)
    by (unfold fresh; setoid_rewrite elem_of_list_to_set; done).
  split_and!; [done|intros; by apply Hsub| | |by rewrite Hacc, Hfresh|done|done].
  - destruct Hrep as [_ Hw]. destruct (initialized_ w).
    + destruct Hw as (Hin & Hmax & _). intros _.
      setoid_rewrite elem_of_list_to_set in Hmax. by rewrite elem_of_list_to_set in Hin.
    + destruct Hw as [He _]. destruct acc; [done|]. simpl in He. set_solver.
  - intros d Hd. destruct Hrep as [_ Hw]. destruct (initialized_ w).
    + destruct Hw as (Hin & _ & _ & Hbits). rewrite Hbits, bool_decide_eq_true, elem_of_list_to_set by done.
      split; [|by intros [_ ?]]. intros Hx. split; [|done]. by intros ->; apply elem_of_nil in Hx.
    + destruct Hw as [He ->]. simpl. rewrite Z.testbit_0_l. split; [done|].
      intros [_ Hx]. destruct acc; [by apply elem_of_nil in Hx|]. simpl in He. set_solver.
Qed.

Lemma ack_window_accepts_once_witness :
  let '(w, acc) := observe_all [10; 12; 10; 11; 90; 5] (ack_window_reset default_AckWindow) in
  let '(_, o) := observe 89 w in
  NoDup acc /\ acc = [10; 12; 11; 90] /\ accepted o = true /\ reordered o = true.
Proof.
  split_and!; [|by vm_compute..].
  refine (proj1 (ack_window_accepts_once default_AckWindow [10; 12; 10; 11; 90; 5] 89 _ _));
    [repeat constructor|]; widths; lia.
Defined.
