(* ===== verification/RetransmissionQueue.v ===== *)
(** The send-side retransmission queue of the reliable UDP transport,
    [core/net/rudp/retransmission_queue.hpp] and [retransmission_queue.cpp]:
    [push], [mark_acked] with its two helpers, [collect_timeouts] and [reset].

    The queue is a deque of entries with a cached byte count.  The theorems show
    that the count is the sum of the queued frame sizes, that the two-phase
    [erase_acked] is a plain filter, which entries a timeout sweep returns and how
    it updates them, and how the acknowledgements of a peer running the window of
    [AckWindow] are read. *)

From S2P Require Import Prelude AckWindow.

(** ** Definitions *)

Record PendingPacket := mkPendingPacket {
  pp_packet_number : Z;
  first_sent_unix_ms : Z;
  last_sent_unix_ms : Z;
  retransmit_count : Z;
  encoded_frame : list Z;
}.

Record Entry := mkEntry { packet : PendingPacket; acked : bool }.

Record RetransmissionQueue := mkRetransmissionQueue {
  pending_ : list Entry;
  inflight_bytes_ : Z;
}.

Definition default_RetransmissionQueue : RetransmissionQueue := mkRetransmissionQueue [] 0.

Definition inflight_packets (q : RetransmissionQueue) : Z := zlen (pending_ q).
Definition inflight_bytes (q : RetransmissionQueue) : Z := inflight_bytes_ q.

Definition retransmission_queue_reset (q : RetransmissionQueue) : RetransmissionQueue :=
  mkRetransmissionQueue [] 0.

Definition frame_size (e : Entry) : Z := zlen (encoded_frame (packet e)).

Definition push (packet_number sent_unix_ms : Z) (frame : list Z) (q : RetransmissionQueue) :
    RetransmissionQueue :=
  if decide (frame = []) then q
  else
    let entry := mkEntry (mkPendingPacket packet_number sent_unix_ms sent_unix_ms 0 frame) false in
    mkRetransmissionQueue (pending_ q ++ [entry]) (u64 (inflight_bytes_ q + frame_size entry)).

Definition is_acked_by_mask (packet_number ack_largest ack_mask : Z) : bool :=
  if ack_largest <? packet_number then false
  else if packet_number =? ack_largest then true
  else
    let distance := u32 (ack_largest - packet_number) in
    if 64 <=? distance then true
    else
      let bit := u64 (Z.shiftl 1 distance) in
      negb (Z.land ack_mask bit =? 0).

(** The first loop of [erase_acked]: pop acknowledged entries off the front. *)
Fixpoint erase_front (pending : list Entry) (bytes : Z) : list Entry * Z :=
  match pending with
  | e :: rest =>
      if acked e then
        erase_front rest (if frame_size e <=? bytes then bytes - frame_size e else 0)
      else (pending, bytes)
  | [] => ([], bytes)
  end.

Definition erase_acked (q : RetransmissionQueue) : RetransmissionQueue :=
  let '(pending, bytes) := erase_front (pending_ q) (inflight_bytes_ q) in
  match pending with
  | [] => mkRetransmissionQueue [] bytes
  | _ =>
      let kept := filter (fun e => acked e = false) pending in
      if zlen kept =? zlen pending then mkRetransmissionQueue kept bytes
      else
        mkRetransmissionQueue kept
          (fold_left (fun acc e => u64 (acc + frame_size e)) kept 0)
  end.

Definition mark_acked (ack_largest ack_mask : Z) (q : RetransmissionQueue) : RetransmissionQueue :=
  let mark e :=
    if negb (acked e) && is_acked_by_mask (pp_packet_number (packet e)) ack_largest ack_mask
    then mkEntry (packet e) true else e in
  erase_acked (mkRetransmissionQueue (map mark (pending_ q)) (inflight_bytes_ q)).

(** The packet of a due entry after the sweep has touched it. *)
Definition resend (now_unix_ms : Z) (p : PendingPacket) : PendingPacket :=
  mkPendingPacket (pp_packet_number p) (first_sent_unix_ms p) now_unix_ms
    (u32 (retransmit_count p + 1)) (encoded_frame p).

Definition is_due (now_unix_ms rto_ms : Z) (e : Entry) : bool :=
  negb (acked e) && negb (u64 (now_unix_ms - last_sent_unix_ms (packet e)) <? rto_ms).

(** The loop over the deque, with the vector [due] filled so far. *)
Fixpoint collect_loop (now_unix_ms rto_ms max_batch : Z) (pending : list Entry)
    (due : list PendingPacket) : list Entry * list PendingPacket :=
  match pending with
  | [] => ([], due)
  | e :: rest =>
      if is_due now_unix_ms rto_ms e then
        let e := mkEntry (resend now_unix_ms (packet e)) (acked e) in
        let due := due ++ [packet e] in
        if max_batch <=? zlen due then (e :: rest, due)
        else
          let '(rest, due) := collect_loop now_unix_ms rto_ms max_batch rest due in
          (e :: rest, due)
      else
        let '(rest, due) := collect_loop now_unix_ms rto_ms max_batch rest due in
        (e :: rest, due)
  end.

Definition collect_timeouts (now_unix_ms rto_ms max_batch : Z) (q : RetransmissionQueue) :
    RetransmissionQueue * list PendingPacket :=
  if (max_batch =? 0) || (rto_ms =? 0) then (q, [])
  else
    let '(pending, due) := collect_loop now_unix_ms rto_ms max_batch (pending_ q) [] in
    (mkRetransmissionQueue pending (inflight_bytes_ q), due).

(** ** Invariant *)

Definition total_bytes (l : list Entry) : Z := foldr (fun e n => frame_size e + n) 0 l.

(** Between operations: nothing acknowledged is still queued, every frame is
    non-empty and the cached count is the sum of the frame sizes. *)
Definition wf_queue (q : RetransmissionQueue) : Prop :=
  Forall (fun e => acked e = false /\ encoded_frame (packet e) <> []) (pending_ q)
  /\ inflight_bytes_ q = total_bytes (pending_ q)
  /\ inflight_bytes_ q < 2 ^ 64.

(** ** Specification: the ordered list of outstanding frames *)

Inductive queue_op :=
  | OpPush (packet_number sent_unix_ms : Z) (frame : list Z)
  | OpAck (ack_largest ack_mask : Z)
  | OpSweep (now_unix_ms rto_ms max_batch : Z)
  | OpReset.

Definition queue_step (q : RetransmissionQueue) (op : queue_op) : RetransmissionQueue :=
  match op with
  | OpPush n t frame => push n t frame q
  | OpAck l m => mark_acked l m q
  | OpSweep now rto batch => (collect_timeouts now rto batch q).1
  | OpReset => retransmission_queue_reset q
  end.

(** What a client may think of: numbered frames in sending order; an
    acknowledgement removes the frames it covers, a sweep removes none. *)
Definition outstanding (q : RetransmissionQueue) : list (Z * list Z) :=
  map (fun e => (pp_packet_number (packet e), encoded_frame (packet e))) (pending_ q).

Definition spec_step (s : list (Z * list Z)) (op : queue_op) : list (Z * list Z) :=
  match op with
  | OpPush n _ frame => if decide (frame = []) then s else s ++ [(n, frame)]
  | OpAck l m => filter (fun nf => is_acked_by_mask nf.1 l m = false) s
  | OpSweep _ _ _ => s
  | OpReset => []
  end.

Definition pushed_bytes (ops : list queue_op) : Z :=
  foldr (fun op n => match op with OpPush _ _ f => zlen f + n | _ => n end) 0 ops.

(** ** Lemmas *)

Lemma total_bytes_nonneg l : 0 <= total_bytes l.
Proof. induction l; simpl; unfold frame_size; lia. Qed.

Lemma total_bytes_app l1 l2 : total_bytes (l1 ++ l2) = total_bytes l1 + total_bytes l2.
Proof. induction l1; simpl; lia. Qed.

Lemma total_bytes_filter (P : Entry -> Prop) `{!forall e, Decision (P e)} l :
  total_bytes (filter P l) <= total_bytes l.
Proof.
  induction l as [|e l IH]; [done|]. rewrite filter_cons.
  case_decide; simpl; unfold frame_size in *; lia.
Qed.

Lemma total_bytes_fold l acc :
  0 <= acc -> acc + total_bytes l < 2 ^ 64 ->
  fold_left (fun acc e => u64 (acc + frame_size e)) l acc = acc + total_bytes l.
Proof.
  revert acc. induction l as [|e l IH]; intros acc H0 Hlt; simpl in *; [lia|].
  pose proof (total_bytes_nonneg l). unfold frame_size in *.
  rewrite wrap_id by (widths; lia). rewrite IH; lia.
Qed.

Lemma erase_front_spec l n :
  n = total_bytes l ->
  let '(l', n') := erase_front l n in
  n' = total_bytes l' /\ n' <= n
  /\ filter (fun e => acked e = false) l' = filter (fun e => acked e = false) l.
Proof.
  revert n. induction l as [|e l IH]; intros n ->; simpl; [done|].
  destruct (acked e) eqn:He.
  - pose proof (total_bytes_nonneg l).
    destruct (Z.leb_spec (frame_size e) (frame_size e + total_bytes l)); [|lia].
    specialize (IH (frame_size e + total_bytes l - frame_size e) ltac:(lia)).
    destruct (erase_front l _) as [l' n']. destruct IH as (? & ? & Hf).
    rewrite filter_cons_False by congruence. unfold frame_size in *. split_and!; [done|lia|done].
  - split_and!; [done|lia|done].
Qed.

(** The two phases of [erase_acked] together are a filter, with the count kept. *)
Lemma erase_acked_filter q :
  inflight_bytes_ q = total_bytes (pending_ q) -> inflight_bytes_ q < 2 ^ 64 ->
  let kept := filter (fun e => acked e = false) (pending_ q) in
  erase_acked q = mkRetransmissionQueue kept (total_bytes kept).
Proof.
  intros Hn Hlt. unfold erase_acked. pose proof (erase_front_spec _ _ Hn) as Hspec.
  destruct (erase_front _ _) as [l n]. destruct Hspec as (-> & Hle & Hf). cbv zeta. rewrite <- Hf.
  destruct l as [|e l]; [done|].
  pose proof (total_bytes_filter (fun e => acked e = false) (e :: l)) as Hsub.
  destruct (Z.eqb_spec (zlen (filter (fun e0 => acked e0 = false) (e :: l))) (zlen (e :: l))) as [Hlen|].
  - by rewrite filter_full by lia.
  - rewrite total_bytes_fold by lia. by f_equal.
Qed.

Lemma mark_acked_eq l m q :
  wf_queue q ->
  let kept := filter (fun e => is_acked_by_mask (pp_packet_number (packet e)) l m = false) (pending_ q) in
  mark_acked l m q = mkRetransmissionQueue kept (total_bytes kept).
Proof.
  intros (Hall & Hn & Hlt). unfold mark_acked.
  set (mark := fun e => _ : Entry).
  assert (Hsize : total_bytes (map mark (pending_ q)) = total_bytes (pending_ q)).
  { clear -mark. induction (pending_ q) as [|e t IH]; [done|]. simpl. rewrite IH.
    by unfold mark, frame_size; case_match. }
  rewrite erase_acked_filter by (simpl; lia). simpl pending_. rewrite filter_map.
  assert (Hmark : map mark (filter (fun e => acked (mark e) = false) (pending_ q))
    = filter (fun e => is_acked_by_mask (pp_packet_number (packet e)) l m = false) (pending_ q)).
  { clear -Hall. induction Hall as [|e t [He _] _ IH]; [done|]. rewrite !filter_cons.
    assert (Hm : mark e = if is_acked_by_mask (pp_packet_number (packet e)) l m
      then mkEntry (packet e) true else e) by (unfold mark; by rewrite He).
    destruct (is_acked_by_mask _ l m).
    - rewrite decide_False, decide_False by (rewrite ?Hm; done). done.
    - rewrite decide_True, decide_True by (rewrite ?Hm; done). cbn [map]. by rewrite Hm, IH. }
  by rewrite Hmark.
Qed.

(** The entries a sweep rewrites: the first [k] due ones. *)
Fixpoint touch (now_unix_ms rto_ms : Z) (k : nat) (l : list Entry) : list Entry :=
  match k, l with
  | S k', e :: l' =>
      if is_due now_unix_ms rto_ms e
      then mkEntry (resend now_unix_ms (packet e)) (acked e) :: touch now_unix_ms rto_ms k' l'
      else e :: touch now_unix_ms rto_ms k l'
  | _, _ => l
  end.

Definition due_packets (now_unix_ms rto_ms : Z) (l : list Entry) : list PendingPacket :=
  map (fun e => resend now_unix_ms (packet e)) (filter (fun e => is_due now_unix_ms rto_ms e = true) l).

Lemma due_packets_cons now rto e l :
  due_packets now rto (e :: l)
  = if is_due now rto e then resend now (packet e) :: due_packets now rto l
    else due_packets now rto l.
Proof. unfold due_packets. rewrite filter_cons. destruct (is_due now rto e) eqn:He; by simpl. Qed.

Lemma collect_loop_eq now rto batch l due :
  zlen due < batch ->
  collect_loop now rto batch l due
  = (touch now rto (Z.to_nat (batch - zlen due)) l,
     due ++ take (Z.to_nat (batch - zlen due)) (due_packets now rto l)).
Proof.
  revert due. induction l as [|e l IH]; intros due Hd; cbn [collect_loop].
  { change (due_packets now rto []) with (@nil PendingPacket). rewrite take_nil, app_nil_r. by destruct (Z.to_nat _). }
  destruct (Z.to_nat (batch - zlen due)) as [|k] eqn:Hk; [lia|]. rewrite due_packets_cons.
  destruct (is_due now rto e) eqn:He; cbn [touch]; rewrite He.
  - cbn [packet]. rewrite length_app. cbn [length].
    destruct (Z.leb_spec batch (Z.of_nat (length due + 1))).
    + assert (k = 0%nat) as -> by lia. by rewrite firstn_cons, firstn_O; destruct l.
    + rewrite IH by (rewrite length_app; simpl; lia). rewrite length_app. cbn [length].
      replace (Z.to_nat (batch - Z.of_nat (length due + 1))) with k by lia.
      by rewrite firstn_cons, <- app_assoc.
  - rewrite IH by done. by rewrite Hk.
Qed.

Lemma collect_timeouts_eq now rto batch q :
  0 < batch -> 0 < rto ->
  collect_timeouts now rto batch q
  = (mkRetransmissionQueue (touch now rto (Z.to_nat batch) (pending_ q)) (inflight_bytes_ q),
     take (Z.to_nat batch) (due_packets now rto (pending_ q))).
Proof.
  intros. unfold collect_timeouts. destruct (Z.eqb_spec batch 0), (Z.eqb_spec rto 0); try lia.
  cbn [orb]. rewrite collect_loop_eq by (simpl; lia). cbn [length app].
  by rewrite Z.sub_0_r.
Qed.

(** A swept entry is not due again at the same time. *)
Lemma due_packets_touch now rto k l :
  0 < rto -> due_packets now rto (touch now rto k l) = drop k (due_packets now rto l).
Proof.
  intros Hrto. revert k. induction l as [|e l IH]; intros [|k]; try done.
  rewrite due_packets_cons. cbn [touch].
  destruct (is_due now rto e) eqn:He; rewrite due_packets_cons, ?He, IH; [|done].
  unfold is_due. cbn [acked packet resend last_sent_unix_ms]. rewrite Z.sub_diag.
  change (u64 0) with 0. destruct (Z.ltb_spec 0 rto); [|lia]. by destruct (acked e).
Qed.

(** Sweeping changes times and counters only. *)
Lemma touch_facts now rto k l :
  total_bytes (touch now rto k l) = total_bytes l
  /\ map acked (touch now rto k l) = map acked l
  /\ map (fun e => (pp_packet_number (packet e), encoded_frame (packet e))) (touch now rto k l)
     = map (fun e => (pp_packet_number (packet e), encoded_frame (packet e))) l.
Proof.
  revert k. induction l as [|e l IH]; intros [|k]; try done. cbn [touch].
  case_match; [destruct (IH k) as (Ht & Ha & Hf)|destruct (IH (S k)) as (Ht & Ha & Hf)];
    simpl; rewrite Ht, Ha, Hf; done.
Qed.

Lemma wf_touch now rto k l :
  Forall (fun e => acked e = false /\ encoded_frame (packet e) <> []) l ->
  Forall (fun e => acked e = false /\ encoded_frame (packet e) <> []) (touch now rto k l).
Proof.
  intros Hl. revert k. induction Hl as [|e l ? ? IH]; intros [|k]; cbn [touch];
    [constructor..|by constructor|]. case_match; constructor; simpl; auto.
Qed.

Lemma collect_timeouts_touch now rto batch q :
  exists k, (collect_timeouts now rto batch q).1
    = mkRetransmissionQueue (touch now rto k (pending_ q)) (inflight_bytes_ q).
Proof.
  assert (Hloop : forall l due, exists k, (collect_loop now rto batch l due).1 = touch now rto k l).
  { induction l as [|e l IH]; intros due; [by exists 0%nat|]. cbn [collect_loop].
    destruct (is_due now rto e) eqn:He.
    - cbn [packet]. case_match; [exists 1%nat; cbn [touch fst]; rewrite He; by destruct l|].
      destruct (IH (due ++ [resend now (packet e)])) as [k Hk]. exists (S k).
      destruct (collect_loop _ _ _ _ _). simpl in *. by rewrite He, Hk.
    - destruct (IH due) as [k Hk]. exists k. destruct (collect_loop _ _ _ _ _).
      simpl in *. destruct k; simpl; rewrite ?He, Hk; [by destruct l|done]. }
  unfold collect_timeouts. case_match; [by exists 0%nat; destruct q as [[] ?]|].
  destruct (Hloop (pending_ q) []) as [k Hk]. exists k.
  destruct (collect_loop _ _ _ _ _). simpl in *. by rewrite Hk.
Qed.

Lemma queue_step_spec q op :
  wf_queue q -> inflight_bytes_ q + pushed_bytes [op] < 2 ^ 64 ->
  wf_queue (queue_step q op) /\ outstanding (queue_step q op) = spec_step (outstanding q) op
  /\ inflight_bytes_ (queue_step q op) <= inflight_bytes_ q + pushed_bytes [op].
Proof.
  intros Hwf Hlt. pose proof Hwf as (Hall & Hn & _).
  pose proof (total_bytes_nonneg (pending_ q)) as Hpos.
  destruct op as [n t f|l m|now rto batch|]; cbn [queue_step spec_step pushed_bytes foldr] in *.
  - unfold push. case_decide as Hf; [subst; simpl in *; split_and!; done || lia|].
    unfold wf_queue, outstanding. cbn [pending_ inflight_bytes_]. unfold frame_size.
    cbn [packet encoded_frame].
    rewrite map_app, total_bytes_app, wrap_id by (widths; lia). simpl. unfold frame_size. simpl.
    split_and!; [|lia|lia|done|lia]. apply Forall_app. split; [done|by repeat constructor].
  - rewrite (mark_acked_eq l m q Hwf). unfold wf_queue, outstanding. cbn [pending_ inflight_bytes_].
    rewrite filter_map. cbn [fst].
    pose proof (total_bytes_filter
      (fun e => is_acked_by_mask (pp_packet_number (packet e)) l m = false) (pending_ q)).
    split_and!; [by apply Forall_filter|done|lia|done|lia].
  - destruct (collect_timeouts_touch now rto batch q) as [k ->].
    destruct (touch_facts now rto k (pending_ q)) as (Ht & _ & Hf).
    unfold wf_queue, outstanding. cbn [pending_ inflight_bytes_]. rewrite Ht, Hf.
    split_and!; [by apply wf_touch|done|lia|done|lia].
  - unfold wf_queue. simpl. split_and!; [constructor|done|lia|done|lia].
Qed.

Lemma queue_run_spec ops q :
  wf_queue q -> inflight_bytes_ q + pushed_bytes ops < 2 ^ 64 ->
  let q' := fold_left queue_step ops q in
  wf_queue q' /\ outstanding q' = fold_left spec_step ops (outstanding q).
Proof.
  revert q. induction ops as [|op ops IH]; intros q Hwf Hlt; [done|].
  assert (Hcons : pushed_bytes (op :: ops) = pushed_bytes [op] + pushed_bytes ops)
    by (destruct op; simpl; lia).
  assert (Hpos : forall l, 0 <= pushed_bytes l)
    by (clear; induction l as [|[] l IH]; simpl; lia).
  specialize (Hpos ops).
  destruct (queue_step_spec q op Hwf ltac:(lia)) as (Hwf' & Hout & Hle).
  cbn [fold_left]. rewrite <- Hout. apply IH; [done|lia].
Qed.

Lemma total_bytes_outstanding q :
  total_bytes (pending_ q) = foldr (fun nf n => zlen nf.2 + n) 0 (outstanding q).
Proof.
  unfold outstanding. induction (pending_ q) as [|e l IH]; [done|]. simpl. by rewrite IH.
Qed.

(** ** Theorems *)

(** C12. The retransmission queue implements its specification.  After any sequence of
    sends, acknowledgements, timeout sweeps and resets (of less than 2^64 bytes),
    the queue holds exactly the frames the specification holds, in sending order:
    a frame leaves only through an acknowledgement that covers it or a reset, and
    one that is covered always leaves.  [inflight_packets] and [inflight_bytes]
    are the number and the summed size of those frames. *)
Theorem retransmission_queue_refines ops :
  pushed_bytes ops < 2 ^ 64 ->
  let q := fold_left queue_step ops default_RetransmissionQueue in
  let s := fold_left spec_step ops [] in
  outstanding q = s /\ inflight_packets q = zlen s
  /\ inflight_bytes q = foldr (fun nf n => zlen nf.2 + n) 0 s.
Proof.
  intros Hlt. cbv zeta.
  destruct (queue_run_spec ops default_RetransmissionQueue) as [(_ & Hn & _) Hout];
    [split_and!; [constructor|done..]|done|].
  rewrite Hout in *. change (outstanding default_RetransmissionQueue) with (@nil (Z * list Z)) in *.
  split_and!; [done| |].
  - unfold inflight_packets. rewrite <- Hout. unfold outstanding. by rewrite length_map.
  - unfold inflight_bytes. rewrite Hn, total_bytes_outstanding. by rewrite Hout.
Qed.

Lemma retransmission_queue_refines_witness :
  let ops := [OpPush 1 0 [7; 7]; OpPush 2 0 [8]; OpSweep 500 200 16; OpPush 3 9 [9; 9; 9]; OpAck 3 5] in
  let q := fold_left queue_step ops default_RetransmissionQueue in
  outstanding q = [(2, [8])] /\ inflight_bytes q = 1.
Proof.
  intros ops q. destruct (retransmission_queue_refines ops) as (H1 & _ & H3); [done|].
  split; [exact H1|exact H3].
Defined.

(** Timeout sweeps are fair.  Calling [collect_timeouts] [n] times at the same
    instant returns, in order, the first [n * max_batch] overdue frames, each once
    and stamped with the time and one more retransmission; frames whose timer has
    not run out are not returned, and [max_batch] bounds each call.  So enough
    calls return every overdue frame, and one call more returns nothing. *)
Theorem collect_timeouts_fair now rto batch n q :
  0 < batch -> 0 < rto ->
  let sweep '(q, out) := let '(q, due) := collect_timeouts now rto batch q in (q, out ++ due) in
  let all := map (fun e => resend now (packet e))
    (filter (fun e => acked e = false /\ rto <= u64 (now - last_sent_unix_ms (packet e))) (pending_ q)) in
  let '(q', out) := Nat.iter n sweep (q, []) in
  out = take (n * Z.to_nat batch) all
  /\ (length (collect_timeouts now rto batch q').2 <= Z.to_nat batch)%nat
  /\ (Z.of_nat (length all) <= Z.of_nat n * batch ->
      out = all /\ (collect_timeouts now rto batch q').2 = []).
Proof.
  intros Hb Hr. cbv zeta. set (sweep := fun '(q, out) => _). set (b := Z.to_nat batch).
  set (all := map _ _).
  assert (Hall : all = due_packets now rto (pending_ q)).
  { unfold all, due_packets. f_equal. apply list_filter_iff. intros e. unfold is_due.
    rewrite andb_true_iff, !negb_true_iff, Z.ltb_ge. done. }
  clearbody all. subst all.
  assert (Hrun : exists q', Nat.iter n sweep (q, [])
      = (q', take (n * b) (due_packets now rto (pending_ q)))
    /\ due_packets now rto (pending_ q') = drop (n * b) (due_packets now rto (pending_ q))).
  { clear -Hb Hr. induction n as [|n (q' & IH & Hdue)]; [by exists q|].
    change (Nat.iter (S n) sweep (q, [])) with (sweep (Nat.iter n sweep (q, []))). rewrite IH. unfold sweep at 1. rewrite collect_timeouts_eq by done.
    eexists; split.
    - f_equal. rewrite Hdue. change (S n * b)%nat with (b + n * b)%nat.
      by rewrite Nat.add_comm, take_take_drop.
    - cbn [pending_]. rewrite due_packets_touch, Hdue, drop_drop by done. f_equal. unfold b. lia. }
  destruct Hrun as (q' & -> & Hdue). rewrite collect_timeouts_eq by done. cbn [snd].
  split_and!; [done|rewrite length_take; lia|].
  intros Hlen. rewrite Hdue, take_ge, drop_ge, take_nil by (unfold b; lia). done.
Qed.

Lemma collect_timeouts_fair_witness :
  let q := fold_left queue_step [OpPush 1 0 [7; 7]; OpPush 2 90 [8]; OpPush 3 0 [9]] default_RetransmissionQueue in
  let sweep '(q, out) := let '(q, due) := collect_timeouts 100 50 1 q in (q, out ++ due) in
  let '(_, out) := Nat.iter 2 sweep (q, []) in
  map pp_packet_number out = [1; 3].
Proof.
  set (q := fold_left _ _ _).
  pose proof (collect_timeouts_fair 100 50 1 2 q ltac:(lia) ltac:(lia)) as H.
  cbv zeta in *. destruct (Nat.iter 2 _ (q, [])) as [q' out]. destruct H as (-> & _). reflexivity.
Defined.

(** Acknowledgements read what the receiver accepted.  Let a peer accept [acc] out
    of the packets [ps] with an [AckWindow], and let the sender apply the published
    [(ack_largest, ack_mask)]: every number the peer accepted counts as
    acknowledged, and one that counts as acknowledged was accepted or lies 64 or
    more below the largest accepted number. *)
Theorem ack_feedback_sound ps p :
  Forall (fits 32) ps -> fits 32 p ->
  let '(w, acc) := observe_all ps default_AckWindow in
  acc <> [] ->
  (p ∈ acc -> is_acked_by_mask p (largest_ w) (mask_ w) = true)
  /\ (is_acked_by_mask p (largest_ w) (mask_ w) = true -> p ∈ acc \/ 64 <= largest_ w - p).
Proof.
  intros Hps Hp. pose proof (observe_all_spec ps _ ∅ represents_default Hps) as Hall.
  destruct (observe_all ps _) as [w acc]. destruct Hall as (Hrep & _ & _). intros Hne.
  rewrite union_empty_r_L in Hrep. destruct Hrep as [HR Hw].
  setoid_rewrite elem_of_list_to_set in HR.
  destruct (initialized_ w).
  2: { destruct Hw as [He _], acc; [done|]. simpl in He. set_solver. }
  destruct Hw as (Hin & Hmax & _ & Hbits). rewrite elem_of_list_to_set in Hin.
  setoid_rewrite elem_of_list_to_set in Hmax. pose proof (HR _ Hin) as Hl.
  unfold is_acked_by_mask. destruct (Z.ltb_spec (largest_ w) p).
  { split; [intros Hx%Hmax; lia|done]. }
  destruct (Z.eqb_spec p (largest_ w)) as [->|]; [by auto|].
  rewrite (wrap_id 32) by (widths; lia). destruct (Z.leb_spec 64 (largest_ w - p)); [by auto|].
  rewrite (wrap_id 64); [|rewrite Z.shiftl_1_l; split; [apply Z.pow_nonneg; lia|apply Z.pow_lt_mono_r; lia]].
  rewrite land_pow2, negb_involutive, Hbits by lia.
  rewrite bool_decide_eq_true, elem_of_list_to_set.
  replace (largest_ w - (largest_ w - p)) with p by lia. auto.
Qed.

Lemma ack_feedback_sound_witness :
  let '(w, acc) := observe_all [1; 2; 4] default_AckWindow in
  is_acked_by_mask 2 (largest_ w) (mask_ w) = true.
Proof.
  refine (proj1 (ack_feedback_sound [1; 2; 4] 2 _ _ _) _);
    [repeat constructor; widths; lia|widths; lia|done|set_solver].
Defined.

(** The 64-wide window loses data.  After the peer has accepted packets 1 and 66 and
    nothing else, packet 2 counts as acknowledged and leaves the sender's queue;
    and if a late copy does arrive, the peer's window refuses it as a duplicate:
    the payload of packet 2 is never delivered. *)
Theorem ack_feedback_drops_unreceived :
  let '(w, acc) := observe_all [1; 66] default_AckWindow in
  let q := push 2 0 [42] default_RetransmissionQueue in
  (2 ∉ acc) /\ outstanding q = [(2, [42])]
  /\ outstanding (mark_acked (largest_ w) (mask_ w) q) = []
  /\ accepted (observe 2 w).2 = false /\ duplicate (observe 2 w).2 = true.
Proof. vm_compute. split_and!; [set_solver|done..]. Qed.
