(* ===== verification/RudpEngine.v ===== *)
(** The reliable UDP engine, [core/net/rudp/rudp_engine.hpp], [rudp_engine.cpp] and
    the peer state of [rudp_peer_state.hpp]: configuration, RTT estimator, peer
    state, packet construction, [process_datagram], [queue_reliable_payload],
    [poll], [make_hello], [make_close] and [reset].

    An operation returns [None] where the C++ has no defined behaviour: an access
    outside a buffer, an overflow of [int] in the RTT estimator, a [std::clamp]
    whose bounds are crossed.  The calls to [runtime_metrics] are kept as a trace in
    [re_metrics].  The type of a received packet is its byte: the switch of
    [process_datagram] has no default, so a byte that names no [PacketType] takes
    the path of DATA. *)

From S2P Require Import Prelude Wire RudpPacket AckWindow RetransmissionQueue.

(** ** Definitions *)

Inductive LifecycleState :=
  | kIdle | kHelloSent | kHelloReceived | kEstablished | kDraining | kClosed.

#[export] Instance LifecycleState_eq_dec : EqDecision LifecycleState.
Proof. solve_decision. Defined.

Record RudpConfig := mkRudpConfig {
  handshake_timeout_ms : Z;
  idle_timeout_ms : Z;
  cfg_ack_delay_ms : Z;
  rto_min_ms : Z;
  rto_max_ms : Z;
  max_inflight_packets : Z;
  max_inflight_bytes : Z;
  mtu_payload_bytes : Z;
}.

Definition default_RudpConfig : RudpConfig :=
  mkRudpConfig 1500 10000 10 50 2000 256 (256 * 1024) 1200.

Record RttEstimator := mkRttEstimator {
  rtt_initialized : bool;
  srtt_ms : Z;
  rttvar_ms : Z;
  rto_ms : Z;
}.

Definition default_RttEstimator : RttEstimator := mkRttEstimator false 0 0 200.

(** [static_cast<int>] of a [std::uint32_t]. *)
Definition to_int (z : Z) : Z := if z <? 2 ^ 31 then z else z - 2 ^ 32.

(** [std::abs(a - b)] on [int]: the difference and its absolute value must be
    representable. *)
Definition abs_diff_int (a b : Z) : option Z :=
  let d := a - b in
  if (- 2 ^ 31 <? d) && (d <? 2 ^ 31) then Some (Z.abs d) else None.

Definition clamp (v lo hi : Z) : option Z :=
  if hi <? lo then None else Some (if v <? lo then lo else if hi <? v then hi else v).

Definition rtt_update (sample_ms rto_min_ms rto_max_ms : Z) (r : RttEstimator) : option RttEstimator :=
  if sample_ms =? 0 then Some r
  else
    '(srtt, rttvar) ←
      (if negb (rtt_initialized r) then Some (sample_ms, Z.max 1 (sample_ms / 2))
       else
         err ← abs_diff_int (to_int (srtt_ms r)) (to_int sample_ms);
         let rttvar := u32 (u64 (u64 (3 * rttvar_ms r) + err) / 4) in
         let srtt := u32 (u64 (u64 (7 * srtt_ms r) + sample_ms) / 8) in
         Some (srtt, rttvar));
    let candidate := u32 (srtt + Z.max 1 (u32 (4 * rttvar))) in
    rto ← clamp candidate rto_min_ms rto_max_ms;
    Some (mkRttEstimator true srtt rttvar rto).

Record RudpPeerState := mkRudpPeerState {
  lifecycle : LifecycleState;
  st_connection_id : Z;
  next_packet_number : Z;
  last_recv_unix_ms : Z;
  last_send_unix_ms : Z;
  last_ack_emit_unix_ms : Z;
  st_ack_largest : Z;
  st_ack_mask : Z;
  st_fallback_required : bool;
  st_fallback_reason : string;
  rtt : RttEstimator;
}.

Definition default_RudpPeerState : RudpPeerState :=
  mkRudpPeerState kIdle 0 1 0 0 0 0 0 false EmptyString default_RttEstimator.

Inductive RudpFallbackReason :=
  | kHandshakeTimeout | kIdleTimeout | kProtocolError | kInflightLimit | kDisabled | kOther.

(** The calls the engine makes to [runtime_metrics]. *)
Inductive RudpMetric :=
  | set_rudp_inflight_packets (packets : Z)
  | record_rudp_fallback (reason : RudpFallbackReason)
  | record_rudp_handshake_result (ok : bool)
  | record_rudp_rtt_ms (sample : Z)
  | record_rudp_retransmit (count : Z).

Record ProcessResult := mkProcessResult {
  parsed : bool;
  consumed : bool;
  handshake_established : bool;
  fallback_required : bool;
  fallback_reason : string;
  egress_datagrams : list (list Z);
  inner_frames : list (list Z);
  pr_retransmit_count : Z;
}.

Definition default_ProcessResult : ProcessResult :=
  mkProcessResult false false false false EmptyString [] [] 0.

Record RudpEngine := mkRudpEngine {
  config_ : RudpConfig;
  state_ : RudpPeerState;
  ack_window_ : AckWindow;
  retransmission_queue_ : RetransmissionQueue;
  re_metrics : list RudpMetric;
}.

Definition new_RudpEngine (config : RudpConfig) : RudpEngine :=
  mkRudpEngine config default_RudpPeerState default_AckWindow default_RetransmissionQueue [].

(** Assignments to one member of the state. *)
Section setters.
Context (s : RudpPeerState).

Definition set_lifecycle (v : LifecycleState) : RudpPeerState :=
  mkRudpPeerState v (st_connection_id s) (next_packet_number s) (last_recv_unix_ms s)
    (last_send_unix_ms s) (last_ack_emit_unix_ms s) (st_ack_largest s) (st_ack_mask s)
    (st_fallback_required s) (st_fallback_reason s) (rtt s).
Definition set_connection_id (v : Z) : RudpPeerState :=
  mkRudpPeerState (lifecycle s) v (next_packet_number s) (last_recv_unix_ms s)
    (last_send_unix_ms s) (last_ack_emit_unix_ms s) (st_ack_largest s) (st_ack_mask s)
    (st_fallback_required s) (st_fallback_reason s) (rtt s).
Definition set_next_packet_number (v : Z) : RudpPeerState :=
  mkRudpPeerState (lifecycle s) (st_connection_id s) v (last_recv_unix_ms s)
    (last_send_unix_ms s) (last_ack_emit_unix_ms s) (st_ack_largest s) (st_ack_mask s)
    (st_fallback_required s) (st_fallback_reason s) (rtt s).
Definition set_last_recv (v : Z) : RudpPeerState :=
  mkRudpPeerState (lifecycle s) (st_connection_id s) (next_packet_number s) v
    (last_send_unix_ms s) (last_ack_emit_unix_ms s) (st_ack_largest s) (st_ack_mask s)
    (st_fallback_required s) (st_fallback_reason s) (rtt s).
Definition set_last_send (v : Z) : RudpPeerState :=
  mkRudpPeerState (lifecycle s) (st_connection_id s) (next_packet_number s) (last_recv_unix_ms s)
    v (last_ack_emit_unix_ms s) (st_ack_largest s) (st_ack_mask s)
    (st_fallback_required s) (st_fallback_reason s) (rtt s).
Definition set_last_ack_emit (v : Z) : RudpPeerState :=
  mkRudpPeerState (lifecycle s) (st_connection_id s) (next_packet_number s) (last_recv_unix_ms s)
    (last_send_unix_ms s) v (st_ack_largest s) (st_ack_mask s)
    (st_fallback_required s) (st_fallback_reason s) (rtt s).
Definition set_acks (largest mask : Z) : RudpPeerState :=
  mkRudpPeerState (lifecycle s) (st_connection_id s) (next_packet_number s) (last_recv_unix_ms s)
    (last_send_unix_ms s) (last_ack_emit_unix_ms s) largest mask
    (st_fallback_required s) (st_fallback_reason s) (rtt s).
Definition mark_fallback (reason : string) : RudpPeerState :=
  mkRudpPeerState (lifecycle s) (st_connection_id s) (next_packet_number s) (last_recv_unix_ms s)
    (last_send_unix_ms s) (last_ack_emit_unix_ms s) (st_ack_largest s) (st_ack_mask s)
    true reason (rtt s).
Definition set_fallback_reason (reason : string) : RudpPeerState :=
  mkRudpPeerState (lifecycle s) (st_connection_id s) (next_packet_number s) (last_recv_unix_ms s)
    (last_send_unix_ms s) (last_ack_emit_unix_ms s) (st_ack_largest s) (st_ack_mask s)
    (st_fallback_required s) reason (rtt s).
Definition set_rtt (v : RttEstimator) : RudpPeerState :=
  mkRudpPeerState (lifecycle s) (st_connection_id s) (next_packet_number s) (last_recv_unix_ms s)
    (last_send_unix_ms s) (last_ack_emit_unix_ms s) (st_ack_largest s) (st_ack_mask s)
    (st_fallback_required s) (st_fallback_reason s) v.
End setters.

Definition with_state (e : RudpEngine) (s : RudpPeerState) : RudpEngine :=
  mkRudpEngine (config_ e) s (ack_window_ e) (retransmission_queue_ e) (re_metrics e).
Definition with_window (e : RudpEngine) (w : AckWindow) : RudpEngine :=
  mkRudpEngine (config_ e) (state_ e) w (retransmission_queue_ e) (re_metrics e).
Definition with_queue (e : RudpEngine) (q : RetransmissionQueue) : RudpEngine :=
  mkRudpEngine (config_ e) (state_ e) (ack_window_ e) q (re_metrics e).
Definition metric (e : RudpEngine) (m : RudpMetric) : RudpEngine :=
  mkRudpEngine (config_ e) (state_ e) (ack_window_ e) (retransmission_queue_ e) (re_metrics e ++ [m]).

Definition now32 (now_unix_ms : Z) : Z := u32 (Z.land now_unix_ms 0xFFFFFFFF).

Definition classify_fallback_reason (reason : string) : RudpFallbackReason :=
  if String.eqb reason "rudp_handshake_timeout" then kHandshakeTimeout
  else if String.eqb reason "rudp_idle_timeout" then kIdleTimeout
  else if String.eqb reason "rudp_inflight_limit" then kInflightLimit
  else if String.eqb reason "rudp_disabled" then kDisabled
  else if String.eqb reason "invalid_rudp_packet" || String.eqb reason "connection_id_mismatch"
       || String.eqb reason "rudp_not_established" || String.eqb reason "peer_closed"
  then kProtocolError
  else kOther.

Definition rudp_engine_reset (e : RudpEngine) : RudpEngine :=
  metric (mkRudpEngine (config_ e) default_RudpPeerState (ack_window_reset (ack_window_ e))
    (retransmission_queue_reset (retransmission_queue_ e)) (re_metrics e))
    (set_rudp_inflight_packets 0).

Definition packet_header (e : RudpEngine) (type flags channel packet_number now_unix_ms length : Z) :
    RudpHeader :=
  mkRudpHeader kRudpMagic 1 type (st_connection_id (state_ e)) packet_number
    (st_ack_largest (state_ e)) (st_ack_mask (state_ e))
    (u16 (Z.min (cfg_ack_delay_ms (config_ e)) 0xFFFF)) channel flags (now32 now_unix_ms) length.

Definition make_packet (e : RudpEngine) (type flags channel packet_number now_unix_ms : Z)
    (payload : list Z) : option (list Z) :=
  encode_packet
    (packet_header e type flags channel packet_number now_unix_ms (u16 (zlen payload))) payload.

(** [result.fallback_reason] takes the string out of the state; a moved-from string
    is left empty. *)
Definition set_fallback (e : RudpEngine) (result : ProcessResult) (reason : string) :
    RudpEngine * ProcessResult :=
  let e := with_state e (mark_fallback (state_ e) reason) in
  let e := with_state e (set_lifecycle (state_ e) kDraining) in
  let e := metric e (record_rudp_fallback (classify_fallback_reason reason)) in
  let result := mkProcessResult (parsed result) (consumed result) (handshake_established result)
    true (st_fallback_reason (state_ e)) (egress_datagrams result) (inner_frames result)
    (pr_retransmit_count result) in
  (with_state e (set_fallback_reason (state_ e) EmptyString), result).

Definition make_hello (connection_id now_unix_ms : Z) (e : RudpEngine) :
    option (RudpEngine * list Z) :=
  let e := with_state e (set_connection_id (state_ e) connection_id) in
  let e := with_state e (set_lifecycle (state_ e) kHelloSent) in
  let e := with_state e (set_last_send (state_ e) now_unix_ms) in
  out ← make_packet e kHello 0 0 0 now_unix_ms [];
  Some (e, out).

Definition make_close (now_unix_ms : Z) (e : RudpEngine) : option (RudpEngine * list Z) :=
  let e := with_state e (set_lifecycle (state_ e) kClosed) in
  let e := with_state e (set_last_send (state_ e) now_unix_ms) in
  out ← make_packet e kClose 0 0 0 now_unix_ms [];
  Some (e, out).

(** The tail of [process_datagram], reached by DATA (and by unknown types) on an
    accepted header. *)
Definition process_data (e : RudpEngine) (result : ProcessResult) (header : RudpHeader)
    (payload : list Z) (now_unix_ms : Z) : option (RudpEngine * ProcessResult) :=
  if negb (bool_decide (lifecycle (state_ e) = kEstablished)) then
    let e := metric e (record_rudp_handshake_result false) in
    Some (set_fallback e result "rudp_not_established")
  else
    let '(w, ack) := observe (rh_packet_number header) (ack_window_ e) in
    let e := with_window e w in
    let e := with_state e (set_acks (state_ e) (ao_ack_largest ack) (ao_ack_mask ack)) in
    if negb (accepted ack) then Some (e, result)
    else
      let result := if bool_decide (payload = []) then result
        else mkProcessResult (parsed result) (consumed result) (handshake_established result)
               (fallback_required result) (fallback_reason result) (egress_datagrams result)
               (inner_frames result ++ [payload]) (pr_retransmit_count result) in
      let should_emit_ack :=
        (Z.land (rh_flags header) kFlagAckOnly =? 0)
        && (u64 (last_ack_emit_unix_ms (state_ e) + cfg_ack_delay_ms (config_ e)) <=? now_unix_ms) in
      '(e, result) ←
        (if should_emit_ack then
           out ← make_packet e kData kFlagAckOnly (rh_channel header) 0 now_unix_ms [];
           Some (with_state e (set_last_ack_emit (state_ e) now_unix_ms),
                 mkProcessResult (parsed result) (consumed result) (handshake_established result)
                   (fallback_required result) (fallback_reason result)
                   (egress_datagrams result ++ [out]) (inner_frames result)
                   (pr_retransmit_count result))
         else Some (e, result));
      if negb (rh_timestamp_ms header =? 0) then
        let sent_ts := rh_timestamp_ms header in
        let now_ts := Z.land now_unix_ms 0xFFFFFFFF in
        let sample := u32 (if sent_ts <=? now_ts then now_ts - sent_ts else 0) in
        r ← rtt_update sample (rto_min_ms (config_ e)) (rto_max_ms (config_ e)) (rtt (state_ e));
        let e := with_state e (set_rtt (state_ e) r) in
        Some (metric e (record_rudp_rtt_ms sample), result)
      else Some (e, result).

Definition process_datagram (datagram : list Z) (now_unix_ms : Z) (e : RudpEngine) :
    option (RudpEngine * ProcessResult) :=
  let result := default_ProcessResult in
  looks ← looks_like_rudp datagram;
  if negb looks then Some (e, result)
  else
    let result := mkProcessResult false true false false EmptyString [] [] 0 in
    decoded ← decode_packet datagram;
    if negb (dr_ok decoded) || negb (rh_version (dr_header decoded) =? 1) then
      let e := metric e (record_rudp_handshake_result false) in
      Some (set_fallback e result "invalid_rudp_packet")
    else
      let header := dr_header decoded in
      let result := mkProcessResult true true false false EmptyString [] [] 0 in
      let e := with_state e (set_last_recv (state_ e) now_unix_ms) in
      if negb (st_connection_id (state_ e) =? 0) && negb (rh_connection_id header =? 0)
         && negb (st_connection_id (state_ e) =? rh_connection_id header) then
        let e := metric e (record_rudp_handshake_result false) in
        Some (set_fallback e result "connection_id_mismatch")
      else
        let e := if st_connection_id (state_ e) =? 0
          then with_state e (set_connection_id (state_ e) (rh_connection_id header)) else e in
        let e := with_queue e
          (mark_acked (rh_ack_largest header) (rh_ack_mask header) (retransmission_queue_ e)) in
        let e := metric e
          (set_rudp_inflight_packets (inflight_packets (retransmission_queue_ e))) in
        if rh_type header =? kHello then
          let new_established := negb (bool_decide (lifecycle (state_ e) = kEstablished)) in
          let e := with_state e (set_lifecycle (state_ e) kEstablished) in
          let e := with_state e (set_last_send (state_ e) now_unix_ms) in
          let e := metric e (record_rudp_handshake_result true) in
          out ← make_packet e kHelloAck 0 0 0 now_unix_ms [];
          Some (e, mkProcessResult true true new_established false EmptyString [out] [] 0)
        else if rh_type header =? kHelloAck then
          let e := with_state e (set_lifecycle (state_ e) kEstablished) in
          let e := metric e (record_rudp_handshake_result true) in
          Some (e, mkProcessResult true true true false EmptyString [] [] 0)
        else if rh_type header =? kClose then
          let e := with_state e (set_lifecycle (state_ e) kClosed) in
          Some (set_fallback e result "peer_closed")
        else if rh_type header =? kPing then
          out ← make_packet e kData kFlagAckOnly 0 0 now_unix_ms [];
          Some (e, mkProcessResult true true false false EmptyString [out] [] 0)
        else process_data e result header (dr_payload decoded) now_unix_ms.

Definition queue_reliable_payload (inner_frame : list Z) (channel now_unix_ms : Z) (e : RudpEngine) :
    option (RudpEngine * option (list Z)) :=
  let q := retransmission_queue_ e in
  if negb (bool_decide (lifecycle (state_ e) = kEstablished)) then Some (e, None)
  else if bool_decide (inner_frame = []) then Some (e, None)
  else if mtu_payload_bytes (config_ e) <? zlen inner_frame then Some (e, None)
  else if max_inflight_packets (config_ e) <=? inflight_packets q then
    Some (metric e (record_rudp_fallback kInflightLimit), None)
  else if max_inflight_bytes (config_ e) <? u64 (inflight_bytes q + zlen inner_frame) then
    Some (metric e (record_rudp_fallback kInflightLimit), None)
  else
    let packet_number := next_packet_number (state_ e) in
    let e := with_state e (set_next_packet_number (state_ e) (u32 (packet_number + 1))) in
    frame ← make_packet e kData 0 channel packet_number now_unix_ms inner_frame;
    let e := with_queue e (push packet_number now_unix_ms frame (retransmission_queue_ e)) in
    let e := metric e (set_rudp_inflight_packets (inflight_packets (retransmission_queue_ e))) in
    let e := with_state e (set_last_send (state_ e) now_unix_ms) in
    Some (e, Some frame).

(** The copy of a queued frame that [poll] sends again. *)
Definition retransmit_frame (frame : list Z) : option (list Z) :=
  if Z.of_nat kRudpHeaderBytes <=? zlen frame then
    b ← frame !! 27%nat;
    poke 27 [u8 (Z.lor b kFlagRetransmit)] frame
  else Some frame.

Definition poll (now_unix_ms : Z) (e : RudpEngine) : option (RudpEngine * ProcessResult) :=
  let s := state_ e in
  if bool_decide (lifecycle s = kHelloSent) && (0 <? last_send_unix_ms s)
     && (u64 (last_send_unix_ms s + handshake_timeout_ms (config_ e)) <? now_unix_ms) then
    Some (set_fallback e default_ProcessResult "rudp_handshake_timeout")
  else if bool_decide (lifecycle s = kEstablished) && (0 <? last_recv_unix_ms s)
     && (u64 (last_recv_unix_ms s + idle_timeout_ms (config_ e)) <? now_unix_ms) then
    Some (set_fallback e default_ProcessResult "rudp_idle_timeout")
  else
    let '(q, due) := collect_timeouts now_unix_ms (rto_ms (rtt s)) 16 (retransmission_queue_ e) in
    let e := with_queue e q in
    if bool_decide (due = []) then Some (e, default_ProcessResult)
    else
      let e := metric e (record_rudp_retransmit (zlen due)) in
      let e := metric e (set_rudp_inflight_packets (inflight_packets (retransmission_queue_ e))) in
      frames ← mapM (fun p => retransmit_frame (encoded_frame p)) due;
      Some (e, mkProcessResult false false false false EmptyString frames [] (zlen due)).
