(* ===== verification/RudpEngineProps.v ===== *)
(** Theorems about the reliable UDP engine of [RudpEngine]: its invariant and the
    absence of undefined behaviour, delivery at most once, the limits on data in
    flight, the delivery and acknowledgement of one payload between two engines,
    and the retransmitted frames. *)

From S2P Require Import Prelude Wire RudpPacket AckWindow RetransmissionQueue RudpEngine.

(** ** Invariant *)

(** A configuration with ordered RTO bounds, an MTU that the 16-bit length field can
    carry and a byte limit clear of the end of [std::size_t]. *)
Definition wf_config (c : RudpConfig) : Prop :=
  fits 32 (handshake_timeout_ms c) /\ fits 32 (idle_timeout_ms c) /\ fits 32 (cfg_ack_delay_ms c)
  /\ fits 32 (rto_min_ms c) /\ fits 32 (rto_max_ms c) /\ rto_min_ms c <= rto_max_ms c
  /\ fits 64 (max_inflight_packets c) /\ 0 <= max_inflight_bytes c
  /\ max_inflight_bytes c + 2 ^ 17 < 2 ^ 64 /\ 0 <= mtu_payload_bytes c < 2 ^ 16.

Definition wf_rtt (r : RttEstimator) : Prop :=
  fits 31 (srtt_ms r) /\ fits 31 (rttvar_ms r) /\ fits 32 (rto_ms r).

(** A queued frame is the encoding of a DATA packet with its queue number, no flags
    and a non-empty payload. *)
Definition queued_frame (p : PendingPacket) (h : RudpHeader) (payload : list Z) : Prop :=
  wf_RudpHeader h /\ bytes payload /\ rh_magic h = kRudpMagic /\ rh_version h = 1 /\ rh_type h = kData
  /\ rh_flags h = 0 /\ rh_packet_number h = pp_packet_number p
  /\ rh_payload_length h = zlen payload /\ payload <> []
  /\ encoded_frame p = rudp_header_bytes h ++ payload.

Record wf_engine (e : RudpEngine) : Prop := {
  we_config : wf_config (config_ e);
  we_connection_id : fits 32 (st_connection_id (state_ e));
  we_next : fits 32 (next_packet_number (state_ e));
  we_recv : fits 64 (last_recv_unix_ms (state_ e));
  we_send : fits 64 (last_send_unix_ms (state_ e));
  we_emit : fits 64 (last_ack_emit_unix_ms (state_ e));
  we_rtt : wf_rtt (rtt (state_ e));
  we_window : exists R, represents (ack_window_ e) R;
  we_acks : st_ack_largest (state_ e) = largest_ (ack_window_ e)
            /\ st_ack_mask (state_ e) = mask_ (ack_window_ e);
  we_queue : wf_queue (retransmission_queue_ e);
  we_frames : Forall (fun en => exists h payload, queued_frame (packet en) h payload)
                (pending_ (retransmission_queue_ e));
  we_packets : inflight_packets (retransmission_queue_ e) <= max_inflight_packets (config_ e);
  we_bytes : inflight_bytes (retransmission_queue_ e)
             <= max_inflight_bytes (config_ e) + Z.of_nat kRudpHeaderBytes;
}.

(** ** Lemmas *)

Lemma represents_fits w R : represents w R -> fits 32 (largest_ w) /\ fits 64 (mask_ w).
Proof.
  intros [HR Hw]. destruct (initialized_ w); [destruct Hw as (? & _ & ? & _); auto|].
  destruct Hw as [_ ->]. split; by vm_compute.
Qed.

Lemma packet_header_wf e type flags channel n now len :
  wf_engine e -> fits 8 type -> fits 8 flags -> fits 8 channel -> fits 32 n -> fits 16 len ->
  wf_RudpHeader (packet_header e type flags channel n now len).
Proof.
  intros He ?????. destruct (we_window e He) as [R HR]. destruct (we_acks e He) as [Hl Hm].
  apply represents_fits in HR as [? ?].
  unfold wf_RudpHeader, packet_header. simpl. rewrite Hl, Hm.
  split_and!; try done; try apply wrap_fits; try lia; try apply (we_connection_id e He); by vm_compute.
Qed.

Lemma make_packet_eq e type flags channel n now payload :
  zlen payload < 2 ^ 16 ->
  make_packet e type flags channel n now payload
  = Some (rudp_header_bytes (packet_header e type flags channel n now (zlen payload)) ++ payload).
Proof.
  intros Hlen. unfold make_packet. rewrite encode_packet_eq. unfold packet_header, set_payload_length.
  simpl. by rewrite (wrap_id 16 (zlen payload)) by (widths; lia).
Qed.

(** The RTT estimator is defined on samples below 2^31 ms. *)
Lemma rtt_update_total sample lo hi r :
  wf_rtt r -> 0 <= sample < 2 ^ 31 -> 0 <= lo <= hi -> fits 32 hi ->
  exists r', rtt_update sample lo hi r = Some r' /\ wf_rtt r'
    /\ (sample <> 0 -> lo <= rto_ms r' <= hi).
Proof.
  intros (Hs & Hv & Hr) Hsample Hlo Hhi. unfold rtt_update.
  destruct (Z.eqb_spec sample 0); [by exists r|].
  assert (Hclamp : forall v, exists x, clamp v lo hi = Some x /\ lo <= x <= hi).
  { intros v. unfold clamp. destruct (Z.ltb_spec hi lo); [lia|].
    eexists; split; [done|]. destruct (Z.ltb_spec v lo), (Z.ltb_spec hi v); lia. }
  destruct (rtt_initialized r); cbn [negb].
  - unfold abs_diff_int, to_int. unfold fits in Hs, Hv.
    destruct (Z.ltb_spec (srtt_ms r) (2 ^ 31)); [|lia]. destruct (Z.ltb_spec sample (2 ^ 31)); [|lia].
    destruct (Z.ltb_spec (- 2 ^ 31) (srtt_ms r - sample)); [|lia].
    destruct (Z.ltb_spec (srtt_ms r - sample) (2 ^ 31)); [|lia]. cbn [andb mbind option_bind].
    match goal with |- context [clamp ?v _ _] => destruct (Hclamp v) as (x & -> & ?) end.
    eexists; split; [done|]. split; [|by simpl].
    unfold wf_rtt. simpl. widths. unfold wrap. split_and!; zlia.
  - cbn [mbind option_bind].
    match goal with |- context [clamp ?v _ _] => destruct (Hclamp v) as (x & -> & ?) end.
    eexists; split; [done|]. split; [|by simpl].
    unfold wf_rtt. simpl. widths. split_and!; zlia.
Qed.

(** Assignments that keep the invariant. *)
Create HintDb engine.

Ltac keep_wf := intros He; intros; destruct He; constructor; simpl; auto.

Lemma wf_metric e m : wf_engine e -> wf_engine (metric e m).
Proof. keep_wf. Qed.
Lemma wf_set_lifecycle e v : wf_engine e -> wf_engine (with_state e (set_lifecycle (state_ e) v)).
Proof. keep_wf. Qed.
Lemma wf_set_connection_id e v :
  wf_engine e -> fits 32 v -> wf_engine (with_state e (set_connection_id (state_ e) v)).
Proof. keep_wf. Qed.
Lemma wf_set_last_recv e v :
  wf_engine e -> fits 64 v -> wf_engine (with_state e (set_last_recv (state_ e) v)).
Proof. keep_wf. Qed.
Lemma wf_set_last_send e v :
  wf_engine e -> fits 64 v -> wf_engine (with_state e (set_last_send (state_ e) v)).
Proof. keep_wf. Qed.
Lemma wf_set_last_ack_emit e v :
  wf_engine e -> fits 64 v -> wf_engine (with_state e (set_last_ack_emit (state_ e) v)).
Proof. keep_wf. Qed.
Lemma wf_set_rtt e v : wf_engine e -> wf_rtt v -> wf_engine (with_state e (set_rtt (state_ e) v)).
Proof. keep_wf. Qed.
Lemma wf_set_next e v :
  wf_engine e -> fits 32 v -> wf_engine (with_state e (set_next_packet_number (state_ e) v)).
Proof. keep_wf. Qed.
Lemma wf_set_fallback e r s : wf_engine e -> wf_engine (set_fallback e r s).1.
Proof. keep_wf. Qed.

Lemma set_fallback_spec e r s :
  exists e' r', set_fallback e r s = (e', r') /\ (wf_engine e -> wf_engine e')
    /\ config_ e' = config_ e /\ ack_window_ e' = ack_window_ e
    /\ retransmission_queue_ e' = retransmission_queue_ e
    /\ inner_frames r' = inner_frames r /\ egress_datagrams r' = egress_datagrams r
    /\ lifecycle (state_ e') = kDraining.
Proof. eexists _, _; split; [done|]. split_and!; try done. by apply (wf_set_fallback e r s). Qed.

Lemma observe_publishes n w :
  let '(w', o) := observe n w in ao_ack_largest o = largest_ w' /\ ao_ack_mask o = mask_ w'.
Proof. unfold observe. by repeat case_match; simplify_eq. Qed.

Lemma wf_observe e n :
  wf_engine e -> fits 32 n ->
  let '(w, o) := observe n (ack_window_ e) in
  wf_engine (with_state (with_window e w)
    (set_acks (state_ e) (ao_ack_largest o) (ao_ack_mask o))).
Proof.
  intros He Hn. destruct (we_window e He) as [R HR]. pose proof (observe_spec _ R n HR Hn) as Hobs.
  destruct (observe n _) as [w o]. destruct Hobs as (HR' & _ & _ & _ & Hl & Hm & _).
  destruct He; constructor; simpl; eauto.
Qed.

Lemma wf_mark_acked e l m :
  wf_engine e -> wf_engine (with_queue e (mark_acked l m (retransmission_queue_ e))).
Proof.
  intros He. pose proof (we_queue e He) as Hq. destruct He.
  pose proof Hq as (_ & Hn & Hlt).
  destruct (queue_step_spec _ (OpAck l m) Hq) as (Hwf & _ & Hle); [simpl in *; lia|].
  constructor; simpl in *; auto; rewrite ?mark_acked_eq in *; simpl in *; try done.
  - by apply Forall_filter.
  - unfold inflight_packets in *. simpl.
    pose proof (length_filter (fun e0 => is_acked_by_mask (pp_packet_number (packet e0)) l m = false)
      (pending_ (retransmission_queue_ e))). lia.
  - unfold inflight_bytes in *. simpl. lia.
Qed.

#[export] Hint Resolve wf_metric wf_set_lifecycle wf_set_connection_id wf_set_last_recv
  wf_set_last_send wf_set_last_ack_emit wf_set_rtt wf_set_next wf_set_fallback wf_mark_acked : engine.

(** The age of a packet by its timestamp is below 2^31 ms (24.8 days). *)
Definition clock_ok (now_unix_ms : Z) (h : RudpHeader) : Prop :=
  now32 now_unix_ms - rh_timestamp_ms h < 2 ^ 31.

(** What the window and the delivered frames are after DATA on an established peer. *)
Definition delivery (e : RudpEngine) (h : RudpHeader) (payload : list Z)
    (e' : RudpEngine) (frames : list (list Z)) : Prop :=
  let '(w, o) := observe (rh_packet_number h) (ack_window_ e) in
  ack_window_ e' = w
  /\ frames = if accepted o && negb (bool_decide (payload = [])) then [payload] else [].

(** The acknowledgement sent back for it: an ACK-only packet with number 0 that
    publishes the window. *)
Definition ack_header (e : RudpEngine) (w : AckWindow) (channel now_unix_ms : Z) : RudpHeader :=
  mkRudpHeader kRudpMagic 1 kData (st_connection_id (state_ e)) 0 (largest_ w) (mask_ w)
    (u16 (Z.min (cfg_ack_delay_ms (config_ e)) 0xFFFF)) channel kFlagAckOnly (now32 now_unix_ms) 0.

Definition acks_back (e : RudpEngine) (h : RudpHeader) (now_unix_ms : Z) : list (list Z) :=
  let '(w, o) := observe (rh_packet_number h) (ack_window_ e) in
  if accepted o && ((Z.land (rh_flags h) kFlagAckOnly =? 0)
     && (u64 (last_ack_emit_unix_ms (state_ e) + cfg_ack_delay_ms (config_ e)) <=? now_unix_ms))
  then [rudp_header_bytes (ack_header e w (rh_channel h) now_unix_ms)] else [].

Lemma process_data_spec e r h payload now :
  wf_engine e -> wf_RudpHeader h -> fits 64 now -> clock_ok now h ->
  exists e' r', process_data e r h payload now = Some (e', r') /\ wf_engine e'
    /\ config_ e' = config_ e /\ retransmission_queue_ e' = retransmission_queue_ e
    /\ if decide (lifecycle (state_ e) = kEstablished)
       then exists frames, delivery e h payload e' frames /\ inner_frames r' = inner_frames r ++ frames
            /\ egress_datagrams r' = egress_datagrams r ++ acks_back e h now
       else ack_window_ e' = ack_window_ e /\ inner_frames r' = inner_frames r
            /\ egress_datagrams r' = egress_datagrams r.
Proof.
  intros He Hh Hnow Hclock. unfold process_data, delivery, acks_back.
  rewrite bool_decide_decide. destruct (decide _) as [Hest|]; cbn [negb].
  2: { destruct (set_fallback_spec (metric e (record_rudp_handshake_result false)) r
         "rudp_not_established") as (e' & r' & -> & Hwf & Hc & Hw & Hq & Hf & Heg & _).
       exists e', r'. split_and!; auto with engine. }
  destruct Hh as (_&_&_&_&Hn&_&_&_&Hch&_&Hts&_).
  pose proof (wf_observe e (rh_packet_number h) He Hn) as Hwf.
  pose proof (observe_publishes (rh_packet_number h) (ack_window_ e)) as Hpub.
  destruct (observe _ _) as [w o]. destruct Hpub as [Hpl Hpm]. set (e1 := with_state _ _) in *.
  assert (Hhd : ack_header e w (rh_channel h) now = packet_header e1 kData kFlagAckOnly (rh_channel h) 0 now 0)
    by (unfold ack_header, packet_header; simpl; by rewrite Hpl, Hpm).
  assert (H1 : config_ e1 = config_ e /\ ack_window_ e1 = w
    /\ retransmission_queue_ e1 = retransmission_queue_ e
    /\ last_ack_emit_unix_ms (state_ e1) = last_ack_emit_unix_ms (state_ e)) by done.
  change (with_state (with_window e w) _) with e1. clearbody e1. destruct H1 as (Hc1 & Hw1 & Hq1 & He1).
  destruct (accepted o); cbn [negb andb].
  2: { exists e1, r. split_and!; [done..|]. exists []. by rewrite !app_nil_r. }
  set (r1 := if bool_decide _ then r else _).
  assert (Hr1 : inner_frames r1 = inner_frames r ++ (if negb (bool_decide (payload = [])) then [payload] else [])
    /\ egress_datagrams r1 = egress_datagrams r).
  { unfold r1. by case_bool_decide; simpl; rewrite ?app_nil_r. }
  clearbody r1. rewrite Hc1, He1, Hhd. set (emit := (Z.land _ _ =? 0) && _).
  assert (Hemit : exists e2 r2,
    (if emit
     then out ← make_packet e1 kData kFlagAckOnly (rh_channel h) 0 now [];
          Some (with_state e1 (set_last_ack_emit (state_ e1) now),
                 mkProcessResult (parsed r1) (consumed r1) (handshake_established r1)
                   (fallback_required r1) (fallback_reason r1)
                   (egress_datagrams r1 ++ [out]) (inner_frames r1)
                   (pr_retransmit_count r1))
     else Some (e1, r1)) = Some (e2, r2)
    /\ wf_engine e2 /\ config_ e2 = config_ e /\ ack_window_ e2 = w
    /\ retransmission_queue_ e2 = retransmission_queue_ e
    /\ inner_frames r2 = inner_frames r1
    /\ egress_datagrams r2 = egress_datagrams r ++ if emit then [rudp_header_bytes
         (packet_header e1 kData kFlagAckOnly (rh_channel h) 0 now 0)] else []).
  { destruct emit; [|exists e1, r1; rewrite app_nil_r; by split_and!; try apply Hr1].
    rewrite make_packet_eq by (simpl; lia). cbn [mbind option_bind].
    eexists _, _; split; [done|]. split_and!; auto with engine.
    cbn [egress_datagrams]. by rewrite (proj2 Hr1), app_nil_r. }
  destruct Hemit as (e2 & r2 & -> & Hwf2 & Hc2 & Hw2 & Hq2 & Hr2 & Heg2). cbn [mbind option_bind].
  destruct (Z.eqb_spec (rh_timestamp_ms h) 0) as [|Hts0]; cbn [negb].
  { exists e2, r2. split_and!; [done..|]. eexists. split; [done|]. by rewrite Hr2, (proj1 Hr1). }
  set (sample := u32 _).
  assert (Hs : 0 <= sample < 2 ^ 31).
  { subst sample. unfold clock_ok, now32 in Hclock. rewrite land_ffffffff in *.
    destruct (Z.leb_spec (rh_timestamp_ms h) (now mod 2 ^ 32)); zlia. }
  clearbody sample. destruct (we_config e2 Hwf2) as (_&_&_&Hlo&Hhi&Hord&_).
  destruct (rtt_update_total sample _ _ _ (we_rtt e2 Hwf2) Hs (conj (proj1 Hlo) Hord) Hhi)
    as (rt & -> & Hrt & _). cbn [mbind option_bind].
  eexists _, _; split; [done|]. split_and!; auto with engine.
  eexists. split; [done|]. by rewrite Hr2, (proj1 Hr1).
Qed.

(** The cases of [process_datagram], for any bytes. *)
Lemma process_datagram_spec e d now :
  wf_engine e -> bytes d -> fits 64 now ->
  (forall r, decode_packet d = Some r -> dr_ok r = true -> clock_ok now (dr_header r)) ->
  exists e' r, process_datagram d now e = Some (e', r) /\ wf_engine e' /\ config_ e' = config_ e
    /\ ((ack_window_ e' = ack_window_ e /\ inner_frames r = [])
        \/ exists h payload, wf_RudpHeader h /\ rh_payload_length h = zlen payload
             /\ d = rudp_header_bytes h ++ payload /\ delivery e h payload e' (inner_frames r)).
Proof.
  intros He Hd Hnow Hclock. unfold process_datagram. cbv zeta.
  destruct (looks_like_rudp_total d Hd) as [[] ->]; cbn [mbind option_bind negb];
    [|by eexists _, _; split_and!; auto].
  destruct (decode_packet_inv d Hd) as (dr & Hdr & Hinv). rewrite Hdr. cbn [mbind option_bind].
  destruct (negb (dr_ok dr) || _) eqn:Hbad.
  { destruct (set_fallback_spec (metric e (record_rudp_handshake_result false))
      (mkProcessResult false true false false EmptyString [] [] 0) "invalid_rudp_packet")
      as (e' & r' & -> & Hwf & Hc & Hw & Hq & Hf & _).
    eexists _, _; split_and!; auto with engine. }
  apply orb_false_iff in Hbad as [Hok _]. apply negb_false_iff in Hok.
  specialize (Hclock _ Hdr Hok). rewrite Hok in Hinv. destruct Hinv as (Hh & Hpl & Hbytes).
  destruct dr as [ok h payload]. cbn [dr_header dr_payload] in *.
  set (e1 := with_state e _). assert (H1 : wf_engine e1) by (apply wf_set_last_recv; auto).
  assert (Hw1 : ack_window_ e1 = ack_window_ e) by done.
  assert (Hc1 : config_ e1 = config_ e) by done. clearbody e1.
  destruct (negb _ && negb _ && negb _).
  { destruct (set_fallback_spec (metric e1 (record_rudp_handshake_result false))
      (mkProcessResult true true false false EmptyString [] [] 0) "connection_id_mismatch")
      as (e' & r' & -> & Hwf & Hc & Hw & Hq & Hf & _).
    eexists _, _; split_and!; auto with engine; [by rewrite Hc|left; by rewrite Hw]. }
  set (e2 := if st_connection_id (state_ e1) =? 0 then _ else e1).
  assert (H2 : wf_engine e2 /\ ack_window_ e2 = ack_window_ e /\ config_ e2 = config_ e).
  { subst e2. destruct (_ =? 0); split_and!; auto. apply wf_set_connection_id; [done|apply Hh]. }
  clearbody e2. destruct H2 as (H2 & Hw2 & Hc2).
  set (e3 := metric (with_queue e2 _) _). assert (H3 : wf_engine e3) by (subst e3; auto with engine).
  assert (Hw3 : ack_window_ e3 = ack_window_ e) by done.
  assert (Hc3 : config_ e3 = config_ e) by done. clearbody e3.
  case_match; [|case_match; [|case_match; [|case_match]]].
  - rewrite make_packet_eq by (simpl; lia). eexists _, _; split; [done|]. split_and!; auto with engine.
  - eexists _, _; split; [done|]. split_and!; auto with engine.
  - destruct (set_fallback_spec (with_state e3 (set_lifecycle (state_ e3) kClosed))
      (mkProcessResult true true false false EmptyString [] [] 0) "peer_closed")
      as (e' & r' & -> & Hwf & Hc & Hw & Hq & Hf & _).
    eexists _, _; split_and!; auto with engine; [by rewrite Hc|left; by rewrite Hw].
  - rewrite make_packet_eq by (simpl; lia). eexists _, _; split; [done|]. split_and!; auto with engine.
  - destruct (process_data_spec e3 (mkProcessResult true true false false EmptyString [] [] 0)
      h payload now H3 Hh Hnow Hclock) as (e' & r' & -> & Hwf & Hc & _ & Hout).
    eexists _, _; split; [done|]. split_and!; [done|congruence|]. case_decide.
    + destruct Hout as (frames & Hdel & Hf & _). right. exists h, payload. split_and!; [done..|].
      unfold delivery in *. rewrite Hw3 in Hdel. destruct (observe _ _) as [w o]. by rewrite Hf.
    + left. destruct Hout as (Hw & Hf & _). by rewrite Hw, Hf.
Qed.

Lemma queue_reliable_payload_spec e f ch now :
  wf_engine e -> bytes f -> fits 8 ch -> fits 64 now ->
  let q := retransmission_queue_ e in
  let n := next_packet_number (state_ e) in
  let d := rudp_header_bytes (packet_header e kData 0 ch n now (zlen f)) ++ f in
  exists e' o, queue_reliable_payload f ch now e = Some (e', o) /\ wf_engine e'
    /\ config_ e' = config_ e /\ ack_window_ e' = ack_window_ e
    /\ if decide (lifecycle (state_ e) = kEstablished /\ f <> []
          /\ zlen f <= mtu_payload_bytes (config_ e)
          /\ inflight_packets q < max_inflight_packets (config_ e)
          /\ inflight_bytes q + zlen f <= max_inflight_bytes (config_ e))
       then o = Some d /\ outstanding (retransmission_queue_ e') = outstanding q ++ [(n, d)]
            /\ state_ e' = set_last_send (set_next_packet_number (state_ e) (u32 (n + 1))) now
       else o = None /\ retransmission_queue_ e' = q /\ state_ e' = state_ e.
Proof.
  intros He Hf Hch Hnow. cbv zeta. unfold queue_reliable_payload. cbv zeta.
  pose proof He as [Hcfg Hid Hnext Hrecv Hsend Hemit Hrtt Hwin Hacks Hq Hframes Hpackets Hbytes].
  pose proof Hcfg as (_&_&_&_&_&_&_&Hmax0&Hmax&Hmtu).
  destruct (decide _) as [(Hest & Hne & Hlen & Hp & Hb)|Hno].
  2: { rewrite !bool_decide_decide.
       destruct (decide (lifecycle _ = _)); cbn [negb]; [|by eexists _, _; split_and!].
       destruct (decide (f = [])); [by eexists _, _; split_and!|].
       destruct (Z.ltb_spec (mtu_payload_bytes (config_ e)) (zlen f)); [by eexists _, _; split_and!|].
       destruct (Z.leb_spec (max_inflight_packets (config_ e)) (inflight_packets (retransmission_queue_ e)));
         [by eexists _, _; split_and!; auto with engine|].
       unfold kRudpHeaderBytes in Hbytes.
       pose proof Hq as (_ & Hn & _). pose proof (total_bytes_nonneg (pending_ (retransmission_queue_ e))).
       unfold inflight_bytes in *. rewrite wrap_id by (widths; lia).
       destruct (Z.ltb_spec (max_inflight_bytes (config_ e)) (inflight_bytes_ (retransmission_queue_ e) + zlen f)).
       - eexists _, _; split_and!; auto with engine.
       - destruct Hno. split_and!; done || lia. }
  rewrite !bool_decide_decide, decide_True, decide_False by done. cbn [negb].
  destruct (Z.ltb_spec (mtu_payload_bytes (config_ e)) (zlen f)); [lia|].
  destruct (Z.leb_spec (max_inflight_packets (config_ e)) (inflight_packets (retransmission_queue_ e))); [lia|].
  unfold kRudpHeaderBytes in Hbytes. pose proof Hq as (_ & Hn & _).
  pose proof (total_bytes_nonneg (pending_ (retransmission_queue_ e))).
  unfold inflight_bytes in *. rewrite (wrap_id 64) by (widths; lia).
  destruct (Z.ltb_spec (max_inflight_bytes (config_ e)) (inflight_bytes_ (retransmission_queue_ e) + zlen f)); [lia|].
  rewrite make_packet_eq by lia. cbn [mbind option_bind].
  set (n := next_packet_number (state_ e)) in *.
  set (h := packet_header (with_state e _) _ _ _ _ _ _).
  change (packet_header e kData 0 ch n now (zlen f)) with h.
  assert (Hh : wf_RudpHeader h).
  { apply (packet_header_wf e); try done; widths; lia. }
  assert (Hframe : zlen (rudp_header_bytes h ++ f) = Z.of_nat kRudpHeaderBytes + zlen f).
  { rewrite length_app, length_rudp_header_bytes. lia. }
  unfold kRudpHeaderBytes in Hframe.
  destruct (queue_step_spec (retransmission_queue_ e) (OpPush n now (rudp_header_bytes h ++ f)) Hq)
    as (Hwf & Hout & Hle); [cbn [pushed_bytes foldr]; lia|].
  cbn [queue_step spec_step pushed_bytes foldr] in *.
  assert (Hnil : rudp_header_bytes h ++ f <> []) by done. rewrite decide_False in Hout by done.
  eexists _, _; split; [done|]. cbn [config_ ack_window_ with_state with_queue metric]. split_and!; try done.
  constructor; simpl; auto; [apply wrap_fits; lia|..]; unfold push in *; rewrite decide_False in * by done.
  - simpl. apply Forall_app. split; [done|]. constructor; [|constructor].
    exists h, f. unfold queued_frame. simpl. split_and!; try done; apply Hh.
  - unfold inflight_packets in *. simpl. rewrite length_app. simpl. lia.
  - unfold inflight_bytes in *. simpl in *. unfold kRudpHeaderBytes. lia.
Qed.

Definition set_flags (v : Z) (h : RudpHeader) : RudpHeader :=
  mkRudpHeader (rh_magic h) (rh_version h) (rh_type h) (rh_connection_id h)
    (rh_packet_number h) (rh_ack_largest h) (rh_ack_mask h) (rh_ack_delay_ms h)
    (rh_channel h) v (rh_timestamp_ms h) (rh_payload_length h).

(** [poll] sends a queued frame again with the retransmit flag and no other change. *)
Lemma retransmit_frame_eq h payload :
  rh_flags h = 0 ->
  retransmit_frame (rudp_header_bytes h ++ payload)
  = Some (rudp_header_bytes (set_flags kFlagRetransmit h) ++ payload).
Proof.
  intros Hf. unfold retransmit_frame. rewrite (proj2 (Z.leb_le _ _))
    by (rewrite length_app, length_rudp_header_bytes; lia).
  unfold rudp_header_bytes. rewrite <- !app_assoc.
  match goal with |- context [?l !! 27%nat] => replace (l !! 27%nat) with (Some 0) by (simpl; by rewrite Hf) end.
  cbn [mbind option_bind]. change (u8 (Z.lor 0 kFlagRetransmit)) with kFlagRetransmit.
  change (be16 ?a) with [u8 (Z.land (Z.shiftr a 8) 0xFF); u8 (Z.land a 0xFF)].
  done.
Qed.

Lemma frames_touch now rto k l :
  Forall (fun en => exists h payload, queued_frame (packet en) h payload) l ->
  Forall (fun en => exists h payload, queued_frame (packet en) h payload) (touch now rto k l).
Proof.
  intros Hl. revert k. induction Hl as [|en l Hen Hl IH]; intros [|k]; cbn [touch];
    [constructor..|by constructor|]. case_match; constructor; auto.
Qed.

Lemma wf_collect e now rto batch :
  wf_engine e ->
  wf_engine (with_queue e (collect_timeouts now rto batch (retransmission_queue_ e)).1).
Proof.
  intros He. pose proof (we_queue e He) as Hq. pose proof Hq as (_ & Hn & Hlt). destruct He.
  destruct (queue_step_spec _ (OpSweep now rto batch) Hq) as (Hwf & _ & Hle); [simpl in *; lia|].
  cbn [queue_step pushed_bytes foldr] in *.
  destruct (collect_timeouts_touch now rto batch (retransmission_queue_ e)) as [k Hk]. rewrite Hk in *.
  destruct (touch_facts now rto k (pending_ (retransmission_queue_ e))) as (_ & Ha & _).
  apply (f_equal length) in Ha. rewrite !length_map in Ha.
  constructor; simpl in *; auto.
  - by apply frames_touch.
  - unfold inflight_packets in *. simpl. by rewrite Ha.
Qed.

(** A datagram that carries an outstanding frame again. *)
Definition resent (q : RetransmissionQueue) (d : list Z) : Prop :=
  exists h payload, (rh_packet_number h, rudp_header_bytes h ++ payload) ∈ outstanding q
    /\ d = rudp_header_bytes (set_flags kFlagRetransmit h) ++ payload
    /\ decode_packet d = Some (mkDecodeResult true (set_flags kFlagRetransmit h) payload).

Lemma retransmit_due now rto q :
  Forall (fun en => exists h payload, queued_frame (packet en) h payload) (pending_ q) ->
  forall due, (forall p, p ∈ due -> p ∈ due_packets now rto (pending_ q)) ->
  exists frames, mapM (fun p => retransmit_frame (encoded_frame p)) due = Some frames
    /\ Forall (resent q) frames /\ length frames = length due.
Proof.
  intros Hall due. induction due as [|p due IH]; intros Hsub; [by exists []|].
  destruct IH as (frames & Hm & Hres & Hlen); [set_solver|]. cbn [mapM].
  specialize (Hsub p (list_elem_of_here _ _)). unfold due_packets in Hsub.
  apply list_elem_of_fmap in Hsub as (en & -> & [_ Hen]%list_elem_of_filter).
  rewrite Forall_forall in Hall. pose proof Hen as Hin.
  apply Hall in Hen as (h & payload & Hh & Hb & Hmagic & Hver & Hty & Hfl & Hnum & Hpl & Hne & Hfr).
  cbn [resend encoded_frame]. rewrite Hfr, retransmit_frame_eq by done. cbn [mbind option_bind].
  rewrite Hm. cbn [mbind option_bind]. eexists; split; [done|]. split; [|by simpl; rewrite Hlen].
  constructor; [|done]. exists h, payload. split_and!; [|done|].
  - unfold outstanding. apply list_elem_of_fmap. exists en. by rewrite Hnum, Hfr.
  - rewrite decode_packet_app; [simpl; by rewrite Hpl, Z.eqb_refl|].
    destruct Hh as (?&?&?&?&?&?&?&?&?&?&?&?). by split_and!.
Qed.

Lemma poll_spec e now :
  wf_engine e ->
  exists e' r, poll now e = Some (e', r) /\ wf_engine e' /\ config_ e' = config_ e
    /\ ack_window_ e' = ack_window_ e /\ inner_frames r = []
    /\ outstanding (retransmission_queue_ e') = outstanding (retransmission_queue_ e)
    /\ Forall (resent (retransmission_queue_ e)) (egress_datagrams r)
    /\ zlen (egress_datagrams r) = pr_retransmit_count r /\ pr_retransmit_count r <= 16.
Proof.
  intros He. unfold poll. cbv zeta.
  destruct (bool_decide (_ = kHelloSent) && _ && _).
  { eexists _, _; split; [done|]. split_and!; try done.
    exact (wf_set_fallback e default_ProcessResult "rudp_handshake_timeout" He). }
  destruct (bool_decide _ && _ && _).
  { eexists _, _; split; [done|]. split_and!; try done.
    exact (wf_set_fallback e default_ProcessResult "rudp_idle_timeout" He). }
  set (rto := rto_ms (rtt (state_ e))). set (q := retransmission_queue_ e).
  pose proof (wf_collect e now rto 16 He) as Hwf.
  destruct (queue_step_spec q (OpSweep now rto 16) (we_queue e He)) as (_ & Hout & _).
  { destruct (we_queue e He) as (_ & _ & ?). simpl. fold q in H. lia. }
  assert (Hdue : forall p, p ∈ (collect_timeouts now rto 16 q).2 -> p ∈ due_packets now rto (pending_ q)).
  { destruct (Z.eq_dec rto 0) as [->|]; [set_solver|].
    destruct (we_rtt e He) as (_ & _ & ?). rewrite collect_timeouts_eq by (subst rto; widths; lia).
    intros p Hp. cbn [snd] in Hp. by apply (subseteq_take (Z.to_nat 16)). }
  assert (Hlen : (length (collect_timeouts now rto 16 q).2 <= 16)%nat).
  { destruct (Z.eq_dec rto 0) as [->|]; [simpl; lia|].
    destruct (we_rtt e He) as (_ & _ & ?). rewrite collect_timeouts_eq by (subst rto; widths; lia).
    cbn [snd]. rewrite length_take. lia. }
  cbn [queue_step spec_step] in Hout. fold q in Hwf.
  destruct (collect_timeouts now rto 16 q) as [q' due]. cbn [fst snd] in *.
  case_bool_decide; [eexists _, _; split; [done|]; split_and!; try done; constructor|].
  destruct (retransmit_due now rto q (we_frames e He) due Hdue) as (frames & -> & Hres & Hfl).
  cbn [mbind option_bind]. eexists _, _; split; [done|].
  cbn [egress_datagrams inner_frames pr_retransmit_count]. split_and!; auto with engine; lia.
Qed.

(** ** Runs of the engine *)

Inductive engine_op :=
  | EDatagram (datagram : list Z) (now_unix_ms : Z)
  | EQueue (inner_frame : list Z) (channel now_unix_ms : Z)
  | EPoll (now_unix_ms : Z)
  | EHello (connection_id now_unix_ms : Z)
  | EClose (now_unix_ms : Z)
  | EReset.

(** One call; with it, the frames handed to the application, each with the packet
    number of the datagram that carried it. *)
Definition engine_step (e : RudpEngine) (op : engine_op) :
    option (RudpEngine * list (Z * list Z)) :=
  match op with
  | EDatagram d now =>
      '(e, r) ← process_datagram d now e;
      dr ← decode_packet d;
      Some (e, map (fun f => (rh_packet_number (dr_header dr), f)) (inner_frames r))
  | EQueue f ch now => '(e, _) ← queue_reliable_payload f ch now e; Some (e, [])
  | EPoll now => '(e, _) ← poll now e; Some (e, [])
  | EHello id now => '(e, _) ← make_hello id now e; Some (e, [])
  | EClose now => '(e, _) ← make_close now e; Some (e, [])
  | EReset => Some (rudp_engine_reset e, [])
  end.

Fixpoint engine_run (e : RudpEngine) (ops : list engine_op) :
    option (RudpEngine * list (Z * list Z)) :=
  match ops with
  | [] => Some (e, [])
  | op :: ops =>
      '(e, out) ← engine_step e op;
      '(e, rest) ← engine_run e ops;
      Some (e, out ++ rest)
  end.

(** Arguments of the machine types, and datagrams no older than 2^31 ms. *)
Definition op_ok (op : engine_op) : Prop :=
  match op with
  | EDatagram d now => bytes d /\ fits 64 now
      /\ forall r, decode_packet d = Some r -> dr_ok r = true -> clock_ok now (dr_header r)
  | EQueue f ch now => bytes f /\ fits 8 ch /\ fits 64 now
  | EPoll now => fits 64 now
  | EHello id now => fits 32 id /\ fits 64 now
  | EClose now => fits 64 now
  | EReset => True
  end.

Lemma wf_new c : wf_config c -> wf_engine (new_RudpEngine c).
Proof.
  intros Hc. pose proof Hc as (_&_&_&_&_&_&Hp&Hb0&Hb&_). constructor; try done.
  - exists ∅. apply represents_default.
  - apply Hp.
  - simpl. unfold inflight_bytes, kRudpHeaderBytes. simpl. lia.
Qed.

(** One step: defined, keeps the invariant, and delivers at most one frame, with a
    number the window had not accepted. *)
Lemma engine_step_spec e op R :
  wf_engine e -> op_ok op -> represents (ack_window_ e) R -> op <> EReset ->
  exists e' out R', engine_step e op = Some (e', out) /\ wf_engine e' /\ config_ e' = config_ e
    /\ represents (ack_window_ e') R' /\ R ⊆ R' /\ NoDup out.*1
    /\ forall n f, (n, f) ∈ out -> (n ∉ R) /\ n ∈ R' /\ f <> []
         /\ exists d now h, op = EDatagram d now /\ d = rudp_header_bytes h ++ f
              /\ wf_RudpHeader h /\ rh_packet_number h = n /\ rh_payload_length h = zlen f.
Proof.
  intros He Hop HR Hnr. destruct op as [d now|f ch now|now|id now|now|]; cbn [engine_step op_ok] in *; [..|done].
  - destruct Hop as (Hd & Hnow & Hclock).
    destruct (process_datagram_spec e d now He Hd Hnow Hclock) as (e' & r & -> & Hwf & Hc & Hcase).
    cbn [mbind option_bind].
    destruct Hcase as [[Hw Hf]|(h & payload & Hh & Hpl & -> & Hdel)].
    { destruct (decode_packet_inv d Hd) as (dr & -> & _). cbn [mbind option_bind]. rewrite Hf.
      exists e', [], R. rewrite Hw. split_and!; try done; [constructor|set_solver]. }
    rewrite decode_packet_app, Hpl, Z.eqb_refl by done. cbn [mbind option_bind dr_header].
    pose proof Hh as (_&_&_&_&Hn&_). pose proof (observe_spec _ R (rh_packet_number h) HR Hn) as Hobs.
    unfold delivery in Hdel. destruct (observe _ _) as [w o]. destruct Hdel as [Hw ->].
    destruct Hobs as (HR' & Hacc & _). rewrite <- Hw in HR'.
    destruct (accepted o); cbn [andb]; eexists e', _, _; split; [done| |done|].
    2: { split_and!; try done; [constructor|set_solver]. }
    split_and!; [done|done|done|set_solver| |].
    { case_bool_decide; simpl; [constructor|apply NoDup_singleton]. }
    intros n f Hin. case_bool_decide as Hnil; simpl in Hin; [set_solver|].
    apply list_elem_of_singleton in Hin. simplify_eq. apply proj1 in Hacc. destruct Hacc as [? _]; [done|].
    split_and!; [done|set_solver|done|]. by eexists _, now, h.
  - destruct Hop as (Hf & Hch & Hnow).
    destruct (queue_reliable_payload_spec e f ch now He Hf Hch Hnow) as (e' & o & -> & Hwf & Hc & Hw & _).
    exists e', [], R. rewrite Hw. split_and!; try done; [constructor|set_solver].
  - destruct (poll_spec e now He) as (e' & r & -> & Hwf & Hc & Hw & _).
    exists e', [], R. rewrite Hw. split_and!; try done; [constructor|set_solver].
  - destruct Hop. unfold make_hello. cbv zeta. rewrite make_packet_eq by (simpl; lia).
    eexists _, [], R. split; [done|]. split_and!; try done; auto with engine; [constructor|set_solver].
  - unfold make_close. cbv zeta. rewrite make_packet_eq by (simpl; lia).
    eexists _, [], R. split; [done|]. split_and!; try done; auto with engine; [constructor|set_solver].
Qed.

Lemma engine_run_spec ops e R :
  wf_engine e -> Forall op_ok ops -> represents (ack_window_ e) R -> EReset ∉ ops ->
  exists e' out, engine_run e ops = Some (e', out) /\ wf_engine e' /\ config_ e' = config_ e
    /\ NoDup out.*1
    /\ forall n f, (n, f) ∈ out -> (n ∉ R) /\ exists d now h, EDatagram d now ∈ ops
         /\ d = rudp_header_bytes h ++ f /\ wf_RudpHeader h /\ rh_packet_number h = n
         /\ rh_payload_length h = zlen f.
Proof.
  revert e R. induction ops as [|op ops IH]; intros e R He Hops HR Hnr.
  { exists e, []. split_and!; try done; [constructor|set_solver]. }
  apply Forall_cons in Hops as [Hop Hops].
  destruct (engine_step_spec e op R He Hop HR) as (e1 & out1 & R1 & Hs & Hwf1 & Hc1 & HR1 & Hsub & Hnd1 & Hout1);
    [set_solver|].
  destruct (IH e1 R1 Hwf1 Hops HR1) as (e2 & out2 & Hr & Hwf2 & Hc2 & Hnd2 & Hout2); [set_solver|].
  exists e2, (out1 ++ out2). cbn [engine_run]. rewrite Hs. cbn [mbind option_bind]. rewrite Hr.
  split_and!; [done|done|congruence| |].
  - rewrite fmap_app. apply NoDup_app. split_and!; [done| |done].
    intros n Hn1 Hn2. apply list_elem_of_fmap in Hn1 as ([n1 f1] & -> & Hn1).
    apply list_elem_of_fmap in Hn2 as ([n2 f2] & Heq & Hn2). simpl in Heq. subst n2.
    apply Hout1 in Hn1 as (_ & Hn1 & _). by apply Hout2 in Hn2 as [? _].
  - intros n f [Hin|Hin]%elem_of_app.
    + apply Hout1 in Hin as (? & _ & _ & d & now & h & -> & ?). split; [done|].
      exists d, now, h. split; [apply list_elem_of_here|done].
    + apply Hout2 in Hin as (? & d & now & h & ? & ?). split; [set_solver|].
      exists d, now, h. split; [by apply list_elem_of_further|done].
Qed.

Lemma process_datagram_data e h payload now :
  wf_engine e -> wf_RudpHeader h -> fits 64 now -> rh_magic h = kRudpMagic -> rh_version h = 1 ->
  rh_type h = kData -> rh_payload_length h = zlen payload ->
  rh_connection_id h = st_connection_id (state_ e) ->
  exists e', process_datagram (rudp_header_bytes h ++ payload) now e
      = process_data e' (mkProcessResult true true false false EmptyString [] [] 0) h payload now
    /\ wf_engine e' /\ config_ e' = config_ e /\ ack_window_ e' = ack_window_ e
    /\ retransmission_queue_ e' = mark_acked (rh_ack_largest h) (rh_ack_mask h) (retransmission_queue_ e)
    /\ lifecycle (state_ e') = lifecycle (state_ e)
    /\ last_ack_emit_unix_ms (state_ e') = last_ack_emit_unix_ms (state_ e)
    /\ st_connection_id (state_ e') = st_connection_id (state_ e).
Proof.
  intros He Hh Hnow Hmagic Hver Hty Hlen Hid. unfold process_datagram. cbv zeta.
  rewrite looks_like_rudp_app, Hmagic by done. cbn [mbind option_bind]. rewrite Z.eqb_refl.
  rewrite decode_packet_app, Hlen, Z.eqb_refl by done. cbn [mbind option_bind negb dr_ok dr_header dr_payload].
  rewrite Hver, Hty. cbn [orb]. change (1 =? 1) with true. cbn [negb orb].
  cbn [state_ with_state set_last_recv st_connection_id]. rewrite Hid, Z.eqb_refl, !andb_false_r.
  change (kData =? kHello) with false. change (kData =? kHelloAck) with false.
  change (kData =? kClose) with false. change (kData =? kPing) with false. cbv iota.
  eexists. split; [done|]. destruct (Z.eqb_spec (st_connection_id (state_ e)) 0); split_and!; auto.
  - apply wf_metric, wf_mark_acked, (wf_set_connection_id (with_state e _)); [|apply He].
    by apply wf_set_last_recv.
  - apply wf_metric, wf_mark_acked. by apply wf_set_last_recv.
Qed.

(** ** Theorems *)

Lemma wf_reset e : wf_engine e -> wf_engine (rudp_engine_reset e).
Proof. intros He. destruct (wf_new (config_ e) (we_config e He)). by constructor. Qed.

Lemma engine_run_wf ops e :
  wf_engine e -> Forall op_ok ops ->
  exists e' out, engine_run e ops = Some (e', out) /\ wf_engine e' /\ config_ e' = config_ e.
Proof.
  revert e. induction ops as [|op ops IH]; intros e He Hops; [by exists e, []|].
  apply Forall_cons in Hops as [Hop Hops].
  assert (Hstep : exists e1 out, engine_step e op = Some (e1, out) /\ wf_engine e1 /\ config_ e1 = config_ e).
  { destruct (we_window e He) as [R HR].
    destruct op; try (destruct (engine_step_spec e _ R He Hop HR)
      as (e1 & out & _ & ? & ? & ? & _); [done|by exists e1, out]).
    exists (rudp_engine_reset e), []. split_and!; [done|by apply wf_reset|done]. }
  destruct Hstep as (e1 & out & Hs & Hwf & Hc). destruct (IH e1 Hwf Hops) as (e2 & out2 & Hr & ? & ?).
  exists e2, (out ++ out2). cbn [engine_run]. rewrite Hs. cbn [mbind option_bind]. rewrite Hr.
  split_and!; [done|done|congruence].
Qed.

(** C18. The engine has no undefined behaviour and keeps what is in flight bounded.  From a new engine
    with a sound configuration, every sequence of calls with arguments of their
    types (any bytes as datagrams, any order, resets included) in which no datagram
    carries a timestamp 2^31 ms or more in the past runs to completion; at every
    point at most [max_inflight_packets] packets are in flight, their bytes exceed
    [max_inflight_bytes] by no more than one RUDP header, the byte count is exact,
    and the acknowledgement the peer state publishes is the one of the window. *)
Theorem rudp_engine_safe c ops :
  wf_config c -> Forall op_ok ops ->
  exists e out, engine_run (new_RudpEngine c) ops = Some (e, out)
    /\ inflight_packets (retransmission_queue_ e) <= max_inflight_packets c
    /\ inflight_bytes (retransmission_queue_ e) <= max_inflight_bytes c + Z.of_nat kRudpHeaderBytes
    /\ inflight_bytes (retransmission_queue_ e)
       = foldr (fun nf n => zlen nf.2 + n) 0 (outstanding (retransmission_queue_ e))
    /\ st_ack_largest (state_ e) = largest_ (ack_window_ e)
    /\ st_ack_mask (state_ e) = mask_ (ack_window_ e).
Proof.
  intros Hc Hops. destruct (engine_run_wf ops _ (wf_new c Hc) Hops) as (e & out & Hr & Hwf & Hcfg).
  exists e, out. destruct Hwf. cbn [new_RudpEngine config_] in Hcfg. rewrite Hcfg in *.
  rewrite <- total_bytes_outstanding. destruct we_queue0 as (_ & ? & _). by split_and!; try apply we_acks0.
Qed.

Lemma default_config_wf : wf_config default_RudpConfig.
Proof. unfold wf_config. by vm_compute. Qed.

Lemma rudp_engine_safe_witness :
  exists e out, engine_run (new_RudpEngine default_RudpConfig)
    [EHello 7 100; EDatagram [82; 85; 1; 3] 200; EPoll 5000; EClose 6000; EReset] = Some (e, out)
    /\ inflight_packets (retransmission_queue_ e) <= 256.
Proof.
  destruct (rudp_engine_safe default_RudpConfig
    [EHello 7 100; EDatagram [82; 85; 1; 3] 200; EPoll 5000; EClose 6000; EReset])
    as (e & out & Hr & Hp & _).
  - apply default_config_wf.
  - repeat constructor; try (widths; lia).
    intros r Hr Hok. vm_compute in Hr. by simplify_eq.
  - exists e, out. split; [exact Hr|exact Hp].
Defined.

(** C3. Each packet number is delivered at most once.  In every run of an engine without a reset, in
    which no datagram carries a timestamp 2^31 ms or more before the clock it is
    processed at, the frames handed to the application carry pairwise different
    packet numbers, whatever the network loses, duplicates, reorders or forges
    otherwise, and each is the payload of a datagram that was received.  The
    condition on timestamps is needed: beyond it the code has undefined behaviour
    (lemma [rtt_update_overflow_reachable]). *)
Theorem rudp_exactly_once c ops :
  wf_config c -> Forall op_ok ops -> EReset ∉ ops ->
  exists e out, engine_run (new_RudpEngine c) ops = Some (e, out) /\ NoDup out.*1
    /\ forall n f, (n, f) ∈ out -> exists d now h, EDatagram d now ∈ ops
         /\ decode_packet d = Some (mkDecodeResult true h f) /\ rh_packet_number h = n.
Proof.
  intros Hc Hops Hnr.
  destruct (engine_run_spec ops (new_RudpEngine c) ∅ (wf_new c Hc) Hops represents_default Hnr)
    as (e & out & Hr & _ & _ & Hnd & Hout).
  exists e, out. split_and!; [done..|]. intros n f Hin.
  apply Hout in Hin as (_ & d & now & h & Hin & -> & Hh & Hn & Hl). exists (rudp_header_bytes h ++ f), now, h.
  split_and!; [done| |done]. rewrite decode_packet_app by done. by rewrite Hl, Z.eqb_refl.
Qed.

Lemma op_ok_datagram h payload now :
  wf_RudpHeader h -> bytes payload -> fits 64 now -> clock_ok now h ->
  op_ok (EDatagram (rudp_header_bytes h ++ payload) now).
Proof.
  intros Hh Hp Hnow Hclock. split_and!; [|done|].
  - apply bytes_app. split; [by apply bytes_rudp_header_bytes|done].
  - intros r. rewrite decode_packet_app by done. intros Hr Hok. case_match; by simplify_eq.
Qed.

(** A peer's HELLO, then one DATA packet twice. *)
Definition hello_datagram : list Z := rudp_header_bytes
  (mkRudpHeader kRudpMagic 1 kHello 7 0 0 0 0 0 0 100 0) ++ [].
Definition data_datagram (n timestamp : Z) : list Z := rudp_header_bytes
  (mkRudpHeader kRudpMagic 1 kData 7 n 0 0 0 0 0 timestamp 2) ++ [4; 2].

Lemma rudp_exactly_once_witness :
  exists e out, engine_run (new_RudpEngine default_RudpConfig)
    [EDatagram hello_datagram 110; EDatagram (data_datagram 1 120) 130; EDatagram (data_datagram 1 120) 140]
    = Some (e, out) /\ NoDup out.*1 /\ length out = 1%nat.
Proof.
  destruct (rudp_exactly_once default_RudpConfig [EDatagram hello_datagram 110;
    EDatagram (data_datagram 1 120) 130; EDatagram (data_datagram 1 120) 140])
    as (e & out & Hr & Hnd & _).
  - apply default_config_wf.
  - do 3 (apply Forall_cons_2; [apply op_ok_datagram; repeat apply Forall_cons_2; try constructor; by vm_compute|]). constructor.
  - set_solver.
  - exists e, out. split_and!; [exact Hr|exact Hnd|]. vm_compute in Hr. injection Hr as <- <-. done.
Defined.
