(* ===== verification/RudpLink.v ===== *)
(** Two reliable UDP engines talking to each other: one payload from
    [queue_reliable_payload] at the sender through [process_datagram] at the
    receiver and its acknowledgement back; and the behaviours of
    [core/net/rudp/rudp_engine.cpp] that a caller has to know about. *)

From S2P Require Import Prelude Wire RudpPacket AckWindow RetransmissionQueue RudpEngine RudpEngineProps.

(** ** Lemmas *)

Lemma observe_largest n w R :
  represents w R -> fits 32 n -> accepted (observe n w).2 = true ->
  is_acked_by_mask n (largest_ (observe n w).1) (mask_ (observe n w).1) = true.
Proof.
  intros HR Hn Hacc. pose proof (observe_spec w R n HR Hn) as Hobs.
  destruct (observe n w) as [w' o]. cbn [fst snd] in *. rewrite Hacc in Hobs.
  destruct Hobs as ((HR' & Hw) & _). unfold is_acked_by_mask.
  destruct (initialized_ w'); [|set_solver]. destruct Hw as (Hin & Hmax & _ & Hbits).
  assert (n <= largest_ w') by (apply Hmax; set_solver).
  destruct (Z.ltb_spec (largest_ w') n); [lia|]. destruct (Z.eqb_spec n (largest_ w')); [done|].
  pose proof (HR' _ Hin). rewrite (wrap_id 32) by (widths; lia).
  destruct (Z.leb_spec 64 (largest_ w' - n)); [done|].
  rewrite (wrap_id 64); [|rewrite Z.shiftl_1_l; split; [apply Z.pow_nonneg; lia|apply Z.pow_lt_mono_r; lia]].
  rewrite land_pow2, negb_involutive, Hbits by lia. apply bool_decide_eq_true.
  replace (largest_ w' - (largest_ w' - n)) with n by lia. set_solver.
Qed.

Lemma ack_header_wf e w R ch now :
  wf_engine e -> represents w R -> fits 8 ch -> wf_RudpHeader (ack_header e w ch now).
Proof.
  intros He HR Hch. apply represents_fits in HR as [? ?]. unfold wf_RudpHeader, ack_header. simpl.
  split_and!; try done; try apply wrap_fits; try lia; try apply (we_connection_id e He); by vm_compute.
Qed.

(** An ACK-only packet never provokes another acknowledgement. *)
Lemma acks_back_ack_only e h now : rh_flags h = kFlagAckOnly -> acks_back e h now = [].
Proof.
  intros Hf. unfold acks_back. rewrite Hf. change (Z.land kFlagAckOnly kFlagAckOnly =? 0) with false.
  destruct (observe _ _) as [w o]. by rewrite andb_false_l, andb_false_r.
Qed.

(** DATA with a new number on an established peer is delivered and acknowledged. *)
Lemma receive_fresh_data r h f now :
  wf_engine r -> wf_RudpHeader h -> fits 64 now -> clock_ok now h -> f <> [] ->
  rh_magic h = kRudpMagic -> rh_version h = 1 -> rh_type h = kData -> rh_flags h = 0 ->
  rh_payload_length h = zlen f -> rh_connection_id h = st_connection_id (state_ r) ->
  lifecycle (state_ r) = kEstablished ->
  u64 (last_ack_emit_unix_ms (state_ r) + cfg_ack_delay_ms (config_ r)) <= now ->
  accepted (observe (rh_packet_number h) (ack_window_ r)).2 = true ->
  let ha := ack_header r (observe (rh_packet_number h) (ack_window_ r)).1 (rh_channel h) now in
  exists r1 pr, process_datagram (rudp_header_bytes h ++ f) now r = Some (r1, pr)
    /\ inner_frames pr = [f] /\ egress_datagrams pr = [rudp_header_bytes ha] /\ wf_RudpHeader ha.
Proof.
  intros Hr Hh Hnow Hclock Hne Hmagic Hver Hty Hfl Hlen Hid Hest Hdue Hacc. cbv zeta.
  destruct (process_datagram_data r h f now Hr Hh Hnow Hmagic Hver Hty Hlen Hid)
    as (r0 & -> & Hr0 & Hcr0 & Hwr0 & _ & Hlr0 & Her0 & Hir0).
  destruct (process_data_spec r0 (mkProcessResult true true false false EmptyString [] [] 0) h f now Hr0 Hh Hnow Hclock)
    as (r1 & pr & Hpd & Hr1 & _ & _ & Hcase).
  rewrite decide_True in Hcase by congruence. destruct Hcase as (frames & Hdel & Hfr & Heg).
  exists r1, pr. destruct (we_window r Hr) as [R HR].
  pose proof (observe_spec _ R (rh_packet_number h) HR ltac:(apply Hh)) as Hobs.
  unfold delivery, acks_back in *. rewrite Hwr0, Hcr0, Her0 in *.
  destruct (observe _ (ack_window_ r)) as [w ob]. cbn [fst snd] in *.
  destruct Hobs as (HRw & _). rewrite Hacc in *. destruct Hdel as [_ ->].
  rewrite bool_decide_eq_false_2 in Hfr by done.
  rewrite (proj2 (Z.leb_le _ _) Hdue), Hfl in Heg.
  assert (Hha : ack_header r0 w (rh_channel h) now = ack_header r w (rh_channel h) now)
    by (unfold ack_header; by rewrite Hir0, Hcr0).
  split_and!; [done|done|by rewrite Heg, <- Hha|eapply ack_header_wf; [done..|apply Hh]].
Qed.

(** An ACK-only packet removes what it covers and provokes nothing. *)
Lemma receive_ack e h now :
  wf_engine e -> wf_RudpHeader h -> fits 64 now -> clock_ok now h ->
  rh_magic h = kRudpMagic -> rh_version h = 1 -> rh_type h = kData -> rh_flags h = kFlagAckOnly ->
  rh_payload_length h = 0 -> rh_connection_id h = st_connection_id (state_ e) ->
  exists e' pr, process_datagram (rudp_header_bytes h) now e = Some (e', pr)
    /\ inner_frames pr = [] /\ egress_datagrams pr = []
    /\ forall n frame, is_acked_by_mask n (rh_ack_largest h) (rh_ack_mask h) = true ->
         (n, frame) ∉ outstanding (retransmission_queue_ e').
Proof.
  intros He Hh Hnow Hclock Hmagic Hver Hty Hfl Hlen Hid.
  destruct (process_datagram_data e h [] now He Hh Hnow Hmagic Hver Hty Hlen Hid)
    as (e0 & Hp & He0 & _ & _ & Hq0 & _ & _ & _). rewrite app_nil_r in Hp. rewrite Hp.
  destruct (process_data_spec e0 (mkProcessResult true true false false EmptyString [] [] 0) h [] now He0 Hh Hnow Hclock)
    as (e' & pr & Hpd & _ & _ & Hq & Hcase). exists e', pr.
  assert (Hnone : inner_frames pr = [] /\ egress_datagrams pr = []).
  { case_decide; [|by destruct Hcase as (_ & -> & ->)]. destruct Hcase as (frames & Hd & -> & ->).
    rewrite acks_back_ack_only by done. unfold delivery in Hd. destruct (observe _ _) as [? ?].
    destruct Hd as [_ ->]. by rewrite andb_false_r. }
  split_and!; [done|by destruct Hnone..|]. intros n frame Hacked.
  rewrite Hq, Hq0, mark_acked_eq by apply (we_queue e He). unfold outstanding. cbn [pending_].
  intros (en & Heq & [Hna _]%list_elem_of_filter)%list_elem_of_fmap. simplify_eq. congruence.
Qed.

Section link.
Context (s r : RudpEngine) (f : list Z) (ch t1 t2 t3 : Z).

(** A sender and a receiver with an established connection, room in the sender's
    window, and a packet number the receiver has not seen. *)
Record link_ready : Prop := {
  lr_sender : wf_engine s;
  lr_receiver : wf_engine r;
  lr_frame : bytes f /\ f <> [] /\ zlen f <= mtu_payload_bytes (config_ s);
  lr_channel : fits 8 ch;
  lr_times : fits 64 t1 /\ fits 64 t2 /\ fits 64 t3;
  lr_established : lifecycle (state_ s) = kEstablished /\ lifecycle (state_ r) = kEstablished;
  lr_connection : st_connection_id (state_ s) = st_connection_id (state_ r);
  lr_room : inflight_packets (retransmission_queue_ s) < max_inflight_packets (config_ s)
    /\ inflight_bytes (retransmission_queue_ s) + zlen f <= max_inflight_bytes (config_ s);
  lr_fresh : accepted (observe (next_packet_number (state_ s)) (ack_window_ r)).2 = true;
  lr_ack_due : u64 (last_ack_emit_unix_ms (state_ r) + cfg_ack_delay_ms (config_ r)) <= t2;
  lr_clocks : now32 t2 - now32 t1 < 2 ^ 31 /\ now32 t3 - now32 t2 < 2 ^ 31;
}.

(** C2. One payload is delivered and acknowledged on a link that is ready.  Let both
    engines be established on one connection, the payload fit the MTU, the sender
    have room for it in flight, the receiver's window not yet have seen (or left
    behind) the packet number, the receiver's acknowledgement delay have elapsed, and
    each datagram be processed less than 2^31 ms after it was made.  Then
    [queue_reliable_payload] at the sender produces a datagram; [process_datagram] at
    the receiver hands exactly that payload to the application and answers with one
    acknowledgement; and when the sender processes it, the packet leaves its
    retransmission queue and nothing is sent in return. *)
Theorem rudp_delivers_and_acks :
  link_ready ->
  exists s1 d r1 pr a s2 ps,
    queue_reliable_payload f ch t1 s = Some (s1, Some d)
    /\ process_datagram d t2 r = Some (r1, pr)
    /\ inner_frames pr = [f] /\ egress_datagrams pr = [a]
    /\ process_datagram a t3 s1 = Some (s2, ps)
    /\ inner_frames ps = [] /\ egress_datagrams ps = []
    /\ (next_packet_number (state_ s), d) ∈ outstanding (retransmission_queue_ s1)
    /\ forall frame, (next_packet_number (state_ s), frame) ∉ outstanding (retransmission_queue_ s2).
Proof.
  intros [Hs Hr (Hfb & Hfne & Hmtu) Hch (Ht1 & Ht2 & Ht3) (Hest & Hestr) Hconn (Hp & Hb) Hfresh Hdue (Hc1 & Hc2)].
  set (n := next_packet_number (state_ s)) in *. pose proof (we_next s Hs) as Hn. fold n in Hn.
  pose proof (queue_reliable_payload_spec s f ch t1 Hs Hfb Hch Ht1) as Hq. cbv zeta in Hq. fold n in Hq.
  destruct Hq as (s1 & o & Hq & Hs1 & Hcs1 & Hws1 & Hcase). rewrite decide_True in Hcase by done.
  destruct Hcase as (-> & Hout & Hst). set (h := packet_header s kData 0 ch n t1 (zlen f)) in *.
  destruct (we_config s Hs) as (_&_&_&_&_&_&_&_&_&Hm).
  assert (Hh : wf_RudpHeader h) by (apply packet_header_wf; try done; widths; lia).
  destruct (receive_fresh_data r h f t2 Hr Hh Ht2 Hc1) as (r1 & pr & Hpr & Hin & Heg & Hha); [done..|].
  destruct (we_window r Hr) as [R HR]. pose proof (observe_largest n _ R HR Hn Hfresh) as Hacked.
  change (rh_packet_number h) with n in *. set (ha := ack_header r _ _ t2) in *.
  destruct (receive_ack s1 ha t3 Hs1 Hha Ht3 Hc2) as (s2 & ps & Hps & Hni & Hne & Hgone);
    [done..|unfold ha; simpl; rewrite Hst; simpl; congruence|].
  exists s1, (rudp_header_bytes h ++ f), r1, pr, (rudp_header_bytes ha), s2, ps.
  split_and!; try done; [rewrite Hout; set_solver|]. intros frame. by apply Hgone.
Qed.

End link.

(** The engine after a run from the default configuration. *)
Definition engine_after (ops : list engine_op) : RudpEngine :=
  match engine_run (new_RudpEngine default_RudpConfig) ops with
  | Some (e, _) => e
  | None => new_RudpEngine default_RudpConfig
  end.

Lemma engine_after_wf ops : Forall op_ok ops -> wf_engine (engine_after ops).
Proof.
  intros Hops. unfold engine_after.
  by destruct (engine_run_wf ops _ (wf_new _ default_config_wf) Hops) as (e & out & -> & Hwf & _).
Qed.

Definition hello_ack_datagram : list Z := rudp_header_bytes
  (mkRudpHeader kRudpMagic 1 kHelloAck 7 0 0 0 0 0 0 110 0) ++ [].

Lemma rudp_delivers_and_acks_witness :
  exists s1 d r1 pr a s2 ps,
    let s := engine_after [EHello 7 100; EDatagram hello_ack_datagram 120] in
    let r := engine_after [EDatagram hello_datagram 110] in
    queue_reliable_payload [1; 2; 3] 0 200 s = Some (s1, Some d)
    /\ process_datagram d 230 r = Some (r1, pr) /\ inner_frames pr = [[1; 2; 3]]
    /\ process_datagram a 250 s1 = Some (s2, ps)
    /\ inflight_packets (retransmission_queue_ s2) = 0.
Proof.
  set (s := engine_after [EHello 7 100; EDatagram hello_ack_datagram 120]).
  set (r := engine_after [EDatagram hello_datagram 110]).
  assert (Hready : link_ready s r [1; 2; 3] 0 200 230 250).
  { constructor; [apply engine_after_wf|apply engine_after_wf|..].
    - apply Forall_cons_2; [by vm_compute|].
      apply Forall_cons_2; [apply op_ok_datagram; try constructor; by vm_compute|constructor].
    - apply Forall_cons_2; [apply op_ok_datagram; try constructor; by vm_compute|constructor].
    - split; [repeat constructor; by vm_compute|by vm_compute].
    - by vm_compute.
    - by vm_compute.
    - by vm_compute.
    - by vm_compute.
    - by vm_compute.
    - by vm_compute.
    - by vm_compute.
    - by vm_compute. }
  destruct (rudp_delivers_and_acks s r [1; 2; 3] 0 200 230 250 Hready)
    as (s1 & d & r1 & pr & a & s2 & ps & Hq & Hp & Hin & Heg & Hps & _).
  exists s1, d, r1, pr, a, s2, ps. split_and!; [exact Hq|exact Hp|exact Hin|exact Hps|].
  vm_compute in Hq. injection Hq as <- <-. vm_compute in Hp. injection Hp as <- <-.
  simpl in Heg. injection Heg as <-. vm_compute in Hps. injection Hps as <- <-. reflexivity.
Defined.

(** ** Behaviours to know about *)

(** RTT estimation overflows [int] on a peer-chosen timestamp.  With the default
    configuration, a HELLO and one DATA packet whose timestamp lies 3*10^9 ms back
    are processed; the next DATA packet, 10^9 ms old, makes [RttEstimator::update]
    subtract two values of [int] whose difference is not one: no defined result. *)
Theorem rtt_update_overflow_reachable :
  let early := [EDatagram hello_datagram 3000000100; EDatagram (data_datagram 1 100) 3000000100] in
  (exists e out, engine_run (new_RudpEngine default_RudpConfig) early = Some (e, out))
  /\ engine_run (new_RudpEngine default_RudpConfig)
       (early ++ [EDatagram (data_datagram 2 2000000100) 3000000100]) = None.
Proof.
  split; [eexists _, _|]; vm_compute; reflexivity.
Qed.

(** The byte limit is not a limit.  The check of [queue_reliable_payload] adds the
    payload, the queue adds payload and header: an engine limited to 10 bytes in
    flight has 37 in flight after one send of 3. *)
Theorem inflight_limit_overshoot :
  let c := mkRudpConfig 1500 10000 10 50 2000 256 10 1200 in
  exists e out, engine_run (new_RudpEngine c) [EDatagram hello_datagram 110; EQueue [1; 2; 3] 0 120] = Some (e, out)
    /\ max_inflight_bytes (config_ e) = 10 /\ inflight_bytes (retransmission_queue_ e) = 37.
Proof. eexists _, _. split; [vm_compute; reflexivity|done]. Qed.

(** A packet type that does not exist is DATA.  A datagram of type 200 on an
    established connection has its payload delivered like one of type [kData]. *)
Theorem unknown_type_is_data :
  let d := rudp_header_bytes (mkRudpHeader kRudpMagic 1 200 7 1 0 0 0 0 0 0 2) ++ [4; 2] in
  exists e r, process_datagram d 130 (engine_after [EDatagram hello_datagram 110]) = Some (e, r)
    /\ inner_frames r = [[4; 2]] /\ fallback_required r = false.
Proof. eexists _, _. split; [vm_compute; reflexivity|done]. Qed.

(** [set_fallback] reports the reason to its caller and leaves the peer state with the
    flag set and no reason. *)
Theorem fallback_reason_not_kept e r reason :
  let '(e', r') := set_fallback e r reason in
  fallback_required r' = true /\ fallback_reason r' = reason
  /\ st_fallback_required (state_ e') = true /\ st_fallback_reason (state_ e') = EmptyString
  /\ lifecycle (state_ e') = kDraining.
Proof. done. Qed.
