(* ===== verification/Resilience.v ===== *)
(** Overload protection of the network layer: [core/net/resilience_controls.hpp]
    (token bucket, retry budget, circuit breaker) and [core/net/queue_budget.hpp].

    Each object is used under its own mutex, so an operation is a function of its
    state.  [double] is IEEE binary64, computed by the Standard Library's
    specification of floating point (53 bits of precision, exponents up to 1024). *)

From S2P Require Import Prelude.
From Stdlib Require Import SpecFloat Sorted.

(** ** Queue budget *)

Definition exceeds_queue_budget (queue_max_bytes queued_bytes incoming_bytes : Z) : bool :=
  if queue_max_bytes =? 0 then false
  else if queue_max_bytes <? incoming_bytes then true
  else u64 (queue_max_bytes - incoming_bytes) <? queued_bytes.

(** ** Token bucket *)

Abbreviation double := spec_float.
Definition fadd : double -> double -> double := SFadd 53 1024.
Definition fsub : double -> double -> double := SFsub 53 1024.
Definition fmul : double -> double -> double := SFmul 53 1024.
Definition fdiv : double -> double -> double := SFdiv 53 1024.
Definition f_of_Z (z : Z) : double := binary_normalize 53 1024 z 0 false.
(** [std::max(a, b)] is [b] when [a < b] and [a] otherwise; [std::min] likewise. *)
Definition fmax (a b : double) : double := if SFltb a b then b else a.
Definition fmin (a b : double) : double := if SFltb b a then b else a.

Record TokenBucket := mkTokenBucket {
  refill_per_sec_ : double;
  burst_tokens_ : double;
  tokens_ : double;
  last_refill_ms_ : Z;
}.

Definition default_TokenBucket : TokenBucket :=
  mkTokenBucket (f_of_Z 0) (f_of_Z 0) (f_of_Z 0) 0.

Definition token_configure (tokens_per_sec burst_tokens : double) (b : TokenBucket) : TokenBucket :=
  let burst := fmax (f_of_Z 0) burst_tokens in
  mkTokenBucket (fmax (f_of_Z 0) tokens_per_sec) burst burst 0.

Definition refill_locked (now_ms : Z) (b : TokenBucket) : TokenBucket :=
  if last_refill_ms_ b =? 0 then
    mkTokenBucket (refill_per_sec_ b) (burst_tokens_ b) (tokens_ b) now_ms
  else if now_ms <=? last_refill_ms_ b then b
  else
    let elapsed_ms := u64 (now_ms - last_refill_ms_ b) in
    let refill := fmul (refill_per_sec_ b) (fdiv (f_of_Z elapsed_ms) (f_of_Z 1000)) in
    mkTokenBucket (refill_per_sec_ b) (burst_tokens_ b)
      (fmin (burst_tokens_ b) (fadd (tokens_ b) refill)) now_ms.

Definition token_consume (now_ms : Z) (amount : double) (b : TokenBucket) : TokenBucket * bool :=
  let b := refill_locked now_ms b in
  let required := fmax (f_of_Z 0) amount in
  if SFltb (tokens_ b) required then (b, false)
  else
    (mkTokenBucket (refill_per_sec_ b) (burst_tokens_ b) (fsub (tokens_ b) required)
       (last_refill_ms_ b), true).

Definition token_available (now_ms : Z) (b : TokenBucket) : TokenBucket * double :=
  let b := refill_locked now_ms b in (b, tokens_ b).

(** ** Retry budget *)

Record RetryBudget := mkRetryBudget {
  budget_per_window_ : Z;
  window_ms_ : Z;
  window_start_ms_ : Z;
  used_in_window_ : Z;
}.

Definition default_RetryBudget : RetryBudget := mkRetryBudget 0 60000 0 0.

Definition retry_configure (budget_per_window window_ms : Z) (b : RetryBudget) : RetryBudget :=
  mkRetryBudget budget_per_window (Z.max 1 window_ms) 0 0.

Definition roll_window_locked (now_ms : Z) (b : RetryBudget) : RetryBudget :=
  if window_start_ms_ b =? 0 then
    mkRetryBudget (budget_per_window_ b) (window_ms_ b) now_ms (used_in_window_ b)
  else if now_ms <? window_start_ms_ b then
    mkRetryBudget (budget_per_window_ b) (window_ms_ b) now_ms 0
  else
    let elapsed := u64 (now_ms - window_start_ms_ b) in
    if window_ms_ b <=? elapsed then
      mkRetryBudget (budget_per_window_ b) (window_ms_ b) now_ms 0
    else b.

Definition retry_consume (now_ms : Z) (b : RetryBudget) : RetryBudget * bool :=
  let b := roll_window_locked now_ms b in
  if budget_per_window_ b <=? used_in_window_ b then (b, false)
  else
    (mkRetryBudget (budget_per_window_ b) (window_ms_ b) (window_start_ms_ b)
       (u32 (used_in_window_ b + 1)), true).

Definition retry_remaining (now_ms : Z) (b : RetryBudget) : RetryBudget * Z :=
  let b := roll_window_locked now_ms b in
  if budget_per_window_ b <=? used_in_window_ b then (b, 0)
  else (b, u32 (budget_per_window_ b - used_in_window_ b)).

(** ** Circuit breaker *)

Record CircuitBreaker := mkCircuitBreaker {
  enabled_ : bool;
  failure_threshold_ : Z;
  open_window_ms_ : Z;
  consecutive_failures_ : Z;
  open_until_ms_ : Z;
}.

Definition default_CircuitBreaker : CircuitBreaker := mkCircuitBreaker true 5 10000 0 0.

Definition breaker_configure (enabled : bool) (failure_threshold open_window_ms : Z)
    (b : CircuitBreaker) : CircuitBreaker :=
  mkCircuitBreaker enabled (Z.max 1 failure_threshold) (Z.max 1 open_window_ms) 0 0.

(** [open_until_ms_ = until; consecutive_failures_ = failures]. *)
Definition breaker_set (until failures : Z) (b : CircuitBreaker) : CircuitBreaker :=
  mkCircuitBreaker (enabled_ b) (failure_threshold_ b) (open_window_ms_ b) failures until.

Definition breaker_allow (now_ms : Z) (b : CircuitBreaker) : CircuitBreaker * bool :=
  if negb (enabled_ b) then (b, true)
  else if open_until_ms_ b =? 0 then (b, true)
  else if open_until_ms_ b <=? now_ms then (breaker_set 0 0 b, true)
  else (b, false).

Definition record_failure (now_ms : Z) (b : CircuitBreaker) : CircuitBreaker * bool :=
  if negb (enabled_ b) then (b, false)
  else if negb (open_until_ms_ b =? 0) && (now_ms <? open_until_ms_ b) then (b, false)
  else
    let b := if negb (open_until_ms_ b =? 0) && (open_until_ms_ b <=? now_ms)
             then breaker_set 0 0 b else b in
    let b := breaker_set (open_until_ms_ b) (u32 (consecutive_failures_ b + 1)) b in
    if failure_threshold_ b <=? consecutive_failures_ b then
      (breaker_set (u64 (now_ms + open_window_ms_ b)) 0 b, true)
    else (b, false).

Definition record_success (b : CircuitBreaker) : CircuitBreaker :=
  if negb (enabled_ b) then b else breaker_set 0 0 b.

Definition is_open (now_ms : Z) (b : CircuitBreaker) : CircuitBreaker * bool :=
  if negb (enabled_ b) then (b, false)
  else if open_until_ms_ b =? 0 then (b, false)
  else if open_until_ms_ b <=? now_ms then (breaker_set 0 0 b, false)
  else (b, true).

(** ** Lemmas *)

(** A window roll never leaves more used than before, and keeps the settings. *)
Lemma roll_window_cases now b :
  fits 64 now -> fits 64 (window_start_ms_ b) ->
  let b' := roll_window_locked now b in
  (window_start_ms_ b = 0 /\ b' = mkRetryBudget (budget_per_window_ b) (window_ms_ b) now (used_in_window_ b))
  \/ (b' = mkRetryBudget (budget_per_window_ b) (window_ms_ b) now 0)
  \/ (b' = b /\ window_start_ms_ b <> 0 /\ window_start_ms_ b <= now < window_start_ms_ b + window_ms_ b).
Proof.
  intros Hn Hs. unfold roll_window_locked.
  destruct (Z.eqb_spec (window_start_ms_ b) 0); [auto|].
  destruct (Z.ltb_spec now (window_start_ms_ b)); [auto|]. rewrite wrap_id by (widths; lia).
  destruct (Z.leb_spec (window_ms_ b) (now - window_start_ms_ b)); [auto|].
  right; right. split_and!; done || lia.
Qed.

Lemma roll_window_idem now b :
  fits 64 now -> now <> 0 -> 1 <= window_ms_ b ->
  roll_window_locked now (roll_window_locked now b) = roll_window_locked now b.
Proof.
  intros Hn H0 Hw. assert (Hat : forall u, roll_window_locked now (mkRetryBudget (budget_per_window_ b) (window_ms_ b) now u)
    = mkRetryBudget (budget_per_window_ b) (window_ms_ b) now u).
  { intros u. unfold roll_window_locked. simpl. destruct (Z.eqb_spec now 0); [done|].
    rewrite Z.ltb_irrefl, Z.sub_diag. change (u64 0) with 0. by destruct (Z.leb_spec (window_ms_ b) 0); [lia|]. }
  unfold roll_window_locked at 2 3. repeat case_match; try apply Hat.
  unfold roll_window_locked. by repeat case_match; simplify_eq.
Qed.

Fixpoint retry_run (ts : list Z) (b : RetryBudget) : RetryBudget * list bool :=
  match ts with
  | [] => (b, [])
  | t :: ts =>
      let '(b, ok) := retry_consume t b in
      let '(b, oks) := retry_run ts b in (b, ok :: oks)
  end.

Definition granted (oks : list bool) : Z := zlen (filter (fun ok => ok = true) oks).

Lemma granted_cons ok oks : granted (ok :: oks) = (if ok then 1 else 0) + granted oks.
Proof. unfold granted. rewrite filter_cons. destruct ok; simpl; lia. Qed.

Definition wf_budget (b : RetryBudget) : Prop :=
  fits 32 (budget_per_window_ b) /\ 1 <= window_ms_ b /\ fits 64 (window_start_ms_ b)
  /\ 0 <= used_in_window_ b <= budget_per_window_ b.

(** A call that does not roll the window. *)
Lemma retry_consume_same t b :
  wf_budget b -> roll_window_locked t b = b ->
  let '(b', ok) := retry_consume t b in
  wf_budget b' /\ budget_per_window_ b' = budget_per_window_ b /\ window_ms_ b' = window_ms_ b
  /\ window_start_ms_ b' = window_start_ms_ b
  /\ used_in_window_ b' = used_in_window_ b + (if ok then 1 else 0).
Proof.
  intros (Hb & Hw & Hs & Hu) Hroll. unfold retry_consume. rewrite Hroll.
  destruct (Z.leb_spec (budget_per_window_ b) (used_in_window_ b)); simpl.
  - split_and!; unfold wf_budget; split_and?; done || lia.
  - rewrite wrap_id by (widths; lia). unfold wf_budget; simpl. split_and!; done || lia.
Qed.

Lemma retry_run_one_window ts b :
  wf_budget b -> window_start_ms_ b <> 0 ->
  Forall (fun t => fits 64 t /\ window_start_ms_ b <= t < window_start_ms_ b + window_ms_ b) ts ->
  granted (retry_run ts b).2 <= budget_per_window_ b - used_in_window_ b.
Proof.
  revert b. induction ts as [|t ts IH]; intros b Hwf Hs Hts; cbn [retry_run].
  { destruct Hwf as (?&?&?&?). unfold granted. simpl. lia. }
  apply Forall_cons in Hts as [[Ht Hr] Hts].
  assert (Hroll : roll_window_locked t b = b).
  { destruct Hwf as (?&?&Hf&?). destruct (roll_window_cases t b Ht Hf) as [[? _]|[He|[? _]]]; [lia| |done].
    unfold roll_window_locked in *. zbool; try done; rewrite wrap_id in * by (widths; lia); lia. }
  pose proof (retry_consume_same t b Hwf Hroll) as Hc.
  destruct (retry_consume t b) as [b' ok]. destruct Hc as (Hwf' & Hb & Hw & Hst & Hu).
  specialize (IH b' Hwf'). rewrite Hst, Hw in IH. specialize (IH Hs Hts).
  destruct (retry_run ts b') as [b'' oks]. cbn [snd] in *. rewrite granted_cons. lia.
Qed.

(** Within any span of one window length, at most one roll: what is left of the
    current window and one fresh budget. *)
Lemma retry_run_two_windows ts b T :
  wf_budget b -> 0 < T -> Sorted Z.le ts -> Forall (fun t => fits 64 t /\ T <= t < T + window_ms_ b) ts ->
  granted (retry_run ts b).2 <= (budget_per_window_ b - used_in_window_ b) + budget_per_window_ b.
Proof.
  intros Hwf HT Hsorted Hts. apply Sorted_StronglySorted in Hsorted; [|intros ??; apply Z.le_trans].
  revert b Hwf Hts. induction Hsorted as [|t ts _ IH Hle]; intros b Hwf Hts.
  { destruct Hwf as (?&?&?&?). unfold granted. simpl. lia. }
  pose proof Hts as [[Ht Hr] Hlater]%Forall_cons. pose proof Hwf as (Hb & Hw & Hs & Hu).
  assert (Hsame : retry_run (t :: ts) b = retry_run (t :: ts) (roll_window_locked t b)).
  { cbn [retry_run]. unfold retry_consume. by rewrite roll_window_idem by (done || lia). }
  assert (Hspan : Forall (fun t' => fits 64 t' /\ t <= t' < t + window_ms_ b) (t :: ts)).
  { apply Forall_forall. intros t' Hin. rewrite Forall_forall in Hle, Hts.
    specialize (Hts _ Hin) as [? ?]. apply elem_of_cons in Hin as [->|Hin]; [split; [done|lia]|].
    specialize (Hle _ Hin). split; [done|lia]. }
  destruct (roll_window_cases t b Ht Hs) as [[H0 He]|[He|[He _]]].
  - rewrite Hsame, He. etrans; [apply retry_run_one_window; simpl; [by unfold wf_budget|lia|done]|].
    simpl. widths; lia.
  - rewrite Hsame, He. etrans; [apply retry_run_one_window; simpl; [|lia|done]|simpl; lia].
    unfold wf_budget. simpl. widths. lia.
  - pose proof (retry_consume_same t b Hwf He) as Hc. cbn [retry_run].
    destruct (retry_consume t b) as [b' ok]. destruct Hc as (Hwf' & Hb' & Hw' & _ & Hu').
    specialize (IH b' Hwf'). rewrite Hw' in IH. specialize (IH Hlater).
    destruct (retry_run ts b') as [b'' oks]. cbn [snd] in *. rewrite granted_cons. lia.
Qed.

(** *** The breaker as a two-state machine *)

(** What a client sees: closed with a number of consecutive failures, or open until
    a time. *)
Inductive breaker_view := Closed (failures : Z) | Open (until : Z).

Definition view (b : CircuitBreaker) : breaker_view :=
  if open_until_ms_ b =? 0 then Closed (consecutive_failures_ b) else Open (open_until_ms_ b).

Definition wf_breaker (b : CircuitBreaker) : Prop :=
  enabled_ b = true /\ fits 32 (failure_threshold_ b) /\ 1 <= failure_threshold_ b
  /\ 1 <= open_window_ms_ b /\ 0 <= consecutive_failures_ b < failure_threshold_ b
  /\ 0 <= open_until_ms_ b /\ (open_until_ms_ b <> 0 -> consecutive_failures_ b = 0).

(** The view once the open period is over. *)
Definition expire (now : Z) (v : breaker_view) : breaker_view :=
  match v with Open until => if until <=? now then Closed 0 else v | _ => v end.

Inductive breaker_op := Allow (now : Z) | Failure (now : Z) | Success | IsOpen (now : Z).

Definition breaker_step (op : breaker_op) (b : CircuitBreaker) : CircuitBreaker * bool :=
  match op with
  | Allow now => breaker_allow now b
  | Failure now => record_failure now b
  | Success => (record_success b, false)
  | IsOpen now => is_open now b
  end.

(** The specification: an open breaker refuses, and closes by itself at its time; a
    closed one counts failures and opens for [window] at the [threshold]-th. *)
Definition breaker_spec (threshold window : Z) (op : breaker_op) (v : breaker_view) :
    breaker_view * bool :=
  match op with
  | Allow now => (expire now v, match expire now v with Open _ => false | _ => true end)
  | IsOpen now => (expire now v, match expire now v with Open _ => true | _ => false end)
  | Success => (Closed 0, false)
  | Failure now =>
      match expire now v with
      | Open until => (Open until, false)
      | Closed k => if threshold <=? k + 1 then (Open (now + window), true) else (Closed (k + 1), false)
      end
  end.

Definition op_time (op : breaker_op) : Z :=
  match op with Allow now | Failure now | IsOpen now => now | Success => 0 end.

Ltac facts := split_and?; try done; try lia; intros; try done; try lia.

Lemma breaker_step_refines op b :
  wf_breaker b -> 0 <= op_time op -> op_time op + open_window_ms_ b < 2 ^ 64 ->
  let '(b', r) := breaker_step op b in
  wf_breaker b' /\ failure_threshold_ b' = failure_threshold_ b /\ open_window_ms_ b' = open_window_ms_ b
  /\ (view b', r) = breaker_spec (failure_threshold_ b) (open_window_ms_ b) op (view b).
Proof.
  destruct b as [en th win k until]. unfold wf_breaker. simpl.
  intros (-> & Hth & Hth1 & Hwin & Hk & Hu & Hopen) Ht Hlt.
  destruct op as [now|now| |now]; simpl in *;
    unfold breaker_allow, record_failure, record_success, is_open, breaker_set, view; simpl.
  - destruct (Z.eqb_spec until 0) as [->|]; simpl; [facts|].
    destruct (Z.leb_spec until now); simpl; [facts|].
    destruct (Z.eqb_spec until 0); [done|]. facts.
  - destruct (Z.eqb_spec until 0) as [->|Hn]; simpl.
    + rewrite (wrap_id 32) by (widths; lia).
      destruct (Z.leb_spec th (k + 1)); simpl; [|facts].
      rewrite wrap_id by (widths; lia). destruct (Z.eqb_spec (now + win) 0); [lia|].
      facts.
    + rewrite (Hopen Hn) in *. destruct (Z.ltb_spec now until), (Z.leb_spec until now); try lia; simpl.
      * destruct (Z.eqb_spec until 0); [done|]. facts.
      * change (u32 (0 + 1)) with 1. change (0 + 1) with 1.
        destruct (Z.leb_spec th 1); simpl; [|facts]. rewrite wrap_id by (widths; lia). destruct (Z.eqb_spec (now + win) 0); [lia|].
        facts.
  - facts.
  - destruct (Z.eqb_spec until 0) as [->|]; simpl; [facts|].
    destruct (Z.leb_spec until now); simpl; [facts|].
    destruct (Z.eqb_spec until 0); [done|]. facts.
Qed.

Fixpoint breaker_run (ops : list breaker_op) (b : CircuitBreaker) : CircuitBreaker * list bool :=
  match ops with
  | [] => (b, [])
  | op :: ops => let '(b, r) := breaker_step op b in let '(b, rs) := breaker_run ops b in (b, r :: rs)
  end.

Fixpoint breaker_spec_run (threshold window : Z) (ops : list breaker_op) (v : breaker_view) :
    breaker_view * list bool :=
  match ops with
  | [] => (v, [])
  | op :: ops =>
      let '(v, r) := breaker_spec threshold window op v in
      let '(v, rs) := breaker_spec_run threshold window ops v in (v, r :: rs)
  end.

Lemma breaker_run_refines ops b :
  wf_breaker b -> Forall (fun op => 0 <= op_time op /\ op_time op + open_window_ms_ b < 2 ^ 64) ops ->
  let '(b', rs) := breaker_run ops b in
  (view b', rs) = breaker_spec_run (failure_threshold_ b) (open_window_ms_ b) ops (view b).
Proof.
  revert b. induction ops as [|op ops IH]; intros b Hwf Hops; [done|]. cbn [breaker_run breaker_spec_run].
  apply Forall_cons in Hops as [[Ht Hlt] Hops].
  pose proof (breaker_step_refines op b Hwf Ht Hlt) as Hstep.
  destruct (breaker_step op b) as [b1 r]. destruct Hstep as (Hwf1 & Hth & Hwin & Hview).
  rewrite <- Hview. specialize (IH b1 Hwf1). rewrite Hth, Hwin in IH. specialize (IH Hops).
  destruct (breaker_run ops b1) as [b2 rs]. by rewrite <- IH.
Qed.

Lemma SFltb_asym a b : SFltb a b = true -> SFltb b a = false.
Proof.
  unfold SFltb. destruct a as [sa|sa| |sa ma ea], b as [sb|sb| |sb mb eb]; simpl; try done;
    try (destruct sa; done); try (destruct sb; done); try (destruct sa, sb; done).
  destruct sa, sb; try done; rewrite (Z.compare_antisym ea eb);
    destruct (ea ?= eb); simpl; try done;
    change (Pos.compare_cont Eq mb ma) with (mb ?= ma)%positive;
    change (Pos.compare_cont Eq ma mb) with (ma ?= mb)%positive;
    rewrite (Pos.compare_antisym ma mb); by destruct (ma ?= mb)%positive.
Qed.

(** ** Theorems *)

Lemma exceeds_queue_budget_spec queue_max queued incoming :
  fits 64 queue_max -> fits 64 queued -> fits 64 incoming ->
  exceeds_queue_budget queue_max queued incoming = true
  <-> queue_max <> 0 /\ queue_max < queued + incoming.
Proof.
  intros. unfold exceeds_queue_budget. destruct (Z.eqb_spec queue_max 0); [split; [done|lia]|].
  destruct (Z.ltb_spec queue_max incoming); [widths; split; [lia|done]|].
  rewrite wrap_id, Z.ltb_lt by (widths; lia). lia.
Qed.

(** [exceeds_queue_budget] is overflow-free: for sizes of type [std::size_t] it says
    whether the queued and the incoming bytes together, added without wrap-around,
    exceed a budget that is set (not zero). *)
Theorem exceeds_queue_budget_exact queue_max queued incoming :
  fits 64 queue_max -> fits 64 queued -> fits 64 incoming ->
  exceeds_queue_budget queue_max queued incoming = true
  <-> queue_max <> 0 /\ queue_max < queued + incoming.
Proof. apply exceeds_queue_budget_spec. Qed.

Lemma exceeds_queue_budget_exact_witness :
  exceeds_queue_budget 100 (2 ^ 64 - 1) 90 = true.
Proof.
  apply (exceeds_queue_budget_exact 100 (2 ^ 64 - 1) 90); by vm_compute.
Defined.

(** The retry budget bounds every burst.  From any state, over any calls at
    non-decreasing non-zero times within one window length of each other, at most
    twice the budget is granted (the rest of one window and one fresh window); from
    a fresh budget exactly its size. *)
Theorem retry_budget_bounds_bursts ts b T :
  wf_budget b -> 0 < T -> Sorted Z.le ts ->
  Forall (fun t => fits 64 t /\ T <= t < T + window_ms_ b) ts ->
  granted (retry_run ts b).2 <= 2 * budget_per_window_ b - used_in_window_ b
  /\ (window_start_ms_ b = 0 -> used_in_window_ b = 0 ->
      granted (retry_run ts b).2 <= budget_per_window_ b).
Proof.
  intros Hwf HT Hs Hts. split.
  - pose proof (retry_run_two_windows ts b T Hwf HT Hs Hts). lia.
  - intros H0 Hu. destruct ts as [|t ts]; [destruct Hwf as ((?&?)&?); unfold granted; simpl; lia|].
    apply Sorted_StronglySorted in Hs; [|intros ??; apply Z.le_trans].
    apply StronglySorted_inv in Hs as [_ Hle]. pose proof Hts as [[Ht Hr] _]%Forall_cons.
    assert (Hroll : roll_window_locked t b = mkRetryBudget (budget_per_window_ b) (window_ms_ b) t 0)
      by (unfold roll_window_locked; by rewrite H0, Hu).
    assert (Hsame : retry_run (t :: ts) b = retry_run (t :: ts) (roll_window_locked t b)).
    { cbn [retry_run]. unfold retry_consume. rewrite roll_window_idem; [done|done|lia|apply Hwf]. }
    rewrite Hsame, Hroll. etrans; [apply retry_run_one_window; simpl|simpl; lia].
    + destruct Hwf as (?&?&?&?). unfold wf_budget. simpl. widths. lia.
    + lia.
    + rewrite Forall_forall in Hle, Hts |- *. intros t' Hin. specialize (Hts _ Hin) as [? ?].
      apply elem_of_cons in Hin as [->|Hin]; [split; [done|lia]|]. specialize (Hle _ Hin). split; [done|lia].
Qed.

Lemma retry_budget_bounds_bursts_witness :
  granted (retry_run [100; 150; 199; 199] (retry_configure 2 100 default_RetryBudget)).2 <= 2.
Proof.
  apply (retry_budget_bounds_bursts [100; 150; 199; 199] (retry_configure 2 100 default_RetryBudget) 100);
    [by vm_compute|lia|repeat constructor; lia| |done|done].
  do 4 (apply Forall_cons_2; [by vm_compute|]). constructor.
Defined.

(** The circuit breaker is the two-state machine of its description.  From
    [configure] with [enabled], over any calls whose times stay clear of the end of
    [std::uint64_t], the results of [allow], [record_failure], [record_success] and
    [is_open] are those of a machine that is closed with a count of consecutive
    failures or open until a time: it opens at exactly the [failure_threshold]-th
    consecutive failure, for [open_window_ms], refuses while open, ignores failures
    then, and closes with a clean count when the time has come. *)
Theorem circuit_breaker_refines threshold window b0 ops :
  fits 32 threshold -> fits 64 window ->
  let b := breaker_configure true threshold window b0 in
  Forall (fun op => 0 <= op_time op /\ op_time op + Z.max 1 window < 2 ^ 64) ops ->
  let '(b', rs) := breaker_run ops b in
  (view b', rs) = breaker_spec_run (Z.max 1 threshold) (Z.max 1 window) ops (Closed 0).
Proof.
  intros Hth Hw b Hops. apply (breaker_run_refines ops b); [|done].
  unfold b, breaker_configure, wf_breaker. simpl. widths. split_and!; done || lia.
Qed.

Lemma circuit_breaker_refines_witness :
  let b := breaker_configure true 2 1000 default_CircuitBreaker in
  let ops := [Failure 10; Failure 20; Allow 500; Failure 600; Allow 1020; IsOpen 1021] in
  (view (breaker_run ops b).1, (breaker_run ops b).2)
  = (Closed 0, [false; true; false; false; true; false]).
Proof.
  exact (circuit_breaker_refines 2 1000 default_CircuitBreaker
    [Failure 10; Failure 20; Allow 500; Failure 600; Allow 1020; IsOpen 1021]
    ltac:(by vm_compute) ltac:(by vm_compute)
    ltac:(do 6 (apply Forall_cons_2; [by vm_compute|]); constructor)).
Defined.

(** A token bucket never fills beyond its burst size: whatever the rate, the clock and
    the rounding, a bucket that is not above its burst is not above it after a
    refill; and [configure] turns negative and NaN settings into zero. *)
Theorem token_bucket_capped now b rate burst :
  SFltb (burst_tokens_ b) (burst_tokens_ b) = false ->
  SFltb (burst_tokens_ b) (tokens_ b) = false ->
  SFltb (burst_tokens_ b) (tokens_ (refill_locked now b)) = false
  /\ SFltb (refill_per_sec_ (token_configure rate burst b)) (f_of_Z 0) = false
  /\ SFltb (burst_tokens_ (token_configure rate burst b)) (f_of_Z 0) = false
  /\ token_configure S754_nan S754_nan b = mkTokenBucket (f_of_Z 0) (f_of_Z 0) (f_of_Z 0) 0.
Proof.
  intros Hirr Hcap. split_and!.
  - unfold refill_locked. repeat case_match; try done. simpl. unfold fmin.
    case_match; [by apply SFltb_asym|done].
  - simpl. unfold fmax. case_match; [by apply SFltb_asym|done].
  - simpl. unfold fmax. case_match; [by apply SFltb_asym|done].
  - done.
Qed.

Lemma token_bucket_capped_witness :
  let b := (token_consume 100 (f_of_Z 1) (token_configure (f_of_Z 5) (f_of_Z 10) default_TokenBucket)).1 in
  SFltb (f_of_Z 10) (tokens_ (refill_locked 60100 b)) = false.
Proof.
  apply (token_bucket_capped 60100
    (token_consume 100 (f_of_Z 1) (token_configure (f_of_Z 5) (f_of_Z 10) default_TokenBucket)).1
    (f_of_Z 0) (f_of_Z 0)); by vm_compute.
Defined.
