(* ===== verification/ProtocolErrors.v ===== *)
(** The error codes a server sends in [MSG_ERR]
    ([core/include/server/core/protocol/protocol_errors.hpp]), shared by the dispatcher and
    the chat service, and the flag of a message that comes back to its sender
    ([protocol_flags.hpp]). *)

From S2P Require Import Prelude.

Definition INTERNAL_ERROR : Z := 0x0001.
Definition LENGTH_LIMIT_EXCEEDED : Z := 0x0002.
Definition UNKNOWN_MSG_ID : Z := 0x0003.
Definition INVALID_PAYLOAD : Z := 0x0007.
Definition SERVER_BUSY : Z := 0x0008.
Definition UNSUPPORTED_VERSION : Z := 0x0009.
Definition NAME_TAKEN : Z := 0x0100.
Definition UNAUTHORIZED : Z := 0x0101.
Definition FORBIDDEN : Z := 0x0102.
Definition NO_ROOM : Z := 0x0104.
Definition NOT_MEMBER : Z := 0x0105.
Definition ROOM_MISMATCH : Z := 0x0106.

Definition FLAG_SELF : Z := 0x0100.
