(* ===== verification/Dispatch.v ===== *)
(** Message routing: the opcode policies of [core/protocol/opcode_policy.hpp], the
    opcode tables of [core/protocol/system_opcodes.hpp] and
    [protocol/game_opcodes.hpp], and the dispatcher of [core/net/dispatcher.cpp].

    A handler is a value of a parameter type; what it does when it runs (returns or
    throws) and what the session and the worker queue answer are inputs.  A piece of
    code is a [Run]: its effects in order (metrics, error responses, the handler run
    inline, a task posted to the session strand or pushed to the job queue) and
    either the value it returns or the exception that leaves it, which [try_catch]
    handles as the source does. *)

From S2P Require Import Prelude ProtocolErrors.

(** ** Policies *)

Inductive SessionStatus := kAny | kAuthenticated | kInRoom | kAdmin.
Inductive ProcessingPlace := kInline | kWorker | kRoomStrand.
Inductive TransportMask := kMaskNone | kMaskTcp | kMaskUdp | kMaskBoth.
Inductive DeliveryClass := kReliableOrdered | kReliable | kUnreliableSequenced.
Inductive TransportKind := kTcp | kUdp.

#[export] Instance SessionStatus_eq_dec : EqDecision SessionStatus.
Proof. solve_decision. Defined.
#[export] Instance ProcessingPlace_eq_dec : EqDecision ProcessingPlace.
Proof. solve_decision. Defined.
#[export] Instance TransportMask_eq_dec : EqDecision TransportMask.
Proof. solve_decision. Defined.
#[export] Instance TransportKind_eq_dec : EqDecision TransportKind.
Proof. solve_decision. Defined.
#[export] Instance DeliveryClass_eq_dec : EqDecision DeliveryClass.
Proof. solve_decision. Defined.

Record OpcodePolicy := mkOpcodePolicy {
  required_state : SessionStatus;
  processing_place : ProcessingPlace;
  transport : TransportMask;
  op_delivery : DeliveryClass;
  op_channel : Z;
}.

#[export] Instance OpcodePolicy_eq_dec : EqDecision OpcodePolicy.
Proof. solve_decision. Defined.

Definition default_opcode_policy : OpcodePolicy :=
  mkOpcodePolicy kAny kInline kMaskTcp kReliableOrdered 0.

Definition transport_allows (mask : TransportMask) (t : TransportKind) : bool :=
  if decide (mask = kMaskBoth) then true
  else if decide (mask = kMaskNone) then false
  else if decide (t = kTcp) then bool_decide (mask = kMaskTcp)
  else bool_decide (mask = kMaskUdp).

(** *** Opcode tables *)

Definition MSG_HELLO := 0x0001.
Definition MSG_PING := 0x0002.
Definition MSG_PONG := 0x0003.
Definition MSG_ERR := 0x0004.

Definition system_opcode_policy (id : Z) : OpcodePolicy :=
  if id =? 0x0001 then mkOpcodePolicy kAny kInline kMaskTcp kReliableOrdered 0
  else if id =? 0x0002 then mkOpcodePolicy kAny kInline kMaskTcp kReliableOrdered 0
  else if id =? 0x0003 then mkOpcodePolicy kAny kInline kMaskTcp kReliableOrdered 0
  else if id =? 0x0004 then mkOpcodePolicy kAny kInline kMaskTcp kReliableOrdered 0
  else default_opcode_policy.

Definition system_opcode_name (id : Z) : string :=
  if id =? 0x0001 then "MSG_HELLO"
  else if id =? 0x0002 then "MSG_PING"
  else if id =? 0x0003 then "MSG_PONG"
  else if id =? 0x0004 then "MSG_ERR"
  else EmptyString.

Definition MSG_LOGIN_REQ := 0x0010.
Definition MSG_LOGIN_RES := 0x0011.
Definition MSG_UDP_BIND_REQ := 0x0012.
Definition MSG_UDP_BIND_RES := 0x0013.
Definition MSG_CHAT_SEND := 0x0100.
Definition MSG_CHAT_BROADCAST := 0x0101.
Definition MSG_JOIN_ROOM := 0x0102.
Definition MSG_LEAVE_ROOM := 0x0103.
Definition MSG_WHISPER_REQ := 0x0104.
Definition MSG_WHISPER_RES := 0x0105.
Definition MSG_WHISPER_BROADCAST := 0x0106.
Definition MSG_STATE_SNAPSHOT := 0x0200.
Definition MSG_ROOM_USERS := 0x0201.
Definition MSG_ROOMS_REQ := 0x0202.
Definition MSG_ROOM_USERS_REQ := 0x0203.
Definition MSG_REFRESH_REQ := 0x0204.
Definition MSG_REFRESH_NOTIFY := 0x0205.

Definition game_opcode_policy (id : Z) : OpcodePolicy :=
  if id =? 0x0010 then mkOpcodePolicy kAny kInline kMaskTcp kReliableOrdered 0
  else if id =? 0x0011 then mkOpcodePolicy kAny kInline kMaskTcp kReliableOrdered 0
  else if id =? 0x0012 then mkOpcodePolicy kAny kInline kMaskUdp kReliable 0
  else if id =? 0x0013 then mkOpcodePolicy kAny kInline kMaskBoth kReliable 0
  else if id =? 0x0100 then mkOpcodePolicy kAuthenticated kInline kMaskTcp kReliableOrdered 0
  else if id =? 0x0101 then mkOpcodePolicy kAny kInline kMaskTcp kReliableOrdered 0
  else if id =? 0x0102 then mkOpcodePolicy kAuthenticated kInline kMaskTcp kReliableOrdered 0
  else if id =? 0x0103 then mkOpcodePolicy kAuthenticated kInline kMaskTcp kReliableOrdered 0
  else if id =? 0x0104 then mkOpcodePolicy kAuthenticated kInline kMaskTcp kReliableOrdered 0
  else if id =? 0x0105 then mkOpcodePolicy kAny kInline kMaskTcp kReliableOrdered 0
  else if id =? 0x0106 then mkOpcodePolicy kAny kInline kMaskTcp kReliableOrdered 0
  else if id =? 0x0200 then mkOpcodePolicy kAny kInline kMaskTcp kReliableOrdered 0
  else if id =? 0x0201 then mkOpcodePolicy kAny kInline kMaskTcp kReliableOrdered 0
  else if id =? 0x0202 then mkOpcodePolicy kAuthenticated kInline kMaskTcp kReliableOrdered 0
  else if id =? 0x0203 then mkOpcodePolicy kAuthenticated kInline kMaskTcp kReliableOrdered 0
  else if id =? 0x0204 then mkOpcodePolicy kAuthenticated kInline kMaskTcp kReliableOrdered 0
  else if id =? 0x0205 then mkOpcodePolicy kAny kInline kMaskTcp kReliableOrdered 0
  else default_opcode_policy.

Definition game_opcode_name (id : Z) : string :=
  if id =? 0x0010 then "MSG_LOGIN_REQ"
  else if id =? 0x0011 then "MSG_LOGIN_RES"
  else if id =? 0x0012 then "MSG_UDP_BIND_REQ"
  else if id =? 0x0013 then "MSG_UDP_BIND_RES"
  else if id =? 0x0100 then "MSG_CHAT_SEND"
  else if id =? 0x0101 then "MSG_CHAT_BROADCAST"
  else if id =? 0x0102 then "MSG_JOIN_ROOM"
  else if id =? 0x0103 then "MSG_LEAVE_ROOM"
  else if id =? 0x0104 then "MSG_WHISPER_REQ"
  else if id =? 0x0105 then "MSG_WHISPER_RES"
  else if id =? 0x0106 then "MSG_WHISPER_BROADCAST"
  else if id =? 0x0200 then "MSG_STATE_SNAPSHOT"
  else if id =? 0x0201 then "MSG_ROOM_USERS"
  else if id =? 0x0202 then "MSG_ROOMS_REQ"
  else if id =? 0x0203 then "MSG_ROOM_USERS_REQ"
  else if id =? 0x0204 then "MSG_REFRESH_REQ"
  else if id =? 0x0205 then "MSG_REFRESH_NOTIFY"
  else EmptyString.

(** ** Dispatcher *)

Definition kDispatchPlaceInlineIndex := 0.
Definition kDispatchPlaceWorkerIndex := 1.
Definition kDispatchPlaceRoomStrandIndex := 2.
Definition kDispatchProcessingPlaceCount := 3.

Definition satisfies_required_state (required current : SessionStatus) : bool :=
  match required with
  | kAny => true
  | kAuthenticated =>
      bool_decide (current = kAuthenticated) || bool_decide (current = kInRoom)
      || bool_decide (current = kAdmin)
  | kInRoom => bool_decide (current = kInRoom) || bool_decide (current = kAdmin)
  | kAdmin => bool_decide (current = kAdmin)
  end.

Definition processing_place_index (place : ProcessingPlace) : Z :=
  match place with
  | kInline => kDispatchPlaceInlineIndex
  | kWorker => kDispatchPlaceWorkerIndex
  | kRoomStrand => kDispatchPlaceRoomStrandIndex
  end.

Section dispatcher.
Context {handler_t : Type}.

(** How a call of a handler ends. *)
Inductive Outcome := Returns | ThrowsStd | ThrowsOther.
#[export] Instance Outcome_eq_dec : EqDecision Outcome.
Proof. solve_decision. Defined.

Record DispatchEntry := mkDispatchEntry { de_handler : handler_t; de_policy : OpcodePolicy }.

(** The closure [invoke_on_session]. *)
Record Task := mkTask {
  task_handler : handler_t;
  task_payload : list Z;
  task_msg_id : Z;
  task_place_index : Z;
}.

Inductive Effect :=
  | RunHandler (h : handler_t) (payload : list Z)
  | SendError (code : Z) (message : string)
  | RecordExceptionIgnored
  | RecordExceptionRecoverable
  | RecordDispatchException
  | RecordPlaceCall (place_index : Z)
  | RecordPlaceReject (place_index : Z)
  | RecordPlaceException (place_index : Z)
  | PostSerialized (t : Task)
  | PushJob (t : Task).

Definition Dispatcher := gmap Z DispatchEntry.

Definition register_handler (msg_id : Z) (handler : handler_t) (policy : OpcodePolicy)
    (table_ : Dispatcher) : Dispatcher :=
  <[msg_id := mkDispatchEntry handler policy]> table_.

(** What the surroundings answer: how each handler call ends, whether [send_error]
    throws, whether the session can be shared, whether its strand accepts a task,
    and the worker queue with the answer of [TryPush]. *)
Record DispatchEnv := mkDispatchEnv {
  handler_outcome : handler_t -> list Z -> Outcome;
  session_status : SessionStatus;
  send_error_throws : bool;
  session_shared : bool;
  post_accepts : bool;
  job_queue : option bool;
}.

Context (env : DispatchEnv).

(** A piece of code: its effects in order, and the value it returns or the exception that
    leaves it. *)
Inductive Exn := StdException | OtherException.
Definition Run (A : Type) : Type := list Effect * (Exn + A).

Definition returns {A} (a : A) : Run A := ([], inr a).
Definition tell (effects : list Effect) : Run unit := (effects, inr tt).
Definition andThen {A B} (m : Run A) (k : A -> Run B) : Run B :=
  match m.2 with
  | inl e => (m.1, inl e)
  | inr a => (m.1 ++ (k a).1, (k a).2)
  end.
(** [try { m } catch (const std::exception&) { on_std } catch (...) { on_other }]. *)
Definition try_catch {A} (m : Run A) (on_std on_other : Run A) : Run A :=
  match m.2 with
  | inl StdException => (m.1 ++ on_std.1, on_std.2)
  | inl OtherException => (m.1 ++ on_other.1, on_other.2)
  | inr _ => m
  end.

(** The calls that can throw: the handler, [Session::send_error], [shared_from_this]. *)
Definition call_handler (h : handler_t) (payload : list Z) : Run unit :=
  ([RunHandler h payload],
   match handler_outcome env h payload with
   | Returns => inr tt | ThrowsStd => inl StdException | ThrowsOther => inl OtherException
   end).
Definition session_send_error (code : Z) (message : string) : Run unit :=
  ([SendError code message], if send_error_throws env then inl StdException else inr tt).
Definition shared_from_this : Run bool := ([], if session_shared env then inr true else inl StdException).

Definition send_error_noexcept (code : Z) (message : string) : Run unit :=
  try_catch (session_send_error code message) (tell [RecordExceptionIgnored]) (tell [RecordExceptionIgnored]).

Definition shared_session_or_null : Run bool :=
  let handle := andThen (tell [RecordExceptionIgnored]) (fun _ => returns false) in
  try_catch shared_from_this handle handle.

Definition run_handler_with_guard (h : handler_t) (payload : list Z) (place_index : Z) : Run unit :=
  try_catch (call_handler h payload)
    (andThen (tell [RecordDispatchException; RecordPlaceException place_index; RecordExceptionRecoverable])
       (fun _ => send_error_noexcept INTERNAL_ERROR "internal error"))
    (andThen (tell [RecordDispatchException; RecordPlaceException place_index; RecordExceptionIgnored])
       (fun _ => send_error_noexcept INTERNAL_ERROR "internal error")).

(** What the strand runs later for a posted task. *)
Definition run_task (t : Task) : Run unit :=
  run_handler_with_guard (task_handler t) (task_payload t) (task_place_index t).

Definition place_rejected (place_index : Z) (message : string) : Run unit :=
  andThen (tell [RecordPlaceReject place_index]) (fun _ => send_error_noexcept SERVER_BUSY message).

(** What a worker runs later for a pushed job. *)
Definition run_job (t : Task) : Run unit :=
  if post_accepts env then tell [PostSerialized t]
  else place_rejected (task_place_index t) "dispatch context unavailable".

Definition dispatch (table_ : Dispatcher) (msg_id : Z) (payload : list Z) (t : TransportKind) : Run bool :=
  match table_ !! msg_id with
  | None => returns false
  | Some entry =>
      let handled m := andThen m (fun _ => returns true) in
      let policy := de_policy entry in
      if negb (transport_allows (transport policy) t) then handled (send_error_noexcept FORBIDDEN "forbidden")
      else if negb (satisfies_required_state (required_state policy) (session_status env)) then
        handled (send_error_noexcept FORBIDDEN "forbidden")
      else
        let place := processing_place policy in
        let place_index := processing_place_index place in
        if kDispatchProcessingPlaceCount <=? place_index then
          handled (send_error_noexcept INTERNAL_ERROR "unsupported processing place")
        else
          andThen (tell [RecordPlaceCall place_index]) (fun _ =>
          if decide (place = kInline) then handled (run_handler_with_guard (de_handler entry) payload place_index)
          else
            andThen shared_session_or_null (fun session =>
            if negb session then handled (place_rejected place_index "dispatch context unavailable")
            else
              let task := mkTask (de_handler entry) payload msg_id place_index in
              if decide (place = kRoomStrand) then
                handled (if post_accepts env then tell [PostSerialized task]
                         else place_rejected place_index "dispatch context unavailable")
              else
                handled match job_queue env with
                | None => place_rejected place_index "worker queue unavailable"
                | Some true => tell [PushJob task]
                | Some false => place_rejected place_index "worker queue full"
                end))
  end.

(** A message to its end: the dispatch, then what it handed to the worker queue, then what
    was handed to the strand, each run where it was accepted. *)
Definition later (e : Effect) : Run unit :=
  match e with
  | PostSerialized t => run_task t
  | PushJob t => andThen (run_job t) (fun _ => if post_accepts env then run_task t else returns tt)
  | _ => returns tt
  end.

Definition settle (effects : list Effect) : Run unit :=
  foldr (fun e rest => andThen (later e) (fun _ => rest)) (returns tt) effects.

Definition process (table_ : Dispatcher) (msg_id : Z) (payload : list Z) (t : TransportKind) : Run bool :=
  let m := dispatch table_ msg_id payload t in
  andThen m (fun handled => andThen (settle m.1) (fun _ => returns handled)).

(** ** Lemmas *)

(** The handler of an effect that starts it now or hands it on. *)
Definition reaches_handler (e : Effect) : option (handler_t * list Z) :=
  match e with
  | RunHandler h p => Some (h, p)
  | PostSerialized t | PushJob t => Some (task_handler t, task_payload t)
  | _ => None
  end.

Definition is_error (e : Effect) : bool := match e with SendError _ _ => true | _ => false end.

Definition errors (effects : list Effect) : list Effect := filter (fun e => is_error e = true) effects.

Lemma send_error_silent code message :
  omap reaches_handler (send_error_noexcept code message).1 = []
  /\ errors (send_error_noexcept code message).1 = [SendError code message]
  /\ (send_error_noexcept code message).2 = inr tt.
Proof. unfold send_error_noexcept, session_send_error, try_catch. by destruct (send_error_throws env). Qed.

Lemma place_rejected_silent i message :
  omap reaches_handler (place_rejected i message).1 = []
  /\ errors (place_rejected i message).1 = [SendError SERVER_BUSY message]
  /\ (place_rejected i message).2 = inr tt.
Proof.
  unfold place_rejected, andThen. cbn [tell fst snd]. destruct (send_error_silent SERVER_BUSY message) as (H1 & H2 & H3).
  split_and!; [by rewrite omap_app, H1|unfold errors in *; rewrite filter_app; by rewrite H2|done].
Qed.

Lemma guard_reaches h p i :
  omap reaches_handler (run_handler_with_guard h p i).1 = [(h, p)]
  /\ errors (run_handler_with_guard h p i).1
     = match handler_outcome env h p with Returns => [] | _ => [SendError INTERNAL_ERROR "internal error"] end
  /\ (handler_outcome env h p <> Returns ->
      RecordDispatchException ∈ (run_handler_with_guard h p i).1
      /\ RecordPlaceException i ∈ (run_handler_with_guard h p i).1)
  /\ (run_handler_with_guard h p i).2 = inr tt.
Proof.
  unfold run_handler_with_guard, call_handler, send_error_noexcept, session_send_error, try_catch, andThen.
  destruct (handler_outcome env h p), (send_error_throws env); cbn; split_and!; try done; intros _; split; set_solver.
Qed.

(** A message that is refused: no handler, one error, no exception. *)
Definition refused {A} (m : Run A) (a : A) : Prop :=
  omap reaches_handler m.1 = [] /\ m.2 = inr a
  /\ exists code message, code ∈ [FORBIDDEN; SERVER_BUSY] /\ errors m.1 = [SendError code message].

Lemma refused_then {A B} (m : Run A) a (k : A -> Run B) b :
  refused m a -> k a = returns b -> refused (andThen m k) b.
Proof. intros (H1 & H2 & H3) Hk. unfold refused, andThen. rewrite H2, Hk. cbn. by rewrite app_nil_r. Qed.

Lemma refused_tell {A} effects (m : Run A) a :
  omap reaches_handler effects = [] -> errors effects = [] -> refused m a ->
  refused (andThen (tell effects) (fun _ => m)) a.
Proof.
  intros He Hr (H1 & H2 & H3). unfold refused, andThen. cbn [tell fst snd].
  unfold errors in *. by rewrite omap_app, filter_app, He, Hr.
Qed.

Lemma refused_error code message : code ∈ [FORBIDDEN; SERVER_BUSY] -> refused (send_error_noexcept code message) tt.
Proof. intros Hc. destruct (send_error_silent code message) as (? & ? & ?). split_and!; eauto. Qed.

Lemma refused_place i message : refused (place_rejected i message) tt.
Proof. apply refused_tell; [done..|]. apply refused_error. set_solver. Qed.

Lemma shared_session_spec {B} (k : bool -> Run B) :
  andThen shared_session_or_null k
  = if session_shared env then k true else andThen (tell [RecordExceptionIgnored]) (fun _ => k false).
Proof.
  unfold shared_session_or_null, shared_from_this, try_catch, andThen.
  destruct (session_shared env); cbn; [by destruct (k true)|done].
Qed.

(** Where a message ends up. *)
Inductive route (entry : DispatchEntry) (payload : list Z) (msg_id : Z) (m : Run bool) : Prop :=
  | route_inline :
      m = (RecordPlaceCall 0 :: (run_handler_with_guard (de_handler entry) payload 0).1, inr true) ->
      route entry payload msg_id m
  | route_strand :
      post_accepts env = true ->
      m = ([RecordPlaceCall 2; PostSerialized (mkTask (de_handler entry) payload msg_id 2)], inr true) ->
      route entry payload msg_id m
  | route_worker :
      m = ([RecordPlaceCall 1; PushJob (mkTask (de_handler entry) payload msg_id 1)], inr true) ->
      route entry payload msg_id m
  | route_refused : refused m true -> route entry payload msg_id m.

Lemma dispatch_route table_ msg_id payload t :
  match table_ !! msg_id with
  | None => dispatch table_ msg_id payload t = ([], inr false)
  | Some entry =>
      (transport_allows (transport (de_policy entry)) t = true
       /\ satisfies_required_state (required_state (de_policy entry)) (session_status env) = true
       /\ route entry payload msg_id (dispatch table_ msg_id payload t))
      \/ refused (dispatch table_ msg_id payload t) true
  end.
Proof.
  unfold dispatch. destruct (table_ !! msg_id) as [entry|]; [|done]. set (pol := de_policy entry).
  destruct (transport_allows (transport pol) t); cbn [negb].
  2: { right. eapply refused_then; [by apply refused_error; set_solver|done]. }
  destruct (satisfies_required_state (required_state pol) (session_status env)); cbn [negb].
  2: { right. eapply refused_then; [by apply refused_error; set_solver|done]. }
  left. split_and!; [done..|]. destruct (guard_reaches (de_handler entry) payload 0) as (_ & _ & _ & Hret).
  destruct (processing_place pol).
  - apply route_inline. change (_ <=? _) with false. cbv iota. rewrite decide_True by done. cbn [processing_place_index].
    unfold kDispatchPlaceInlineIndex. destruct (run_handler_with_guard (de_handler entry) payload 0) as [effects r].
    cbn [snd] in Hret. subst r. unfold andThen. cbn. by rewrite app_nil_r.
  - change (_ <=? _) with false. cbv iota. rewrite decide_False by done.
    rewrite shared_session_spec. destruct (session_shared env); cbn [negb].
    + destruct (job_queue env) as [[]|]; [by apply route_worker| |];
        apply route_refused, refused_tell; try done; (eapply refused_then; [apply refused_place|done]).
    + apply route_refused, refused_tell; [done..|]. apply refused_tell; [done..|].
      eapply refused_then; [apply refused_place|done].
  - change (_ <=? _) with false. cbv iota. rewrite decide_False by done.
    rewrite shared_session_spec. destruct (session_shared env); cbn [negb].
    + destruct (post_accepts env) eqn:Ep; [by apply route_strand|].
      apply route_refused, refused_tell; [done..|]. eapply refused_then; [apply refused_place|done].
    + apply route_refused, refused_tell; [done..|]. apply refused_tell; [done..|].
      eapply refused_then; [apply refused_place|done].
Qed.

(** Effects that hand nothing on leave nothing for later. *)
Definition hands_on (e : Effect) : bool := match e with PostSerialized _ | PushJob _ => true | _ => false end.

Lemma settle_nothing effects : Forall (fun e => hands_on e = false) effects -> settle effects = ([], inr tt).
Proof. induction 1 as [|e effects He _ IH]; [done|]. cbn [settle foldr]. fold (settle effects). by destruct e; rewrite ?IH. Qed.

Lemma refused_nothing effects : omap reaches_handler effects = [] -> Forall (fun e => hands_on e = false) effects.
Proof.
  induction effects as [|e effects IH]; [constructor|]. cbn. destruct (reaches_handler e) eqn:He; [done|].
  intros Hr. constructor; [by destruct e|by apply IH].
Qed.

Lemma guard_nothing h p i : Forall (fun e => hands_on e = false) (run_handler_with_guard h p i).1.
Proof.
  unfold run_handler_with_guard, call_handler, send_error_noexcept, session_send_error, try_catch, andThen.
  destruct (handler_outcome env h p), (send_error_throws env); cbn; repeat constructor.
Qed.

(** The handlers that were run. *)
Definition handler_runs (effects : list Effect) : list (handler_t * list Z) :=
  omap (fun e => match e with RunHandler h p => Some (h, p) | _ => None end) effects.

Lemma guard_runs h p i : handler_runs (run_handler_with_guard h p i).1 = [(h, p)].
Proof.
  unfold run_handler_with_guard, call_handler, send_error_noexcept, session_send_error, try_catch, andThen.
  by destruct (handler_outcome env h p), (send_error_throws env).
Qed.

Lemma refused_runs effects : omap reaches_handler effects = [] -> handler_runs effects = [].
Proof.
  induction effects as [|e effects IH]; [done|]. cbn. destruct (reaches_handler e) eqn:He; [done|].
  intros Hr. destruct e; try done; by apply IH.
Qed.

(** The outcome of a message whose handler was reached: what it did, answered and counted. *)
Definition ran (entry : DispatchEntry) (payload : list Z) (effects : list Effect) : Prop :=
  handler_runs effects = [(de_handler entry, payload)]
  /\ errors effects = match handler_outcome env (de_handler entry) payload with
                      | Returns => [] | _ => [SendError INTERNAL_ERROR "internal error"] end
  /\ (handler_outcome env (de_handler entry) payload <> Returns ->
      RecordDispatchException ∈ effects /\ exists i, RecordPlaceException i ∈ effects).

Lemma ran_guard pre entry payload i :
  handler_runs pre = [] -> errors pre = [] ->
  ran entry payload (pre ++ (run_handler_with_guard (de_handler entry) payload i).1).
Proof.
  intros Hp He. destruct (guard_reaches (de_handler entry) payload i) as (_ & H2 & H3 & _).
  unfold ran, handler_runs, errors in *. rewrite omap_app, filter_app, Hp, He.
  split_and!; [apply guard_runs|done|]. intros Ho. destruct (H3 Ho) as [H4 H5].
  split; [apply elem_of_app; by right|]. exists i. apply elem_of_app. by right.
Qed.

Lemma process_cases table_ msg_id payload t :
  match table_ !! msg_id with
  | None => process table_ msg_id payload t = ([], inr false)
  | Some entry =>
      (process table_ msg_id payload t).2 = inr true
      /\ (ran entry payload (process table_ msg_id payload t).1
          \/ (handler_runs (process table_ msg_id payload t).1 = []
              /\ exists code message, code ∈ [FORBIDDEN; SERVER_BUSY]
                   /\ errors (process table_ msg_id payload t).1 = [SendError code message]))
  end.
Proof.
  pose proof (dispatch_route table_ msg_id payload t) as Hd. unfold process. cbv zeta.
  destruct (table_ !! msg_id) as [entry|]; [|by rewrite Hd].
  assert (Hrefused : forall m, refused m true ->
    let r := andThen m (fun handled => andThen (settle m.1) (fun _ => returns handled)) in
    r.2 = inr true /\ handler_runs r.1 = []
    /\ exists code message, code ∈ [FORBIDDEN; SERVER_BUSY] /\ errors r.1 = [SendError code message]).
  { intros m (H1 & H2 & H3). cbv zeta. rewrite (settle_nothing m.1) by (by apply refused_nothing).
    unfold andThen. rewrite H2. cbn. rewrite app_nil_r. split_and!; [done|by apply refused_runs|done]. }
  destruct Hd as [(_ & _ & Hr)|Hr]; [|destruct (Hrefused _ Hr); auto].
  destruct Hr as [->|Hp ->| ->|Hr]; [..|destruct (Hrefused _ Hr); auto].
  - rewrite settle_nothing by (constructor; [done|apply guard_nothing]).
    unfold andThen. cbn [fst snd returns]. rewrite !app_nil_r. split; [done|left]. by apply (ran_guard [RecordPlaceCall 0]).
  - cbn [settle foldr later fst snd]. unfold run_task. cbn [task_handler task_payload task_place_index].
    destruct (guard_reaches (de_handler entry) payload 2) as (_ & _ & _ & Hret).
    unfold andThen. cbn [fst snd returns app]. rewrite Hret. cbn [fst snd]. rewrite !app_nil_r. split; [done|left].
    by apply (ran_guard [RecordPlaceCall 2; PostSerialized _]).
  - cbn [settle foldr later fst snd]. unfold run_job, run_task. cbn [task_handler task_payload task_place_index].
    destruct (guard_reaches (de_handler entry) payload 1) as (_ & _ & _ & Hret).
    destruct (place_rejected_silent 1 "dispatch context unavailable") as (P1 & P2 & P3).
    destruct (post_accepts env); unfold andThen; cbn [fst snd returns app tell].
    + rewrite Hret. cbn [fst snd]. rewrite !app_nil_r. split; [done|left].
      by apply (ran_guard [RecordPlaceCall 1; PushJob _; PostSerialized _]).
    + rewrite P3. cbn [fst snd]. rewrite !app_nil_r. split; [done|right]. split.
      * change (handler_runs (place_rejected 1 "dispatch context unavailable").1 = []). by apply refused_runs.
      * exists SERVER_BUSY, "dispatch context unavailable"%string. split; [set_solver|]. exact P2.
Qed.

End dispatcher.

Arguments Dispatcher : clear implicits.
Arguments DispatchEnv : clear implicits.
Arguments Effect : clear implicits.

(** Rank of a session status in the order of privileges. *)
Definition status_rank (s : SessionStatus) : Z :=
  match s with kAny => 0 | kAuthenticated => 1 | kInRoom => 2 | kAdmin => 3 end.

(** ** Theorems *)

(** The dispatcher enforces the policies.  A message reaches its registered handler
    (inline, through the session strand or through the worker queue) with its own
    payload at most once, and only if it is registered, its transport is allowed
    and the session ranks at least as high as the policy requires; and when it does
    not reach it, the sender gets exactly one error response, unless the message id
    is not registered, in which case nothing happens and the caller is told. *)
Theorem dispatch_enforces_policy {H} (env : DispatchEnv H) (table_ : Dispatcher H) msg_id payload t :
  let '(effects, r) := dispatch env table_ msg_id payload t in
  match table_ !! msg_id with
  | None => r = inr false /\ effects = []
  | Some entry =>
      r = inr true
      /\ ((omap reaches_handler effects = [(de_handler entry, payload)]
           /\ transport_allows (transport (de_policy entry)) t = true
           /\ status_rank (required_state (de_policy entry)) <= status_rank (session_status env))
          \/ (omap reaches_handler effects = [] /\ length (errors effects) = 1%nat))
  end.
Proof.
  pose proof (dispatch_route env table_ msg_id payload t) as Hd.
  destruct (dispatch env table_ msg_id payload t) as [effects r].
  destruct (table_ !! msg_id) as [entry|]; [|by injection Hd as -> ->].
  assert (Hno : refused (effects, r) true ->
    r = inr true /\ omap reaches_handler effects = [] /\ length (errors effects) = 1%nat).
  { intros (H1 & H2 & code & message & _ & H3). cbn [fst snd] in *. by rewrite H3. }
  destruct Hd as [(Ht & Hs & Hr)|Hr]; [|destruct (Hno Hr); auto].
  assert (Hrank : status_rank (required_state (de_policy entry)) <= status_rank (session_status env)).
  { unfold satisfies_required_state in Hs. by destruct (required_state (de_policy entry)), (session_status env). }
  destruct Hr as [Hr|_ Hr|Hr|Hr]; [injection Hr as -> ->..|destruct (Hno Hr); auto]; (split; [done|left; split_and!; try done]).
  exact (proj1 (guard_reaches env (de_handler entry) payload 0)).
Qed.


(** The opcode table admits only what it must without authentication.  Among the
    messages of the game protocol, those that a session may send before it has
    authenticated are exactly the ones of the table without a state requirement;
    in particular sending chat, joining and leaving rooms, whispering and every
    query need an authenticated session; and UDP carries nothing but the bind
    handshake. *)
Theorem game_opcodes_guarded id :
  (transport_allows (transport (game_opcode_policy id)) kUdp = true
   <-> id = MSG_UDP_BIND_REQ \/ id = MSG_UDP_BIND_RES)
  /\ (satisfies_required_state (required_state (game_opcode_policy id)) kAny = false
      <-> id ∈ [MSG_CHAT_SEND; MSG_JOIN_ROOM; MSG_LEAVE_ROOM; MSG_WHISPER_REQ; MSG_ROOMS_REQ;
               MSG_ROOM_USERS_REQ; MSG_REFRESH_REQ])
  /\ (game_opcode_name id = EmptyString -> game_opcode_policy id = default_opcode_policy).
Proof.
  unfold game_opcode_policy, game_opcode_name.
  repeat match goal with |- context [id =? ?n] =>
    destruct (Z.eqb_spec id n) as [->|]; [by apply (bool_decide_unpack _); vm_compute|] end.
  split_and!; [split; [done|intros [|]; done]| |done].
  split; [done|]. rewrite !elem_of_cons, elem_of_nil. naive_solver.
Qed.
