(* ===== verification/Redis.v ===== *)
(** The part of the Redis client interface, [core/storage/redis/client.hpp], that the
    session directory and the instance registry call, and programs over it.

    The server behind the interface is not part of the sources: it is a type with a
    class of operations ([RedisServer]) and the documented behaviour of the commands
    as laws ([RedisLaws]): every command is atomic, a command that reports success
    had its documented effect, one that reports failure had none.  A client routine
    is a program that issues commands and continues with the replies, so that the
    calls of several processes can interleave between commands.  [gmap_redis] is a
    server that satisfies the laws. *)

From S2P Require Import Prelude.

Inductive RCmd :=
  | RGet (key : string)
  | RSetIfNotExists (key value : string) (ttl_sec : Z)
  | RSetIfEquals (key expected value : string) (ttl_sec : Z)
  | RDelIfEquals (key expected : string)
  | RSetEx (key value : string) (ttl_sec : Z)
  | RDel (key : string)
  | RScanKeys (pattern : string)
  | RMGet (keys : list string).

Inductive RReply :=
  | RValue (v : option string)
  | RBool (ok : bool)
  | RKeys (ks : option (list string))
  | RValues (vs : option (list (option string))).

(** ** The server *)

Class RedisServer (S : Type) := {
  redis_exec : RCmd -> S -> S * RReply;
  redis_view : S -> gmap string string;
}.

(** The documented behaviour: [view] is the set of live keys with their values. *)
Class RedisLaws (S : Type) `{RedisServer S} : Prop := {
  get_law k s : redis_view (redis_exec (RGet k) s).1 = redis_view s
    /\ ((redis_exec (RGet k) s).2 = RValue (redis_view s !! k)
        \/ (redis_exec (RGet k) s).2 = RValue None);
  set_nx_law k v ttl s :
    ((redis_exec (RSetIfNotExists k v ttl) s).2 = RBool true /\ redis_view s !! k = None
     /\ redis_view (redis_exec (RSetIfNotExists k v ttl) s).1 = <[k := v]> (redis_view s))
    \/ ((redis_exec (RSetIfNotExists k v ttl) s).2 = RBool false
        /\ redis_view (redis_exec (RSetIfNotExists k v ttl) s).1 = redis_view s);
  set_eq_law k e v ttl s :
    ((redis_exec (RSetIfEquals k e v ttl) s).2 = RBool true /\ redis_view s !! k = Some e
     /\ redis_view (redis_exec (RSetIfEquals k e v ttl) s).1 = <[k := v]> (redis_view s))
    \/ ((redis_exec (RSetIfEquals k e v ttl) s).2 = RBool false
        /\ redis_view (redis_exec (RSetIfEquals k e v ttl) s).1 = redis_view s);
  del_eq_law k e s :
    ((redis_exec (RDelIfEquals k e) s).2 = RBool true /\ redis_view s !! k = Some e
     /\ redis_view (redis_exec (RDelIfEquals k e) s).1 = delete k (redis_view s))
    \/ ((redis_exec (RDelIfEquals k e) s).2 = RBool false
        /\ redis_view (redis_exec (RDelIfEquals k e) s).1 = redis_view s);
}.

(** The patterns in use: a text without the special characters of a pattern, and a star. *)
Definition special_char (c : Ascii.ascii) : bool :=
  existsb (fun n => Nat.eqb (Ascii.nat_of_ascii c) n) [42; 63; 91; 92; 93]%nat.

Definition plain_text (p : string) : bool :=
  forallb (fun c => negb (special_char c)) (String.list_ascii_of_string p).

Fixpoint strip_star (pattern : string) : string :=
  match pattern with
  | EmptyString | String _ EmptyString => EmptyString
  | String c pattern => String c (strip_star pattern)
  end.

Lemma strip_star_app p : strip_star (p +:+ "*") = p.
Proof. induction p as [|c p IH]; [done|]. simpl. rewrite IH. by destruct p. Qed.

(** The commands of the instance registry: a scan by prefix reports the live keys with that
    prefix, possibly more than once. *)
Class RegistryLaws (S : Type) `{RedisServer S} : Prop := {
  registry_get_law k s : redis_view (redis_exec (RGet k) s).1 = redis_view s
    /\ (redis_exec (RGet k) s).2 = RValue (redis_view s !! k);
  setex_law k v ttl s : (redis_exec (RSetEx k v ttl) s).2 = RBool true
    /\ redis_view (redis_exec (RSetEx k v ttl) s).1 = <[k := v]> (redis_view s);
  del_law k s : (redis_exec (RDel k) s).2 = RBool true
    /\ redis_view (redis_exec (RDel k) s).1 = delete k (redis_view s);
  scan_law p s : plain_text p = true ->
    redis_view (redis_exec (RScanKeys (p +:+ "*")) s).1 = redis_view s
    /\ exists ks, (redis_exec (RScanKeys (p +:+ "*")) s).2 = RKeys (Some ks)
       /\ forall k, k ∈ ks <-> is_Some (redis_view s !! k) /\ String.prefix p k = true;
  mget_law ks s : redis_view (redis_exec (RMGet ks) s).1 = redis_view s
    /\ ((redis_exec (RMGet ks) s).2 = RValues (Some ((fun k => redis_view s !! k) <$> ks))
        \/ (redis_exec (RMGet ks) s).2 = RValues None);
}.

(** A server that answers every command of the directory: no connection is lost. *)
Class RedisReliable (S : Type) `{RedisServer S} : Prop := {
  get_reliable k s : (redis_exec (RGet k) s).2 = RValue (redis_view s !! k);
  set_nx_reliable k v ttl s :
    redis_view s !! k = None -> (redis_exec (RSetIfNotExists k v ttl) s).2 = RBool true;
}.

(** *** A server in memory, without expiry *)

Definition gmap_exec (c : RCmd) (m : gmap string string) : gmap string string * RReply :=
  match c with
  | RGet k => (m, RValue (m !! k))
  | RSetIfNotExists k v _ =>
      match m !! k with None => (<[k := v]> m, RBool true) | Some _ => (m, RBool false) end
  | RSetIfEquals k e v _ =>
      if decide (m !! k = Some e) then (<[k := v]> m, RBool true) else (m, RBool false)
  | RDelIfEquals k e =>
      if decide (m !! k = Some e) then (delete k m, RBool true) else (m, RBool false)
  | RSetEx k v _ => (<[k := v]> m, RBool true)
  | RDel k => (delete k m, RBool true)
  | RScanKeys pattern => (m, RKeys (Some (List.filter (String.prefix (strip_star pattern)) (map fst (map_to_list m)))))
  | RMGet ks => (m, RValues (Some (map (fun k => m !! k) ks)))
  end.

#[export] Instance gmap_redis : RedisServer (gmap string string) :=
  { redis_exec := gmap_exec; redis_view := fun m => m }.

#[export] Instance gmap_laws : RedisLaws (gmap string string).
Proof.
  split; intros; simpl.
  - auto.
  - destruct (s !! k) eqn:Hk; simpl; auto.
  - case_decide; simpl; auto.
  - case_decide; simpl; auto.
Qed.

#[export] Instance gmap_reliable : RedisReliable (gmap string string).
Proof. split; intros; simpl in *; [done|]. by rewrite H. Qed.

#[export] Instance gmap_registry_laws : RegistryLaws (gmap string string).
Proof.
  split; intros; simpl; auto. split; [done|]. eexists; split; [done|]. intros k. rewrite strip_star_app.
  rewrite list_elem_of_In, filter_In, <- list_elem_of_In, list_elem_of_fmap.
  split; intros [Hk ?]; (split; [|done]).
  - destruct Hk as ([k' v] & -> & Hk%elem_of_map_to_list). by exists v.
  - destruct Hk as [v Hv]. exists (k, v). by rewrite elem_of_map_to_list.
Qed.

(** ** Programs and interleavings *)

Inductive prog (A : Type) := Ret (a : A) | Do (c : RCmd) (k : RReply -> prog A).
Arguments Ret {A}.
Arguments Do {A}.

Fixpoint prog_bind {A B} (p : prog A) (f : A -> prog B) : prog B :=
  match p with Ret a => f a | Do c k => Do c (fun r => prog_bind (k r) f) end.

#[export] Instance prog_ret : MRet prog := @Ret.
#[export] Instance prog_mbind : MBind prog := fun A B f p => prog_bind p f.

(** A program run alone. *)
Fixpoint run {S} `{RedisServer S} {A} (p : prog A) (s : S) : S * A :=
  match p with Ret a => (s, a) | Do c k => let '(s, r) := redis_exec c s in run (k r) s end.

(** Several programs that share one server: a step is one command of one of them. *)
Inductive pool_step {S} `{RedisServer S} {A} : S * list (prog A) -> S * list (prog A) -> Prop :=
  | pool_step_intro s ps i c k :
      ps !! i = Some (Do c k) ->
      pool_step (s, ps) ((redis_exec c s).1, <[i := k (redis_exec c s).2]> ps).

(** A schedule is the list of the programs that move; an index that is out of range or
    whose program has finished does nothing. *)
Fixpoint run_schedule {S} `{RedisServer S} {A} (sched : list nat) (s : S) (ps : list (prog A)) :
    S * list (prog A) :=
  match sched with
  | [] => (s, ps)
  | i :: sched =>
      match ps !! i with
      | Some (Do c k) =>
          let '(s, r) := redis_exec c s in run_schedule sched s (<[i := k r]> ps)
      | _ => run_schedule sched s ps
      end
  end.

Lemma run_schedule_steps {S} `{RedisServer S} {A} sched (s : S) (ps : list (prog A)) :
  rtc pool_step (s, ps) (run_schedule sched s ps).
Proof.
  revert s ps. induction sched as [|i sched IH]; intros s ps; [done|]. cbn [run_schedule].
  destruct (ps !! i) as [[a|c k]|] eqn:Hi; auto.
  destruct (redis_exec c s) as [s' r] eqn:Hex. eapply rtc_l; [by apply (pool_step_intro s ps i c k)|].
  rewrite Hex. apply IH.
Qed.

Lemma run_bind {S} `{RedisServer S} {A B} (p : prog A) (f : A -> prog B) (s : S) :
  run (prog_bind p f) s = let '(s, a) := run p s in run (f a) s.
Proof.
  revert s. induction p as [a|c k IH]; intros s; [done|]. cbn [prog_bind run].
  destruct (redis_exec c s) as [s' r]. apply IH.
Qed.

Lemma run_mbind {S} `{RedisServer S} {A B} (p : prog A) (f : A -> prog B) (s : S) :
  run (p ≫= f) s = let '(s, a) := run p s in run (f a) s.
Proof. apply run_bind. Qed.
