(* ===== verification/SessionDirectory.v ===== *)
(** Sticky routing of clients to backends, [gateway/session_directory.hpp] and
    [session_directory.cpp]: a local cache with expiry over Redis.

    A method is a program over Redis ([Redis.prog]) that returns the new cache with its
    result.  The two readings of [steady_clock] of a call are its arguments: [now]
    for the lookup, [later] for the entry it writes (at most one per call); times
    are nanoseconds. *)

From S2P Require Import Prelude Redis.

(** ** Definitions *)

Record CacheEntry := mkCacheEntry { ce_backend : string; ce_expires : Z }.

Abbreviation cache := (gmap string CacheEntry).

Record SessionDirectory := mkSessionDirectory {
  sd_has_redis : bool;
  sd_key_prefix : string;
  sd_ttl : Z;
}.

(** [key_prefix_.back() != '/'] of a non-empty string. *)
Fixpoint ends_with_slash (s : string) : bool :=
  match s with
  | EmptyString => false
  | String c EmptyString => byte_of_ascii c =? 47
  | String _ rest => ends_with_slash rest
  end.

Definition new_SessionDirectory (has_redis : bool) (key_prefix : string) (ttl : Z) : SessionDirectory :=
  let key_prefix := if decide (key_prefix = EmptyString) then "gateway/session/" else key_prefix in
  let key_prefix := if negb (ends_with_slash key_prefix) then key_prefix +:+ "/" else key_prefix in
  let ttl := if ttl <=? 0 then 30 else ttl in
  mkSessionDirectory has_redis key_prefix ttl.

Section methods.
Context (d : SessionDirectory).

Definition make_key (client_id : string) : string := sd_key_prefix d +:+ client_id.

Definition ttl_sec : Z := u32 (sd_ttl d).

Definition cache_put (client_id backend : string) (later : Z) (c : cache) : cache :=
  <[client_id := mkCacheEntry backend (later + sd_ttl d * 1000000000)]> c.

Definition find_backend (client_id : string) (now later : Z) (c : cache) :
    prog (cache * option string) :=
  if decide (client_id = EmptyString) then Ret (c, None)
  else
    let '(hit, c) :=
      match c !! client_id with
      | Some entry =>
          if now <? ce_expires entry then (Some (ce_backend entry), c)
          else (None, delete client_id c)
      | None => (None, c)
      end in
    match hit with
    | Some backend => Ret (c, Some backend)
    | None =>
        if negb (sd_has_redis d) then Ret (c, None)
        else
          Do (RGet (make_key client_id)) (fun r =>
            match r with
            | RValue (Some value) =>
                if decide (value = EmptyString) then Ret (c, None)
                else Ret (cache_put client_id value later c, Some value)
            | _ => Ret (c, None)
            end)
    end.

Definition ensure_backend (client_id desired_backend : string) (now later : Z) (c : cache) :
    prog (cache * option string) :=
  if decide (client_id = EmptyString \/ desired_backend = EmptyString) then Ret (c, None)
  else if negb (sd_has_redis d) then
    Ret (cache_put client_id desired_backend later c, Some desired_backend)
  else
    '(c, found) ← find_backend client_id now later c;
    match found with
    | Some existing =>
        if decide (existing = desired_backend) then
          Do (RSetIfEquals (make_key client_id) desired_backend desired_backend ttl_sec) (fun _ =>
            Ret (c, Some existing))
        else Ret (c, Some existing)
    | None =>
        let key := make_key client_id in
        Do (RSetIfNotExists key desired_backend ttl_sec) (fun r =>
          match r with
          | RBool true => Ret (cache_put client_id desired_backend later c, Some desired_backend)
          | _ =>
              Do (RGet key) (fun r =>
                match r with
                | RValue (Some current) =>
                    if decide (current = EmptyString)
                    then Ret (cache_put client_id desired_backend later c, Some desired_backend)
                    else Ret (cache_put client_id current later c, Some current)
                | _ => Ret (cache_put client_id desired_backend later c, Some desired_backend)
                end)
          end)
    end.

Definition refresh_backend (client_id backend_id : string) (later : Z) (c : cache) : prog cache :=
  if decide (client_id = EmptyString \/ backend_id = EmptyString) then Ret c
  else if sd_has_redis d then
    Do (RSetIfEquals (make_key client_id) backend_id backend_id ttl_sec) (fun _ =>
      Ret (cache_put client_id backend_id later c))
  else Ret (cache_put client_id backend_id later c).

Definition release_backend (client_id backend_id : string) (c : cache) : prog cache :=
  if decide (client_id = EmptyString \/ backend_id = EmptyString) then Ret c
  else
    let c := match c !! client_id with
             | Some entry => if decide (ce_backend entry = backend_id) then delete client_id c else c
             | None => c
             end in
    if sd_has_redis d then Do (RDelIfEquals (make_key client_id) backend_id) (fun _ => Ret c)
    else Ret c.

End methods.

(** ** Concurrent assignment *)

Section agreement.
Context {S : Type} `{RedisLaws S, !RedisReliable S}.
Context (d : SessionDirectory) (Hredis : sd_has_redis d = true).
Context (client : string) (Hclient : client <> EmptyString).

Let key := make_key d client.

(** What a gateway in the middle of [ensure_backend] may still do, when the key
    holds [value] (a non-empty string) or nothing. *)
Inductive ensuring : option string -> prog (cache * option string) -> Prop :=
  | ens_start v desired now later c :
      desired <> EmptyString -> c !! client = None ->
      ensuring v (ensure_backend d client desired now later c)
  | ens_nx v desired c later :
      desired <> EmptyString ->
      ensuring v (Do (RSetIfNotExists key desired (ttl_sec d)) (fun r =>
          match r with
          | RBool true => Ret (cache_put d client desired later c, Some desired)
          | _ =>
              Do (RGet key) (fun r =>
                match r with
                | RValue (Some current) =>
                    if decide (current = EmptyString)
                    then Ret (cache_put d client desired later c, Some desired)
                    else Ret (cache_put d client current later c, Some current)
                | _ => Ret (cache_put d client desired later c, Some desired)
                end)
          end))
  | ens_get b desired c later :
      ensuring (Some b) (Do (RGet key) (fun r =>
                match r with
                | RValue (Some current) =>
                    if decide (current = EmptyString)
                    then Ret (cache_put d client desired later c, Some desired)
                    else Ret (cache_put d client current later c, Some current)
                | _ => Ret (cache_put d client desired later c, Some desired)
                end))
  | ens_renew b c : 
      ensuring (Some b) (Do (RSetIfEquals key b b (ttl_sec d)) (fun _ => Ret (c, Some b)))
  | ens_done b c : ensuring (Some b) (Ret (c, Some b)).

Lemma ensuring_mono b p : ensuring None p -> ensuring (Some b) p.
Proof. inversion 1; subst; [by apply ens_start|by apply ens_nx]. Qed.

(** One command of a gateway, against the value of the key before and after. *)
Lemma ensuring_step s c k :
  (forall b, redis_view s !! key = Some b -> b <> EmptyString) ->
  ensuring (redis_view s !! key) (Do c k) ->
  let s' := (redis_exec c s).1 in
  (redis_view s' !! key = redis_view s !! key
   \/ redis_view s !! key = None /\ exists b, b <> EmptyString /\ redis_view s' !! key = Some b)
  /\ ensuring (redis_view s' !! key) (k (redis_exec c s).2).
Proof.
  intros Hv Hens. cbv zeta. inversion Hens as [v desired now later ca Hd Hc Hv' He|
    v desired ca later Hd Hv' He|b desired ca later Hv' He|b ca Hv' He|]; subst.
  - (* the lookup of find_backend *)
    unfold ensure_backend, find_backend in He. rewrite decide_False in He by naive_solver.
    rewrite Hredis, decide_False, Hc in He by done. cbn in He.
    injection He as <- <-. destruct (get_law (make_key d client) s) as [-> _]. split; [auto|].
    rewrite get_reliable. fold key. destruct (redis_view s !! key) as [b|] eqn:Hb; [|by apply ens_nx].
    rewrite decide_False by auto. cbn. case_decide; [subst|]; constructor.
  - destruct (set_nx_law key desired (ttl_sec d) s) as [(-> & Hn & ->)|(Hr & Hs)].
    + rewrite lookup_insert_eq. split; [right; eauto|constructor].
    + rewrite Hr, Hs. split; [auto|]. destruct (redis_view s !! key) as [b|] eqn:Hb; [constructor|].
      by rewrite set_nx_reliable in Hr.
  - destruct (get_law key s) as [-> _]. split; [auto|]. rewrite get_reliable, <- Hv'.
    rewrite decide_False by auto. constructor.
  - destruct (set_eq_law key b b (ttl_sec d) s) as [(_ & _ & ->)|(_ & ->)].
    + rewrite lookup_insert_eq. split; [auto|constructor].
    + rewrite <- Hv'. split; [auto|constructor].
Qed.

Definition pool_inv (st : S * list (prog (cache * option string))) : Prop :=
  (forall b, redis_view st.1 !! key = Some b -> b <> EmptyString)
  /\ Forall (ensuring (redis_view st.1 !! key)) st.2.

Lemma pool_inv_step st st' : pool_step st st' -> pool_inv st -> pool_inv st'.
Proof.
  intros [s ps i c k Hi] [Hv Hall]. unfold pool_inv. cbn [fst snd] in *.
  pose proof (Forall_lookup_1 _ _ _ _ Hall Hi) as Hp.
  destruct (ensuring_step s c k Hv Hp) as [Hcase Hens]. split.
  - intros b Hb. destruct Hcase as [He|(_ & b' & Hb' & He)]; rewrite He in Hb; [auto|by simplify_eq].
  - apply Forall_insert; [|done]. destruct Hcase as [He|(Hn & b & _ & He)]; rewrite He; [done|].
    rewrite Hn in Hall. eapply Forall_impl; [exact Hall|]. apply ensuring_mono.
Qed.

Lemma pool_inv_rtc st st' : rtc pool_step st st' -> pool_inv st -> pool_inv st'.
Proof. induction 1; eauto using pool_inv_step. Qed.

Lemma pool_inv_done s ps c r :
  pool_inv (s, ps) -> Ret (c, r) ∈ ps -> exists b, r = Some b /\ redis_view s !! key = Some b.
Proof.
  intros [_ Hall] Hin. rewrite Forall_forall in Hall. specialize (Hall _ Hin). cbn [fst snd] in Hall.
  inversion Hall as [v desired now later ca Hd Hc Hv He|v desired ca later Hd Hv He|
    b desired ca later Hv He|b ca Hv He|b ca Hv He]; subst; [|eauto].
  unfold ensure_backend, find_backend in He. rewrite decide_False in He by naive_solver.
  rewrite Hredis, decide_False, Hc in He by done. discriminate He.
Qed.

(** Gateways agree.  Any number of gateways call [ensure_backend] for the same client at
    the same time, each with its own candidate and none with a cached entry; their
    Redis commands interleave in any order on a server that answers and does not
    expire the key meanwhile.  Then all calls that have returned gave the same
    backend, and it is the one stored under the key of the client. *)
Theorem ensure_backend_agreement s ps st' :
  (forall b, redis_view s !! key = Some b -> b <> EmptyString) ->
  Forall (fun p => exists desired now later c, desired <> EmptyString /\ c !! client = None
    /\ p = ensure_backend d client desired now later c) ps ->
  rtc pool_step (s, ps) st' ->
  forall c1 r1 c2 r2, Ret (c1, r1) ∈ st'.2 -> Ret (c2, r2) ∈ st'.2 ->
  r1 = r2 /\ is_Some r1 /\ redis_view st'.1 !! key = r1.
Proof.
  intros Hv Hps Hrtc c1 r1 c2 r2 H1 H2.
  assert (Hinv : pool_inv st').
  { apply (pool_inv_rtc _ _ Hrtc). split; [done|]. eapply Forall_impl; [exact Hps|].
    intros p (desired & now & later & c & ? & ? & ->). by apply ens_start. }
  destruct st' as [s' ps']. cbn [fst snd] in *.
  destruct (pool_inv_done s' ps' c1 r1 Hinv H1) as (b1 & -> & Hb1).
  destruct (pool_inv_done s' ps' c2 r2 Hinv H2) as (b2 & -> & Hb2).
  rewrite Hb1 in Hb2. simplify_eq. split_and!; [done|eauto|done].
Qed.

End agreement.

Lemma ensure_backend_agreement_witness :
  let d := new_SessionDirectory true "gw" 60 in
  let ps := [ensure_backend d "alice" "b1" 0 1 ∅; ensure_backend d "alice" "b2" 0 1 ∅] in
  let st := run_schedule [0; 1; 1; 0; 0]%nat (∅ : gmap string string) ps in
  st.2 = [Ret (cache_put d "alice" "b2" 1 ∅, Some "b2"); Ret (cache_put d "alice" "b2" 1 ∅, Some "b2")]
  /\ redis_view st.1 !! make_key d "alice" = Some "b2".
Proof.
  intros d ps st.
  assert (Hst : st.2 = [Ret (cache_put d "alice" "b2" 1 ∅, Some "b2");
    Ret (cache_put d "alice" "b2" 1 ∅, Some "b2")]) by (vm_compute; reflexivity).
  split; [exact Hst|].
  apply (ensure_backend_agreement d eq_refl "alice" ltac:(done) (∅ : gmap string string) ps st)
    with (c1 := cache_put d "alice" "b2" 1 ∅) (c2 := cache_put d "alice" "b2" 1 ∅) (r2 := Some "b2").
  - intros b. simpl. by rewrite lookup_empty.
  - apply Forall_cons_2; [by exists "b1", 0, 1, ∅|]. apply Forall_cons_2; [by exists "b2", 0, 1, ∅|constructor].
  - apply run_schedule_steps.
  - rewrite Hst. set_solver.
  - rewrite Hst. set_solver.
Defined.

Section alone.
Context {S : Type} `{RedisLaws S, !RedisReliable S}.
Context (d : SessionDirectory) (Hredis : sd_has_redis d = true).
Context (client : string) (Hclient : client <> EmptyString).

Lemma find_cached now later c entry (s : S) :
  c !! client = Some entry -> now < ce_expires entry ->
  run (find_backend d client now later c) s = (s, (c, Some (ce_backend entry))).
Proof.
  intros Hc Hn. unfold find_backend. rewrite decide_False, Hc by done.
  by rewrite (proj2 (Z.ltb_lt _ _) Hn).
Qed.

Lemma find_missed now later c (s : S) :
  c !! client = None -> (forall b, redis_view s !! make_key d client = Some b -> b <> EmptyString) ->
  exists s', redis_view s' = redis_view s /\ run (find_backend d client now later c) s
    = (s', match redis_view s !! make_key d client with
           | Some b => (cache_put d client b later c, Some b) | None => (c, None) end).
Proof.
  intros Hc Hv. unfold find_backend. rewrite decide_False, Hc, Hredis by done. cbn [negb run].
  destruct (get_law (make_key d client) s) as [Hgv _]. pose proof (get_reliable (make_key d client) s) as Hgr.
  destruct (redis_exec _ s) as [s1 r1]. cbn [fst snd] in *. subst r1. exists s1. split; [done|].
  destruct (redis_view s !! make_key d client) as [b|]; [|done]. by rewrite decide_False by auto.
Qed.

Lemma ensure_missed desired now later c (s : S) :
  desired <> EmptyString -> c !! client = None ->
  (forall b, redis_view s !! make_key d client = Some b -> b <> EmptyString) ->
  let b := default desired (redis_view s !! make_key d client) in
  exists s', run (ensure_backend d client desired now later c) s
      = (s', (cache_put d client b later c, Some b))
    /\ redis_view s' = <[make_key d client := b]> (redis_view s).
Proof.
  intros Hd Hc Hv. unfold ensure_backend. rewrite decide_False, Hredis by naive_solver. cbn [negb].
  unfold mbind, prog_mbind. rewrite run_bind.
  destruct (find_missed now later c s Hc Hv) as (s1 & Hs1 & ->). cbv zeta.
  destruct (redis_view s !! make_key d client) as [b|] eqn:Hb; cbn [default].
  - case_decide; [|exists s1; split; [done|by rewrite Hs1, insert_id]]. subst desired. cbn [run].
    destruct (set_eq_law (make_key d client) b b (ttl_sec d) s1) as [(_ & _ & Hs2)|(_ & Hs2)];
      destruct (redis_exec _ s1) as [s2 r2]; exists s2; (split; [done|]); cbn [fst] in Hs2;
      rewrite Hs2, Hs1; [done|by rewrite insert_id].
  - cbn [run]. pose proof (set_nx_reliable (make_key d client) desired (ttl_sec d) s1) as Hnx.
    rewrite Hs1 in Hnx. specialize (Hnx Hb).
    destruct (set_nx_law (make_key d client) desired (ttl_sec d) s1) as [(_ & _ & Hs2)|(Hf & _)];
      [|congruence].
    destruct (redis_exec _ s1) as [s2 r2]. cbn [fst snd] in *. subst r2. exists s2.
    split; [done|]. by rewrite Hs2, Hs1.
Qed.

(** [ensure_backend], alone, on a client that is not cached: it returns the backend
    that is stored for the client, or stores and returns the candidate; afterwards
    the key holds what was returned, no other key changed, the cache remembers it
    for the TTL, and a lookup in that time gives it again, here and on a gateway
    with an empty cache. *)
Theorem ensure_backend_sticky desired now later c (s : S) :
  desired <> EmptyString -> c !! client = None ->
  (forall b, redis_view s !! make_key d client = Some b -> b <> EmptyString) ->
  let '(s1, (c1, r)) := run (ensure_backend d client desired now later c) s in
  let b := default desired (redis_view s !! make_key d client) in
  r = Some b /\ redis_view s1 = <[make_key d client := b]> (redis_view s)
  /\ (forall now' later' s2, now' < later + sd_ttl d * 1000000000 ->
        run (find_backend d client now' later' c1) s2 = (s2 : S, (c1, Some b)))
  /\ (forall now' later', (run (find_backend d client now' later' ∅) s1).2.2 = Some b).
Proof.
  intros Hd Hc Hv. destruct (ensure_missed desired now later c s Hd Hc Hv) as (s1 & -> & Hs1).
  cbv zeta. set (b := default desired _) in *. split_and!; [done|done| |].
  - intros now' later' s2 Hlt. apply (find_cached now' later' (cache_put d client b later c)
      (mkCacheEntry b (later + sd_ttl d * 1000000000))); [apply lookup_insert_eq|done].
  - intros now' later'. destruct (find_missed now' later' ∅ s1) as (s2 & _ & ->).
    + apply lookup_empty.
    + rewrite Hs1, lookup_insert_eq. intros b' [= <-]. subst b.
      destruct (redis_view s !! make_key d client) eqn:Hb; [by apply Hv|done].
    + by rewrite Hs1, lookup_insert_eq.
Qed.

End alone.

Lemma ensure_backend_sticky_witness :
  let d := new_SessionDirectory true EmptyString 0 in
  let '(s1, (c1, r)) := run (ensure_backend d "alice" "b1" 0 1 ∅) (∅ : gmap string string) in
  r = Some "b1" /\ (run (find_backend d "alice" 5 6 c1) s1).2.2 = Some "b1".
Proof.
  intros d.
  pose proof (ensure_backend_sticky (S := gmap string string) d eq_refl "alice" ltac:(done) "b1" 0 1 ∅ ∅
    ltac:(done) (lookup_empty _)) as H.
  specialize (H ltac:(intros b; simpl; by rewrite lookup_empty)).
  destruct (run _ _) as [s1 [c1 r]]. destruct H as (-> & _ & Hfind & _). split; [done|].
  by rewrite Hfind.
Defined.

(** The assignment is not atomic.  Gateway 1 assigns b1; gateway 2, which looked the
    client up before, finds the key taken; b1 is released before gateway 2 reads
    the key back, so gateway 2 returns its own candidate b2 without storing it; and
    gateway 3 then assigns b3: two gateways route the same client to different
    backends. *)
Theorem ensure_backend_race :
  let d := new_SessionDirectory true EmptyString 30 in
  let release := c ← release_backend d "alice" "b1" ∅; Ret (c, None) in
  let ps := [ensure_backend d "alice" "b1" 0 1 ∅; ensure_backend d "alice" "b2" 0 1 ∅; release;
             ensure_backend d "alice" "b3" 0 1 ∅] in
  let st := run_schedule [0; 1; 0; 1; 2; 1; 3; 3]%nat (∅ : gmap string string) ps in
  map (fun p => match p with Ret (_, r) => r | _ => None end) st.2
  = [Some "b1"; Some "b2"; None; Some "b3"]
  /\ redis_view st.1 !! make_key d "alice" = Some "b3".
Proof. by vm_compute. Qed.
