(* ===== verification/AdminAuth.v ===== *)
(** Signed administration commands, [core/security/admin_command_auth.hpp] and
    [admin_command_auth.cpp]: the canonical form of the fields, signing, and the
    verifier with its time window and nonce memory.

    HMAC-SHA256 comes from OpenSSL and is a parameter, a function of secret and data
    that may fail.  An [unordered_map] is a finite map; the order of its iteration
    does not matter because the entries are sorted by key. *)

From Stdlib Require Import Sorted.
From stdpp Require Import sorting.
From S2P Require Import Prelude Text.

(** ** Definitions *)

Abbreviation fields_t := (gmap string string).

Definition entry_line (e : string * string) : chars :=
  chars_of e.1 ++ [ascii_of_byte 61] ++ chars_of e.2.

(** The loop that concatenates [key=value] with a newline between entries. *)
Definition kv_lines (entries : list (string * string)) : chars := join_sep 10 (map entry_line entries).

Definition signed_entries (fields : fields_t) : list (string * string) :=
  merge_sort key_le (map_to_list (delete "signature" fields)).

Definition canonical_signing_data (fields : fields_t) : chars := kv_lines (signed_entries fields).

Definition to_kv_payload (fields : fields_t) : chars :=
  kv_lines (merge_sort key_le (map_to_list fields)).

(** The loop of [parse_u64], with the value so far. *)
Fixpoint parse_u64_loop (text : chars) (value : Z) : option Z :=
  match text with
  | [] => Some value
  | c :: rest =>
      let b := byte_of_ascii c in
      if (b <? 48) || (57 <? b) then None
      else
        let digit := b - 48 in
        if (2 ^ 64 - 1 - digit) / 10 <? value then None
        else parse_u64_loop rest (u64 (u64 (value * 10) + digit))
  end.

Definition parse_u64 (text : chars) : option Z :=
  match text with [] => None | _ => parse_u64_loop text 0 end.

Definition signatures_equal (lhs rhs : chars) : bool :=
  if negb (Nat.eqb (length lhs) (length rhs)) then false
  else if bool_decide (lhs = []) then true
  else bool_decide (lhs = rhs).

Definition kHex (n : Z) : Ascii.ascii :=
  if n <? 10 then ascii_of_byte (48 + n) else ascii_of_byte (87 + n).

Definition to_hex (digest : list Z) : chars :=
  concat (map (fun byte => [kHex (Z.land (Z.shiftr byte 4) 0x0F); kHex (Z.land byte 0x0F)]) digest).

(** [make_nonce] from the two draws of the random generator. *)
Definition make_nonce (value0 value1 : Z) : chars :=
  let bytes value := map (fun j => u8 (Z.land (Z.shiftr value (j * 8)) 0xFF)) [0; 1; 2; 3; 4; 5; 6; 7] in
  to_hex (bytes value0 ++ bytes value1).

Inductive VerifyResult :=
  | kOk | kMissingField | kInvalidIssuedAt | kExpired | kFuture | kSignatureMismatch | kReplay
  | kSecretNotConfigured.

#[export] Instance VerifyResult_eq_dec : EqDecision VerifyResult.
Proof. solve_decision. Defined.

Record VerifyOptions := mkVerifyOptions { ttl_ms : Z; future_skew_ms : Z }.
Definition default_VerifyOptions : VerifyOptions := mkVerifyOptions 60000 5000.

Record Verifier := mkVerifier {
  secret_ : chars;
  options_ : VerifyOptions;
  seen_nonces_ : gmap string Z;
}.

Definition new_Verifier (secret : chars) (options : VerifyOptions) : Verifier :=
  mkVerifier secret options ∅.

Definition verifier_enabled (v : Verifier) : bool := negb (bool_decide (secret_ v = [])).

Definition verify_result_to_string (r : VerifyResult) : string :=
  match r with
  | kOk => "ok" | kMissingField => "missing_field" | kInvalidIssuedAt => "invalid_issued_at"
  | kExpired => "expired" | kFuture => "future" | kSignatureMismatch => "signature_mismatch"
  | kReplay => "replay" | kSecretNotConfigured => "secret_not_configured"
  end.

Section signing.
(** HMAC-SHA256 of OpenSSL: key, data; [None] when it returns a null pointer. *)
Context (HMAC : chars -> chars -> option (list Z)).

Definition sign_fields (fields : fields_t) (secret : chars) : chars :=
  match secret with
  | [] => []
  | _ =>
      let signing_data := canonical_signing_data fields in
      match signing_data with
      | [] => []
      | _ => match HMAC secret signing_data with None => [] | Some digest => to_hex digest end
      end
  end.

(** [nonce] is the argument, or the one [make_nonce] drew when it was empty. *)
Definition append_signature_fields (fields : fields_t) (secret : chars) (issued_at_ms : Z) (nonce : string) :
    fields_t * bool :=
  match secret with
  | [] => (fields, false)
  | _ =>
      let fields := <["issued_at" := String.string_of_list_ascii (decimal issued_at_ms)]> fields in
      let fields := <["nonce" := nonce]> fields in
      let fields := delete "signature" fields in
      let signature := sign_fields fields secret in
      match signature with
      | [] => (fields, false)
      | _ => (<["signature" := String.string_of_list_ascii signature]> fields, true)
      end
  end.

(** The loop that forgets expired nonces. *)
Definition forget_expired (ttl now_ms : Z) (seen : gmap string Z) : gmap string Z :=
  filter (fun kv => negb (u64 (kv.2 + ttl) <? now_ms) = true) seen.

Definition verify (fields : fields_t) (now_ms : Z) (v : Verifier) : Verifier * VerifyResult :=
  if bool_decide (secret_ v = []) then (v, kSecretNotConfigured)
  else
    match fields !! "issued_at", fields !! "nonce", fields !! "signature" with
    | Some issued_at, Some nonce, Some signature =>
        if bool_decide (issued_at = EmptyString) || bool_decide (nonce = EmptyString)
           || bool_decide (signature = EmptyString) then (v, kMissingField)
        else
          match parse_u64 (chars_of issued_at) with
          | None => (v, kInvalidIssuedAt)
          | Some issued_at_ms =>
              if u64 (now_ms + future_skew_ms (options_ v)) <? issued_at_ms then (v, kFuture)
              else if u64 (issued_at_ms + ttl_ms (options_ v)) <? now_ms then (v, kExpired)
              else
                let expected := sign_fields fields (secret_ v) in
                if bool_decide (expected = []) || negb (signatures_equal expected (chars_of signature))
                then (v, kSignatureMismatch)
                else
                  let seen := forget_expired (ttl_ms (options_ v)) now_ms (seen_nonces_ v) in
                  if bool_decide (is_Some (seen !! nonce)) then
                    (mkVerifier (secret_ v) (options_ v) seen, kReplay)
                  else
                    (mkVerifier (secret_ v) (options_ v) (<[nonce := issued_at_ms]> seen), kOk)
          end
    | _, _, _ => (v, kMissingField)
    end.

End signing.

(** ** Lemmas *)

Lemma digit10_byte c :
  digit10 c -> 48 <= byte_of_ascii c <= 57 /\ digit_value c = Some (byte_of_ascii c - 48).
Proof.
  intros (d & Hd & Hlt). unfold digit_value in *. repeat case_match; simplify_eq; zbool; try lia; split; done || lia.
Qed.

Lemma value10_ge ds acc : 0 <= acc -> Forall digit10 ds -> acc <= value10 ds acc.
Proof.
  intros Ha Hds. revert acc Ha. induction Hds as [|c ds Hc _ IH]; intros acc Ha; [simpl; lia|].
  destruct (digit10_byte c Hc) as [? Hd]. unfold value10 in *. simpl. rewrite Hd. simpl.
  specialize (IH (acc * 10 + (byte_of_ascii c - 48)) ltac:(lia)). lia.
Qed.

Lemma parse_u64_loop_digits ds value :
  0 <= value -> Forall digit10 ds -> value10 ds value < 2 ^ 64 ->
  parse_u64_loop ds value = Some (value10 ds value).
Proof.
  intros Hv Hds. revert value Hv. induction Hds as [|c ds Hc Hds IH]; intros value Hv Hlt; [done|].
  destruct (digit10_byte c Hc) as [Hr Hd]. cbn [parse_u64_loop].
  assert (Hstep : value10 (c :: ds) value = value10 ds (value * 10 + (byte_of_ascii c - 48)))
    by (unfold value10; simpl; by rewrite Hd).
  rewrite Hstep in *. pose proof (value10_ge ds (value * 10 + (byte_of_ascii c - 48)) ltac:(lia) Hds).
  destruct (Z.ltb_spec (byte_of_ascii c) 48), (Z.ltb_spec 57 (byte_of_ascii c)); try lia. cbn [orb].
  destruct (Z.ltb_spec ((2 ^ 64 - 1 - (byte_of_ascii c - 48)) / 10) value); [zlia|].
  rewrite (wrap_id 64 (value * 10)), wrap_id by (widths; lia). by apply IH; [lia|].
Qed.

Lemma parse_u64_decimal n : fits 64 n -> parse_u64 (decimal n) = Some n.
Proof.
  intros [H0 H1]. destruct (decimal_digits n H0) as (Hds & Hv & Hne).
  unfold parse_u64. destruct (decimal n) as [|c ds]; [done|].
  rewrite parse_u64_loop_digits; [by rewrite Hv|lia|done|by rewrite Hv].
Qed.

(** A text without the separator in front of it determines both sides. *)
Lemma app_sep_inj sep k1 k2 v1 v2 :
  fits 8 sep -> Forall (fun c => is_sep sep c = false) k1 -> Forall (fun c => is_sep sep c = false) k2 ->
  k1 ++ [ascii_of_byte sep] ++ v1 = k2 ++ [ascii_of_byte sep] ++ v2 -> k1 = k2 /\ v1 = v2.
Proof.
  intros Hsep H1 H2. assert (Hs : is_sep sep (ascii_of_byte sep) = true)
    by (unfold is_sep; by rewrite byte_ascii_id, Z.eqb_refl).
  revert k2 H2. induction H1 as [|c k1 Hc H1 IH]; intros k2 H2 Heq.
  - destruct H2 as [|c' k2 Hc' H2]; [by injection Heq|injection Heq as Hh Heq; congruence].
  - destruct H2 as [|c' k2 Hc' H2]; injection Heq as Hh Heq; [congruence|].
    apply IH in Heq as [-> ->]; [by rewrite Hh|done].
Qed.

Definition clean (e : string * string) : Prop :=
  Forall (fun c => is_sep 61 c = false) (chars_of e.1)
  /\ Forall (fun c => is_sep 10 c = false) (chars_of e.1)
  /\ Forall (fun c => is_sep 10 c = false) (chars_of e.2).

Lemma chars_of_inj s1 s2 : chars_of s1 = chars_of s2 -> s1 = s2.
Proof.
  intros Heq. rewrite <- (String.string_of_list_ascii_of_string s1),
    <- (String.string_of_list_ascii_of_string s2). unfold chars_of in Heq. by rewrite Heq.
Qed.

Lemma entry_line_inj e1 e2 : clean e1 -> clean e2 -> entry_line e1 = entry_line e2 -> e1 = e2.
Proof.
  intros (H1 & _) (H2 & _) Heq. destruct e1 as [k1 v1], e2 as [k2 v2]. cbn [fst snd] in *.
  apply (app_sep_inj 61) in Heq as [Hk Hv]; [|by vm_compute|done|done].
  apply chars_of_inj in Hk, Hv. simpl in Hk, Hv. by subst.
Qed.

Lemma entry_line_no_newline e : clean e -> Forall (fun c => is_sep 10 c = false) (entry_line e).
Proof. intros (_ & Hk & Hv). unfold entry_line. rewrite !Forall_app. split_and!; [done| |done]. by constructor. Qed.

Lemma kv_lines_inj l1 l2 : Forall clean l1 -> Forall clean l2 -> kv_lines l1 = kv_lines l2 -> l1 = l2.
Proof.
  intros H1 H2 Heq. unfold kv_lines in Heq.
  assert (Hnil : forall e l, join_sep 10 (map entry_line (e :: l)) <> []).
  { intros e l He. simpl in He. apply app_eq_nil in He as [He _]. unfold entry_line in He.
    by destruct (chars_of e.1). }
  destruct l1 as [|e1 l1], l2 as [|e2 l2]; [done|by edestruct Hnil|by edestruct Hnil|].
  apply (f_equal (split_sep 10)) in Heq.
  assert (Hsplit : forall e l, Forall clean (e :: l) ->
    split_sep 10 (join_sep 10 (map entry_line (e :: l))) = map entry_line (e :: l)).
  { intros e l Hl. apply split_join; [by vm_compute|done|].
    apply Forall_map. eapply Forall_impl; [exact Hl|]. apply entry_line_no_newline. }
  rewrite !Hsplit in Heq by done. clear Hsplit Hnil. revert Heq. generalize (e2 :: l2) H2. clear H2 e2 l2.
  generalize (e1 :: l1) H1. clear H1 e1 l1.
  induction 1 as [|e1 l1 He1 H1 IH]; intros l2 H2 Heq; destruct H2 as [|e2 l2 He2 H2]; try done.
  simpl in Heq. injection Heq as Hl Heq. f_equal; [by apply entry_line_inj|by apply IH].
Qed.

Definition clean_fields (fields : fields_t) : Prop :=
  map_Forall (fun k v => clean (k, v)) (delete "signature" fields).

Lemma signed_entries_perm fields : signed_entries fields ≡ₚ map_to_list (delete "signature" fields).
Proof. unfold signed_entries. apply merge_sort_Permutation. Qed.

Lemma canonical_inj f1 f2 :
  clean_fields f1 -> clean_fields f2 -> canonical_signing_data f1 = canonical_signing_data f2 ->
  delete "signature" f1 = delete "signature" f2.
Proof.
  intros H1 H2 Heq. assert (Hclean : forall f, clean_fields f -> Forall clean (signed_entries f)).
  { intros f Hf. rewrite signed_entries_perm. apply Forall_forall. intros [k v] Hin.
    apply elem_of_map_to_list in Hin. by apply Hf. }
  assert (Hs : signed_entries f1 = signed_entries f2) by (apply kv_lines_inj; auto).
  apply map_to_list_inj. by rewrite <- !signed_entries_perm, Hs.
Qed.

Lemma kHex_inj a b : 0 <= a < 16 -> 0 <= b < 16 -> kHex a = kHex b -> a = b.
Proof.
  intros Ha Hb Heq. apply (f_equal byte_of_ascii) in Heq. unfold kHex in Heq.
  destruct (Z.ltb_spec a 10), (Z.ltb_spec b 10); rewrite !byte_ascii_id in Heq by (widths; lia); lia.
Qed.

Lemma nibbles b : fits 8 b ->
  0 <= Z.land (Z.shiftr b 4) 0x0F < 16 /\ 0 <= Z.land b 0x0F < 16
  /\ b = Z.land (Z.shiftr b 4) 0x0F * 16 + Z.land b 0x0F.
Proof.
  intros Hb. change 0x0F with (Z.ones 4). rewrite !Z.land_ones, Z.shiftr_div_pow2 by lia. zlia.
Qed.

Lemma to_hex_inj d1 d2 : bytes d1 -> bytes d2 -> to_hex d1 = to_hex d2 -> d1 = d2.
Proof.
  unfold bytes. intros H1. revert d2. induction H1 as [|b1 d1 Hb1 H1 IH]; intros d2 H2 Heq;
    destruct H2 as [|b2 d2 Hb2 H2]; try done.
  unfold to_hex in *. cbn [map concat app] in Heq. injection Heq as Hh Hl Heq.
  destruct (nibbles b1 Hb1) as (? & ? & ->), (nibbles b2 Hb2) as (? & ? & ->).
  apply kHex_inj in Hh, Hl; try done. rewrite Hh, Hl. f_equal. by apply IH.
Qed.

Lemma signatures_equal_spec l r : signatures_equal l r = true <-> l = r.
Proof.
  unfold signatures_equal. destruct (Nat.eqb_spec (length l) (length r)) as [He|He]; cbn [negb].
  - case_bool_decide as Hl; [|by rewrite bool_decide_eq_true].
    subst l. by destruct r.
  - split; [done|by intros ->].
Qed.

Section verifier.
Context (HMAC : chars -> chars -> option (list Z)).

(** What an accepted command satisfies. *)
Lemma verify_ok_inv fields now v v' :
  verify HMAC fields now v = (v', kOk) ->
  exists nonce signature issued_at i,
    fields !! "issued_at" = Some issued_at /\ parse_u64 (chars_of issued_at) = Some i
    /\ fields !! "nonce" = Some nonce /\ fields !! "signature" = Some signature
    /\ i <= u64 (now + future_skew_ms (options_ v)) /\ now <= u64 (i + ttl_ms (options_ v))
    /\ sign_fields HMAC fields (secret_ v) = chars_of signature /\ chars_of signature <> []
    /\ forget_expired (ttl_ms (options_ v)) now (seen_nonces_ v) !! nonce = None
    /\ v' = mkVerifier (secret_ v) (options_ v)
         (<[nonce := i]> (forget_expired (ttl_ms (options_ v)) now (seen_nonces_ v))).
Proof.
  unfold verify. case_bool_decide; [done|].
  destruct (fields !! "issued_at") as [issued_at|], (fields !! "nonce") as [nonce|],
    (fields !! "signature") as [signature|]; try done.
  destruct (bool_decide _ || _ || _); [done|].
  destruct (parse_u64 (chars_of issued_at)) as [i|] eqn:Hi; [|done].
  destruct (Z.ltb_spec (u64 (now + future_skew_ms (options_ v))) i); [done|].
  destruct (Z.ltb_spec (u64 (i + ttl_ms (options_ v))) now); [done|].
  case_bool_decide as Hne; [done|]. cbn [orb].
  destruct (signatures_equal _ _) eqn:Hsig; [|done]. cbn [negb]. apply signatures_equal_spec in Hsig.
  case_bool_decide as Hseen; [done|]. intros [= <-]. apply eq_None_not_Some in Hseen.
  exists nonce, signature, issued_at, i. rewrite <- Hsig at 2. split_and!; done || lia.
Qed.

Lemma verify_settings fields now v :
  secret_ (verify HMAC fields now v).1 = secret_ v /\ options_ (verify HMAC fields now v).1 = options_ v.
Proof. unfold verify. by repeat case_match. Qed.

(** A nonce with its issue time is remembered, or has expired. *)
Definition remembered (nonce : string) (i now : Z) (v : Verifier) : Prop :=
  seen_nonces_ v !! nonce = Some i \/ i + ttl_ms (options_ v) < now.

Lemma forget_expired_lookup ttl now seen nonce i :
  seen !! nonce = Some i -> 0 <= i + ttl < 2 ^ 64 ->
  forget_expired ttl now seen !! nonce = if decide (i + ttl < now) then None else Some i.
Proof.
  intros Hs Hr. unfold forget_expired. case_decide as Hd.
  - apply map_lookup_filter_None. right. intros i' Hi'. rewrite Hs in Hi'. simplify_eq. simpl.
    rewrite wrap_id by (widths; lia). by destruct (Z.ltb_spec (i' + ttl) now); [|lia].
  - apply map_lookup_filter_Some. split; [done|]. simpl. rewrite wrap_id by (widths; lia).
    by destruct (Z.ltb_spec (i + ttl) now); [lia|].
Qed.

Lemma verify_seen_cases fields now v :
  let seen := seen_nonces_ (verify HMAC fields now v).1 in
  let kept := forget_expired (ttl_ms (options_ v)) now (seen_nonces_ v) in
  seen = seen_nonces_ v \/ seen = kept
  \/ exists nonce' i', kept !! nonce' = None /\ seen = <[nonce' := i']> kept.
Proof.
  cbv zeta. unfold verify. repeat case_match; simpl; auto. right; right. eexists _, _. split; [|done].
  match goal with H : bool_decide _ = false |- _ => apply bool_decide_eq_false in H end.
  by apply eq_None_not_Some.
Qed.

Lemma remembered_verify nonce i now now' fields v :
  0 <= i + ttl_ms (options_ v) < 2 ^ 64 -> now <= now' ->
  remembered nonce i now v -> remembered nonce i now' (verify HMAC fields now' v).1.
Proof.
  intros Hr Hle [Hs|Hexp]; [|right; rewrite (proj2 (verify_settings fields now' v)); lia].
  unfold remembered. rewrite (proj2 (verify_settings fields now' v)).
  destruct (decide (i + ttl_ms (options_ v) < now')) as [|Hlive]; [auto|left].
  pose proof (forget_expired_lookup (ttl_ms (options_ v)) now' _ _ _ Hs Hr) as Hk.
  rewrite decide_False in Hk by done.
  destruct (verify_seen_cases fields now' v) as [->|[->|(nonce' & i' & Hn & ->)]]; [done|done|].
  rewrite lookup_insert_ne; [done|congruence].
Qed.

Lemma remembered_run nonce i calls now v :
  0 <= i + ttl_ms (options_ v) < 2 ^ 64 -> Sorted Z.le (now :: map snd calls) ->
  remembered nonce i now v ->
  let v' := fold_left (fun v call => (verify HMAC call.1 call.2 v).1) calls v in
  remembered nonce i (List.last (map snd calls) now) v' /\ options_ v' = options_ v.
Proof.
  revert now v. induction calls as [|[f t] calls IH]; intros now v Hr Hs Hrem; [done|].
  cbn [map snd] in *. apply Sorted_inv in Hs as [Hs Hle]. apply HdRel_inv in Hle.
  cbn [fold_left fst snd]. rewrite last_cons_default.
  rewrite <- (proj2 (verify_settings f t v)) in Hr |- *.
  apply IH; [done|done|]. rewrite (proj2 (verify_settings f t v)) in Hr. by eapply remembered_verify.
Qed.

End verifier.

(** What signing adds to the fields. *)
Definition signed_fields (fields : fields_t) (issued : Z) (nonce : string) (signature : chars) : fields_t :=
  <["signature" := String.string_of_list_ascii signature]>
    (delete "signature" (<["nonce" := nonce]>
      (<["issued_at" := String.string_of_list_ascii (decimal issued)]> fields))).

Lemma append_signature_verifies HMAC fields c secret issued nonce opts seen now :
  (forall k d, exists b g, HMAC k d = Some (b :: g)) ->
  fits 64 issued -> nonce <> EmptyString -> seen !! nonce = None ->
  issued <= now + future_skew_ms opts < 2 ^ 64 -> now <= issued + ttl_ms opts < 2 ^ 64 ->
  0 <= now + future_skew_ms opts -> 0 <= issued + ttl_ms opts ->
  exists digest, let signed := signed_fields fields issued nonce (to_hex digest) in
    append_signature_fields HMAC fields (c :: secret) issued nonce = (signed, true)
    /\ (verify HMAC signed now (mkVerifier (c :: secret) opts seen)).2 = kOk.
Proof.
  intros Hmac Hi Hn Hseen Hfut Hlive Hp1 Hp2. unfold append_signature_fields. cbv zeta.
  set (iss := String.string_of_list_ascii (decimal issued)).
  set (f0 := delete "signature" _).
  assert (Hiss : f0 !! "issued_at" = Some iss) by (unfold f0; by simplify_map_eq).
  assert (Hnon : f0 !! "nonce" = Some nonce) by (unfold f0; by simplify_map_eq).
  assert (Hdel : delete "signature" f0 = f0) by (unfold f0; by rewrite delete_delete_eq).
  assert (Hsig : exists digest c1 h, sign_fields HMAC f0 (c :: secret) = to_hex digest /\ to_hex digest = c1 :: h).
  { unfold sign_fields, canonical_signing_data. destruct (kv_lines (signed_entries f0)) as [|c1 d] eqn:Hd.
    - assert (Hin : ("nonce", nonce) ∈ signed_entries f0).
      { rewrite signed_entries_perm, Hdel. by apply elem_of_map_to_list. }
      destruct (signed_entries f0) as [|e l]; [set_solver|]. unfold kv_lines in Hd. simpl in Hd.
      apply app_eq_nil in Hd as [Hd _]. unfold entry_line in Hd. by destruct (chars_of e.1).
    - destruct (Hmac (c :: secret) (c1 :: d)) as (b & g & ->). exists (b :: g). unfold to_hex. simpl. eauto. }
  destruct Hsig as (digest & c1 & h & Hsig & Hhex). exists digest. unfold signed_fields. fold iss. fold f0.
  rewrite Hsig, Hhex. rewrite Hhex in Hsig.
  set (signed := <["signature" := _]> f0). split; [done|].
  assert (Hsign : sign_fields HMAC signed (c :: secret) = c1 :: h).
  { rewrite <- Hsig. unfold sign_fields, canonical_signing_data, signed_entries, signed.
    by rewrite delete_insert_eq, Hdel. }
  unfold verify. rewrite bool_decide_eq_false_2 by done.
  replace (signed !! "issued_at") with (Some iss) by (unfold signed; by rewrite lookup_insert_ne).
  replace (signed !! "nonce") with (Some nonce) by (unfold signed; by rewrite lookup_insert_ne).
  unfold signed at 1. rewrite lookup_insert_eq.
  destruct (decimal_digits issued) as (_ & _ & Hne); [apply Hi|].
  rewrite (bool_decide_eq_false_2 (iss = _)) by (unfold iss; by destruct (decimal issued)).
  rewrite (bool_decide_eq_false_2 (nonce = _)) by done. rewrite (bool_decide_eq_false_2 (_ = EmptyString)) by done.
  cbn [orb].
  unfold iss. rewrite chars_of_string_of_list, parse_u64_decimal by done.
  cbn [options_ secret_ seen_nonces_]. rewrite !wrap_id by (widths; lia).
  destruct (Z.ltb_spec (now + future_skew_ms opts) issued); [lia|].
  destruct (Z.ltb_spec (issued + ttl_ms opts) now); [lia|].
  rewrite Hsign, chars_of_string_of_list, bool_decide_eq_false_2 by done. cbn [orb].
  rewrite (proj2 (signatures_equal_spec _ _) eq_refl). cbn [negb].
  assert (Hf : forget_expired (ttl_ms opts) now seen !! nonce = None)
    by (apply map_lookup_filter_None; auto).
  rewrite Hf, bool_decide_eq_false_2; [done|]. by intros [? ?].
Qed.

(** ** Theorems *)

(** No replay.  Once a command was accepted, the same command is never accepted again
    by the same verifier, whatever other commands, valid or forged, are verified in
    between, as long as the clock does not go back and the expiry time of the
    command does not overflow. *)
Theorem admin_no_replay HMAC fields v t1 calls t2 i issued_at :
  (verify HMAC fields t1 v).2 = kOk ->
  fields !! "issued_at" = Some issued_at -> parse_u64 (chars_of issued_at) = Some i ->
  0 <= i + ttl_ms (options_ v) < 2 ^ 64 ->
  Sorted Z.le (t1 :: map snd calls) -> List.last (map snd calls) t1 <= t2 ->
  let v1 := (verify HMAC fields t1 v).1 in
  let v2 := fold_left (fun v call => (verify HMAC call.1 call.2 v).1) calls v1 in
  (verify HMAC fields t2 v2).2 <> kOk.
Proof.
  intros Hok Hf Hi Hr Hs Hle. cbv zeta.
  destruct (verify HMAC fields t1 v) as [v1 r1] eqn:H1. cbn [fst snd] in *. subst r1.
  pose proof (verify_settings HMAC fields t1 v) as [_ Hopt]. rewrite H1 in Hopt. cbn [fst] in Hopt.
  apply verify_ok_inv in H1 as (nonce & signature & issued_at' & i' & Hf' & Hi' & Hn & _ & _ & _ & _ & _ & _ & Hv1).
  rewrite Hf in Hf'. injection Hf' as <-. rewrite Hi in Hi'. injection Hi' as <-.
  assert (Hrem : remembered nonce i t1 v1) by (left; rewrite Hv1; apply lookup_insert_eq). clear Hv1.
  rewrite <- Hopt in Hr. destruct (remembered_run HMAC nonce i calls t1 v1 Hr Hs Hrem) as [Hrem2 Hopt2].
  set (v2 := fold_left _ _ _) in *. intros Hok.
  destruct (verify HMAC fields t2 v2) as [v3 r3] eqn:H3. cbn [snd] in Hok. subst r3.
  apply verify_ok_inv in H3 as (nonce' & sig' & iss' & i2 & Hf2 & Hi2 & Hn2 & _ & _ & Hlive & _ & _ & Hfresh & _).
  rewrite Hf in Hf2. injection Hf2 as <-. rewrite Hn in Hn2. injection Hn2 as <-.
  rewrite Hi in Hi2. injection Hi2 as <-. rewrite Hopt2 in *. rewrite wrap_id in Hlive by (widths; lia).
  destruct Hrem2 as [Hseen|Hexp]; [|rewrite Hopt2 in Hexp; lia].
  rewrite (forget_expired_lookup _ _ _ _ _ Hseen Hr), decide_False in Hfresh by lia. done.
Qed.

(** A signature binds every field.  With a collision-free HMAC whose digests are bytes,
    two commands accepted under the same secret that carry the same signature agree
    on all fields, provided that no key contains an equals sign or a newline and no
    value a newline. *)
Theorem admin_signature_binds HMAC f1 f2 v1 v2 t1 t2 :
  (forall k d1 d2 g, HMAC k d1 = Some g -> HMAC k d2 = Some g -> d1 = d2) ->
  (forall k d g, HMAC k d = Some g -> bytes g) ->
  secret_ v1 = secret_ v2 -> clean_fields f1 -> clean_fields f2 ->
  (verify HMAC f1 t1 v1).2 = kOk -> (verify HMAC f2 t2 v2).2 = kOk ->
  f1 !! "signature" = f2 !! "signature" -> f1 = f2.
Proof.
  intros Hinj Hbytes Hsec Hc1 Hc2 Hok1 Hok2 Hsig.
  destruct (verify HMAC f1 t1 v1) as [v1' r1] eqn:H1, (verify HMAC f2 t2 v2) as [v2' r2] eqn:H2.
  cbn [snd] in *. subst r1 r2.
  apply verify_ok_inv in H1 as (n1 & s1 & a1 & i1 & _ & _ & _ & Hs1 & _ & _ & Hsign1 & Hne1 & _ & _).
  apply verify_ok_inv in H2 as (n2 & s2 & a2 & i2 & _ & _ & _ & Hs2 & _ & _ & Hsign2 & Hne2 & _ & _).
  rewrite Hs1, Hs2 in Hsig. simplify_eq. rewrite <- Hsec, <- Hsign1 in Hsign2.
  assert (Hdel : delete "signature" f1 = delete "signature" f2).
  { apply canonical_inj; [done|done|]. unfold sign_fields in *.
    destruct (secret_ v1) as [|c sec]; [congruence|].
    destruct (canonical_signing_data f1) as [|c1 d1]; [congruence|].
    destruct (canonical_signing_data f2) as [|c2 d2]; [congruence|].
    destruct (HMAC (c :: sec) (c1 :: d1)) as [g1|] eqn:Hg1; [|congruence].
    destruct (HMAC (c :: sec) (c2 :: d2)) as [g2|] eqn:Hg2; [|congruence].
    apply to_hex_inj in Hsign2; [|by eapply Hbytes..]. subst g2. by eapply Hinj. }
  apply map_eq. intros k. destruct (decide (k = "signature")) as [->|Hk]; [congruence|].
  rewrite <- (lookup_delete_ne f1 "signature" k), <- (lookup_delete_ne f2 "signature" k) by done.
  by rewrite Hdel.
Qed.

(** Signing and verifying agree.  With an HMAC that yields a non-empty digest, a command
    signed with [append_signature_fields] is accepted by a verifier with the same
    secret when it arrives within its lifetime, is not from beyond the allowed
    future skew and its nonce is not in the memory. *)
Theorem admin_sign_verify HMAC fields c secret issued nonce opts seen now :
  (forall k d, exists b g, HMAC k d = Some (b :: g)) ->
  fits 64 issued -> nonce <> EmptyString -> seen !! nonce = None ->
  issued <= now + future_skew_ms opts < 2 ^ 64 -> now <= issued + ttl_ms opts < 2 ^ 64 ->
  0 <= now + future_skew_ms opts -> 0 <= issued + ttl_ms opts ->
  let '(signed, ok) := append_signature_fields HMAC fields (c :: secret) issued nonce in
  ok = true /\ (verify HMAC signed now (mkVerifier (c :: secret) opts seen)).2 = kOk.
Proof.
  intros Hmac Hi Hn Hseen Hfut Hlive Hp1 Hp2.
  destruct (append_signature_verifies HMAC fields c secret issued nonce opts seen now Hmac Hi Hn Hseen Hfut Hlive Hp1 Hp2)
    as (digest & -> & Hok). by split.
Qed.

(** *** Concrete commands *)

(** A stand-in for HMAC with the properties the theorems ask for. *)
Definition toy_HMAC (k d : chars) : option (list Z) := Some (1 :: map byte_of_ascii (k ++ d)).

Definition demo_secret : chars := chars_of "s3cret".
Definition demo_fields : fields_t :=
  (append_signature_fields toy_HMAC {["cmd" := "kick"; "user" := "bob"]} demo_secret 1000 "n1").1.
Definition demo_verifier : Verifier := new_Verifier demo_secret default_VerifyOptions.

Lemma admin_no_replay_witness :
  let v1 := (verify toy_HMAC demo_fields 1500 demo_verifier).1 in
  let v2 := fold_left (fun v call => (verify toy_HMAC call.1 call.2 v).1) [(∅, 1600); (demo_fields, 1700)] v1 in
  (verify toy_HMAC demo_fields 61500 v2).2 <> kOk.
Proof.
  apply (admin_no_replay toy_HMAC demo_fields demo_verifier 1500 [(∅, 1600); (demo_fields, 1700)] 61500
    1000 "1000"); try (vm_compute; done). repeat constructor; done.
Defined.

Lemma toy_HMAC_inj k d1 d2 g : toy_HMAC k d1 = Some g -> toy_HMAC k d2 = Some g -> d1 = d2.
Proof.
  unfold toy_HMAC. rewrite !map_app. intros H1 H2. rewrite <- H2 in H1. injection H1 as H1.
  apply app_inv_head in H1. clear H2. revert d2 H1. induction d1 as [|c d1 IH]; intros [|c2 d2] H; try done.
  simpl in H. injection H as Hc H. f_equal; [|by apply IH].
  by rewrite <- (ascii_byte_id c), <- (ascii_byte_id c2), Hc.
Qed.

Lemma toy_HMAC_bytes k d g : toy_HMAC k d = Some g -> bytes g.
Proof.
  unfold toy_HMAC. intros [= <-]. constructor; [by vm_compute|]. apply Forall_map.
  apply Forall_forall. intros. apply byte_of_ascii_fits.
Qed.

#[export] Instance clean_dec e : Decision (clean e).
Proof. unfold clean. apply _. Defined.

Lemma admin_signature_binds_witness : demo_fields = demo_fields.
Proof.
  assert (Hclean : clean_fields demo_fields).
  { apply map_Forall_to_list. apply (bool_decide_unpack _). by vm_compute. }
  exact (admin_signature_binds toy_HMAC demo_fields demo_fields demo_verifier demo_verifier 1500 1600
    toy_HMAC_inj toy_HMAC_bytes eq_refl Hclean Hclean ltac:(vm_compute; done) ltac:(vm_compute; done) eq_refl).
Defined.

Lemma admin_sign_verify_witness :
  let '(signed, ok) := append_signature_fields toy_HMAC {["cmd" := "kick"]} demo_secret 1000 "n1" in
  ok = true /\ (verify toy_HMAC signed 2000 demo_verifier).2 = kOk.
Proof.
  apply (admin_sign_verify toy_HMAC {["cmd" := "kick"]} (ascii_of_byte 115) (chars_of "3cret") 1000 "n1"
    default_VerifyOptions ∅ 2000).
  - intros k d. by eexists _, _.
  - by vm_compute.
  - done.
  - apply lookup_empty.
  - simpl. lia.
  - simpl. lia.
  - simpl. lia.
  - simpl. lia.
Defined.

Definition newline_value : fields_t :=
  {["issued_at" := "1"; "nonce" := "n"; "text" := "hi" +:+ String (ascii_of_byte 10) "user=root"]}.
Definition forged_field : fields_t :=
  {["issued_at" := "1"; "nonce" := "n"; "text" := "hi"; "user" := "root"]}.

(** A newline in a value forges a field.  Whatever the HMAC and the secret, a command
    whose text is "hi", a newline and "user=root" and a command with the text "hi"
    and the additional field user=root have the same signature. *)
Theorem admin_newline_forges_field HMAC secret :
  newline_value !! "user" = None /\ forged_field !! "user" = Some "root"
  /\ sign_fields HMAC newline_value secret = sign_fields HMAC forged_field secret.
Proof.
  split_and!; [by vm_compute..|]. unfold sign_fields.
  assert (Heq : canonical_signing_data newline_value = canonical_signing_data forged_field)
    by (vm_compute; done).
  by rewrite Heq.
Qed.
