(* ===== verification/RuntimeMetrics.v ===== *)
(** The process-wide counters, [core/runtime_metrics.hpp] and [runtime_metrics.cpp].

    Every counter is an atomic 64-bit word and a recording function is a short program
    of atomic instructions, which interleave with those of other threads.  A maximum is
    kept by a loop of [compare_exchange_weak], which may fail spuriously; its state is
    the value last seen.  An instruction names the counter it works on, an array element
    by its index. *)

From Stdlib Require Import Sorting.Sorted.
From S2P Require Import Prelude.

(** ** Definitions *)

Definition kDispatchProcessingPlaceCount : Z := 3.
Definition kRudpFallbackReasonCount : Z := 6.
Definition kRudpFallbackOther : Z := 5.
Definition kRudpRttBucketUpperBoundsMs : list Z := [1; 2; 5; 10; 20; 50; 100; 200; 500; 1000; 2000].
Definition kDispatchLatencyBucketUpperBoundsNs : list Z :=
  [100000; 250000; 500000; 1000000; 2500000; 5000000; 10000000; 25000000; 50000000; 100000000;
   250000000; 500000000; 1000000000; 2500000000; 5000000000].

Inductive Counter :=
  | accept_total
  | session_started_total
  | session_stopped_total
  | session_active
  | session_timeout_total
  | session_write_timeout_total
  | heartbeat_timeout_total
  | send_queue_drop_total
  | packet_total
  | packet_error_total
  | packet_payload_sum_bytes
  | packet_payload_count
  | packet_payload_max_bytes
  | dispatch_total
  | dispatch_unknown_total
  | dispatch_exception_total
  | dispatch_latency_sum_ns
  | dispatch_latency_count
  | dispatch_latency_last_ns
  | dispatch_latency_max_ns
  | dispatch_latency_bucket_counts (i : Z)
  | dispatch_processing_place_calls_total (i : Z)
  | dispatch_processing_place_reject_total (i : Z)
  | dispatch_processing_place_exception_total (i : Z)
  | exception_recoverable_total
  | exception_fatal_total
  | exception_ignored_total
  | job_queue_depth
  | job_queue_depth_peak
  | job_queue_capacity
  | job_queue_reject_total
  | job_queue_push_wait_sum_ns
  | job_queue_push_wait_count
  | job_queue_push_wait_max_ns
  | memory_pool_capacity
  | memory_pool_in_use
  | memory_pool_in_use_peak
  | log_async_queue_depth
  | log_async_queue_capacity
  | log_async_queue_drop_total
  | log_async_flush_total
  | log_async_flush_latency_sum_ns
  | log_async_flush_latency_max_ns
  | log_masked_fields_total
  | http_active_connections
  | http_connection_limit_reject_total
  | http_auth_reject_total
  | http_header_timeout_total
  | http_body_timeout_total
  | http_header_oversize_total
  | http_body_oversize_total
  | http_bad_request_total
  | runtime_setting_reload_attempt_total
  | runtime_setting_reload_success_total
  | runtime_setting_reload_failure_total
  | runtime_setting_reload_latency_sum_ns
  | runtime_setting_reload_latency_max_ns
  | rudp_handshake_ok_total
  | rudp_handshake_fail_total
  | rudp_retransmit_total
  | rudp_inflight_packets
  | rudp_rtt_ms_sum
  | rudp_rtt_ms_count
  | rudp_rtt_ms_max
  | rudp_rtt_ms_bucket_counts (i : Z)
  | rudp_fallback_total (i : Z)
  | db_job_queue_depth
  | db_job_queue_depth_peak
  | db_job_queue_capacity
  | db_job_queue_reject_total
  | db_job_queue_push_wait_sum_ns
  | db_job_queue_push_wait_count
  | db_job_queue_push_wait_max_ns
  | db_job_processed_total
  | db_job_failed_total
  | opcode_counters (i : Z).

#[export] Instance Counter_eq_dec : EqDecision Counter.
Proof. solve_decision. Defined.

Definition RuntimeCounters := Counter -> Z.
Definition zero_counters : RuntimeCounters := fun _ => 0.
Definition set_counter (c : Counter) (v : Z) (σ : RuntimeCounters) : RuntimeCounters :=
  fun c' => if decide (c = c') then v else σ c'.

Inductive instr :=
  | FetchAdd (c : Counter) (n : Z)
  | FetchSub (c : Counter) (n : Z)
  | Store (c : Counter) (v : Z)
  | RaiseMax (c : Counter) (v : Z)
  | RaiseMaxFrom (c : Counter) (v current : Z)
  | AddRaise (c : Counter) (n : Z) (peak : Counter)
  | ClampTo (c : Counter) (cap : Z).

Definition normalize_dispatch_place_index (i : Z) : Z :=
  if i <? kDispatchProcessingPlaceCount then i else kDispatchProcessingPlaceCount - 1.
Definition normalize_rudp_fallback_index (reason : Z) : Z :=
  if reason <? kRudpFallbackReasonCount then reason else kRudpFallbackOther.

(** The loop over the bounds of a histogram: the first bucket that holds the sample. *)
Fixpoint bucket_loop (bucket : Z -> Counter) (bounds : list Z) (i sample : Z) : list instr :=
  match bounds with
  | [] => []
  | b :: bounds => if sample <=? b then [FetchAdd (bucket i) 1] else bucket_loop bucket bounds (i + 1) sample
  end.

Definition clip_ns (elapsed : Z) : Z := u64 (if elapsed <=? 0 then 0 else elapsed).

Definition record_accept : list instr := [FetchAdd accept_total 1].
Definition record_session_start : list instr := [FetchAdd session_started_total 1; FetchAdd session_active 1].
Definition record_session_stop : list instr := [FetchAdd session_stopped_total 1; FetchSub session_active 1].
Definition record_session_timeout : list instr := [FetchAdd session_timeout_total 1].
Definition record_session_write_timeout : list instr := [FetchAdd session_write_timeout_total 1].
Definition record_heartbeat_timeout : list instr := [FetchAdd heartbeat_timeout_total 1].
Definition record_send_queue_drop : list instr := [FetchAdd send_queue_drop_total 1].
Definition record_packet_ok : list instr := [FetchAdd packet_total 1].
Definition record_packet_error : list instr := [FetchAdd packet_error_total 1].
Definition record_packet_payload (bytes : Z) : list instr :=
  [FetchAdd packet_payload_sum_bytes (u64 bytes); FetchAdd packet_payload_count 1;
   RaiseMax packet_payload_max_bytes (u64 bytes)].
Definition record_dispatch_opcode (opcode : Z) : list instr := [FetchAdd (opcode_counters opcode) 1].
Definition record_dispatch_attempt (handler_found : bool) (elapsed : Z) : list instr :=
  [FetchAdd dispatch_total 1] ++ (if handler_found then [] else [FetchAdd dispatch_unknown_total 1])
  ++ [FetchAdd dispatch_latency_sum_ns (u64 elapsed); FetchAdd dispatch_latency_count 1;
      Store dispatch_latency_last_ns (u64 elapsed); RaiseMax dispatch_latency_max_ns (u64 elapsed)]
  ++ bucket_loop dispatch_latency_bucket_counts kDispatchLatencyBucketUpperBoundsNs 0 (u64 elapsed).
Definition record_dispatch_exception : list instr := [FetchAdd dispatch_exception_total 1].
Definition record_dispatch_processing_place_call (place_index : Z) : list instr :=
  [FetchAdd (dispatch_processing_place_calls_total (normalize_dispatch_place_index place_index)) 1].
Definition record_dispatch_processing_place_reject (place_index : Z) : list instr :=
  [FetchAdd (dispatch_processing_place_reject_total (normalize_dispatch_place_index place_index)) 1].
Definition record_dispatch_processing_place_exception (place_index : Z) : list instr :=
  [FetchAdd (dispatch_processing_place_exception_total (normalize_dispatch_place_index place_index)) 1].
Definition record_exception_recoverable : list instr := [FetchAdd exception_recoverable_total 1].
Definition record_exception_fatal : list instr := [FetchAdd exception_fatal_total 1].
Definition record_exception_ignored : list instr := [FetchAdd exception_ignored_total 1].
Definition record_job_queue_depth (depth : Z) : list instr :=
  [Store job_queue_depth (u64 depth); RaiseMax job_queue_depth_peak (u64 depth)].
Definition register_job_queue_capacity (capacity : Z) : list instr := [Store job_queue_capacity (u64 capacity)].
Definition record_job_queue_reject : list instr := [FetchAdd job_queue_reject_total 1].
Definition record_job_queue_push_wait (waited : Z) : list instr :=
  if clip_ns waited =? 0 then []
  else [FetchAdd job_queue_push_wait_sum_ns (clip_ns waited); FetchAdd job_queue_push_wait_count 1;
        RaiseMax job_queue_push_wait_max_ns (clip_ns waited)].
Definition record_db_job_queue_depth (depth : Z) : list instr :=
  [Store db_job_queue_depth (u64 depth); RaiseMax db_job_queue_depth_peak (u64 depth)].
Definition register_db_job_queue_capacity (capacity : Z) : list instr := [Store db_job_queue_capacity (u64 capacity)].
Definition record_db_job_queue_reject : list instr := [FetchAdd db_job_queue_reject_total 1].
Definition record_db_job_queue_push_wait (waited : Z) : list instr :=
  if clip_ns waited =? 0 then []
  else [FetchAdd db_job_queue_push_wait_sum_ns (clip_ns waited); FetchAdd db_job_queue_push_wait_count 1;
        RaiseMax db_job_queue_push_wait_max_ns (clip_ns waited)].
Definition record_db_job_processed : list instr := [FetchAdd db_job_processed_total 1].
Definition record_db_job_failed : list instr := [FetchAdd db_job_failed_total 1].
Definition register_memory_pool_capacity (capacity : Z) : list instr :=
  [Store memory_pool_capacity (u64 capacity); ClampTo memory_pool_in_use (u64 capacity);
   ClampTo memory_pool_in_use_peak (u64 capacity)].
Definition record_memory_pool_acquire : list instr :=
  [AddRaise memory_pool_in_use 1 memory_pool_in_use_peak].
Definition record_memory_pool_release : list instr := [FetchSub memory_pool_in_use 1].
Definition record_log_async_queue_depth (depth : Z) : list instr := [Store log_async_queue_depth (u64 depth)].
Definition register_log_async_queue_capacity (capacity : Z) : list instr :=
  [Store log_async_queue_capacity (u64 capacity)].
Definition record_log_async_queue_drop : list instr := [FetchAdd log_async_queue_drop_total 1].
Definition record_log_async_flush_latency (elapsed : Z) : list instr :=
  if clip_ns elapsed =? 0 then []
  else [FetchAdd log_async_flush_total 1; FetchAdd log_async_flush_latency_sum_ns (clip_ns elapsed);
        RaiseMax log_async_flush_latency_max_ns (clip_ns elapsed)].
Definition record_log_masked_fields (count : Z) : list instr :=
  if count =? 0 then [] else [FetchAdd log_masked_fields_total count].
Definition set_http_active_connections (active : Z) : list instr := [Store http_active_connections (u64 active)].
Definition record_http_connection_limit_reject : list instr := [FetchAdd http_connection_limit_reject_total 1].
Definition record_http_auth_reject : list instr := [FetchAdd http_auth_reject_total 1].
Definition record_http_header_timeout : list instr := [FetchAdd http_header_timeout_total 1].
Definition record_http_body_timeout : list instr := [FetchAdd http_body_timeout_total 1].
Definition record_http_header_oversize : list instr := [FetchAdd http_header_oversize_total 1].
Definition record_http_body_oversize : list instr := [FetchAdd http_body_oversize_total 1].
Definition record_http_bad_request : list instr := [FetchAdd http_bad_request_total 1].
Definition record_runtime_setting_reload_attempt : list instr := [FetchAdd runtime_setting_reload_attempt_total 1].
Definition record_runtime_setting_reload_success : list instr := [FetchAdd runtime_setting_reload_success_total 1].
Definition record_runtime_setting_reload_failure : list instr := [FetchAdd runtime_setting_reload_failure_total 1].
Definition record_runtime_setting_reload_latency (elapsed : Z) : list instr :=
  if clip_ns elapsed =? 0 then []
  else [FetchAdd runtime_setting_reload_latency_sum_ns (clip_ns elapsed);
        RaiseMax runtime_setting_reload_latency_max_ns (clip_ns elapsed)].
Definition record_rudp_handshake_result (ok : bool) : list instr :=
  if ok then [FetchAdd rudp_handshake_ok_total 1] else [FetchAdd rudp_handshake_fail_total 1].
Definition record_rudp_retransmit (count : Z) : list instr :=
  if count =? 0 then [] else [FetchAdd rudp_retransmit_total count].
Definition set_rudp_inflight_packets (packets : Z) : list instr := [Store rudp_inflight_packets (u64 packets)].
Definition record_rudp_rtt_ms (rtt_ms : Z) : list instr :=
  if rtt_ms =? 0 then []
  else [FetchAdd rudp_rtt_ms_sum rtt_ms; FetchAdd rudp_rtt_ms_count 1; RaiseMax rudp_rtt_ms_max rtt_ms]
       ++ bucket_loop rudp_rtt_ms_bucket_counts kRudpRttBucketUpperBoundsMs 0 rtt_ms.
Definition record_rudp_fallback (reason : Z) : list instr :=
  [FetchAdd (rudp_fallback_total (normalize_rudp_fallback_index reason)) 1].

(** One atomic step of an instruction and what is left of it. *)
Inductive instr_step : RuntimeCounters -> instr -> RuntimeCounters -> list instr -> Prop :=
  | step_add σ c n : instr_step σ (FetchAdd c n) (set_counter c (u64 (σ c + n)) σ) []
  | step_sub σ c n : instr_step σ (FetchSub c n) (set_counter c (u64 (σ c - n)) σ) []
  | step_store σ c v : instr_step σ (Store c v) (set_counter c v σ) []
  | step_raise_load σ c v : instr_step σ (RaiseMax c v) σ [RaiseMaxFrom c v (σ c)]
  | step_raise_done σ c v current :
      v <= current -> instr_step σ (RaiseMaxFrom c v current) σ []
  | step_raise_swap σ c v current :
      current < v -> σ c = current -> instr_step σ (RaiseMaxFrom c v current) (set_counter c v σ) []
  | step_raise_fail σ c v current :
      current < v -> instr_step σ (RaiseMaxFrom c v current) σ [RaiseMaxFrom c v (σ c)]
  | step_add_raise σ c n peak :
      instr_step σ (AddRaise c n peak) (set_counter c (u64 (σ c + n)) σ) [RaiseMax peak (u64 (σ c + n))]
  | step_clamp_store σ c cap : cap < σ c -> instr_step σ (ClampTo c cap) σ [Store c cap]
  | step_clamp_skip σ c cap : σ c <= cap -> instr_step σ (ClampTo c cap) σ [].

(** Threads, each with the instructions it has left, interleave at every instruction. *)
Inductive metrics_step : RuntimeCounters * list (list instr) -> RuntimeCounters * list (list instr) -> Prop :=
  | step_thread σ ts i ins rest σ' left :
      ts !! i = Some (ins :: rest) -> instr_step σ ins σ' left ->
      metrics_step (σ, ts) (σ', <[i := left ++ rest]> ts).

(** The instructions of one thread, run without interference. *)
Definition run_instr (ins : instr) (σ : RuntimeCounters) : RuntimeCounters :=
  match ins with
  | FetchAdd c n => set_counter c (u64 (σ c + n)) σ
  | FetchSub c n => set_counter c (u64 (σ c - n)) σ
  | Store c v => set_counter c v σ
  | RaiseMax c v => if σ c <? v then set_counter c v σ else σ
  | RaiseMaxFrom c v current =>
      if current <? v then (if σ c <? v then set_counter c v σ else σ) else σ
  | AddRaise c n peak =>
      let v := u64 (σ c + n) in
      let σ := set_counter c v σ in
      if σ peak <? v then set_counter peak v σ else σ
  | ClampTo c cap => if cap <? σ c then set_counter c cap σ else σ
  end.

Definition run_instrs (p : list instr) (σ : RuntimeCounters) : RuntimeCounters :=
  foldl (fun σ ins => run_instr ins σ) σ p.

(** [Snapshot]: the counters but the opcode table, and the opcodes seen with their counts. *)
Record Snapshot := mkSnapshot { snap_counter : Counter -> Z; opcode_counts : list (Z * Z) }.

Definition opcode_index : list Z := map Z.of_nat (seq 0 (Z.to_nat 65536)).

Definition snapshot (σ : RuntimeCounters) : Snapshot :=
  mkSnapshot (fun c => match c with opcode_counters _ => 0 | c => σ c end)
    (map (fun i => (u16 i, σ (opcode_counters i)))
       (filter (fun i => σ (opcode_counters i) <> 0) opcode_index)).

(** ** Lemmas *)

(** The instruction only adds to [c] or leaves it alone, and by how much. *)
Definition adds_only (c : Counter) (ins : instr) : Prop :=
  match ins with
  | FetchAdd _ _ | FetchSub _ _ => True
  | Store c' _ | RaiseMax c' _ | RaiseMaxFrom c' _ _ | ClampTo c' _ => c' <> c
  | AddRaise _ _ peak => peak <> c
  end.

Definition weight (c : Counter) (ins : instr) : Z :=
  match ins with
  | FetchAdd c' n | AddRaise c' n _ => if decide (c' = c) then n else 0
  | FetchSub c' n => if decide (c' = c) then - n else 0
  | _ => 0
  end.

(** The instruction only raises [c] or leaves it alone, and to which sample. *)
Definition raises_only (c : Counter) (ins : instr) : Prop :=
  match ins with
  | RaiseMax _ _ | RaiseMaxFrom _ _ _ => True
  | FetchAdd c' _ | FetchSub c' _ | Store c' _ | ClampTo c' _ => c' <> c
  | AddRaise c' _ peak => c' <> c /\ peak <> c
  end.

Definition sample (c : Counter) (ins : instr) : list Z :=
  match ins with
  | RaiseMax c' v | RaiseMaxFrom c' v _ => if decide (c' = c) then [v] else []
  | _ => []
  end.

Definition zsum (l : list Z) : Z := foldr Z.add 0 l.
Definition total_weight (c : Counter) (ts : list (list instr)) : Z := zsum (map (weight c) (concat ts)).
Definition samples (c : Counter) (ts : list (list instr)) : list Z := concat (map (sample c) (concat ts)).
Definition maximum (x : Z) (l : list Z) : Z := foldr Z.max x l.

Lemma zsum_app l1 l2 : zsum (l1 ++ l2) = zsum l1 + zsum l2.
Proof. unfold zsum. induction l1; simpl; lia. Qed.

Lemma zsum_perm l1 l2 : l1 ≡ₚ l2 -> zsum l1 = zsum l2.
Proof. unfold zsum. induction 1; simpl; lia. Qed.

Lemma maximum_app x l1 l2 : maximum x (l1 ++ l2) = Z.max (maximum x l1) (maximum x l2).
Proof. unfold maximum. induction l1; simpl; [|lia]. induction l2; simpl; lia. Qed.

Lemma maximum_max x l : maximum x l = Z.max x (maximum x l).
Proof. unfold maximum. induction l; simpl; lia. Qed.

Lemma maximum_base x y l : maximum (Z.max x y) l = Z.max (maximum x l) y.
Proof. unfold maximum. induction l; simpl; lia. Qed.

Lemma maximum_perm x l1 l2 : l1 ≡ₚ l2 -> maximum x l1 = maximum x l2.
Proof. unfold maximum. induction 1; simpl; lia. Qed.

(** The first instruction of a thread taken out of the pool of instructions. *)
Lemma concat_take_step (ts : list (list instr)) i ins rest left :
  ts !! i = Some (ins :: rest) ->
  exists others, concat ts ≡ₚ ins :: others /\ concat (<[i := left ++ rest]> ts) ≡ₚ left ++ others.
Proof.
  revert i. induction ts as [|t ts IH]; intros [|i] Hi; simplify_eq/=.
  - exists (rest ++ concat ts). by rewrite app_assoc.
  - destruct (IH i Hi) as (others & H1 & H2). exists (t ++ others). split.
    + rewrite H1. by rewrite Permutation_middle.
    + rewrite H2. rewrite !app_assoc. by rewrite (Permutation_app_comm t left).
Qed.

Lemma total_weight_perm c ts l : concat ts ≡ₚ l -> total_weight c ts = zsum (map (weight c) l).
Proof. intros H. unfold total_weight. by apply zsum_perm, Permutation_map. Qed.

Lemma samples_perm c ts l : concat ts ≡ₚ l -> samples c ts ≡ₚ concat (map (sample c) l).
Proof. intros H. unfold samples. by rewrite H. Qed.

Lemma set_counter_eq c v σ : set_counter c v σ c = v.
Proof. unfold set_counter. by rewrite decide_True. Qed.

Lemma set_counter_ne c c' v σ : c <> c' -> set_counter c v σ c' = σ c'.
Proof. intros. unfold set_counter. by rewrite decide_False. Qed.

Ltac counters := unfold set_counter in *; repeat (case_decide; simplify_eq/=; try done).

(** *** Sums *)

Lemma instr_step_adds c σ ins σ' left :
  instr_step σ ins σ' left -> adds_only c ins ->
  Forall (adds_only c) left
  /\ u64 (σ' c + zsum (map (weight c) left)) = u64 (σ c + weight c ins).
Proof.
  intros Hs Ha. destruct Hs; simpl in *; (split; [repeat constructor; done|]); counters;
    rewrite ?Z.add_0_r; try done; unfold wrap; rewrite ?Z.mod_mod by lia; try done; f_equal; lia.
Qed.

Lemma adds_step c σ ts σ' ts' :
  metrics_step (σ, ts) (σ', ts') -> Forall (adds_only c) (concat ts) ->
  Forall (adds_only c) (concat ts') /\ u64 (σ' c + total_weight c ts') = u64 (σ c + total_weight c ts).
Proof.
  intros Hs Ha. inversion Hs as [? ? i ins rest ? left Hi Hins]; subst.
  destruct (concat_take_step ts i ins rest left Hi) as (others & H1 & H2).
  rewrite H1 in Ha. apply Forall_cons in Ha as [Hin Hot].
  destruct (instr_step_adds c σ ins σ' left Hins Hin) as [Hl Heq].
  split; [rewrite H2; by apply Forall_app|].
  rewrite (total_weight_perm c _ _ H1), (total_weight_perm c _ _ H2), map_app, zsum_app. simpl.
  unfold wrap in *. rewrite Z.add_assoc, <- Z.add_mod_idemp_l, Heq, Z.add_mod_idemp_l by lia.
  f_equal. unfold zsum. simpl. lia.
Qed.

(** *** Maxima *)

Definition seen_below (c : Counter) (σ : RuntimeCounters) (ins : instr) : Prop :=
  match ins with RaiseMaxFrom c' _ current => c' = c -> current <= σ c | _ => True end.

Lemma instr_step_raises c σ ins σ' left :
  instr_step σ ins σ' left -> raises_only c ins -> seen_below c σ ins ->
  Forall (raises_only c) left /\ Forall (seen_below c σ') left /\ σ c <= σ' c
  /\ maximum (σ' c) (concat (map (sample c) left)) = maximum (σ c) (sample c ins).
Proof.
  intros Hs Hr Hb. destruct Hs; simpl in *;
    (split; [repeat constructor; try done; naive_solver|]); counters; simpl;
    (split; [repeat constructor; simpl; try done; lia|]); try (split; lia); try naive_solver.
  all: try (specialize (Hb eq_refl)); unfold maximum; simpl; try lia.
  all: destruct Hr; naive_solver lia.
Qed.

Lemma raises_step c σ ts σ' ts' :
  metrics_step (σ, ts) (σ', ts') ->
  Forall (raises_only c) (concat ts) /\ Forall (seen_below c σ) (concat ts) ->
  (Forall (raises_only c) (concat ts') /\ Forall (seen_below c σ') (concat ts'))
  /\ maximum (σ' c) (samples c ts') = maximum (σ c) (samples c ts).
Proof.
  intros Hs [Hr Hb]. inversion Hs as [? ? i ins rest ? left Hi Hins]; subst.
  destruct (concat_take_step ts i ins rest left Hi) as (others & H1 & H2).
  rewrite H1 in Hr, Hb. apply Forall_cons in Hr as [Hin Hot]. apply Forall_cons in Hb as [Hbin Hbot].
  destruct (instr_step_raises c σ ins σ' left Hins Hin Hbin) as (Hl & Hbl & Hmono & Heq).
  split; [rewrite H2; split; apply Forall_app; split; try done|].
  - eapply Forall_impl; [exact Hbot|]. intros []; simpl; try done. intros Hle Hc. specialize (Hle Hc). lia.
  - rewrite (maximum_perm _ _ _ (samples_perm c _ _ H1)), (maximum_perm _ _ _ (samples_perm c _ _ H2)).
    rewrite map_app, concat_app, maximum_app, Heq. simpl. rewrite maximum_app.
    assert (maximum (σ' c) (concat (map (sample c) others))
            = Z.max (maximum (σ c) (concat (map (sample c) others))) (σ' c)) as ->.
    { by rewrite <- maximum_base, Z.max_r. }
    pose proof (maximum_max (σ' c) (concat (map (sample c) left))).
    pose proof (maximum_max (σ c) (sample c ins)). lia.
Qed.

(** *** Complete runs *)

Definition fresh (ins : instr) : bool := match ins with RaiseMaxFrom _ _ _ => false | _ => true end.

Lemma thread_instr (σ : RuntimeCounters) ts i ins rest :
  ts !! i = Some (ins :: rest) -> fresh ins = true ->
  rtc metrics_step (σ, ts) (run_instr ins σ, <[i := rest]> ts).
Proof.
  intros Hi Hf.
  assert (Hraise : forall σ ts c v, ts !! i = Some (RaiseMax c v :: rest) ->
            rtc metrics_step (σ, ts) (if σ c <? v then set_counter c v σ else σ, <[i := rest]> ts)).
  { clear. intros σ ts c v Hi. eapply rtc_l; [eapply (step_thread _ _ i); [exact Hi|constructor]|].
    rewrite <- (list_insert_insert_eq ts i rest ([RaiseMaxFrom c v (σ c)] ++ rest)).
    assert (Hl : (i < length ts)%nat) by (by eapply lookup_lt_Some).
    eapply rtc_l; [|apply rtc_refl]. destruct (Z.ltb_spec (σ c) v).
    - eapply (step_thread _ _ i _ _ _ []); [by rewrite list_lookup_insert_eq|by constructor].
    - eapply (step_thread _ _ i _ _ _ []); [by rewrite list_lookup_insert_eq|by constructor]. }
  assert (Hl : (i < length ts)%nat) by (by eapply lookup_lt_Some).
  destruct ins as [c n|c n|c v|c v|c v cur|c n peak|c cap]; try done; cbn [run_instr].
  1-3: eapply rtc_l; [|apply rtc_refl]; eapply (step_thread _ _ i _ _ _ []); [exact Hi|constructor].
  - by apply Hraise.
  - eapply rtc_l; [eapply (step_thread _ _ i); [exact Hi|constructor]|].
    rewrite <- (list_insert_insert_eq ts i rest ([RaiseMax peak (u64 (σ c + n))] ++ rest)).
    apply Hraise. by rewrite list_lookup_insert_eq.
  - destruct (Z.ltb_spec cap (σ c)).
    + eapply rtc_l; [eapply (step_thread _ _ i); [exact Hi|by constructor]|].
      rewrite <- (list_insert_insert_eq ts i rest ([Store c cap] ++ rest)).
      eapply rtc_l; [|apply rtc_refl].
      eapply (step_thread _ _ i _ _ _ []); [by rewrite list_lookup_insert_eq|constructor].
    + eapply rtc_l; [|apply rtc_refl]. eapply (step_thread _ _ i _ _ _ []); [exact Hi|by constructor].
Qed.

Lemma thread_runs (p : list instr) ts i (σ : RuntimeCounters) :
  ts !! i = Some p -> forallb fresh p = true -> rtc metrics_step (σ, ts) (run_instrs p σ, <[i := []]> ts).
Proof.
  revert ts σ. induction p as [|ins p IH]; intros ts σ Hi Hf.
  - rewrite list_insert_id by done. apply rtc_refl.
  - simpl in Hf. apply andb_true_iff in Hf as [Hf1 Hf2].
    assert (Hl : (i < length ts)%nat) by (by eapply lookup_lt_Some).
    etrans; [by apply (thread_instr σ ts i ins p)|].
    rewrite <- (list_insert_insert_eq ts i [] p). apply IH; [by rewrite list_lookup_insert_eq|done].
Qed.

Lemma complete_run (ts done : list (list instr)) (σ : RuntimeCounters) :
  forallb fresh (concat ts) = true ->
  rtc metrics_step (σ, done ++ ts) (run_instrs (concat ts) σ, done ++ map (fun _ => []) ts).
Proof.
  revert done σ. induction ts as [|p ts IH]; intros dn σ Hf; [apply rtc_refl|].
  simpl in Hf. rewrite forallb_app in Hf. apply andb_true_iff in Hf as [Hp Hts].
  etrans; [apply (thread_runs p _ (length dn)); [by rewrite list_lookup_middle|done]|].
  rewrite insert_app_r_alt, Nat.sub_diag by done. cbn [list_insert insert].
  specialize (IH (dn ++ [[]]) (run_instrs p σ) Hts). rewrite <- !app_assoc in IH. cbn [app] in IH.
  cbn [concat map]. unfold run_instrs in *. rewrite foldl_app. exact IH.
Qed.

Lemma metrics_steps_adds c s s' :
  rtc metrics_step s s' -> Forall (adds_only c) (concat s.2) ->
  Forall (adds_only c) (concat s'.2) /\ u64 (s'.1 c + total_weight c s'.2) = u64 (s.1 c + total_weight c s.2).
Proof.
  induction 1 as [|[σ ts] [σ1 ts1] s' Hs _ IH]; [done|]. intros Ha.
  destruct (adds_step c _ _ _ _ Hs Ha) as [H1 H2]. destruct (IH H1) as [? ->]. done.
Qed.

Lemma metrics_steps_raises c s s' :
  rtc metrics_step s s' ->
  Forall (raises_only c) (concat s.2) /\ Forall (seen_below c s.1) (concat s.2) ->
  maximum (s'.1 c) (samples c s'.2) = maximum (s.1 c) (samples c s.2).
Proof.
  induction 1 as [|[σ ts] [σ1 ts1] s' Hs _ IH]; [done|]. intros Ha.
  destruct (raises_step c _ _ _ _ Hs Ha) as [H1 H2]. by rewrite (IH H1).
Qed.

Lemma concat_done (ts : list (list instr)) : Forall (fun p => p = []) ts -> concat ts = [].
Proof. induction 1 as [|p ts -> _ IH]; done. Qed.

Lemma adds_fits c s s' :
  rtc metrics_step s s' -> Forall (adds_only c) (concat s.2) -> fits 64 (s.1 c) -> fits 64 (s'.1 c).
Proof.
  induction 1 as [|[σ ts] [σ1 ts1] s' Hs _ IH]; [done|]. intros Ha Hf. cbn [fst snd] in *.
  destruct (adds_step c _ _ _ _ Hs Ha) as [H1 _]. apply IH; [done|].
  inversion Hs as [? ? i ins rest ? left Hi Hins]; subst. destruct (concat_take_step ts i ins rest left Hi) as (o & Hp & _).
  rewrite Hp in Ha. apply Forall_cons in Ha as [Ha _].
  destruct Hins; simpl in *; counters; try (exact Hf); apply wrap_fits; lia.
Qed.

(** *** Histograms *)

(** The lower end of a bucket: the bound before it. *)
Definition bucket_floor (lo : Z) (bounds : list Z) (i : nat) : Z := default 0 ((lo :: bounds) !! i).

Lemma bucket_loop_above (bucket : Z -> Counter) bounds k v j :
  (forall x y, bucket x = bucket y -> x = y) -> j < k ->
  zsum (map (weight (bucket j)) (bucket_loop bucket bounds k v)) = 0.
Proof.
  intros Hinj. revert k. induction bounds as [|b bounds IH]; intros k Hj; simpl; [done|].
  destruct (v <=? b); [|apply IH; lia]. unfold zsum. simpl. rewrite decide_False; [done|].
  intros Heq%Hinj. lia.
Qed.

Lemma bucket_loop_weight (bucket : Z -> Counter) lo bounds k v i hi :
  (forall x y, bucket x = bucket y -> x = y) ->
  StronglySorted Z.le (lo :: bounds) -> bounds !! i = Some hi -> lo < v ->
  zsum (map (weight (bucket (k + Z.of_nat i))) (bucket_loop bucket bounds k v))
  = Z.b2z ((bucket_floor lo bounds i <? v) && (v <=? hi)).
Proof.
  intros Hinj. revert lo k i. induction bounds as [|b bounds IH]; intros lo k i Hs Hi Hlo; [done|].
  apply StronglySorted_inv in Hs as [Hs Hle]. destruct i as [|i]; simplify_eq/=.
  - rewrite Z.add_0_r. unfold bucket_floor. simpl. rewrite (proj2 (Z.ltb_lt lo v)) by done. simpl.
    destruct (Z.leb_spec v hi).
    + unfold zsum. simpl. by rewrite decide_True.
    + by rewrite bucket_loop_above by (done || lia).
  - replace (k + Z.of_nat (S i)) with (k + 1 + Z.of_nat i) by lia.
    change (bucket_floor lo (b :: bounds) (S i)) with (bucket_floor b bounds i).
    destruct (Z.leb_spec v b).
    + unfold zsum. simpl. rewrite decide_False by (intros Heq%Hinj; lia).
      destruct (Z.ltb_spec (bucket_floor b bounds i) v) as [Hf|]; [|done]. exfalso.
      assert (b <= bucket_floor b bounds i); [|lia]. unfold bucket_floor.
      destruct i as [|i]; simpl; [lia|]. apply StronglySorted_inv in Hs as [_ Hb].
      destruct (bounds !! i) as [x|] eqn:Hx; [exact (Forall_lookup_1 _ _ _ _ Hb Hx)|].
      apply lookup_ge_None in Hx. apply lookup_lt_Some in Hi. lia.
    + by apply IH.
Qed.

(** ** Properties *)

(** However the recording calls of any number of threads interleave, spurious failures
    of the compare-and-swap loops included, no update is lost: once every thread is done
    a counter that is only added to holds its old value plus all increments modulo 2^64,
    and one that is only raised holds the maximum of its old value and all samples; and
    such a complete run always exists. *)
Theorem metrics_updates_never_lost (σ : RuntimeCounters) (ts : list (list instr)) :
  forallb fresh (concat ts) = true -> (forall c, fits 64 (σ c)) ->
  (exists σ' ts', rtc metrics_step (σ, ts) (σ', ts') /\ Forall (fun p => p = []) ts')
  /\ forall σ' ts' c, rtc metrics_step (σ, ts) (σ', ts') -> Forall (fun p => p = []) ts' ->
       (Forall (adds_only c) (concat ts) -> σ' c = u64 (σ c + total_weight c ts))
       /\ (Forall (raises_only c) (concat ts) -> σ' c = maximum (σ c) (samples c ts)).
Proof.
  intros Hf Hfit. split.
  - exists (run_instrs (concat ts) σ), (map (fun _ => []) ts). split; [exact (complete_run ts [] σ Hf)|].
    apply Forall_map, Forall_true. done.
  - intros σ' ts' c Hr Hd. split; intros Ha.
    + pose proof (adds_fits c _ _ Hr Ha (Hfit c)) as Hff. destruct (metrics_steps_adds c _ _ Hr Ha) as [_ Heq].
      cbn [fst snd] in *. unfold total_weight in Heq at 1. rewrite (concat_done ts' Hd) in Heq. simpl in Heq.
      rewrite Z.add_0_r, (wrap_id 64 (σ' c)) in Heq by done. exact Heq.
    + assert (Hb : Forall (seen_below c σ) (concat ts)).
      { apply Forall_forall. intros ins Hin. rewrite forallb_forall in Hf.
        apply list_elem_of_In, Hf in Hin. by destruct ins. }
      pose proof (metrics_steps_raises c _ _ Hr (conj Ha Hb)) as Heq. cbn [fst snd] in *.
      unfold samples in Heq at 1. by rewrite (concat_done ts' Hd) in Heq.
Qed.

Lemma metrics_updates_never_lost_witness :
  exists σ' ts',
    rtc metrics_step (zero_counters, [record_packet_payload 40; record_packet_payload 7]) (σ', ts')
    /\ Forall (fun p => p = []) ts'
    /\ σ' packet_payload_sum_bytes = 47 /\ σ' packet_payload_count = 2 /\ σ' packet_payload_max_bytes = 40.
Proof.
  destruct (metrics_updates_never_lost zero_counters [record_packet_payload 40; record_packet_payload 7])
    as [(σ' & ts' & Hr & Hd) Hall]; [by vm_compute|intros c; vm_compute; done|].
  exists σ', ts'. split; [done|]. split; [done|].
  assert (Hadd : forall c, (c = packet_payload_sum_bytes \/ c = packet_payload_count) ->
            Forall (adds_only c) (concat [record_packet_payload 40; record_packet_payload 7])).
  { intros c [->| ->]; repeat constructor; done. }
  split; [|split].
  - rewrite (proj1 (Hall σ' ts' _ Hr Hd)); [by vm_compute|auto].
  - rewrite (proj1 (Hall σ' ts' _ Hr Hd)); [by vm_compute|auto].
  - rewrite (proj2 (Hall σ' ts' _ Hr Hd)); [by vm_compute|repeat constructor; done].
Defined.


(** The round-trip histogram is exact: bucket [i] of [rudp_rtt_ms_bucket_counts]
    is incremented once for each non-zero sample above the bound before it and at most
    its own bound, whichever threads record the samples, so the cumulative sums are the
    numbers of samples up to each bound. *)
Theorem rtt_histogram_exact (rtts : list Z) (i : nat) (hi : Z) :
  Forall (fits 32) rtts -> kRudpRttBucketUpperBoundsMs !! i = Some hi ->
  total_weight (rudp_rtt_ms_bucket_counts (Z.of_nat i)) (map record_rudp_rtt_ms rtts)
  = zlen (filter (fun v => bucket_floor 0 kRudpRttBucketUpperBoundsMs i < v <= hi) rtts).
Proof.
  intros Hfit Hi. unfold total_weight. induction Hfit as [|v rtts Hv _ IH]; [done|].
  cbn [map concat]. rewrite map_app, zsum_app, IH. clear IH. rewrite filter_cons.
  assert (Hfl : 0 <= bucket_floor 0 kRudpRttBucketUpperBoundsMs i).
  { do 11 (destruct i as [|i]; [vm_compute; congruence|]). done. }
  unfold record_rudp_rtt_ms. destruct (Z.eqb_spec v 0) as [->|Hnz].
  - rewrite decide_False by lia. done.
  - rewrite map_app, zsum_app.
    pose proof (bucket_loop_weight rudp_rtt_ms_bucket_counts 0 kRudpRttBucketUpperBoundsMs 0 v i hi) as Hb.
    rewrite Z.add_0_l in Hb. rewrite Hb; [| |by repeat constructor|done|widths; lia]; [|by intros ? ? [= ->]].
    case_decide; destruct (Z.ltb_spec (bucket_floor 0 kRudpRttBucketUpperBoundsMs i) v), (Z.leb_spec v hi);
      try lia; cbn [length andb Z.b2z map weight]; unfold zsum; simpl; lia.
Qed.

Lemma rtt_histogram_exact_witness :
  total_weight (rudp_rtt_ms_bucket_counts 3) (map record_rudp_rtt_ms [7; 10; 11; 0; 5]) = 2.
Proof.
  etrans; [apply (rtt_histogram_exact [7; 10; 11; 0; 5] 3 10); [|done]|by vm_compute].
  do 5 (apply Forall_cons_2; [by vm_compute|]). constructor.
Defined.

(** A snapshot lists exactly the opcodes dispatched at least once, each with its count
    and in increasing order, and copies every other counter. *)
Theorem snapshot_exact (σ : RuntimeCounters) :
  (forall op n, (op, n) ∈ opcode_counts (snapshot σ) <-> fits 16 op /\ n = σ (opcode_counters op) /\ n <> 0)
  /\ StronglySorted Z.lt (map fst (opcode_counts (snapshot σ)))
  /\ forall c, (forall i, c <> opcode_counters i) -> snap_counter (snapshot σ) c = σ c.
Proof.
  assert (Hidx : forall i, i ∈ opcode_index <-> fits 16 i).
  { intros i. unfold opcode_index. pose proof (Z2Nat.id 65536 ltac:(done)) as HN.
    revert HN. generalize (Z.to_nat 65536) as N. intros N HN. rewrite list_elem_of_fmap. unfold fits. split.
    - intros (k & -> & Hk%elem_of_seq). lia.
    - intros Hi. exists (Z.to_nat i). rewrite elem_of_seq. lia. }
  assert (Hs : StronglySorted Z.lt opcode_index).
  { unfold opcode_index. generalize (Z.to_nat 65536) as n, 0%nat as a.
    induction n; intros a; constructor; [done|].
    apply Forall_map, Forall_forall. intros k Hk%elem_of_seq. simpl. lia. }
  unfold snapshot. generalize dependent opcode_index. intros index Hidx Hs. cbn [opcode_counts snap_counter].
  split_and!.
  - intros op n. rewrite list_elem_of_fmap. split.
    + intros (i & [= -> ->] & [Hne Hi%Hidx]%list_elem_of_filter). rewrite (wrap_id 16 i) by done. done.
    + intros (Hop & -> & Hne). exists op. rewrite (wrap_id 16 op) by done. split; [done|].
      apply list_elem_of_filter. by rewrite Hidx.
  - rewrite map_map. cbn [fst].
    assert (Hall : Forall (fits 16) index) by (apply Forall_forall; intros; by apply Hidx).
    clear Hidx. induction Hs as [|i l Hs IH Hlt]; [constructor|]. apply Forall_cons in Hall as [Hi Hall].
    rewrite filter_cons. case_decide; [|auto]. simpl. constructor; [auto|].
    apply Forall_map, Forall_forall. intros k [_ Hk]%list_elem_of_filter. rewrite Forall_forall in Hlt, Hall.
    rewrite !wrap_id by auto. auto.
  - intros c Hc. destruct c; try done. by destruct (Hc i).
Qed.
