(* ===== verification/Monitor.v ===== *)
(** Threads that share a mutex and one condition variable.

    The queues of [core/concurrent] are monitors: an operation takes the lock, may wait
    on the condition variable until its predicate holds, changes the state and
    notifies one or all waiting threads.  A critical section is atomic, so it is a
    function of the protected state: [enter] is the first one, [recheck] the one that
    runs when [cv.wait] has been woken and evaluates the predicate again.  The threads
    interleave freely between critical sections, a notification wakes any sleeping
    thread, and a sleeping thread may wake up without a notification. *)

From S2P Require Import Prelude.

(** ** Definitions *)

Inductive notification := NoNotify | NotifyOne | NotifyAll.

Inductive event (J : Type) := Quiet | Pushed (j : J) | Popped (j : J).
Arguments Quiet {J}.
Arguments Pushed {J} j.
Arguments Popped {J} j.

(** What a critical section does: the predicate fails and the thread sleeps, or the
    operation runs to its end and owes a notification. *)
Inductive attempt (St J : Type) := Sleep | Leave (s : St) (n : notification) (e : event J).
Arguments Sleep {St J}.
Arguments Leave {St J} s n e.

Class Monitor (Op St J : Type) := {
  enter : Op -> St -> attempt St J;
  recheck : Op -> St -> attempt St J;
}.

Inductive thread (Op : Type) :=
  | Run (code : list Op)
  | Blocked (op : Op) (code : list Op)
  | Woken (op : Op) (code : list Op)
  | Notifying (n : notification) (code : list Op).
Arguments Run {Op} code.
Arguments Blocked {Op} op code.
Arguments Woken {Op} op code.
Arguments Notifying {Op} n code.

(** The lists [pushed] and [popped] record the jobs in the order of the critical
    sections that moved them. *)
Record sys (Op St J : Type) := mkSys {
  store : St;
  threads : list (thread Op);
  pushed : list J;
  popped : list J;
}.
Arguments mkSys {Op St J} store threads pushed popped.
Arguments store {Op St J} _.
Arguments threads {Op St J} _.
Arguments pushed {Op St J} _.
Arguments popped {Op St J} _.

Section Semantics.
Context {Op St J : Type} `{Mon : !Monitor Op St J}.
Implicit Types (σ : sys Op St J) (op : Op) (code : list Op).

Definition start (s : St) (codes : list (list Op)) : sys Op St J := mkSys s (map Run codes) [] [].

Definition commit (i : nat) op code (a : attempt St J) σ : sys Op St J :=
  match a with
  | Sleep => mkSys (store σ) (<[i := Blocked op code]> (threads σ)) (pushed σ) (popped σ)
  | Leave s n e =>
      mkSys s (<[i := Notifying n code]> (threads σ))
        (pushed σ ++ match e with Pushed j => [j] | _ => [] end)
        (popped σ ++ match e with Popped j => [j] | _ => [] end)
  end.

Definition set_threads (ts : list (thread Op)) σ : sys Op St J :=
  mkSys (store σ) ts (pushed σ) (popped σ).

Definition is_blocked (t : thread Op) : bool := match t with Blocked _ _ => true | _ => false end.
Definition is_woken (t : thread Op) : bool := match t with Woken _ _ => true | _ => false end.
Definition is_notifying (n : notification) (t : thread Op) : bool :=
  match t, n with
  | Notifying NotifyOne _, NotifyOne | Notifying NotifyAll _, NotifyAll => true
  | _, _ => false
  end.

Definition wake (t : thread Op) : thread Op :=
  match t with Blocked op code => Woken op code | t => t end.

(** The steps of the program: a critical section, or a notification. *)
Inductive mstep : sys Op St J -> sys Op St J -> Prop :=
  | step_enter σ i op code :
      threads σ !! i = Some (Run (op :: code)) ->
      mstep σ (commit i op code (enter op (store σ)) σ)
  | step_recheck σ i op code :
      threads σ !! i = Some (Woken op code) ->
      mstep σ (commit i op code (recheck op (store σ)) σ)
  | step_no_notify σ i code :
      threads σ !! i = Some (Notifying NoNotify code) ->
      mstep σ (set_threads (<[i := Run code]> (threads σ)) σ)
  | step_notify_one σ i code k op code' :
      threads σ !! i = Some (Notifying NotifyOne code) ->
      threads σ !! k = Some (Blocked op code') ->
      mstep σ (set_threads (<[k := Woken op code']> (<[i := Run code]> (threads σ))) σ)
  | step_notify_nobody σ i code :
      threads σ !! i = Some (Notifying NotifyOne code) ->
      existsb is_blocked (threads σ) = false ->
      mstep σ (set_threads (<[i := Run code]> (threads σ)) σ)
  | step_notify_all σ i code :
      threads σ !! i = Some (Notifying NotifyAll code) ->
      mstep σ (set_threads (map wake (<[i := Run code]> (threads σ))) σ).

(** A sleeping thread wakes up although nobody notified it. *)
Inductive spurious : sys Op St J -> sys Op St J -> Prop :=
  | step_spurious σ k op code :
      threads σ !! k = Some (Blocked op code) ->
      spurious σ (set_threads (<[k := Woken op code]> (threads σ)) σ).

Definition reach : sys Op St J -> sys Op St J -> Prop := rtc (fun σ σ' => mstep σ σ' \/ spurious σ σ').

Definition stuck σ : Prop := forall σ', ~ mstep σ σ'.

(** A schedule names the thread that steps next and the sleeper its [notify_one] picks. *)
Definition exec_one (c : nat * nat) σ : option (sys Op St J) :=
  let '(i, k) := c in
  match threads σ !! i with
  | Some (Run (op :: code)) => Some (commit i op code (enter op (store σ)) σ)
  | Some (Woken op code) => Some (commit i op code (recheck op (store σ)) σ)
  | Some (Notifying NoNotify code) => Some (set_threads (<[i := Run code]> (threads σ)) σ)
  | Some (Notifying NotifyOne code) =>
      match threads σ !! k with
      | Some (Blocked op code') =>
          Some (set_threads (<[k := Woken op code']> (<[i := Run code]> (threads σ))) σ)
      | _ =>
          if existsb is_blocked (threads σ) then None
          else Some (set_threads (<[i := Run code]> (threads σ)) σ)
      end
  | Some (Notifying NotifyAll code) =>
      Some (set_threads (map wake (<[i := Run code]> (threads σ))) σ)
  | _ => None
  end.

Fixpoint exec (cs : list (nat * nat)) σ : option (sys Op St J) :=
  match cs with
  | [] => Some σ
  | c :: cs => σ' ← exec_one c σ; exec cs σ'
  end.

(** Number of threads of a kind. *)
Definition count (f : thread Op -> bool) (ts : list (thread Op)) : nat := length (List.filter f ts).

(** Every thread has finished its code or sleeps. *)
Definition at_rest (t : thread Op) : bool :=
  match t with Run [] | Blocked _ _ => true | _ => false end.
End Semantics.

(** What a queue built as a monitor promises: its contents change only by a push at the
    back within the capacity or a pop from the front. *)
Class QueueMonitor (Op St J : Type) `{Mon : !Monitor Op St J} := {
  contents : St -> list J;
  capacity : St -> nat;
  stopped : St -> bool;
  is_pop : Op -> bool;
  leave_ok op s s' n e :
    enter op s = Leave s' n e \/ recheck op s = Leave s' n e ->
    capacity s' = capacity s
    /\ (stopped s = false -> stopped s' = true -> n = NotifyAll)
    /\ match e with
       | Quiet => contents s' = contents s
       | Pushed j => contents s' = contents s ++ [j] /\ n = NotifyOne
                     /\ ((0 < capacity s)%nat -> (length (contents s) < capacity s)%nat)
       | Popped j => contents s = j :: contents s'
       end;
  sleep_ok op s :
    enter op s = Sleep \/ recheck op s = Sleep ->
    stopped s = false /\ (capacity s = 0%nat -> is_pop op = true -> contents s = []);
  enter_sleep op s : enter op s = Sleep -> capacity s = 0%nat -> is_pop op = true;
  pop_ok op s s' n e :
    is_pop op = true -> recheck op s = Leave s' n e -> contents s = [] \/ exists j, e = Popped j;
}.

(** ** Lemmas *)

Section Theory.
Context {Op St J : Type} `{Mon : !Monitor Op St J, QM : !QueueMonitor Op St J}.
Implicit Types (σ : sys Op St J) (op : Op) (code : list Op).

Lemma exec_one_sound c σ σ' : exec_one c σ = Some σ' -> mstep σ σ'.
Proof.
  destruct c as [i k]. unfold exec_one. intros H.
  destruct (threads σ !! i) as [[[|op code]| |op code|[] code]|] eqn:Hi; simplify_eq/=; try by econstructor.
  destruct (threads σ !! k) as [[|op code'| |]|] eqn:Hk; simplify_eq/=; try by econstructor.
  all: destruct (existsb is_blocked (threads σ)) eqn:Hb; simplify_eq/=; by econstructor.
Qed.

Lemma exec_reach cs σ σ' : exec cs σ = Some σ' -> reach σ σ'.
Proof.
  revert σ. induction cs as [|c cs IH]; simpl; intros σ H; [simplify_eq; apply rtc_refl|].
  destruct (exec_one c σ) as [σ1|] eqn:H1; [|done]. eapply rtc_l; [|by apply IH].
  left. by eapply exec_one_sound.
Qed.

(** A configuration is stuck exactly when every thread has finished or sleeps. *)
Lemma stuck_at_rest σ : stuck σ <-> forallb at_rest (threads σ) = true.
Proof.
  rewrite forallb_forall. split.
  - intros Hst t Hin%list_elem_of_In%list_elem_of_lookup_1. destruct Hin as [i Hi].
    destruct t as [[|op code]|op code|op code|[] code]; simpl; try done; exfalso.
    + by apply (Hst _ (step_enter _ _ _ _ Hi)).
    + by apply (Hst _ (step_recheck _ _ _ _ Hi)).
    + by apply (Hst _ (step_no_notify _ _ _ Hi)).
    + destruct (existsb is_blocked (threads σ)) eqn:Hb.
      * apply existsb_exists in Hb as (t & Hin%list_elem_of_In%list_elem_of_lookup_1 & Ht).
        destruct Hin as [k Hk]. destruct t as [|op' code'| |]; try done.
        by apply (Hst _ (step_notify_one _ _ _ _ _ _ Hi Hk)).
      * by apply (Hst _ (step_notify_nobody _ _ _ Hi Hb)).
    + by apply (Hst _ (step_notify_all _ _ _ Hi)).
  - intros Hrest σ' Hstep.
    assert (Hno : forall i t, threads σ !! i = Some t -> at_rest t = true).
    { intros i t Hi. apply Hrest, list_elem_of_In. by eapply list_elem_of_lookup_2. }
    inversion Hstep; subst;
      repeat match goal with H : threads σ !! _ = Some _ |- _ => apply Hno in H end; done.
Qed.

Lemma count_insert f (ts : list (thread Op)) i t t' :
  ts !! i = Some t ->
  (count f (<[i := t']> ts) + Nat.b2n (f t) = count f ts + Nat.b2n (f t'))%nat.
Proof.
  revert i. unfold count. induction ts as [|u ts IH]; intros [|i] Hi; simplify_eq/=.
  - destruct (f t), (f t'); simpl; lia.
  - specialize (IH _ Hi). destruct (f u); simpl; lia.
Qed.

Lemma count_map_wake (ts : list (thread Op)) : count is_blocked (map wake ts) = 0%nat.
Proof. unfold count. induction ts as [|[] ts IH]; simpl; auto. Qed.

Lemma count_none (ts : list (thread Op)) f : existsb f ts = false -> count f ts = 0%nat.
Proof. unfold count. induction ts as [|t ts IH]; simpl; [done|]. destruct (f t); simpl; [done|exact IH]. Qed.

Lemma count_some (ts : list (thread Op)) f i t : ts !! i = Some t -> f t = true -> (0 < count f ts)%nat.
Proof.
  unfold count. revert i. induction ts as [|u ts IH]; intros [|i] Hi Hf; simplify_eq/=.
  - rewrite Hf. simpl. lia.
  - destruct (f u); simpl; [lia|eauto].
Qed.

(** *** First in, first out *)

Definition fifo_inv (σ : sys Op St J) : Prop :=
  pushed σ = popped σ ++ contents (store σ)
  /\ ((0 < capacity (store σ))%nat -> (length (contents (store σ)) <= capacity (store σ))%nat).

Lemma commit_fifo i op code σ a :
  a = enter op (store σ) \/ a = recheck op (store σ) -> fifo_inv σ -> fifo_inv (commit i op code a σ).
Proof.
  intros Ha (Heq & Hcap). destruct a as [|s n e]; [done|].
  destruct (leave_ok op (store σ) s n e) as (Hc & _ & He); [naive_solver|].
  unfold fifo_inv. simpl. rewrite Hc. destruct e as [|j|j]; rewrite ?app_nil_r.
  - rewrite He. done.
  - destruct He as (-> & _ & Hlt). rewrite length_app. simpl. split; [|lia]. by rewrite Heq, app_assoc.
  - rewrite He in *. simpl in *. split; [|lia]. by rewrite Heq, <- app_assoc.
Qed.

Lemma fifo_reach σ σ' : reach σ σ' -> fifo_inv σ -> fifo_inv σ' /\ capacity (store σ') = capacity (store σ).
Proof.
  intros Hr. unfold reach in Hr; induction Hr as [|σ σ1 σ2 Hstep _ IH]; [done|]. intros Hinv.
  assert (fifo_inv σ1 /\ capacity (store σ1) = capacity (store σ)) as [H1 H2].
  { destruct Hstep as [Hs|Hs]; inversion Hs; subst; try done;
      (split; [apply commit_fifo; auto|]);
      match goal with |- context [commit _ ?op _ (?g ?op ?s) _] =>
        destruct (g op s) as [|s1 n e] eqn:Ha; [done|];
        destruct (leave_ok op s s1 n e) as (Hc & _); [naive_solver|]; exact Hc end. }
  destruct (IH H1) as [? ->]. done.
Qed.

(** *** Wake-ups *)

(** While somebody sleeps, every job of an unbounded queue has a thread that is about
    to take it: one that was woken, or one that is about to notify. *)
Definition wakeup_inv (σ : sys Op St J) : Prop :=
  capacity (store σ) = 0%nat
  /\ Forall (fun t => match t with Blocked op _ | Woken op _ => is_pop op = true | _ => True end) (threads σ)
  /\ ((0 < count is_blocked (threads σ))%nat ->
      (length (contents (store σ)) <= count is_woken (threads σ) + count (is_notifying NotifyOne) (threads σ))%nat).

(** A stop that has not notified yet is still going to. *)
Definition stop_inv (σ : sys Op St J) : Prop :=
  stopped (store σ) = true -> (0 < count is_blocked (threads σ))%nat ->
  (0 < count (is_notifying NotifyAll) (threads σ))%nat.

Ltac count_at Hi t' :=
  let H1 := fresh in let H2 := fresh in let H3 := fresh in let H4 := fresh in
  pose proof (count_insert is_blocked _ _ _ t' Hi) as H1;
  pose proof (count_insert is_woken _ _ _ t' Hi) as H2;
  pose proof (count_insert (is_notifying NotifyOne) _ _ _ t' Hi) as H3;
  pose proof (count_insert (is_notifying NotifyAll) _ _ _ t' Hi) as H4;
  cbn [is_blocked is_woken is_notifying Nat.b2n] in H1, H2, H3, H4.

Lemma commit_wakeup_enter i op code σ :
  threads σ !! i = Some (Run (op :: code)) -> wakeup_inv σ ->
  wakeup_inv (commit i op code (enter op (store σ)) σ).
Proof.
  intros Hi (Hcap & Hpop & Hw). destruct (enter op (store σ)) as [|s n e] eqn:He.
  - destruct (sleep_ok op (store σ)) as (_ & Hs); [by left|].
    pose proof (enter_sleep op (store σ) He Hcap) as Hp. pose proof (Hs Hcap Hp) as Hnil.
    split; [done|]. simpl. split; [by apply Forall_insert|]. rewrite Hnil. simpl. lia.
  - destruct (leave_ok op (store σ) s n e) as (Hc & _ & Hev); [by left|].
    split; [simpl; congruence|]. simpl. split; [by apply Forall_insert|].
    count_at Hi (@Notifying Op n code). destruct e as [|j|j]; [rewrite Hev| |].
    + destruct n; simpl in *; lia.
    + destruct Hev as (-> & -> & _). rewrite length_app. simpl in *. lia.
    + rewrite Hev in Hw. destruct n; simpl in *; lia.
Qed.

Lemma commit_wakeup_recheck i op code σ :
  threads σ !! i = Some (Woken op code) -> wakeup_inv σ ->
  wakeup_inv (commit i op code (recheck op (store σ)) σ).
Proof.
  intros Hi (Hcap & Hpop & Hw). pose proof (Forall_lookup_1 _ _ _ _ Hpop Hi) as Hp. simpl in Hp.
  destruct (recheck op (store σ)) as [|s n e] eqn:He.
  - destruct (sleep_ok op (store σ)) as (_ & Hs); [by right|]. pose proof (Hs Hcap Hp) as Hnil.
    split; [done|]. simpl. split; [by apply Forall_insert|]. rewrite Hnil. simpl. lia.
  - destruct (leave_ok op (store σ) s n e) as (Hc & _ & Hev); [by right|].
    split; [simpl; congruence|]. simpl. split; [by apply Forall_insert|].
    count_at Hi (@Notifying Op n code).
    destruct (pop_ok op (store σ) s n e Hp He) as [Hnil|[j ->]].
    + rewrite Hnil in *. destruct e as [|j|j]; [rewrite Hev; simpl; lia| |done].
      destruct Hev as (-> & -> & _). simpl in *. lia.
    + rewrite Hev in Hw. destruct n; simpl in *; lia.
Qed.

Lemma wake_count (ts : list (thread Op)) :
  (count is_woken ts <= count is_woken (map wake ts))%nat
  /\ count (is_notifying NotifyOne) (map wake ts) = count (is_notifying NotifyOne) ts.
Proof. unfold count. induction ts as [|[|op c|op c|[] c] ts [IH1 IH2]]; simpl; lia. Qed.

Lemma wakeup_step σ σ' : mstep σ σ' \/ spurious σ σ' -> wakeup_inv σ -> wakeup_inv σ'.
Proof.
  intros [Hs|Hs] Hinv.
  - destruct Hs as [σ i op code Hi|σ i op code Hi|σ i code Hi|σ i code k op code' Hi Hk|σ i code Hi Hb|σ i code Hi];
      [by apply commit_wakeup_enter|by apply commit_wakeup_recheck| | | |];
      destruct Hinv as (Hcap & Hpop & Hw); (split; [done|]); cbn [set_threads store threads];
      count_at Hi (@Run Op code).
    + split; [by apply Forall_insert|]. lia.
    + assert (Hik : <[i := Run code]> (threads σ) !! k = Some (Blocked op code')).
      { rewrite list_lookup_insert_ne; [done|]. intros ->. congruence. }
      count_at Hik (@Woken Op op code'). split; [|lia].
      apply Forall_insert; [by apply Forall_insert|]. exact (Forall_lookup_1 _ _ _ _ Hpop Hk).
    + split; [by apply Forall_insert|]. apply count_none in Hb. lia.
    + split; [|rewrite count_map_wake; lia]. apply Forall_map.
      apply (Forall_impl _ _ _ (Forall_insert _ _ i (Run code) Hpop I)). by intros [].
  - destruct Hs as [σ k op code Hk]. destruct Hinv as (Hcap & Hpop & Hw). split; [done|].
    cbn [set_threads store threads]. count_at Hk (@Woken Op op code). split; [|lia].
    apply Forall_insert; [done|]. exact (Forall_lookup_1 _ _ _ _ Hpop Hk).
Qed.

Lemma commit_stop i op code σ a t :
  threads σ !! i = Some t -> (forall n c, t <> Notifying n c) -> (forall op c, t <> Blocked op c) ->
  a = enter op (store σ) \/ a = recheck op (store σ) -> stop_inv σ -> stop_inv (commit i op code a σ).
Proof.
  intros Hi Hn Hb Ha Hinv. destruct a as [|s n e]; unfold stop_inv; simpl.
  - destruct (sleep_ok op (store σ)) as (-> & _); [naive_solver|done].
  - destruct (leave_ok op (store σ) s n e) as (_ & Hst & _); [naive_solver|]. intros Hs.
    count_at Hi (@Notifying Op n code).
    destruct (stopped (store σ)) eqn:Hss; [specialize (Hinv Hss)|rewrite (Hst eq_refl Hs) in *; intros _];
      destruct t; simpl in *; try (naive_solver lia); destruct n; simpl in *; naive_solver lia.
Qed.

Lemma stop_step σ σ' : mstep σ σ' \/ spurious σ σ' -> stop_inv σ -> stop_inv σ'.
Proof.
  intros [Hs|Hs] Hinv.
  - destruct Hs as [σ i op code Hi|σ i op code Hi|σ i code Hi|σ i code k op code' Hi Hk|σ i code Hi Hb|σ i code Hi];
      [eapply commit_stop; eauto|eapply commit_stop; eauto| | | |];
      intros Hst; specialize (Hinv Hst); cbn [set_threads store threads]; count_at Hi (@Run Op code);
      [lia| |lia|rewrite count_map_wake; lia].
    assert (Hik : <[i := Run code]> (threads σ) !! k = Some (Blocked op code')).
    { rewrite list_lookup_insert_ne; [done|]. intros ->. congruence. }
    count_at Hik (@Woken Op op code'). lia.
  - destruct Hs as [σ k op code Hk]. intros Hst. specialize (Hinv Hst). cbn [set_threads store threads].
    count_at Hk (@Woken Op op code). lia.
Qed.

Lemma inv_reach (P : sys Op St J -> Prop) σ σ' :
  (forall σ σ', mstep σ σ' \/ spurious σ σ' -> P σ -> P σ') -> reach σ σ' -> P σ -> P σ'.
Proof. intros Hstep Hr. unfold reach in Hr. induction Hr; eauto. Qed.

Lemma at_rest_count σ f :
  (forall t, at_rest t = true -> f t = false) -> forallb at_rest (threads σ) = true -> count f (threads σ) = 0%nat.
Proof.
  intros Hf. unfold count. induction (threads σ) as [|t ts IH]; simpl; [done|].
  intros [Ht Hts]%andb_true_iff. rewrite (Hf t Ht). auto.
Qed.

Lemma start_count (f : thread Op -> bool) (s : St) codes :
  (forall c, f (Run c) = false) -> count f (threads (start (J := J) s codes)) = 0%nat.
Proof. intros Hf. unfold count, start. simpl. induction codes; simpl; [done|]. by rewrite Hf. Qed.

(** *** The guarantees of a queue *)

Lemma queue_fifo s codes σ :
  contents s = [] -> reach (start s codes) σ ->
  pushed σ = popped σ ++ contents (store σ)
  /\ capacity (store σ) = capacity s
  /\ ((0 < capacity s)%nat -> (length (contents (store σ)) <= capacity s)%nat).
Proof.
  intros Hnil Hr. destruct (fifo_reach _ _ Hr) as [[H1 H2] Hc].
  { split; simpl; rewrite Hnil; [done|simpl; lia]. }
  simpl in Hc. rewrite Hc in H2. done.
Qed.

Lemma queue_no_lost_wakeup s codes σ i op code :
  contents s = [] -> capacity s = 0%nat -> reach (start s codes) σ -> stuck σ ->
  threads σ !! i = Some (Blocked op code) -> is_pop op = true /\ contents (store σ) = [].
Proof.
  intros Hnil Hcap Hr Hst%stuck_at_rest Hi.
  destruct (inv_reach wakeup_inv _ _ wakeup_step Hr) as (_ & Hpop & Hw).
  { split; [done|]. split; [|rewrite start_count by done; lia]. apply Forall_map, Forall_true. done. }
  split; [exact (Forall_lookup_1 _ _ _ _ Hpop Hi)|].
  pose proof (count_some _ is_blocked _ _ Hi eq_refl).
  rewrite (at_rest_count σ is_woken), (at_rest_count σ (is_notifying NotifyOne)) in Hw
    by (done || by intros [[]| | |]).
  destruct (contents (store σ)); [done|]. simpl in Hw. lia.
Qed.

Lemma queue_stop_wakes s codes σ i op code :
  stopped s = false -> reach (start s codes) σ -> stuck σ -> stopped (store σ) = true ->
  threads σ !! i <> Some (Blocked op code).
Proof.
  intros Hs Hr Hst%stuck_at_rest Hstop Hi.
  pose proof (inv_reach stop_inv _ _ stop_step Hr) as Hinv.
  pose proof (count_some _ is_blocked _ _ Hi eq_refl) as Hb.
  apply Hinv in Hb; [|intros H; simpl in H; congruence|done].
  rewrite at_rest_count in Hb by (done || by intros [[]| | |]). lia.
Qed.
End Theory.
