(* ===== verification/JobQueue.v ===== *)
(** The job queue and the locked queues, [core/src/concurrent/job_queue.cpp] and
    [core/concurrent/locked_queue.hpp], as monitors.

    The critical sections are the functions [jq_enter], [lq_attempt] and [wq_attempt].
    [JobQueue::Push] measures how long it waited; the time is an argument of its
    operation.  The state records the instructions issued to [runtime_metrics]. *)

From S2P Require Import Prelude RuntimeMetrics Monitor.

(** ** Definitions *)

Section Queues.
Context {J : Type}.

Record JobQueue := mkJobQueue {
  jobs_ : list J;
  stopping_ : bool;
  max_size_ : nat;
  jq_metrics : list instr;
}.

Definition new_JobQueue (max_size : nat) : JobQueue :=
  mkJobQueue [] false max_size (register_job_queue_capacity (Z.of_nat max_size)).

(** The job of an operation is [None] when the function object is empty. *)
Inductive JobOp := OpPush (job : option J) (waited : Z) | OpTryPush (job : option J) | OpPop | OpStop.

Definition jq_log (m : list instr) (q : JobQueue) : JobQueue :=
  mkJobQueue (jobs_ q) (stopping_ q) (max_size_ q) (jq_metrics q ++ m).
Definition jq_depth (q : JobQueue) : JobQueue := jq_log (record_job_queue_depth (zlen (jobs_ q))) q.
Definition jq_full (q : JobQueue) : bool := (0 <? max_size_ q)%nat && (max_size_ q <=? length (jobs_ q))%nat.

Definition jq_push (j : J) (q : JobQueue) : attempt JobQueue J :=
  Leave (jq_depth (mkJobQueue (jobs_ q ++ [j]) (stopping_ q) (max_size_ q) (jq_metrics q))) NotifyOne (Pushed j).

Definition Push_enter (job : option J) (q : JobQueue) : attempt JobQueue J :=
  match job with
  | None => Leave q NoNotify Quiet
  | Some j =>
      if stopping_ q then Leave q NoNotify Quiet
      else if jq_full q then Sleep
      else jq_push j q
  end.

Definition Push_recheck (job : option J) (waited : Z) (q : JobQueue) : attempt JobQueue J :=
  match job with
  | None => Leave q NoNotify Quiet
  | Some j =>
      if negb (stopping_ q || (length (jobs_ q) <? max_size_ q)%nat) then Sleep
      else
        let q := jq_log (record_job_queue_push_wait waited) q in
        if stopping_ q then Leave q NoNotify Quiet else jq_push j q
  end.

Definition TryPush (job : option J) (q : JobQueue) : attempt JobQueue J :=
  match job with
  | None => Leave q NoNotify Quiet
  | Some j =>
      if stopping_ q then Leave q NoNotify Quiet
      else if jq_full q then Leave (jq_depth (jq_log record_job_queue_reject q)) NoNotify Quiet
      else jq_push j q
  end.

Definition Pop (q : JobQueue) : attempt JobQueue J :=
  match jobs_ q with
  | [] => if stopping_ q then Leave (jq_depth q) NoNotify Quiet else Sleep
  | j :: rest =>
      Leave (jq_depth (mkJobQueue rest (stopping_ q) (max_size_ q) (jq_metrics q)))
        (if (0 <? max_size_ q)%nat then NotifyOne else NoNotify) (Popped j)
  end.

Definition Stop (q : JobQueue) : attempt JobQueue J :=
  Leave (jq_depth (mkJobQueue (jobs_ q) true (max_size_ q) (jq_metrics q))) NotifyAll Quiet.

Definition jq_enter (op : JobOp) (q : JobQueue) : attempt JobQueue J :=
  match op with
  | OpPush job _ => Push_enter job q
  | OpTryPush job => TryPush job q
  | OpPop => Pop q
  | OpStop => Stop q
  end.

Definition jq_recheck (op : JobOp) (q : JobQueue) : attempt JobQueue J :=
  match op with OpPush job waited => Push_recheck job waited q | op => jq_enter op q end.

#[export] Instance JobQueue_monitor : Monitor JobOp JobQueue J := {| enter := jq_enter; recheck := jq_recheck |}.

(** [LockedQueue] and [LockedWaitQueue]: the flag [shutdown_] stays false in the base
    class, whose [push] does not look at it. *)
Record LockedQueue := mkLockedQueue { queue_ : list J; capacity_ : nat; shutdown_ : bool }.

Definition new_LockedQueue (capacity : nat) : LockedQueue := mkLockedQueue [] capacity false.

Definition lq_room (q : LockedQueue) : bool := (capacity_ q =? 0)%nat || (length (queue_ q) <? capacity_ q)%nat.
Definition lq_put (j : J) (q : LockedQueue) : attempt LockedQueue J :=
  Leave (mkLockedQueue (queue_ q ++ [j]) (capacity_ q) (shutdown_ q)) NotifyOne (Pushed j).
Definition lq_take (j : J) (rest : list J) (q : LockedQueue) : attempt LockedQueue J :=
  Leave (mkLockedQueue rest (capacity_ q) (shutdown_ q))
    (if (0 <? capacity_ q)%nat then NotifyOne else NoNotify) (Popped j).

Definition lq_push (j : J) (q : LockedQueue) : attempt LockedQueue J := if lq_room q then lq_put j q else Sleep.

(** [push_swap] and [push_reset] leave the queue as [push] does; they hand an empty item
    back to the caller. *)
Definition push_swap (j : J) (q : LockedQueue) : attempt LockedQueue J := lq_push j q.
Definition push_reset (j : J) (q : LockedQueue) : attempt LockedQueue J := push_swap j q.

Definition try_pop (q : LockedQueue) : attempt LockedQueue J :=
  match queue_ q with [] => Leave q NoNotify Quiet | j :: rest => lq_take j rest q end.

Definition try_push (j : J) (q : LockedQueue) : attempt LockedQueue J :=
  if (0 <? capacity_ q)%nat && (capacity_ q <=? length (queue_ q))%nat then Leave q NoNotify Quiet
  else lq_put j q.

Definition pop_blocking (q : LockedQueue) : attempt LockedQueue J :=
  match queue_ q with
  | [] => if shutdown_ q then Leave q NoNotify Quiet else Sleep
  | j :: rest => lq_take j rest q
  end.

Definition wq_push (j : J) (q : LockedQueue) : attempt LockedQueue J :=
  if shutdown_ q then Leave q NoNotify Quiet
  else if lq_room q then lq_put j q
  else Sleep.

Definition wq_stop (q : LockedQueue) : attempt LockedQueue J :=
  Leave (mkLockedQueue (queue_ q) (capacity_ q) true) NotifyAll Quiet.
Definition wq_reset (q : LockedQueue) : attempt LockedQueue J :=
  Leave (mkLockedQueue (queue_ q) (capacity_ q) false) NoNotify Quiet.

Inductive LockedOp := LPush (j : J) | LPushSwap (j : J) | LPushReset (j : J) | LTryPop | LTryPush (j : J).
Inductive WaitOp := WPush (j : J) | WPopBlocking | WTryPop | WTryPush (j : J) | WStop | WReset.

Definition lq_attempt (op : LockedOp) (q : LockedQueue) : attempt LockedQueue J :=
  match op with
  | LPush j => lq_push j q
  | LPushSwap j => push_swap j q
  | LPushReset j => push_reset j q
  | LTryPop => try_pop q
  | LTryPush j => try_push j q
  end.

Definition wq_attempt (op : WaitOp) (q : LockedQueue) : attempt LockedQueue J :=
  match op with
  | WPush j => wq_push j q
  | WPopBlocking => pop_blocking q
  | WTryPop => try_pop q
  | WTryPush j => try_push j q
  | WStop => wq_stop q
  | WReset => wq_reset q
  end.

#[export] Instance LockedQueue_monitor : Monitor LockedOp LockedQueue J :=
  {| enter := lq_attempt; recheck := lq_attempt |}.
#[export] Instance LockedWaitQueue_monitor : Monitor WaitOp LockedQueue J :=
  {| enter := wq_attempt; recheck := wq_attempt |}.
End Queues.
Arguments JobQueue J : clear implicits.
Arguments JobOp J : clear implicits.
Arguments LockedQueue J : clear implicits.
Arguments LockedOp J : clear implicits.
Arguments WaitOp J : clear implicits.

(** ** Lemmas *)

Section Laws.
Context {J : Type}.
#[local] Obligation Tactic := idtac.

Ltac attempt_cases :=
  repeat match goal with
    | H : _ \/ _ |- _ => destruct H
    | H : context [match ?x with _ => _ end] |- _ => destruct x eqn:?; simplify_eq/=
    | H : context [if ?x then _ else _] |- _ => destruct x eqn:?; simplify_eq/=
    end; simplify_eq/=.

Definition jq_is_pop (op : JobOp J) : bool := match op with OpPop => true | _ => false end.
Definition wq_is_pop (op : WaitOp J) : bool := match op with WPopBlocking => true | _ => false end.

Lemma jq_full_spec (q : JobQueue J) :
  jq_full q = false -> (0 < max_size_ q)%nat -> (length (jobs_ q) < max_size_ q)%nat.
Proof.
  unfold jq_full. intros H Hpos. destruct (Nat.ltb_spec 0 (max_size_ q)); [|lia].
  destruct (Nat.leb_spec (max_size_ q) (length (jobs_ q))); [done|lia].
Qed.

#[export] Program Instance JobQueue_queue : QueueMonitor (JobOp J) (JobQueue J) J := {|
  contents := jobs_;
  capacity := max_size_;
  stopped := stopping_;
  is_pop := jq_is_pop;
|}.
Next Obligation.
  intros op q q' n e H.
  destruct op as [[j|] w|[j|]| |]; simpl in H;
    unfold jq_recheck, jq_enter, Push_enter, Push_recheck, TryPush, Pop, Stop, jq_push, jq_depth, jq_log in H;
    attempt_cases; split_and?; try done; try (by apply jq_full_spec);
    intros; try congruence.
  by apply negb_false_iff, Nat.ltb_lt in Heqb.
Qed.
Next Obligation.
  intros op q H.
  destruct op as [[j|] w|[j|]| |]; simpl in H;
    unfold jq_recheck, jq_enter, Push_enter, Push_recheck, TryPush, Pop, Stop, jq_push in H;
    attempt_cases; split_and?; try done.
  apply negb_true_iff, orb_false_iff in Heqb. by destruct Heqb.
Qed.
Next Obligation.
  intros op q H Hcap. destruct op as [[j|] w|[j|]| |]; simpl in *; try done;
    unfold Push_enter, TryPush, jq_full, jq_push in H; rewrite ?Hcap in H; attempt_cases.
Qed.
Next Obligation.
  intros op q q' n e Hp H. destruct op; try done. simpl in *. unfold jq_enter, Pop in H. attempt_cases; eauto.
Qed.

Lemma lq_room_spec (q : LockedQueue J) :
  lq_room q = true -> (0 < capacity_ q)%nat -> (length (queue_ q) < capacity_ q)%nat.
Proof.
  unfold lq_room. intros H Hpos. apply orb_true_iff in H as [H%Nat.eqb_eq|H%Nat.ltb_lt]; lia.
Qed.

Lemma try_push_spec (q : LockedQueue J) :
  (0 <? capacity_ q)%nat && (capacity_ q <=? length (queue_ q))%nat = false ->
  (0 < capacity_ q)%nat -> (length (queue_ q) < capacity_ q)%nat.
Proof.
  intros H Hpos. destruct (Nat.ltb_spec 0 (capacity_ q)); [|lia].
  destruct (Nat.leb_spec (capacity_ q) (length (queue_ q))); [done|lia].
Qed.

#[export] Program Instance LockedQueue_queue : QueueMonitor (LockedOp J) (LockedQueue J) J := {|
  contents := queue_;
  capacity := capacity_;
  stopped q := false;
  is_pop op := false;
|}.
Next Obligation.
  intros op q q' n e H.
  destruct op; simpl in H; unfold lq_push, push_reset, push_swap, lq_push, try_pop, try_push, lq_put, lq_take in H;
    attempt_cases; split_and?; try done; try (by apply lq_room_spec); try (by apply try_push_spec).
Qed.
Next Obligation. done. Qed.
Next Obligation.
  intros op q H Hcap. destruct op; simpl in *;
    unfold lq_push, push_reset, push_swap, lq_push, try_pop, try_push, lq_put, lq_room in H;
    rewrite ?Hcap in H; attempt_cases.
Qed.
Next Obligation. done. Qed.

#[export] Program Instance LockedWaitQueue_queue : QueueMonitor (WaitOp J) (LockedQueue J) J := {|
  contents := queue_;
  capacity := capacity_;
  stopped := shutdown_;
  is_pop := wq_is_pop;
|}.
Next Obligation.
  intros op q q' n e H.
  destruct op; simpl in H; unfold wq_push, pop_blocking, try_pop, try_push, lq_put, lq_take, wq_stop, wq_reset in H;
    attempt_cases; split_and?; try done; try (by apply lq_room_spec); try (by apply try_push_spec);
    intros; congruence.
Qed.
Next Obligation.
  intros op q H.
  destruct op; simpl in H; unfold wq_push, pop_blocking, try_pop, try_push, lq_put, lq_take, wq_stop, wq_reset in H;
    attempt_cases; split_and?; done.
Qed.
Next Obligation.
  intros op q H Hcap. destruct op; simpl in *; try done;
    unfold wq_push, try_pop, try_push, lq_put, lq_take, lq_room in H; rewrite ?Hcap in H; attempt_cases.
Qed.
Next Obligation.
  intros op q q' n e Hp H. destruct op; try done. simpl in *. unfold pop_blocking, lq_take in H. attempt_cases; eauto.
Qed.
End Laws.

(** ** Properties *)

(** Whatever threads call the job queue and however they interleave, no job is lost,
    duplicated or reordered: the jobs accepted are the jobs handed to workers followed
    by those still queued, in order, and a bounded queue never holds more than
    [max_size_] jobs. *)
Theorem jobqueue_fifo {J} max (codes : list (list (JobOp J))) σ :
  reach (start (new_JobQueue max) codes) σ ->
  pushed σ = popped σ ++ jobs_ (store σ)
  /\ ((0 < max)%nat -> (length (jobs_ (store σ)) <= max)%nat).
Proof.
  intros Hr. apply queue_fifo in Hr as (H1 & _ & H2); done.
Qed.

Lemma jobqueue_fifo_witness :
  exists σ : sys (JobOp nat) (JobQueue nat) nat,
    reach (start (new_JobQueue 1) [[OpPush (Some 7%nat) 0]; [OpPop]]) σ /\ pushed σ = popped σ ++ jobs_ (store σ).
Proof.
  destruct (exec [(0, 0); (1, 0)]%nat (start (new_JobQueue 1) [[OpPush (Some 7%nat) 0]; [OpPop]])) as [σ|] eqn:He;
    [|vm_compute in He; discriminate He].
  exists σ. split; [exact (exec_reach _ _ _ He)|]. apply (jobqueue_fifo 1 _ σ (exec_reach _ _ _ He)).
Defined.

(** Wake-ups of the job queue: when no thread can go on, a stopped queue has no sleeping
    thread left, and in an unbounded queue a thread that still sleeps is a worker
    waiting for a job while there is none. *)
Theorem jobqueue_wakeups {J} max (codes : list (list (JobOp J))) σ i op code :
  reach (start (new_JobQueue max) codes) σ -> stuck σ -> threads σ !! i = Some (Blocked op code) ->
  stopping_ (store σ) = false /\ (max = 0%nat -> op = OpPop /\ jobs_ (store σ) = []).
Proof.
  intros Hr Hst Hi. split.
  - destruct (stopping_ (store σ)) eqn:Hs; [|done].
    by destruct (queue_stop_wakes (QM := JobQueue_queue) (new_JobQueue max) codes σ i op code eq_refl Hr Hst Hs).
  - intros ->.
    destruct (queue_no_lost_wakeup (QM := JobQueue_queue) (new_JobQueue 0) codes σ i op code eq_refl eq_refl Hr Hst Hi)
      as [Hp Hn].
    split; [by destruct op|done].
Qed.

Lemma jobqueue_wakeups_witness :
  exists σ : sys (JobOp nat) (JobQueue nat) nat,
    reach (start (new_JobQueue 0) [[OpPop]]) σ /\ stuck σ /\ stopping_ (store σ) = false.
Proof.
  destruct (exec [(0, 0)]%nat (start (new_JobQueue 0) [[@OpPop nat]])) as [σ|] eqn:He;
    [|vm_compute in He; discriminate He].
  assert (Hr := exec_reach _ _ _ He). vm_compute in He. injection He as <-.
  eexists. split; [exact Hr|].
  assert (Hst : stuck (Mon := JobQueue_monitor)
            (mkSys (new_JobQueue 0) [Blocked (@OpPop nat) []] [] [])) by (by apply stuck_at_rest).
  split; [exact Hst|]. exact (proj1 (jobqueue_wakeups 0 _ _ 0 OpPop [] Hr Hst eq_refl)).
Defined.

(** The wait queue of the database workers: under every interleaving of pushes, pops,
    stops and resets the items taken are the items put, in order and within the
    capacity, and when no thread can go on after a stop nobody sleeps, while in an
    unbounded queue nobody sleeps beside a waiting item. *)
Theorem waitqueue_correct {J} cap (codes : list (list (WaitOp J))) σ :
  reach (start (new_LockedQueue cap) codes) σ ->
  pushed σ = popped σ ++ queue_ (store σ)
  /\ ((0 < cap)%nat -> (length (queue_ (store σ)) <= cap)%nat)
  /\ (stuck σ -> forall i op code, threads σ !! i = Some (Blocked op code) ->
      shutdown_ (store σ) = false /\ (cap = 0%nat -> op = WPopBlocking /\ queue_ (store σ) = [])).
Proof.
  intros Hr. pose proof Hr as Hr'. apply (queue_fifo (QM := LockedWaitQueue_queue)) in Hr' as (H1 & _ & H2); [|done].
  split_and!; [done..|]. intros Hst i op code Hi. split.
  - destruct (shutdown_ (store σ)) eqn:Hs; [|done].
    by destruct (queue_stop_wakes (QM := LockedWaitQueue_queue) (new_LockedQueue cap) codes σ i op code eq_refl Hr Hst Hs).
  - intros ->.
    destruct (queue_no_lost_wakeup (QM := LockedWaitQueue_queue) (new_LockedQueue 0) codes σ i op code
                eq_refl eq_refl Hr Hst Hi) as [Hp Hn].
    split; [by destruct op|done].
Qed.

Lemma waitqueue_correct_witness :
  exists σ : sys (WaitOp nat) (LockedQueue nat) nat,
    reach (start (new_LockedQueue 1) [[WPush 7%nat; WPush 8%nat]; [WPopBlocking; WStop]]) σ
    /\ pushed σ = [7; 8]%nat /\ pushed σ = popped σ ++ queue_ (store σ).
Proof.
  destruct (exec [(0, 0); (0, 0); (0, 0); (1, 0); (1, 0); (0, 0); (0, 0); (1, 0); (1, 0)]%nat
     (start (new_LockedQueue 1) [[WPush 7%nat; WPush 8%nat]; [WPopBlocking; WStop]])) as [σ|] eqn:He;
    [|vm_compute in He; discriminate He].
  exists σ. split; [exact (exec_reach _ _ _ He)|]. split; [vm_compute in He; by injection He as <-|].
  apply (waitqueue_correct 1 _ σ (exec_reach _ _ _ He)).
Defined.

(** The base queue: pushes block only while the queue is full, and items leave in the
    order they came. *)
Theorem lockedqueue_fifo {J} cap (codes : list (list (LockedOp J))) σ :
  reach (start (new_LockedQueue cap) codes) σ ->
  pushed σ = popped σ ++ queue_ (store σ)
  /\ ((0 < cap)%nat -> (length (queue_ (store σ)) <= cap)%nat)
  /\ (cap = 0%nat -> stuck σ -> forall i op code, threads σ !! i <> Some (Blocked op code)).
Proof.
  intros Hr. pose proof Hr as Hr'. apply (queue_fifo (QM := LockedQueue_queue)) in Hr' as (H1 & _ & H2); [|done].
  split_and!; [done..|]. intros -> Hst i op code Hi.
  by destruct (queue_no_lost_wakeup (QM := LockedQueue_queue) (new_LockedQueue 0) codes σ i op code
                 eq_refl eq_refl Hr Hst Hi).
Qed.

Lemma lockedqueue_fifo_witness :
  exists σ : sys (LockedOp nat) (LockedQueue nat) nat,
    reach (start (new_LockedQueue 1) [[LPush 7%nat]; [LTryPop]]) σ /\ pushed σ = popped σ ++ queue_ (store σ).
Proof.
  destruct (exec [(0, 0); (1, 0)]%nat (start (new_LockedQueue 1) [[LPush 7%nat]; [LTryPop]])) as [σ|] eqn:He;
    [|vm_compute in He; discriminate He].
  exists σ. split; [exact (exec_reach _ _ _ He)|]. apply (lockedqueue_fifo 1 _ σ (exec_reach _ _ _ He)).
Defined.

(** A bounded job queue can stop for good while it holds a job and a worker waits for
    one: producers and workers sleep on one condition variable, and the single wake-up
    of a push can go to another producer, which finds the queue full and sleeps again. *)
Theorem jobqueue_lost_wakeup :
  exists σ : sys (JobOp nat) (JobQueue nat) nat,
    reach (start (new_JobQueue 1)
             [[OpPop; OpPop]; [OpPush (Some 1%nat) 0]; [OpPush (Some 2%nat) 0]; [OpPush (Some 3%nat) 0]]) σ
    /\ stuck σ /\ threads σ !! 0%nat = Some (Blocked OpPop []) /\ jobs_ (store σ) = [2%nat].
Proof.
  destruct (exec [(0, 0); (1, 0); (2, 0); (3, 0); (1, 0); (0, 0); (0, 2); (0, 0); (2, 0); (2, 3); (3, 0)]%nat
     (start (new_JobQueue 1)
        [[OpPop; OpPop]; [OpPush (Some 1%nat) 0]; [OpPush (Some 2%nat) 0]; [OpPush (Some 3%nat) 0]]))
    as [σ|] eqn:He; [|vm_compute in He; discriminate He].
  exists σ. split; [exact (exec_reach _ _ _ He)|]. vm_compute in He. injection He as <-.
  split; [by apply stuck_at_rest|done].
Qed.
