(* ===== verification/DbWorkerPool.v ===== *)
(** The pool of database workers, [core/storage/db_worker_pool.hpp] and
    [db_worker_pool.cpp], over the waiting queue of [JobQueue.v].

    A job is named by a number; what its unit of work and its task do when it runs is an
    argument.  Submitting checks [running_] before it pushes, so the two are separate steps;
    a step of a worker is a call of [pop_blocking] or the processing of its job. *)

From S2P Require Import Prelude RuntimeMetrics Monitor JobQueue.

(** ** One job *)

Inductive made_unit := Unit | NullUnit | UnitThrows.

(** What the database does with a job: the connection pool, the task, [commit] and
    [rollback] may fail. *)
Record JobWorld := mkJobWorld {
  unit_of_work : made_unit;
  task_throws : bool;
  commit_throws : bool;
  rollback_throws : bool;
}.

Inductive db_call := RanTask | CalledCommit | CalledRollback.

Record Job := mkJob { task : Z; auto_commit : bool }.

(** [process_job]: the calls and whether it returns; an exception of [rollback] is
    swallowed. *)
Definition process_job (w : JobWorld) (job : Job) : list db_call * bool :=
  match unit_of_work w with
  | NullUnit | UnitThrows => ([], false)
  | Unit =>
      if task_throws w then ([RanTask; CalledRollback], false)
      else if auto_commit job then
        if commit_throws w then ([RanTask; CalledCommit; CalledRollback], false) else ([RanTask; CalledCommit], true)
      else ([RanTask; CalledRollback], true)
  end.

(** ** The pool *)

Definition normalize_worker_count (hardware_concurrency count : Z) : Z :=
  let count := if count =? 0 then hardware_concurrency else count in
  if count =? 0 then 1 else count.

Inductive worker := Waiting | Processing (job : Job) | Exited.

#[export] Instance Job_eq_dec : EqDecision Job.
Proof. solve_decision. Defined.
#[export] Instance worker_eq_dec : EqDecision worker.
Proof. solve_decision. Defined.

Record Pool := mkPool {
  db_queue : LockedQueue Job;
  workers_ : list worker;
  running_ : bool;
  stopping_flag : bool;
  db_instrs : list instr;
}.

Definition new_Pool (queue_capacity : nat) : Pool :=
  mkPool (new_LockedQueue queue_capacity) [] false false (register_db_job_queue_capacity (Z.of_nat queue_capacity)).

Definition start (hardware_concurrency worker_count : Z) (p : Pool) : Pool :=
  if running_ p then p
  else mkPool (db_queue p)
         (workers_ p ++ replicate (Z.to_nat (normalize_worker_count hardware_concurrency worker_count)) Waiting)
         true false (db_instrs p).

(** [stop] up to the joins, and what follows them when all threads have ended. *)
Definition begin_stop (p : Pool) : Pool * bool :=
  if negb (running_ p) then (p, false)
  else (mkPool (mkLockedQueue (queue_ (db_queue p)) (capacity_ (db_queue p)) true) (workers_ p) false true (db_instrs p), true).

Definition joined (p : Pool) : option Pool :=
  if bool_decide (Forall (fun w => w = Exited) (workers_ p))
  then Some (mkPool (db_queue p) [] (running_ p) (stopping_flag p) (db_instrs p)) else None.

(** [submit]: an empty task is ignored, a pool that does not run throws. *)
Inductive submitted := Ignored | Throws | Pushing (job : Job).
Definition submit_check (job : option Job) (p : Pool) : submitted :=
  match job with
  | None => Ignored
  | Some job => if running_ p then Pushing job else Throws
  end.

(** The push that follows, with the time it waited; [None] while the queue is full. *)
Definition submit_push (job : Job) (waited : Z) (p : Pool) : option (Pool * bool) :=
  match wq_push job (db_queue p) with
  | Sleep => None
  | Leave q _ e =>
      let instrs := (if (0 <? capacity_ q)%nat then record_db_job_queue_push_wait waited else [])
                    ++ record_db_job_queue_depth (zlen (queue_ q)) in
      Some (mkPool q (workers_ p) (running_ p) (stopping_flag p) (db_instrs p ++ instrs),
            match e with Pushed _ => true | _ => false end)
  end.

Definition set_worker (i : nat) (w : worker) (q : LockedQueue Job) (instrs : list instr) (p : Pool) : Pool :=
  mkPool q (<[i := w]> (workers_ p)) (running_ p) (stopping_flag p) (db_instrs p ++ instrs).

(** A turn of [worker_loop] of the worker [i]: [pop_blocking], or the job it took. *)
Definition worker_pop (i : nat) (p : Pool) : option Pool :=
  match pop_blocking (db_queue p) with
  | Sleep => None
  | Leave q _ (Popped job) => Some (set_worker i (Processing job) q (record_db_job_queue_depth (zlen (queue_ q))) p)
  | Leave q _ _ => Some (if stopping_flag p then set_worker i Exited q [] p else set_worker i Waiting q [] p)
  end.

Definition worker_process (i : nat) (w : JobWorld) (job : Job) (p : Pool) : Pool :=
  set_worker i Waiting (db_queue p)
    (if (process_job w job).2 then record_db_job_processed else record_db_job_failed) p.

(** ** Runs *)

(** The pool with the jobs its queue took and those it processed. *)
Record PoolRun := mkPoolRun { pool : Pool; accepted : list Job; processed : list Job }.

Inductive worker_step : PoolRun -> PoolRun -> Prop :=
  | step_pop i p p' a d :
      workers_ p !! i = Some Waiting -> worker_pop i p = Some p' -> worker_step (mkPoolRun p a d) (mkPoolRun p' a d)
  | step_process i w job p a d :
      workers_ p !! i = Some (Processing job) ->
      worker_step (mkPoolRun p a d) (mkPoolRun (worker_process i w job p) a (d ++ [job])).

Inductive pool_step : PoolRun -> PoolRun -> Prop :=
  | step_work st st' : worker_step st st' -> pool_step st st'
  | step_start hw n p a d : pool_step (mkPoolRun p a d) (mkPoolRun (start hw n p) a d)
  | step_stop p a d : pool_step (mkPoolRun p a d) (mkPoolRun (begin_stop p).1 a d)
  | step_join p p' a d : joined p = Some p' -> pool_step (mkPoolRun p a d) (mkPoolRun p' a d)
  | step_submit job waited p p' ok a d :
      submit_push job waited p = Some (p', ok) ->
      pool_step (mkPoolRun p a d) (mkPoolRun p' (a ++ if ok : bool then [job] else []) d).

Definition job_of (w : worker) : option Job := match w with Processing job => Some job | _ => None end.

(** Every job the queue took is queued, with a worker, or processed, once; a worker has
    ended only when the queue was shut down and empty. *)
Record pool_inv (st : PoolRun) : Prop := {
  jobs_kept : accepted st ≡ₚ processed st ++ omap job_of (workers_ (pool st)) ++ queue_ (db_queue (pool st));
  exit_empty : Exited ∈ workers_ (pool st) -> shutdown_ (db_queue (pool st)) = true /\ queue_ (db_queue (pool st)) = [];
}.

Lemma omap_insert (ws : list worker) i w w' :
  ws !! i = Some w -> from_option (fun j => [j]) [] (job_of w') ++ omap job_of ws
    ≡ₚ from_option (fun j => [j]) [] (job_of w) ++ omap job_of (<[i := w']> ws).
Proof.
  revert i. induction ws as [|x ws IH]; intros [|i] Hi; try done; cbn in *.
  - injection Hi as ->. destruct (job_of w), (job_of w'); cbn; [by rewrite Permutation_swap|done..].
  - specialize (IH i Hi). destruct (job_of x) as [j|]; [|done].
    rewrite !(Permutation_app_comm _ (j :: _)). cbn. by rewrite !(Permutation_app_comm (omap job_of _)), IH.
Qed.

Lemma set_worker_inv p a d d' i w w' q ins :
  workers_ p !! i = Some w ->
  d ++ from_option (fun j => [j]) [] (job_of w) ++ queue_ (db_queue p)
    ≡ₚ d' ++ from_option (fun j => [j]) [] (job_of w') ++ queue_ q ->
  (Exited ∈ w' :: workers_ p -> shutdown_ q = true /\ queue_ q = []) ->
  pool_inv (mkPoolRun p a d) -> pool_inv (mkPoolRun (set_worker i w' q ins p) a d').
Proof.
  intros Hi Hq He [Hk _]. cbn in *. constructor; cbn.
  - pose proof (omap_insert _ _ _ w' Hi) as Ho.
    set (x := from_option _ _ (job_of w)) in *. set (y := from_option _ _ (job_of w')) in *.
    set (o := omap job_of (workers_ p)) in *. set (o' := omap job_of (<[i:=w']> (workers_ p))) in *.
    apply (Permutation_app_inv_l x). rewrite Hk.
    rewrite (Permutation_app_comm o), (app_assoc x d), (Permutation_app_comm x d), !app_assoc, <- (app_assoc d x), Hq.
    rewrite <- !app_assoc, (app_assoc y), (Permutation_app_comm y), <- app_assoc, Ho.
    by rewrite (Permutation_app_comm o'), (app_assoc x d'), (Permutation_app_comm x d'), <- app_assoc,
      (app_assoc x (queue_ q)), (Permutation_app_comm x (queue_ q)), <- app_assoc.
  - intros H. apply He. apply list_elem_of_lookup in H as [k Hk']. apply list_lookup_insert_Some in Hk' as [(_ & <- & _)|[_ Hk']]; [left|].
    right. by eapply list_elem_of_lookup_2.
Qed.

Lemma worker_step_inv st st' : worker_step st st' -> pool_inv st -> pool_inv st'.
Proof.
  destruct 1 as [i p p' a d Hi Hp|i w job p a d Hi]; intros Hinv; pose proof (exit_empty _ Hinv) as He; cbn in He.
  - unfold worker_pop, pop_blocking in Hp. destruct (queue_ (db_queue p)) as [|j q] eqn:Hq.
    + destruct (shutdown_ (db_queue p)) eqn:Hs; [|done]. destruct (stopping_flag p); injection Hp as <-;
        (eapply set_worker_inv; [exact Hi|done| |exact Hinv]); intros _; by rewrite Hs, Hq.
    + injection Hp as <-. eapply set_worker_inv; [exact Hi|by rewrite Hq| |exact Hinv].
      intros [[=]|H]%elem_of_cons. by destruct (He H).
  - apply (set_worker_inv p a d _ i (Processing job)); [exact Hi|by rewrite <- (app_assoc d)| |exact Hinv].
    intros [[=]|H]%elem_of_cons. by apply He.
Qed.

Lemma omap_exited ws : Forall (fun w => w = Exited) ws -> omap job_of ws = [].
Proof. induction 1 as [|w ws -> _ IH]; [done|]. exact IH. Qed.

Lemma pool_step_inv st st' : pool_step st st' -> pool_inv st -> pool_inv st'.
Proof.
  destruct 1 as [st st' Hw|hw n p a d|p a d|p p' a d Hj|job waited p p' ok a d Hs]; [by apply worker_step_inv|..]; intros [Hk He];
    cbn in *.
  - unfold start. destruct (running_ p); [by constructor|]. constructor; cbn.
    + rewrite omap_app. replace (omap job_of (replicate _ Waiting)) with (@nil Job); [by rewrite app_nil_r|].
      generalize (Z.to_nat (normalize_worker_count hw n)). intros k. by induction k.
    + intros [H|H%elem_of_replicate_inv]%elem_of_app; [by apply He|done].
  - unfold begin_stop. destruct (running_ p); cbn; constructor; cbn; try done. intros H. split; [done|by apply He].
  - unfold joined in Hj. case_bool_decide as Hf; [|done]. injection Hj as <-. constructor; cbn; [|by intros ?%elem_of_nil].
    by rewrite Hk, omap_exited.
  - unfold submit_push, wq_push in Hs. destruct (shutdown_ (db_queue p)) eqn:Hsd.
    + injection Hs as <- <-. constructor; cbn; [by rewrite app_nil_r|]. intros H. destruct (He H). by rewrite Hsd.
    + destruct (lq_room (db_queue p)); [|done]. injection Hs as <- <-. constructor; cbn.
      * by rewrite Hk, !app_assoc.
      * intros H. by destruct (He H).
Qed.

Abbreviation reachable cap := (rtc pool_step (mkPoolRun (new_Pool cap) [] [])).

Lemma reachable_inv cap st : reachable cap st -> pool_inv st.
Proof. intros H. apply (rtc_preserved pool_inv H); [eauto using pool_step_inv|]. constructor; cbn; [done|by intros ?%elem_of_nil]. Qed.

(** C29. When [stop] has joined the workers, every job that a [submit] put into the queue has
    been processed, exactly once. *)
Theorem db_jobs_all_processed cap st :
  rtc pool_step (mkPoolRun (new_Pool cap) [] []) st -> workers_ (pool st) <> [] -> Forall (fun w => w = Exited) (workers_ (pool st)) ->
  accepted st ≡ₚ processed st.
Proof.
  intros Hr Hne Hall. destruct (reachable_inv cap st Hr) as [Hk He]. rewrite Hk.
  rewrite omap_exited by done. destruct (workers_ (pool st)) as [|w ws]; [done|]. apply Forall_cons in Hall as [-> _].
  destruct He as [_ ->]; [left|]. by rewrite app_nil_r.
Qed.

(** What is left to do for the workers of a pool that stops. *)
Definition worker_work (w : worker) : nat := match w with Waiting => 1 | Processing _ => 2 | Exited => 0 end.
Definition remaining (p : Pool) : nat := (2 * length (queue_ (db_queue p)) + sum_list_with worker_work (workers_ p))%nat.

Lemma sum_insert (ws : list worker) i w w' :
  ws !! i = Some w ->
  (sum_list_with worker_work (<[i := w']> ws) + worker_work w = sum_list_with worker_work ws + worker_work w')%nat.
Proof.
  revert i. induction ws as [|x ws IH]; intros [|i] Hi; try done; cbn in *; [injection Hi as ->; lia|].
  rewrite <- !Nat.add_assoc. f_equal. exact (IH i Hi).
Qed.

(** [stop] returns: once the queue is shut down a worker that has not ended can always take
    a step, and every step leaves less to do, until all workers have ended. *)
Theorem db_stop_terminates st :
  shutdown_ (db_queue (pool st)) = true -> stopping_flag (pool st) = true ->
  (forall st', worker_step st st' ->
     shutdown_ (db_queue (pool st')) = true /\ stopping_flag (pool st') = true
     /\ (remaining (pool st') < remaining (pool st))%nat)
  /\ (Forall (fun w => w = Exited) (workers_ (pool st)) \/ exists st', worker_step st st').
Proof.
  intros Hsd Hst. split.
  - intros st' Hs. destruct Hs as [i p p' a d Hi Hp|i w job p a d Hi]; cbn in *.
    + unfold worker_pop, pop_blocking in Hp. destruct (queue_ (db_queue p)) as [|j q] eqn:Hq.
      * rewrite Hsd, Hst in Hp. injection Hp as <-. split_and!; [done..|]. unfold remaining. cbn. rewrite ?Hq. cbn.
        pose proof (sum_insert _ _ _ Exited Hi). cbn in *. lia.
      * injection Hp as <-. split_and!; [done..|]. unfold remaining. cbn. rewrite ?Hq. cbn.
        pose proof (sum_insert _ _ _ (Processing j) Hi). cbn in *. lia.
    + split_and!; [done..|]. unfold remaining. cbn. pose proof (sum_insert _ _ _ Waiting Hi). cbn in *. lia.
  - destruct (decide (Forall (fun w => w = Exited) (workers_ (pool st)))) as [H|H]; [by left|right].
    apply not_Forall_Exists, Exists_exists in H as (w & Hin & Hw); [|apply _]. apply list_elem_of_lookup in Hin as [i Hi].
    destruct st as [p a d]. cbn in *. destruct w as [|job|]; [|by eexists; apply (step_process i (mkJobWorld Unit false false false) job)|done].
    unfold worker_pop, pop_blocking in *. destruct (queue_ (db_queue p)) as [|j q] eqn:Hq.
    + eexists. eapply (step_pop i); [done|]. unfold worker_pop, pop_blocking. rewrite Hq, Hsd. reflexivity.
    + eexists. eapply (step_pop i); [done|]. unfold worker_pop, pop_blocking. rewrite Hq. reflexivity.
Qed.

Definition sample_job : Job := mkJob 7 true.

(** A pool with one worker that takes a job, is stopped and ends. *)
Definition stopped_run : PoolRun :=
  mkPoolRun (mkPool (mkLockedQueue [] 4 true) [Exited] false true
               (db_instrs (new_Pool 4) ++ record_db_job_queue_push_wait 0 ++ record_db_job_queue_depth 1
                ++ record_db_job_queue_depth 0 ++ record_db_job_processed))
    [sample_job] [sample_job].

Lemma stopped_run_reachable : reachable 4 stopped_run.
Proof.
  eapply rtc_l; [apply (step_start 2 1)|]. eapply rtc_l; [eapply (step_submit sample_job 0); vm_compute; reflexivity|].
  eapply rtc_l; [apply step_work; eapply (step_pop 0); [reflexivity|vm_compute; reflexivity]|].
  eapply rtc_l; [apply step_work; eapply (step_process 0 (mkJobWorld Unit false false false)); reflexivity|].
  eapply rtc_l; [apply step_stop|]. eapply rtc_l; [apply step_work; eapply (step_pop 0); [reflexivity|vm_compute; reflexivity]|].
  apply rtc_refl.
Qed.

Lemma db_jobs_all_processed_witness : accepted stopped_run ≡ₚ processed stopped_run /\ accepted stopped_run = [sample_job].
Proof. split; [apply (db_jobs_all_processed 4 stopped_run stopped_run_reachable); [done|by repeat constructor]|reflexivity]. Defined.

Lemma db_stop_terminates_witness :
  exists st', worker_step (mkPoolRun (mkPool (mkLockedQueue [sample_job] 4 true) [Waiting] false true []) [sample_job] []) st'.
Proof.
  destruct (db_stop_terminates (mkPoolRun (mkPool (mkLockedQueue [sample_job] 4 true) [Waiting] false true []) [sample_job] [])
              eq_refl eq_refl) as [_ [H|H]]; [|exact H].
  apply Forall_cons in H as [[=] _].
Defined.

(** A pool that is started again after a stop does nothing: the queue stays shut down, so
    its workers turn in a loop without waiting and the jobs submitted are discarded, while
    [submit] reports success. *)
Lemma restarted_pool_discards_jobs :
  let p := start 2 1 (default stopped_run.(pool) (joined stopped_run.(pool))) in
  running_ p = true /\ workers_ p = [Waiting]
  /\ (exists p', worker_pop 0 p = Some p' /\ workers_ p' = [Waiting] /\ db_queue p' = db_queue p)
  /\ submit_check (Some sample_job) p = Pushing sample_job
  /\ exists p', submit_push sample_job 0 p = Some (p', false) /\ queue_ (db_queue p') = [].
Proof. cbn. split_and!; try done; eexists; split_and!; reflexivity. Qed.

(** A job is committed or rolled back: [commit] is the last call of a job with automatic
    commit that succeeds, in all other cases in which the task ran it is [rollback]. *)
Lemma process_job_ends w job :
  (process_job w job).1 = []
  \/ (last (process_job w job).1 = Some CalledCommit /\ (process_job w job).2 = true /\ auto_commit job = true)
  \/ last (process_job w job).1 = Some CalledRollback.
Proof. unfold process_job. destruct w as [[] [] [] []], (auto_commit job); cbn; auto. Qed.
