(* ===== verification/ThreadManager.v ===== *)
(** The worker threads of a server, [core/concurrent/thread_manager.hpp] and
    [thread_manager.cpp], over the job queue of [JobQueue.v].

    A worker looks at [stopped_] before every job, so its loop has three points: before the
    look, in [Pop], and with a job.  A job that throws ends the process and is left out. *)

From S2P Require Import Prelude RuntimeMetrics Monitor JobQueue.

Section threads.
Context {J : Type}.

Inductive thread_state := Looking | Popping | Working (j : J) | Ended.

Record ThreadManager := mkThreadManager {
  job_queue_ : JobQueue J;
  threads_ : list thread_state;
  stopped_ : bool;
}.

Definition new_ThreadManager (q : JobQueue J) : ThreadManager := mkThreadManager q [] true.

Definition Start (num_threads : Z) (m : ThreadManager) : ThreadManager :=
  if num_threads <=? 0 then m
  else if negb (stopped_ m) then m
  else mkThreadManager (job_queue_ m) (threads_ m ++ replicate (Z.to_nat num_threads) Looking) false.

(** [Stop] up to the joins, in its two steps, and the end of it. *)
Definition stop_flag (m : ThreadManager) : option ThreadManager :=
  if stopped_ m then None else Some (mkThreadManager (job_queue_ m) (threads_ m) true).
Definition stop_queue (m : ThreadManager) : ThreadManager :=
  match Stop (job_queue_ m) with
  | Leave q _ _ => mkThreadManager q (threads_ m) (stopped_ m)
  | Sleep => m
  end.
Definition ended (t : thread_state) : bool := match t with Ended => true | _ => false end.
Definition stop_join (m : ThreadManager) : option ThreadManager :=
  if forallb ended (threads_ m) then Some (mkThreadManager (job_queue_ m) [] (stopped_ m)) else None.

Definition set_thread (i : nat) (t : thread_state) (q : JobQueue J) (m : ThreadManager) : ThreadManager :=
  mkThreadManager q (<[i := t]> (threads_ m)) (stopped_ m).

(** One step of [WorkerLoop] of the thread [i], and the job it runs. *)
Definition WorkerLoop (i : nat) (m : ThreadManager) : option (ThreadManager * list J) :=
  match threads_ m !! i with
  | Some Looking => Some (set_thread i (if stopped_ m then Ended else Popping) (job_queue_ m) m, [])
  | Some Popping =>
      match Pop (job_queue_ m) with
      | Sleep => None
      | Leave q _ (Popped j) => Some (set_thread i (Working j) q m, [])
      | Leave q _ _ => Some (set_thread i Ended q m, [])
      end
  | Some (Working j) => Some (set_thread i Looking (job_queue_ m) m, [j])
  | Some Ended | None => None
  end.

(** ** Runs *)

(** The threads with the jobs the queue took and those that ran. *)
Record ThreadRun := mkThreadRun { manager : ThreadManager; taken : list J; ran : list J }.

Inductive thread_step : ThreadRun -> ThreadRun -> Prop :=
  | t_worker i m m' a d js : WorkerLoop i m = Some (m', js) -> thread_step (mkThreadRun m a d) (mkThreadRun m' a (d ++ js))
  | t_start n m a d : thread_step (mkThreadRun m a d) (mkThreadRun (Start n m) a d)
  | t_stop m m' a d : stop_flag m = Some m' -> thread_step (mkThreadRun m a d) (mkThreadRun m' a d)
  | t_stop_queue m a d : stopped_ m = true -> thread_step (mkThreadRun m a d) (mkThreadRun (stop_queue m) a d)
  | t_join m m' a d : stop_join m = Some m' -> thread_step (mkThreadRun m a d) (mkThreadRun m' a d)
  | t_push job q n e m a d :
      Push_enter (Some job) (job_queue_ m) = Leave q n e ->
      thread_step (mkThreadRun m a d)
        (mkThreadRun (mkThreadManager q (threads_ m) (stopped_ m)) (a ++ match e with Pushed j => [j] | _ => [] end) d).

Definition working (t : thread_state) : option J := match t with Working j => Some j | _ => None end.

(** Every job is queued, with a thread, or has run, once. *)
Definition jobs_once (st : ThreadRun) : Prop :=
  taken st ≡ₚ ran st ++ omap working (threads_ (manager st)) ++ jobs_ (job_queue_ (manager st)).

Lemma working_insert ts i t t' :
  ts !! i = Some t ->
  from_option (fun j => [j]) [] (working t') ++ omap working ts
    ≡ₚ from_option (fun j => [j]) [] (working t) ++ omap working (<[i := t']> ts).
Proof.
  revert i. induction ts as [|x ts IH]; intros [|i] Hi; try done; cbn in *.
  - injection Hi as ->. destruct (working t), (working t'); cbn; [by rewrite Permutation_swap|done..].
  - specialize (IH i Hi). destruct (working x) as [j|]; [|done].
    rewrite !(Permutation_app_comm _ (j :: _)). cbn. by rewrite !(Permutation_app_comm (omap working _)), IH.
Qed.

Lemma working_none ts : forallb ended ts = true -> omap working ts = [].
Proof. induction ts as [|[] ts IH]; cbn; auto; done. Qed.

Lemma thread_step_once st st' : thread_step st st' -> jobs_once st -> jobs_once st'.
Proof.
  unfold jobs_once. destruct 1 as [i m m' a d js Hw|n m a d|m m' a d Hs|m a d _|m m' a d Hj|job q n e m a d Hp]; cbn; intros Hk.
  - unfold WorkerLoop in Hw. destruct (threads_ m !! i) as [[| |j|]|] eqn:Hi; try done.
    + injection Hw as <- <-. cbn. rewrite app_nil_r, Hk. pose proof (working_insert _ _ _ (if stopped_ m then Ended else Popping) Hi) as H.
      destruct (stopped_ m); cbn in H; by rewrite H.
    + unfold Pop in Hw. destruct (jobs_ (job_queue_ m)) as [|j q] eqn:Hq.
      * destruct (stopping_ (job_queue_ m)); [|done]. injection Hw as <- <-. cbn. rewrite Hq, app_nil_r, Hk.
        pose proof (working_insert _ _ _ Ended Hi) as H. cbn in H. by rewrite H.
      * injection Hw as <- <-. cbn. rewrite app_nil_r, Hk. pose proof (working_insert _ _ _ (Working j) Hi) as H. cbn in H.
        rewrite <- H. by rewrite <- Permutation_middle.
    + injection Hw as <- <-. cbn. rewrite Hk. pose proof (working_insert _ _ _ Looking Hi) as H. cbn in H. rewrite H.
      by rewrite <- app_assoc.
  - unfold Start. destruct (_ <=? _); [done|]. destruct (negb _); [done|]. cbn. rewrite omap_app.
    replace (omap working (replicate _ Looking)) with (@nil J); [by rewrite app_nil_r|].
    generalize (Z.to_nat n). intros k. by induction k.
  - unfold stop_flag in Hs. destruct (stopped_ m); [done|]. by injection Hs as <-.
  - done.
  - unfold stop_join in Hj. destruct (forallb ended (threads_ m)) eqn:He; [|done]. injection Hj as <-. cbn.
    by rewrite Hk, working_none.
  - unfold Push_enter in Hp. destruct (stopping_ (job_queue_ m)); [injection Hp as <- <- <-; cbn; by rewrite app_nil_r|].
    destruct (jq_full (job_queue_ m)); [done|]. injection Hp as <- <- <-. cbn. by rewrite Hk, !app_assoc.
Qed.

(** What is left for the threads once [stopped_] is set and the queue stopped. *)
Definition thread_work (t : thread_state) : nat :=
  match t with Looking => 1 | Popping => 3 | Working _ => 2 | Ended => 0 end.
Definition work_left (m : ThreadManager) : nat := sum_list_with thread_work (threads_ m).

Lemma work_insert (ts : list thread_state) i t t' :
  ts !! i = Some t ->
  (sum_list_with thread_work (<[i := t']> ts) + thread_work t = sum_list_with thread_work ts + thread_work t')%nat.
Proof.
  revert i. induction ts as [|x ts IH]; intros [|i] Hi; try done; cbn in *; [injection Hi as ->; lia|].
  rewrite <- !Nat.add_assoc. f_equal. exact (IH i Hi).
Qed.

Lemma worker_step_less i (m m' : ThreadManager) js :
  stopped_ m = true -> WorkerLoop i m = Some (m', js) ->
  (work_left m' < work_left m)%nat /\ stopped_ m' = true
  /\ (stopping_ (job_queue_ m) = true -> stopping_ (job_queue_ m') = true) /\ (length js <= 1)%nat.
Proof.
  intros Hs Hw. unfold WorkerLoop in Hw. rewrite Hs in Hw. unfold work_left.
  destruct (threads_ m !! i) as [t|] eqn:Hi; [|done]. pose proof (fun t' => work_insert _ _ _ t' Hi) as H.
  destruct t as [| |j|]; try done.
  - injection Hw as <- <-. cbn. specialize (H Ended). cbn in H. split_and!; solve [lia|done|by cbn; lia].
  - unfold Pop in Hw. destruct (jobs_ (job_queue_ m)) as [|j q].
    + destruct (stopping_ (job_queue_ m)) eqn:Hst; [|done]. injection Hw as <- <-. cbn. specialize (H Ended). cbn in H.
      split_and!; solve [lia|done|by cbn; lia].
    + injection Hw as <- <-. cbn. specialize (H (Working j)). cbn in H. split_and!; solve [lia|done|by cbn; lia].
  - injection Hw as <- <-. cbn. specialize (H Looking). cbn in H. split_and!; solve [lia|done|by cbn; lia].
Qed.

Lemma worker_progress (m : ThreadManager) :
  stopping_ (job_queue_ m) = true -> forallb ended (threads_ m) = false -> exists i m' js, WorkerLoop i m = Some (m', js).
Proof.
  intros Hq He. assert (exists i t, threads_ m !! i = Some t /\ ended t = false) as (i & t & Hi & Ht).
  { revert He. generalize (threads_ m). intros ts. induction ts as [|t ts IH]; cbn; [done|].
    destruct (ended t) eqn:Ht; cbn; [|intros _; by exists 0%nat, t].
    intros H. destruct (IH H) as (i & t' & Hi & Ht'). by exists (S i), t'. }
  exists i. unfold WorkerLoop. rewrite Hi. destruct t as [| |j|]; try done; eauto.
  unfold Pop. destruct (jobs_ (job_queue_ m)); [rewrite Hq|]; eauto.
Qed.

(** The workers run until all have ended, in any order: [w] is the work that is left. *)
Lemma workers_end w (m : ThreadManager) a d :
  stopped_ m = true -> stopping_ (job_queue_ m) = true -> (work_left m <= w)%nat ->
  exists m' d', rtc thread_step (mkThreadRun m a d) (mkThreadRun m' a d') /\ forallb ended (threads_ m') = true.
Proof.
  revert m d. induction w as [|w IH]; intros m d Hs Hq Hw; destruct (forallb ended (threads_ m)) eqn:He;
    [exists m, d; split; [apply rtc_refl|done]| |exists m, d; split; [apply rtc_refl|done]|].
  all: destruct (worker_progress m Hq He) as (i & m' & js & Hi);
    destruct (worker_step_less i m m' js Hs Hi) as (Hl & Hs' & Hq' & _).
  { lia. }
  destruct (IH m' (d ++ js) Hs' (Hq' Hq)) as (m'' & d' & Hr & Hd); [lia|].
  exists m'', d'. split; [|done]. eapply rtc_l; [by apply (t_worker i)|done].
Qed.
End threads.
Arguments thread_state J : clear implicits.
Arguments ThreadManager J : clear implicits.
Arguments ThreadRun J : clear implicits.

(** The worker threads of a server run every job once, and stop.  In every run of the
    threads, the pushes, [Start] and [Stop], each job the queue took either ran, or is with
    one thread, or is still queued: none is run twice and none disappears.  Once [Stop] has
    set the flag and stopped the queue, every step of a thread brings its end nearer and
    finishes at most one job, a thread that has not ended can always step, and the threads can all end, so
    that the joins return. *)
Theorem thread_pool_runs_and_stops {J} (q : JobQueue J) (st : ThreadRun J) :
  jobs_ q = [] -> rtc thread_step (mkThreadRun (new_ThreadManager q) [] []) st ->
  jobs_once st
  /\ (stopped_ (manager st) = true -> stopping_ (job_queue_ (manager st)) = true ->
      (forall i m' js, WorkerLoop i (manager st) = Some (m', js) ->
         (work_left m' < work_left (manager st))%nat /\ (length js <= 1)%nat)
      /\ (forallb ended (threads_ (manager st)) = false -> exists i m' js, WorkerLoop i (manager st) = Some (m', js))
      /\ exists st' m'', rtc thread_step st st' /\ stop_join (manager st') = Some m'').
Proof.
  intros Hq Hr. split.
  - apply (rtc_preserved jobs_once Hr).
    + intros a b Ha Hab. by apply (thread_step_once a b).
    + unfold jobs_once. cbn. by rewrite Hq.
  - intros Hs Hp. split_and!.
    + intros i m' js Hi. destruct (worker_step_less i _ m' js Hs Hi) as (? & _ & _ & ?). done.
    + by apply worker_progress.
    + destruct st as [m a d]. destruct (workers_end (work_left m) m a d Hs Hp (Nat.le_refl _)) as (m' & d' & Hm & He).
      eexists _, _. split; [exact Hm|]. unfold stop_join. cbn. by rewrite He.
Qed.

(** An empty queue, and two workers that are at work when [Stop] is called while a third job waits. *)
Definition idle_queue : JobQueue Z := mkJobQueue [] false 0 [].
Definition busy_stop : ThreadManager Z :=
  stop_queue (mkThreadManager (mkJobQueue [12] false 0 []) [Working 10; Working 11] true).

(** [Stop] leaves the jobs that wait: the workers finish what they hold and end, although
    [job_queue.hpp] says that [Pop] hands out the rest of the queue after [Stop]. *)
Lemma stop_leaves_jobs :
  exists m1 m2 m3 m4 m5,
    WorkerLoop 0 busy_stop = Some (m1, [10]) /\ WorkerLoop 1 m1 = Some (m2, [11])
    /\ WorkerLoop 0 m2 = Some (m3, []) /\ WorkerLoop 1 m3 = Some (m4, [])
    /\ stop_join m4 = Some m5 /\ jobs_ (job_queue_ m5) = [12].
Proof. eexists _, _, _, _, _. split_and!; reflexivity. Qed.

Lemma thread_pool_runs_and_stops_witness :
  let m := Start 1 (new_ThreadManager idle_queue) in
  jobs_once (mkThreadRun m [] []).
Proof.
  intros m. refine (proj1 (thread_pool_runs_and_stops idle_queue (mkThreadRun m [] []) eq_refl _)).
  apply rtc_once, t_start.
Defined.
