(* ===== verification/TaskScheduler.v ===== *)
(** The pull-model scheduler, [core/concurrent/task_scheduler.hpp] and
    [task_scheduler.cpp].

    A task is named by a number; what it does to the scheduler when it runs is the list
    of calls [body id], which belongs to the caller.  The wrapper that
    [schedule_every] makes is the constructor [Every].  Readings of the clock are
    arguments.  The priority queue is a list ordered by due time, first come first
    among equal times, which is one of the orders the standard library allows. *)

From Stdlib Require Import Sorting.Sorted.
From S2P Require Import Prelude.

(** ** Definitions *)

Inductive Task := Once (id : Z) | Every (id interval : Z).

#[export] Instance Task_eq_dec : EqDecision Task.
Proof. solve_decision. Defined.

(** Calls a running task makes. *)
Inductive client_call :=
  | CallPost (id : Z)
  | CallSchedule (id delay : Z)
  | CallEvery (id interval : Z)
  | CallShutdown.

Record TaskScheduler := mkTaskScheduler {
  ready_ : list Task;
  delayed_ : list (Z * Task);
  shutdown_ : bool;
  executed_log : list Z;
}.

Definition new_TaskScheduler : TaskScheduler := mkTaskScheduler [] [] false [].

Definition shutdown (s : TaskScheduler) : TaskScheduler :=
  if shutdown_ s then s else mkTaskScheduler [] [] true (executed_log s).

Definition post (task : option Task) (s : TaskScheduler) : TaskScheduler :=
  match task with
  | None => s
  | Some t =>
      if shutdown_ s then s
      else mkTaskScheduler (ready_ s ++ [t]) (delayed_ s) (shutdown_ s) (executed_log s)
  end.

Fixpoint insert_due (due : Z) (t : Task) (l : list (Z * Task)) : list (Z * Task) :=
  match l with
  | [] => [(due, t)]
  | (d, u) :: l => if due <? d then (due, t) :: (d, u) :: l else (d, u) :: insert_due due t l
  end.

Definition schedule (now : Z) (task : option Task) (delay : Z) (s : TaskScheduler) : TaskScheduler :=
  match task with
  | None => s
  | Some t =>
      if shutdown_ s then s
      else if delay <=? 0 then post (Some t) s
      else mkTaskScheduler (ready_ s) (insert_due (now + delay) t (delayed_ s)) (shutdown_ s) (executed_log s)
  end.

Definition schedule_every (now : Z) (id : option Z) (interval : Z) (s : TaskScheduler) : TaskScheduler :=
  match id with
  | None => post None s
  | Some id =>
      if interval <=? 0 then post (Some (Once id)) s
      else schedule now (Some (Every id interval)) interval s
  end.

(** The first loop of [collect_ready]: due tasks move to the ready queue. *)
Fixpoint move_due (now : Z) (delayed : list (Z * Task)) (ready : list Task) : list (Z * Task) * list Task :=
  match delayed with
  | (d, t) :: rest => if d <=? now then move_due now rest (ready ++ [t]) else (delayed, ready)
  | [] => ([], ready)
  end.

(** The second loop: at most [max_tasks] of them leave it. *)
Fixpoint take_ready (ready out : list Task) (max_tasks : Z) : list Task * list Task :=
  match ready with
  | t :: rest => if zlen out <? max_tasks then take_ready rest (out ++ [t]) max_tasks else (ready, out)
  | [] => ([], out)
  end.

Definition collect_ready (now max_tasks : Z) (s : TaskScheduler) : TaskScheduler * list Task :=
  let '(delayed, ready) := move_due now (delayed_ s) (ready_ s) in
  let '(ready, out) := take_ready ready [] max_tasks in
  (mkTaskScheduler ready delayed (shutdown_ s) (executed_log s), out).

Definition sched_empty (s : TaskScheduler) : bool :=
  match ready_ s, delayed_ s with [], [] => true | _, _ => false end.

Section Poll.
Context (body : Z -> list client_call).

Definition client_step (now : Z) (s : TaskScheduler) (c : client_call) : TaskScheduler :=
  match c with
  | CallPost id => post (Some (Once id)) s
  | CallSchedule id delay => schedule now (Some (Once id)) delay s
  | CallEvery id interval => schedule_every now (Some id) interval s
  | CallShutdown => shutdown s
  end.

Definition run_body (now id : Z) (s : TaskScheduler) : TaskScheduler :=
  foldl (client_step now)
    (mkTaskScheduler (ready_ s) (delayed_ s) (shutdown_ s) (executed_log s ++ [id])) (body id).

(** The call of one task; [now] is the time it and its calls read. *)
Definition run_task (now : Z) (t : Task) (s : TaskScheduler) : TaskScheduler :=
  match t with
  | Once id => run_body now id s
  | Every id interval =>
      if shutdown_ s then s else schedule_every now (Some id) interval (run_body now id s)
  end.

(** The k-th task of a poll runs at time [tick k]. *)
Fixpoint run_tasks (tick : nat -> Z) (k : nat) (ts : list Task) (s : TaskScheduler) : TaskScheduler :=
  match ts with
  | [] => s
  | t :: ts => run_tasks tick (S k) ts (run_task (tick k) t s)
  end.

Definition poll (now : Z) (tick : nat -> Z) (max_tasks : Z) (s : TaskScheduler) : TaskScheduler * Z :=
  if shutdown_ s then (s, 0)
  else
    let '(s, out) := collect_ready now (u64 max_tasks) s in
    (run_tasks tick 0 out s, zlen out).
End Poll.

(** ** Lemmas *)

Definition by_due (x y : Z * Task) : Prop := x.1 <= y.1.
Definition wf_sched (s : TaskScheduler) : Prop := StronglySorted by_due (delayed_ s).

Lemma elem_of_insert_due d t l x : x ∈ insert_due d t l <-> x = (d, t) \/ x ∈ l.
Proof.
  induction l as [|[d' u] l IH]; simpl; [set_solver|]. destruct (d <? d'); set_solver.
Qed.

Lemma insert_due_sorted d t l : StronglySorted by_due l -> StronglySorted by_due (insert_due d t l).
Proof.
  induction 1 as [|[d' u] l Hs IH Hle]; simpl; [repeat constructor|].
  destruct (Z.ltb_spec d d') as [Hlt|Hge].
  - constructor; [by constructor|]. constructor; [unfold by_due; simpl; lia|].
    eapply Forall_impl; [exact Hle|]. unfold by_due. simpl. lia.
  - constructor; [done|]. apply Forall_forall. intros x [->|Hin]%elem_of_insert_due; [done|].
    by rewrite Forall_forall in Hle; apply Hle.
Qed.

(** What the loops of [collect_ready] compute. *)
Lemma move_due_spec now delayed ready :
  StronglySorted by_due delayed ->
  move_due now delayed ready
  = (filter (fun x => now < x.1) delayed, ready ++ map snd (filter (fun x => x.1 <= now) delayed)).
Proof.
  intros Hs. revert ready. induction Hs as [|[d t] l Hs IH Hle]; intros ready; cbn [move_due].
  - by rewrite app_nil_r.
  - rewrite !filter_cons. cbn [fst]. destruct (Z.leb_spec d now) as [Hd|Hd].
    + rewrite decide_False, decide_True by lia. rewrite IH. cbn [map snd]. by rewrite <- app_assoc.
    + rewrite decide_True, decide_False by lia. rewrite Forall_forall in Hle. unfold by_due in Hle. simpl in Hle.
      rewrite (filter_all (fun x => now < x.1)).
      * rewrite (filter_none (fun x => x.1 <= now)); [cbn [map]; by rewrite app_nil_r|].
        apply Forall_forall. intros x Hx%Hle. lia.
      * apply Forall_forall. intros x Hx%Hle. lia.
Qed.

Lemma take_ready_spec ready out m :
  take_ready ready out m
  = (drop (Z.to_nat (m - zlen out)) ready, out ++ take (Z.to_nat (m - zlen out)) ready).
Proof.
  revert out. induction ready as [|t ready IH]; intros out; cbn [take_ready].
  - by rewrite take_nil, drop_nil, app_nil_r.
  - destruct (Z.ltb_spec (zlen out) m).
    + rewrite IH, length_app. simpl length.
      replace (Z.to_nat (m - zlen out)) with (S (Z.to_nat (m - Z.of_nat (length out + 1)))) by lia.
      simpl. by rewrite <- app_assoc.
    + replace (Z.to_nat (m - zlen out)) with 0%nat by lia. by rewrite app_nil_r.
Qed.

Section Theory.
Context (body : Z -> list client_call).

(** A step of a running task keeps what is queued and only adds behind it. *)
Definition grows (s s' : TaskScheduler) : Prop :=
  shutdown_ s' = shutdown_ s /\ executed_log s `prefix_of` executed_log s'
  /\ ready_ s `prefix_of` ready_ s' /\ (forall x, x ∈ delayed_ s -> x ∈ delayed_ s')
  /\ (wf_sched s -> wf_sched s').

#[local] Instance grows_preorder : PreOrder grows.
Proof.
  split.
  - intros s. split_and!; auto.
  - intros s1 s2 s3 (A1 & A2 & A3 & A4 & A5) (B1 & B2 & B3 & B4 & B5).
    split_and!; [congruence|by etrans|by etrans|auto|auto].
Qed.

Lemma post_grows t s : grows s (post t s).
Proof.
  destruct t as [t|]; [|reflexivity]. unfold post. destruct (shutdown_ s) eqn:Hs; [reflexivity|].
  split_and!; simpl; try done. by apply prefix_app_r.
Qed.

Lemma schedule_grows now t delay s : grows s (schedule now t delay s).
Proof.
  destruct t as [t|]; [|reflexivity]. unfold schedule. destruct (shutdown_ s) eqn:Hs; [reflexivity|].
  destruct (delay <=? 0); [apply post_grows|]. split_and!; simpl; try done.
  - intros x Hx. apply elem_of_insert_due. by right.
  - apply insert_due_sorted.
Qed.

Lemma schedule_every_grows now id interval s : grows s (schedule_every now id interval s).
Proof.
  destruct id as [id|]; [|apply post_grows]. unfold schedule_every.
  destruct (interval <=? 0); [apply post_grows|apply schedule_grows].
Qed.

Context (Hbody : forall id, CallShutdown ∉ body id).

Lemma client_steps_grow now cs s : CallShutdown ∉ cs -> grows s (foldl (client_step now) s cs).
Proof.
  revert s. induction cs as [|c cs IH]; intros s Hc; simpl; [reflexivity|].
  etrans; [|apply IH; set_solver]. destruct c; cbn [client_step].
  - apply post_grows.
  - apply schedule_grows.
  - apply schedule_every_grows.
  - set_solver.
Qed.

Lemma run_body_grows now id s :
  grows s (run_body body now id s) /\ id ∈ executed_log (run_body body now id s).
Proof.
  unfold run_body. set (s1 := mkTaskScheduler _ _ _ _).
  pose proof (client_steps_grow now (body id) s1 (Hbody id)) as Hg. split.
  - etrans; [|exact Hg]. split_and!; simpl; try done. by apply prefix_app_r.
  - destruct Hg as (_ & Hp & _). eapply elem_of_prefix; [|exact Hp]. simpl. set_solver.
Qed.

Definition task_id (t : Task) : Z := match t with Once id | Every id _ => id end.

Lemma run_task_grows now t s :
  shutdown_ s = false -> grows s (run_task body now t s) /\ task_id t ∈ executed_log (run_task body now t s).
Proof.
  intros Hs. destruct t as [id|id interval]; cbn [run_task task_id]; [apply run_body_grows|]. rewrite Hs.
  destruct (run_body_grows now id s) as [Hg Hid].
  pose proof (schedule_every_grows now (Some id) interval (run_body body now id s)) as Hg'.
  split; [by etrans|]. destruct Hg' as (_ & Hp & _). by eapply elem_of_prefix.
Qed.

Lemma run_tasks_grows tick k ts s :
  shutdown_ s = false ->
  grows s (run_tasks body tick k ts s)
  /\ forall t, t ∈ ts -> task_id t ∈ executed_log (run_tasks body tick k ts s).
Proof.
  revert k s. induction ts as [|t ts IH]; intros k s Hs; cbn [run_tasks].
  - split; [reflexivity|]. intros t Ht%elem_of_nil. done.
  - destruct (run_task_grows (tick k) t s Hs) as [Hg Hid].
    destruct (IH (S k) (run_task body (tick k) t s)) as [Hg' Hids]; [destruct Hg; congruence|].
    split; [by etrans|]. intros u [->|Hu]%elem_of_cons; [|auto].
    destruct Hg' as (_ & Hp & _). by eapply elem_of_prefix.
Qed.

(** What a poll runs and what it leaves. *)
Lemma poll_cases now tick m s :
  wf_sched s -> shutdown_ s = false ->
  let due := ready_ s ++ map snd (filter (fun x => x.1 <= now) (delayed_ s)) in
  let n := Z.to_nat (u64 m) in
  exists s1, poll body now tick m s = (run_tasks body tick 0 (take n due) s1, zlen (take n due))
    /\ ready_ s1 = drop n due /\ delayed_ s1 = filter (fun x => now < x.1) (delayed_ s)
    /\ shutdown_ s1 = false /\ executed_log s1 = executed_log s /\ wf_sched s1.
Proof.
  intros Hwf Hs due n. unfold poll, collect_ready. rewrite Hs, move_due_spec, take_ready_spec by done.
  cbn [length]. rewrite Z.sub_0_r. cbn [app]. eexists. split; [done|]. split_and!; try done.
  unfold wf_sched in *. simpl. clear -Hwf. induction Hwf as [|x l Hw IH Hle]; [constructor|].
  rewrite filter_cons. case_decide; [|done]. constructor; [done|]. by apply Forall_filter.
Qed.

Lemma poll_ready now tick m s i t :
  wf_sched s -> shutdown_ s = false -> fits 64 m ->
  let due := ready_ s ++ map snd (filter (fun x => x.1 <= now) (delayed_ s)) in
  due !! i = Some t ->
  let s' := (poll body now tick m s).1 in
  wf_sched s' /\ shutdown_ s' = false /\ executed_log s `prefix_of` executed_log s'
  /\ (task_id t ∈ executed_log s' \/ (Z.to_nat m <= i)%nat /\ ready_ s' !! (i - Z.to_nat m)%nat = Some t).
Proof.
  intros Hwf Hs Hm due Hi s'. destruct (poll_cases now tick m s Hwf Hs) as (s1 & Hp & Hr & Hd & Hs1 & Hl & Hwf1).
  fold due in Hp, Hr. rewrite (wrap_id 64 m) in Hp, Hr by done.
  subst s'. rewrite Hp. cbn [fst].
  destruct (run_tasks_grows tick 0 (take (Z.to_nat m) due) s1 Hs1) as [(G1 & G2 & G3 & G4 & G5) Hex].
  split_and!; [auto|congruence|by rewrite <- Hl|].
  destruct (decide (i < Z.to_nat m)%nat) as [Hlt|Hge].
  - left. apply Hex. apply (list_elem_of_lookup_2 _ i). by rewrite lookup_take_lt.
  - right. split; [lia|]. eapply prefix_lookup_Some; [|exact G3]. rewrite Hr, lookup_drop, <- Hi. f_equal. lia.
Qed.

Definition run_polls (ps : list (Z * (nat -> Z) * Z)) (s : TaskScheduler) : TaskScheduler :=
  foldl (fun s p => (poll body p.1.1 p.1.2 p.2 s).1) s ps.

Lemma run_polls_log ps s :
  wf_sched s -> shutdown_ s = false -> executed_log s `prefix_of` executed_log (run_polls ps s).
Proof.
  revert s. induction ps as [|[[now tick] m] ps IH]; intros s Hwf Hs; [done|]. simpl.
  destruct (poll_cases now tick m s Hwf Hs) as (s1 & Hp & _ & _ & Hs1 & Hl & Hwf1). rewrite Hp. cbn [fst].
  set (ts := take _ _). destruct (run_tasks_grows tick 0 ts s1 Hs1) as [(G1 & G2 & _ & _ & G5) _].
  etrans; [|apply IH; [auto|congruence]]. by rewrite <- Hl.
Qed.

Lemma ready_task_runs ps s i t :
  wf_sched s -> shutdown_ s = false -> ready_ s !! i = Some t ->
  Forall (fun p => 0 < p.2 < 2 ^ 64) ps -> (i < length ps)%nat ->
  task_id t ∈ executed_log (run_polls ps s).
Proof.
  revert s i. induction ps as [|[[now tick] m] ps IH]; intros s i Hwf Hs Hi Hps Hlen; simpl in Hlen; [lia|].
  apply Forall_cons in Hps as [Hm Hps]. cbn [snd] in Hm.
  destruct (poll_ready now tick m s i t Hwf Hs) as (Hwf' & Hs' & _ & [Hin|[Hge Hi']]);
    [widths; lia|by apply lookup_app_l_Some| |].
  - eapply elem_of_prefix; [exact Hin|]. exact (run_polls_log ps _ Hwf' Hs').
  - apply (IH _ (i - Z.to_nat m)%nat); try done. lia.
Qed.

Definition pending (t : Task) (s : TaskScheduler) : Prop := t ∈ ready_ s ++ map snd (delayed_ s).

Lemma pending_grows t s s' : grows s s' -> pending t s -> pending t s'.
Proof.
  intros (_ & _ & Hr & Hd & _). unfold pending. rewrite !elem_of_app. intros [Hin|Hin].
  - left. by eapply elem_of_prefix.
  - right. apply list_elem_of_fmap in Hin as (x & -> & Hx). apply list_elem_of_fmap. eauto.
Qed.

Lemma run_every_pending now id interval s :
  shutdown_ s = false -> 0 < interval -> pending (Every id interval) (run_task body now (Every id interval) s).
Proof.
  intros Hs Hi. cbn [run_task]. rewrite Hs. destruct (run_body_grows now id s) as [(Hsd & _) _].
  unfold schedule_every, schedule. destruct (Z.leb_spec interval 0); [lia|]. rewrite Hsd, Hs.
  unfold pending. simpl. apply elem_of_app. right. apply list_elem_of_fmap.
  eexists (_, Every id interval). split; [done|]. apply elem_of_insert_due. by left.
Qed.

Lemma run_tasks_every tick k ts id interval s :
  shutdown_ s = false -> 0 < interval -> Every id interval ∈ ts ->
  pending (Every id interval) (run_tasks body tick k ts s).
Proof.
  revert k s. induction ts as [|t ts IH]; intros k s Hs Hi Hin; [by apply elem_of_nil in Hin|]. cbn [run_tasks].
  destruct (run_task_grows (tick k) t s Hs) as [Hg _].
  assert (Hs' : shutdown_ (run_task body (tick k) t s) = false) by (destruct Hg; congruence).
  apply elem_of_cons in Hin as [<-|Hin]; [|by apply IH].
  eapply pending_grows; [by apply run_tasks_grows|]. by apply run_every_pending.
Qed.
End Theory.

(** ** Properties *)

(** A scheduled task is run and not too early: a task pending with due time [due] is
    still pending after every poll before that time, and once polls come at or after
    it, each allowed at least one task, it has run after at most as many polls as there
    were tasks queued, whatever the tasks themselves schedule, as long as none of them
    shuts the scheduler down. *)
Theorem scheduled_task_runs (body : Z -> list client_call) due t s ps :
  (forall id, CallShutdown ∉ body id) -> wf_sched s -> shutdown_ s = false -> (due, t) ∈ delayed_ s ->
  (forall now tick m, now < due -> (due, t) ∈ delayed_ (poll body now tick m s).1)
  /\ (Forall (fun p => due <= p.1.1 /\ 0 < p.2 < 2 ^ 64) ps ->
      (length (ready_ s) + length (delayed_ s) <= length ps)%nat ->
      task_id t ∈ executed_log (run_polls body ps s)).
Proof.
  intros Hb Hwf Hs Hin. split.
  - intros now tick m Hnow. destruct (poll_cases body now tick m s Hwf Hs) as (s1 & Hp & _ & Hd & Hs1 & _ & _).
    rewrite Hp. cbn [fst]. set (ts := take _ _).
    destruct (run_tasks_grows body Hb tick 0 ts s1 Hs1) as [(_ & _ & _ & Hg & _) _].
    apply Hg. rewrite Hd. by apply list_elem_of_filter.
  - intros Hps Hlen. destruct ps as [|[[now tick] m] ps].
    { destruct (delayed_ s); [by apply elem_of_nil in Hin|simpl in Hlen; lia]. }
    apply Forall_cons in Hps as [[Hnow Hm] Hps]. cbn [fst snd] in *.
    set (dl := map snd (filter (fun x => x.1 <= now) (delayed_ s))).
    assert (Ht : t ∈ dl).
    { apply list_elem_of_fmap. exists (due, t). split; [done|]. by apply list_elem_of_filter. }
    apply list_elem_of_lookup_1 in Ht as [k Hk].
    assert (Hkl : (k < length (delayed_ s))%nat).
    { apply lookup_lt_Some in Hk. unfold dl in Hk. rewrite length_map in Hk.
      pose proof (length_filter (fun x => x.1 <= now) (delayed_ s)). lia. }
    destruct (poll_ready body Hb now tick m s (length (ready_ s) + k) t Hwf Hs)
      as (Hwf' & Hs' & _ & [Hin'|[Hge Hi]]); [widths; lia| | |].
    + rewrite lookup_app_r by lia. replace (_ + k - _)%nat with k by lia. exact Hk.
    + eapply elem_of_prefix; [exact Hin'|]. exact (run_polls_log body Hb ps _ Hwf' Hs').
    + eapply (ready_task_runs body Hb ps _ _ t Hwf' Hs' Hi); [|simpl in Hlen; lia].
      eapply Forall_impl; [exact Hps|]. by intros [[? ?] ?] [_ ?].
Qed.

Lemma scheduled_task_runs_witness :
  42 ∈ executed_log (run_polls (fun _ => [CallPost 7])
          [(100, fun _ => 100, 1); (101, fun _ => 101, 1)]
          (schedule 0 (Some (Once 42)) 50 (post (Some (Once 1)) new_TaskScheduler))).
Proof.
  refine (proj2 (scheduled_task_runs (fun _ => [CallPost 7]) 50 (Once 42)
    (schedule 0 (Some (Once 42)) 50 (post (Some (Once 1)) new_TaskScheduler))
    [(100, fun _ => 100, 1); (101, fun _ => 101, 1)] _ _ eq_refl _) _ _).
  - intros id Hin. by apply list_elem_of_singleton in Hin.
  - vm_compute. repeat constructor.
  - apply list_elem_of_here.
  - do 2 (apply Forall_cons_2; [cbn; lia|]). constructor.
  - cbn. lia.
Defined.

(** A periodic task is never lost: after a poll it is still pending, whether the
    poll ran it or not, as long as no task shuts the scheduler down; together with
    the previous property it runs again and again. *)
Theorem periodic_task_persists (body : Z -> list client_call) now tick m s id interval :
  (forall id, CallShutdown ∉ body id) -> wf_sched s -> shutdown_ s = false -> 0 < interval ->
  pending (Every id interval) s -> pending (Every id interval) (poll body now tick m s).1.
Proof.
  intros Hb Hwf Hs Hi Hp. destruct (poll_cases body now tick m s Hwf Hs) as (s1 & -> & Hr & Hd & Hs1 & _ & _).
  cbn [fst]. revert Hr. set (due := ready_ s ++ _). set (n := Z.to_nat (u64 m)). intros Hr.
  destruct (decide (Every id interval ∈ take n due)) as [Hin|Hnin]; [by apply run_tasks_every|].
  eapply pending_grows; [by apply run_tasks_grows|]. unfold pending in *. rewrite Hr, Hd.
  apply elem_of_app in Hp. apply elem_of_app.
  assert (Hdue : Every id interval ∈ due -> Every id interval ∈ drop n due).
  { intros H. rewrite <- (take_drop n due) in H. by apply elem_of_app in H as [?|?]. }
  destruct Hp as [Hp|Hp]; [left; apply Hdue; set_solver|].
  apply list_elem_of_fmap in Hp as ([d t] & Heq & Hx). simpl in Heq. subst t.
  destruct (decide (d <= now)).
  - left. apply Hdue, elem_of_app. right. apply list_elem_of_fmap. exists (d, Every id interval).
    split; [done|]. by apply list_elem_of_filter.
  - right. apply list_elem_of_fmap. exists (d, Every id interval). split; [done|].
    apply list_elem_of_filter. split; [simpl; lia|done].
Qed.

Lemma periodic_task_persists_witness :
  pending (Every 9 5)
    (poll (fun _ => []) 10 (fun _ => 10) 1 (schedule_every 0 (Some 9) 5 new_TaskScheduler)).1.
Proof.
  apply (periodic_task_persists (fun _ => [])); try (by vm_compute).
  - intros id Hin. by apply elem_of_nil in Hin.
  - vm_compute. repeat constructor.
  - apply list_elem_of_here.
Defined.

(** After [shutdown] the scheduler is empty and stays so: no later call queues or runs
    anything. *)
Theorem shutdown_is_final (body : Z -> list client_call) now tick m s c :
  let s' := shutdown s in
  shutdown_ s = false ->
  sched_empty s' = true /\ executed_log s' = executed_log s
  /\ poll body now tick m s' = (s', 0) /\ client_step now s' c = s'.
Proof.
  intros s' Hs. unfold s', shutdown. rewrite Hs. split_and!; try done.
  destruct c; try done. unfold client_step, schedule_every. by destruct (interval <=? 0).
Qed.

Lemma shutdown_is_final_witness : sched_empty (shutdown (post (Some (Once 1)) new_TaskScheduler)) = true.
Proof.
  exact (proj1 (shutdown_is_final (fun _ => []) 0 (fun _ => 0) 1 (post (Some (Once 1)) new_TaskScheduler)
    (CallPost 1) eq_refl)).
Defined.
