(* ===== verification/MemoryPool.v ===== *)
(** The fixed-block memory pool, [core/memory/memory_pool.hpp] and [memory_pool.cpp].

    A pointer is an address, the null pointer is [None]; the chunk lies at [base].  An
    operation holds the mutex of the pool, so it is a function of the state.  The
    free list is a stack with its top first.  The state records the instructions the
    calls to [runtime_metrics] have issued. *)

From S2P Require Import Prelude RuntimeMetrics.

(** ** Definitions *)

Record MemoryPool := mkMemoryPool {
  blockSize_ : Z;
  blockCount_ : Z;
  base : Z;
  chunk_size : Z;
  freeList_ : list Z;
  mp_metrics : list instr;
}.

(** The loop of the constructor pushes block 0, 1, ... : the last one is on top. *)
Definition blocks (base blockSize blockCount : Z) : list Z :=
  map (fun i => base + Z.of_nat i * blockSize) (seq 0 (Z.to_nat blockCount)).

Definition new_MemoryPool (base blockSize blockCount : Z) : MemoryPool :=
  if (blockSize =? 0) || (blockCount =? 0) then mkMemoryPool blockSize 0 base 0 [] (register_memory_pool_capacity 0)
  else mkMemoryPool blockSize blockCount base (u64 (blockSize * blockCount))
         (rev (blocks base blockSize blockCount)) (register_memory_pool_capacity blockCount).

Definition Acquire (p : MemoryPool) : MemoryPool * option Z :=
  match freeList_ p with
  | [] => (p, None)
  | ptr :: rest =>
      (mkMemoryPool (blockSize_ p) (blockCount_ p) (base p) (chunk_size p) rest
         (mp_metrics p ++ record_memory_pool_acquire), Some ptr)
  end.

Definition Release (ptr : option Z) (p : MemoryPool) : MemoryPool :=
  match ptr with
  | None => p
  | Some ptr =>
      if (chunk_size p =? 0) || (blockSize_ p =? 0) || (blockCount_ p =? 0) then p
      else if (ptr <? base p) || (base p + chunk_size p <=? ptr) then p
      else
        let offset := u64 (ptr - base p) in
        if negb (offset mod blockSize_ p =? 0) then p
        else if blockCount_ p <=? zlen (freeList_ p) then p
        else mkMemoryPool (blockSize_ p) (blockCount_ p) (base p) (chunk_size p) (ptr :: freeList_ p)
               (mp_metrics p ++ record_memory_pool_release)
  end.

(** [BufferManager] hands out a pointer with a deleter that releases it. *)
Definition buffer_acquire (p : MemoryPool) : MemoryPool * option Z := Acquire p.
Definition buffer_deleter (ptr : option Z) (p : MemoryPool) : MemoryPool := Release ptr p.

(** ** Invariant *)

Definition is_block (p : MemoryPool) (ptr : Z) : Prop :=
  exists i, 0 <= i < blockCount_ p /\ ptr = base p + i * blockSize_ p.

Record wf_pool (p : MemoryPool) : Prop := {
  wp_size : fits 64 (blockSize_ p) /\ 0 <= blockCount_ p;
  wp_live : 0 < blockCount_ p -> 0 < blockSize_ p /\ chunk_size p = blockSize_ p * blockCount_ p
            /\ chunk_size p < 2 ^ 64;
  wp_dead : blockCount_ p = 0 -> chunk_size p = 0;
  wp_free : Forall (is_block p) (freeList_ p);
  wp_bound : zlen (freeList_ p) <= blockCount_ p;
}.

Definition same_pool (p p' : MemoryPool) : Prop :=
  blockSize_ p' = blockSize_ p /\ blockCount_ p' = blockCount_ p /\ base p' = base p
  /\ chunk_size p' = chunk_size p.

(** ** Lemmas *)

Lemma is_block_same p p' ptr : same_pool p p' -> is_block p ptr -> is_block p' ptr.
Proof. unfold is_block. intros (-> & -> & -> & _) Hb. exact Hb. Qed.

Lemma elem_of_blocks b s n ptr :
  0 <= n -> ptr ∈ blocks b s n <-> exists i, 0 <= i < n /\ ptr = b + i * s.
Proof.
  intros Hn. unfold blocks. rewrite list_elem_of_fmap. split.
  - intros (i & -> & Hi%elem_of_seq). exists (Z.of_nat i). split; [lia|done].
  - intros (i & Hi & ->). exists (Z.to_nat i). rewrite Z2Nat.id by lia. split; [done|].
    apply elem_of_seq. lia.
Qed.

Lemma NoDup_blocks b s n : 0 < s -> NoDup (blocks b s n).
Proof.
  intros Hs. unfold blocks. apply NoDup_fmap_2; [|apply NoDup_seq].
  intros i j Heq. nia.
Qed.

Lemma new_pool_wf b s n : fits 64 s -> 0 <= n -> s * n < 2 ^ 64 -> wf_pool (new_MemoryPool b s n).
Proof.
  intros Hs Hn Hmul. unfold new_MemoryPool.
  destruct (Z.eqb_spec s 0), (Z.eqb_spec n 0); cbn [orb];
    try (constructor; simpl; try done; try lia; constructor).
  rewrite wrap_id by (widths; nia). constructor; simpl; try lia.
  - split; [done|lia].
  - intros _. widths. lia.
  - apply Forall_forall. intros ptr Hin. rewrite <- elem_of_reverse in Hin.
    unfold reverse in Hin. rewrite rev_append_rev, app_nil_r, rev_involutive in Hin.
    by apply elem_of_blocks in Hin; [|lia].
  - rewrite length_rev. unfold blocks. rewrite length_map, length_seq. lia.
Qed.

Lemma acquire_wf p : wf_pool p -> wf_pool (Acquire p).1 /\ same_pool p (Acquire p).1.
Proof.
  intros Hwf. unfold Acquire. destruct (freeList_ p) as [|ptr rest] eqn:Hfl; [by split|].
  destruct Hwf as [Hs Hl Hd Hf Hb]. rewrite Hfl in Hf, Hb.
  apply Forall_cons in Hf as [_ Hf]. split; [|done]. constructor; simpl in *; try done. lia.
Qed.

(** A release that takes effect returns a block of the pool. *)
Lemma release_cases ptr p :
  wf_pool p ->
  Release ptr p = p
  \/ exists q, ptr = Some q /\ is_block p q /\ zlen (freeList_ p) < blockCount_ p
     /\ freeList_ (Release ptr p) = q :: freeList_ p /\ same_pool p (Release ptr p).
Proof.
  intros [Hs Hl Hd Hf Hb]. destruct ptr as [q|]; [|by left]. unfold Release.
  destruct (Z.eqb_spec (chunk_size p) 0), (Z.eqb_spec (blockSize_ p) 0), (Z.eqb_spec (blockCount_ p) 0);
    cbn [orb]; auto.
  destruct (Z.ltb_spec q (base p)), (Z.leb_spec (base p + chunk_size p) q); cbn [orb]; auto.
  destruct Hl as (Hpos & Hchunk & Hlt); [lia|]. rewrite wrap_id by (widths; lia).
  destruct (Z.eqb_spec ((q - base p) mod blockSize_ p) 0) as [Hmod|]; cbn [negb]; auto.
  destruct (Z.leb_spec (blockCount_ p) (zlen (freeList_ p))); auto.
  right. exists q. split_and!; try done. exists ((q - base p) / blockSize_ p).
  pose proof (Z.div_mod (q - base p) (blockSize_ p) ltac:(lia)). split; [|nia].
  split; [apply Z.div_pos; lia|apply Z.div_lt_upper_bound; lia].
Qed.

Lemma release_wf ptr p : wf_pool p -> wf_pool (Release ptr p) /\ same_pool p (Release ptr p).
Proof.
  intros Hwf. destruct (release_cases ptr p Hwf) as [->|(q & -> & Hq & Hlt & Hfl & Hsame)]; [by split|].
  split; [|done]. pose proof Hsame as (H1 & H2 & H3 & H4). destruct Hwf as [Hs Hl Hd Hf Hb].
  constructor; rewrite ?H1, ?H2, ?H3, ?H4, ?Hfl; try done.
  - constructor; [by apply (is_block_same p)|]. eapply Forall_impl; [exact Hf|]. intros. by apply (is_block_same p).
  - simpl. lia.
Qed.

(** A release of a held block of the pool is not refused while fewer than all blocks
    are free. *)
Lemma release_block q p :
  wf_pool p -> is_block p q -> zlen (freeList_ p) < blockCount_ p ->
  Release (Some q) p
  = mkMemoryPool (blockSize_ p) (blockCount_ p) (base p) (chunk_size p) (q :: freeList_ p)
      (mp_metrics p ++ record_memory_pool_release).
Proof.
  intros [Hs Hl Hd Hf Hb] (i & Hi & ->) Hlt. destruct Hl as (Hpos & Hchunk & Hch); [lia|]. unfold Release.
  destruct (Z.eqb_spec (chunk_size p) 0), (Z.eqb_spec (blockSize_ p) 0), (Z.eqb_spec (blockCount_ p) 0);
    try (exfalso; nia). cbn [orb].
  destruct (Z.ltb_spec (base p + i * blockSize_ p) (base p)); [nia|].
  destruct (Z.leb_spec (base p + chunk_size p) (base p + i * blockSize_ p)); [nia|]. cbn [orb].
  replace (base p + i * blockSize_ p - base p) with (i * blockSize_ p) by lia.
  rewrite wrap_id by (widths; nia). rewrite Z_mod_mult. simpl.
  by destruct (Z.leb_spec (blockCount_ p) (zlen (freeList_ p))); [lia|].
Qed.

(** ** Clients of the pool *)

(** A trace of calls and the blocks the callers hold: a call of [Acquire] adds the
    pointer it returned, a call of [Release] gives a pointer back. *)
Inductive pool_op := OpAcquire | OpRelease (ptr : option Z).

Definition pool_step (op : pool_op) (st : MemoryPool * list Z) : MemoryPool * list Z :=
  match op with
  | OpAcquire => let '(p, r) := Acquire st.1 in (p, match r with Some q => q :: st.2 | None => st.2 end)
  | OpRelease (Some q) => (Release (Some q) st.1, remove_first q st.2)
  | OpRelease None => (Release None st.1, st.2)
  end.

(** A caller is disciplined when it releases only pointers it holds. *)
Fixpoint disciplined (ops : list pool_op) (st : MemoryPool * list Z) : bool :=
  match ops with
  | [] => true
  | op :: ops =>
      match op with OpRelease (Some q) => bool_decide (q ∈ st.2) | _ => true end
      && disciplined ops (pool_step op st)
  end.

Definition pool_run (ops : list pool_op) (st : MemoryPool * list Z) : MemoryPool * list Z :=
  foldl (fun st op => pool_step op st) st ops.

(** Free and held blocks together are the blocks of the pool, each exactly once. *)
Definition partition_ok (b s n : Z) (st : MemoryPool * list Z) : Prop :=
  wf_pool st.1 /\ blockSize_ st.1 = s /\ blockCount_ st.1 = n /\ base st.1 = b
  /\ freeList_ st.1 ++ st.2 ≡ₚ blocks b s n.

Lemma partition_step b s n op st :
  0 < s -> 0 < n -> partition_ok b s n st -> disciplined [op] st = true ->
  partition_ok b s n (pool_step op st).
Proof.
  intros Hs Hn (Hwf & Hbs & Hbc & Hb & Hperm) Hdisc. destruct st as [p held], op as [|[q|]]; cbn [pool_step disciplined fst snd] in *.
  - destruct (acquire_wf p Hwf) as (Hwf' & H1 & H2 & H3 & _). unfold Acquire in *.
    destruct (freeList_ p) as [|q rest] eqn:Hfl; [split_and!; simpl; rewrite ?Hfl; done|].
    split_and!; simpl in *; try done. rewrite <- Hperm. by rewrite Permutation_middle.
  - rewrite andb_true_r in Hdisc. apply bool_decide_eq_true in Hdisc.
    assert (Hq : is_block p q).
    { unfold is_block. rewrite Hbs, Hbc, Hb. apply elem_of_blocks; [lia|]. rewrite <- Hperm. set_solver. }
    pose proof (remove_first_perm q held Hdisc) as Hrem.
    assert (Hlt : zlen (freeList_ p) < blockCount_ p).
    { apply Permutation_length in Hperm. apply Permutation_length in Hrem.
      rewrite length_app in Hperm. unfold blocks in Hperm. rewrite length_map, length_seq in Hperm.
      simpl in Hrem. lia. }
    destruct (release_wf (Some q) p Hwf) as (Hwf' & H1 & H2 & H3 & _).
    unfold partition_ok. cbn [fst snd]. rewrite H1, H2, H3.
    split_and!; try done. rewrite release_block by done. cbn [freeList_]. rewrite <- Hperm. rewrite Hrem at 2. simpl. by rewrite Permutation_middle.
  - by split_and!.
Qed.

Lemma partition_perm b s n p h h' : h ≡ₚ h' -> partition_ok b s n (p, h) -> partition_ok b s n (p, h').
Proof. intros Hp (H1 & H2 & H3 & H4 & H5). split_and!; try done. simpl in *. by rewrite <- Hp. Qed.

Lemma partition_acquire b s n p h p' r :
  0 < s -> 0 < n -> partition_ok b s n (p, h) -> Acquire p = (p', r) ->
  partition_ok b s n (p', match r with Some q => q :: h | None => h end).
Proof.
  intros Hs Hn Hok Ha. pose proof (partition_step b s n OpAcquire (p, h) Hs Hn Hok eq_refl) as H.
  cbn [pool_step fst snd] in H. by rewrite Ha in H.
Qed.

Lemma partition_release b s n p h q h' :
  0 < s -> 0 < n -> partition_ok b s n (p, h) -> h ≡ₚ q :: h' -> partition_ok b s n (Release (Some q) p, h').
Proof.
  intros Hs Hn Hok Hp. assert (Hin : q ∈ h) by (rewrite Hp; left).
  pose proof (partition_step b s n (OpRelease (Some q)) (p, h) Hs Hn Hok) as H.
  eapply partition_perm; [|apply H; cbn; by rewrite bool_decide_true].
  apply (Permutation_cons_inv (a := q)). by rewrite <- Hp, <- remove_first_perm.
Qed.

Lemma partition_run b s n ops st :
  0 < s -> 0 < n -> partition_ok b s n st -> disciplined ops st = true -> partition_ok b s n (pool_run ops st).
Proof.
  intros Hs Hn. revert st. induction ops as [|op ops IH]; intros st Hok Hdisc; [done|].
  cbn [disciplined] in Hdisc. apply andb_true_iff in Hdisc as [Hd1 Hd2]. apply IH; [|done].
  apply partition_step; try done. cbn [disciplined]. by rewrite Hd1.
Qed.

Lemma partition_new b s n :
  0 < s -> 0 < n -> s * n < 2 ^ 64 -> partition_ok b s n (new_MemoryPool b s n, []).
Proof.
  intros Hs Hn Hmul.
  assert (wf_pool (new_MemoryPool b s n)) by (apply new_pool_wf; try done; try lia; widths; nia).
  unfold partition_ok, new_MemoryPool in *. cbn [fst snd].
  destruct (Z.eqb_spec s 0), (Z.eqb_spec n 0); try lia. cbn [orb] in *.
  split_and!; try done. simpl. rewrite app_nil_r. symmetry. apply Permutation_rev.
Qed.

(** ** Properties *)

(** Callers that release only blocks they hold never share a block: after every
    sequence of calls the blocks held are distinct blocks of the chunk, a further
    [Acquire] returns a block nobody holds and lies with its whole extent in the
    chunk, and it returns null exactly when every block is held. *)
Theorem pool_no_sharing b s n ops (st := pool_run ops (new_MemoryPool b s n, [])) :
  0 < s -> 0 < n -> s * n < 2 ^ 64 -> disciplined ops (new_MemoryPool b s n, []) = true ->
  NoDup st.2
  /\ (forall q, q ∈ st.2 -> b <= q /\ q + s <= b + s * n /\ (q - b) mod s = 0)
  /\ match (Acquire st.1).2 with
     | Some q => (q ∉ st.2) /\ b <= q /\ q + s <= b + s * n /\ (q - b) mod s = 0
     | None => zlen st.2 = n
     end.
Proof.
  intros Hs Hn Hmul Hdisc.
  destruct (partition_run b s n ops _ Hs Hn (partition_new b s n Hs Hn Hmul) Hdisc)
    as (Hwf & _ & _ & _ & Hperm). fold st in Hwf, Hperm.
  assert (Hin : forall q, q ∈ freeList_ st.1 ++ st.2 -> b <= q /\ q + s <= b + s * n /\ (q - b) mod s = 0).
  { intros q Hq. rewrite Hperm in Hq. apply elem_of_blocks in Hq as (i & Hi & ->); [|lia].
    split_and!; [nia|nia|]. replace (b + i * s - b) with (i * s) by lia. apply Z_mod_mult. }
  pose proof (NoDup_blocks b s n Hs) as Hnd. rewrite <- Hperm in Hnd. apply NoDup_app in Hnd as (_ & Hdis & Hnd).
  split_and!; [done|intros q Hq; apply Hin; set_solver|].
  unfold Acquire. destruct (freeList_ st.1) as [|q rest] eqn:Hfl; cbn [snd].
  - apply Permutation_length in Hperm. unfold blocks in Hperm. rewrite length_map, length_seq in Hperm.
    simpl in Hperm. lia.
  - split; [apply Hdis; left|apply Hin; rewrite ?Hfl; left].
Qed.

Lemma pool_no_sharing_witness :
  NoDup (pool_run [OpAcquire; OpAcquire; OpRelease (Some 4096)] (new_MemoryPool 4096 64 2, [])).2.
Proof. apply (pool_no_sharing 4096 64 2); vm_compute; done. Defined.

(** Whatever pointers are released, twice or never acquired, foreign or misaligned,
    the pool stays well formed: every free block is a block of the chunk and the free
    list never grows past the number of blocks. *)
Theorem pool_release_safe b s n ops (p := (pool_run ops (new_MemoryPool b s n, [])).1) :
  0 < s -> 0 < n -> s * n < 2 ^ 64 ->
  zlen (freeList_ p) <= n
  /\ forall q, q ∈ freeList_ p -> b <= q /\ q + s <= b + s * n /\ (q - b) mod s = 0.
Proof.
  intros Hs Hn Hmul.
  assert (Hok : forall st : MemoryPool * list Z,
            wf_pool st.1 /\ blockSize_ st.1 = s /\ blockCount_ st.1 = n /\ base st.1 = b ->
            let st' := pool_run ops st in
            wf_pool st'.1 /\ blockSize_ st'.1 = s /\ blockCount_ st'.1 = n /\ base st'.1 = b).
  { clear p. induction ops as [|op ops' IH]; intros [p held] (Hwf & H1 & H2 & H3); [done|]. simpl. apply IH.
    destruct op as [|[q|]]; cbn [pool_step fst snd]; [| |by split_and!].
    - destruct (acquire_wf p Hwf) as (? & E1 & E2 & E3 & _).
      destruct (Acquire p); simpl in *. rewrite E1, E2, E3. by split_and!.
    - destruct (release_wf (Some q) p Hwf) as (? & -> & -> & -> & _). by split_and!. }
  destruct (partition_new b s n Hs Hn Hmul) as (Hwf0 & H1 & H2 & H3 & _).
  destruct (Hok (new_MemoryPool b s n, []) ltac:(by split_and!)) as ([_ _ _ Hf Hb] & E1 & E2 & E3). fold p in Hf, Hb, E1, E2, E3.
  rewrite E2 in Hb. split; [done|]. intros q Hq. rewrite Forall_forall in Hf. destruct (Hf q Hq) as (i & Hi & ->).
  rewrite E1, E2, E3 in *. split_and!; [nia|nia|]. replace (b + i * s - b) with (i * s) by lia. apply Z_mod_mult.
Qed.

Lemma pool_release_safe_witness :
  zlen (freeList_ (pool_run [OpAcquire; OpRelease (Some 4097); OpRelease (Some 4160); OpRelease (Some 4160)]
                     (new_MemoryPool 4096 64 2, [])).1) <= 2.
Proof.
  exact (proj1 (pool_release_safe 4096 64 2
    [OpAcquire; OpRelease (Some 4097); OpRelease (Some 4160); OpRelease (Some 4160)] eq_refl eq_refl eq_refl)).
Defined.

(** The gauge [memory_pool_in_use] after the calls of the pool so far. *)
Definition in_use (p : MemoryPool) : Z := run_instrs (mp_metrics p) zero_counters memory_pool_in_use.

Lemma in_use_step b s n op st :
  0 < s -> 0 < n < 2 ^ 64 -> partition_ok b s n st -> disciplined [op] st = true ->
  in_use st.1 = zlen st.2 -> in_use (pool_step op st).1 = zlen (pool_step op st).2.
Proof.
  intros Hs Hn (Hwf & Hbs & Hbc & Hb & Hperm) Hdisc Huse. destruct st as [p held].
  pose proof (Permutation_length Hperm) as Hlen. cbn [fst snd] in *. unfold blocks in Hlen.
  rewrite length_app, length_map, length_seq in Hlen.
  destruct op as [|[q|]]; cbn [pool_step disciplined fst snd] in *; [| |done].
  - unfold Acquire. destruct (freeList_ p) as [|q rest] eqn:Hfl; [done|].
    unfold in_use in *. cbn [mp_metrics fst snd]. unfold run_instrs in *. rewrite foldl_app.
    cbn [record_memory_pool_acquire foldl run_instr]. cbv zeta. simpl in Hlen.
    destruct (_ <? _); counters; rewrite Huse, wrap_id by (widths; lia); simpl; lia.
  - rewrite andb_true_r in Hdisc. apply bool_decide_eq_true in Hdisc.
    pose proof (Permutation_length (remove_first_perm q held Hdisc)) as Hrem. simpl in Hrem.
    assert (Hq : is_block p q).
    { unfold is_block. rewrite Hbs, Hbc, Hb. apply elem_of_blocks; [lia|]. rewrite <- Hperm. set_solver. }
    assert (Hm : mp_metrics (Release (Some q) p) = mp_metrics p ++ record_memory_pool_release).
    { rewrite release_block; [done..|]. rewrite Hbc. lia. }
    unfold in_use in *. rewrite Hm. unfold run_instrs in *. rewrite foldl_app. simpl. counters.
    rewrite Huse, wrap_id by (widths; lia). lia.
Qed.

Lemma in_use_register n : run_instrs (register_memory_pool_capacity n) zero_counters memory_pool_in_use = 0.
Proof.
  unfold run_instrs, register_memory_pool_capacity. cbn [foldl run_instr].
  rewrite !set_counter_ne by done. pose proof (wrap_fits 64 n ltac:(lia)).
  destruct (Z.ltb_spec (u64 n) (zero_counters memory_pool_in_use)) as [Hlt|_];
    [change (zero_counters memory_pool_in_use) with 0 in Hlt; widths; lia|].
  destruct (_ <? _); by rewrite ?set_counter_ne.
Qed.

(** The gauge is exact: while callers release only blocks they hold, the counter
    [memory_pool_in_use] that the pool's calls leave behind is the number of blocks
    handed out. *)
Theorem pool_gauge_exact b s n ops (st := pool_run ops (new_MemoryPool b s n, [])) :
  0 < s -> 0 < n -> s * n < 2 ^ 64 -> disciplined ops (new_MemoryPool b s n, []) = true ->
  in_use st.1 = zlen st.2.
Proof.
  intros Hs Hn Hmul. pose proof (partition_new b s n Hs Hn Hmul) as Hok.
  assert (Hin : in_use (new_MemoryPool b s n) = 0).
  { unfold new_MemoryPool. destruct ((s =? 0) || (n =? 0)); apply in_use_register. }
  change 0 with (zlen (new_MemoryPool b s n, @nil Z).2) in Hin.
  change (new_MemoryPool b s n) with (new_MemoryPool b s n, @nil Z).1 in Hin at 1.
  subst st. generalize dependent (new_MemoryPool b s n, @nil Z).
  induction ops as [|op ops IH]; intros st Hok Hin Hdisc; [done|].
  cbn [disciplined] in Hdisc. apply andb_true_iff in Hdisc as [Hd1 Hd2]. cbn [pool_run foldl].
  apply IH; [|apply (in_use_step b s n); try done; [nia|]|done].
  - apply partition_step; try done. cbn [disciplined]. by rewrite Hd1.
  - cbn [disciplined]. by rewrite Hd1.
Qed.

Lemma pool_gauge_exact_witness :
  in_use (pool_run [OpAcquire; OpAcquire; OpRelease (Some 4096)] (new_MemoryPool 4096 64 2, [])).1 = 1.
Proof.
  exact (pool_gauge_exact 4096 64 2 [OpAcquire; OpAcquire; OpRelease (Some 4096)] eq_refl eq_refl eq_refl eq_refl).
Defined.

(** A block released twice is handed out twice: the guard of [Release] compares counts
    and does not look whether the block is free already. *)
Theorem pool_double_release :
  (pool_run [OpAcquire; OpAcquire; OpRelease (Some 4160); OpRelease (Some 4160); OpAcquire; OpAcquire]
     (new_MemoryPool 4096 64 2, [])).2 = [4160; 4160; 4096].
Proof. by vm_compute. Qed.
