(* ===== verification/Session.v ===== *)
(** The packet session, [core/net/session.hpp] and [core/src/net/session.cpp].

    All work of a session runs on its strand, so a method or completion handler is a
    function of the state.  The socket is an event source: what an asynchronous read
    or write completes with is an argument of its handler, and a flag remembers which
    operations are outstanding; a timer is a flag, its expiry an event.  The buffers
    come from the shared pool of [MemoryPool], a queued buffer carries its bytes.
    Message handlers belong to the application: [handler] yields the answer of
    [Dispatcher::dispatch] and the calls the handler makes on its session.  Clock
    readings are arguments; traces and logs are left out. *)

From S2P Require Import Prelude ProtocolErrors Wire Dispatch RuntimeMetrics MemoryPool Resilience.

(** ** Definitions *)

Record SessionOptions := mkSessionOptions {
  recv_max_payload : Z;
  send_queue_max : Z;
  heartbeat_interval_ms : Z;
  read_timeout_ms : Z;
  write_timeout_ms : Z;
}.

Definition default_SessionOptions : SessionOptions :=
  mkSessionOptions (32 * 1024) (256 * 1024) 10000 15000 15000.

Definition kProtocolVersionMajor : Z := 1.
Definition kProtocolVersionMinor : Z := 1.
Definition is_protocol_version_compatible (client_major client_minor : Z) : bool :=
  (client_major =? kProtocolVersionMajor) && (client_minor <=? kProtocolVersionMinor).
Definition CAP_COMPRESS_SUPP : Z := 0x0001.
Definition CAP_SENDER_SID : Z := 0x0002.

(** The outstanding read. *)
Inductive read_op := NotReading | ReadingHeader | ReadingBody (n : Z).

(** [sent] lists the packets written, [accepted] those queued, [dispatched] the messages
    handed to the dispatcher, [on_close_calls] counts the calls of [on_close_]. *)
Record Session := mkSession {
  options_ : option SessionOptions;
  pool_ : MemoryPool;
  connection_count : Z;
  stopped_ : bool;
  socket_open : bool;
  header_ : PacketHeader;
  read_buf_ : option Z;
  reading : read_op;
  send_queue_ : list (Z * list Z);
  queued_bytes_ : Z;
  writing : bool;
  tx_seq_ : Z;
  read_timer_ : bool;
  write_timer_ : bool;
  heartbeat_timer_ : bool;
  session_status_ : SessionStatus;
  ss_metrics : list instr;
  on_close_calls : Z;
  dispatched : list (Z * list Z);
  accepted : list (list Z);
  sent : list (list Z);
}.

Definition log_metrics (m : list instr) (s : Session) : Session :=
  mkSession (options_ s) (pool_ s) (connection_count s) (stopped_ s) (socket_open s) (header_ s) (read_buf_ s)
    (reading s) (send_queue_ s) (queued_bytes_ s) (writing s) (tx_seq_ s) (read_timer_ s) (write_timer_ s)
    (heartbeat_timer_ s) (session_status_ s) (ss_metrics s ++ m) (on_close_calls s) (dispatched s) (accepted s) (sent s).
Definition set_pool (p : MemoryPool) (s : Session) : Session :=
  mkSession (options_ s) p (connection_count s) (stopped_ s) (socket_open s) (header_ s) (read_buf_ s)
    (reading s) (send_queue_ s) (queued_bytes_ s) (writing s) (tx_seq_ s) (read_timer_ s) (write_timer_ s)
    (heartbeat_timer_ s) (session_status_ s) (ss_metrics s) (on_close_calls s) (dispatched s) (accepted s) (sent s).
Definition set_read (h : PacketHeader) (buf : option Z) (r : read_op) (s : Session) : Session :=
  mkSession (options_ s) (pool_ s) (connection_count s) (stopped_ s) (socket_open s) h buf
    r (send_queue_ s) (queued_bytes_ s) (writing s) (tx_seq_ s) (read_timer_ s) (write_timer_ s)
    (heartbeat_timer_ s) (session_status_ s) (ss_metrics s) (on_close_calls s) (dispatched s) (accepted s) (sent s).
Definition set_send (q : list (Z * list Z)) (n : Z) (w : bool) (acc snt : list (list Z)) (s : Session) : Session :=
  mkSession (options_ s) (pool_ s) (connection_count s) (stopped_ s) (socket_open s) (header_ s) (read_buf_ s)
    (reading s) q n w (tx_seq_ s) (read_timer_ s) (write_timer_ s)
    (heartbeat_timer_ s) (session_status_ s) (ss_metrics s) (on_close_calls s) (dispatched s) acc snt.
Definition set_timers (r w h : bool) (s : Session) : Session :=
  mkSession (options_ s) (pool_ s) (connection_count s) (stopped_ s) (socket_open s) (header_ s) (read_buf_ s)
    (reading s) (send_queue_ s) (queued_bytes_ s) (writing s) (tx_seq_ s) r w
    h (session_status_ s) (ss_metrics s) (on_close_calls s) (dispatched s) (accepted s) (sent s).
Definition next_seq (s : Session) : Session :=
  mkSession (options_ s) (pool_ s) (connection_count s) (stopped_ s) (socket_open s) (header_ s) (read_buf_ s)
    (reading s) (send_queue_ s) (queued_bytes_ s) (writing s) (u32 (tx_seq_ s + 1)) (read_timer_ s) (write_timer_ s)
    (heartbeat_timer_ s) (session_status_ s) (ss_metrics s) (on_close_calls s) (dispatched s) (accepted s) (sent s).
Definition set_session_status (st : SessionStatus) (s : Session) : Session :=
  mkSession (options_ s) (pool_ s) (connection_count s) (stopped_ s) (socket_open s) (header_ s) (read_buf_ s)
    (reading s) (send_queue_ s) (queued_bytes_ s) (writing s) (tx_seq_ s) (read_timer_ s) (write_timer_ s)
    (heartbeat_timer_ s) st (ss_metrics s) (on_close_calls s) (dispatched s) (accepted s) (sent s).
Definition log_dispatch (msg_id : Z) (payload : list Z) (s : Session) : Session :=
  mkSession (options_ s) (pool_ s) (connection_count s) (stopped_ s) (socket_open s) (header_ s) (read_buf_ s)
    (reading s) (send_queue_ s) (queued_bytes_ s) (writing s) (tx_seq_ s) (read_timer_ s) (write_timer_ s)
    (heartbeat_timer_ s) (session_status_ s) (ss_metrics s) (on_close_calls s)
    (dispatched s ++ [(msg_id, payload)]) (accepted s) (sent s).

Definition new_Session (options : option SessionOptions) (pool : MemoryPool) (connections : Z) : Session :=
  mkSession options pool (u64 (connections + 1)) false true (mkPacketHeader 0 0 0 0 0) None NotReading [] 0 false 1
    false false false kAny record_session_start 0 [] [] [].

(** A buffer taken from and given back to the pool. *)
Definition take_buffer (s : Session) : Session * option Z :=
  let '(p, r) := buffer_acquire (pool_ s) in (set_pool p s, r).
Definition drop_buffer (ptr : option Z) (s : Session) : Session := set_pool (buffer_deleter ptr (pool_ s)) s.

(** Whether the calls on the socket and the callback throw, and whether a callback is set. *)
Record SessionEnv := mkSessionEnv {
  shutdown_throws : bool;
  close_throws : bool;
  on_close_set : bool;
  on_close_throws : bool;
}.

Section Strand.
Context (env : SessionEnv).

Definition stop (s : Session) : Session :=
  if stopped_ s then s
  else
    let m1 := if socket_open s then
                (if shutdown_throws env then record_exception_ignored else [])
                ++ (if close_throws env then record_exception_ignored else [])
              else [] in
    let m2 := if on_close_set env && on_close_throws env then record_exception_recoverable else [] in
    mkSession (options_ s) (pool_ s) (u64 (connection_count s - 1)) true false (header_ s) (read_buf_ s)
      (reading s) (send_queue_ s) (queued_bytes_ s) (writing s) (tx_seq_ s) false false
      false (session_status_ s) (ss_metrics s ++ m1 ++ record_session_stop ++ m2)
      (if on_close_set env then on_close_calls s + 1 else on_close_calls s)
      (dispatched s) (accepted s) (sent s).

Definition arm_read_timeout (s : Session) : Session :=
  match options_ s with
  | Some o => if read_timeout_ms o =? 0 then s else set_timers true (write_timer_ s) (heartbeat_timer_ s) s
  | None => s
  end.
Definition arm_write_timeout (s : Session) : Session :=
  match options_ s with
  | Some o => if write_timeout_ms o =? 0 then s else set_timers (read_timer_ s) true (heartbeat_timer_ s) s
  | None => s
  end.
Definition arm_heartbeat (s : Session) : Session :=
  match options_ s with
  | Some o => if heartbeat_interval_ms o =? 0 then s else set_timers (read_timer_ s) (write_timer_ s) true s
  | None => s
  end.

Definition do_write (s : Session) : Session :=
  match send_queue_ s with
  | [] => set_timers (read_timer_ s) false (heartbeat_timer_ s) s
  | _ :: _ =>
      let s := arm_write_timeout s in
      set_send (send_queue_ s) (queued_bytes_ s) true (accepted s) (sent s) s
  end.

(** [make_packet]: the header and the payload copied into a pooled block. *)
Definition make_packet (msg_id flags : Z) (payload : list Z) (seq ts : Z) (s : Session) :
    Session * option (Z * list Z) :=
  let packet_size := Z.of_nat k_header_bytes + zlen payload in
  if blockSize_ (pool_ s) <? packet_size then (s, None)
  else
    let '(s, buffer) := take_buffer s in
    match buffer with
    | None => (s, None)
    | Some ptr =>
        let h := mkPacketHeader (u16 (zlen payload)) msg_id flags seq ts in
        let block := repeat 0 (Z.to_nat packet_size) in
        match encode_header h 0 block ≫= poke k_header_bytes payload with
        | Some bytes => (s, Some (ptr, bytes))
        | None => (s, None)
        end
    end.

Definition async_send_buffer (data : Z * list Z) (s : Session) : Session :=
  if stopped_ s then drop_buffer (Some data.1) s
  else if match options_ s with
          | Some o => exceeds_queue_budget (send_queue_max o) (queued_bytes_ s) (zlen data.2)
          | None => false
          end
  then drop_buffer (Some data.1) (stop (log_metrics record_send_queue_drop s))
  else
    let kick_write := match send_queue_ s with [] => true | _ => false end in
    let s := set_send (send_queue_ s ++ [data]) (u64 (queued_bytes_ s + zlen data.2)) (writing s)
               (accepted s ++ [data.2]) (sent s) s in
    if kick_write then do_write s else s.

Definition send_packet (msg_id flags : Z) (payload : list Z) (now : Z) (s : Session) : Session :=
  let '(s', data) := make_packet msg_id flags payload (tx_seq_ s) (u32 now) (next_seq s) in
  match data with Some data => async_send_buffer data s' | None => s' end.

Definition async_send (msg_id : Z) (payload : list Z) (flags now : Z) (s : Session) : Session :=
  send_packet msg_id flags payload now s.

Definition send_hello (now : Z) (s : Session) : Session :=
  let hb := match options_ s with Some o => heartbeat_interval_ms o / 10 | None => 0 end in
  let payload := be16 kProtocolVersionMajor ++ be16 kProtocolVersionMinor
                 ++ be16 (u16 (Z.lor CAP_COMPRESS_SUPP CAP_SENDER_SID)) ++ be16 (u16 hb)
                 ++ be32 (u32 (Z.shiftr (u64 now) 32)) in
  send_packet MSG_HELLO 0 payload now s.

Definition send_error (code : Z) (msg : list Z) (now : Z) (s : Session) : Session :=
  let len := u16 (Z.min (zlen msg) 400) in
  send_packet MSG_ERR 0 (be16 code ++ be16 len ++ take (Z.to_nat len) msg) now s.

(** The calls a message handler makes on its session while it runs. *)
Inductive action :=
  | ActSend (msg_id : Z) (payload : list Z) (flags : Z)
  | ActError (code : Z) (msg : list Z)
  | ActStatus (st : SessionStatus)
  | ActStop.

Definition run_action (now : Z) (s : Session) (a : action) : Session :=
  match a with
  | ActSend msg_id payload flags => async_send msg_id payload flags now s
  | ActError code msg => send_error code msg now s
  | ActStatus st => set_session_status st s
  | ActStop => stop s
  end.

Context (handler : Z -> list Z -> bool * list action).

(** [read_buf_ = buffer_manager_.Acquire()]: the old buffer goes back afterwards. *)
Definition renew_read_buf (s : Session) : Session :=
  let '(s, r) := take_buffer s in
  let s := drop_buffer (read_buf_ s) s in
  set_read (header_ s) r NotReading s.

Definition do_read_header (s : Session) : Session :=
  let s := renew_read_buf s in
  match read_buf_ s with
  | None => stop (log_metrics record_packet_error s)
  | Some _ => set_read (header_ s) (read_buf_ s) ReadingHeader s
  end.

(** A complete message: it is dispatched and the next header is awaited. *)
Definition deliver (now elapsed : Z) (payload : list Z) (s : Session) : Session :=
  let msg_id := ph_msg_id (header_ s) in
  let s := log_metrics (record_packet_payload (zlen payload) ++ record_packet_ok) s in
  let '(handled, actions) := handler msg_id payload in
  let s := foldl (run_action now) (log_dispatch msg_id payload s) actions in
  let s := log_metrics (record_dispatch_opcode msg_id ++ record_dispatch_attempt handled elapsed) s in
  let s := if handled then s else send_error UNKNOWN_MSG_ID (bytes_of_string "unknown msg") now s in
  do_read_header s.

Definition do_read_body (now elapsed body_len : Z) (s : Session) : Session :=
  if body_len =? 0 then deliver now elapsed [] s
  else if blockSize_ (pool_ s) <? body_len then stop (log_metrics record_packet_error s)
  else
    let s := renew_read_buf s in
    match read_buf_ s with
    | None => stop (log_metrics record_packet_error s)
    | Some _ => set_read (header_ s) (read_buf_ s) (ReadingBody body_len) s
    end.

(** Completion of the header read: [None] is an error, [Some data] the bytes read. *)
Definition on_header (now elapsed : Z) (result : option (list Z)) (s : Session) : Session :=
  let s := set_read (header_ s) (read_buf_ s) NotReading s in
  match result with
  | None => stop (log_metrics record_packet_error s)
  | Some data =>
      if negb (zlen data =? Z.of_nat k_header_bytes) then stop (log_metrics record_packet_error s)
      else
        match decode_header data 0 with
        | None => s
        | Some h =>
            let s := set_read h (read_buf_ s) NotReading s in
            if match options_ s with
               | Some o => (0 <? recv_max_payload o) && (recv_max_payload o <? ph_length h)
               | None => false
               end
            then stop (send_error LENGTH_LIMIT_EXCEEDED (bytes_of_string "payload too large") now
                         (log_metrics record_packet_error s))
            else do_read_body now elapsed (ph_length h) (arm_read_timeout s)
        end
  end.

Definition on_body (now elapsed : Z) (result : option (list Z)) (s : Session) : Session :=
  let s := set_read (header_ s) (read_buf_ s) NotReading s in
  match result with
  | None => stop (log_metrics record_packet_error s)
  | Some data =>
      if negb (zlen data =? ph_length (header_ s)) then stop (log_metrics record_packet_error s)
      else deliver now elapsed data (arm_read_timeout s)
  end.

Definition on_written (ok : bool) (s : Session) : Session :=
  match send_queue_ s with
  | [] => s
  | (ptr, bytes) :: rest =>
      let s := set_send (send_queue_ s) (queued_bytes_ s) false (accepted s) (sent s) s in
      if negb ok then stop s
      else
        let s := set_timers (read_timer_ s) false (heartbeat_timer_ s) s in
        let queued := if zlen bytes <=? queued_bytes_ s then queued_bytes_ s - zlen bytes else 0 in
        let s := drop_buffer (Some ptr) (set_send rest queued false (accepted s) (sent s ++ [bytes]) s) in
        do_write s
  end.

Definition on_read_timer (s : Session) : Session :=
  let s := set_timers false (write_timer_ s) (heartbeat_timer_ s) s in
  if stopped_ s then s
  else
    let m := match options_ s with
             | Some o => if 0 <? heartbeat_interval_ms o then record_heartbeat_timeout else []
             | None => []
             end in
    stop (log_metrics (record_session_timeout ++ m) s).

Definition on_write_timer (s : Session) : Session :=
  let s := set_timers (read_timer_ s) false (heartbeat_timer_ s) s in
  if stopped_ s then s else stop (log_metrics record_session_write_timeout s).

Definition on_heartbeat_timer (now : Z) (s : Session) : Session :=
  let s := set_timers (read_timer_ s) (write_timer_ s) false s in
  if stopped_ s then s else arm_heartbeat (send_packet MSG_PING 0 [] now s).

Definition session_start (now : Z) (s : Session) : Session :=
  arm_heartbeat (arm_read_timeout (do_read_header (send_hello now s))).

(** [post_serialized]: a callback on the strand runs unless the session has stopped. *)
Definition post_serialized (fn : Session -> Session) (s : Session) : Session :=
  if stopped_ s then s else fn s.

(** What can happen to a session: calls of other threads, completions of the operations
    it has started, expiry of its timers, and other users of the pool. *)
Inductive event :=
  | EvStart (now : Z)
  | EvSend (msg_id : Z) (payload : list Z) (flags now : Z)
  | EvError (code : Z) (msg : list Z) (now : Z)
  | EvStop
  | EvHeader (now elapsed : Z) (result : option (list Z))
  | EvBody (now elapsed : Z) (result : option (list Z))
  | EvWritten (ok : bool)
  | EvReadTimer
  | EvWriteTimer
  | EvHeartbeat (now : Z)
  | EvPool (op : pool_op).

(** The session together with the blocks other users of the pool hold. *)
Definition session_step (st : Session * list Z) (e : event) : Session * list Z :=
  let '(s, others) := st in
  match e with
  | EvStart now => (session_start now s, others)
  | EvSend msg_id payload flags now => (async_send msg_id payload flags now s, others)
  | EvError code msg now => (send_error code msg now s, others)
  | EvStop => (stop s, others)
  | EvHeader now elapsed result =>
      (match reading s with ReadingHeader => on_header now elapsed result s | _ => s end, others)
  | EvBody now elapsed result =>
      (match reading s with ReadingBody _ => on_body now elapsed result s | _ => s end, others)
  | EvWritten ok => (if writing s then on_written ok s else s, others)
  | EvReadTimer => (if read_timer_ s then on_read_timer s else s, others)
  | EvWriteTimer => (if write_timer_ s then on_write_timer s else s, others)
  | EvHeartbeat now => (if heartbeat_timer_ s then on_heartbeat_timer now s else s, others)
  | EvPool op =>
      match op with
      | OpRelease (Some q) =>
          if bool_decide (q ∈ others) then (drop_buffer (Some q) s, remove_first q others) else st
      | OpRelease None => st
      | OpAcquire =>
          let '(s, r) := take_buffer s in (s, match r with Some q => q :: others | None => others end)
      end
  end.

Definition session_run (es : list event) (st : Session * list Z) : Session * list Z := foldl session_step st es.
End Strand.

(** ** Invariant *)

(** The blocks a session holds: its read buffer and its queued packets. *)
Definition held (s : Session) : list Z := option_list (read_buf_ s) ++ map fst (send_queue_ s).

Definition total_bytes (q : list (Z * list Z)) : Z := zsum (map (fun x => zlen x.2) q).

(** A packet: a header whose length field is the length of the payload behind it. *)
Definition is_frame (bytes : list Z) : Prop :=
  exists h payload, bytes = header_bytes h ++ payload /\ ph_length h = zlen payload.

(** An operation of the session is outstanding exactly while packets wait. *)
Definition writer_ok (s : Session) : Prop :=
  (writing s = true -> send_queue_ s <> []) /\ (stopped_ s = false -> send_queue_ s <> [] -> writing s = true).

Section Invariant.
Context (env : SessionEnv) (b bs n c0 : Z).

Record session_core (st : Session * list Z) : Prop := {
  sc_pool : partition_ok b bs n (pool_ st.1, held st.1 ++ st.2);
  sc_sizes : Forall (fun x => zlen x.2 <= bs) (send_queue_ st.1);
  sc_queued : queued_bytes_ st.1 = total_bytes (send_queue_ st.1);
  sc_budget : forall o, options_ st.1 = Some o -> send_queue_max o <> 0 -> queued_bytes_ st.1 <= send_queue_max o;
  sc_fifo : accepted st.1 = sent st.1 ++ map snd (send_queue_ st.1);
  sc_frames : Forall is_frame (accepted st.1);
  sc_close : on_close_calls st.1 = Z.b2z (stopped_ st.1 && on_close_set env);
  sc_count : connection_count st.1 = u64 (c0 + (if stopped_ st.1 then 0 else 1));
  sc_socket : socket_open st.1 = negb (stopped_ st.1);
  sc_opts : forall o, options_ st.1 = Some o -> fits 64 (send_queue_max o);
}.

Definition session_inv (st : Session * list Z) : Prop := session_core st /\ writer_ok st.1.
End Invariant.

(** ** Lemmas *)

Lemma queue_bytes_app q1 q2 : total_bytes (q1 ++ q2) = total_bytes q1 + total_bytes q2.
Proof. unfold total_bytes. by rewrite map_app, zsum_app. Qed.

Lemma total_bytes_bound bs q : Forall (fun x => zlen x.2 <= bs) q -> 0 <= total_bytes q <= bs * zlen q.
Proof.
  unfold total_bytes, zsum. induction 1 as [|x q Hx _ IH]; simpl; [lia|]. nia.
Qed.

(** Blocks in a partition are at most the blocks of the pool. *)
Lemma partition_held_bound b bs n p h : 0 < n -> partition_ok b bs n (p, h) -> zlen h <= n.
Proof.
  intros Hn (_ & _ & _ & _ & Hp). apply Permutation_length in Hp. simpl in Hp. unfold blocks in Hp.
  rewrite length_app, length_map, length_seq in Hp. lia.
Qed.

(** Arming a timer changes nothing else. *)
Lemma arm_read_timeout_cases s :
  arm_read_timeout s = s \/ arm_read_timeout s = set_timers true (write_timer_ s) (heartbeat_timer_ s) s.
Proof. unfold arm_read_timeout. destruct (options_ s); [case_match|]; auto. Qed.

Lemma arm_write_timeout_cases s :
  arm_write_timeout s = s \/ arm_write_timeout s = set_timers (read_timer_ s) true (heartbeat_timer_ s) s.
Proof. unfold arm_write_timeout. destruct (options_ s); [case_match|]; auto. Qed.

Lemma arm_heartbeat_cases s :
  arm_heartbeat s = s \/ arm_heartbeat s = set_timers (read_timer_ s) (write_timer_ s) true s.
Proof. unfold arm_heartbeat. destruct (options_ s); [case_match|]; auto. Qed.

Section Preserve.
Context (env : SessionEnv) (b bs n c0 : Z) (Hbs : 0 < bs) (Hn : 0 < n) (Hmul : bs * n < 2 ^ 64).
Context (Hframe : bs <= 65535 + Z.of_nat k_header_bytes).
Abbreviation core := (session_core env b bs n c0).
Abbreviation inv := (session_inv env b bs n c0).

(** Fields the invariant does not read can change freely. *)
Lemma core_irrelevant s s' others :
  core (s, others) ->
  options_ s' = options_ s -> pool_ s' = pool_ s -> connection_count s' = connection_count s ->
  stopped_ s' = stopped_ s -> socket_open s' = socket_open s -> read_buf_ s' = read_buf_ s ->
  send_queue_ s' = send_queue_ s -> queued_bytes_ s' = queued_bytes_ s ->
  on_close_calls s' = on_close_calls s -> accepted s' = accepted s -> sent s' = sent s -> core (s', others).
Proof.
  intros [] E1 E2 E3 E4 E5 E6 E7 E8 E9 E10 E11. unfold held in *. cbn [fst snd] in *.
  constructor; unfold held; cbn [fst snd]; rewrite ?E1, ?E2, ?E3, ?E4, ?E5, ?E6, ?E7, ?E8, ?E9, ?E10, ?E11; done.
Qed.

Lemma stop_core s others : core (s, others) -> core (stop env s, others).
Proof.
  intros Hc. unfold stop. destruct (stopped_ s) eqn:Hs; [done|].
  destruct Hc as [H1 H2 H3 H4 H5 H6 H7 H8 H9 H10]; cbn [fst snd] in *; rewrite Hs in *.
  constructor; cbn; try done.
  - rewrite H7. destruct (on_close_set env); done.
  - rewrite H8. unfold wrap. rewrite <- Zminus_mod_idemp_l, Z.mod_mod, Zminus_mod_idemp_l by lia. f_equal. lia.
Qed.

Lemma stop_writer s : writer_ok s -> writer_ok (stop env s).
Proof. unfold stop, writer_ok. destruct (stopped_ s) eqn:Hs; [by rewrite Hs|]. cbn. naive_solver. Qed.

Lemma session_stop_stopped s : stopped_ (stop env s) = true.
Proof. unfold stop. destruct (stopped_ s) eqn:Hs; done. Qed.

Lemma do_write_inv s others : core (s, others) -> (send_queue_ s = [] -> writing s = false) -> inv (do_write s, others).
Proof.
  intros Hc Hw. unfold do_write. destruct (send_queue_ s) as [|x q] eqn:Hq.
  - split; [by eapply core_irrelevant; [exact Hc|..]|]. unfold writer_ok. cbn. rewrite Hq, (Hw eq_refl). naive_solver.
  - split.
    + by destruct (arm_write_timeout_cases s) as [-> | ->]; eapply core_irrelevant; [exact Hc|..].
    + by destruct (arm_write_timeout_cases s) as [-> | ->]; unfold writer_ok; cbn; rewrite Hq.
Qed.

Lemma take_buffer_core s others s' r :
  core (s, others) -> take_buffer s = (s', r) -> core (s', option_list r ++ others).
Proof.
  intros Hc Ht. unfold take_buffer, buffer_acquire in Ht. destruct (Acquire (pool_ s)) as [p r0] eqn:Ha. simplify_eq.
  destruct Hc as [H1 H2 H3 H4 H5 H6 H7 H8 H9 H10]. constructor; try done. cbn [fst snd] in *.
  eapply partition_perm; [|exact (partition_acquire b bs n _ _ _ _ Hbs Hn H1 Ha)].
  change (held (set_pool p s)) with (held s). destruct r as [q|]; [|done]. simpl. by rewrite Permutation_middle.
Qed.

Lemma drop_buffer_core s others ptr : core (s, ptr :: others) -> core (drop_buffer (Some ptr) s, others).
Proof.
  intros [H1 H2 H3 H4 H5 H6 H7 H8 H9 H10]. constructor; try done. cbn [fst snd] in *.
  unfold drop_buffer, buffer_deleter. cbn [pool_ set_pool].
  eapply partition_release; [done|done|exact H1|]. change (held (set_pool _ s)) with (held s).
  by rewrite Permutation_middle.
Qed.

(** The bytes [make_packet] leaves in a block: a frame of the message. *)
Lemma packet_bytes h payload :
  encode_header h 0 (repeat 0 (Z.to_nat (Z.of_nat k_header_bytes + zlen payload))) ≫= poke k_header_bytes payload
  = Some (header_bytes h ++ payload).
Proof.
  rewrite encode_header_poke. pose proof (length_header_bytes h) as Hl.
  replace (Z.to_nat (Z.of_nat k_header_bytes + zlen payload)) with (k_header_bytes + length payload)%nat by lia.
  rewrite repeat_app.
  pose proof (poke_split [] (repeat 0 k_header_bytes) (repeat 0 (length payload)) (header_bytes h)) as Hp.
  cbn [length app] in Hp. rewrite Hp by (by rewrite repeat_length). cbn [mbind option_bind].
  pose proof (poke_split (header_bytes h) (repeat 0 (length payload)) [] payload) as Hq.
  rewrite Hl, !app_nil_r in Hq. apply Hq. by rewrite repeat_length.
Qed.

Lemma make_packet_core msg_id flags payload seq ts s others s' data :
  core (s, others) -> make_packet msg_id flags payload seq ts s = (s', data) ->
  core (s', option_list (fst <$> data) ++ others) /\ (writer_ok s -> writer_ok s')
  /\ match data with Some (_, bytes) => is_frame bytes /\ zlen bytes <= bs | None => True end.
Proof.
  intros Hc. unfold make_packet.
  assert (Hblk : blockSize_ (pool_ s) = bs) by (destruct Hc as [(_ & ? & _) _ _ _ _ _ _ _ _ _]; done).
  rewrite Hblk. destruct (Z.ltb_spec bs (Z.of_nat k_header_bytes + zlen payload)) as [|Hsz].
  - intros [= <- <-]. done.
  - destruct (take_buffer s) as [s1 r] eqn:Ht. pose proof (take_buffer_core s others s1 r Hc Ht) as Hc1.
    assert (Hw : writer_ok s -> writer_ok s1).
    { unfold take_buffer in Ht. destruct (buffer_acquire (pool_ s)). by simplify_eq. }
    destruct r as [ptr|]; [|by intros [= <- <-]]. rewrite packet_bytes. set (h := mkPacketHeader _ _ _ _ _).
    assert (Hf : is_frame (header_bytes h ++ payload)).
    { exists h, payload. split; [reflexivity|]. apply wrap_id. change (Z.of_nat k_header_bytes) with 14 in *.
      widths. lia. }
    assert (Hl : zlen (header_bytes h ++ payload) <= bs) by (rewrite length_app, length_header_bytes; lia).
    generalize dependent (header_bytes h ++ payload). by intros bytes Hf Hl [= <- <-].
Qed.

Lemma async_send_buffer_inv ptr bytes s others :
  inv (s, ptr :: others) -> is_frame bytes -> zlen bytes <= bs -> inv (async_send_buffer env (ptr, bytes) s, others).
Proof.
  intros [Hc Hw] Hf Hsz. unfold async_send_buffer. cbn [fst snd].
  destruct (stopped_ s) eqn:Hs; [split; [by apply drop_buffer_core|done]|].
  pose proof Hc as [H1 H2 H3 H4 H5 H6 H7 H8 H9 H10]. cbn [fst snd] in *.
  assert (Hfit : fits 64 (queued_bytes_ s) /\ fits 64 (queued_bytes_ s + zlen bytes)).
  { pose proof (partition_held_bound _ _ _ _ _ Hn H1) as Hb. unfold held in Hb.
    rewrite !length_app, length_map in Hb. simpl in Hb. pose proof (total_bytes_bound bs _ H2) as Ht.
    rewrite <- H3 in Ht. widths. nia. }
  set (over := match options_ s with Some o => _ | None => _ end). destruct over eqn:Hover; subst over.
  - split.
    + apply drop_buffer_core, stop_core. by eapply core_irrelevant; [exact Hc|..].
    + assert (Hw' : writer_ok (stop env (log_metrics record_send_queue_drop s))) by (by apply stop_writer). exact Hw'.
  - rewrite (wrap_id 64 (queued_bytes_ s + zlen bytes)) by apply Hfit. set (s1 := set_send _ _ _ _ _ s).
    assert (Hc1 : core (s1, others)).
    { constructor; cbn [fst snd]; try done.
      - eapply partition_perm; [|exact H1]. unfold held, s1. cbn. rewrite map_app. cbn.
        by rewrite <- !app_assoc.
      - apply Forall_app. split; [done|]. by constructor.
      - unfold s1. cbn [set_send queued_bytes_ send_queue_]. rewrite queue_bytes_app, <- H3.
        unfold total_bytes, zsum. cbn [map foldr snd]. lia.
      - intros o Ho Hmax. unfold s1 in *. cbn in *. rewrite Ho in Hover.
        pose proof (H10 o Ho) as Hom. pose proof (exceeds_queue_budget_spec (send_queue_max o) (queued_bytes_ s) (zlen bytes)
          Hom (proj1 Hfit)) as Hspec.
        destruct (Z.leb_spec (queued_bytes_ s + zlen bytes) (send_queue_max o)); [done|]. exfalso.
        rewrite (proj2 (Hspec ltac:(widths; lia))) in Hover; [done|]. lia.
      - unfold s1. cbn. rewrite H5, map_app, <- app_assoc. done.
      - apply Forall_app. split; [done|]. by constructor. }
    destruct (send_queue_ s) as [|x q] eqn:Hq.
    + by apply do_write_inv.
    + split; [done|]. destruct Hw as [_ Hw]. split; [done|]. intros _ _. cbn. apply Hw; [done|]. cbn. by rewrite Hq.
Qed.

Lemma send_packet_inv msg_id flags payload now s others :
  inv (s, others) -> inv (send_packet env msg_id flags payload now s, others).
Proof.
  intros [Hc Hw]. unfold send_packet.
  destruct (make_packet msg_id flags payload (tx_seq_ s) (u32 now) (next_seq s)) as [s' data] eqn:Hm.
  assert (Hcn : core (next_seq s, others)) by (by eapply core_irrelevant; [exact Hc|..]).
  destruct (make_packet_core _ _ _ _ _ _ _ _ _ Hcn Hm) as (Hc' & Hw' & Hd).
  assert (Hws : writer_ok s') by (by apply Hw').
  destruct data as [[ptr bytes]|]; [|by split]. destruct Hd as [Hf Hsz]. by apply async_send_buffer_inv.
Qed.

Lemma renew_read_buf_inv s others : inv (s, others) -> inv (renew_read_buf s, others).
Proof.
  intros [Hc Hw]. unfold renew_read_buf. destruct (take_buffer s) as [s1 r] eqn:Ht.
  pose proof (take_buffer_core s others s1 r Hc Ht) as Hc1.
  assert (Hw1 : writer_ok s1) by (unfold take_buffer in Ht; destruct (buffer_acquire (pool_ s)); by simplify_eq).
  split; [|done]. destruct Hc1 as [H1 H2 H3 H4 H5 H6 H7 H8 H9 H10]. constructor; try done. cbn [fst snd] in *.
  unfold held in *. cbn [read_buf_ send_queue_ set_read drop_buffer set_pool pool_]. unfold buffer_deleter.
  destruct (read_buf_ s1) as [old|]; cbn [option_list app Release] in *.
  - eapply partition_release; [done|done|exact H1|]. cbn. apply Permutation_skip.
    rewrite <- !app_assoc. apply Permutation_app_swap_app.
  - eapply partition_perm; [|exact H1]. change (option_list (@None Z)) with (@nil Z). cbn [app].
    rewrite <- !app_assoc. apply Permutation_app_swap_app.
Qed.

Lemma inv_irrelevant s s' others :
  inv (s, others) ->
  options_ s' = options_ s -> pool_ s' = pool_ s -> connection_count s' = connection_count s ->
  stopped_ s' = stopped_ s -> socket_open s' = socket_open s -> read_buf_ s' = read_buf_ s ->
  send_queue_ s' = send_queue_ s -> queued_bytes_ s' = queued_bytes_ s -> writing s' = writing s ->
  on_close_calls s' = on_close_calls s -> accepted s' = accepted s -> sent s' = sent s -> inv (s', others).
Proof.
  intros [Hc Hw] E1 E2 E3 E4 E5 E6 E7 E8 E9 E10 E11 E12. split; [by eapply core_irrelevant; [exact Hc|..]|].
  cbn [fst] in *. unfold writer_ok in *. rewrite E4, E7, E9. done.
Qed.

Ltac by_irrelevant H := eapply inv_irrelevant; [exact H|reflexivity..].

Lemma stop_inv s others : inv (s, others) -> inv (stop env s, others).
Proof. intros [Hc Hw]. split; [by apply stop_core|by apply stop_writer]. Qed.

Lemma log_inv m s others : inv (s, others) -> inv (log_metrics m s, others).
Proof. intros H. by_irrelevant H. Qed.

Lemma arm_read_inv s others : inv (s, others) -> inv (arm_read_timeout s, others).
Proof. intros H. destruct (arm_read_timeout_cases s) as [-> | ->]; [done|by_irrelevant H]. Qed.

Lemma do_read_header_inv s others : inv (s, others) -> inv (do_read_header env s, others).
Proof.
  intros H%renew_read_buf_inv. unfold do_read_header.
  destruct (read_buf_ (renew_read_buf s)) eqn:Hr; [|by apply stop_inv, log_inv].
  eapply inv_irrelevant; [exact H|try reflexivity..]. cbn. by rewrite Hr.
Qed.

Lemma run_action_inv now s others a : inv (s, others) -> inv (run_action env now s a, others).
Proof.
  intros H. destruct a; cbn [run_action].
  - by apply send_packet_inv.
  - by apply send_packet_inv.
  - by_irrelevant H.
  - by apply stop_inv.
Qed.

Context (handler : Z -> list Z -> bool * list action).

Lemma deliver_inv now elapsed payload s others :
  inv (s, others) -> inv (deliver env handler now elapsed payload s, others).
Proof.
  intros H. unfold deliver. destruct (handler _ payload) as [handled actions]. apply do_read_header_inv.
  set (s1 := log_dispatch _ _ _). assert (H1 : inv (s1, others)) by (by_irrelevant H).
  assert (H2 : inv (foldl (run_action env now) s1 actions, others)).
  { clearbody s1. revert s1 H1. induction actions as [|a actions IH]; intros s1 H1; [done|].
    simpl. by apply IH, run_action_inv. }
  destruct handled; [by apply log_inv|]. by apply send_packet_inv, log_inv.
Qed.

Lemma do_read_body_inv now elapsed len s others :
  inv (s, others) -> inv (do_read_body env handler now elapsed len s, others).
Proof.
  intros H. unfold do_read_body. destruct (len =? 0); [by apply deliver_inv|].
  destruct (_ <? _); [by apply stop_inv, log_inv|]. apply renew_read_buf_inv in H.
  destruct (read_buf_ (renew_read_buf s)) eqn:Hr; [|by apply stop_inv, log_inv].
  eapply inv_irrelevant; [exact H|try reflexivity..]. cbn. by rewrite Hr.
Qed.

Lemma on_header_inv now elapsed result s others :
  inv (s, others) -> inv (on_header env handler now elapsed result s, others).
Proof.
  intros H. unfold on_header. set (s1 := set_read _ _ _ s). assert (H1 : inv (s1, others)) by (by_irrelevant H).
  destruct result as [data|]; [|by apply stop_inv, log_inv]. destruct (negb _); [by apply stop_inv, log_inv|].
  destruct (decode_header data 0) as [h|]; [|done].
  set (s2 := set_read h _ _ s1). assert (H2 : inv (s2, others)) by (by_irrelevant H1).
  destruct (match options_ s2 with Some o => _ | None => _ end).
  - by apply stop_inv, send_packet_inv, log_inv.
  - by apply do_read_body_inv, arm_read_inv.
Qed.

Lemma on_body_inv now elapsed result s others :
  inv (s, others) -> inv (on_body env handler now elapsed result s, others).
Proof.
  intros H. unfold on_body. set (s1 := set_read _ _ _ s). assert (H1 : inv (s1, others)) by (by_irrelevant H).
  destruct result as [data|]; [|by apply stop_inv, log_inv]. destruct (negb _); [by apply stop_inv, log_inv|].
  by apply deliver_inv, arm_read_inv.
Qed.

Lemma on_written_inv ok s others : inv (s, others) -> inv (on_written env ok s, others).
Proof.
  intros [Hc Hw]. unfold on_written. destruct (send_queue_ s) as [|[ptr bytes] rest] eqn:Hq; [done|]. destruct ok; cbn [negb].
  - apply do_write_inv; [|done]. apply drop_buffer_core.
    destruct Hc as [H1 H2 H3 H4 H5 H6 H7 H8 H9 H10]. cbn [fst snd] in *. rewrite Hq in *.
    apply Forall_cons in H2 as [Hb H2]. pose proof (total_bytes_bound bs _ H2) as Ht.
    assert (Hqb : queued_bytes_ s = zlen bytes + total_bytes rest) by (rewrite H3; done).
    constructor; cbn -[total_bytes Z.of_nat Z.sub]; try done.
    + eapply partition_perm; [|exact H1]. unfold held. cbn. rewrite Hq. cbn. rewrite <- !app_assoc. cbn.
      by rewrite (Permutation_middle (map fst rest)).
    + destruct (Z.leb_spec (zlen bytes) (queued_bytes_ s)); lia.
    + intros o Ho Hm. specialize (H4 o Ho Hm). destruct (Z.leb_spec (zlen bytes) (queued_bytes_ s)); lia.
    + by rewrite H5, <- app_assoc.
  - split.
    + apply stop_core. by eapply core_irrelevant; [exact Hc|..].
    + unfold stop, writer_ok. cbn. destruct (stopped_ s) eqn:Hs; cbn; [rewrite Hs|]; naive_solver.
Qed.

Lemma session_step_inv st e : inv st -> inv (session_step env handler st e).
Proof.
  destruct st as [s others]. intros H. destruct e as [now|m p f now|c m now| |now el r|now el r|ok| | |now|op]; cbn [session_step].
  - unfold session_start. set (s1 := do_read_header env _).
    assert (H1 : inv (s1, others)) by (by apply do_read_header_inv, send_packet_inv).
    apply arm_read_inv in H1. destruct (arm_heartbeat_cases (arm_read_timeout s1)) as [-> | ->]; [done|by_irrelevant H1].
  - by apply send_packet_inv.
  - by apply send_packet_inv.
  - by apply stop_inv.
  - destruct (reading s); [done|by apply on_header_inv|done].
  - destruct (reading s); [done|done|by apply on_body_inv].
  - destruct (writing s); [by apply on_written_inv|done].
  - destruct (read_timer_ s); [|done]. unfold on_read_timer. set (s1 := set_timers _ _ _ s).
    assert (H1 : inv (s1, others)) by (by_irrelevant H). destruct (stopped_ s1); [done|by apply stop_inv, log_inv].
  - destruct (write_timer_ s); [|done]. unfold on_write_timer. set (s1 := set_timers _ _ _ s).
    assert (H1 : inv (s1, others)) by (by_irrelevant H). destruct (stopped_ s1); [done|by apply stop_inv, log_inv].
  - destruct (heartbeat_timer_ s); [|done]. unfold on_heartbeat_timer. set (s1 := set_timers _ _ _ s).
    assert (H1 : inv (s1, others)) by (by_irrelevant H). destruct (stopped_ s1); [done|].
    apply (send_packet_inv MSG_PING 0 [] now) in H1.
    destruct (arm_heartbeat_cases (send_packet env MSG_PING 0 [] now s1)) as [-> | ->]; [done|by_irrelevant H1].
  - destruct H as [Hc Hw]. destruct op as [|[q|]]; [| |done].
    + destruct (take_buffer s) as [s1 r] eqn:Ht. pose proof (take_buffer_core s others s1 r Hc Ht) as Hc1.
      assert (Hw1 : writer_ok s1) by (unfold take_buffer in Ht; destruct (buffer_acquire (pool_ s)); by simplify_eq).
      by destruct r.
    + destruct (bool_decide (q ∈ others)) eqn:Hq; [|done]. apply bool_decide_eq_true in Hq.
      split; [|done]. apply drop_buffer_core. destruct Hc as [H1 H2 H3 H4 H5 H6 H7 H8 H9 H10].
      constructor; try done. cbn [fst snd] in *. eapply partition_perm; [|exact H1].
      by rewrite (remove_first_perm q others Hq) at 1.
Qed.
End Preserve.

(** ** The byte stream of a peer *)

(** The stream is cut as the session asks for it: the transport completes an outstanding
    read once all its bytes are there, and no read of a socket that was closed by a stop.
    A step consumes one read. *)
Fixpoint feed (env : SessionEnv) (handler : Z -> list Z -> bool * list action) (now elapsed : Z)
    (fuel : nat) (stream : list Z) (s : Session) : Session * list Z :=
  match fuel with
  | O => (s, stream)
  | S fuel =>
      let want := match reading s with
                  | NotReading => None
                  | ReadingHeader => Some k_header_bytes
                  | ReadingBody k => Some (Z.to_nat k)
                  end in
      if stopped_ s then (s, stream) else
      match want with
      | None => (s, stream)
      | Some k =>
          if decide (length stream < k)%nat then (s, stream)
          else
            let complete := match reading s with
                            | ReadingBody _ => on_body env handler now elapsed
                            | _ => on_header env handler now elapsed
                            end in
            feed env handler now elapsed fuel (drop k stream) (complete (Some (take k stream)) s)
      end
  end.

(** A message a peer sends and the bytes it sends for it. *)
Definition frame_bytes (x : PacketHeader * list Z) : list Z := header_bytes x.1 ++ x.2.

Section Framing.
Context (env : SessionEnv) (b bs n c0 : Z) (Hbs : 0 < bs) (Hn : 0 < n) (Hmul : bs * n < 2 ^ 64).
Context (Hframe : bs <= 65535 + Z.of_nat k_header_bytes).
Context (handler : Z -> list Z -> bool * list action) (now elapsed : Z).

(** A message within the limits of the session. *)
Definition frame_ok (s : Session) (x : PacketHeader * list Z) : Prop :=
  wf_PacketHeader x.1 /\ ph_length x.1 = zlen x.2 /\ zlen x.2 <= bs
  /\ forall o, options_ s = Some o -> recv_max_payload o = 0 \/ zlen x.2 <= recv_max_payload o.

(** The session waits for a header and the pool can replace its read buffer. *)
Record awaiting (s : Session) (others : list Z) : Prop := {
  aw_inv : session_inv env b bs n c0 (s, others);
  aw_reading : reading s = ReadingHeader;
  aw_buf : is_Some (read_buf_ s);
  aw_free : freeList_ (pool_ s) <> [];
  aw_running : stopped_ s = false;
}.

Lemma renew_read_buf_ok s others :
  session_inv env b bs n c0 (s, others) -> is_Some (read_buf_ s) -> freeList_ (pool_ s) <> [] ->
  is_Some (read_buf_ (renew_read_buf s)) /\ freeList_ (pool_ (renew_read_buf s)) <> [].
Proof.
  intros [Hc _] [old Hold] Hfree. destruct Hc as [Hp _ _ _ _ _ _ _ _ _]. cbn [fst snd] in Hp.
  unfold renew_read_buf, take_buffer, buffer_acquire, Acquire.
  destruct (freeList_ (pool_ s)) as [|q rest] eqn:Hfl; [done|]. cbn. rewrite Hold.
  split; [by eexists|]. set (p' := mkMemoryPool _ _ _ _ _ _).
  assert (Ha : Acquire (pool_ s) = (p', Some q)) by (unfold Acquire; by rewrite Hfl).
  pose proof (partition_acquire b bs n _ _ _ _ Hbs Hn Hp Ha) as (Hwf & H1 & H2 & H3 & Hperm). cbn [fst snd] in *.
  unfold buffer_deleter. rewrite release_block; [done|done| |].
  - unfold is_block. rewrite H1, H2, H3. apply elem_of_blocks; [lia|]. rewrite <- Hperm.
    unfold held. rewrite Hold. set_solver.
  - apply Permutation_length in Hperm. unfold blocks in Hperm. rewrite length_app, length_map, length_seq in Hperm.
    cbn [length] in Hperm. rewrite H2. lia.
Qed.

Lemma do_read_header_awaiting s others :
  session_inv env b bs n c0 (s, others) -> is_Some (read_buf_ s) -> freeList_ (pool_ s) <> [] -> stopped_ s = false ->
  awaiting (do_read_header env s) others /\ dispatched (do_read_header env s) = dispatched s
  /\ options_ (do_read_header env s) = options_ s.
Proof.
  intros Hi Hb Hf Hs. pose proof (do_read_header_inv env b bs n c0 Hbs Hn s others Hi) as Hi'.
  destruct (renew_read_buf_ok s others Hi Hb Hf) as [[q Hq] Hf'].
  assert (Hk : stopped_ (renew_read_buf s) = stopped_ s /\ dispatched (renew_read_buf s) = dispatched s
               /\ options_ (renew_read_buf s) = options_ s).
  { unfold renew_read_buf. by destruct (take_buffer s) as [s1 r] eqn:Ht; unfold take_buffer in Ht;
      destruct (buffer_acquire (pool_ s)); simplify_eq. }
  destruct Hk as (Hk1 & Hk2 & Hk3). unfold do_read_header in *. rewrite Hq in *.
  split; [constructor; try done; try (by eexists); cbn; congruence|by split].
Qed.

(** A handler that handles the message and leaves the connection to others, as those do
    that only submit a job. *)
Definition leaves_alone (x : PacketHeader * list Z) : Prop :=
  exists sts, handler (ph_msg_id x.1) x.2 = (true, map ActStatus sts).

Lemma run_status sts s others :
  session_inv env b bs n c0 (s, others) ->
  let s' := foldl (run_action env now) s (map ActStatus sts) in
  session_inv env b bs n c0 (s', others) /\ read_buf_ s' = read_buf_ s /\ pool_ s' = pool_ s
  /\ stopped_ s' = stopped_ s /\ dispatched s' = dispatched s /\ options_ s' = options_ s.
Proof.
  cbv zeta. revert s. induction sts as [|st sts IH]; intros s Hi; [done|]. cbn [map foldl run_action].
  destruct (IH (set_session_status st s)) as (H1 & H2 & H3 & H4 & H5 & H6);
    [eapply inv_irrelevant; [exact Hi|reflexivity..]|].
  rewrite H2, H3, H4, H5, H6. done.
Qed.

Lemma deliver_awaiting payload s others :
  session_inv env b bs n c0 (s, others) -> is_Some (read_buf_ s) -> freeList_ (pool_ s) <> [] -> stopped_ s = false ->
  leaves_alone (header_ s, payload) ->
  awaiting (deliver env handler now elapsed payload s) others
  /\ dispatched (deliver env handler now elapsed payload s) = dispatched s ++ [(ph_msg_id (header_ s), payload)]
  /\ options_ (deliver env handler now elapsed payload s) = options_ s.
Proof.
  intros Hi Hb Hf Hs [sts Hh]. unfold deliver. cbn [fst snd] in Hh. rewrite Hh.
  set (s1 := log_dispatch _ _ _).
  destruct (run_status sts s1 others) as (H1 & H2 & H3 & H4 & H5 & H6);
    [eapply inv_irrelevant; [exact Hi|reflexivity..]|].
  set (s2 := foldl _ s1 _) in *. set (s3 := log_metrics _ s2).
  assert (Hi3 : session_inv env b bs n c0 (s3, others)) by (eapply inv_irrelevant; [exact H1|reflexivity..]).
  destruct (do_read_header_awaiting s3 others Hi3) as (Ha & -> & ->);
    [cbn; by rewrite H2|cbn; by rewrite H3|cbn; by rewrite H4|].
  cbn. by rewrite H5, H6.
Qed.

Lemma feed_frame x fuel stream s others :
  awaiting s others -> frame_ok s x -> leaves_alone x ->
  exists s' fuel', awaiting s' others /\ (fuel <= fuel')%nat
    /\ dispatched s' = dispatched s ++ [(ph_msg_id x.1, x.2)] /\ options_ s' = options_ s
    /\ feed env handler now elapsed (S (S fuel)) (frame_bytes x ++ stream) s
       = feed env handler now elapsed fuel' stream s'.
Proof.
  intros [Hi Hr Hb Hf Hrun] (Hwf & Hlen & Hsz & Hmax) Hq0. destruct x as [h payload]. cbn [fst snd] in *.
  unfold frame_bytes. cbn [fst snd]. pose proof (length_header_bytes h) as Hhl.
  assert (Htake : take k_header_bytes ((header_bytes h ++ payload) ++ stream) = header_bytes h).
  { rewrite <- app_assoc, <- Hhl. apply take_app_length. }
  assert (Hdrop : drop k_header_bytes ((header_bytes h ++ payload) ++ stream) = payload ++ stream).
  { rewrite <- app_assoc, <- Hhl. apply drop_app_length. }
  set (s1 := arm_read_timeout (set_read h (read_buf_ s) NotReading s)).
  assert (H1 : session_inv env b bs n c0 (s1, others)).
  { apply arm_read_inv. eapply inv_irrelevant; [exact Hi|reflexivity..]. }
  assert (Hs1 : read_buf_ s1 = read_buf_ s /\ pool_ s1 = pool_ s /\ options_ s1 = options_ s
                /\ header_ s1 = h /\ dispatched s1 = dispatched s /\ stopped_ s1 = stopped_ s).
  { unfold s1. by destruct (arm_read_timeout_cases (set_read h (read_buf_ s) NotReading s)) as [-> | ->]. }
  destruct Hs1 as (Eb & Ep & Eo & Eh & Ed & Es).
  assert (Hon : on_header env handler now elapsed (Some (header_bytes h)) s
                = do_read_body env handler now elapsed (ph_length h) s1).
  { unfold on_header. rewrite Hhl, Z.eqb_refl. cbn [negb].
    rewrite <- (app_nil_r (header_bytes h)), decode_header_app by done. cbn [set_read options_].
    destruct (options_ s) as [o|] eqn:Ho; [|done]. rewrite Hlen.
    destruct (Hmax o eq_refl) as [->|Hle]; [done|].
    destruct (0 <? recv_max_payload o); [|done]. by destruct (Z.ltb_spec (recv_max_payload o) (zlen payload)); [lia|]. }
  cbn [feed]. rewrite Hr, Hrun, decide_False by (rewrite !length_app; lia).
  rewrite Htake, Hdrop, Hon. unfold do_read_body. rewrite Hlen.
  destruct payload as [|y payload']; [|set (payload := y :: payload') in *].
  - destruct (deliver_awaiting [] s1 others) as (Ha & Hd & Ho');
      [done|by rewrite Eb|by rewrite Ep|by rewrite Es|by rewrite Eh|].
    eexists _, (S fuel). split; [exact Ha|]. split; [lia|]. rewrite Hd, Ed, Eh, Ho', Eo. done.
  - destruct (Z.eqb_spec (zlen payload) 0); [unfold payload in *; simpl in *; lia|].
    assert (Hblk : blockSize_ (pool_ s1) = bs) by (destruct H1 as [[(_ & ? & _) _ _ _ _ _ _ _ _ _] _]; done).
    rewrite Hblk. destruct (Z.ltb_spec bs (zlen payload)); [lia|].
    destruct (renew_read_buf_ok s1 others H1) as [[q Hq] Hf']; [by rewrite Eb|by rewrite Ep|].
    pose proof (renew_read_buf_inv env b bs n c0 Hbs Hn s1 others H1) as H2.
    assert (Hs2 : header_ (renew_read_buf s1) = h /\ options_ (renew_read_buf s1) = options_ s1
                  /\ dispatched (renew_read_buf s1) = dispatched s1 /\ stopped_ (renew_read_buf s1) = stopped_ s1).
    { unfold renew_read_buf. rewrite <- Eh. by destruct (take_buffer s1) as [s1' r] eqn:Ht; unfold take_buffer in Ht;
        destruct (buffer_acquire (pool_ s1)); simplify_eq. }
    destruct Hs2 as (Eh2 & Eo2 & Ed2 & Es2). rewrite Hq. set (s2 := set_read _ _ (ReadingBody _) _).
    assert (H3 : session_inv env b bs n c0 (s2, others)).
    { eapply inv_irrelevant; [exact H2|try reflexivity..]. cbn. by rewrite Hq. }
    change (reading s2) with (ReadingBody (zlen payload)). cbv beta iota.
    change (stopped_ s2) with (stopped_ (renew_read_buf s1)). rewrite Es2, Es, Hrun.
    rewrite decide_False by (rewrite length_app; lia). rewrite Nat2Z.id, take_app_length, drop_app_length.
    unfold on_body. set (s3 := set_read (header_ s2) (read_buf_ s2) NotReading s2).
    change (header_ s3) with (header_ (renew_read_buf s1)). rewrite Eh2, Hlen, Z.eqb_refl. cbn [negb].
    assert (H4 : session_inv env b bs n c0 (s3, others)) by (eapply inv_irrelevant; [exact H3|reflexivity..]).
    assert (Hs4 : read_buf_ (arm_read_timeout s3) = Some q /\ pool_ (arm_read_timeout s3) = pool_ (renew_read_buf s1)
                  /\ options_ (arm_read_timeout s3) = options_ s1 /\ header_ (arm_read_timeout s3) = h
                  /\ dispatched (arm_read_timeout s3) = dispatched s1 /\ stopped_ (arm_read_timeout s3) = stopped_ s1).
    { rewrite <- Eh2, <- Eo2, <- Ed2, <- Es2. by destruct (arm_read_timeout_cases s3) as [-> | ->]. }
    destruct Hs4 as (Fb & Fp & Fo & Fh & Fd & Fs).
    destruct (deliver_awaiting payload (arm_read_timeout s3) others) as (Ha & Hd & Ho');
      [by apply arm_read_inv|rewrite Fb; by eexists|by rewrite Fp|by rewrite Fs, Es|by rewrite Fh|].
    eexists _, fuel. split; [exact Ha|]. split; [lia|]. rewrite Hd, Fd, Fh, Ed, Ho', Fo, Eo. done.
Qed.

Lemma feed_frames xs fuel s others :
  awaiting s others -> Forall (frame_ok s) xs -> Forall leaves_alone xs -> (2 * length xs <= fuel)%nat ->
  exists s', feed env handler now elapsed fuel (concat (map frame_bytes xs)) s = (s', [])
    /\ awaiting s' others /\ dispatched s' = dispatched s ++ map (fun x => (ph_msg_id x.1, x.2)) xs.
Proof.
  revert fuel s. induction xs as [|x xs IH]; intros fuel s Ha Hok Hal Hf.
  - exists s. rewrite app_nil_r. split_and!; [|done..]. destruct fuel; [done|]. cbn.
    by rewrite (aw_reading _ _ Ha), (aw_running _ _ Ha).
  - apply Forall_cons in Hok as [Hx Hxs]. apply Forall_cons in Hal as [Hax Haxs]. cbn [length] in Hf. destruct fuel as [|[|fuel]]; [lia..|].
    destruct (feed_frame x fuel (concat (map frame_bytes xs)) s others Ha Hx Hax) as (s1 & fuel' & Ha1 & Hle & Hd & Ho & Heq).
    destruct (IH fuel' s1 Ha1) as (s' & Hfeed & Ha' & Hd'); [|done|lia|].
    { eapply Forall_impl; [exact Hxs|]. intros y (H1 & H2 & H3 & H4). split_and!; try done. by rewrite Ho. }
    exists s'. cbn [map concat]. rewrite Heq, Hfeed, Hd', Hd, <- app_assoc. done.
Qed.
End Framing.

(** ** Any handler *)

Section AnyHandler.
Context (env : SessionEnv) (handler : Z -> list Z -> bool * list action) (now elapsed : Z).

(** The parts of a session that its own sends, stops and buffers leave alone. *)
Definition keeps (s s' : Session) : Prop :=
  dispatched s' = dispatched s /\ options_ s' = options_ s /\ blockSize_ (pool_ s') = blockSize_ (pool_ s).

Lemma keeps_trans s1 s2 s3 : keeps s1 s2 -> keeps s2 s3 -> keeps s1 s3.
Proof. unfold keeps. intros (-> & -> & ->) (-> & -> & ->). done. Qed.

Lemma keeps_stop s : keeps s (stop env s).
Proof. unfold stop. by destruct (stopped_ s). Qed.

Lemma keeps_take s s' r : take_buffer s = (s', r) -> keeps s s'.
Proof.
  unfold take_buffer, buffer_acquire, Acquire. destruct (freeList_ (pool_ s)); by intros [= <- _].
Qed.

Lemma keeps_drop q s : keeps s (drop_buffer q s).
Proof.
  unfold drop_buffer, buffer_deleter. destruct q as [q|]; [|done]. unfold Release. by repeat case_match.
Qed.

Lemma keeps_send msg_id flags payload s : keeps s (send_packet env msg_id flags payload now s).
Proof.
  unfold send_packet, make_packet. destruct (_ <? _); [done|].
  destruct (take_buffer (next_seq s)) as [s1 r] eqn:Ht. apply keeps_take in Ht.
  assert (E : keeps s s1) by done. clear Ht.
  destruct r as [ptr|]; [|done]. destruct (_ ≫= _) as [bytes|]; [|done].
  unfold async_send_buffer. destruct (stopped_ s1); [eapply keeps_trans; [exact E|apply keeps_drop]|].
  destruct (match options_ s1 with Some o => _ | None => _ end).
  - eapply keeps_trans; [exact E|]. eapply keeps_trans; [|apply keeps_drop].
    eapply keeps_trans; [|apply keeps_stop]. done.
  - eapply keeps_trans; [exact E|]. set (x := set_send _ _ _ _ _ s1). apply (keeps_trans _ x); [done|].
    destruct (send_queue_ s1); [|done]. unfold do_write. destruct (send_queue_ x); [done|].
    by destruct (arm_write_timeout_cases x) as [-> | ->].
Qed.

Lemma keeps_actions actions s : keeps s (foldl (run_action env now) s actions).
Proof.
  revert s. induction actions as [|a actions IH]; intros s; [done|]. cbn [foldl].
  eapply keeps_trans; [|apply IH]. destruct a; cbn [run_action]; [apply keeps_send|apply keeps_send|done|apply keeps_stop].
Qed.

Lemma keeps_renew s : keeps s (renew_read_buf s).
Proof.
  unfold renew_read_buf. destruct (take_buffer s) as [s1 r] eqn:Ht. apply keeps_take in Ht.
  eapply keeps_trans; [exact Ht|]. exact (keeps_drop (read_buf_ s1) s1).
Qed.

Lemma do_read_header_any s :
  keeps s (do_read_header env s)
  /\ (stopped_ (do_read_header env s) = true \/ reading (do_read_header env s) = ReadingHeader).
Proof.
  unfold do_read_header. pose proof (keeps_renew s) as Hk. destruct (read_buf_ (renew_read_buf s)).
  - split; [exact Hk|by right].
  - split; [|left; apply session_stop_stopped]. eapply keeps_trans; [exact Hk|].
    exact (keeps_stop (log_metrics record_packet_error (renew_read_buf s))).
Qed.

Lemma deliver_any payload s :
  let s' := deliver env handler now elapsed payload s in
  keeps (log_dispatch (ph_msg_id (header_ s)) payload s) s'
  /\ (stopped_ s' = true \/ reading s' = ReadingHeader).
Proof.
  cbv zeta. unfold deliver. destruct (handler _ _) as [handled actions].
  set (s1 := log_dispatch _ _ (log_metrics _ s)). set (s2 := foldl _ s1 actions). set (s3 := log_metrics _ s2).
  set (s4 := if handled then s3 else _).
  assert (H4 : keeps s1 s4).
  { apply (keeps_trans _ s3); [exact (keeps_actions actions s1)|]. unfold s4. destruct handled; [done|]. apply keeps_send. }
  destruct (do_read_header_any s4) as [H5 H6]. split; [|done]. by apply (keeps_trans _ s4).
Qed.

Lemma session_feed_stopped fuel stream s : stopped_ s = true -> feed env handler now elapsed fuel stream s = (s, stream).
Proof. intros Hs. destruct fuel; [done|]. cbn. by rewrite Hs. Qed.

(** One message: it is dispatched, or the session has stopped. *)
Lemma feed_frame_any x fuel stream s :
  stopped_ s = false -> reading s = ReadingHeader -> frame_ok (blockSize_ (pool_ s)) s x ->
  (exists s' fuel', (fuel <= fuel')%nat /\ keeps (log_dispatch (ph_msg_id x.1) x.2 s) s'
     /\ (stopped_ s' = true \/ reading s' = ReadingHeader)
     /\ feed env handler now elapsed (S (S fuel)) (frame_bytes x ++ stream) s
        = feed env handler now elapsed fuel' stream s')
  \/ exists s' rest, keeps s s' /\ stopped_ s' = true
       /\ feed env handler now elapsed (S (S fuel)) (frame_bytes x ++ stream) s = (s', rest).
Proof.
  intros Hrun Hr (Hwf & Hlen & Hsz & Hmax). destruct x as [h payload]. cbn [fst snd] in *.
  unfold frame_bytes. cbn [fst snd]. pose proof (length_header_bytes h) as Hhl.
  rewrite <- app_assoc. set (s1 := arm_read_timeout (set_read h (read_buf_ s) NotReading s)).
  assert (Hs1 : keeps s s1 /\ header_ s1 = h /\ stopped_ s1 = false).
  { rewrite <- Hrun. unfold s1. by destruct (arm_read_timeout_cases (set_read h (read_buf_ s) NotReading s)) as [-> | ->]. }
  destruct Hs1 as (Hk1 & Eh & Es).
  assert (Hon : on_header env handler now elapsed (Some (header_bytes h)) s
                = do_read_body env handler now elapsed (ph_length h) s1).
  { unfold on_header. rewrite Hhl, Z.eqb_refl. cbn [negb].
    rewrite <- (app_nil_r (header_bytes h)), decode_header_app by done. cbn [set_read options_].
    destruct (options_ s) as [o|] eqn:Ho; [|done]. rewrite Hlen.
    destruct (Hmax o eq_refl) as [->|Hle]; [done|].
    destruct (0 <? recv_max_payload o); [|done]. by destruct (Z.ltb_spec (recv_max_payload o) (zlen payload)); [lia|]. }
  cbn [feed]. rewrite Hr, Hrun, decide_False by (rewrite !length_app; lia).
  rewrite (take_app_length' _ _ k_header_bytes) by done. rewrite (drop_app_length' _ _ k_header_bytes) by done.
  rewrite Hon. unfold do_read_body. rewrite Hlen.
  assert (Hlog : forall s2, keeps s s2 -> keeps (log_dispatch (ph_msg_id h) payload s) (log_dispatch (ph_msg_id h) payload s2)).
  { intros s2 (H1 & H2 & H3). split_and!; cbn; [by rewrite H1|done|done]. }
  destruct (Z.eqb_spec (zlen payload) 0) as [Hz|Hz].
  { destruct payload; [|cbn in Hz; lia]. destruct (deliver_any [] s1) as [Hk Hd]. left.
    eexists _, (S fuel). split_and!; [lia| |exact Hd|done]. rewrite Eh in Hk. eapply keeps_trans; [by apply Hlog|exact Hk]. }
  pose proof Hk1 as (_ & _ & Hbs). rewrite Hbs. destruct (Z.ltb_spec (blockSize_ (pool_ s)) (zlen payload)); [lia|].
  pose proof (keeps_renew s1) as Hk2. set (s2 := renew_read_buf s1) in *.
  assert (Hs2 : header_ s2 = h /\ stopped_ s2 = false).
  { rewrite <- Eh, <- Es. unfold s2, renew_read_buf, take_buffer. by destruct (buffer_acquire (pool_ s1)). }
  destruct Hs2 as [Eh2 Es2]. destruct (read_buf_ s2) as [q|] eqn:Eq.
  2: { right. set (s3 := stop env _). assert (Hst : stopped_ s3 = true) by apply session_stop_stopped.
       exists s3, (payload ++ stream). rewrite Hst. split_and!; [|done|done].
       eapply keeps_trans; [exact Hk1|]. eapply keeps_trans; [exact Hk2|].
       exact (keeps_stop (log_metrics record_packet_error s2)). }
  left. cbn [feed set_read reading stopped_]. rewrite Es2.
  rewrite Nat2Z.id, decide_False by (rewrite length_app; lia). rewrite take_app_length, drop_app_length.
  unfold on_body. cbn [set_read header_ read_buf_ reading]. rewrite Eh2, Hlen, Z.eqb_refl. cbn [negb].
  set (s3 := arm_read_timeout _).
  assert (Hs3 : keeps s2 s3 /\ header_ s3 = h).
  { unfold s3. match goal with |- context [arm_read_timeout ?y] => destruct (arm_read_timeout_cases y) as [-> | ->] end;
      rewrite <- Eh2; done. }
  destruct Hs3 as [Hk3 Eh3]. destruct (deliver_any payload s3) as [Hk Hd]. rewrite Eh3 in Hk.
  eexists _, fuel. split_and!; [lia| |exact Hd|done].
  eapply keeps_trans; [|exact Hk]. apply Hlog. eapply keeps_trans; [exact Hk1|]. eapply keeps_trans; [exact Hk2|exact Hk3].
Qed.

(** What is dispatched is a prefix of what was sent, and all of it unless the session has
    stopped. *)
Lemma feed_frames_any xs fuel s :
  stopped_ s = true \/ reading s = ReadingHeader ->
  Forall (frame_ok (blockSize_ (pool_ s)) s) xs -> (2 * length xs <= fuel)%nat ->
  exists s' rest k, feed env handler now elapsed fuel (concat (map frame_bytes xs)) s = (s', rest)
    /\ dispatched s' = dispatched s ++ map (fun x => (ph_msg_id x.1, x.2)) (take k xs)
    /\ (stopped_ s' = true \/ (k = length xs /\ rest = [] /\ reading s' = ReadingHeader)).
Proof.
  revert fuel s. induction xs as [|x xs IH]; intros fuel s Hr Hok Hf.
  - cbn [map concat]. destruct (stopped_ s) eqn:Es.
    { exists s, [], 0%nat. rewrite session_feed_stopped by done. rewrite app_nil_r. split_and!; [done|done|by left]. }
    destruct Hr as [|Hr]; [done|]. exists s, [], 0%nat. rewrite app_nil_r. split_and!; [|done|by right].
    destruct fuel; [done|]. cbn. by rewrite Es, Hr.
  - destruct (stopped_ s) eqn:Es.
    { eexists s, _, 0%nat. rewrite session_feed_stopped by done. rewrite app_nil_r. split_and!; [done|done|by left]. }
    destruct Hr as [|Hr]; [done|]. apply Forall_cons in Hok as [Hx Hxs]. cbn [length] in Hf.
    destruct fuel as [|[|fuel]]; [lia..|]. cbn [map concat].
    destruct (feed_frame_any x fuel (concat (map frame_bytes xs)) s Es Hr Hx)
      as [(s1 & fuel' & Hle & (Hd1 & Ho1 & Hb1) & Hc1 & ->)|(s1 & rest & (Hd1 & _) & Hs1 & ->)].
    + destruct (IH fuel' s1 Hc1) as (s' & rest & k & Hfd & Hd & Hc); [|lia|].
      { cbn in Ho1, Hb1. rewrite Hb1. eapply Forall_impl; [exact Hxs|]. intros y (H1 & H2 & H3 & H4).
        split_and!; try done. by rewrite Ho1. }
      exists s', rest, (S k). split_and!; [done| |].
      * rewrite Hd, Hd1. cbn. by rewrite <- app_assoc.
      * destruct Hc as [Hc|(-> & Hc)]; [by left|by right].
    + exists s1, rest, 0%nat. split_and!; [done| |by left]. cbn. by rewrite Hd1, app_nil_r.
Qed.
End AnyHandler.

(** ** Properties *)

Lemma new_session_inv env b bs n c0 options :
  0 < bs -> 0 < n -> bs * n < 2 ^ 64 -> (forall o, options = Some o -> fits 64 (send_queue_max o)) ->
  session_inv env b bs n c0 (new_Session options (new_MemoryPool b bs n) c0, []).
Proof.
  intros Hbs Hn Hmul Ho. split; [|done]. constructor; try done; cbn [fst snd].
  - by apply partition_new.
  - intros o Hopt Hm. specialize (Ho o Hopt). change (queued_bytes_ _) with 0. widths. lia.
Qed.

(** C23. Safety of a session under every sequence of calls, completions, timer expiries and
    uses of the pool by others: its buffers are pairwise distinct and shared with nobody, and with
    the free ones and those of others they are all blocks of the pool; the queued bytes
    are exactly those of the queue and never exceed [send_queue_max]; every packet
    accepted is written once, in order, and is a frame whose length field fits its
    payload; a write is outstanding exactly while packets wait; the connection count
    and the close callback are touched exactly once by a stop. *)
Theorem session_safe env handler b bs n c0 options es
    (st := session_run env handler es (new_Session options (new_MemoryPool b bs n) c0, [])) :
  0 < bs -> 0 < n -> bs * n < 2 ^ 64 -> bs <= 65535 + Z.of_nat k_header_bytes ->
  (forall o, options = Some o -> fits 64 (send_queue_max o)) ->
  NoDup (freeList_ (pool_ st.1) ++ held st.1 ++ st.2)
  /\ freeList_ (pool_ st.1) ++ held st.1 ++ st.2 ≡ₚ blocks b bs n
  /\ queued_bytes_ st.1 = total_bytes (send_queue_ st.1)
  /\ (forall o, options_ st.1 = Some o -> send_queue_max o <> 0 -> queued_bytes_ st.1 <= send_queue_max o)
  /\ accepted st.1 = sent st.1 ++ map snd (send_queue_ st.1)
  /\ Forall is_frame (accepted st.1)
  /\ writer_ok st.1
  /\ connection_count st.1 = u64 (c0 + (if stopped_ st.1 then 0 else 1))
  /\ on_close_calls st.1 = Z.b2z (stopped_ st.1 && on_close_set env).
Proof.
  intros Hbs Hn Hmul Hfr Ho.
  assert (Hi : session_inv env b bs n c0 st).
  { subst st. pose proof (new_session_inv env b bs n c0 options Hbs Hn Hmul Ho) as H0. revert H0.
    generalize (new_Session options (new_MemoryPool b bs n) c0, @nil Z). unfold session_run.
    induction es as [|e es IH]; intros st H; [done|]. simpl. apply IH. by apply session_step_inv. }
  destruct Hi as [[(_ & _ & _ & _ & H1) H2 H3 H4 H5 H6 H7 H8 _ _] Hw]. cbn [fst snd] in H1.
  split_and!; try done. rewrite H1. by apply NoDup_blocks.
Qed.

Definition example_env : SessionEnv := mkSessionEnv false false true false.
Definition example_handler (msg_id : Z) (payload : list Z) : bool * list action := (true, []).
Definition example_session : Session :=
  new_Session (Some default_SessionOptions) (new_MemoryPool 4096 2048 8) 0.

Lemma example_options_fit o : Some default_SessionOptions = Some o -> fits 64 (send_queue_max o).
Proof. intros [= <-]. by vm_compute. Qed.

Lemma session_safe_witness :
  let es := [EvStart 1000; EvSend 0x0100 [1; 2; 3] 0 1001; EvWritten true; EvReadTimer; EvStop] in
  let st := session_run example_env example_handler es (example_session, []) in
  stopped_ st.1 = true /\ on_close_calls st.1 = Z.b2z (stopped_ st.1 && on_close_set example_env).
Proof.
  intros es st. split; [by vm_compute|].
  assert (H := session_safe example_env example_handler 4096 2048 8 0 (Some default_SessionOptions) es
    eq_refl eq_refl eq_refl ltac:(by vm_compute) example_options_fit).
  exact (proj2 (proj2 (proj2 (proj2 (proj2 (proj2 (proj2 (proj2 H)))))))).
Defined.

(** C28. Framing: a session that waits for a header receives the bytes of any messages within
    its limits (a payload no larger than a block of the pool and [recv_max_payload]), run
    together in one stream.  Whatever its handlers do - send, answer with an error, stop the
    session - the messages handed to the dispatcher are, in order and with their payloads,
    the first ones of the stream; they are all of them, with no byte left over, unless the
    session has stopped.  And it does not stop, if its invariant holds, the pool has a free
    block beside the one read into, and the handlers of these messages accept them without
    sending or stopping. *)
Theorem session_framing env handler now elapsed s (xs : list (PacketHeader * list Z)) :
  reading s = ReadingHeader -> Forall (frame_ok (blockSize_ (pool_ s)) s) xs ->
  exists s' rest k, feed env handler now elapsed (2 * length xs) (concat (map frame_bytes xs)) s = (s', rest)
    /\ dispatched s' = dispatched s ++ map (fun x => (ph_msg_id x.1, x.2)) (take k xs)
    /\ (stopped_ s' = true \/ (k = length xs /\ rest = [] /\ reading s' = ReadingHeader))
    /\ forall b bs n c0 others, 0 < bs -> 0 < n -> bs * n < 2 ^ 64 -> bs <= 65535 + Z.of_nat k_header_bytes ->
         awaiting env b bs n c0 s others -> Forall (leaves_alone handler) xs ->
         stopped_ s' = false /\ awaiting env b bs n c0 s' others.
Proof.
  intros Hr Hok. destruct (feed_frames_any env handler now elapsed xs (2 * length xs) s) as (s' & rest & k & Hf & Hd & Hc);
    [by right|done|lia|].
  exists s', rest, k. split_and!; [done..|]. intros b bs n c0 others Hbs Hn Hmul Hfr Ha Hal.
  assert (Hblk : blockSize_ (pool_ s) = bs) by (destruct Ha as [[[(_ & ? & _) _ _ _ _ _ _ _ _ _] _] _ _ _ _]; done).
  rewrite Hblk in Hok.
  destruct (feed_frames env b bs n c0 Hbs Hn Hmul Hfr handler now elapsed xs (2 * length xs) s others Ha Hok Hal)
    as (s2 & Hf2 & Ha2 & _); [lia|]. rewrite Hf in Hf2. injection Hf2 as -> _. split; [apply Ha2|done].
Qed.

Lemma example_awaiting : awaiting example_env 4096 2048 8 0 (session_start example_env 1000 example_session) [].
Proof.
  constructor; [|by vm_compute|vm_compute; by eexists|by vm_compute|by vm_compute].
  assert (H := new_session_inv example_env 4096 2048 8 0 _ eq_refl eq_refl eq_refl example_options_fit).
  exact (session_step_inv example_env 4096 2048 8 0 eq_refl eq_refl eq_refl ltac:(by vm_compute)
           example_handler _ (EvStart 1000) H).
Qed.

Definition example_frames : list (PacketHeader * list Z) :=
  [(mkPacketHeader 2 0x0100 0 1 7, [65; 66]); (mkPacketHeader 0 0x0002 0 2 8, [])].

Lemma example_frames_ok s : options_ s = Some default_SessionOptions -> Forall (frame_ok 2048 s) example_frames.
Proof.
  intros Ho. apply Forall_cons_2; [|apply Forall_cons_2; [|constructor]]; unfold frame_ok, wf_PacketHeader;
    rewrite Ho; cbn [fst snd ph_length ph_msg_id ph_flags ph_seq ph_utc_ts_ms32 length];
    (split_and!; [widths; lia..| |]); try (cbn; lia); intros o [= <-]; right; cbn; lia.
Qed.

Lemma session_framing_witness :
  exists s' rest, feed example_env example_handler 1001 5 4 (concat (map frame_bytes example_frames))
               (session_start example_env 1000 example_session) = (s', rest) /\ rest = []
    /\ dispatched s' = dispatched (session_start example_env 1000 example_session)
                        ++ [(0x0100, [65; 66]); (0x0002, [])].
Proof.
  destruct (session_framing example_env example_handler 1001 5 (session_start example_env 1000 example_session)
    example_frames ltac:(by vm_compute)) as (s' & rest & k & Hf & Hd & Hc & Ha).
  - exact (example_frames_ok (session_start example_env 1000 example_session) ltac:(by vm_compute)).
  - destruct (Ha 4096 2048 8 0 [] eq_refl eq_refl eq_refl ltac:(by vm_compute) example_awaiting) as [Hs _].
    { repeat constructor; by exists []. }
    destruct Hc as [Hc|(-> & -> & _)]; [congruence|]. exists s', []. split_and!; [exact Hf|done|exact Hd].
Defined.

(** Sending leaves the message log and the outstanding read alone. *)
Lemma send_packet_quiet env msg_id flags payload now s :
  dispatched (send_packet env msg_id flags payload now s) = dispatched s
  /\ reading (send_packet env msg_id flags payload now s) = reading s.
Proof.
  assert (Hstop : forall x, dispatched (stop env x) = dispatched x /\ reading (stop env x) = reading x).
  { intros x. unfold stop. by destruct (stopped_ x). }
  assert (Hwrite : forall x, dispatched (do_write x) = dispatched x /\ reading (do_write x) = reading x).
  { intros x. unfold do_write. destruct (send_queue_ x); [done|].
    by destruct (arm_write_timeout_cases x) as [-> | ->]. }
  unfold send_packet, make_packet. destruct (_ <? _); [done|].
  destruct (take_buffer (next_seq s)) as [s1 r] eqn:Ht.
  assert (E : dispatched s1 = dispatched s /\ reading s1 = reading s).
  { unfold take_buffer in Ht. destruct (buffer_acquire _). by simplify_eq. }
  destruct r as [ptr|]; [|done]. destruct (_ ≫= _) as [bytes|]; [|done].
  unfold async_send_buffer. destruct (stopped_ s1); [exact E|].
  destruct (match options_ s1 with Some o => _ | None => _ end).
  - destruct (Hstop (log_metrics record_send_queue_drop s1)) as [H1 H2]. destruct E as [<- <-]. done.
  - set (x := set_send _ _ _ _ _ s1). destruct (Hwrite x) as [H1 H2].
    destruct E as [<- <-]. by destruct (send_queue_ s1).
Qed.

(** A header that announces a payload above [recv_max_payload] ends the session without
    anything being dispatched or read further. *)
Theorem session_rejects_oversize env handler now elapsed h o s :
  wf_PacketHeader h -> options_ s = Some o -> 0 < recv_max_payload o < ph_length h ->
  let s' := on_header env handler now elapsed (Some (header_bytes h)) s in
  stopped_ s' = true /\ dispatched s' = dispatched s /\ reading s' = NotReading.
Proof.
  intros Hwf Ho Hlim. unfold on_header. rewrite length_header_bytes, Z.eqb_refl. cbn [negb].
  rewrite <- (app_nil_r (header_bytes h)), decode_header_app by done. cbn [set_read options_]. rewrite Ho.
  rewrite (proj2 (Z.ltb_lt 0 (recv_max_payload o))), (proj2 (Z.ltb_lt (recv_max_payload o) (ph_length h))) by lia.
  cbn [andb]. cbv zeta. split; [apply session_stop_stopped|]. unfold send_error.
  match goal with |- context [send_packet env ?m ?f ?p ?t ?x] =>
    destruct (send_packet_quiet env m f p t x) as [Hd Hr]; generalize dependent (send_packet env m f p t x) end.
  intros x Hd Hr. unfold stop. by destruct (stopped_ x).
Qed.

Lemma session_rejects_oversize_witness :
  stopped_ (on_header example_env example_handler 1001 5
              (Some (header_bytes (mkPacketHeader 40000 0x0100 0 1 7)))
              (session_start example_env 1000 example_session)) = true.
Proof.
  refine (proj1 (session_rejects_oversize example_env example_handler 1001 5 (mkPacketHeader 40000 0x0100 0 1 7)
    default_SessionOptions (session_start example_env 1000 example_session) _ _ _)); [|by vm_compute|cbn; lia].
  unfold wf_PacketHeader. cbn. widths. lia.
Defined.
