(* ===== verification/Acceptor.v ===== *)
(** The acceptor of a server, [core/net/acceptor.hpp] and [acceptor.cpp]: opening the
    socket, the loop of accepts with its retries, and the limit on connections.

    The operating system is an event source: an accept or a wait that is under way ends with
    a result, and ends as aborted only after the socket was closed or the timer cancelled.
    The count of connections is raised by the constructor of a session and lowered when it
    stops ([Session.v]). *)

From S2P Require Import Prelude RuntimeMetrics.

Record Acceptor := mkAcceptor {
  running_ : bool;
  is_open : bool;
  listening : bool;
  accepting : bool;
  retrying : bool;
  connection_count : Z;
  max_connections : Z;
}.

(** The constructor: which of [open], [set_option], [bind] and [listen] succeed. *)
Definition make_acceptor (opened option_set bound listens : bool) (max : Z) : Acceptor :=
  mkAcceptor false opened (opened && option_set && bound && listens) false false 0 max.

Definition set_run (running opened acc retry : bool) (a : Acceptor) : Acceptor :=
  mkAcceptor running opened (listening a && opened) acc retry (connection_count a) (max_connections a).
Definition set_count (n : Z) (a : Acceptor) : Acceptor :=
  mkAcceptor (running_ a) (is_open a) (listening a) (accepting a) (retrying a) n (max_connections a).

Definition do_accept (a : Acceptor) : Acceptor :=
  if running_ a then set_run true (is_open a) true (retrying a) a else a.

Definition start (a : Acceptor) : Acceptor :=
  if running_ a then a
  else if negb (is_open a) then a
  else do_accept (set_run true (is_open a) (accepting a) (retrying a) a).

Definition stop (a : Acceptor) : Acceptor :=
  if negb (running_ a) then a else set_run false false (accepting a) (retrying a) a.

Definition schedule_accept_retry (a : Acceptor) : Acceptor :=
  if negb (running_ a) then a else set_run true (is_open a) (accepting a) true a.

(** How the creation of a session goes: its constructor throws, something after it throws,
    or it is started.  What is thrown is a [std::exception], as the code under it throws no
    other. *)
Inductive creation := ConstructorThrows | LaterThrows | Started.

Inductive accept_result := AcceptError | AcceptAborted | Accepted (c : creation).

Inductive accept_event := ConnectionClosed | Counted (m : list instr) | SessionStarted.

Definition full (a : Acceptor) : bool := (0 <? max_connections a) && (max_connections a <=? connection_count a).

(** The handler of [async_accept]. *)
Definition on_accept (r : accept_result) (a : Acceptor) : Acceptor * list accept_event :=
  let a := set_run (running_ a) (is_open a) false (retrying a) a in
  match r with
  | AcceptAborted => (a, [])
  | AcceptError => (if running_ a then schedule_accept_retry a else a, [])
  | Accepted c =>
      if full a then (do_accept a, [ConnectionClosed])
      else
        let a' := match c with ConstructorThrows => a | _ => set_count (connection_count a + 1) a end in
        (do_accept a', Counted record_accept :: match c with Started => [SessionStarted] | _ => [] end)
  end.

(** How the wait for the next try ends. *)
Inductive timer_result := TimerExpired | TimerAborted | TimerFailed.

(** The handler of the timer; a failure is logged. *)
Definition on_retry (ec : timer_result) (a : Acceptor) : Acceptor :=
  let a := set_run (running_ a) (is_open a) (accepting a) false a in
  match ec with
  | TimerAborted => a
  | TimerFailed => a
  | TimerExpired => if negb (running_ a) then a else do_accept a
  end.

(** ** Runs *)

(** The acceptor with the number of sessions that live and of those that were dropped
    after they had been counted. *)
Record AccRun := mkAccRun { acc : Acceptor; live : Z; leaked : Z }.

(** A wait of [asio::steady_timer] ends without an error or, when it is cancelled, with
    [operation_aborted]; [TimerFailed] does not occur. *)
Inductive acc_step : AccRun -> AccRun -> Prop :=
  | acc_start a n k : acc_step (mkAccRun a n k) (mkAccRun (start a) n k)
  | acc_stop a n k : acc_step (mkAccRun a n k) (mkAccRun (stop a) n k)
  | acc_error a n k : accepting a = true -> acc_step (mkAccRun a n k) (mkAccRun (on_accept AcceptError a).1 n k)
  | acc_aborted a n k :
      accepting a = true -> is_open a = false -> acc_step (mkAccRun a n k) (mkAccRun (on_accept AcceptAborted a).1 n k)
  | acc_accepted a n k c :
      accepting a = true ->
      acc_step (mkAccRun a n k)
        (mkAccRun (on_accept (Accepted c) a).1
           (if full a then n else match c with Started => n + 1 | _ => n end)
           (if full a then k else match c with LaterThrows => k + 1 | _ => k end))
  | acc_retry a n k : retrying a = true -> acc_step (mkAccRun a n k) (mkAccRun (on_retry TimerExpired a) n k)
  | acc_cancelled a n k :
      retrying a = true -> running_ a = false -> acc_step (mkAccRun a n k) (mkAccRun (on_retry TimerAborted a) n k)
  | acc_session_stops a n k :
      0 < n -> acc_step (mkAccRun a n k) (mkAccRun (set_count (connection_count a - 1) a) (n - 1) k).

Record acc_inv (st : AccRun) : Prop := {
  one_operation : accepting (acc st) && retrying (acc st) = false;
  loop_alive : running_ (acc st) = true -> is_open (acc st) = true /\ accepting (acc st) || retrying (acc st) = true;
  loop_idle : running_ (acc st) = false -> is_open (acc st) = true -> accepting (acc st) || retrying (acc st) = false;
  counted : connection_count (acc st) = live st + leaked st;
  counts_nonneg : 0 <= live st /\ 0 <= leaked st;
  limit_kept : 0 < max_connections (acc st) -> connection_count (acc st) <= max_connections (acc st);
}.

(** Case analysis on the flags: what is left is decided or linear. *)
Ltac use_flags :=
  repeat match goal with
         | H : ?x = ?x -> _ |- _ => specialize (H eq_refl)
         | H : _ /\ _ |- _ => destruct H
         end.
Ltac by_flags :=
  repeat match goal with b : bool |- _ => destruct b end; cbn in *; use_flags; try discriminate;
  constructor; cbn in *; intros; split_and?; solve [done | auto | lia].

Lemma acc_step_inv st st' : acc_step st st' -> acc_inv st -> acc_inv st'.
Proof.
  destruct 1 as [a n k|a n k|a n k Hp|a n k Hp Ho|a n k c Hp|a n k Hp|a n k Hp Hr|a n k Hn];
    intros [H1 H2 H3 H4 H5 H6]; destruct a as [run op lis ac re count mx]; cbn in *.
  1-4,6-7: unfold start, stop, on_accept, on_retry, schedule_accept_retry, do_accept, set_run; cbn; by_flags.
  - unfold on_accept, full, do_accept, set_run, set_count; cbn.
    destruct (Z.ltb_spec 0 mx), (Z.leb_spec mx count); destruct c; by_flags.
  - constructor; cbn; [done|done|done|lia|lia|]. intros Hm. specialize (H6 Hm). lia.
Qed.

Abbreviation acc_reachable a := (rtc acc_step (mkAccRun a 0 0)).

(** C33. While the acceptor runs, exactly one operation of its loop is under way, an accept or
    the wait before the next one, so that the loop neither ends nor doubles; the number of
    connections it counts never exceeds the limit, and is the number of sessions that live
    plus those dropped by an exception after they were counted. *)
Theorem accept_loop_alive opened option_set bound listens max st :
  0 <= max -> acc_reachable (make_acceptor opened option_set bound listens max) st ->
  (running_ (acc st) = true -> xorb (accepting (acc st)) (retrying (acc st)) = true)
  /\ (accepting (acc st) && retrying (acc st) = false)
  /\ connection_count (acc st) = live st + leaked st
  /\ (0 < max -> live st + leaked st <= max).
Proof.
  intros Hmax Hr. set (P st := acc_inv st /\ max_connections (acc st) = max).
  assert (P st) as [[H1 H2 H3 H4 H5 H6] Hm].
  { apply (rtc_preserved P Hr).
    - intros s1 s2 [Hi Hm] Hs. split; [by eapply acc_step_inv|]. rewrite <- Hm. destruct Hs; destruct a; cbn;
        unfold start, stop, on_accept, full, on_retry, schedule_accept_retry, do_accept, set_run, set_count; cbn;
        repeat case_match; done.
    - split; [|done]. constructor; cbn; intros; split_and?; solve [done | lia]. }
  rewrite Hm in H6. split_and!; [|done|done|lia]. intros Hrun. destruct (H2 Hrun) as [_ Ho].
  by destruct (accepting (acc st)), (retrying (acc st)).
Qed.

Lemma accept_loop_alive_witness :
  exists st, acc_reachable (make_acceptor true true true true 1) st /\ connection_count (acc st) = live st + leaked st
    /\ live st = 1 /\ xorb (accepting (acc st)) (retrying (acc st)) = true.
Proof.
  assert (acc_reachable (make_acceptor true true true true 1)
            (mkAccRun (mkAcceptor true true true true false 1 1) 1 0)) as Hr.
  { eapply rtc_l; [apply acc_start|]. eapply rtc_l; [by apply (acc_accepted _ 0 0 Started)|].
    eapply rtc_l; [by apply (acc_accepted _ 1 0 Started)|]. apply rtc_refl. }
  destruct (accept_loop_alive true true true true 1 _ ltac:(lia) Hr) as (H1 & _ & H2 & _).
  eexists. split; [exact Hr|]. split; [exact H2|]. split; [reflexivity|exact (H1 eq_refl)].
Defined.

(** A socket whose [bind] or [listen] failed is still open, so [start] does not notice: the
    acceptor runs and retries for ever, although no connection can arrive. *)
Lemma bind_failure_unnoticed :
  let a := start (make_acceptor true true false true 10) in
  running_ a = true /\ listening a = false
  /\ (on_accept AcceptError a).1 = mkAcceptor true true false false true 0 10
  /\ on_retry TimerExpired (on_accept AcceptError a).1 = a.
Proof. done. Qed.

(** A session that throws after its constructor stays counted: enough of them close the
    server to everybody. *)
Lemma dropped_sessions_stay_counted :
  let a := start (make_acceptor true true true true 1) in
  let a := (on_accept (Accepted LaterThrows) a).1 in
  connection_count a = 1 /\ (on_accept (Accepted Started) a).2 = [ConnectionClosed].
Proof. done. Qed.
