(* ===== verification/UdpGuard.v ===== *)
(** Per-endpoint protection and per-session quality tracking of the gateway's UDP
    path: [gateway/udp_bind_abuse_guard.hpp] and [gateway/udp_sequenced_metrics.hpp].

    The guard keeps, for every endpoint that ever failed to bind, a failure window
    and a block; it is used under the lock of the gateway.  The tracker classifies
    the sequence numbers of one bound session. *)

From S2P Require Import Prelude.
From Stdlib Require Import Sorted.

(** ** UdpBindAbuseGuard *)

Record BlockState := mkBlockState { blocked : bool; retry_after_ms : Z }.

Record GuardEntry := mkGuardEntry {
  window_started_ms : Z;
  failures_in_window : Z;
  blocked_until_ms : Z;
}.

Definition default_GuardEntry : GuardEntry := mkGuardEntry 0 0 0.

Record UdpBindAbuseGuard := mkUdpBindAbuseGuard {
  fail_window_ms_ : Z;
  fail_limit_ : Z;
  block_ms_ : Z;
  entries_ : gmap string GuardEntry;
}.

Definition default_UdpBindAbuseGuard : UdpBindAbuseGuard :=
  mkUdpBindAbuseGuard 10000 5 60000 ∅.

Definition guard_configure (fail_window_ms fail_limit block_ms : Z) (g : UdpBindAbuseGuard) :
    UdpBindAbuseGuard :=
  mkUdpBindAbuseGuard fail_window_ms fail_limit block_ms (entries_ g).

(** [entries_[key] = entry]. *)
Definition with_entry (key : string) (entry : GuardEntry) (g : UdpBindAbuseGuard) :
    UdpBindAbuseGuard :=
  mkUdpBindAbuseGuard (fail_window_ms_ g) (fail_limit_ g) (block_ms_ g)
    (<[key := entry]> (entries_ g)).

Definition block_state (endpoint_key : string) (now_ms : Z) (g : UdpBindAbuseGuard) :
    UdpBindAbuseGuard * BlockState :=
  match entries_ g !! endpoint_key with
  | None => (g, mkBlockState false 0)
  | Some entry =>
      if blocked_until_ms entry <=? now_ms then
        (with_entry endpoint_key
           (mkGuardEntry (window_started_ms entry) (failures_in_window entry) 0) g,
         mkBlockState false 0)
      else (g, mkBlockState true (u64 (blocked_until_ms entry - now_ms)))
  end.

Definition guard_record_failure (endpoint_key : string) (now_ms : Z) (g : UdpBindAbuseGuard) :
    UdpBindAbuseGuard * bool :=
  let entry := default default_GuardEntry (entries_ g !! endpoint_key) in
  if now_ms <? blocked_until_ms entry then (with_entry endpoint_key entry g, false)
  else
    let entry :=
      if (window_started_ms entry =? 0) || (now_ms <? window_started_ms entry)
         || (fail_window_ms_ g <? u64 (now_ms - window_started_ms entry))
      then mkGuardEntry now_ms 0 (blocked_until_ms entry) else entry in
    let entry := mkGuardEntry (window_started_ms entry) (u32 (failures_in_window entry + 1))
      (blocked_until_ms entry) in
    if failures_in_window entry <? fail_limit_ g then (with_entry endpoint_key entry g, false)
    else (with_entry endpoint_key (mkGuardEntry 0 0 (u64 (now_ms + block_ms_ g))) g, true).

Definition guard_record_success (endpoint_key : string) (g : UdpBindAbuseGuard) : UdpBindAbuseGuard :=
  match entries_ g !! endpoint_key with
  | None => g
  | Some entry => with_entry endpoint_key (mkGuardEntry 0 0 (blocked_until_ms entry)) g
  end.

(** ** UdpSequencedMetrics *)

Record UpdateResult := mkUpdateResult {
  ur_accepted : bool;
  ur_duplicate : bool;
  ur_reordered : bool;
  ur_estimated_lost_packets : Z;
  jitter_ms : Z;
}.

Record UdpSequencedMetrics := mkUdpSequencedMetrics {
  seq_initialized_ : bool;
  last_seq_ : Z;
  last_recv_ms_ : Z;
  last_interarrival_ms_ : Z;
}.

Definition default_UdpSequencedMetrics : UdpSequencedMetrics := mkUdpSequencedMetrics false 0 0 0.

Definition udp_metrics_reset (m : UdpSequencedMetrics) : UdpSequencedMetrics :=
  mkUdpSequencedMetrics false 0 0 0.

Definition on_packet (seq recv_unix_ms : Z) (m : UdpSequencedMetrics) :
    UdpSequencedMetrics * UpdateResult :=
  if negb (seq_initialized_ m) then
    (mkUdpSequencedMetrics true seq recv_unix_ms 0, mkUpdateResult true false false 0 0)
  else if seq =? last_seq_ m then (m, mkUpdateResult false true false 0 0)
  else if seq <? last_seq_ m then (m, mkUpdateResult false false true 0 0)
  else
    let lost := if u32 (last_seq_ m + 1) <? seq then u32 (u32 (seq - last_seq_ m) - 1) else 0 in
    let '(jitter, inter) :=
      if negb (last_recv_ms_ m =? 0) then
        if last_recv_ms_ m <=? recv_unix_ms then
          let interarrival_ms := u64 (recv_unix_ms - last_recv_ms_ m) in
          (if negb (last_interarrival_ms_ m =? 0) then
             if last_interarrival_ms_ m <=? interarrival_ms
             then u64 (interarrival_ms - last_interarrival_ms_ m)
             else u64 (last_interarrival_ms_ m - interarrival_ms)
           else 0, interarrival_ms)
        else (0, 0)
      else (0, last_interarrival_ms_ m) in
    (mkUdpSequencedMetrics true seq recv_unix_ms inter, mkUpdateResult true false false lost jitter).

Fixpoint on_packets (ps : list (Z * Z)) (m : UdpSequencedMetrics) :
    UdpSequencedMetrics * list (Z * UpdateResult) :=
  match ps with
  | [] => (m, [])
  | (seq, t) :: ps =>
      let '(m, r) := on_packet seq t m in
      let '(m, rs) := on_packets ps m in (m, (seq, r) :: rs)
  end.

(** ** Lemmas *)

(** Calls on one endpoint. *)
Inductive guard_op := GFail (now : Z) | GSuccess | GQuery (now : Z).

Definition guard_step (key : string) (op : guard_op) (g : UdpBindAbuseGuard) : UdpBindAbuseGuard :=
  match op with
  | GFail now => (guard_record_failure key now g).1
  | GSuccess => guard_record_success key g
  | GQuery now => (block_state key now g).1
  end.

Definition same_settings (g g' : UdpBindAbuseGuard) : Prop :=
  fail_window_ms_ g' = fail_window_ms_ g /\ fail_limit_ g' = fail_limit_ g /\ block_ms_ g' = block_ms_ g.

Lemma guard_step_other key key' op g :
  key' <> key -> entries_ (guard_step key op g) !! key' = entries_ g !! key'
  /\ same_settings g (guard_step key op g).
Proof.
  intros Hne. destruct op as [now| |now]; cbn [guard_step];
    unfold guard_record_failure, guard_record_success, block_state, same_settings; repeat case_match;
    simpl; rewrite ?lookup_insert_ne by done; done.
Qed.

(** Failures inside one window, short of the limit. *)
Fixpoint fail_all (key : string) (ts : list Z) (g : UdpBindAbuseGuard) : UdpBindAbuseGuard * list bool :=
  match ts with
  | [] => (g, [])
  | t :: ts =>
      let '(g, b) := guard_record_failure key t g in
      let '(g, bs) := fail_all key ts g in (g, b :: bs)
  end.

(** The state of an endpoint in a window that began at [start] with [k] failures. *)
Definition counting (g : UdpBindAbuseGuard) (key : string) (start k until : Z) : Prop :=
  entries_ g !! key = Some (mkGuardEntry start k until).

Lemma guard_fail_counting key g start k until t :
  counting g key start k until -> fits 32 (fail_window_ms_ g) -> fits 32 (fail_limit_ g) ->
  fits 64 t -> 0 < start -> start <= t <= start + fail_window_ms_ g -> until <= t ->
  0 <= k -> k + 1 < fail_limit_ g ->
  guard_record_failure key t g
  = (with_entry key (mkGuardEntry start (k + 1) until) g, false).
Proof.
  intros Hc Hw Hl Ht Hs Hr Hu Hk Hlt. unfold guard_record_failure. rewrite Hc. simpl.
  destruct (Z.ltb_spec t until); [lia|]. destruct (Z.eqb_spec start 0); [lia|].
  destruct (Z.ltb_spec t start); [lia|]. rewrite (wrap_id 64) by (widths; lia).
  destruct (Z.ltb_spec (fail_window_ms_ g) (t - start)); [lia|]. cbn [orb window_started_ms failures_in_window blocked_until_ms].
  rewrite wrap_id by (widths; lia). by destruct (Z.ltb_spec (k + 1) (fail_limit_ g)); [|lia].
Qed.

Lemma with_entry_twice key e1 e2 g : with_entry key e1 (with_entry key e2 g) = with_entry key e1 g.
Proof. unfold with_entry. simpl. by rewrite insert_insert_eq. Qed.

Lemma counting_with_entry key start k until g : counting (with_entry key (mkGuardEntry start k until) g) key start k until.
Proof. apply lookup_insert_eq. Qed.

Lemma guard_fail_limit key g start k until t :
  counting g key start k until -> fits 32 (fail_window_ms_ g) -> fits 32 (fail_limit_ g) ->
  fits 64 t -> 0 < start -> start <= t <= start + fail_window_ms_ g -> until <= t ->
  0 <= k -> k + 1 = fail_limit_ g -> t + block_ms_ g < 2 ^ 64 -> 0 <= block_ms_ g ->
  guard_record_failure key t g = (with_entry key (mkGuardEntry 0 0 (t + block_ms_ g)) g, true).
Proof.
  intros Hc Hw Hl Ht Hs Hr Hu Hk Hlt Hb Hb0. unfold guard_record_failure. rewrite Hc. simpl.
  destruct (Z.ltb_spec t until); [lia|]. destruct (Z.eqb_spec start 0); [lia|].
  destruct (Z.ltb_spec t start); [lia|]. rewrite (wrap_id 64 (t - start)) by (widths; lia).
  destruct (Z.ltb_spec (fail_window_ms_ g) (t - start)); [lia|]. cbn [orb window_started_ms failures_in_window blocked_until_ms].
  rewrite (wrap_id 32) by (widths; lia). destruct (Z.ltb_spec (k + 1) (fail_limit_ g)); [lia|].
  by rewrite wrap_id by (widths; lia).
Qed.

(** The first failure of an endpoint opens its window. *)
Lemma guard_fail_first key g t :
  entries_ g !! key = None -> 0 < t -> 0 <= fail_window_ms_ g ->
  guard_record_failure key t g = guard_record_failure key t (with_entry key (mkGuardEntry t 0 0) g).
Proof.
  intros Hn Ht Hw. unfold guard_record_failure. rewrite Hn.
  cbn [entries_ with_entry fail_window_ms_ fail_limit_ block_ms_]. rewrite lookup_insert_eq. simpl.
  destruct (Z.ltb_spec t 0); [lia|]. destruct (Z.eqb_spec t 0); [lia|]. rewrite Z.ltb_irrefl, Z.sub_diag.
  change (u64 0) with 0. destruct (Z.ltb_spec (fail_window_ms_ g) 0); [lia|]. simpl.
  repeat case_match; unfold with_entry; simpl; by rewrite insert_insert_eq.
Qed.

Lemma fail_all_counting key start until ts g k :
  counting g key start k until -> fits 32 (fail_window_ms_ g) -> fits 32 (fail_limit_ g) ->
  0 < start -> 0 <= k -> until <= start -> k + zlen ts < fail_limit_ g ->
  Forall (fun t => fits 64 t /\ start <= t <= start + fail_window_ms_ g) ts ->
  fail_all key ts g
  = (if decide (ts = []) then g else with_entry key (mkGuardEntry start (k + zlen ts) until) g,
     replicate (length ts) false).
Proof.
  revert g k. induction ts as [|t ts IH]; intros g k Hc Hw Hl Hs Hk Hu Hlt Hts; [done|].
  apply Forall_cons in Hts as [[Ht Hr] Hts]. cbn [fail_all length] in *.
  rewrite (guard_fail_counting key g start k until t) by (done || lia).
  rewrite (IH _ (k + 1)); [|apply counting_with_entry|done|done|lia|lia|lia|cbn [fail_limit_ with_entry]; lia|done].
  destruct ts as [|t' ts]; [done|]. rewrite decide_False, decide_False, with_entry_twice by done.
  cbn [length replicate]. do 2 f_equal. f_equal. lia.
Qed.

Lemma block_state_until key g until now :
  counting g key 0 0 until -> 0 <= now -> until < 2 ^ 64 ->
  (block_state key now g).2
  = if decide (now < until) then mkBlockState true (until - now) else mkBlockState false 0.
Proof.
  intros Hc Hn Hu. unfold block_state. rewrite Hc. simpl.
  destruct (Z.leb_spec until now); case_decide; try lia; [done|].
  simpl. by rewrite wrap_id by (widths; lia).
Qed.

(** *** Sequence tracking *)

Definition lost_sum (rs : list (Z * UpdateResult)) : Z :=
  foldr (fun r n => ur_estimated_lost_packets r.2 + n) 0 rs.

Definition accepted_seqs (rs : list (Z * UpdateResult)) : list Z :=
  map fst (filter (fun r => ur_accepted r.2 = true) rs).

Lemma on_packet_spec seq t m :
  fits 32 seq -> fits 32 (last_seq_ m) -> seq_initialized_ m = true ->
  let '(m', r) := on_packet seq t m in
  seq_initialized_ m' = true
  /\ last_seq_ m' = Z.max seq (last_seq_ m)
  /\ (ur_accepted r = true <-> last_seq_ m < seq)
  /\ (ur_duplicate r = true <-> seq = last_seq_ m) /\ (ur_reordered r = true <-> seq < last_seq_ m)
  /\ ur_estimated_lost_packets r = (if ur_accepted r then last_seq_ m' - last_seq_ m - 1 else 0).
Proof.
  intros Hs Hl Hi. unfold on_packet. rewrite Hi. cbn [negb].
  destruct (Z.eqb_spec seq (last_seq_ m)); [simpl; split_and!; done || lia|].
  destruct (Z.ltb_spec seq (last_seq_ m)); [simpl; split_and!; done || lia|].
  assert (Hlost : (if u32 (last_seq_ m + 1) <? seq then u32 (u32 (seq - last_seq_ m) - 1) else 0)
    = seq - last_seq_ m - 1).
  { rewrite (wrap_id 32 (seq - _)), (wrap_id 32 (_ + 1)), wrap_id by (widths; lia).
    destruct (Z.ltb_spec (last_seq_ m + 1) seq); lia. }
  rewrite Hlost. destruct (negb (last_recv_ms_ m =? 0)), (last_recv_ms_ m <=? t);
    simpl; split_and!; done || lia.
Qed.

Lemma on_packets_spec ps m :
  Forall (fun p => fits 32 p.1) ps -> fits 32 (last_seq_ m) -> seq_initialized_ m = true ->
  let '(m', rs) := on_packets ps m in
  last_seq_ m' - last_seq_ m = zlen (accepted_seqs rs) + lost_sum rs
  /\ StronglySorted Z.lt (last_seq_ m :: accepted_seqs rs)
  /\ last_seq_ m' = List.last (accepted_seqs rs) (last_seq_ m).
Proof.
  revert m. induction ps as [|[seq t] ps IH]; intros m Hps Hl Hi; cbn [on_packets].
  { split_and!; [simpl; lia|repeat constructor|done]. }
  apply Forall_cons in Hps as [Hs Hps]. simpl in Hs.
  pose proof (on_packet_spec seq t m Hs Hl Hi) as Hstep.
  destruct (on_packet seq t m) as [m1 r]. destruct Hstep as (Hi1 & Hl1 & Hacc & _ & _ & Hlost).
  assert (Hf1 : fits 32 (last_seq_ m1)) by (rewrite Hl1; widths; lia).
  specialize (IH m1 Hps Hf1 Hi1). destruct (on_packets ps m1) as [m2 rs].
  destruct IH as (Hsum & Hsort & Hlast). unfold accepted_seqs in *. rewrite filter_cons. cbn [snd].
  apply StronglySorted_inv in Hsort as [Hsort Hall]. cbn [lost_sum foldr snd].
  fold (lost_sum rs). destruct (ur_accepted r) eqn:Ha.
  - rewrite decide_True by done. cbn [map fst length]. assert (last_seq_ m < seq) by (by apply Hacc).
    replace (last_seq_ m1) with seq in * by lia. split_and!.
    + lia.
    + constructor; [by constructor|]. constructor; [done|]. eapply Forall_impl; [exact Hall|]. simpl. lia.
    + by rewrite Hlast, last_cons_default.
  - rewrite decide_False by done. assert (~ last_seq_ m < seq) by (intros ?%Hacc; done).
    replace (last_seq_ m1) with (last_seq_ m) in * by lia. split_and!; [lia|by constructor|done].
Qed.

Lemma fail_all_app key ts1 ts2 g :
  fail_all key (ts1 ++ ts2) g
  = let '(g1, bs1) := fail_all key ts1 g in
    let '(g2, bs2) := fail_all key ts2 g1 in (g2, bs1 ++ bs2).
Proof.
  revert g. induction ts1 as [|t ts1 IH]; intros g; cbn [app fail_all].
  { by destruct (fail_all key ts2 g). }
  destruct (guard_record_failure key t g) as [g1 b]. rewrite IH.
  destruct (fail_all key ts1 g1) as [g2 bs1]. by destruct (fail_all key ts2 g2).
Qed.

(** ** Theorems *)

(** The guard blocks exactly when it should.  For an endpoint without history, the
    failures before the [fail_limit]-th inside one window do not block; the
    [fail_limit]-th does, and reports it; from then the endpoint is blocked for
    [block_ms] with the remaining time as [retry_after_ms], and no longer; and no
    call for this endpoint changes the record of any other. *)
Theorem guard_blocks_at_limit g key t0 ts :
  fits 32 (fail_window_ms_ g) -> fits 32 (fail_limit_ g) -> fits 32 (block_ms_ g) ->
  entries_ g !! key = None -> zlen (t0 :: ts) = fail_limit_ g -> 0 < t0 ->
  Forall (fun t => t0 <= t <= t0 + fail_window_ms_ g /\ t + 2 ^ 32 < 2 ^ 64) (t0 :: ts) ->
  let '(g', bs) := fail_all key (t0 :: ts) g in
  let until := List.last ts t0 + block_ms_ g in
  bs = replicate (length ts) false ++ [true]
  /\ (forall now, 0 <= now -> (block_state key now g').2
        = if decide (now < until) then mkBlockState true (until - now) else mkBlockState false 0)
  /\ (forall key', key' <> key -> entries_ g' !! key' = entries_ g !! key').
Proof.
  intros Hw Hl Hb Hn Hlen Ht0 Hall.
  assert (Hstart : fail_all key (t0 :: ts) g = fail_all key (t0 :: ts) (with_entry key (mkGuardEntry t0 0 0) g)).
  { cbn [fail_all]. by rewrite guard_fail_first by (done || apply Hw). }
  assert (Hsplit : exists init tl, t0 :: ts = init ++ [tl] /\ tl = List.last ts t0 /\ length init = length ts).
  { destruct (exists_last (l := t0 :: ts)) as (init & tl & He); [done|]. exists init, tl. split; [done|].
    rewrite <- last_cons_default with (d := 0), He, last_last. split; [done|].
    apply (f_equal length) in He. rewrite length_app in He. simpl in He. lia. }
  destruct Hsplit as (init & tl & He & Htl & Hli). rewrite Hstart, He, fail_all_app. clear Hstart.
  rewrite He in Hall. apply Forall_app in Hall as [Hinit [Hlast _]%Forall_cons].
  cbn [length] in Hlen. set (g0 := with_entry key (mkGuardEntry t0 0 0) g) in *.
  rewrite (fail_all_counting key t0 0 init g0 0); simpl; [|by apply counting_with_entry|done|done|lia|lia|lia|lia|].
  2: { eapply Forall_impl; [exact Hinit|]. simpl. intros. widths. lia. }
  set (g1 := if decide (init = []) then _ else _).
  assert (Hg1 : counting g1 key t0 (zlen init) 0 /\ same_settings g g1
    /\ forall key', key' <> key -> entries_ g1 !! key' = entries_ g !! key').
  { subst g1. case_decide as Hi; [subst init|]; simpl; (split; [apply counting_with_entry|]);
      (split; [done|]); intros; simpl; by rewrite !lookup_insert_ne by done. }
  destruct Hg1 as (Hc & (Hs1 & Hs2 & Hs3) & Hother). clearbody g1.
  rewrite (guard_fail_limit key g1 t0 (zlen init) 0 tl); rewrite ?Hs1, ?Hs2, ?Hs3; try done; try lia; [|widths; lia..].
  rewrite <- Htl, Hli. split_and!; [done| |].
  - intros now Hnow. apply block_state_until; [apply counting_with_entry|done|widths; lia].
  - intros key' Hne. simpl. rewrite lookup_insert_ne by done. auto.
Qed.

Lemma guard_blocks_at_limit_witness :
  let g := mkUdpBindAbuseGuard 1000 3 5000 ∅ in
  let '(g', bs) := fail_all "10.0.0.1:4000" [100; 700; 300] g in
  bs = [false; false; true] /\ (block_state "10.0.0.1:4000" 2000 g').2 = mkBlockState true 3300.
Proof.
  intros g.
  assert (Hall : Forall (fun t => 100 <= t <= 100 + fail_window_ms_ g /\ t + 2 ^ 32 < 2 ^ 64) [100; 700; 300])
    by (do 3 (apply Forall_cons_2; [simpl; lia|]); constructor).
  assert (Hn : entries_ g !! "10.0.0.1:4000" = None) by apply lookup_empty.
  pose proof (guard_blocks_at_limit g "10.0.0.1:4000" 100 [700; 300] ltac:(by vm_compute)
    ltac:(by vm_compute) ltac:(by vm_compute) Hn eq_refl ltac:(lia) Hall) as H.
  destruct (fail_all _ _ _) as [g' bs]. destruct H as (-> & H & _).
  split; [reflexivity|]. rewrite (H 2000 ltac:(lia)). reflexivity.
Defined.

(** Sequence tracking is exact.  Over any packets of a session, the accepted sequence
    numbers are strictly increasing and start with the first one; the estimated
    losses are exactly the numbers between the first and the last accepted one that
    were not accepted; and each later packet is either accepted (above the last),
    a duplicate (equal) or reordered (below). *)
Theorem sequenced_metrics_exact m0 seq0 t0 ps :
  fits 32 seq0 -> Forall (fun p => fits 32 p.1) ps ->
  let '(m, rs) := on_packets ((seq0, t0) :: ps) (udp_metrics_reset m0) in
  StronglySorted Z.lt (accepted_seqs rs) /\ head (accepted_seqs rs) = Some seq0
  /\ last_seq_ m = List.last (accepted_seqs rs) 0
  /\ zlen (accepted_seqs rs) + lost_sum rs = last_seq_ m - seq0 + 1
  /\ forall seq t, fits 32 seq -> let '(_, r) := on_packet seq t m in
       (ur_accepted r = true <-> last_seq_ m < seq) /\ (ur_duplicate r = true <-> seq = last_seq_ m)
       /\ (ur_reordered r = true <-> seq < last_seq_ m).
Proof.
  intros Hs Hps. cbn [on_packets on_packet udp_metrics_reset seq_initialized_ negb].
  set (m1 := mkUdpSequencedMetrics true seq0 t0 0).
  pose proof (on_packets_spec ps m1 Hps Hs eq_refl) as Hspec.
  assert (Hinit : forall ps m, seq_initialized_ m = true -> seq_initialized_ (on_packets ps m).1 = true).
  { clear. induction ps as [|[seq t] ps IH]; intros m Hm; [done|]. cbn [on_packets].
    assert (seq_initialized_ (on_packet seq t m).1 = true)
      by (unfold on_packet; rewrite Hm; by repeat case_match; simplify_eq).
    destruct (on_packet seq t m) as [m1 r]. specialize (IH m1). destruct (on_packets ps m1). simpl in *. auto. }
  assert (Hfit : forall ps m, Forall (fun p => fits 32 p.1) ps -> fits 32 (last_seq_ m) ->
    seq_initialized_ m = true -> fits 32 (last_seq_ (on_packets ps m).1)).
  { clear. induction ps as [|[seq t] ps IH]; intros m Hps Hl Hi; [done|]. cbn [on_packets].
    apply Forall_cons in Hps as [Hs Hps]. simpl in Hs. pose proof (on_packet_spec seq t m Hs Hl Hi) as Hstep.
    destruct (on_packet seq t m) as [m1 r]. destruct Hstep as (Hi1 & Hl1 & _).
    specialize (IH m1 Hps). destruct (on_packets ps m1). simpl in *. apply IH; [|done].
    rewrite Hl1. widths; lia. }
  specialize (Hinit ps m1 eq_refl). specialize (Hfit ps m1 Hps Hs eq_refl).
  destruct (on_packets ps m1) as [m rs]. cbn [fst] in *. destruct Hspec as (Hsum & Hsort & Hlast).
  unfold accepted_seqs in *. rewrite filter_cons_True by done. cbn [map fst lost_sum foldr snd] in *.
  fold (lost_sum rs). cbn [ur_estimated_lost_packets length] in *. change (last_seq_ m1) with seq0 in *.
  split_and!; [done|done|by rewrite last_cons_default|lia|].
  intros seq t Hseq. pose proof (on_packet_spec seq t m Hseq Hfit Hinit) as Hstep.
  destruct (on_packet seq t m) as [m' r]. tauto.
Qed.

Lemma sequenced_metrics_exact_witness :
  let '(m, rs) := on_packets [(7, 100); (9, 120); (8, 125); (9, 130); (12, 180)]
    (udp_metrics_reset default_UdpSequencedMetrics) in
  StronglySorted Z.lt (accepted_seqs rs) /\ accepted_seqs rs = [7; 9; 12] /\ lost_sum rs = 3.
Proof.
  assert (Hps : Forall (fun p : Z * Z => fits 32 p.1) [(9, 120); (8, 125); (9, 130); (12, 180)])
    by (do 4 (apply Forall_cons_2; [by vm_compute|]); constructor).
  pose proof (sequenced_metrics_exact default_UdpSequencedMetrics 7 100 _ ltac:(by vm_compute) Hps) as H.
  split; [exact (proj1 H)|]. by vm_compute.
Defined.

(** The guard only grows: every endpoint that ever failed keeps an entry, whatever is
    called later, and failures from new endpoints add one each. *)
Theorem guard_never_forgets g key op now key' :
  (is_Some (entries_ g !! key) -> is_Some (entries_ (guard_step key' op g) !! key))
  /\ (entries_ g !! key = None ->
      size (entries_ (guard_record_failure key now g).1) = S (size (entries_ g))).
Proof.
  split.
  - intros Hs. destruct op as [t| |t]; cbn [guard_step];
      unfold guard_record_failure, guard_record_success, block_state; repeat case_match; simpl; try done;
      (destruct (decide (key = key')) as [->|]; [by rewrite lookup_insert_eq|by rewrite lookup_insert_ne by done]).
  - intros Hn. unfold guard_record_failure. repeat case_match; simpl; by rewrite map_size_insert_None.
Qed.

Lemma guard_never_forgets_witness :
  size (entries_ (guard_record_failure "a" 5 default_UdpBindAbuseGuard).1) = 1%nat.
Proof. apply (guard_never_forgets default_UdpBindAbuseGuard "a" GSuccess 5 "a"). apply lookup_empty. Defined.
