(* ===== verification/Rollout.v ===== *)
(** Rollout of the reliable UDP path, [gateway/rudp_rollout_policy.hpp]: parsing of the
    opcode allowlist, the FNV-1a hash that selects canary sessions, and the policy.

    Strings are lists of characters, [std::from_chars] is the one of [Text]. *)

From S2P Require Import Prelude Text.

(** ** Definitions *)

Definition is_ascii_space (c : Ascii.ascii) : bool :=
  (byte_of_ascii c =? 32) || (byte_of_ascii c =? 9) || (byte_of_ascii c =? 13) || (byte_of_ascii c =? 10).

(** The first loop of [trim_ascii]; the second is the first on the reversed string. *)
Fixpoint drop_spaces (value : chars) : chars :=
  match value with
  | c :: rest => if is_ascii_space c then drop_spaces rest else value
  | [] => []
  end.

Definition trim_ascii (value : chars) : chars := rev (drop_spaces (rev (drop_spaces value))).

Definition parse_u16_token (token : chars) : option Z :=
  let token := trim_ascii token in
  match token with
  | [] => None
  | _ =>
      let '(base, token) :=
        match token with
        | c0 :: c1 :: rest =>
            if (2 <? zlen token) && (byte_of_ascii c0 =? 48)
               && ((byte_of_ascii c1 =? 120) || (byte_of_ascii c1 =? 88))
            then (16, rest) else (10, token)
        | _ => (10, token)
        end in
      match token with
      | [] => None
      | _ =>
          match from_chars 32 base token with
          | Some (parsed, []) => if 0xFFFF <? parsed then None else Some (u16 parsed)
          | _ => None
          end
      end
  end.

(** [csv.find(',', begin)]. *)
Fixpoint find_comma (s : chars) (pos : nat) : option nat :=
  match s with
  | c :: rest => if is_sep 44 c then Some pos else find_comma rest (S pos)
  | [] => None
  end.

(** The loop over the tokens; [begin] grows with every round, so one round per
    character and one more is enough. *)
Fixpoint allowlist_loop (fuel : nat) (csv : chars) (begin : nat) (out : gset Z) : option (gset Z) :=
  match fuel with
  | O => None
  | S fuel =>
      if Nat.leb begin (length csv) then
        let end_ := default (length csv) (find_comma (drop begin csv) begin) in
        let token := take (end_ - begin) (drop begin csv) in
        let out := match parse_u16_token token with Some opcode => {[opcode]} ∪ out | None => out end in
        if Nat.eqb end_ (length csv) then Some out
        else allowlist_loop fuel csv (end_ + 1) out
      else Some out
  end.

Definition parse_rudp_opcode_allowlist (csv : chars) : option (gset Z) :=
  allowlist_loop (S (S (length csv))) csv 0 ∅.

Definition parse_udp_opcode_allowlist (csv : chars) : option (gset Z) :=
  parse_rudp_opcode_allowlist csv.

Definition fnv_prime := 1099511628211.

Definition fnv_step (hash b : Z) : Z := u64 (Z.lxor hash b * fnv_prime).

Definition fnv1a64 (session_id : chars) (nonce : Z) : Z :=
  let hash := fold_left (fun h c => fnv_step h (byte_of_ascii c)) session_id 1469598103934665603 in
  fold_left (fun h shift => fnv_step h (u8 (Z.land (Z.shiftr nonce shift) 0xFF)))
    [0; 8; 16; 24; 32; 40; 48; 56] hash.

Record RudpRolloutPolicy := mkRudpRolloutPolicy {
  rollout_enabled : bool;
  canary_percent : Z;
  opcode_allowlist : gset Z;
}.

Definition session_selected (session_id : chars) (nonce : Z) (p : RudpRolloutPolicy) : bool :=
  if negb (rollout_enabled p) || (canary_percent p =? 0) then false
  else if 100 <=? canary_percent p then true
  else u32 (fnv1a64 session_id nonce mod 100) <? canary_percent p.

Definition opcode_allowed (opcode : Z) (p : RudpRolloutPolicy) : bool :=
  negb (bool_decide (opcode_allowlist p = ∅)) && bool_decide (opcode ∈ opcode_allowlist p).

(** ** Lemmas *)

Lemma find_comma_spec s pos :
  match find_comma s pos with
  | Some e => exists tok c rest, s = tok ++ c :: rest /\ e = (pos + length tok)%nat
      /\ split_sep 44 s = tok :: split_sep 44 rest
  | None => split_sep 44 s = [s]
  end.
Proof.
  revert pos. induction s as [|c s IH]; intros pos; [done|]. cbn [find_comma split_sep].
  destruct (is_sep 44 c).
  { exists [], c, s. split_and!; [done|simpl; lia|done]. }
  specialize (IH (S pos)). destruct (find_comma s (S pos)) as [e|].
  - destruct IH as (tok & c' & rest & -> & -> & ->). exists (c :: tok), c', rest.
    split_and!; [done|simpl; lia|done].
  - by rewrite IH.
Qed.

Lemma allowlist_loop_spec fuel csv begin out :
  (begin <= length csv)%nat -> (length csv - begin < fuel)%nat ->
  allowlist_loop fuel csv begin out
  = Some (list_to_set (omap parse_u16_token (split_sep 44 (drop begin csv))) ∪ out).
Proof.
  revert begin out. induction fuel as [|fuel IH]; intros begin out Hb Hf; [lia|]. cbn [allowlist_loop].
  rewrite (proj2 (Nat.leb_le _ _) Hb).
  pose proof (find_comma_spec (drop begin csv) begin) as Hc.
  destruct (find_comma (drop begin csv) begin) as [e|]; simpl default.
  - destruct Hc as (tok & c & rest & Hd & -> & Hsplit).
    assert (Hlen : (length csv = begin + length tok + S (length rest))%nat).
    { apply (f_equal length) in Hd. rewrite length_drop, length_app in Hd. simpl in Hd. lia. }
    rewrite (proj2 (Nat.eqb_neq _ _)) by lia. rewrite IH by lia.
    replace (begin + length tok - begin)%nat with (length tok) by lia.
    assert (Hrest : drop (begin + length tok + 1) csv = rest).
    { rewrite <- Nat.add_assoc, <- drop_drop, Hd, <- drop_drop, drop_app_length. done. }
    rewrite Hrest, Hsplit, Hd, take_app_length. cbn [omap list_omap].
    destruct (parse_u16_token tok); simpl; f_equal; set_solver.
  - rewrite Nat.eqb_refl, Hc. rewrite take_ge by (rewrite length_drop; lia). cbn [omap list_omap].
    destruct (parse_u16_token (drop begin csv)); simpl; f_equal; set_solver.
Qed.

Lemma parse_allowlist_eq csv :
  parse_rudp_opcode_allowlist csv = Some (list_to_set (omap parse_u16_token (split_sep 44 csv))).
Proof.
  unfold parse_rudp_opcode_allowlist. rewrite allowlist_loop_spec by lia.
  by rewrite drop_0, union_empty_r_L.
Qed.

Lemma parse_u16_token_fits tok v : parse_u16_token tok = Some v -> fits 16 v.
Proof. unfold parse_u16_token. intros. repeat case_match; simplify_eq; by apply wrap_fits. Qed.

Lemma fnv_step_fits h b : fits 64 (fnv_step h b).
Proof. by apply wrap_fits. Qed.

(** Spaces are not digits, so trimming keeps a numeral; and a numeral of at least two
    digits does not start with 0x. *)
Lemma drop_spaces_digits ds : Forall digit10 ds -> drop_spaces ds = ds.
Proof.
  intros [|c l (d & Hd & _) _]; [done|]. cbn [drop_spaces]. unfold is_ascii_space, digit_value in *.
  assert (48 <= byte_of_ascii c) by (repeat case_match; simplify_eq; zbool; lia).
  by destruct (Z.eqb_spec (byte_of_ascii c) 32), (Z.eqb_spec (byte_of_ascii c) 9),
    (Z.eqb_spec (byte_of_ascii c) 13), (Z.eqb_spec (byte_of_ascii c) 10); try lia.
Qed.

Lemma trim_ascii_digits ds : Forall digit10 ds -> trim_ascii ds = ds.
Proof.
  intros Hds. unfold trim_ascii. rewrite (drop_spaces_digits ds) by done.
  rewrite drop_spaces_digits by (by apply Forall_rev). apply rev_involutive.
Qed.

Lemma digit10_not_x c : digit10 c -> (byte_of_ascii c =? 120) || (byte_of_ascii c =? 88) = false.
Proof.
  intros (d & Hd & Hlt). unfold digit_value in Hd.
  destruct (Z.eqb_spec (byte_of_ascii c) 120) as [He|]; [rewrite He in Hd; simpl in Hd; simplify_eq; lia|].
  destruct (Z.eqb_spec (byte_of_ascii c) 88) as [He|]; [rewrite He in Hd; simpl in Hd; simplify_eq; lia|done].
Qed.

Lemma parse_u16_decimal n : fits 16 n -> parse_u16_token (decimal n) = Some n.
Proof.
  intros Hn. destruct (decimal_digits n) as (Hds & _ & Hne); [apply Hn|].
  unfold parse_u16_token. rewrite trim_ascii_digits by done.
  pose proof (from_chars_decimal 32 n [] ltac:(widths; lia) I) as Hfc. rewrite app_nil_r in Hfc.
  assert (Hfinal : match from_chars 32 10 (decimal n) with
    | Some (parsed, []) => if 0xFFFF <? parsed then None else Some (u16 parsed) | _ => None end = Some n).
  { rewrite Hfc. destruct (Z.ltb_spec 0xFFFF n); [widths; lia|]. by rewrite wrap_id. }
  destruct (decimal n) as [|c0 [|c1 rest]] eqn:Hd; [done|done|].
  apply Forall_cons in Hds as [_ [Hc1 _]%Forall_cons].
  rewrite (digit10_not_x c1 Hc1), andb_false_r. done.
Qed.

(** ** Theorems *)

(** The allowlist parser is total and exact: on every text it stops, and an opcode is
    in the result precisely when some comma-separated token denotes it; and a list
    of 16-bit opcodes printed in decimal and joined by commas is read back as the
    set of its elements. *)
Theorem opcode_allowlist_exact csv :
  (exists s, parse_rudp_opcode_allowlist csv = Some s
     /\ forall opcode, opcode ∈ s <-> exists tok, tok ∈ split_sep 44 csv /\ parse_u16_token tok = Some opcode)
  /\ forall ops, ops <> [] -> Forall (fits 16) ops ->
     parse_rudp_opcode_allowlist (join_sep 44 (map decimal ops)) = Some (list_to_set ops).
Proof.
  split.
  - eexists; split; [apply parse_allowlist_eq|]. intros opcode. rewrite elem_of_list_to_set, list_elem_of_omap. done.
  - intros ops Hne Hops.
    rewrite parse_allowlist_eq, (split_join 44); [f_equal; f_equal|by vm_compute| |].
    + clear -Hops. induction Hops as [|n ops Hn _ IH]; [done|]. cbn [map omap list_omap].
      by rewrite parse_u16_decimal, IH.
    + by destruct ops.
    + apply Forall_map. eapply Forall_impl; [exact Hops|]. intros n Hn. apply (digit10_not_sep 44); [lia|].
      apply decimal_digits, Hn.
Qed.

(** Canary selection is monotone.  Raising the percentage of an enabled policy never
    deselects a session; zero percent selects none and a hundred or more all; so a
    session keeps its transport while a rollout grows. *)
Theorem canary_monotone session_id nonce p1 p2 :
  rollout_enabled p1 = true -> rollout_enabled p2 = true ->
  0 <= canary_percent p1 <= canary_percent p2 ->
  (session_selected session_id nonce p1 = true -> session_selected session_id nonce p2 = true)
  /\ (canary_percent p1 = 0 -> session_selected session_id nonce p1 = false)
  /\ (100 <= canary_percent p2 -> session_selected session_id nonce p2 = true).
Proof.
  intros He1 He2 Hle. unfold session_selected. rewrite He1, He2. cbn [negb orb].
  assert (Hmod : 0 <= fnv1a64 session_id nonce mod 100 < 100) by (apply Z.mod_pos_bound; lia).
  rewrite wrap_id by (widths; lia).
  destruct (Z.eqb_spec (canary_percent p1) 0), (Z.eqb_spec (canary_percent p2) 0),
    (Z.leb_spec 100 (canary_percent p1)), (Z.leb_spec 100 (canary_percent p2));
    split_and!; try done; try lia; rewrite ?Z.ltb_lt; lia.
Qed.

Lemma canary_monotone_witness :
  session_selected (chars_of "session-1") 42 (mkRudpRolloutPolicy true 100 ∅) = true.
Proof.
  apply (canary_monotone (chars_of "session-1") 42 (mkRudpRolloutPolicy true 50 ∅)
    (mkRudpRolloutPolicy true 100 ∅)); simpl; lia || done.
Defined.
