(* ===== verification/Connection.v ===== *)
(** The TCP connection base class of [core/src/net/connection.cpp]: the read loop, the send
    queue with its byte budget, and the two ways to stop.

    A connection of the model is the fields of the class, the asynchronous operations that
    are under way (a read, a write, sends posted to the strand, a finalization dispatched to
    it), and the state [D] of the derived class, whose virtual functions are the methods of
    the classes [Disconnect] and [Handlers].  An event is the completion of one of these
    operations or a call from outside the strand; [conn_step] is [None] for an event that
    cannot happen.  The calls the derived class makes to the rest of the program are values
    of the type [E], logged in the order they happen. *)

From S2P Require Import Prelude.

Create HintDb conn discriminated.

Definition k_default_send_queue_max : Z := 256 * 1024.
(** The size of [read_buffer_]. *)
Definition k_read_buffer : Z := 4096.

Record Connection (D : Type) := mkConn {
  cn_stopped : bool;
  cn_open : bool;                 (** [socket_.is_open()] *)
  cn_queue : list (list Z);       (** [write_queue_] *)
  cn_queued : Z;                  (** [queued_bytes_] *)
  cn_max : Z;                     (** [send_queue_max_bytes_] *)
  cn_reading : option bool;       (** a read is under way; whether the socket was open when it began *)
  cn_writing : option (list Z);   (** the buffer of the write under way *)
  cn_posted : list (list Z);      (** sends posted to the strand, oldest first *)
  cn_finalizing : bool;           (** [finalize_stop] is dispatched to the strand *)
  cn_derived : D;
}.
#[global] Arguments mkConn {D}.
#[global] Arguments cn_stopped {D}.
#[global] Arguments cn_open {D}.
#[global] Arguments cn_queue {D}.
#[global] Arguments cn_queued {D}.
#[global] Arguments cn_max {D}.
#[global] Arguments cn_reading {D}.
#[global] Arguments cn_writing {D}.
#[global] Arguments cn_posted {D}.
#[global] Arguments cn_finalizing {D}.
#[global] Arguments cn_derived {D}.

Definition new_Connection {D} (max : Z) (d : D) : Connection D :=
  mkConn false true [] 0 max None None [] false d.

(** What happens outside: a buffer entered the queue, a buffer was written, a call of the
    derived class to the rest of the program. *)
Inductive conn_out (E : Type) :=
| Accepted (data : list Z)
| Wrote (data : list Z)
| Calls (e : E).
#[global] Arguments Accepted {E}.
#[global] Arguments Wrote {E}.
#[global] Arguments Calls {E}.

Class Disconnect (D E : Type) := on_disconnect : D -> D * list E.

Section connection.
  Context {D E I : Type} `{!Disconnect D E}.
  Implicit Type c : Connection D.

Definition set_derived (d : D) c : Connection D :=
  mkConn c.(cn_stopped) c.(cn_open) c.(cn_queue) c.(cn_queued) c.(cn_max) c.(cn_reading) c.(cn_writing)
    c.(cn_posted) c.(cn_finalizing) d.

Definition finalize_stop c : Connection D * list (conn_out E) :=
  let '(d, calls) := on_disconnect c.(cn_derived) in
  (mkConn c.(cn_stopped) false [] 0 c.(cn_max) c.(cn_reading) c.(cn_writing) c.(cn_posted) false d,
   map Calls calls).

Definition set_stopped (finalizing : bool) c : Connection D :=
  mkConn true c.(cn_open) c.(cn_queue) c.(cn_queued) c.(cn_max) c.(cn_reading) c.(cn_writing)
    c.(cn_posted) finalizing c.(cn_derived).

(** [stop], called on the strand: [dispatch] runs the finalization at once. *)
Definition stop c : Connection D * list (conn_out E) :=
  if c.(cn_stopped) then (c, []) else finalize_stop (set_stopped false c).

(** [stop], called from elsewhere. *)
Definition stop_outside c : Connection D := if c.(cn_stopped) then c else set_stopped true c.

(** [async_send]: the sending itself is posted to the strand. *)
Definition conn_async_send (data : list Z) c : Connection D :=
  if c.(cn_stopped) then c
  else mkConn c.(cn_stopped) c.(cn_open) c.(cn_queue) c.(cn_queued) c.(cn_max) c.(cn_reading) c.(cn_writing)
         (c.(cn_posted) ++ [data]) c.(cn_finalizing) c.(cn_derived).

Definition set_writes (queue : list (list Z)) (queued : Z) (writing : option (list Z)) c : Connection D :=
  mkConn c.(cn_stopped) c.(cn_open) queue queued c.(cn_max) c.(cn_reading) writing
    c.(cn_posted) c.(cn_finalizing) c.(cn_derived).

(** [do_write]: a write of the buffer at the head of the queue begins. *)
Definition conn_do_write c : Connection D :=
  match c.(cn_queue) with
  | [] => c
  | buffer :: _ => set_writes c.(cn_queue) c.(cn_queued) (Some buffer) c
  end.

(** The function [async_send] posts. *)
Definition send_posted (data : list Z) c : Connection D * list (conn_out E) :=
  if c.(cn_stopped) then (c, [])
  else if (0 <? c.(cn_max)) && (c.(cn_max) - Z.min c.(cn_max) c.(cn_queued) <? zlen data) then stop c
  else
    let idle := bool_decide (c.(cn_queue) = []) in
    let c := set_writes (c.(cn_queue) ++ [data]) (u64 (c.(cn_queued) + zlen data)) c.(cn_writing) c in
    ((if idle then conn_do_write c else c), [Accepted data]).

Definition set_reading (r : option bool) c : Connection D :=
  mkConn c.(cn_stopped) c.(cn_open) c.(cn_queue) c.(cn_queued) c.(cn_max) r c.(cn_writing)
    c.(cn_posted) c.(cn_finalizing) c.(cn_derived).
Definition set_posted (p : list (list Z)) c : Connection D :=
  mkConn c.(cn_stopped) c.(cn_open) c.(cn_queue) c.(cn_queued) c.(cn_max) c.(cn_reading) c.(cn_writing)
    p c.(cn_finalizing) c.(cn_derived).

Definition read_loop c : Connection D := set_reading (Some c.(cn_open)) c.

(** The completion of a write; [None] is the error. *)
Definition handle_write (written : option (list Z)) c : Connection D * list (conn_out E) :=
  let c := set_writes c.(cn_queue) c.(cn_queued) None c in
  match written with
  | None => stop c
  | Some buffer =>
      let queued := if zlen buffer <=? c.(cn_queued) then c.(cn_queued) - zlen buffer else 0 in
      (conn_do_write (set_writes (tail c.(cn_queue)) queued None c), [Wrote buffer])
  end.

(** The virtual functions of the derived class.  [I] is what the outside answers to the calls
    they make; [None] is a memory error. *)
Class Handlers := {
  on_connect : I -> Connection D -> Connection D * list (conn_out E);
  on_read : I -> list Z -> Connection D -> option (Connection D * list (conn_out E));
}.

Context `{!Handlers}.

(** The function [start] dispatches. *)
Definition conn_start (i : I) c : Connection D * list (conn_out E) :=
  if c.(cn_stopped) then (c, [])
  else let '(c, outs) := on_connect i c in (read_loop c, outs).

(** The completion of a read; [None] is the error.  Nothing here looks at [stopped_] before
    the data are delivered. *)
Definition handle_read (i : I) (data : option (list Z)) c : option (Connection D * list (conn_out E)) :=
  let c := set_reading None c in
  match data with
  | None => Some (stop c)
  | Some data =>
      '(c, outs) ← (if 0 <? zlen data then on_read i data c else Some (c, []));
      Some ((if c.(cn_stopped) then c else read_loop c), outs)
  end.

Inductive conn_event :=
| Start (i : I)
| ReadDone (i : I) (data : option (list Z))
| Posted
| WriteDone (ok : bool)
| StopOutside
| Finalize
| SendOutside (data : list Z).

Definition conn_step (ev : conn_event) c : option (Connection D * list (conn_out E)) :=
  match ev with
  | Start i => Some (conn_start i c)
  | ReadDone i data =>
      issued_open ← c.(cn_reading);
      if from_option (fun d => negb issued_open || (k_read_buffer <? zlen d)) false data then None
      else handle_read i data c
  | Posted =>
      match c.(cn_posted) with [] => None | data :: rest => Some (send_posted data (set_posted rest c)) end
  | WriteDone ok =>
      buffer ← c.(cn_writing);
      Some (handle_write (if ok : bool then Some buffer else None) c)
  | StopOutside => Some (stop_outside c, [])
  | Finalize => if c.(cn_finalizing) then Some (finalize_stop c) else None
  | SendOutside data => Some (conn_async_send data c, [])
  end.

Fixpoint conn_run (evs : list conn_event) (st : Connection D * list (conn_out E))
    : option (Connection D * list (conn_out E)) :=
  match evs with
  | [] => Some st
  | ev :: rest =>
      '(c, outs) ← conn_step ev st.1;
      conn_run rest (c, st.2 ++ outs)
  end.

End connection.

#[global] Arguments Handlers D E I : clear implicits.
#[global] Arguments conn_event I : clear implicits.

(** ** Properties *)

Section connection_props.
  Context {D E I : Type} `{!Disconnect D E, !Handlers D E I}.
  Implicit Types (c : Connection D) (outs : list (conn_out E)).

(** What a virtual function may do with the base class: call [async_send] and [stop], change
    its own state, call the outside. *)
Inductive base_calls c : Connection D * list (conn_out E) -> Prop :=
| base_none : base_calls c (c, [])
| base_derived d r : base_calls (set_derived d c) r -> base_calls c r
| base_send data r : base_calls (conn_async_send data c) r -> base_calls c r
| base_stop c' outs r : stop c = (c', outs) -> base_calls c' r -> base_calls c (r.1, outs ++ r.2)
| base_call e r : base_calls c r -> base_calls c (r.1, Calls e :: r.2).

Class HandlersOk : Prop := {
  on_connect_base i c : base_calls c (on_connect i c);
  on_read_base i data c r : on_read i data c = Some r -> base_calls c r;
}.

Lemma base_calls_stop c : base_calls c (stop c).
Proof.
  destruct (stop c) as [c' outs] eqn:Es. rewrite <- (app_nil_r outs).
  apply (base_stop c c' outs (c', [])); [done|constructor].
Qed.

Lemma base_calls_trans c r c1 outs : base_calls c (c1, outs) -> base_calls c1 r -> base_calls c (r.1, outs ++ r.2).
Proof.
  intros Hb. remember (c1, outs) as r1 eqn:E1. revert c1 outs E1.
  induction Hb as [c|c d r1 Hb IH|c data r1 Hb IH|c c' o r1 Hs Hb IH|c e r1 Hb IH]; intros c1 outs E1 Hr.
  - injection E1 as <- <-. by destruct r.
  - eapply base_derived. by apply (IH c1 outs).
  - eapply base_send. by apply (IH c1 outs).
  - injection E1 as <- <-. rewrite <- app_assoc. apply (base_stop _ _ _ (r.1, r1.2 ++ r.2) Hs).
    apply (IH r1.1 r1.2); [by destruct r1|done].
  - injection E1 as <- <-. apply (base_call _ e (r.1, r1.2 ++ r.2)). apply (IH r1.1 r1.2); [by destruct r1|done].
Qed.

Lemma base_calls_call c e : base_calls c (c, [Calls e]).
Proof. apply (base_call c e (c, [])). constructor. Qed.

Lemma base_calls_derived d c : base_calls c (set_derived d c, []).
Proof. eapply base_derived, base_none. Qed.

Lemma stop_reading c : (stop c).1.(cn_reading) = c.(cn_reading).
Proof. unfold stop, finalize_stop. destruct (cn_stopped c); [done|]. by destruct (on_disconnect _). Qed.

Lemma base_calls_reading c r : base_calls c r -> r.1.(cn_reading) = c.(cn_reading).
Proof.
  induction 1 as [c|c d r Hb IH|c data r Hb IH|c c' o r Hs Hb IH|c e r Hb IH]; cbn; rewrite ?IH; try done.
  - unfold conn_async_send. by destruct (cn_stopped c).
  - pose proof (stop_reading c) as Hr. by rewrite Hs in Hr.
Qed.

Definition accepted outs : list (list Z) := omap (fun o => match o with Accepted b => Some b | _ => None end) outs.
Definition wrote outs : list (list Z) := omap (fun o => match o with Wrote b => Some b | _ => None end) outs.
Definition total (q : list (list Z)) : Z := foldr (fun b n => zlen b + n) 0 q.

Lemma total_app a b : total (a ++ b) = total a + total b.
Proof. unfold total. induction a as [|x a IH]; cbn; [done|]. rewrite IH. lia. Qed.
Lemma total_nonneg q : 0 <= total q.
Proof. induction q as [|x q IH]; [done|]. change (total (x :: q)) with (zlen x + total q). lia. Qed.

Lemma total_tail q : total (tail q) <= total q.
Proof. destruct q as [|x q]; [done|]. change (total (x :: q)) with (zlen x + total q). cbn [tail]. lia. Qed.

(** The queue, its byte count, and the buffers accepted and written so far. *)
Record conn_inv c outs : Prop := mkConnInv {
  ci_queued : c.(cn_queued) = total c.(cn_queue);
  ci_max : c.(cn_queued) <= c.(cn_max);
  ci_prefix : exists rest, accepted outs = wrote outs ++ option_list c.(cn_writing) ++ rest;
  ci_queue : c.(cn_open) = true -> accepted outs = wrote outs ++ c.(cn_queue);
  ci_writing : c.(cn_stopped) = false -> c.(cn_writing) = head c.(cn_queue);
  ci_head b : c.(cn_open) = true -> c.(cn_writing) = Some b -> head c.(cn_queue) = Some b;
  ci_stopped : c.(cn_stopped) = false -> c.(cn_open) = true;
  ci_closed : c.(cn_open) = false -> c.(cn_queue) = [];
  ci_finalizing : c.(cn_finalizing) = true -> c.(cn_stopped) = true;
}.

Lemma calls_silent (es : list E) : accepted (map Calls es) = [] /\ wrote (map Calls es) = [].
Proof. by induction es. Qed.

Lemma accepted_app outs outs' : accepted (outs ++ outs') = accepted outs ++ accepted outs'.
Proof. apply omap_app. Qed.
Lemma wrote_app outs outs' : wrote (outs ++ outs') = wrote outs ++ wrote outs'.
Proof. apply omap_app. Qed.

(** Outputs other than accepted and written buffers do not matter. *)
Lemma conn_inv_silent c outs outs' :
  accepted outs' = [] -> wrote outs' = [] -> conn_inv c outs -> conn_inv c (outs ++ outs').
Proof.
  intros Ha Hw []. split; try done; rewrite ?accepted_app, ?wrote_app, ?Ha, ?Hw, ?app_nil_r; done.
Qed.

(** The invariant depends on the queue, the write under way and the stop flags only. *)
Lemma conn_inv_same c c' outs :
  c'.(cn_queue) = c.(cn_queue) -> c'.(cn_queued) = c.(cn_queued) -> c'.(cn_max) = c.(cn_max) ->
  c'.(cn_writing) = c.(cn_writing) -> c'.(cn_stopped) = c.(cn_stopped) -> c'.(cn_open) = c.(cn_open) ->
  c'.(cn_finalizing) = c.(cn_finalizing) -> conn_inv c outs -> conn_inv c' outs.
Proof. intros E1 E2 E3 E4 E5 E6 E7 []. split; rewrite ?E1, ?E2, ?E3, ?E4, ?E5, ?E6, ?E7; done. Qed.

Lemma finalize_stop_inv c outs : 0 <= c.(cn_max) -> c.(cn_stopped) = true -> conn_inv c outs ->
  conn_inv (finalize_stop c).1 (outs ++ (finalize_stop c).2).
Proof.
  intros Hm Hs Hi. unfold finalize_stop. destruct (on_disconnect (cn_derived c)) as [d calls]. cbn.
  apply conn_inv_silent; [apply calls_silent..|]. destruct Hi. split; cbn; try done; congruence.
Qed.

Lemma conn_stop_inv c outs : 0 <= c.(cn_max) -> conn_inv c outs -> conn_inv (stop c).1 (outs ++ (stop c).2).
Proof.
  intros Hm Hi. unfold stop. destruct (cn_stopped c) eqn:Es; [by rewrite app_nil_r|].
  apply finalize_stop_inv; [done..|]. destruct Hi. split; cbn; try done; congruence.
Qed.

Lemma stop_max c : (stop c).1.(cn_max) = c.(cn_max).
Proof. unfold stop, finalize_stop. destruct (cn_stopped c); [done|]. by destruct (on_disconnect _). Qed.

Lemma async_send_inv data c outs : conn_inv c outs -> conn_inv (conn_async_send data c) outs.
Proof. unfold conn_async_send. destruct (cn_stopped c) eqn:Es; [done|]. by apply conn_inv_same; cbn; rewrite ?Es. Qed.

Lemma base_calls_inv c r outs :
  base_calls c r -> 0 <= c.(cn_max) -> conn_inv c outs -> conn_inv r.1 (outs ++ r.2) /\ r.1.(cn_max) = c.(cn_max).
Proof.
  intros Hb. revert outs. induction Hb as [c|c d r Hb IH|c data r Hb IH|c c' o r Hs Hb IH|c e r Hb IH]; intros outs Hm Hi.
  - by rewrite app_nil_r.
  - destruct (IH outs) as [? Hm']; [done|by eapply conn_inv_same; [..|exact Hi]|done].
  - assert (Hm0 : cn_max (conn_async_send data c) = cn_max c) by (unfold conn_async_send; by destruct (cn_stopped c)).
    destruct (IH outs) as [? Hm']; [by rewrite Hm0|by apply async_send_inv|]. by rewrite Hm', Hm0.
  - pose proof (conn_stop_inv c outs Hm Hi) as Hi'. pose proof (stop_max c) as Hm'. rewrite Hs in Hi', Hm'. cbn in Hi', Hm'.
    destruct (IH (outs ++ o)) as [Hr Hm'']; [by rewrite Hm'|done|]. cbn. rewrite app_assoc, Hm''. done.
  - destruct (IH (outs ++ [Calls e])) as [Hr Hm']; [done|by apply conn_inv_silent|]. cbn.
    by rewrite <- app_assoc in Hr.
Qed.

Lemma do_write_max c : (conn_do_write c).(cn_max) = c.(cn_max).
Proof. unfold conn_do_write. by destruct (cn_queue c). Qed.

Lemma conn_do_write_inv c outs :
  c.(cn_writing) = None -> c.(cn_queued) = total c.(cn_queue) -> c.(cn_queued) <= c.(cn_max) ->
  (c.(cn_open) = true -> accepted outs = wrote outs ++ c.(cn_queue)) ->
  (c.(cn_stopped) = false -> c.(cn_open) = true) -> (c.(cn_open) = false -> c.(cn_queue) = []) ->
  (c.(cn_finalizing) = true -> c.(cn_stopped) = true) ->
  (exists rest, accepted outs = wrote outs ++ rest) ->
  conn_inv (conn_do_write c) outs.
Proof.
  intros Hw Hq Hm Ha Hs Hc Hf Hp. unfold conn_do_write. destruct (cn_queue c) as [|b q] eqn:Eq.
  - split; rewrite ?Hw, ?Eq; cbn; try done; by rewrite Hq.
  - assert (Ho : cn_open c = true) by (destruct (cn_open c); [done|by specialize (Hc eq_refl)]).
    split; cbn; try done; try congruence. exists q. by apply Ha.
Qed.

Lemma send_posted_inv data c outs :
  0 < c.(cn_max) < 2 ^ 64 -> conn_inv c outs -> conn_inv (send_posted data c).1 (outs ++ (send_posted data c).2).
Proof.
  intros Hm Hi. unfold send_posted. destruct (cn_stopped c) eqn:Es; [by rewrite app_nil_r|].
  destruct (Z.ltb_spec 0 (cn_max c)); [|lia]. cbn [andb].
  destruct (Z.ltb_spec (cn_max c - Z.min (cn_max c) (cn_queued c)) (zlen data)) as [|Hfit]; [apply conn_stop_inv; [lia|done]|].
  pose proof Hi as Hi0. destruct Hi as [Hq Hmx Hp Ha Hw Hh Hs Hc Hf]. pose proof (total_nonneg (cn_queue c)).
  assert (Hzl : 0 <= zlen data) by lia.
  assert (Hu : u64 (cn_queued c + zlen data) = cn_queued c + zlen data) by (apply wrap_id; unfold fits; lia).
  assert (Ht : u64 (cn_queued c + zlen data) = total (cn_queue c ++ [data])).
  { rewrite Hu, total_app, Hq. cbn. lia. }
  specialize (Hs Es). specialize (Ha Hs). specialize (Hw Es).
  case_bool_decide as Eq; cbn [fst snd].
  - apply conn_do_write_inv; cbn; rewrite ?accepted_app, ?wrote_app, ?Ha, ?Eq; cbn; try done.
    + rewrite Hw, Eq. done.
    + by rewrite Ht, Eq.
    + lia.
    + congruence.
    + by exists [data].
  - destruct (cn_queue c) as [|b q] eqn:Eqq; [done|].
    split; cbn; rewrite ?accepted_app, ?wrote_app, ?Ha; cbn; try done; try congruence.
    + lia.
    + exists (q ++ [data]). rewrite Hw. cbn. by rewrite app_nil_r, <- app_assoc.
    + intros _. by rewrite app_nil_r, <- app_assoc.
Qed.

Lemma handle_write_inv b ok c outs :
  0 <= c.(cn_max) -> c.(cn_writing) = Some b -> conn_inv c outs ->
  let r := handle_write (if ok : bool then Some b else None) c in conn_inv r.1 (outs ++ r.2).
Proof.
  intros Hm Hb [Hq Hmx Hp Ha Hw Hh Hs Hc Hf]. unfold handle_write. destruct ok; cbn [fst snd].
  - pose proof (total_nonneg (cn_queue c)). assert (Hzl : 0 <= zlen b) by lia.
    assert (Hqt : (if zlen b <=? cn_queued c then cn_queued c - zlen b else 0) = total (tail (cn_queue c))).
    { destruct (cn_open c) eqn:Eo.
      - specialize (Hh b eq_refl Hb). destruct (cn_queue c) as [|x q]; [done|]. injection Hh as ->.
        change (total (b :: q)) with (zlen b + total q) in *. cbn [tail]. pose proof (total_nonneg q). destruct (Z.leb_spec (zlen b) (cn_queued c)); lia.
      - rewrite Hc in * by done. cbn in *. destruct (Z.leb_spec (zlen b) (cn_queued c)); lia. }
    apply conn_do_write_inv; cbn; rewrite ?accepted_app, ?wrote_app; cbn; try done.
    + rewrite Hqt. pose proof (total_tail (cn_queue c)). lia.
    + intros Ho. specialize (Hh b Ho Hb). rewrite Ha by done. destruct (cn_queue c); [done|]. injection Hh as ->.
      by rewrite app_nil_r, <- app_assoc.
    + intros Ho. by rewrite Hc by done.
    + destruct Hp as [rest Hp]. exists rest. rewrite Hp, Hb. cbn. by rewrite app_nil_r, <- app_assoc.
  - unfold stop. cbn [cn_stopped set_writes]. destruct (cn_stopped c) eqn:Es.
    + cbn. rewrite app_nil_r. split; cbn; try done; try congruence.
      destruct Hp as [rest Hp]. rewrite Hb in Hp. by exists (b :: rest).
    + apply finalize_stop_inv; [done|done|]. split; cbn; try done; try congruence.
      destruct Hp as [rest Hp]. rewrite Hb in Hp. by exists (b :: rest).
Qed.

Context `{!HandlersOk}.

Lemma handle_read_inv i data c outs r :
  0 <= c.(cn_max) -> conn_inv c outs -> handle_read i data c = Some r ->
  conn_inv r.1 (outs ++ r.2) /\ r.1.(cn_max) = c.(cn_max).
Proof.
  intros Hm Hi. unfold handle_read.
  assert (Hi' : conn_inv (set_reading None c) outs) by (by eapply conn_inv_same; [..|exact Hi]).
  destruct data as [data|]; [|by intros [= <-]; split; [apply conn_stop_inv|rewrite stop_max]].
  set (c0 := set_reading None c) in *. assert (Hm0 : cn_max c0 = cn_max c) by done. clearbody c0.
  intros ([c1 o] & Hr & Heq)%bind_Some. injection Heq as <-.
  assert (H1 : conn_inv c1 (outs ++ o) /\ cn_max c1 = cn_max c).
  { destruct (0 <? zlen data); [|injection Hr as <- <-; by rewrite app_nil_r].
    apply on_read_base in Hr. rewrite <- Hm0 in *. by apply (base_calls_inv c0 (c1, o)). }
  destruct H1 as [H1 Hm1]. cbn. destruct (cn_stopped c1) eqn:Es; [done|].
  split; [|done]. by eapply conn_inv_same; [..|exact H1].
Qed.

Lemma conn_step_inv ev c outs r :
  0 < c.(cn_max) < 2 ^ 64 -> conn_inv c outs -> conn_step ev c = Some r ->
  conn_inv r.1 (outs ++ r.2) /\ r.1.(cn_max) = c.(cn_max).
Proof.
  intros Hm Hi. destruct ev as [i|i data| |ok| | |data]; cbn.
  - intros [= <-]. unfold conn_start. destruct (cn_stopped c) eqn:Es; [by rewrite app_nil_r|].
    pose proof (base_calls_inv c _ outs (on_connect_base i c)) as Hb.
    destruct (on_connect i c) as [c1 o]. destruct Hb as [Hb Hm1]; [lia|done|].
    split; [|done]. by eapply conn_inv_same; [..|exact Hb].
  - intros (b & _ & Hr)%bind_Some. destruct (from_option _ _ _); [done|]. eapply handle_read_inv; [lia|done..].
  - destruct (cn_posted c) as [|data rest]; [done|]. intros [= <-]. split.
    + apply send_posted_inv; [done|]. by eapply conn_inv_same; [..|exact Hi].
    + unfold send_posted. cbn. destruct (cn_stopped c); [done|].
      destruct ((0 <? cn_max c) && _); [by rewrite stop_max|]. case_bool_decide; [by cbn; rewrite do_write_max|done].
  - intros (b & Hb & Hr)%bind_Some. injection Hr as <-. split; [apply handle_write_inv; [lia|done..]|].
    unfold handle_write. destruct ok; [by cbn; rewrite do_write_max|by rewrite stop_max].
  - intros [= <-]. rewrite app_nil_r. unfold stop_outside. destruct (cn_stopped c) eqn:Es; [done|].
    split; [|done]. destruct Hi. split; cbn; try done.
  - destruct (cn_finalizing c) eqn:Ef; [|done]. intros [= <-]. split.
    + apply finalize_stop_inv; [lia|by apply (ci_finalizing _ _ Hi)|done].
    + unfold finalize_stop. by destruct (on_disconnect _).
  - intros [= <-]. rewrite app_nil_r. split; [by apply async_send_inv|].
    unfold conn_async_send. by destruct (cn_stopped c).
Qed.

Lemma conn_run_inv evs c outs r :
  0 < c.(cn_max) < 2 ^ 64 -> conn_inv c outs -> conn_run evs (c, outs) = Some r ->
  conn_inv r.1 r.2 /\ r.1.(cn_max) = c.(cn_max).
Proof.
  revert c outs. induction evs as [|ev evs IH]; intros c outs Hm Hi; cbn; [by intros [= <-]|].
  intros ([c1 o] & Hs & Hr)%bind_Some. destruct (conn_step_inv _ _ _ _ Hm Hi Hs) as [Hi1 Hm1]. cbn in *.
  destruct (IH c1 (outs ++ o)) as [? Hm2]; [by rewrite Hm1|done|done|]. by rewrite Hm2, Hm1.
Qed.

(** The send queue: whatever the order of completions, sends and stops, the
    buffers written to the socket are a prefix of those accepted, in order; until the
    connection is finalized the rest of them is exactly the queue; the byte count is that of
    the queue and never exceeds the budget; and a running connection writes the head of its
    queue, exactly one write at a time. *)
Theorem connection_fifo max d evs c outs :
  0 < max < 2 ^ 64 -> conn_run evs (new_Connection max d, []) = Some (c, outs) ->
  (exists rest, accepted outs = wrote outs ++ rest)
  /\ (c.(cn_open) = true -> accepted outs = wrote outs ++ c.(cn_queue))
  /\ c.(cn_queued) = total c.(cn_queue) /\ total c.(cn_queue) <= max
  /\ (c.(cn_stopped) = false -> c.(cn_writing) = head c.(cn_queue)).
Proof.
  intros Hm Hr. apply (conn_run_inv _ _ _ _) in Hr as [[Hq Hmx Hp Ha Hw Hh Hs Hc Hf] Hm']; [|done|].
  - cbn in *. split_and!; [|done|done|by rewrite <- Hq, <- Hm'|done]. destruct Hp as [rest Hp]. eauto.
  - split; cbn; try done; [lia|by exists []].
Qed.

End connection_props.

#[global] Arguments HandlersOk D E I {_ _}.
#[export] Hint Resolve base_none base_calls_stop base_calls_call base_calls_derived : conn.
