(* ===== verification/BackendConnection.v ===== *)
(** The gateway's connection to a backend: [GatewayApp::BackendConnection] of
    [gateway/src/gateway_app.cpp].

    The asynchronous operations under way are a list; each waits, or has finished with a
    result its handler has not seen yet, or was aborted.  Cancelling touches the operations
    that still wait only: a timer that has expired, or a connect that has succeeded, still
    reports that to its handler.  [Finish] is the outside world finishing an operation,
    [Run] the event loop running the handler of a finished one.  The gateway runs one event
    loop, so a handler is one step.  The retry budget and the circuit breaker are those of
    [Resilience.v], shared through [App]. *)

From S2P Require Import Prelude Resilience.

Record App := mkApp {
  backend_retry_budget_ : RetryBudget;
  backend_circuit_breaker_ : CircuitBreaker;
}.

Inductive op_kind :=
| OpResolve
| OpConnect
| OpConnectTimer
| OpRetryTimer
| OpWrite (msg : list Z)
| OpRead.
#[export] Instance op_kind_eq_dec : EqDecision op_kind.
Proof. solve_decision. Defined.

Inductive op_status :=
| Waiting
| Finished (ok : bool) (data : list Z)
| Aborted.

Definition op : Type := op_kind * op_status.

Record BackendConnection := mkBackend {
  bc_closed : bool;
  bc_connected : bool;
  bc_writing : bool;             (** [write_in_progress_] *)
  bc_queue : list (list Z);      (** [write_queue_] *)
  bc_queued : Z;                 (** [queued_bytes_] *)
  bc_max : Z;                    (** [send_queue_max_bytes_] *)
  bc_attempt : Z;                (** [retry_attempt_] *)
  bc_ops : list op;
}.

Definition kDefaultBackendSendQueueMaxBytes : Z := 256 * 1024.

Definition new_BackendConnection (send_queue_max_bytes : Z) : BackendConnection :=
  mkBackend false false false [] 0
    (if 0 <? send_queue_max_bytes then send_queue_max_bytes else kDefaultBackendSendQueueMaxBytes) 0 [].

Inductive bc_out :=
| Counted (what : string)                 (** a counter of the gateway *)
| Scheduled (delay_ms : Z)                (** a retry *)
| Connected                               (** [on_backend_connected] *)
| ToClient (data : list Z)                (** [handle_backend_payload] *)
| ClientClose (reason : string)           (** [handle_backend_close] *)
| Queued (msg : list Z)
| Written (msg : list Z).

Section backend.
  (** [backend_connect_retry_backoff_ms_] and [backend_connect_retry_backoff_max_ms_]. *)
  Context (backoff_ms backoff_max_ms : Z).

Definition st : Type := App * BackendConnection * list bc_out.
Implicit Type b : BackendConnection.

Definition emit (o : bc_out) (s : st) : st := (s.1, s.2 ++ [o]).

Definition backend_retry_delay (attempt : Z) : Z :=
  let capped_attempt := Z.min attempt 8 in
  let factor := Z.shiftl 1 (if capped_attempt =? 0 then 0 else capped_attempt - 1) in
  Z.min (u64 (backoff_ms * factor)) backoff_max_ms.

Definition record_backend_connect_failure_event (now : Z) (s : st) : st :=
  let '(a, b, outs) := s in
  let '(breaker, opened) := record_failure now a.(backend_circuit_breaker_) in
  (mkApp a.(backend_retry_budget_) breaker, b,
   outs ++ if opened then [Counted "backend_circuit_open_total"] else []).

Definition record_backend_connect_success_event (s : st) : st :=
  let '(a, b, outs) := s in
  (mkApp a.(backend_retry_budget_) (record_success a.(backend_circuit_breaker_)), b, outs).

(** ** Operations under way *)

Definition with_ops (f : list op -> list op) b : BackendConnection :=
  mkBackend b.(bc_closed) b.(bc_connected) b.(bc_writing) b.(bc_queue) b.(bc_queued) b.(bc_max) b.(bc_attempt)
    (f b.(bc_ops)).

Definition on_socket (k : op_kind) : bool :=
  match k with OpConnect | OpWrite _ | OpRead => true | _ => false end.

(** Aborts the waiting operations that satisfy [p]. *)
Definition abort (p : op_kind -> bool) : list op -> list op :=
  map (fun o => match o with (k, Waiting) => if p k then (k, Aborted) else o | _ => o end).

Definition cancel_timer (k : op_kind) b : BackendConnection :=
  with_ops (abort (fun k' => bool_decide (k' = k))) b.
Definition begin (k : op_kind) b : BackendConnection := with_ops (fun ops => ops ++ [(k, Waiting)]) b.
(** [expires_after] and [async_wait]. *)
Definition arm (k : op_kind) b : BackendConnection := begin k (cancel_timer k b).

Definition set_flags (connected writing : bool) b : BackendConnection :=
  mkBackend b.(bc_closed) connected writing b.(bc_queue) b.(bc_queued) b.(bc_max) b.(bc_attempt) b.(bc_ops).
Definition set_attempt (n : Z) b : BackendConnection :=
  mkBackend b.(bc_closed) b.(bc_connected) b.(bc_writing) b.(bc_queue) b.(bc_queued) b.(bc_max) n b.(bc_ops).
Definition set_queue (q : list (list Z)) (queued : Z) b : BackendConnection :=
  mkBackend b.(bc_closed) b.(bc_connected) b.(bc_writing) q queued b.(bc_max) b.(bc_attempt) b.(bc_ops).

Definition close_socket_for_retry b : BackendConnection :=
  set_flags false false (with_ops (abort on_socket) b).

Definition bc_close b : BackendConnection :=
  if b.(bc_closed) then b
  else
    let b := cancel_timer OpRetryTimer (cancel_timer OpConnectTimer b) in
    with_ops (abort on_socket)
      (mkBackend true false false [] 0 b.(bc_max) b.(bc_attempt) b.(bc_ops)).

(** The client is told, or, when it is gone, the connection closes by itself. *)
Definition report_close (alive : bool) (reason : string) (s : st) : st :=
  let '(a, b, outs) := s in
  if alive then (a, b, outs ++ [ClientClose reason]) else (a, bc_close b, outs).

(** ** Connecting *)

Definition bc_do_connect b : BackendConnection := begin OpResolve (close_socket_for_retry b).

(** [connect]. *)
Definition bc_connect b : BackendConnection :=
  if b.(bc_closed) then b else bc_do_connect (set_attempt 0 b).

Definition schedule_connect_retry (now : Z) (s : st) : st * bool :=
  let '(a, b, outs) := s in
  let '(budget, granted) := retry_consume now a.(backend_retry_budget_) in
  let a := mkApp budget a.(backend_circuit_breaker_) in
  if negb granted then ((a, b, outs ++ [Counted "backend_retry_budget_exhausted_total"]), false)
  else
    let b := set_attempt (u32 (b.(bc_attempt) + 1)) b in
    ((a, arm OpRetryTimer (close_socket_for_retry b),
      outs ++ [Counted "backend_connect_retry_total"; Scheduled (backend_retry_delay b.(bc_attempt))]), true).

(** What follows a failed attempt, whatever failed. *)
Definition attempt_failed (now : Z) (alive : bool) (counter reason : string) (s : st) : st :=
  let s := record_backend_connect_failure_event now (emit (Counted counter) s) in
  let '(s, scheduled) := schedule_connect_retry now s in
  if scheduled then s else report_close alive reason s.

Definition bc_do_write b : BackendConnection :=
  match b.(bc_queue) with
  | [] => set_flags b.(bc_connected) false b
  | msg :: _ => begin (OpWrite msg) (set_flags b.(bc_connected) true b)
  end.

Definition on_resolved (now : Z) (alive : bool) (r : op_status) (s : st) : st :=
  let '(a, b, outs) := s in
  if b.(bc_closed) then s
  else match r with
       | Finished true _ => (a, begin OpConnect (arm OpConnectTimer b), outs)
       | _ => attempt_failed now alive "backend_resolve_fail_total" "resolve failed" s
       end.

Definition on_connected (now : Z) (alive : bool) (r : op_status) (s : st) : st :=
  let '(a, b, outs) := s in
  let b := cancel_timer OpConnectTimer b in
  if b.(bc_closed) then (a, b, outs)
  else match r with
       | Finished true _ =>
           let b := set_attempt 0 (set_flags true b.(bc_writing) b) in
           let b := if bool_decide (b.(bc_queue) = []) then b else bc_do_write b in
           let b := begin OpRead (cancel_timer OpRetryTimer b) in
           emit Connected (record_backend_connect_success_event (a, b, outs))
       | _ => attempt_failed now alive "backend_connect_fail_total" "connect failed" (a, b, outs)
       end.

Definition on_connect_timeout (now : Z) (alive : bool) (r : op_status) (s : st) : st :=
  match r with
  | Finished _ _ =>
      if (s.1.2).(bc_closed) then s
      else attempt_failed now alive "backend_connect_timeout_total" "connect timeout" s
  | _ => s
  end.

Definition on_retry_timer (r : op_status) (s : st) : st :=
  let '(a, b, outs) := s in
  match r with
  | Finished _ _ => if b.(bc_closed) then s else (a, bc_do_connect b, outs)
  | _ => s
  end.

(** ** Sending and receiving *)

(** Both overloads of [send]. *)
Definition bc_send (alive : bool) (payload : list Z) (s : st) : st :=
  let '(a, b, outs) := s in
  if bool_decide (payload = []) || b.(bc_closed) then s
  else if exceeds_queue_budget b.(bc_max) b.(bc_queued) (zlen payload)
  then report_close alive "backend send queue overflow" (emit (Counted "backend_send_queue_overflow_total") s)
  else
    let b := set_queue (b.(bc_queue) ++ [payload]) (u64 (b.(bc_queued) + zlen payload)) b in
    (a, (if b.(bc_connected) && negb b.(bc_writing) then bc_do_write b else b), outs ++ [Queued payload]).

Definition on_written (alive : bool) (msg : list Z) (r : op_status) (s : st) : st :=
  let '(a, b, outs) := s in
  match r with
  | Finished ok _ =>
      if b.(bc_closed) then s
      else if negb ok then report_close alive "backend write failed" (emit (Counted "backend_write_error_total") s)
      else
        let b := if bool_decide (b.(bc_queue) = []) then b
                 else set_queue (tail b.(bc_queue))
                        (if zlen msg <=? b.(bc_queued) then b.(bc_queued) - zlen msg else 0) b in
        (a, (if bool_decide (b.(bc_queue) = []) then set_flags b.(bc_connected) false b else bc_do_write b),
         outs ++ [Written msg])
  | _ => s
  end.

(** [on_read]. *)
Definition bc_on_read (alive : bool) (r : op_status) (s : st) : st :=
  let '(a, b, outs) := s in
  match r with
  | Finished true data =>
      if 0 <? zlen data then (a, begin OpRead b, outs ++ if alive then [ToClient data] else [])
      else s
  | Finished false _ => (a, bc_close b, outs ++ if alive then [ClientClose "read error"] else [])
  | _ => s
  end.

(** ** Events *)

Inductive bc_event :=
| Connect
| Send (payload : list Z)
| Close
| Finish (i : nat) (ok : bool) (data : list Z)
| Run (i : nat).

Definition run_handler (now : Z) (alive : bool) (k : op_kind) (r : op_status) (s : st) : st :=
  match k with
  | OpResolve => on_resolved now alive r s
  | OpConnect => on_connected now alive r s
  | OpConnectTimer => on_connect_timeout now alive r s
  | OpRetryTimer => on_retry_timer r s
  | OpWrite msg => on_written alive msg r s
  | OpRead => bc_on_read alive r s
  end.

(** [now] is the clock, [alive] whether the client's connection still exists. *)
Definition bc_step (now : Z) (alive : bool) (ev : bc_event) (s : st) : option st :=
  let '(a, b, outs) := s in
  match ev with
  | Connect => Some (a, bc_connect b, outs)
  | Send payload => Some (bc_send alive payload s)
  | Close => Some (a, bc_close b, outs)
  | Finish i ok data =>
      o ← b.(bc_ops) !! i;
      match o with
      | (k, Waiting) => Some (a, with_ops (fun ops => <[i := (k, Finished ok data)]> ops) b, outs)
      | _ => None
      end
  | Run i =>
      o ← b.(bc_ops) !! i;
      match o with
      | (_, Waiting) => None
      | (k, r) => Some (run_handler now alive k r (a, with_ops (delete i) b, outs))
      end
  end.

Fixpoint bc_run (evs : list (Z * bool * bc_event)) (s : st) : option st :=
  match evs with
  | [] => Some s
  | (now, alive, ev) :: rest => s ← bc_step now alive ev s; bc_run rest s
  end.

(** ** The order of the bytes

    The properties are about runs without a failed or late attempt to connect: names resolve,
    the connect succeeds, and the timers do not expire.  Writes and reads may fail, the
    client may go away, and everything may happen in any order. *)

Definition is_timer (k : op_kind) : bool := match k with OpConnectTimer | OpRetryTimer => true | _ => false end.
Definition is_setup (k : op_kind) : bool := match k with OpResolve | OpConnect => true | _ => false end.

Definition smooth_event (ev : bc_event) b : bool :=
  match ev with
  | Connect => false
  | Finish i ok _ =>
      match b.(bc_ops) !! i with
      | Some (k, _) => negb (is_timer k) && (negb (is_setup k) || ok)
      | None => true
      end
  | _ => true
  end.

Fixpoint smooth (evs : list (Z * bool * bc_event)) (s : st) : bool :=
  match evs with
  | [] => true
  | (now, alive, ev) :: rest =>
      smooth_event ev s.1.2 && from_option (smooth rest) true (bc_step now alive ev s)
  end.

Definition queued_log (outs : list bc_out) : list (list Z) :=
  omap (fun o => match o with Queued m => Some m | _ => None end) outs.
Definition written_log (outs : list bc_out) : list (list Z) :=
  omap (fun o => match o with Written m => Some m | _ => None end) outs.
Definition bc_bytes (q : list (list Z)) : Z := foldr (fun m n => zlen m + n) 0 q.

Lemma bc_bytes_app q q' : bc_bytes (q ++ q') = bc_bytes q + bc_bytes q'.
Proof. unfold bc_bytes. induction q as [|x q IH]; cbn; [done|]. rewrite IH. lia. Qed.
Lemma bc_bytes_cons m q : bc_bytes (m :: q) = zlen m + bc_bytes q.
Proof. done. Qed.
Lemma bc_bytes_nonneg q : 0 <= bc_bytes q.
Proof. induction q as [|x q IH]; [done|]. rewrite bc_bytes_cons. lia. Qed.

(** The writes, the connection attempts and the expired timers among the operations. *)
Definition writes (ops : list op) : list (list Z) :=
  omap (fun o : op => match o.1 with OpWrite m => Some m | _ => None end) ops.
Definition setups (ops : list op) : list op_status :=
  omap (fun o : op => if is_setup o.1 then Some o.2 else None) ops.
Definition expired (ops : list op) : list op_kind :=
  omap (fun o : op => match o with (k, Finished _ _) => if is_timer k then Some k else None | _ => None end) ops.

#[local] Arguments writes : simpl never.
#[local] Arguments setups : simpl never.
#[local] Arguments expired : simpl never.
#[local] Arguments queued_log : simpl never.
#[local] Arguments written_log : simpl never.

Lemma writes_app l k : writes (l ++ k) = writes l ++ writes k.
Proof. apply omap_app. Qed.
Lemma setups_app l k : setups (l ++ k) = setups l ++ setups k.
Proof. apply omap_app. Qed.
Lemma expired_app l k : expired (l ++ k) = expired l ++ expired k.
Proof. apply omap_app. Qed.

Definition on_track (r : op_status) : bool :=
  match r with Waiting | Finished true _ => true | _ => false end.

Record bc_inv b (outs : list bc_out) : Prop := mkBcInv {
  bi_log : queued_log outs = written_log outs ++ b.(bc_queue);
  bi_queued : b.(bc_queued) = bc_bytes b.(bc_queue);
  bi_max : b.(bc_queued) <= b.(bc_max);
  bi_writes : writes b.(bc_ops) = []
              \/ (exists m q, writes b.(bc_ops) = [m] /\ b.(bc_queue) = m :: q /\ b.(bc_writing) = true);
  bi_writing : b.(bc_writing) = true -> b.(bc_connected) = true;
  bi_setups : if b.(bc_connected) then setups b.(bc_ops) = [] else (length (setups b.(bc_ops)) <= 1)%nat;
  bi_track : Forall (fun r => on_track r = true) (setups b.(bc_ops));
  bi_expired : expired b.(bc_ops) = [];
}.

(** An open connection satisfies the invariant; a closed one has written a prefix. *)
Definition bc_ok (s : st) : Prop :=
  let '(a, b, outs) := s in
  if b.(bc_closed) then exists rest, queued_log outs = written_log outs ++ rest else bc_inv b outs.

(** *** Operations on the list *)

Lemma queued_log_app l k : queued_log (l ++ k) = queued_log l ++ queued_log k.
Proof. apply omap_app. Qed.
Lemma written_log_app l k : written_log (l ++ k) = written_log l ++ written_log k.
Proof. apply omap_app. Qed.

Lemma writes_abort p ops : writes (abort p ops) = writes ops.
Proof.
  induction ops as [|[k r] ops IH]; [done|]. unfold writes in *. cbn. destruct r; [destruct (p k)|..]; cbn; by rewrite IH.
Qed.

Lemma setups_abort_timer k ops : is_timer k = true -> setups (abort (fun k' => bool_decide (k' = k)) ops) = setups ops.
Proof.
  intros Hk. induction ops as [|[k' r] ops IH]; [done|]. unfold setups in *. cbn.
  destruct r; [case_bool_decide as E; [subst k'; destruct k; done|]|..]; cbn; by rewrite IH.
Qed.

Lemma expired_abort p ops : expired (abort p ops) = expired ops.
Proof.
  induction ops as [|[k r] ops IH]; [done|]. unfold expired in *. cbn. destruct r; [destruct (p k)|..]; cbn; by rewrite IH.
Qed.

(** The invariant is about these views of the operations only. *)
Lemma bc_inv_ops b b' outs outs' :
  bc_inv b outs ->
  b' = mkBackend b'.(bc_closed) b.(bc_connected) b.(bc_writing) b.(bc_queue) b.(bc_queued) b.(bc_max) b'.(bc_attempt) b'.(bc_ops) ->
  queued_log outs' = queued_log outs -> written_log outs' = written_log outs ->
  writes b'.(bc_ops) = writes b.(bc_ops) -> setups b'.(bc_ops) = setups b.(bc_ops) ->
  expired b'.(bc_ops) = expired b.(bc_ops) -> bc_inv b' outs'.
Proof.
  intros [] -> H1 H2. cbn. intros H3 H4 H5. split; cbn; rewrite ?H1, ?H2, ?H3, ?H4, ?H5; done.
Qed.

Lemma bc_inv_timer k b outs : is_timer k = true -> bc_inv b outs -> bc_inv (cancel_timer k b) outs.
Proof.
  intros Hk Hi. eapply bc_inv_ops; [exact Hi|done..| | |]; cbn; [apply writes_abort|by apply setups_abort_timer|apply expired_abort].
Qed.

Lemma bc_inv_arm k b outs : is_timer k = true -> bc_inv b outs -> bc_inv (arm k b) outs.
Proof.
  intros Hk Hi. apply (bc_inv_timer k) in Hi; [|done]. unfold arm. set (b1 := cancel_timer k b) in *. clearbody b1.
  eapply bc_inv_ops; [exact Hi|done..| | |]; cbn; rewrite ?writes_app, ?setups_app, ?expired_app; destruct k; try done; apply app_nil_r.
Qed.

Lemma do_write_closed b : (bc_do_write b).(bc_closed) = b.(bc_closed).
Proof. unfold bc_do_write. by destruct (bc_queue b). Qed.

Lemma do_write_ok b outs :
  queued_log outs = written_log outs ++ b.(bc_queue) -> b.(bc_queued) = bc_bytes b.(bc_queue) ->
  b.(bc_queued) <= b.(bc_max) -> writes b.(bc_ops) = [] -> b.(bc_connected) = true -> setups b.(bc_ops) = [] ->
  expired b.(bc_ops) = [] -> bc_inv (bc_do_write b) outs.
Proof.
  intros Hl Hq Hm Hw Hc Hs He. unfold bc_do_write. destruct (bc_queue b) as [|m q] eqn:Eq.
  - split; cbn; rewrite ?Eq, ?Hc, ?Hs; try done; by left.
  - split; cbn; rewrite ?writes_app, ?setups_app, ?expired_app, ?Hw, ?Hc, ?Hs, ?He, ?Eq; try done. right. by exists m, q.
Qed.

(** *** Handlers *)

Lemma bc_close_closed b : (bc_close b).(bc_closed) = true.
Proof. unfold bc_close. destruct (bc_closed b) eqn:E; done. Qed.

Definition logs_same (outs outs' : list bc_out) : Prop :=
  queued_log outs' = queued_log outs /\ written_log outs' = written_log outs.

Lemma logs_same_app outs o : queued_log o = [] -> written_log o = [] -> logs_same outs (outs ++ o).
Proof. intros H1 H2. split; by rewrite ?queued_log_app, ?written_log_app, ?H1, ?H2, app_nil_r. Qed.

(** A closed connection stays closed and neither queues nor writes. *)
Lemma closed_step now alive ev s s' :
  (s.1.2).(bc_closed) = true -> bc_step now alive ev s = Some s' ->
  (s'.1.2).(bc_closed) = true /\ logs_same s.2 s'.2.
Proof.
  destruct s as [[a b] outs]. cbn. intros Hc. destruct ev as [|payload| |i ok data|i]; cbn.
  - intros [= <-]. unfold bc_connect. by rewrite Hc.
  - intros [= <-]. unfold bc_send. rewrite Hc, orb_true_r. done.
  - intros [= <-]. unfold bc_close. by rewrite Hc.
  - intros ([k r] & _ & Hr)%bind_Some. destruct r; [|done..]. by injection Hr as <-.
  - intros ([k r] & _ & Hr)%bind_Some. destruct r as [|ok data|]; [done|..]; injection Hr as <-; destruct k; cbn; rewrite ?Hc; try done.
    destruct ok.
    + destruct (0 <? zlen data); [|done]. split; [done|]. destruct alive; [by apply logs_same_app|by rewrite app_nil_r].
    + split; [apply bc_close_closed|]. destruct alive; [by apply logs_same_app|by rewrite app_nil_r].
Qed.

Lemma report_close_ok alive reason s : bc_ok s -> bc_ok (report_close alive reason s).
Proof.
  destruct s as [[a b] outs]. cbn. destruct (bc_closed b) eqn:Ec; intros Hi.
  - destruct alive; cbn; [rewrite Ec|rewrite bc_close_closed]; [|done].
    destruct (logs_same_app outs [ClientClose reason]) as [-> ->]; done.
  - destruct alive; cbn.
    + rewrite Ec. destruct (logs_same_app outs [ClientClose reason]) as [H1 H2]; [done..|].
      eapply bc_inv_ops; [exact Hi|by destruct b|done..].
    + rewrite bc_close_closed. exists (bc_queue b). apply Hi.
Qed.

Lemma emit_ok o s : queued_log [o] = [] -> written_log [o] = [] -> bc_ok s -> bc_ok (emit o s).
Proof.
  destruct s as [[a b] outs]. intros Hq Hw. cbn. destruct (logs_same_app outs [o] Hq Hw) as [H1 H2].
  destruct (bc_closed b); [by rewrite H1, H2|]. intros Hi. eapply bc_inv_ops; [exact Hi|by destruct b|done..].
Qed.

Lemma bc_send_ok alive payload s : 0 < (s.1.2).(bc_max) < 2 ^ 64 -> bc_ok s -> bc_ok (bc_send alive payload s).
Proof.
  intros Hmax Hok. unfold bc_send. destruct s as [[a b] outs] eqn:Es. rewrite <- Es in *.
  destruct (bool_decide (payload = []) || bc_closed b) eqn:E0; [done|]. apply orb_false_iff in E0 as [_ Hc].
  destruct (exceeds_queue_budget _ _ _) eqn:Ex; [by apply report_close_ok, emit_ok|].
  subst s. cbn in Hok, Hmax. rewrite Hc in Hok. destruct Hok as [Hl Hq Hm Hw Hwc Hs Ht He].
  pose proof (bc_bytes_nonneg (bc_queue b)).
  assert (Hfit : bc_queued b + zlen payload <= bc_max b).
  { unfold exceeds_queue_budget in Ex. destruct (Z.eqb_spec (bc_max b) 0); [lia|].
    destruct (Z.ltb_spec (bc_max b) (zlen payload)); [done|]. rewrite wrap_id in Ex by (unfold fits; lia).
    apply Z.ltb_ge in Ex. lia. }
  rewrite (wrap_id 64) by (unfold fits; lia).
  assert (Hlog : queued_log (outs ++ [Queued payload]) = written_log (outs ++ [Queued payload]) ++ bc_queue b ++ [payload]).
  { rewrite queued_log_app, written_log_app, Hl. cbn. by rewrite app_nil_r, <- app_assoc. }
  assert (Ht' : bc_queued b + zlen payload = bc_bytes (bc_queue b ++ [payload])).
  { rewrite bc_bytes_app, Hq. cbn. lia. }
  cbn [set_queue bc_connected bc_writing]. destruct (bc_connected b && negb (bc_writing b)) eqn:Ew; cbn.
  - apply andb_true_iff in Ew as [Hcn Hnw%negb_true_iff]. rewrite Hcn in Hs.
    rewrite do_write_closed. cbn. rewrite Hc.
    apply do_write_ok; cbn; try done.
    + destruct Hw as [Hw|(m & q & _ & _ & Hw)]; [done|congruence].
  - rewrite Hc. split; cbn; try done.
    destruct Hw as [Hw|(m & q & Hw & Hqq & Hww)]; [by left|right]. exists m, (q ++ [payload]). by rewrite Hqq.
Qed.

Lemma written_ok alive msg r s :
  (s.1.2).(bc_closed) = false -> queued_log s.2 = written_log s.2 ++ (s.1.2).(bc_queue) ->
  (s.1.2).(bc_queued) = bc_bytes (s.1.2).(bc_queue) -> (s.1.2).(bc_queued) <= (s.1.2).(bc_max) ->
  writes (s.1.2).(bc_ops) = [] -> (exists q, (s.1.2).(bc_queue) = msg :: q) -> (s.1.2).(bc_writing) = true ->
  (s.1.2).(bc_connected) = true -> setups (s.1.2).(bc_ops) = [] -> expired (s.1.2).(bc_ops) = [] ->
  bc_ok (on_written alive msg r s).
Proof.
  destruct s as [[a b] outs]. cbn [fst snd]. intros Hc Hl Hq Hm Hw [q Hqq] Hww Hcn Hs He. unfold on_written.
  assert (Hi : bc_ok (a, b, outs)).
  { cbn. rewrite Hc. split; rewrite ?Hcn, ?Hs; try done. by left. }
  destruct r as [|ok data|]; [done| |done]. rewrite Hc. destruct ok; [|by apply report_close_ok, emit_ok].
  cbn [negb]. rewrite (bool_decide_false (bc_queue b = [])) by (by rewrite Hqq).
  rewrite Hqq, bc_bytes_cons in Hq. pose proof (bc_bytes_nonneg q).
  assert (Hqt : (if zlen msg <=? bc_queued b then bc_queued b - zlen msg else 0) = bc_bytes q).
  { destruct (Z.leb_spec (zlen msg) (bc_queued b)); lia. }
  rewrite Hqt, Hqq. cbn [set_queue bc_queue tail bc_connected].
  assert (Hlog : queued_log (outs ++ [Written msg]) = written_log (outs ++ [Written msg]) ++ q).
  { rewrite queued_log_app, written_log_app, Hl, Hqq. cbn. by rewrite app_nil_r, <- app_assoc. }
  case_bool_decide as Eq; cbn.
  - rewrite Hc. split; cbn; rewrite ?Hcn, ?Hs; try done; [lia|by left].
  - rewrite do_write_closed. cbn. rewrite Hc.
    apply do_write_ok; cbn; try done. lia.
Qed.

(** *** Steps *)

Lemma ops_split (ops : list op) i o :
  ops !! i = Some o ->
  exists pre post, ops = pre ++ o :: post /\ delete i ops = pre ++ post /\ forall o', <[i := o']> ops = pre ++ o' :: post.
Proof.
  intros Hi. pose proof (lookup_lt_Some _ _ _ Hi) as Hlt. exists (take i ops), (drop (S i) ops). split_and!.
  - symmetry. by apply take_drop_middle.
  - apply delete_take_drop.
  - intros o'. by rewrite insert_take_drop.
Qed.

Lemma writes_mid pre k r post :
  writes (pre ++ (k, r) :: post) = writes pre ++ (match k with OpWrite m => [m] | _ => [] end) ++ writes post.
Proof. rewrite writes_app. by destruct k. Qed.
Lemma setups_mid pre k r post :
  setups (pre ++ (k, r) :: post) = setups pre ++ (if is_setup k then [r] else []) ++ setups post.
Proof. rewrite setups_app. by destruct k. Qed.
Lemma expired_mid pre k r post :
  expired (pre ++ (k, r) :: post)
  = expired pre ++ (match r with Finished _ _ => if is_timer k then [k] else [] | _ => [] end) ++ expired post.
Proof. rewrite expired_app. by destruct k, r. Qed.

(** The invariant with one operation taken out of the list. *)
Lemma bc_inv_take b outs pre k r post :
  bc_inv b outs -> b.(bc_ops) = pre ++ (k, r) :: post ->
  let b' := with_ops (fun _ => pre ++ post) b in
  writes b.(bc_ops) = writes pre ++ (match k with OpWrite m => [m] | _ => [] end) ++ writes post
  /\ setups b.(bc_ops) = setups pre ++ (if is_setup k then [r] else []) ++ setups post
  /\ expired b'.(bc_ops) = []
  /\ (is_timer k = true -> r = Waiting \/ r = Aborted).
Proof.
  intros [_ _ _ _ _ _ _ He] Ho. rewrite Ho in He |- *. cbn [with_ops bc_ops].
  rewrite writes_mid, setups_mid, expired_app. rewrite expired_mid in He.
  apply app_eq_nil in He as [-> [He ->]%app_eq_nil]. split_and!; try done.
  intros Hk. destruct r; [by left|by rewrite Hk in He|by right].
Qed.

Lemma on_track_finished r : on_track r = true -> r <> Waiting -> exists data, r = Finished true data.
Proof. destruct r as [|[] data|]; naive_solver. Qed.

Lemma run_setup_ok now alive k r a b outs pre post :
  b.(bc_closed) = false -> bc_inv b outs -> b.(bc_ops) = pre ++ (k, r) :: post -> is_setup k = true -> r <> Waiting ->
  bc_ok (run_handler now alive k r (a, with_ops (fun _ => pre ++ post) b, outs)).
Proof.
  intros Hc Hi Ho Hk Hr. destruct (bc_inv_take _ _ _ _ _ _ Hi Ho) as (Hw & Hs & He & _).
  destruct Hi as [Hl Hq Hm Hws Hwc Hse Ht _]. rewrite Hk in Hs. rewrite Hs in Hse, Ht.
  apply Forall_app in Ht as [_ [Hr1 _]%Forall_app]. rewrite Forall_singleton in Hr1.
  destruct (on_track_finished r Hr1 Hr) as [data ->].
  destruct (bc_connected b) eqn:Hcn; [by destruct (setups pre)|]. rewrite !length_app in Hse. cbn in Hse.
  assert (Hpre : setups pre = []) by (destruct (setups pre); [done|cbn in Hse; lia]).
  assert (Hpost : setups post = []) by (destruct (setups post); [done|cbn in Hse; lia]).
  assert (Hwr : bc_writing b = false) by (destruct (bc_writing b); [by specialize (Hwc eq_refl)|done]).
  assert (Hw0 : writes (pre ++ post) = []).
  { destruct Hws as [Hws|(m & q & _ & _ & ?)]; [|congruence]. rewrite Hws in Hw. rewrite writes_app.
    symmetry in Hw. by apply app_eq_nil in Hw as [-> [_ ->]%app_eq_nil]. }
  assert (Hs0 : setups (pre ++ post) = []) by (by rewrite setups_app, Hpre, Hpost).
  set (b0 := with_ops (fun _ => pre ++ post) b).
  assert (Hi0 : bc_inv b0 outs).
  { split; cbn; rewrite ?Hcn, ?Hs0; try done; [by left|cbn; lia]. }
  destruct k; try done; cbn [run_handler on_resolved on_connected].
  - change (bc_closed b0) with (bc_closed b). rewrite Hc. cbn.
    change (bc_closed b) with (bc_closed b). rewrite Hc. apply (bc_inv_arm OpConnectTimer) in Hi0; [|done].
    assert (Hs1 : setups (bc_ops (arm OpConnectTimer b0)) = []).
    { cbn. rewrite setups_app, setups_abort_timer by done. by rewrite Hs0. }
    set (b1 := arm OpConnectTimer b0) in *. assert (Hcn1 : bc_connected b1 = false) by done. clearbody b1.
    destruct Hi0 as [Hl' Hq' Hm' Hws' Hwc' Hse' Ht' He']. split; cbn; try done.
    + by rewrite writes_app, app_nil_r.
    + rewrite Hcn1, setups_app, Hs1. exact (le_n 1).
    + rewrite setups_app, Hs1. by repeat constructor.
    + by rewrite expired_app, He'.
  - set (b1 := cancel_timer OpConnectTimer b0). assert (Hi1 : bc_inv b1 outs) by (by apply bc_inv_timer).
    assert (Hw1 : writes (bc_ops b1) = []) by (cbn; by rewrite writes_abort).
    assert (Hs1 : setups (bc_ops b1) = []) by (cbn; by rewrite setups_abort_timer).
    change (bc_closed b1) with (bc_closed b). rewrite Hc.
    assert (Hwr1 : bc_writing b1 = false) by done. assert (Hc1 : bc_closed b1 = false) by done. clearbody b1. clear b0 Hi0.
    destruct Hi1 as [Hl1 Hq1 Hm1 _ _ _ _ He1]. rewrite Hwr1.
    set (b2 := set_attempt 0 (set_flags true false b1)).
    assert (Hi2 : bc_inv (if bool_decide (bc_queue b2 = []) then b2 else bc_do_write b2) outs).
    { case_bool_decide; [|by apply do_write_ok]. split; cbn; rewrite ?Hs1; try done. by left. }
    assert (Hc2 : bc_closed (if bool_decide (bc_queue b2 = []) then b2 else bc_do_write b2) = false).
    { case_bool_decide; [done|]. by rewrite do_write_closed. }
    set (b3 := if bool_decide (bc_queue b2 = []) then b2 else bc_do_write b2) in *. clearbody b3.
    apply (bc_inv_timer OpRetryTimer) in Hi2; [|done].
    apply emit_ok; [done|done|]. cbn. rewrite Hc2.
    eapply bc_inv_ops; [exact Hi2|done..| | |]; cbn; rewrite ?writes_app, ?setups_app, ?expired_app; apply app_nil_r.
Qed.

Lemma bc_inv_delete b outs pre k r post :
  bc_inv b outs -> b.(bc_ops) = pre ++ (k, r) :: post -> is_setup k = false ->
  (match k with OpWrite _ => False | _ => True end) -> bc_inv (with_ops (fun _ => pre ++ post) b) outs.
Proof.
  intros Hi Ho Hk Hnw. destruct (bc_inv_take _ _ _ _ _ _ Hi Ho) as (Hw & Hs & He & _). rewrite Hk in Hs.
  eapply bc_inv_ops; [exact Hi|done..| | |]; cbn.
  - rewrite Hw, writes_app. by destruct k.
  - by rewrite Hs, setups_app.
  - cbn in He. rewrite He. symmetry. apply Hi.
Qed.

Lemma bc_on_read_ok alive r a b outs : b.(bc_closed) = false -> bc_inv b outs -> bc_ok (bc_on_read alive r (a, b, outs)).
Proof.
  intros Hc Hi. destruct r as [|[] data|]; cbn; [by rewrite Hc| | |by rewrite Hc].
  - destruct (0 <? zlen data); cbn; rewrite Hc; [|done].
    assert (Hlog : logs_same outs (outs ++ (if alive then [ToClient data] else []))) by (destruct alive; by apply logs_same_app).
    destruct Hlog as [H1 H2].
    eapply bc_inv_ops; [exact Hi|done|done|done| | |]; cbn; rewrite ?writes_app, ?setups_app, ?expired_app; apply app_nil_r.
  - rewrite bc_close_closed. assert (Hlog : logs_same outs (outs ++ (if alive then [ClientClose "read error"] else [])))
      by (destruct alive; by apply logs_same_app).
    destruct Hlog as [-> ->]. exists (bc_queue b). apply Hi.
Qed.

Lemma bc_step_ok now alive ev s s' :
  0 < (s.1.2).(bc_max) < 2 ^ 64 -> smooth_event ev s.1.2 = true -> bc_ok s -> bc_step now alive ev s = Some s' -> bc_ok s'.
Proof.
  intros Hmax Hsm Hok Hst. destruct (bc_closed (s.1.2)) eqn:Hc.
  { destruct (closed_step _ _ _ _ _ Hc Hst) as [Hc' [Hq Hw]]. destruct s as [[a b] outs], s' as [[a' b'] outs'].
    cbn in *. rewrite Hc'. rewrite Hc in Hok. by rewrite Hq, Hw. }
  destruct s as [[a b] outs] eqn:Es. cbn [fst snd] in *. destruct ev as [|payload| |i ok data|i]; cbn [bc_step] in Hst; [done|..].
  - apply (inj Some) in Hst as <-. by apply bc_send_ok.
  - apply (inj Some) in Hst as <-. cbn in Hok |- *. rewrite Hc in Hok. rewrite bc_close_closed. exists (bc_queue b). apply Hok.
  - apply bind_Some in Hst as ([k r] & Hi & Hst). destruct r; [|done..]. apply (inj Some) in Hst as <-.
    destruct (ops_split _ _ _ Hi) as (pre & post & Ho & _ & Hins). cbn in Hsm. rewrite Hi in Hsm.
    apply andb_true_iff in Hsm as [Hnt%negb_true_iff Hse]. cbn in Hok |- *. rewrite Hc in *.
    assert (He : expired (pre ++ (k, Finished ok data) :: post) = expired (bc_ops b)).
    { by rewrite Ho, !expired_mid, Hnt. }
    assert (Hw : writes (pre ++ (k, Finished ok data) :: post) = writes (bc_ops b)) by (by rewrite Ho, !writes_mid).
    destruct (is_setup k) eqn:Ek.
    + cbn in Hse. subst ok. destruct Hok as [Hl Hq Hm Hws Hwc Hs Ht Hex]. rewrite Ho, setups_mid, Ek in Hs, Ht.
      split; cbn; rewrite ?Hins, ?Hw, ?He, ?setups_mid, ?Ek; try done.
      * destruct Hws as [Hws|(m & q & Hws & ?)]; [left|right; exists m, q; split; [|done]]; etransitivity; [exact Hw|exact Hws|exact Hw|exact Hws].
      * revert Hs. destruct (bc_connected b); [by destruct (setups pre)|]. by rewrite !length_app.
      * apply Forall_app in Ht as [Ht1 [_ Ht3]%Forall_app]. apply Forall_app. split; [done|].
        apply Forall_app. split; [by repeat constructor|done].
      * etransitivity; [exact He|exact Hex].
    + eapply bc_inv_ops; [exact Hok|done..| | |]; cbn; rewrite Hins; [done| |done]. by rewrite Ho, !setups_mid, Ek.
  - apply bind_Some in Hst as ([k r] & Hi & Hst). destruct (ops_split _ _ _ Hi) as (pre & post & Ho & Hdel & _).
    assert (Hr : r <> Waiting) by (by intros ->). assert (Hst' : s' = run_handler now alive k r (a, with_ops (fun _ => pre ++ post) b, outs)).
    { assert (Hwd : with_ops (delete i) b = with_ops (fun _ => pre ++ post) b) by (unfold with_ops; cbv beta; by rewrite Hdel).
      rewrite Hwd in Hst. destruct r; [done|..]; by apply (inj Some) in Hst. }
    subst s'. cbn in Hok. rewrite Hc in Hok. destruct (is_setup k) eqn:Ek; [by eapply run_setup_ok|].
    destruct k as [| | | |m|]; try done; cbn [run_handler].
    + destruct (bc_inv_take _ _ _ _ _ _ Hok Ho) as (_ & _ & _ & [->| ->]); [done|done|]. cbn. rewrite Hc. by eapply bc_inv_delete.
    + destruct (bc_inv_take _ _ _ _ _ _ Hok Ho) as (_ & _ & _ & [->| ->]); [done|done|]. cbn. rewrite Hc. by eapply bc_inv_delete.
    + destruct (bc_inv_take _ _ _ _ _ _ Hok Ho) as (Hw & Hs & He & _). destruct Hok as [Hl Hq Hm Hws Hwc Hse Ht Hex].
      cbn in Hw. destruct Hws as [Hws|(m' & q & Hws & Hqq & Hww)]; [rewrite Hws in Hw; by destruct (writes pre)|].
      rewrite Hws in Hw. destruct (writes pre) as [|? [|]] eqn:Ewp; [|done..]. injection Hw as -> Hw.
      specialize (Hwc Hww). rewrite Hwc in Hse.
      apply written_ok; cbn; try done.
      * by rewrite writes_app, Ewp.
      * by exists q.
      * rewrite setups_app. rewrite Hse in Hs. cbn in Hs. symmetry in Hs. by apply app_eq_nil in Hs as [-> ->].
    + apply bc_on_read_ok; [done|]. by eapply bc_inv_delete.
Qed.

Lemma schedule_max now (s : st) : ((schedule_connect_retry now s).1.1.2).(bc_max) = (s.1.2).(bc_max).
Proof. destruct s as [[a b] outs]. unfold schedule_connect_retry. destruct (retry_consume _ _) as [budget []]; done. Qed.

Lemma close_max b : (bc_close b).(bc_max) = b.(bc_max).
Proof. unfold bc_close. by destruct (bc_closed b). Qed.

Lemma do_write_bc_max b : (bc_do_write b).(bc_max) = b.(bc_max).
Proof. unfold bc_do_write. by destruct (bc_queue b). Qed.

Lemma report_max alive reason (s : st) : ((report_close alive reason s).1.2).(bc_max) = (s.1.2).(bc_max).
Proof. destruct s as [[a b] outs]. destruct alive; [done|]. apply close_max. Qed.

Lemma failed_max now alive c r (s : st) : ((attempt_failed now alive c r s).1.2).(bc_max) = (s.1.2).(bc_max).
Proof.
  unfold attempt_failed. set (s1 := record_backend_connect_failure_event _ _).
  assert (H1 : bc_max s1.1.2 = bc_max s.1.2).
  { unfold s1. destruct s as [[a b] outs]. cbn. by destruct (record_failure _ _). }
  pose proof (schedule_max now s1) as H2. destruct (schedule_connect_retry now s1) as [s2 []]; cbn [fst snd] in H2; [by rewrite H2|].
  by rewrite report_max, H2.
Qed.

Lemma bc_step_max now alive ev s s' : bc_step now alive ev s = Some s' -> (s'.1.2).(bc_max) = (s.1.2).(bc_max).
Proof.
  destruct s as [[a b] outs]. destruct ev as [|payload| |i ok data|i]; cbn [bc_step].
  - intros [= <-]. cbn. unfold bc_connect. by destruct (bc_closed b).
  - intros Hs. apply (inj Some) in Hs as <-. unfold bc_send. destruct (_ || _); [done|].
    destruct (exceeds_queue_budget _ _ _); [by rewrite report_max|]. cbn.
    destruct (_ && _); [by rewrite do_write_bc_max|done].
  - intros [= <-]. cbn. apply close_max.
  - intros ([k r] & _ & Hr)%bind_Some. destruct r; [|done..]. by injection Hr as <-.
  - intros ([k r] & _ & Hr)%bind_Some. destruct r as [|ok data|]; [done|..]; apply (inj Some) in Hr as <-;
      destruct k; cbn [run_handler on_resolved on_connected on_connect_timeout on_retry_timer on_written bc_on_read fst snd];
      try (destruct (bc_closed _); [done|]); try destruct ok; rewrite ?failed_max; try done.
    + cbn. destruct (bool_decide _); [done|]. by rewrite do_write_bc_max.
    + cbn. destruct (bool_decide _); cbn; destruct (bool_decide _); cbn; rewrite ?do_write_bc_max; done.
    + cbn [negb]. by rewrite report_max.
    + by destruct (0 <? _).
    + cbn. by rewrite close_max.
Qed.

Lemma bc_run_ok evs s s' :
  0 < (s.1.2).(bc_max) < 2 ^ 64 -> bc_ok s -> smooth evs s = true -> bc_run evs s = Some s' ->
  bc_ok s' /\ (s'.1.2).(bc_max) = (s.1.2).(bc_max).
Proof.
  revert s. induction evs as [|[[now alive] ev] evs IH]; intros s Hm Hok; cbn; [by intros _ [= <-]|].
  intros [Hev Hsm]%andb_true_iff (s1 & Hs & Hr)%bind_Some. rewrite Hs in Hsm. cbn in Hsm.
  pose proof (bc_step_max _ _ _ _ _ Hs) as Hm1. destruct (IH s1) as [? Hm2]; [by rewrite Hm1|by eapply bc_step_ok|done|done|].
  by rewrite Hm2, Hm1.
Qed.

(** The bytes for the backend keep their order: in a run where the connection is
    established without failures, and in which sends, completed and failed writes, reads and
    closing happen in any order, what was written is a prefix of what was sent, in order; as
    long as the connection is open the rest is exactly the queue, whose bytes are counted
    and bounded by the budget; nothing is written before the connection is up, and never
    two writes at a time. *)
Theorem backend_fifo max app evs a b outs :
  0 < max < 2 ^ 64 -> smooth evs (app, bc_connect (new_BackendConnection max), []) = true ->
  bc_run evs (app, bc_connect (new_BackendConnection max), []) = Some (a, b, outs) ->
  (exists rest, queued_log outs = written_log outs ++ rest)
  /\ (b.(bc_closed) = false ->
       queued_log outs = written_log outs ++ b.(bc_queue)
       /\ b.(bc_queued) = bc_bytes b.(bc_queue) /\ b.(bc_queued) <= max
       /\ (length (writes b.(bc_ops)) <= 1)%nat
       /\ (b.(bc_connected) = false -> writes b.(bc_ops) = [])).
Proof.
  intros Hm Hsm Hr.
  assert (Hmx : bc_max (bc_connect (new_BackendConnection max)) = max).
  { cbn. by destruct (Z.ltb_spec 0 max); [|lia]. }
  apply bc_run_ok in Hr as [Hok Hm']; [| |cbn|done].
  - cbn [fst snd] in Hm'. rewrite Hmx in Hm'. cbn in Hok. destruct (bc_closed b) eqn:Hc; [by split|].
    destruct Hok as [Hl Hq Hmax Hw Hwc Hs Ht He]. split; [by exists (bc_queue b)|]. intros _.
    split_and!; [done|done|by rewrite <- Hm'|by destruct Hw as [->|(m & q & -> & _)]; cbn; lia|].
    intros Hn. destruct Hw as [Hw|(m & q & _ & _ & Hw)]; [done|]. specialize (Hwc Hw). congruence.
  - cbn [fst snd]. by rewrite Hmx.
  - split; cbn; try done; [by destruct (Z.ltb_spec 0 max); lia|by left|by repeat constructor].
Qed.

Lemma abort_waiting p k ops : (k, Waiting) ∈ abort p ops -> p k = false /\ (k, Waiting) ∈ ops.
Proof.
  intros ([k' r] & Heq & Hin)%list_elem_of_fmap. destruct r as [|ok data|]; cbn in Heq; [|done..].
  destruct (p k') eqn:Ep; [done|]. by injection Heq as ->.
Qed.

(** A failed attempt to connect - the name did not resolve, the connect failed or timed out
    - is counted against the circuit breaker once and then either retried, when the budget
    grants it, after a delay within the maximum and with every socket operation aborted, or
    reported: the client is told, or the connection closes when the client is gone. *)
Theorem attempt_failed_retries_or_reports now alive counter reason a b :
  0 <= backoff_ms < 2 ^ 32 -> 0 <= backoff_max_ms ->
  let '(a', b', outs) := attempt_failed now alive counter reason (a, b, []) in
  a'.(backend_circuit_breaker_) = (record_failure now a.(backend_circuit_breaker_)).1
  /\ a'.(backend_retry_budget_) = (retry_consume now a.(backend_retry_budget_)).1
  /\ if (retry_consume now a.(backend_retry_budget_)).2
     then (exists delay, Scheduled delay ∈ outs /\ 0 <= delay <= backoff_max_ms)
          /\ (OpRetryTimer, Waiting) ∈ b'.(bc_ops) /\ b'.(bc_connected) = false
          /\ forall k, on_socket k = true -> (k, Waiting) ∉ b'.(bc_ops)
     else if alive then ClientClose reason ∈ outs /\ b' = b else b'.(bc_closed) = true.
Proof.
  intros Hb Hbm. unfold attempt_failed. cbn. destruct (record_failure now _) as [breaker opened]. cbn.
  destruct (retry_consume now _) as [budget [|]] eqn:Er; cbn.
  - split_and!; [done|done| |apply elem_of_app; right; by left|done|].
    + eexists. split; [right; apply elem_of_app; right; right; by left|].
      unfold backend_retry_delay. pose proof (wrap_fits 64 (backoff_ms * Z.shiftl 1
        (if Z.min (u32 (bc_attempt b + 1)) 8 =? 0 then 0 else Z.min (u32 (bc_attempt b + 1)) 8 - 1))) as [? ?]; lia.
    + intros k Hk. rewrite not_elem_of_app. split.
      * intros [_ [Hs _]%abort_waiting]%abort_waiting. congruence.
      * intros Hin%list_elem_of_singleton. by injection Hin as ->.
  - destruct alive; cbn; (split; [done|split; [done|]]).
    + split; [|done]. right. apply elem_of_app. right. by left.
    + apply bc_close_closed.
Qed.
End backend.

(** ** Examples *)

Definition example_app : App :=
  mkApp (retry_configure 10 60000 default_RetryBudget) (breaker_configure true 5 10000 default_CircuitBreaker).
Definition example_connect : st := (example_app, bc_connect (new_BackendConnection 1000), []).
Definition at_time (evs : list bc_event) : list (Z * bool * bc_event) := map (fun ev => (1000, true, ev)) evs.

(** A message sent early waits for the connection; a second one for the first write. *)
Definition example_evs : list (Z * bool * bc_event) :=
  at_time [Send [1]; Finish 0 true []; Run 0; Finish 1 true []; Run 1; Send [2; 3]; Finish 1 true []; Run 1].

Lemma backend_fifo_witness :
  exists a b outs, bc_run 100 1000 example_evs example_connect = Some (a, b, outs)
    /\ queued_log outs = [[1]; [2; 3]] /\ written_log outs = [[1]]
    /\ exists rest, queued_log outs = written_log outs ++ rest.
Proof.
  destruct (bc_run 100 1000 example_evs example_connect) as [[[a b] outs]|] eqn:Er; [|by vm_compute in Er].
  exists a, b, outs. split; [reflexivity|].
  assert (Ho : queued_log outs = [[1]; [2; 3]] /\ written_log outs = [[1]]).
  { vm_compute in Er. injection Er as _ _ <-. split; vm_compute; reflexivity. }
  split; [apply Ho|]. split; [apply Ho|].
  apply (backend_fifo 100 1000 1000 example_app example_evs a b outs); [lia|vm_compute; reflexivity|exact Er].
Defined.

Lemma attempt_failed_retries_or_reports_witness :
  let '(a', b', outs) := attempt_failed 100 1000 1000 true "c" "r" example_connect in
  (exists delay, Scheduled delay ∈ outs /\ 0 <= delay <= 1000) /\ b'.(bc_connected) = false.
Proof.
  pose proof (attempt_failed_retries_or_reports 100 1000 1000 true "c" "r" example_app
                (bc_connect (new_BackendConnection 1000)) ltac:(lia) ltac:(lia)) as H.
  change (attempt_failed 100 1000 1000 true "c" "r" example_connect)
    with (attempt_failed 100 1000 1000 true "c" "r" (example_app, bc_connect (new_BackendConnection 1000), [])).
  destruct (attempt_failed _ _ _ _ _ _ _) as [[a' b'] outs]. destruct H as (_ & _ & H).
  replace (retry_consume 1000 (backend_retry_budget_ example_app)).2 with true in H by (vm_compute; reflexivity).
  destruct H as (H1 & _ & H2 & _). exact (conj H1 H2).
Defined.

(** One connect timeout is charged twice: the timeout handler counts a failure, takes from
    the retry budget and closes the socket; the aborted connect then completes with an error
    and its handler does all of it again. *)
Lemma connect_timeout_charged_twice :
  match bc_run 100 1000 (at_time [Finish 0 true []; Run 0; Finish 0 true []; Run 0; Run 0]) example_connect with
  | Some (a, b, outs) =>
      omap (fun o => match o with Scheduled d => Some d | _ => None end) outs = [100; 200]
      /\ (retry_remaining 1000 a.(backend_retry_budget_)).2 = 8 /\ view a.(backend_circuit_breaker_) = Closed 2
  | None => False
  end.
Proof. by vm_compute. Qed.

(** A connect timer that expires just before the connect completes still fires: the handler
    of the established connection cannot cancel it any more, and the timeout handler, which
    does not look whether the connection is up, aborts it. *)
Lemma late_timeout_aborts_connection :
  match bc_run 100 1000 (at_time [Finish 0 true []; Run 0; Finish 1 true []; Finish 0 true []; Run 1; Run 0]) example_connect with
  | Some (_, b, outs) => Connected ∈ outs /\ b.(bc_connected) = false /\ (OpRead, Aborted) ∈ b.(bc_ops)
  | None => False
  end.
Proof. vm_compute. split; [|split; [done|]]; repeat constructor. Qed.
