(* ===== verification/GatewayConnection.v ===== *)
(** The client side of the gateway: [gateway/src/gateway_connection.cpp].

    A connection waits for its first application frame, which must be a login, answering pings
    meanwhile; it authenticates the client, opens a connection to a backend and then forwards
    bytes both ways without looking at them.  The derived state is the record
    [GatewayConnection]; the base class is [Connection.v].  The answers of the rest of the
    gateway (admission, the authenticator, the choice of a backend, the UDP ticket) are the
    inputs [GcInput] of an event, the calls to it are logged as [gc_call].

    When a send to the backend overflows its queue, the backend connection calls
    [handle_backend_close] from inside the send; as nothing of the handler follows except the
    change of phase, this is the event [BackendClose] right after it. *)

From S2P Require Import Prelude Wire Utf8 Dispatch Connection.

(** ** Authentication *)

Record AuthRequest := mkAuthRequest { ar_token : string; ar_client_id : string; ar_remote_address : string }.
Record AuthResult := mkAuthResult { au_success : bool; au_subject : string; au_failure_reason : string }.

Definition or_anonymous (s : string) : string :=
  if bool_decide (s = EmptyString) then "anonymous"%string else s.

(** [NoopAuthenticator::authenticate]. *)
Definition noop_authenticate (request : AuthRequest) : AuthResult :=
  mkAuthResult true (or_anonymous request.(ar_client_id)) EmptyString.

(** ** The connection *)

Inductive Phase := kWaitingForLogin | kBridging.
#[export] Instance Phase_eq_dec : EqDecision Phase.
Proof. solve_decision. Defined.

Record GatewayConnection := mkGC {
  gc_phase : Phase;
  gc_prebuffer : list Z;
  gc_session_id : string;
  gc_client_id : string;
  gc_remote_ip : string;
  gc_backend : bool;    (** [backend_connection_] is set *)
  gc_closing : bool;
  gc_timer : bool;      (** the handshake timer is armed *)
}.

Definition new_GatewayConnection : GatewayConnection :=
  mkGC kWaitingForLogin [] EmptyString EmptyString EmptyString false false false.

(** What the rest of the gateway answers while an event is handled. *)
Record GcInput := mkGcInput {
  in_admitted : bool;                                  (** [admit_ingress_connection] accepts *)
  in_remote : option string;                           (** the remote address, or an exception *)
  in_authenticator : option (AuthRequest -> AuthResult);
  in_allow_anonymous : bool;
  in_backend : option string;                          (** the session [create_backend_connection] made *)
  in_ticket : option (list Z);                         (** [make_udp_bind_ticket_frame] *)
}.

Inductive gc_call :=
| RecordAccept
| CreateBackend (client_id : string)
| SendBackend (data : list Z)
| CloseBackend (session_id : string).

Abbreviation gconn := (Connection GatewayConnection).
Abbreviation gout := (conn_out gc_call).

#[export] Instance gc_on_disconnect : Disconnect GatewayConnection gc_call := fun g =>
  (mkGC g.(gc_phase) g.(gc_prebuffer) g.(gc_session_id) g.(gc_client_id) g.(gc_remote_ip) false true false,
   if bool_decide (g.(gc_session_id) = EmptyString) then [] else [CloseBackend g.(gc_session_id)]).

Definition gc_on_connect (i : GcInput) (c : gconn) : gconn * list gout :=
  if negb i.(in_admitted) then stop c
  else
    let g := c.(cn_derived) in
    (set_derived (mkGC kWaitingForLogin [] g.(gc_session_id) g.(gc_client_id) (default EmptyString i.(in_remote))
                    g.(gc_backend) g.(gc_closing) true) c,
     [Calls RecordAccept]).

(** ** The handshake *)

Definition make_control_frame (header : PacketHeader) (msg_id : Z) (payload : list Z) : option (list Z) :=
  let response := mkPacketHeader (u16 (zlen payload)) msg_id (ph_flags header) (ph_seq header) (ph_utc_ts_ms32 header) in
  frame ← encode_header response 0 (replicate (k_header_bytes + length payload) 0);
  if decide (payload = []) then Some frame else poke k_header_bytes payload frame.

Definition set_prebuffer (b : list Z) (c : gconn) : gconn :=
  let g := c.(cn_derived) in
  set_derived (mkGC g.(gc_phase) b g.(gc_session_id) g.(gc_client_id) g.(gc_remote_ip) g.(gc_backend)
                 g.(gc_closing) g.(gc_timer)) c.

Definition set_client (client_id : string) (c : gconn) : gconn :=
  let g := c.(cn_derived) in
  set_derived (mkGC g.(gc_phase) g.(gc_prebuffer) g.(gc_session_id) client_id g.(gc_remote_ip) g.(gc_backend)
                 g.(gc_closing) g.(gc_timer)) c.

Definition set_backend (session_id : string) (c : gconn) : gconn :=
  let g := c.(cn_derived) in
  set_derived (mkGC g.(gc_phase) g.(gc_prebuffer) session_id g.(gc_client_id) g.(gc_remote_ip) true
                 g.(gc_closing) g.(gc_timer)) c.

(** The timer cancelled, the buffer moved away, the phase changed. *)
Definition set_bridging (c : gconn) : gconn :=
  let g := c.(cn_derived) in
  set_derived (mkGC kBridging [] g.(gc_session_id) g.(gc_client_id) g.(gc_remote_ip) g.(gc_backend)
                 g.(gc_closing) false) c.

Definition open_backend_connection (i : GcInput) (c : gconn) : gconn * list gout :=
  if (cn_derived c).(gc_backend) then (c, [])
  else
    let c := set_client (or_anonymous (cn_derived c).(gc_client_id)) c in
    let call := Calls (CreateBackend (cn_derived c).(gc_client_id)) in
    match i.(in_backend) with
    | None => let '(c, outs) := stop c in (c, call :: outs)
    | Some session_id => (set_backend session_id c, [call])
    end.

Definition routing_key (request : AuthRequest) (result : AuthResult) : string :=
  let key := if bool_decide (request.(ar_client_id) = EmptyString) then result.(au_subject)
             else request.(ar_client_id) in
  if bool_decide (key = EmptyString) || bool_decide (key = "guest"%string) then "anonymous"%string else key.

Definition authenticate (i : GcInput) (request : AuthRequest) : AuthResult :=
  match i.(in_authenticator) with
  | Some f => f request
  | None => mkAuthResult true (or_anonymous request.(ar_client_id)) EmptyString
  end.

(** Whether the login is let in, and under which routing key. *)
Definition admit_login (i : GcInput) (request : AuthRequest) : option string :=
  let result := authenticate i request in
  if negb result.(au_success) then None
  else
    let key := routing_key request result in
    if negb i.(in_allow_anonymous)
       && (bool_decide (request.(ar_token) = EmptyString) || bool_decide (key = "anonymous"%string))
    then None else Some key.

Definition complete_login (i : GcInput) (request : AuthRequest) (c : gconn) : gconn * list gout :=
  match admit_login i request with
  | None => stop c
  | Some key =>
      let '(c, outs) := open_backend_connection i (set_client key c) in
      if negb (cn_derived c).(gc_backend) then
        let '(c, outs') := stop c in (c, outs ++ outs')
      else
        let c := from_option (fun frame => conn_async_send frame c) c i.(in_ticket) in
        (set_bridging c, outs ++ [Calls (SendBackend (cn_derived c).(gc_prebuffer))])
  end.

(** The payload of the login frame; [None] is a memory error. *)
Definition on_login_frame (i : GcInput) (payload : list Z) (c : gconn) : option (gconn * list gout) :=
  r ← read_lp_utf8 payload;
  match r with
  | None => Some (stop c)
  | Some (user, payload) =>
      r ← read_lp_utf8 payload;
      match r with
      | None => Some (stop c)
      | Some (token, _) =>
          Some (complete_login i (mkAuthRequest token user (cn_derived c).(gc_remote_ip)) c)
      end
  end.

Definition kMaxLoginPayloadBytes : Z := 32 * 1024.
Definition kMaxHandshakeBytes : Z := 64 * 1024.

(** [try_finish_handshake].  Every turn of the loop removes a frame, so the length of the
    buffer bounds their number. *)
Fixpoint try_finish_handshake (fuel : nat) (i : GcInput) (c : gconn) : option (gconn * list gout) :=
  match fuel with
  | O => None
  | S fuel =>
      let b := (cn_derived c).(gc_prebuffer) in
      if negb (bool_decide ((cn_derived c).(gc_phase) = kWaitingForLogin)) then Some (c, [])
      else if zlen b <? Z.of_nat k_header_bytes then Some (c, [])
      else
        header ← decode_header b 0;
        if kMaxLoginPayloadBytes <? ph_length header then Some (stop c)
        else
          let frame_bytes := (k_header_bytes + Z.to_nat (ph_length header))%nat in
          if zlen b <? Z.of_nat frame_bytes then Some (c, [])
          else
            let payload := take (Z.to_nat (ph_length header)) (drop k_header_bytes b) in
            match classify_segment_type (ph_msg_id header) with
            | kApplicationPayload =>
                if ph_msg_id header =? MSG_LOGIN_REQ then on_login_frame i payload c else Some (stop c)
            | _ =>
                if ph_msg_id header =? MSG_PING then
                  frame ← make_control_frame header MSG_PONG payload;
                  try_finish_handshake fuel i (set_prebuffer (drop frame_bytes b) (conn_async_send frame c))
                else if ph_msg_id header =? MSG_PONG then
                  try_finish_handshake fuel i (set_prebuffer (drop frame_bytes b) c)
                else Some (stop c)
            end
  end.

Definition gc_on_read (i : GcInput) (data : list Z) (c : gconn) : option (gconn * list gout) :=
  let g := c.(cn_derived) in
  if decide (data = []) then Some (c, [])
  else match g.(gc_phase) with
       | kWaitingForLogin =>
           if kMaxHandshakeBytes <? zlen g.(gc_prebuffer) + zlen data then Some (stop c)
           else
             let b := g.(gc_prebuffer) ++ data in
             try_finish_handshake (S (length b)) i (set_prebuffer b c)
       | kBridging =>
           Some (c, if g.(gc_backend) then [Calls (SendBackend data)] else [])
       end.

#[export] Instance gc_handlers : Handlers GatewayConnection gc_call GcInput :=
  {| on_connect := gc_on_connect; on_read := gc_on_read |}.

(** ** Events *)

Inductive gc_event :=
| Base (ev : conn_event GcInput)
| BackendPayload (data : list Z)
| BackendClose
| HandshakeTimeout.

Definition set_closing (c : gconn) : gconn :=
  let g := c.(cn_derived) in
  set_derived (mkGC g.(gc_phase) g.(gc_prebuffer) g.(gc_session_id) g.(gc_client_id) g.(gc_remote_ip)
                 g.(gc_backend) true g.(gc_timer)) c.

Definition disarm (c : gconn) : gconn :=
  let g := c.(cn_derived) in
  set_derived (mkGC g.(gc_phase) g.(gc_prebuffer) g.(gc_session_id) g.(gc_client_id) g.(gc_remote_ip)
                 g.(gc_backend) g.(gc_closing) false) c.

Definition gc_step (ev : gc_event) (c : gconn) : option (gconn * list gout) :=
  let g := c.(cn_derived) in
  match ev with
  | Base ev => conn_step ev c
  | BackendPayload data =>
      Some (if bool_decide (data = []) || g.(gc_closing) then c else conn_async_send data c, [])
  | BackendClose => Some (if g.(gc_closing) then c else stop_outside (set_closing c), [])
  | HandshakeTimeout =>
      if negb g.(gc_timer) then None
      else
        let c := disarm c in
        Some (if g.(gc_closing) || c.(cn_stopped) then c
              else if decide (g.(gc_phase) = kWaitingForLogin) then stop_outside c else c, [])
  end.

Fixpoint gc_run (evs : list gc_event) (st : gconn * list gout) : option (gconn * list gout) :=
  match evs with
  | [] => Some st
  | ev :: rest => '(c, outs) ← gc_step ev st.1; gc_run rest (c, st.2 ++ outs)
  end.

(** ** The handlers use the base class through its interface *)

Lemma open_backend_base i c : base_calls c (open_backend_connection i c).
Proof.
  unfold open_backend_connection. destruct (gc_backend _); [auto with conn|].
  set (c1 := set_client _ c). apply (base_derived c (cn_derived c1)).
  change (set_derived (cn_derived c1) c) with c1. clearbody c1. destruct (in_backend i) as [sid|].
  - apply (base_call c1 _ (set_backend sid c1, [])), base_calls_derived.
  - pose proof (base_calls_stop c1) as Hs. destruct (stop c1) as [c' outs]. by apply (base_call c1 _ (c', outs)).
Qed.

Lemma complete_login_base i request c : base_calls c (complete_login i request c).
Proof.
  unfold complete_login. destruct (admit_login i request) as [key|]; [|auto with conn].
  set (c0 := set_client key c). apply (base_derived c (cn_derived c0)).
  change (set_derived (cn_derived c0) c) with c0. clearbody c0.
  pose proof (open_backend_base i c0) as Ho. destruct (open_backend_connection _ _) as [c1 o1].
  destruct (negb _).
  - pose proof (base_calls_stop c1) as Hs. destruct (stop c1) as [c2 o2]. by apply (base_calls_trans c0 (c2, o2) c1).
  - set (c2 := from_option _ c1 _).
    apply (base_calls_trans c0 (set_bridging c2, [Calls (SendBackend (gc_prebuffer (cn_derived c2)))]) c1 o1 Ho).
    assert (Hc2 : base_calls c2 (set_bridging c2, [Calls (SendBackend (gc_prebuffer (cn_derived c2)))])).
    { apply (base_call c2 _ (set_bridging c2, [])), base_calls_derived. }
    unfold c2 in *. destruct (in_ticket i) as [f|]; [by apply (base_send c1 f)|done].
Qed.

Lemma on_login_frame_base i p c r : on_login_frame i p c = Some r -> base_calls c r.
Proof.
  unfold on_login_frame. intros (u & _ & Hu)%bind_Some. destruct u as [[user rest]|]; [|injection Hu as <-; auto with conn].
  apply bind_Some in Hu as (t & _ & Ht). destruct t as [[token ?]|]; injection Ht as <-; [|auto with conn].
  apply complete_login_base.
Qed.

Lemma try_finish_base fuel i c r : try_finish_handshake fuel i c = Some r -> base_calls c r.
Proof.
  revert c. induction fuel as [|fuel IH]; intros c; [done|]. cbn [try_finish_handshake].
  destruct (negb _); [intros [= <-]; auto with conn|].
  destruct (_ <? _); [intros [= <-]; auto with conn|]. intros (h & _ & Hr)%bind_Some. revert Hr.
  destruct (_ <? _); [intros [= <-]; auto with conn|]. destruct (_ <? _); [intros [= <-]; auto with conn|].
  set (b := drop _ _).
  assert (Hsys : forall p : list Z,
    (if ph_msg_id h =? MSG_PING then
       frame ← make_control_frame h MSG_PONG p; try_finish_handshake fuel i (set_prebuffer b (conn_async_send frame c))
     else if ph_msg_id h =? MSG_PONG then try_finish_handshake fuel i (set_prebuffer b c) else Some (stop c)) = Some r ->
    base_calls c r).
  { intros p. destruct (_ =? _).
    - intros (f & _ & Hf)%bind_Some. apply (base_send c f). eapply base_derived. by apply IH.
    - destruct (_ =? _); [|intros [= <-]; auto with conn]. intros Hf. eapply base_derived. by apply IH. }
  destruct (classify_segment_type _); [apply Hsys..|].
  clear Hsys. destruct (ph_msg_id h =? MSG_LOGIN_REQ); [apply on_login_frame_base|intros [= <-]; auto with conn].
Qed.

#[export] Instance gc_handlers_ok : HandlersOk GatewayConnection gc_call GcInput.
Proof.
  split; cbn.
  - intros i c. unfold gc_on_connect. destruct (negb _); [auto with conn|].
    apply (base_call c _ (_, [])), base_calls_derived.
  - intros i data c r. unfold gc_on_read. destruct (decide _); [intros [= <-]; auto with conn|].
    destruct (gc_phase _).
    + destruct (_ <? _); [intros [= <-]; auto with conn|]. intros Hr%try_finish_base. by eapply base_derived.
    + intros [= <-]. destruct (gc_backend _); auto with conn.
Qed.

(** ** The grammar of the handshake

    [scans b pongs v]: the bytes [b] received so far consist of control frames, answered by
    [pongs], and then of what [v] says. *)

Inductive verdict :=
| NeedMore (b : list Z)                        (** an incomplete frame *)
| Reject                                       (** a frame that closes the connection *)
| Login (payload : list Z) (bridged : list Z). (** a login frame; the bytes from it on *)

#[local] Opaque header_bytes.

Definition pong_of (h : PacketHeader) (payload : list Z) : list Z :=
  header_bytes (mkPacketHeader (zlen payload) MSG_PONG (ph_flags h) (ph_seq h) (ph_utc_ts_ms32 h)) ++ payload.

Definition sized (h : PacketHeader) (payload : list Z) : Prop :=
  wf_PacketHeader h /\ ph_length h = zlen payload /\ zlen payload <= kMaxLoginPayloadBytes.

Inductive scans : list Z -> list (list Z) -> verdict -> Prop :=
| scan_short b : (length b < k_header_bytes)%nat -> scans b [] (NeedMore b)
| scan_oversize h t : wf_PacketHeader h -> kMaxLoginPayloadBytes < ph_length h -> scans (header_bytes h ++ t) [] Reject
| scan_partial h t :
    wf_PacketHeader h -> ph_length h <= kMaxLoginPayloadBytes -> zlen t < ph_length h ->
    scans (header_bytes h ++ t) [] (NeedMore (header_bytes h ++ t))
| scan_ping h p t pongs v :
    sized h p -> ph_msg_id h = MSG_PING -> scans t pongs v ->
    scans (header_bytes h ++ p ++ t) (pong_of h p :: pongs) v
| scan_pong h p t pongs v :
    sized h p -> ph_msg_id h = MSG_PONG -> scans t pongs v -> scans (header_bytes h ++ p ++ t) pongs v
| scan_other h p t :
    sized h p -> ph_msg_id h <> MSG_PING -> ph_msg_id h <> MSG_PONG -> ph_msg_id h <> MSG_LOGIN_REQ ->
    scans (header_bytes h ++ p ++ t) [] Reject
| scan_login h p t :
    sized h p -> ph_msg_id h = MSG_LOGIN_REQ ->
    scans (header_bytes h ++ p ++ t) [] (Login p (header_bytes h ++ p ++ t)).

(** More bytes: an incomplete frame is taken up, the other verdicts stand. *)
Lemma scans_more b pongs v more :
  scans b pongs v ->
  match v with
  | NeedMore b' => forall pongs' v', scans (b' ++ more) pongs' v' -> scans (b ++ more) (pongs ++ pongs') v'
  | Reject => scans (b ++ more) pongs Reject
  | Login p bridged => scans (b ++ more) pongs (Login p (bridged ++ more))
  end.
Proof.
  induction 1 as [b Hb|h t Hw Ho|h t Hw Hm Ht|h p t pongs v Hs Hid Hsc IH|h p t pongs v Hs Hid Hsc IH
                 |h p t Hs H1 H2 H3|h p t Hs Hid]; rewrite <- ?app_assoc; try done.
  - by constructor.
  - destruct v; [intros pongs' v' H'; cbn; apply scan_ping; auto|by apply scan_ping..].
  - destruct v; [intros pongs' v' H'; cbn; apply scan_pong; auto|by apply scan_pong..].
  - by constructor.
  - by constructor.
Qed.

(** What is kept of an incomplete frame fits, with one more read, in the handshake buffer. *)
Lemma scans_bound b pongs b' : scans b pongs (NeedMore b') -> zlen b' <= Z.of_nat k_header_bytes + kMaxLoginPayloadBytes.
Proof.
  intros H. remember (NeedMore b') as v eqn:Ev. revert b' Ev.
  induction H as [b Hb|h t Hw Ho|h t Hw Hm Ht|h p t pongs v Hs Hid Hsc IH|h p t pongs v Hs Hid Hsc IH
                 |h p t Hs H1 H2 H3|h p t Hs Hid]; intros b' [= Ev]; subst; eauto.
  - unfold k_header_bytes, kMaxLoginPayloadBytes in *. lia.
  - rewrite length_app, length_header_bytes. lia.
Qed.

Lemma need_more_idem b pongs b' : scans b pongs (NeedMore b') -> scans b' [] (NeedMore b').
Proof.
  intros H. remember (NeedMore b') as v eqn:Ev. revert b' Ev.
  induction H as [b Hb|h t Hw Ho|h t Hw Hm Ht|h p t pongs v Hs Hid Hsc IH|h p t pongs v Hs Hid Hsc IH
                 |h p t Hs H1 H2 H3|h p t Hs Hid]; intros b' [= Ev]; subst; eauto using scan_short, scan_partial.
Qed.

Lemma make_control_frame_pong h p : sized h p -> make_control_frame h MSG_PONG p = Some (pong_of h p).
Proof.
  intros (Hw & Hl & Hp). unfold make_control_frame, pong_of.
  rewrite (wrap_id 16) by (rewrite <- Hl; apply Hw). set (r := mkPacketHeader _ _ _ _ _).
  rewrite encode_header_poke, replicate_add.
  rewrite (poke_split [] (replicate k_header_bytes 0) (replicate (length p) 0)) by (by rewrite length_header_bytes).
  cbn [mbind option_bind app]. destruct (decide (p = [])) as [->|]; [done|].
  rewrite <- (app_nil_r (replicate (length p) 0)), <- (length_header_bytes r).
  rewrite poke_split by (by rewrite length_replicate). by rewrite app_nil_r.
Qed.

Definition send_all (frames : list (list Z)) (c : gconn) : gconn := foldl (fun c f => conn_async_send f c) c frames.

Lemma send_all_cons f fs c : send_all (f :: fs) c = send_all fs (conn_async_send f c).
Proof. done. Qed.

Lemma set_prebuffer_send b f c : set_prebuffer b (conn_async_send f c) = conn_async_send f (set_prebuffer b c).
Proof. unfold conn_async_send. cbn. by destruct (cn_stopped c). Qed.

Lemma set_prebuffer_send_all b fs c : set_prebuffer b (send_all fs c) = send_all fs (set_prebuffer b c).
Proof.
  revert c. induction fs as [|f fs IH]; intros c; [done|]. by rewrite !send_all_cons, IH, set_prebuffer_send.
Qed.

Lemma async_send_derived f (c : gconn) : cn_derived (conn_async_send f c) = cn_derived c.
Proof. unfold conn_async_send. by destruct (cn_stopped c). Qed.

Lemma send_all_derived fs c : cn_derived (send_all fs c) = cn_derived c.
Proof. revert c. induction fs as [|f fs IH]; intros c; [done|]. rewrite send_all_cons, IH. apply async_send_derived. Qed.

(** What the handshake does with a verdict. *)
Definition conclude (i : GcInput) (v : verdict) (c : gconn) (r : option (gconn * list gout)) : Prop :=
  match v with
  | NeedMore b => r = Some (set_prebuffer b c, [])
  | Reject => exists b, r = Some (stop (set_prebuffer b c))
  | Login p bridged => r = on_login_frame i p (set_prebuffer bridged c)
  end.

Lemma conclude_prebuffer i v b pongs c r :
  conclude i v (send_all pongs (set_prebuffer b c)) r -> conclude i v (send_all pongs c) r.
Proof. rewrite <- set_prebuffer_send_all. by destruct v. Qed.

Lemma try_finish_scans fuel i c :
  let b := (cn_derived c).(gc_prebuffer) in
  (cn_derived c).(gc_phase) = kWaitingForLogin -> bytes b -> (length b < fuel)%nat ->
  exists pongs v, scans b pongs v /\ conclude i v (send_all pongs c) (try_finish_handshake fuel i c).
Proof.
  cbv zeta. revert c. induction fuel as [|fuel IH]; intros c Hph Hb Hf; [lia|].
  assert (Hsame : set_prebuffer (gc_prebuffer (cn_derived c)) c = c) by (by destruct c as [???????? ? []]).
  cbn [try_finish_handshake]. rewrite bool_decide_true by done. cbn [negb].
  destruct (Z.ltb_spec (zlen (gc_prebuffer (cn_derived c))) (Z.of_nat k_header_bytes)) as [|Hlen].
  { exists [], (NeedMore (gc_prebuffer (cn_derived c))). split; [constructor; lia|]. cbn. by rewrite Hsame. }
  destruct (decode_header_inv (gc_prebuffer (cn_derived c))) as (h & Hd & Hw & Ht); [done|lia|].
  rewrite Hd. cbn [mbind option_bind].
  assert (Hsplit : gc_prebuffer (cn_derived c) = header_bytes h ++ drop k_header_bytes (gc_prebuffer (cn_derived c)))
    by (by rewrite <- Ht, take_drop).
  set (b := gc_prebuffer (cn_derived c)) in *. set (t := drop k_header_bytes b) in *.
  destruct (Z.ltb_spec kMaxLoginPayloadBytes (ph_length h)) as [Hov|Hov].
  { exists [], Reject. split; [rewrite Hsplit; by constructor|]. exists b. cbn. by rewrite Hsame. }
  assert (Hlb : length b = (k_header_bytes + length t)%nat) by (rewrite Hsplit, length_app; done).
  assert (Hpl : 0 <= ph_length h) by apply Hw.
  destruct (Z.ltb_spec (zlen b) (Z.of_nat (k_header_bytes + Z.to_nat (ph_length h)))) as [Hpart|Hfull].
  { exists [], (NeedMore b). split; [rewrite Hsplit; apply scan_partial; [done..|lia]|]. cbn. by rewrite Hsame. }
  set (p := take (Z.to_nat (ph_length h)) t). set (t' := drop (Z.to_nat (ph_length h)) t).
  assert (Htt : b = header_bytes h ++ p ++ t') by (unfold p, t'; by rewrite take_drop).
  assert (Hsz : sized h p) by (split_and!; [done|unfold p; rewrite length_take; lia..]).
  replace (drop (k_header_bytes + Z.to_nat (ph_length h)) b) with t' by (unfold t', t; by rewrite drop_drop).
  assert (Hrec : forall c', (cn_derived c').(gc_phase) = kWaitingForLogin -> (cn_derived c').(gc_prebuffer) = t' ->
     exists pongs v, scans t' pongs v /\ conclude i v (send_all pongs c') (try_finish_handshake fuel i c')).
  { intros c' Hp' Hb'. rewrite <- Hb'. apply IH; [done|rewrite Hb'; unfold t', t; by do 2 apply bytes_drop|].
    rewrite Hb'. unfold t'. rewrite length_drop. unfold k_header_bytes in *. lia. }
  unfold classify_segment_type, is_system_msg_id.
  destruct (Z.eqb_spec (ph_msg_id h) MSG_PING) as [Eping|Nping].
  - rewrite Eping. cbn [Z.leb andb]. rewrite (make_control_frame_pong h p Hsz). cbn [mbind option_bind].
    destruct (Hrec (set_prebuffer t' (conn_async_send (pong_of h p) c))) as (pongs & v & Hsc & Hc).
    { cbn. by rewrite async_send_derived. }
    { done. }
    exists (pong_of h p :: pongs), v. split; [rewrite Htt; by apply scan_ping|].
    rewrite send_all_cons. by apply (conclude_prebuffer _ _ t').
  - destruct (Z.eqb_spec (ph_msg_id h) MSG_PONG) as [Epong|Npong].
    { rewrite Epong. cbn [Z.leb andb]. destruct (Hrec (set_prebuffer t' c)) as (pongs & v & Hsc & Hc); [done..|].
      exists pongs, v. split; [rewrite Htt; by apply scan_pong|]. by apply (conclude_prebuffer _ _ t'). }
    destruct (Z.eqb_spec (ph_msg_id h) MSG_LOGIN_REQ) as [El|Nl].
    { rewrite El. cbn [Z.leb andb]. exists [], (Login p b). split; [rewrite Htt at 1 2; by apply scan_login|].
      cbn. by rewrite Hsame. }
    exists [], Reject. split; [rewrite Htt; by apply scan_other|]. exists b. cbn. rewrite Hsame.
    by destruct ((1 <=? ph_msg_id h) && (ph_msg_id h <=? 15)).
Qed.

(** ** The client's bytes, however they are cut

    [feed] delivers chunks one after the other for as long as the connection reads. *)

Fixpoint feed (i : GcInput) (chunks : list (list Z)) (st : gconn * list gout) : option (gconn * list gout) :=
  match chunks, (st.1).(cn_reading) with
  | [], _ | _, None => Some st
  | chunk :: rest, Some _ =>
      '(c, outs) ← conn_step (ReadDone i (Some chunk)) st.1;
      feed i rest (c, st.2 ++ outs)
  end.

Definition chunk_ok (chunk : list Z) : Prop := bytes chunk /\ 0 < zlen chunk <= k_read_buffer.

Definition backend_bytes (outs : list gout) : list Z :=
  concat (omap (fun o => match o with Calls (SendBackend d) => Some d | _ => None end) outs).
Definition backends_created (outs : list gout) : list string :=
  omap (fun o => match o with Calls (CreateBackend k) => Some k | _ => None end) outs.

Lemma backend_bytes_app a b : backend_bytes (a ++ b) = backend_bytes a ++ backend_bytes b.
Proof. unfold backend_bytes. by rewrite omap_app, concat_app. Qed.
Lemma backends_created_app a b : backends_created (a ++ b) = backends_created a ++ backends_created b.
Proof. apply omap_app. Qed.

(** A running connection that waits for the login, with [b] in its buffer. *)
Record waiting (b : list Z) (c : gconn) : Prop := mkWaiting {
  wt_stopped : c.(cn_stopped) = false;
  wt_open : c.(cn_open) = true;
  wt_phase : (cn_derived c).(gc_phase) = kWaitingForLogin;
  wt_prebuffer : (cn_derived c).(gc_prebuffer) = b;
  wt_session : (cn_derived c).(gc_session_id) = EmptyString;
  wt_backend : (cn_derived c).(gc_backend) = false;
}.

(** The session a login frame leads to: the routing key and the session identifier. *)
Definition login_of (i : GcInput) (remote : string) (payload : list Z) : option (string * string) :=
  match read_lp_utf8 payload with
  | Some (Some (user, rest)) =>
      match read_lp_utf8 rest with
      | Some (Some (token, _)) =>
          key ← admit_login i (mkAuthRequest token user remote); session_id ← i.(in_backend); Some (key, session_id)
      | _ => None
      end
  | _ => None
  end.

Definition bridging (key session_id : string) (c : gconn) : Prop :=
  c.(cn_stopped) = false /\ c.(cn_open) = true
  /\ (cn_derived c).(gc_phase) = kBridging /\ (cn_derived c).(gc_backend) = true
  /\ (cn_derived c).(gc_client_id) = key /\ (cn_derived c).(gc_session_id) = session_id.

(** What has become of a connection whose input is [pongs] and then [v]. *)
Definition handshake_result (i : GcInput) (remote : string) (posted0 pongs : list (list Z)) (v : verdict)
    (c : gconn) (outs : list gout) : Prop :=
  match v with
  | NeedMore b =>
      waiting b c /\ outs = [] /\ c.(cn_posted) = posted0 ++ pongs /\ (cn_derived c).(gc_remote_ip) = remote
  | Reject => c.(cn_stopped) = true /\ outs = [] /\ c.(cn_posted) = posted0 ++ pongs
  | Login p bridged =>
      match login_of i remote p with
      | Some (key, session_id) =>
          bridging key session_id c /\ backends_created outs = [key] /\ backend_bytes outs = bridged
          /\ c.(cn_posted) = posted0 ++ pongs ++ option_list i.(in_ticket)
      | None => c.(cn_stopped) = true /\ backend_bytes outs = [] /\ c.(cn_posted) = posted0 ++ pongs
      end
  end.

Lemma stop_waiting b c c' outs :
  waiting b c -> stop c = (c', outs) ->
  c'.(cn_stopped) = true /\ c'.(cn_posted) = c.(cn_posted) /\ outs = [].
Proof.
  intros [Hs Ho Hp Hb Hsid Hbk]. unfold stop. rewrite Hs. unfold finalize_stop, on_disconnect, gc_on_disconnect. cbn.
  rewrite Hsid. by intros [= <- <-].
Qed.

Lemma send_all_waiting b fs c : waiting b c -> waiting b (send_all fs c) /\ (send_all fs c).(cn_posted) = c.(cn_posted) ++ fs.
Proof.
  revert c. induction fs as [|f fs IH]; intros c Hw; [by rewrite app_nil_r|]. rewrite send_all_cons.
  assert (H1 : conn_async_send f c = set_posted (cn_posted c ++ [f]) c).
  { unfold conn_async_send, set_posted. by rewrite (wt_stopped _ _ Hw). }
  rewrite H1. destruct (IH (set_posted (cn_posted c ++ [f]) c)) as [Hw' ->]; [by destruct Hw; split|].
  split; [done|]. cbn. by rewrite <- app_assoc.
Qed.

Lemma or_anonymous_key request result : or_anonymous (routing_key request result) = routing_key request result.
Proof. unfold or_anonymous. rewrite bool_decide_false; [done|]. unfold routing_key. by repeat case_bool_decide. Qed.

Lemma admit_login_key i request key : admit_login i request = Some key -> or_anonymous key = key.
Proof.
  unfold admit_login. destruct (au_success _); [|done]. cbn [negb].
  destruct (negb _ && _); [done|]. intros [= <-]. apply or_anonymous_key.
Qed.

Lemma complete_login_result i request b c :
  waiting b c ->
  let '(c', outs) := complete_login i request c in
  match (key ← admit_login i request; session_id ← i.(in_backend); Some (key, session_id)) with
  | Some (key, session_id) =>
      bridging key session_id c' /\ outs = [Calls (CreateBackend key); Calls (SendBackend b)]
      /\ c'.(cn_posted) = c.(cn_posted) ++ option_list i.(in_ticket)
  | None => c'.(cn_stopped) = true /\ backend_bytes outs = [] /\ c'.(cn_posted) = c.(cn_posted)
  end.
Proof.
  intros Hw. unfold complete_login. destruct (admit_login i request) as [key|] eqn:Ek; cbn [mbind option_bind].
  2: { destruct (stop c) as [c' outs] eqn:Es. by destruct (stop_waiting _ _ _ _ Hw Es) as (? & ? & ->). }
  assert (Hw1 : waiting b (set_client key c)) by (by destruct Hw; split).
  unfold open_backend_connection. rewrite (wt_backend _ _ Hw1).
  change (gc_client_id (cn_derived (set_client key c))) with key. rewrite (admit_login_key _ _ _ Ek).
  destruct (in_backend i) as [sid|]; cbn [mbind option_bind].
  - cbn [set_backend set_client cn_derived gc_backend negb]. destruct Hw as [Hs Ho Hp Hb Hsid Hbk].
    unfold conn_async_send. cbn. rewrite Hs.
    destruct (in_ticket i) as [f|]; cbn; rewrite ?Hb, ?app_nil_r; split_and!; try done; by split_and!.
  - change (set_client key (set_client key c)) with (set_client key c).
    destruct (stop (set_client key c)) as [c' outs] eqn:Es.
    destruct (stop_waiting _ _ _ _ Hw1 Es) as (Hst & Hpo & ->).
    destruct (negb (gc_backend (cn_derived c'))) eqn:Eb.
    + unfold stop. rewrite Hst. by rewrite app_nil_r.
    + revert Es Eb. unfold stop. rewrite (wt_stopped _ _ Hw1). unfold finalize_stop, on_disconnect, gc_on_disconnect. cbn.
      by intros [= <- _].
Qed.

Lemma on_login_frame_result i p b c :
  waiting b c -> bytes p ->
  exists c' outs, on_login_frame i p c = Some (c', outs)
    /\ match login_of i (gc_remote_ip (cn_derived c)) p with
       | Some (key, session_id) =>
           bridging key session_id c' /\ outs = [Calls (CreateBackend key); Calls (SendBackend b)]
           /\ c'.(cn_posted) = c.(cn_posted) ++ option_list i.(in_ticket)
       | None => c'.(cn_stopped) = true /\ backend_bytes outs = [] /\ c'.(cn_posted) = c.(cn_posted)
       end.
Proof.
  intros Hw Hb. unfold on_login_frame, login_of.
  assert (Hstop : exists c' outs, Some (stop c) = Some (c', outs) /\ c'.(cn_stopped) = true
     /\ backend_bytes outs = [] /\ c'.(cn_posted) = c.(cn_posted)).
  { destruct (stop c) as [c' outs] eqn:Es. destruct (stop_waiting _ _ _ _ Hw Es) as (? & ? & ->). by exists c', []. }
  destruct (read_lp_utf8_inv p Hb) as (r & -> & Hr). cbn [mbind option_bind]. destruct r as [[user rest]|]; [|done].
  destruct (Hr _ _ eq_refl) as (Hp & _ & _). rewrite Hp, !bytes_app in Hb. destruct Hb as (_ & _ & Hrest).
  destruct (read_lp_utf8_inv rest Hrest) as (r' & -> & _). cbn [mbind option_bind]. destruct r' as [[token rest']|]; [|done].
  pose proof (complete_login_result i (mkAuthRequest token user (gc_remote_ip (cn_derived c))) b c Hw) as Hc.
  destruct (complete_login _ _ _) as [c' outs]. by exists c', outs.
Qed.

Lemma scans_login_bytes b pongs p bridged : scans b pongs (Login p bridged) -> bytes b -> bytes p.
Proof.
  intros H. remember (Login p bridged) as v eqn:Ev. revert p bridged Ev.
  induction H; intros ?? [= ]; subst; rewrite !bytes_app; naive_solver.
Qed.

(** One read of a waiting connection. *)
Lemma on_read_result i b chunk c :
  waiting b c -> scans b [] (NeedMore b) -> bytes b -> chunk_ok chunk ->
  exists pongs v c' outs, scans (b ++ chunk) pongs v /\ gc_on_read i chunk c = Some (c', outs)
    /\ handshake_result i (gc_remote_ip (cn_derived c)) c.(cn_posted) pongs v c' outs.
Proof.
  intros Hw Hsc Hb [Hcb Hcl]. unfold gc_on_read. rewrite decide_False by (intros ->; cbn in Hcl; lia).
  rewrite (wt_phase _ _ Hw), (wt_prebuffer _ _ Hw).
  apply scans_bound in Hsc. unfold k_header_bytes, kMaxLoginPayloadBytes, k_read_buffer in *.
  destruct (Z.ltb_spec kMaxHandshakeBytes (zlen b + zlen chunk)) as [Hl|_]; [unfold kMaxHandshakeBytes in Hl; lia|].
  assert (Hbb : bytes (b ++ chunk)) by (by apply bytes_app).
  assert (Hw1 : waiting (b ++ chunk) (set_prebuffer (b ++ chunk) c)) by (by destruct Hw; split).
  destruct (try_finish_scans (S (length (b ++ chunk))) i (set_prebuffer (b ++ chunk) c)) as (pongs & v & Hs & Hc);
    [apply Hw1|done|cbn; lia|]. cbn [set_prebuffer set_derived cn_derived gc_prebuffer] in Hs. exists pongs, v.
  generalize dependent (try_finish_handshake (S (length (b ++ chunk))) i (set_prebuffer (b ++ chunk) c)). intros r Hc.
  assert (Hset : forall b', waiting b' (set_prebuffer b' (send_all pongs (set_prebuffer (b ++ chunk) c)))
     /\ (set_prebuffer b' (send_all pongs (set_prebuffer (b ++ chunk) c))).(cn_posted) = c.(cn_posted) ++ pongs).
  { intros b'. rewrite set_prebuffer_send_all. change (set_prebuffer b' (set_prebuffer (b ++ chunk) c)) with (set_prebuffer b' c).
    apply (send_all_waiting b' pongs (set_prebuffer b' c)). by destruct Hw; split. }
  destruct v as [b'| |p bridged]; cbn [conclude] in Hc.
  - destruct (Hset b'). eexists _, _. split_and!; [done|exact Hc|done..|]. cbn. by rewrite send_all_derived.
  - destruct Hc as [b' Hc]. destruct (Hset b') as [Hw' Hp']. destruct (stop _) as [c' outs] eqn:Es in Hc.
    destruct (stop_waiting _ _ _ _ Hw' Es) as (? & ? & ->). exists c', []. split_and!; try done. cbn. split_and!; [done|done|congruence].
  - destruct (Hset bridged) as [Hw' Hp'].
    destruct (on_login_frame_result i p bridged _ Hw') as (c' & outs & Hl & Hr); [by eapply scans_login_bytes|].
    exists c', outs. split_and!; [done|by rewrite Hc|].
    replace (gc_remote_ip (cn_derived (set_prebuffer bridged _))) with (gc_remote_ip (cn_derived c)) in Hr
      by (cbn; by rewrite send_all_derived).
    cbn. destruct (login_of i _ p) as [[key sid]|]; rewrite Hp' in Hr; [|done].
    destruct Hr as (? & -> & ->). rewrite <- app_assoc. cbn. by rewrite app_nil_r.
Qed.

Lemma scans_rest_bytes b pongs b' : scans b pongs (NeedMore b') -> bytes b -> bytes b'.
Proof.
  intros H. remember (NeedMore b') as v eqn:Ev. revert b' Ev.
  induction H; intros b' [= ]; subst; rewrite ?bytes_app; naive_solver.
Qed.

Lemma read_done i chunk (c c' : gconn) outs :
  c.(cn_reading) = Some true -> chunk_ok chunk -> gc_on_read i chunk (set_reading None c) = Some (c', outs) ->
  conn_step (ReadDone i (Some chunk)) c = Some (if c'.(cn_stopped) then c' else read_loop c', outs).
Proof.
  intros Hr [_ Hl] Hg. cbn. rewrite Hr. cbn. destruct (Z.ltb_spec k_read_buffer (zlen chunk)); [lia|].
  unfold handle_read. destruct (Z.ltb_spec 0 (zlen chunk)); [|lia]. cbn [on_read gc_handlers]. by rewrite Hg.
Qed.

Lemma on_read_reading i chunk (c : gconn) r : gc_on_read i chunk c = Some r -> (r.1).(cn_reading) = c.(cn_reading).
Proof. intros Hr. apply base_calls_reading. by apply (on_read_base i chunk). Qed.

(** In the bridging phase every chunk goes to the backend. *)
Lemma feed_bridging i chunks key sid c outs :
  bridging key sid c -> c.(cn_reading) = Some true -> Forall chunk_ok chunks ->
  feed i chunks (c, outs) = Some (c, outs ++ map (fun d => Calls (SendBackend d)) chunks).
Proof.
  intros Hb Hr Hch. revert outs. induction Hch as [|chunk chunks Hc Hch IH]; intros outs; cbn [feed map]; [by rewrite app_nil_r|].
  cbn [fst]. rewrite Hr. destruct Hb as (Hs & Ho & Hp & Hbk & Hk & Hsid).
  rewrite (read_done i chunk c (set_reading None c) [Calls (SendBackend chunk)] Hr Hc).
  - cbn. rewrite Hs. replace (read_loop (set_reading None c)) with c by (destruct c; cbn in *; by subst).
    rewrite IH. by rewrite <- app_assoc.
  - unfold gc_on_read. destruct Hc as [_ Hc]. rewrite decide_False by (intros ->; cbn in Hc; lia).
    cbn. by rewrite Hp, Hbk.
Qed.

Lemma waiting_reading b r (c : gconn) : waiting b c -> waiting b (set_reading r c).
Proof. intros []. by split. Qed.

Lemma handshake_result_reading i remote posted pongs v r c outs :
  handshake_result i remote posted pongs v c outs -> handshake_result i remote posted pongs v (set_reading r c) outs.
Proof. destruct v; cbn; [intros (? & ?); split; [by apply waiting_reading|done]|done|done]. Qed.

Lemma handshake_result_posted i remote posted pongs pongs' v c outs :
  handshake_result i remote (posted ++ pongs) pongs' v c outs ->
  handshake_result i remote posted (pongs ++ pongs') v c outs.
Proof. unfold handshake_result. by rewrite <- !app_assoc. Qed.

Lemma feed_stopped i chunks (c : gconn) outs : c.(cn_reading) = None -> feed i chunks (c, outs) = Some (c, outs).
Proof. intros Hr. destruct chunks; [done|]. cbn. by rewrite Hr. Qed.

Lemma bridged_outs (chunks : list (list Z)) :
  backend_bytes (map (fun d => Calls (SendBackend d)) chunks) = concat chunks
  /\ backends_created (map (fun d => Calls (SendBackend d)) chunks) = [].
Proof.
  induction chunks as [|x l [IH1 IH2]]; [done|]. split; [|done]. unfold backend_bytes in *. cbn in *. by rewrite IH1.
Qed.

Lemma feed_result i chunks b c outs0 :
  waiting b c -> c.(cn_reading) = Some true -> scans b [] (NeedMore b) -> bytes b -> Forall chunk_ok chunks ->
  exists pongs v c' outs, scans (b ++ concat chunks) pongs v /\ feed i chunks (c, outs0) = Some (c', outs0 ++ outs)
    /\ handshake_result i (gc_remote_ip (cn_derived c)) c.(cn_posted) pongs v c' outs.
Proof.
  intros Hw Hr Hsc Hb Hch. revert b c outs0 Hw Hr Hsc Hb.
  induction Hch as [|chunk chunks Hc Hch IH]; intros b c outs0 Hw Hr Hsc Hb.
  { exists [], (NeedMore b), c, []. cbn. by rewrite !app_nil_r. }
  destruct (on_read_result i b chunk (set_reading None c)) as (pongs & v & c1 & outs & Hs & Hg & Hres);
    [by apply waiting_reading|done..|].
  pose proof (on_read_reading _ _ _ _ Hg) as Hr1. cbn in Hr1.
  cbn [feed fst concat]. rewrite Hr, (read_done _ _ _ _ _ Hr Hc Hg). cbn [mbind option_bind snd].
  rewrite app_assoc. pose proof (scans_more _ _ _ (concat chunks) Hs) as Hmore.
  destruct v as [b1| |p bridged].
  - destruct Hres as (Hw1 & -> & Hp1 & Hrem). rewrite (wt_stopped _ _ Hw1).
    destruct (IH b1 (read_loop c1) (outs0 ++ [])) as (pongs' & v' & c' & outs' & Hs' & Hf' & Hres').
    { by apply waiting_reading. }
    { cbn. by rewrite (wt_open _ _ Hw1). }
    { by eapply need_more_idem. }
    { eapply scans_rest_bytes; [done|]. apply bytes_app. split; [done|apply Hc]. }
    exists (pongs ++ pongs'), v', c', outs'. split_and!; [by apply Hmore|by rewrite Hf', app_nil_r|].
    cbn in Hres'. rewrite Hp1, Hrem in Hres'. by apply handshake_result_posted.
  - destruct Hres as (Hst & -> & Hp1). rewrite Hst, feed_stopped by done.
    exists pongs, Reject, c1, []. split_and!; [done|done|done].
  - cbn [handshake_result] in Hres. cbn in Hmore, Hres.
    exists pongs, (Login p (bridged ++ concat chunks)). cbn. destruct (login_of i _ p) as [[key sid]|].
    + destruct Hres as (Hbr & Hcr & Hbb & Hp1). pose proof Hbr as (Hst & Ho & _). rewrite Hst.
      rewrite (feed_bridging i chunks key sid (read_loop c1)); [|by destruct Hbr as (?&?&?)|cbn; by rewrite Ho|done].
      destruct (bridged_outs chunks) as [Hb1 Hb2].
      exists (read_loop c1), (outs ++ map (fun d => Calls (SendBackend d)) chunks). rewrite app_assoc.
      split_and!; [done|done|by destruct Hbr as (?&?&?)|..|done].
      * by rewrite backends_created_app, Hcr, Hb2.
      * by rewrite backend_bytes_app, Hbb, Hb1.
    + destruct Hres as (Hst & Hbb & Hp1). rewrite Hst, feed_stopped by done. by exists c1, outs.
Qed.

(** C17. The handshake does not depend on how the network cuts the client's bytes: whatever the
    chunks (of one byte up to the size of the read buffer), the connection ends in the state
    the grammar gives for all the bytes together - it waits for the rest of a frame, or it is
    stopped with nothing forwarded, or the login was let in, a session was opened for its
    routing key, and exactly the bytes from the login frame on went to the backend - and the
    client is sent one pong per ping and then the ticket. *)
Theorem handshake_refines_grammar i chunks c :
  waiting [] c -> c.(cn_reading) = Some true -> Forall chunk_ok chunks ->
  exists pongs v c' outs, scans (concat chunks) pongs v /\ feed i chunks (c, []) = Some (c', outs)
    /\ handshake_result i (gc_remote_ip (cn_derived c)) c.(cn_posted) pongs v c' outs.
Proof.
  intros Hw Hr Hch. apply (feed_result i chunks [] c [] Hw Hr); [|constructor|done].
  constructor. unfold k_header_bytes. cbn. lia.
Qed.

(** ** Transparent bridging *)

Definition control_frame (f : PacketHeader * list Z) : Prop :=
  sized f.1 f.2 /\ (ph_msg_id f.1 = MSG_PING \/ ph_msg_id f.1 = MSG_PONG).
Definition frame_bytes (f : PacketHeader * list Z) : list Z := header_bytes f.1 ++ f.2.
Definition answers (fs : list (PacketHeader * list Z)) : list (list Z) :=
  omap (fun f => if ph_msg_id f.1 =? MSG_PING then Some (pong_of f.1 f.2) else None) fs.

Lemma scans_stream fs h p rest :
  Forall control_frame fs -> sized h p -> ph_msg_id h = MSG_LOGIN_REQ ->
  scans (concat (map frame_bytes fs) ++ frame_bytes (h, p) ++ rest) (answers fs) (Login p (frame_bytes (h, p) ++ rest)).
Proof.
  intros Hfs Hp Hid. unfold frame_bytes. induction Hfs as [|[h' p'] fs [Hs Hm] Hfs IH]; cbn [map concat].
  - cbn. rewrite <- app_assoc. by apply scan_login.
  - cbn in Hs, Hm. rewrite <- !app_assoc. unfold answers. cbn. destruct Hm as [Hm|Hm]; rewrite Hm; cbn.
    + apply scan_ping; [done|done|]. by rewrite <- !app_assoc in *.
    + apply scan_pong; [done|done|]. by rewrite <- !app_assoc in *.
Qed.

Lemma header_bytes_inj h h' t t' :
  wf_PacketHeader h -> wf_PacketHeader h' -> header_bytes h ++ t = header_bytes h' ++ t' -> h = h' /\ t = t'.
Proof.
  intros Hw Hw' He. assert (Hh : h = h').
  { pose proof (decode_header_app h t Hw) as H1. rewrite He, (decode_header_app h' t' Hw') in H1. by injection H1. }
  subst h'. split; [done|]. by apply app_inv_head in He.
Qed.

Lemma frames_inj h h' p p' t t' :
  sized h p -> sized h' p' -> header_bytes h ++ p ++ t = header_bytes h' ++ p' ++ t' -> h = h' /\ p = p' /\ t = t'.
Proof.
  intros (Hw & Hl & _) (Hw' & Hl' & _) He. apply header_bytes_inj in He as [-> He]; [|done..].
  split; [done|]. by apply app_inj_1 in He; [|lia].
Qed.

Lemma scans_head h0 p0 t0 pongs v :
  sized h0 p0 -> scans (header_bytes h0 ++ p0 ++ t0) pongs v ->
  (ph_msg_id h0 = MSG_PING /\ exists pongs', pongs = pong_of h0 p0 :: pongs' /\ scans t0 pongs' v)
  \/ (ph_msg_id h0 = MSG_PONG /\ scans t0 pongs v)
  \/ (ph_msg_id h0 = MSG_LOGIN_REQ /\ pongs = [] /\ v = Login p0 (header_bytes h0 ++ p0 ++ t0))
  \/ (ph_msg_id h0 <> MSG_PING /\ ph_msg_id h0 <> MSG_PONG /\ ph_msg_id h0 <> MSG_LOGIN_REQ).
Proof.
  intros Hs Hsc. pose proof Hs as (Hw & Hl & Hm). remember (header_bytes h0 ++ p0 ++ t0) as b eqn:Hb.
  destruct Hsc as [b Hlen|h t Hw' Ho|h t Hw' Hm' Ht|h p t pongs v Hs' Hid' Hsc|h p t pongs v Hs' Hid' Hsc
                  |h p t Hs' H1 H2 H3|h p t Hs' Hid'].
  - subst b. rewrite length_app, length_header_bytes in Hlen. unfold k_header_bytes in Hlen. lia.
  - apply header_bytes_inj in Hb as [-> _]; [|done..]. lia.
  - apply header_bytes_inj in Hb as [-> ->]; [|done..]. rewrite length_app in Ht. lia.
  - apply frames_inj in Hb as (-> & -> & ->); [|done..]. left. split; [done|]. by exists pongs.
  - apply frames_inj in Hb as (-> & -> & ->); [|done..]. auto.
  - apply frames_inj in Hb as (-> & -> & ->); [|done..]. do 3 right. done.
  - apply frames_inj in Hb as (-> & -> & ->); [|done..]. right; right; left. done.
Qed.

(** The login frame is found where it is, whatever precedes it. *)
Lemma scans_login_unique fs h p rest pongs v :
  Forall control_frame fs -> sized h p -> ph_msg_id h = MSG_LOGIN_REQ ->
  scans (concat (map frame_bytes fs) ++ frame_bytes (h, p) ++ rest) pongs v ->
  pongs = answers fs /\ v = Login p (frame_bytes (h, p) ++ rest).
Proof.
  intros Hfs Hp Hid. revert pongs. unfold frame_bytes.
  induction Hfs as [|[h' p'] fs [Hs Hm] Hfs IH]; intros pongs; cbn [map concat app fst snd]; rewrite <- ?app_assoc; intros Hsc.
  - apply scans_head in Hsc; [|done]. rewrite Hid in Hsc.
    destruct Hsc as [[? _]|[[? _]|[(_ & -> & ->)|(_ & _ & ?)]]]; done.
  - cbn in Hs, Hm. apply scans_head in Hsc; [|done]. unfold answers. cbn [omap list_omap fst snd].
    destruct Hsc as [(Hi & pongs' & -> & Hsc)|[(Hi & Hsc)|[(Hi & _)|(? & ? & _)]]].
    + rewrite Hi. cbn. rewrite <- !app_assoc in IH. destruct (IH pongs' Hsc) as [-> ->]. done.
    + rewrite Hi. cbn. rewrite <- !app_assoc in IH. by apply IH.
    + rewrite Hi in Hm. by destruct Hm.
    + naive_solver.
Qed.

(** C15. Transparent bridging: when the client sends pings and pongs, a login that is let
    in, and then anything at all, cut into reads in any way, the backend receives the login
    frame and everything after it unchanged, in one session opened under the client's
    routing key; the client receives one pong per ping, with its payload, and then the UDP
    ticket; and the connection is left bridging. *)
Theorem gateway_transparent_bridge i fs h p rest chunks c key session_id :
  waiting [] c -> c.(cn_reading) = Some true ->
  Forall control_frame fs -> sized h p -> ph_msg_id h = MSG_LOGIN_REQ ->
  login_of i (gc_remote_ip (cn_derived c)) p = Some (key, session_id) ->
  Forall chunk_ok chunks -> concat chunks = concat (map frame_bytes fs) ++ frame_bytes (h, p) ++ rest ->
  exists c' outs, feed i chunks (c, []) = Some (c', outs)
    /\ bridging key session_id c' /\ backends_created outs = [key]
    /\ backend_bytes outs = frame_bytes (h, p) ++ rest
    /\ c'.(cn_posted) = c.(cn_posted) ++ answers fs ++ option_list i.(in_ticket).
Proof.
  intros Hw Hr Hfs Hp Hid Hl Hch He.
  destruct (feed_result i chunks [] c [] Hw Hr) as (pongs & v & c' & outs & Hs & Hf & Hres);
    [constructor; unfold k_header_bytes; cbn; lia|constructor|done|].
  cbn [app] in Hs. rewrite He in Hs. apply scans_login_unique in Hs as [-> ->]; [|done..].
  cbn in Hres. rewrite Hl in Hres. exists c', outs. done.
Qed.

(** ** Nothing reaches a backend without a login

    This holds for every order of reads, writes, timeouts and stops. *)

Definition backend_sends (outs : list gout) : list (list Z) :=
  omap (fun o => match o with Calls (SendBackend d) => Some d | _ => None end) outs.
Abbreviation has_backend c := (gc_backend (cn_derived c)).

Lemma backend_bytes_sends outs : backend_sends outs = [] -> backend_bytes outs = [].
Proof. unfold backend_bytes. fold (backend_sends outs). by intros ->. Qed.

(** A step that leaves the handshake alone, asks for no backend and sends nothing to one. *)
Record quiet (c : gconn) (r : gconn * list gout) : Prop := {
  q_created : backends_created r.2 = [];
  q_sends : backend_sends r.2 = [];
  q_phase : (cn_derived r.1).(gc_phase) = (cn_derived c).(gc_phase);
  q_prebuffer : (cn_derived r.1).(gc_prebuffer) = (cn_derived c).(gc_prebuffer);
  q_remote : (cn_derived r.1).(gc_remote_ip) = (cn_derived c).(gc_remote_ip);
  q_backend : has_backend r.1 = true -> has_backend c = true;
  q_reading : (r.1).(cn_reading) = c.(cn_reading) \/ (r.1).(cn_reading) = None;
  q_stopped : c.(cn_stopped) = true -> (r.1).(cn_stopped) = true;
}.

Ltac quiet_tac := solve [split; cbn; first [done|by left|by auto|intros; congruence]].

Lemma quiet_finalize (c : gconn) : quiet c (finalize_stop c).
Proof.
  unfold finalize_stop, on_disconnect, gc_on_disconnect. cbn.
  split; cbn; try done; [by destruct (bool_decide _)..|by left].
Qed.

Lemma quiet_stop c : quiet c (stop c).
Proof.
  unfold stop. destruct (cn_stopped c) eqn:Es; [quiet_tac|].
  destruct (quiet_finalize (set_stopped false c)). by split.
Qed.

Lemma stop_stopped (c : gconn) : cn_stopped (stop c).1 = true /\ cn_reading (stop c).1 = cn_reading c.
Proof. unfold stop. destruct (cn_stopped c) eqn:Es; [done|]. by unfold finalize_stop, on_disconnect, gc_on_disconnect. Qed.

Lemma quiet_outside (c : gconn) : quiet c (stop_outside c, []).
Proof. unfold stop_outside. destruct (cn_stopped c) eqn:Es; quiet_tac. Qed.

Lemma quiet_send data (c : gconn) : quiet c (conn_async_send data c, []).
Proof. unfold conn_async_send. destruct (cn_stopped c) eqn:Es; quiet_tac. Qed.

Lemma quiet_do_write c0 c outs : quiet c0 (c, outs) -> quiet c0 (conn_do_write c, outs).
Proof. intros []. unfold conn_do_write. destruct (cn_queue c); by split. Qed.

(** The bytes that reads deliver, in order; and the events after the start. *)
Definition received (evs : list gc_event) : list Z :=
  concat (omap (fun ev => match ev with Base (ReadDone _ (Some d)) => Some d | _ => None end) evs).
Definition not_start (ev : gc_event) : Prop := match ev with Base (Start _) => False | _ => True end.

Lemma received_app a b : received (a ++ b) = received a ++ received b.
Proof. unfold received. by rewrite omap_app, concat_app. Qed.

Lemma gc_step_quiet ev c r :
  gc_step ev c = Some r -> not_start ev ->
  (exists i data, ev = Base (ReadDone i (Some data))) \/ (received [ev] = [] /\ quiet c r).
Proof.
  destruct ev as [[i|i data| |ok| | |data]|data| |]; cbn [gc_step conn_step not_start]; try done.
  - destruct data as [data|]; [by left; eauto|]. intros (b & _ & Hr)%bind_Some _. right. split; [done|].
    injection Hr as <-. destruct (quiet_stop (set_reading None c)). split; try done. right.
    apply (stop_stopped (set_reading None c)).
  - destruct (cn_posted c) as [|data rest]; [done|]. intros [= <-] _. right. split; [done|]. unfold send_posted.
    cbn [cn_stopped set_posted]. destruct (cn_stopped c) eqn:Es; [quiet_tac|].
    destruct ((0 <? _) && _); [by destruct (quiet_stop (set_posted rest c)); split|].
    destruct (bool_decide _); [apply quiet_do_write|]; quiet_tac.
  - intros (b & _ & Hr)%bind_Some _. injection Hr as <-. right. split; [done|]. unfold handle_write.
    destruct ok; [apply quiet_do_write; quiet_tac|].
    by destruct (quiet_stop (set_writes (cn_queue c) (cn_queued c) None c)); split.
  - intros [= <-] _. right. split; [done|apply quiet_outside].
  - destruct (cn_finalizing c); [|done]. intros [= <-] _. right. split; [done|apply quiet_finalize].
  - intros [= <-] _. right. split; [done|apply quiet_send].
  - intros [= <-] _. right. split; [done|]. destruct (_ || _); [quiet_tac|apply quiet_send].
  - intros [= <-] _. right. split; [done|]. destruct (gc_closing _); [quiet_tac|].
    by destruct (quiet_outside (set_closing c)); split.
  - destruct (negb _); [done|]. intros [= <-] _. right. split; [done|].
    destruct (_ || _); [quiet_tac|]. destruct (decide _); [|quiet_tac].
    by destruct (quiet_outside (disarm c)); split.
Qed.

(** What the bytes of a verdict are made of: control frames, and then the rest. *)
Definition made_of (b : list Z) (v : verdict) : Prop :=
  exists fs, Forall control_frame fs /\
    match v with
    | NeedMore b' => b = concat (map frame_bytes fs) ++ b'
    | Reject => True
    | Login p bridged => exists h t, bridged = frame_bytes (h, p) ++ t /\ sized h p
        /\ ph_msg_id h = MSG_LOGIN_REQ /\ b = concat (map frame_bytes fs) ++ bridged
    end.

Lemma made_of_cons h p t v :
  control_frame (h, p) -> made_of t v -> made_of (header_bytes h ++ p ++ t) v.
Proof.
  intros Hf (fs & Hfs & Hv). exists ((h, p) :: fs). split; [by constructor|].
  cbn [map concat]. unfold frame_bytes at 1 3. cbn [fst snd]. destruct v as [b'| |p' br]; [by rewrite Hv, !app_assoc|done|].
  destruct Hv as (h' & t' & -> & ? & ? & ->). exists h', t'. split_and!; [done..|by rewrite !app_assoc].
Qed.

Lemma scans_frames b pongs v : scans b pongs v -> made_of b v.
Proof.
  induction 1 as [b Hb|h t Hw Ho|h t Hw Hm Ht|h p t pongs v Hs Hid Hsc IH|h p t pongs v Hs Hid Hsc IH
                 |h p t Hs H1 H2 H3|h p t Hs Hid].
  4: { apply made_of_cons; [|done]. split; [done|by left]. }
  4: { apply made_of_cons; [|done]. split; [done|by right]. }
  5: { exists []. split; [constructor|]. exists h, t. unfold frame_bytes. cbn [fst snd]. by rewrite <- app_assoc. }
  all: exists []; by split; [constructor|].
Qed.

(** A login frame of the client with its fields, admitted under a key. *)
Definition admitted_login (i : GcInput) (remote : string) (p : list Z) (key : string) : Prop :=
  exists user rest token rest', read_lp_utf8 p = Some (Some (user, rest))
    /\ read_lp_utf8 rest = Some (Some (token, rest'))
    /\ admit_login i (mkAuthRequest token user remote) = Some key.

(** No data will be delivered any more. *)
Definition done_reading (c : gconn) : Prop := c.(cn_stopped) = true /\ c.(cn_reading) <> Some true.

Definition rejected (c' : gconn) (outs : list gout) : Prop :=
  c'.(cn_stopped) = true /\ has_backend c' = false /\ backends_created outs = [] /\ backend_bytes outs = [].

Lemma rejected_stop c : has_backend c = false -> rejected (stop c).1 (stop c).2.
Proof.
  intros Hb. destruct (quiet_stop c). split_and!; [apply stop_stopped| |done|by apply backend_bytes_sends].
  destruct (has_backend (stop c).1); [by rewrite q_backend0 in Hb|done].
Qed.

(** A login leads to one backend under the key, used for the bytes kept so far, or to none
    with the connection stopped. *)
Definition opened (key : string) (b : list Z) (c' : gconn) (outs : list gout) : Prop :=
  backends_created outs = [key]
  /\ ((c'.(cn_stopped) = true /\ has_backend c' = false /\ backend_bytes outs = [])
      \/ ((cn_derived c').(gc_phase) = kBridging /\ backend_bytes outs = b)).

Lemma complete_login_cases i request c c' outs :
  has_backend c = false -> complete_login i request c = (c', outs) ->
  rejected c' outs \/ exists key, admit_login i request = Some key
    /\ opened key (cn_derived c).(gc_prebuffer) c' outs.
Proof.
  intros Hb. unfold complete_login. destruct (admit_login i request) as [key|] eqn:Ek.
  2: { intros Hs. left. pose proof (rejected_stop c Hb) as Hr. by rewrite Hs in Hr. }
  unfold open_backend_connection. change (has_backend (set_client key c)) with (has_backend c). rewrite Hb.
  change (gc_client_id (cn_derived (set_client key c))) with key. rewrite (admit_login_key _ _ _ Ek).
  change (set_client key (set_client key c)) with (set_client key c).
  intros H. right. exists key. split; [done|]. revert H. destruct (in_backend i) as [sid|].
  - cbn [negb set_backend set_derived cn_derived gc_backend]. intros [= <- <-]. split; [done|]. right. split; [done|].
    unfold backend_bytes. cbn [omap list_omap app concat]. rewrite app_nil_r.
    destruct (in_ticket i); [|done]. cbn [from_option]. by rewrite async_send_derived.
  - pose proof (rejected_stop (set_client key c) Hb) as (Hs1 & Hb1 & Hc1 & Hy1).
    destruct (stop (set_client key c)) as [c1 o1]. cbn [fst snd] in *. rewrite Hb1. cbn [negb].
    unfold stop. rewrite Hs1. intros [= <- <-]. rewrite app_nil_r. split.
    + change (key :: backends_created o1 = [key]). by rewrite Hc1.
    + left. split_and!; [done|done|]. done.
Qed.

(** One read while the connection waits for the login. *)
Lemma read_waiting i data c c' outs :
  let b := (cn_derived c).(gc_prebuffer) ++ data in
  (cn_derived c).(gc_phase) = kWaitingForLogin -> has_backend c = false -> bytes b ->
  gc_on_read i data c = Some (c', outs) ->
  ((cn_derived c').(gc_phase) = kWaitingForLogin /\ has_backend c' = false
   /\ (cn_derived c').(gc_remote_ip) = (cn_derived c).(gc_remote_ip) /\ outs = []
   /\ exists fs, Forall control_frame fs /\ b = concat (map frame_bytes fs) ++ (cn_derived c').(gc_prebuffer))
  \/ rejected c' outs
  \/ exists fs h p post key, Forall control_frame fs /\ b = concat (map frame_bytes fs) ++ frame_bytes (h, p) ++ post
       /\ sized h p /\ ph_msg_id h = MSG_LOGIN_REQ
       /\ admitted_login i (cn_derived c).(gc_remote_ip) p key /\ opened key (frame_bytes (h, p) ++ post) c' outs.
Proof.
  cbv zeta. intros Hph Hbk Hb. unfold gc_on_read. destruct (decide (data = [])) as [->|Hne].
  { rewrite app_nil_r. intros [= <- <-]. left. split_and!; [done..|]. by exists []. }
  rewrite Hph. destruct (_ <? _).
  { intros [= Hs]. right; left. pose proof (rejected_stop c Hbk) as Hr. by rewrite Hs in Hr. }
  set (b := gc_prebuffer (cn_derived c) ++ data) in *. set (c0 := set_prebuffer b c).
  destruct (try_finish_scans (S (length b)) i c0) as (pongs & v & Hs & Hc); [done|done|cbn; lia|].
  change (gc_prebuffer (cn_derived c0)) with b in Hs. apply scans_frames in Hs as (fs & Hfs & Hv).
  assert (Hset : forall b', cn_derived (set_prebuffer b' (send_all pongs c0)) = cn_derived (set_prebuffer b' c)).
  { intros b'. rewrite set_prebuffer_send_all, send_all_derived. done. }
  intros Hr. rewrite Hr in Hc. destruct v as [b'| |p bridged]; cbn [conclude] in Hc.
  - injection Hc as -> ->. left. rewrite Hset. split_and!; [done..|]. by exists fs.
  - destruct Hc as [b' Hc]. right; left. injection Hc as Hc.
    pose proof (rejected_stop (set_prebuffer b' (send_all pongs c0))) as Hj. rewrite <- Hc in Hj.
    apply Hj. by rewrite Hset.
  - destruct Hv as (h & t & -> & Hsz & Hid & Hbb). set (c1 := set_prebuffer _ _) in Hc.
    assert (Hd : cn_derived c1 = cn_derived (set_prebuffer (frame_bytes (h, p) ++ t) c)) by apply Hset.
    assert (Hb1 : has_backend c1 = false) by (by rewrite Hd).
    symmetry in Hc. unfold on_login_frame in Hc. apply bind_Some in Hc as (u & Hu & Hc).
    assert (Hrej : forall r, Some (stop c1) = Some r -> r = (c', outs) -> rejected c' outs).
    { intros r [= <-] He. pose proof (rejected_stop c1 Hb1) as Hj. by rewrite He in Hj. }
    destruct u as [[user rest]|]; [|right; left; by eapply Hrej].
    apply bind_Some in Hc as (u & Hu' & Hc). destruct u as [[token rest']|]; [|right; left; by eapply Hrej].
    injection Hc as Hc. apply complete_login_cases in Hc as [Hc|(key & Hk & Ho)]; [right; by left| |done].
    right; right. exists fs, h, p, t, key. split_and!; try done.
    exists user, rest, token, rest'. split_and!; [done|done|]. assert (Hrem : gc_remote_ip (cn_derived c1) = gc_remote_ip (cn_derived c)) by (by rewrite Hd). rewrite <- Hrem. exact Hk.
Qed.

(** ** The run of a connection *)

Section login_run.
Context (i0 : GcInput).

Abbreviation remote := (default EmptyString (in_remote i0)).

(** Every backend so far: none while the client has sent control frames only, or after a
    rejection; else the one its login was let in for, which got bytes from the login on. *)
Definition login_state (tr : list gc_event) (c : gconn) (outs : list gout) : Prop :=
  (has_backend c = false /\ backends_created outs = [] /\ backend_bytes outs = []
   /\ (done_reading c
       \/ ((cn_derived c).(gc_phase) = kWaitingForLogin /\ (cn_derived c).(gc_remote_ip) = remote
           /\ exists fs, Forall control_frame fs
                /\ received tr = concat (map frame_bytes fs) ++ (cn_derived c).(gc_prebuffer))))
  \/ exists fs h p post i data key dropped,
       Forall control_frame fs /\ received tr = concat (map frame_bytes fs) ++ frame_bytes (h, p) ++ post
       /\ sized h p /\ ph_msg_id h = MSG_LOGIN_REQ /\ Base (ReadDone i (Some data)) ∈ tr
       /\ admitted_login i remote p key /\ backends_created outs = [key]
       /\ backend_bytes outs ++ dropped = frame_bytes (h, p) ++ post
       /\ (done_reading c
           \/ ((cn_derived c).(gc_phase) = kBridging /\ (has_backend c = true -> dropped = []))).

Lemma done_reading_quiet c r : quiet c r -> done_reading c -> done_reading r.1.
Proof. intros Hq [Hs Hr]. split; [by apply Hq|]. destruct (q_reading _ _ Hq) as [-> | ->]; done. Qed.

Lemma login_state_quiet tr ev c outs r :
  quiet c r -> received [ev] = [] -> login_state tr c outs -> login_state (tr ++ [ev]) r.1 (outs ++ r.2).
Proof.
  intros Hq Hev Hl. pose proof (done_reading_quiet _ _ Hq) as Hdone.
  destruct Hq as [Hq1 Hq2 Hq3 Hq4 Hq5 Hq6 Hq7 Hq8].
  unfold login_state. rewrite received_app, Hev, app_nil_r, backends_created_app, Hq1, app_nil_r,
    backend_bytes_app, (backend_bytes_sends _ Hq2), app_nil_r, Hq3, Hq4, Hq5.
  destruct Hl as [(Hb & Hc & Hy & Hd)|(fs & h & p & post & i & d & key & dr & ? & ? & ? & ? & Hin & ? & ? & ? & Hd)].
  - left. split_and!; [|done|done|].
    + destruct (has_backend r.1); [by rewrite Hq6 in Hb|done].
    + destruct Hd as [Hd|Hd]; [left; by apply Hdone|by right].
  - right. exists fs, h, p, post, i, d, key, dr. split_and!; try done; [apply elem_of_app; by left|].
    destruct Hd as [Hd|[Hp Hd]]; [left; by apply Hdone|right]. split; [done|]. auto.
Qed.

Lemma login_state_read tr i data c outs r :
  bytes (received (tr ++ [Base (ReadDone i (Some data))])) -> login_state tr c outs ->
  gc_step (Base (ReadDone i (Some data))) c = Some r ->
  login_state (tr ++ [Base (ReadDone i (Some data))]) r.1 (outs ++ r.2).
Proof.
  set (ev := Base (ReadDone i (Some data))). intros Hbytes Hl Hs. cbn in Hs.
  apply bind_Some in Hs as (b & Hrd & Hs). destruct (negb b || _) eqn:Eb; [done|].
  assert (b = true) as -> by (by destruct b).
  assert (Hnd : ~ done_reading c) by (by intros [_ ?]).
  assert (Hrecv : received (tr ++ [ev]) = received tr ++ data)
    by (rewrite received_app; unfold received at 2; cbn; by rewrite app_nil_r).
  unfold handle_read in Hs. apply bind_Some in Hs as ([c1 o] & Hread & Hs). injection Hs as <-. cbn [fst snd].
  assert (Hg : gc_on_read i data (set_reading None c) = Some (c1, o)).
  { destruct (Z.ltb_spec 0 (zlen data)); [done|]. destruct data; [done|cbn in *; lia]. }
  pose proof (on_read_reading _ _ _ _ Hg) as Hrn. cbn in Hrn.
  assert (Hdone : cn_stopped c1 = true -> done_reading (if cn_stopped c1 then c1 else read_loop c1)).
  { intros Hst. rewrite Hst. split; [done|]. by rewrite Hrn. }
  assert (Hder : cn_derived (if cn_stopped c1 then c1 else read_loop c1) = cn_derived c1) by (by destruct (cn_stopped c1)).
  unfold login_state. rewrite Hder, Hrecv, backends_created_app, backend_bytes_app. rewrite Hrecv in Hbytes.
  destruct Hl as [(Hb & Hc & Hy & [Hd|(Hph & Hrem & fs0 & Hfs0 & Hrc)])
                 |(fs & h & p & post & i' & d & key & dr & Hfs & Hrc & Hsz & Hid & Hin & Ha & Hcr & Hy & [Hd|[Hph Hdr]])];
    [done| |done|].
  - rewrite Hrc in Hbytes. rewrite <- app_assoc in Hbytes. apply bytes_app in Hbytes as [_ Hbytes].
    destruct (read_waiting i data (set_reading None c) c1 o Hph Hb Hbytes Hg)
      as [(H1 & H2 & H3 & -> & fs & Hfs & Hbb)|[(H1 & H2 & H3 & H4)|(fs & h & p & post & key & Hfs & Hbb & Hsz & Hid & Ha & [Hcr Ho])]];
      rewrite ?Hc, ?Hy in *; cbn [app].
    + left. split_and!; [done..|]. right. split_and!; [done|rewrite H3; exact Hrem|]. exists (fs0 ++ fs).
      split; [by apply Forall_app|]. cbn in Hbb. rewrite Hrc, <- app_assoc, Hbb, map_app, concat_app. by rewrite app_assoc.
    + left. split_and!; [done..|]. left. by apply Hdone.
    + right. cbn [cn_derived set_reading] in Ha. rewrite Hrem in Ha. cbn in Hbb.
      assert (Hall : received tr ++ data = concat (map frame_bytes (fs0 ++ fs)) ++ frame_bytes (h, p) ++ post)
        by (rewrite Hrc, <- app_assoc, Hbb, map_app, concat_app; by rewrite app_assoc).
      destruct Ho as [(Hst & Hb1 & Hy1)|[Hph1 Hy1]].
      * exists (fs0 ++ fs), h, p, post, i, data, key, (frame_bytes (h, p) ++ post). rewrite Hy1.
        split_and!; try done; [by apply Forall_app|apply elem_of_app; right; by left|]. left. by apply Hdone.
      * exists (fs0 ++ fs), h, p, post, i, data, key, []. rewrite Hy1, app_nil_r.
        split_and!; try done; [by apply Forall_app|apply elem_of_app; right; by left|]. right. done.
  - unfold gc_on_read in Hg. cbn [cn_derived set_reading] in Hg. rewrite Hph in Hg.
    assert (Hin' : Base (ReadDone i' (Some d)) ∈ tr ++ [ev]) by (apply elem_of_app; by left).
    assert (Hrc' : received tr ++ data = concat (map frame_bytes fs) ++ frame_bytes (h, p) ++ post ++ data)
      by (rewrite Hrc; by rewrite <- !app_assoc).
    right. destruct (decide (data = [])) as [->|].
    { injection Hg as <- <-. rewrite app_nil_r in Hrc'. exists fs, h, p, post, i', d, key, dr.
      rewrite !app_nil_r in *. split_and!; try done. by right. }
    injection Hg as <- <-. cbn [cn_derived set_reading]. destruct (has_backend c) eqn:Ebk.
    + rewrite (Hdr eq_refl), app_nil_r in Hy. exists fs, h, p, (post ++ data), i', d, key, [].
      assert (Ho : backends_created [Calls (SendBackend data)] = [] /\ backend_bytes [Calls (SendBackend data)] = data)
        by (unfold backend_bytes; cbn; by rewrite app_nil_r).
      destruct Ho as [-> ->]. rewrite !app_nil_r, Hy. split_and!; try done; [by rewrite <- !app_assoc|by right].
    + exists fs, h, p, (post ++ data), i', d, key, (dr ++ data).
      change (backends_created (@nil gout)) with (@nil string). change (backend_bytes (@nil gout)) with (@nil Z).
      rewrite !app_nil_r, (app_assoc _ dr data), Hy. split_and!; try done; [by rewrite <- !app_assoc|by right].
Qed.

Lemma gc_run_logins evs tr c outs c' outs' :
  Forall not_start evs -> bytes (received (tr ++ evs)) -> login_state tr c outs ->
  gc_run evs (c, outs) = Some (c', outs') -> login_state (tr ++ evs) c' outs'.
Proof.
  intros Hns. revert tr c outs. induction Hns as [|ev evs Hev Hns IH]; intros tr c outs Hb Hl; cbn [gc_run].
  { intros [= <- <-]. by rewrite app_nil_r. }
  intros ([c1 o] & Hs & Hr)%bind_Some. cbn [fst snd] in *. rewrite cons_middle, app_assoc in Hb |- *.
  eapply IH; [done| |exact Hr].
  destruct (gc_step_quiet _ _ _ Hs Hev) as [(i & data & ->)|[Hrv Hq]].
  - apply (login_state_read tr i data c outs (c1, o)); [|done|done].
    rewrite received_app in Hb. by apply bytes_app in Hb as [? _].
  - by apply (login_state_quiet tr ev c outs (c1, o)).
Qed.

Lemma start_login_state max :
  let '(c, outs) := conn_start i0 (new_Connection max new_GatewayConnection) in
  login_state [] c outs.
Proof.
  unfold conn_start. cbn [cn_stopped new_Connection on_connect gc_handlers]. unfold gc_on_connect.
  destruct (in_admitted i0); cbn [negb].
  - left. split_and!; [done..|]. right. split_and!; [done..|]. by exists [].
  - left. split_and!; [done..|]. left. by split.
Qed.
End login_run.

(** C21. Nothing reaches a backend without a login.  Take a connection that is started and
    then sees reads, writes, timeouts and stops in any order.  Either no backend session was
    asked for and no byte went to a backend; or the bytes the client sent are control frames
    (pings and pongs), then a login frame, then anything, the admission rules let the
    request in that this frame carries (with the client's address), exactly one backend
    session was asked for, under the key they gave, and what went to the backend is a prefix
    of the client's bytes from the login frame on. *)
Theorem gateway_login_required max i0 evs c outs :
  Forall not_start evs -> bytes (received evs) ->
  gc_run (Base (Start i0) :: evs) (new_Connection max new_GatewayConnection, []) = Some (c, outs) ->
  (backends_created outs = [] /\ backend_bytes outs = [])
  \/ exists fs h p post i data key,
       received evs = concat (map frame_bytes fs) ++ frame_bytes (h, p) ++ post
       /\ Forall control_frame fs /\ sized h p /\ ph_msg_id h = MSG_LOGIN_REQ
       /\ Base (ReadDone i (Some data)) ∈ evs
       /\ admitted_login i (default EmptyString i0.(in_remote)) p key
       /\ backends_created outs = [key]
       /\ backend_bytes outs `prefix_of` frame_bytes (h, p) ++ post.
Proof.
  intros Hns Hb. cbn [gc_run gc_step conn_step]. pose proof (start_login_state i0 max) as H0.
  destruct (conn_start _ _) as [c0 o0]. cbn [mbind option_bind fst snd app].
  intros Hr. apply (gc_run_logins i0 evs [] c0 o0) in Hr; [|done..]. cbn [app] in Hr.
  destruct Hr as [(_ & ? & ? & _)|(fs & h & p & post & i & d & key & dr & ? & ? & ? & ? & ? & ? & ? & Hy & _)]; [by left|].
  right. exists fs, h, p, post, i, d, key. split_and!; try done. by exists dr.
Qed.

(** ** Examples *)

#[local] Transparent header_bytes.

Definition lp_bytes (s : string) : list Z := be16 (zlen (bytes_of_string s)) ++ bytes_of_string s.
Definition example_login : list Z := lp_bytes "alice" ++ lp_bytes "t".
Definition example_header : PacketHeader := mkPacketHeader (zlen example_login) MSG_LOGIN_REQ 0 1 0.
Definition example_ping : PacketHeader * list Z := (mkPacketHeader 2 MSG_PING 0 9 0, [1; 2]).
Definition example_input : GcInput :=
  mkGcInput true (Some "ip"%string) (Some noop_authenticate) false (Some "gw-1"%string) (Some [7; 7]).
Definition example_start : gconn :=
  (conn_start example_input (new_Connection k_default_send_queue_max new_GatewayConnection)).1.
(** The ping and the login, cut after the first five bytes. *)
Definition example_chunks : list (list Z) :=
  let s := frame_bytes example_ping ++ frame_bytes (example_header, example_login) ++ [42] in [take 5 s; drop 5 s].

Lemma example_waiting : waiting [] example_start /\ example_start.(cn_reading) = Some true.
Proof. by split. Qed.

Lemma example_chunks_ok : Forall chunk_ok example_chunks.
Proof.
  assert (Hb : bytes (concat example_chunks)) by (apply (bool_decide_unpack _); by vm_compute).
  unfold example_chunks in *. cbn [concat] in Hb. apply bytes_app in Hb as [H1 [H2 _]%bytes_app].
  repeat constructor; try done; vm_compute; done.
Qed.

Lemma sized_login : sized example_header example_login.
Proof. repeat split; vm_compute; done. Qed.

Lemma handshake_refines_grammar_witness :
  exists pongs v c' outs, scans (concat example_chunks) pongs v
    /\ feed example_input example_chunks (example_start, []) = Some (c', outs)
    /\ handshake_result example_input "ip" [] pongs v c' outs.
Proof.
  exact (handshake_refines_grammar example_input example_chunks example_start
           (proj1 example_waiting) (proj2 example_waiting) example_chunks_ok).
Defined.

Lemma gateway_transparent_bridge_witness :
  exists c' outs, feed example_input example_chunks (example_start, []) = Some (c', outs)
    /\ bridging "alice" "gw-1" c' /\ backends_created outs = ["alice"%string]
    /\ backend_bytes outs = frame_bytes (example_header, example_login) ++ [42]
    /\ c'.(cn_posted) = [] ++ answers [example_ping] ++ [[7; 7]].
Proof.
  apply (gateway_transparent_bridge example_input [example_ping] example_header example_login [42] example_chunks
           example_start "alice" "gw-1" (proj1 example_waiting) (proj2 example_waiting)).
  - constructor; [|constructor]. split; [repeat split; vm_compute; done|by left].
  - exact sized_login.
  - reflexivity.
  - vm_compute. reflexivity.
  - exact example_chunks_ok.
  - vm_compute. reflexivity.
Defined.

Definition example_run : list gc_event :=
  [Base (ReadDone example_input (Some (frame_bytes example_ping)));
   Base (ReadDone example_input (Some (frame_bytes (example_header, example_login))))].

Lemma gateway_login_required_witness :
  exists c outs, gc_run (Base (Start example_input) :: example_run)
      (new_Connection k_default_send_queue_max new_GatewayConnection, []) = Some (c, outs)
    /\ exists key, backends_created outs = [key].
Proof.
  destruct (gc_run (Base (Start example_input) :: example_run)
      (new_Connection k_default_send_queue_max new_GatewayConnection, [])) as [[c outs]|] eqn:Er; [|by vm_compute in Er].
  exists c, outs. split; [done|].
  destruct (gateway_login_required k_default_send_queue_max example_input example_run c outs)
    as [[Hn _]|(fs & h & p & post & i & d & key & _ & _ & _ & _ & _ & _ & Hk & _)].
  - repeat constructor.
  - apply (bool_decide_unpack _). by vm_compute.
  - exact Er.
  - vm_compute in Er. injection Er as _ <-. by vm_compute in Hn.
  - by exists key.
Defined.

(** A ping, its pong written. *)
Definition example_pong_run : list (conn_event GcInput) :=
  [Start example_input; ReadDone example_input (Some (frame_bytes example_ping)); Posted; WriteDone true].

Lemma connection_fifo_witness :
  exists c outs, conn_run example_pong_run (new_Connection k_default_send_queue_max new_GatewayConnection, []) = Some (c, outs)
    /\ (exists rest, accepted outs = wrote outs ++ rest) /\ wrote outs = answers [example_ping].
Proof.
  destruct (conn_run example_pong_run (new_Connection k_default_send_queue_max new_GatewayConnection, []))
    as [[c outs]|] eqn:Er; [|by vm_compute in Er].
  exists c, outs. split; [done|]. split.
  - apply (connection_fifo k_default_send_queue_max new_GatewayConnection example_pong_run c outs); [|exact Er].
    unfold k_default_send_queue_max. lia.
  - vm_compute in Er. injection Er as _ <-. vm_compute. reflexivity.
Defined.

Definition sessions_closed (outs : list gout) : list string :=
  omap (fun o => match o with Calls (CloseBackend sid) => Some sid | _ => None end) outs.

(** The handshake timer stops the connection from outside its strand.  When the read that
    carries the login had completed by then, its handler still runs, after the
    finalization, and logs the client in: a backend session is opened for a connection that
    has no operation under way any more, and nothing closes it. *)
Lemma late_login_leaks_session :
  match gc_run [Base (Start example_input); HandshakeTimeout; Base Finalize;
                Base (ReadDone example_input (Some (frame_bytes (example_header, example_login))))]
          (new_Connection k_default_send_queue_max new_GatewayConnection, []) with
  | Some (c, outs) =>
      backends_created outs = ["alice"%string] /\ sessions_closed outs = []
      /\ (c.(cn_stopped), c.(cn_finalizing), c.(cn_reading), c.(cn_writing), c.(cn_posted)) = (true, false, None, None, [])
  | None => False
  end.
Proof. by vm_compute. Qed.
