(* ===== verification/GatewayUdp.v ===== *)
(** The UDP path of the gateway, [gateway/src/gateway_app.cpp]: tickets that bind a UDP
    endpoint to a session, the bind request, and the receive handler that forwards
    datagrams, plain or through the reliable UDP engine, to the backend of the session.

    The sections under [session_mutex_] of one datagram are run together.  HMAC-SHA256
    (OpenSSL) is a parameter, as is the order in which [sessions_] is traversed.  Random
    numbers and clocks are arguments.  [None] is an access outside a buffer, or undefined
    behaviour of the engine. *)

From S2P Require Import Prelude Text Wire Utf8 ProtocolErrors Dispatch RudpPacket AckWindow RetransmissionQueue RudpEngine AdminAuth UdpGuard Rollout.

(** ** Data *)

Abbreviation endpoint := (string * Z)%type.

Definition endpoint_key (ep : endpoint) : string := ep.1 +:+ ":" +:+ pretty ep.2.

Record UdpBindTicket := mkTicket {
  tk_session_id : string;
  tk_nonce : Z;
  tk_expires_unix_ms : Z;
  tk_token : string;
}.

(** [ParsedUdpBindRequest] has the same fields. *)
Abbreviation bind_request := UdpBindTicket (only parsing).

Record SessionState := mkSessionState {
  gs_client_id : string;
  udp_bound : bool;
  udp_endpoint : endpoint;
  udp_nonce : Z;
  udp_expires_unix_ms : Z;
  udp_ticket_issued_unix_ms : Z;
  udp_bind_fail_attempts : Z;
  udp_bind_retry_after_unix_ms : Z;
  udp_token : string;
  udp_sequenced_metrics : UdpSequencedMetrics;
  rudp_selected : bool;
  rudp_fallback_to_tcp : bool;
  rudp_engine : option RudpEngine;
}.

Definition no_endpoint : endpoint := (EmptyString, 0).

Definition new_SessionState (client_id : string) : SessionState :=
  mkSessionState client_id false no_endpoint 0 0 0 0 0 EmptyString default_UdpSequencedMetrics false false None.

(** What the gateway counts on this path. *)
Inductive counter :=
  | udp_packets_total_ | udp_receive_error_total_ | udp_bind_ticket_issued_total_ | udp_bind_success_total_
  | udp_bind_reject_total_ | udp_bind_rate_limit_reject_total_ | udp_bind_block_total_
  | udp_bind_retry_backoff_total_ | udp_bind_retry_reject_total_ | udp_opcode_allowlist_reject_total_
  | udp_replay_drop_total_ | udp_duplicate_drop_total_ | udp_retransmit_total_ | udp_reorder_drop_total_
  | udp_loss_estimated_total_ | udp_forward_total_ | udp_forward_class_total_ (d : DeliveryClass)
  | rudp_packets_total_ | rudp_packets_reject_total_ | rudp_inner_forward_total_ | rudp_fallback_total_
  | rudp_fallback_metric_ (r : RudpFallbackReason).

(** [bound_session->send], [send_udp_datagram] and the counters. *)
Inductive gw_out :=
  | Forward (session_id : string) (data : list Z)
  | SendUdp (ep : endpoint) (frame : list Z)
  | Count (c : counter) (n : Z).

Record GatewayConfig := mkGatewayConfig {
  udp_listen_port_ : Z;
  udp_bind_secret_ : string;
  udp_bind_ttl_ms_ : Z;
  udp_bind_retry_backoff_ms_ : Z;
  udp_bind_retry_backoff_max_ms_ : Z;
  udp_bind_retry_max_attempts_ : Z;
  udp_opcode_allowlist_ : gset Z;
  rudp_rollout_policy_ : RudpRolloutPolicy;
  rudp_config_ : RudpConfig;
}.

Record UdpGateway := mkUdpGateway {
  sessions_ : gmap string SessionState;
  udp_bind_abuse_guard_ : UdpBindAbuseGuard;
}.

Class GatewayEnv := {
  gw_cfg : GatewayConfig;
  gw_hmac : chars -> chars -> option (list Z);
  session_order : gmap string SessionState -> list (string * SessionState);
  session_order_perm : forall m, session_order m ≡ₚ map_to_list m;
}.

(** ** Bytes *)

Definition be64 (v : Z) : list Z :=
  (fun sh => u8 (Z.land (Z.shiftr v sh) 0xFF)) <$> [56; 48; 40; 32; 24; 16; 8; 0].

Definition read_be64 (input : list Z) : option (Z * list Z) :=
  if zlen input <? 8 then None
  else match input with
       | b0 :: b1 :: b2 :: b3 :: b4 :: b5 :: b6 :: b7 :: rest =>
           Some (Z.lor (Z.shiftl b0 56) (Z.lor (Z.shiftl b1 48) (Z.lor (Z.shiftl b2 40) (Z.lor (Z.shiftl b3 32)
                   (Z.lor (Z.shiftl b4 24) (Z.lor (Z.shiftl b5 16) (Z.lor (Z.shiftl b6 8) b7)))))), rest)
       | _ => None
       end.

Definition make_bind_signing_input (session_id : string) (nonce expires_unix_ms : Z) : string :=
  session_id +:+ "|" +:+ pretty nonce +:+ "|" +:+ pretty expires_unix_ms.

Definition secure_equals (lhs rhs : string) : bool := bool_decide (lhs = rhs).

Section gateway.
  Context `{!GatewayEnv}.

Definition hmac_sha256_hex (secret message : string) : string :=
  match gw_hmac (chars_of secret) (chars_of message) with
  | None | Some [] => EmptyString
  | Some digest => String.string_of_list_ascii (to_hex digest)
  end.

Definition make_udp_bind_token (session_id : string) (nonce expires_unix_ms : Z) : string :=
  if bool_decide (gw_cfg.(udp_bind_secret_) = EmptyString) then EmptyString
  else hmac_sha256_hex gw_cfg.(udp_bind_secret_) (make_bind_signing_input session_id nonce expires_unix_ms).

Definition udp_bind_retry_delay_ms (attempt : Z) : Z :=
  let capped_attempt := Z.min attempt 8 in
  let factor := Z.shiftl 1 (if capped_attempt =? 0 then 0 else capped_attempt - 1) in
  u32 (Z.min (u64 (gw_cfg.(udp_bind_retry_backoff_ms_) * factor)) gw_cfg.(udp_bind_retry_backoff_max_ms_)).

(** [make_udp_bind_res_frame]; [now] is the clock for the header. *)
Definition make_udp_bind_res_frame (code : Z) (t : UdpBindTicket) (message : string) (seq now : Z) : option (list Z) :=
  payload ← write_lp_utf8 (be16 code) t.(tk_session_id);
  payload ← write_lp_utf8 (payload ++ be64 t.(tk_nonce) ++ be64 t.(tk_expires_unix_ms)) t.(tk_token);
  payload ← write_lp_utf8 payload message;
  let header := mkPacketHeader (u16 (zlen payload)) MSG_UDP_BIND_RES 0 seq (u32 (Z.land now 0xFFFFFFFF)) in
  frame ← encode_header header 0 (replicate (k_header_bytes + length payload) 0);
  if decide (payload = []) then Some frame else poke k_header_bytes payload frame.

Definition no_ticket : UdpBindTicket := mkTicket EmptyString 0 0 EmptyString.

(** ** Tickets *)

(** The state a new ticket gives a session. *)
Definition with_ticket (sid : string) (nonce issued expires : Z) (token : string) (s : SessionState) : SessionState :=
  let selected := session_selected (chars_of sid) nonce gw_cfg.(rudp_rollout_policy_)
                  && negb (bool_decide (opcode_allowlist gw_cfg.(rudp_rollout_policy_) = ∅)) in
  mkSessionState s.(gs_client_id) false no_endpoint nonce expires issued 0 0 token
    (udp_metrics_reset s.(udp_sequenced_metrics)) selected false
    (if selected then Some (new_RudpEngine gw_cfg.(rudp_config_)) else None).

(** [make_udp_bind_ticket_frame]; [nonce] is drawn at random, [now] is the clock. *)
Definition make_udp_bind_ticket_frame (sid : string) (nonce now : Z) (g : UdpGateway)
    : UdpGateway * option (option (list Z)) :=
  if (gw_cfg.(udp_listen_port_) =? 0) || bool_decide (gw_cfg.(udp_bind_secret_) = EmptyString) then (g, None)
  else match g.(sessions_) !! sid with
       | None => (g, None)
       | Some s =>
           let expires := u64 (now + gw_cfg.(udp_bind_ttl_ms_)) in
           let token := make_udp_bind_token sid nonce expires in
           if bool_decide (token = EmptyString) then (g, None)
           else (mkUdpGateway (<[sid := with_ticket sid nonce now expires token s]> g.(sessions_))
                   g.(udp_bind_abuse_guard_),
                 Some (make_udp_bind_res_frame 0 (mkTicket sid nonce expires token) "issued" 0 now))
       end.

(** ** The bind request *)

(** The outer [option] is memory safety. *)
Definition parse_udp_bind_req (payload : list Z) : option (option bind_request) :=
  r ← read_lp_utf8 payload;
  match r with
  | None => Some None
  | Some (session_id, input) =>
      match read_be64 input with
      | None => Some None
      | Some (nonce, input) =>
          match read_be64 input with
          | None => Some None
          | Some (expires, input) =>
              r ← read_lp_utf8 input;
              match r with
              | Some (token, []) => Some (Some (mkTicket session_id nonce expires token))
              | _ => Some None
              end
          end
      end
  end.

Definition apply_retry_backoff (now : Z) (s : SessionState) : SessionState :=
  let next_attempt := Z.min (u32 (s.(udp_bind_fail_attempts) + 1)) gw_cfg.(udp_bind_retry_max_attempts_) in
  mkSessionState s.(gs_client_id) s.(udp_bound) s.(udp_endpoint) s.(udp_nonce) s.(udp_expires_unix_ms)
    s.(udp_ticket_issued_unix_ms) next_attempt (u64 (now + udp_bind_retry_delay_ms next_attempt))
    s.(udp_token) s.(udp_sequenced_metrics) s.(rudp_selected) s.(rudp_fallback_to_tcp) s.(rudp_engine).

Definition bind_session (ep : endpoint) (s : SessionState) : SessionState :=
  mkSessionState s.(gs_client_id) true ep s.(udp_nonce) s.(udp_expires_unix_ms)
    s.(udp_ticket_issued_unix_ms) 0 0 s.(udp_token) (udp_metrics_reset s.(udp_sequenced_metrics))
    s.(rudp_selected) false
    (match s.(rudp_engine) with
     | Some e => Some e
     | None => if s.(rudp_selected) then Some (new_RudpEngine gw_cfg.(rudp_config_)) else None
     end).

(** The checks of [apply_udp_bind_request] on the state of the session: the code, the
    message and the new state. *)
Definition check_bind (req : bind_request) (ep : endpoint) (now : Z) (s : SessionState)
    : SessionState * list gw_out * Z * string :=
  let fail code message := (apply_retry_backoff now s, [Count udp_bind_retry_backoff_total_ 1], code, message) in
  if now <? s.(udp_bind_retry_after_unix_ms)
  then (s, [Count udp_bind_retry_reject_total_ 1], SERVER_BUSY, "bind retry backoff"%string)
  else if (s.(udp_expires_unix_ms) =? 0) || (s.(udp_nonce) =? 0) || bool_decide (s.(udp_token) = EmptyString)
  then fail UNAUTHORIZED "bind ticket not issued"%string
  else if req.(tk_expires_unix_ms) <? now then fail UNAUTHORIZED "ticket expired"%string
  else if s.(udp_expires_unix_ms) <? now then fail UNAUTHORIZED "ticket expired"%string
  else if negb (req.(tk_expires_unix_ms) =? s.(udp_expires_unix_ms)) || negb (req.(tk_nonce) =? s.(udp_nonce))
  then fail UNAUTHORIZED "ticket mismatch"%string
  else if negb (secure_equals req.(tk_token) s.(udp_token))
          || negb (secure_equals req.(tk_token)
                     (make_udp_bind_token req.(tk_session_id) req.(tk_nonce) req.(tk_expires_unix_ms)))
  then fail UNAUTHORIZED "invalid token"%string
  else if s.(udp_bound) && negb (bool_decide (s.(udp_endpoint) = ep)) then fail FORBIDDEN "session already bound"%string
  else (bind_session ep s, [], 0, "bound"%string).

Definition apply_udp_bind_request (req : bind_request) (ep : endpoint) (now : Z) (g : UdpGateway)
    : UdpGateway * list gw_out * Z * string :=
  if bool_decide (req.(tk_session_id) = EmptyString) || bool_decide (req.(tk_token) = EmptyString)
  then (g, [], INVALID_PAYLOAD, "invalid bind payload"%string)
  else match g.(sessions_) !! req.(tk_session_id) with
       | None => (g, [], UNAUTHORIZED, "unknown session"%string)
       | Some s =>
           let '(s', outs, code, message) := check_bind req ep now s in
           (mkUdpGateway (<[req.(tk_session_id) := s']> g.(sessions_)) g.(udp_bind_abuse_guard_), outs, code, message)
       end.

(** The branch of the receive handler for a bind request. *)
Definition on_bind_request (header : PacketHeader) (payload : list Z) (ep : endpoint) (now : Z) (g : UdpGateway)
    : option (UdpGateway * list gw_out) :=
  let key := endpoint_key ep in
  let '(guard, st) := block_state key now g.(udp_bind_abuse_guard_) in
  let g := mkUdpGateway g.(sessions_) guard in
  let failure := guard_record_failure key now g.(udp_bind_abuse_guard_) in
  let blocked_now := if failure.2 then [Count udp_bind_block_total_ 1] else [] in
  if st.(blocked) then
    frame ← make_udp_bind_res_frame SERVER_BUSY no_ticket "bind temporarily blocked" (ph_seq header) now;
    Some (g, [Count udp_bind_rate_limit_reject_total_ 1; Count udp_bind_reject_total_ 1; SendUdp ep frame])
  else
    parsed ← parse_udp_bind_req payload;
    match parsed with
    | None =>
        frame ← make_udp_bind_res_frame INVALID_PAYLOAD no_ticket "invalid bind payload" (ph_seq header) now;
        Some (mkUdpGateway g.(sessions_) failure.1,
              [Count udp_bind_reject_total_ 1] ++ blocked_now ++ [SendUdp ep frame])
    | Some req =>
        let '(g, outs, code, message) := apply_udp_bind_request req ep now g in
        frame ← make_udp_bind_res_frame code req message (ph_seq header) now;
        if code =? 0 then
          Some (mkUdpGateway g.(sessions_) (guard_record_success key g.(udp_bind_abuse_guard_)),
                outs ++ [Count udp_bind_success_total_ 1; SendUdp ep frame])
        else
          Some (mkUdpGateway g.(sessions_) failure.1,
                outs ++ [Count udp_bind_reject_total_ 1] ++ blocked_now ++ [SendUdp ep frame])
    end.

(** ** Forwarding *)

(** The loop over [sessions_] for the session bound to an endpoint. *)
Definition bound_to (ep : endpoint) (e : string * SessionState) : Prop :=
  e.2.(udp_bound) = true /\ e.2.(udp_endpoint) = ep.

#[export] Instance bound_to_dec ep e : Decision (bound_to ep e).
Proof. unfold bound_to. apply _. Defined.

Definition find_bound (ep : endpoint) (g : UdpGateway) : option string :=
  match filter (bound_to ep) (session_order g.(sessions_)) with e :: _ => Some e.1 | [] => None end.

(** The opcode of a frame: known as a game or a system opcode, with its policy. *)
Definition known_policy (msg_id : Z) : option OpcodePolicy :=
  if bool_decide (game_opcode_name msg_id <> EmptyString) then Some (game_opcode_policy msg_id)
  else if bool_decide (system_opcode_name msg_id <> EmptyString) then Some (system_opcode_policy msg_id)
  else None.

(** *** Reliable UDP *)

(** The loop over the inner frames: what is forwarded, and whether one was invalid. *)
Fixpoint forward_inner (sid : string) (frames : list (list Z)) : option (list gw_out * bool) :=
  match frames with
  | [] => Some ([], false)
  | f :: rest =>
      if zlen f <? Z.of_nat k_header_bytes then Some ([], true)
      else
        h ← decode_header f 0;
        if negb (ph_length h =? zlen f - Z.of_nat k_header_bytes) then Some ([], true)
        else match known_policy (ph_msg_id h) with
             | None => Some ([], true)
             | Some policy =>
                 if negb (opcode_allowed (ph_msg_id h) gw_cfg.(rudp_rollout_policy_)) then Some ([], true)
                 else if negb (transport_allows policy.(transport) kUdp) then Some ([], true)
                 else
                   '(outs, invalid) ← forward_inner sid rest;
                   Some ([Forward sid f; Count udp_forward_total_ 1; Count rudp_inner_forward_total_ 1;
                          Count (udp_forward_class_total_ policy.(op_delivery)) 1] ++ outs, invalid)
             end
  end.

Definition set_fallback_to_tcp (s : SessionState) : SessionState :=
  mkSessionState s.(gs_client_id) s.(udp_bound) s.(udp_endpoint) s.(udp_nonce) s.(udp_expires_unix_ms)
    s.(udp_ticket_issued_unix_ms) s.(udp_bind_fail_attempts) s.(udp_bind_retry_after_unix_ms)
    s.(udp_token) s.(udp_sequenced_metrics) s.(rudp_selected) true s.(rudp_engine).

Definition set_engine (e : RudpEngine) (fallback : bool) (s : SessionState) : SessionState :=
  mkSessionState s.(gs_client_id) s.(udp_bound) s.(udp_endpoint) s.(udp_nonce) s.(udp_expires_unix_ms)
    s.(udp_ticket_issued_unix_ms) s.(udp_bind_fail_attempts) s.(udp_bind_retry_after_unix_ms)
    s.(udp_token) s.(udp_sequenced_metrics) s.(rudp_selected) (fallback || s.(rudp_fallback_to_tcp)) (Some e).

Definition set_metrics (m : UdpSequencedMetrics) (s : SessionState) : SessionState :=
  mkSessionState s.(gs_client_id) s.(udp_bound) s.(udp_endpoint) s.(udp_nonce) s.(udp_expires_unix_ms)
    s.(udp_ticket_issued_unix_ms) s.(udp_bind_fail_attempts) s.(udp_bind_retry_after_unix_ms)
    s.(udp_token) m s.(rudp_selected) s.(rudp_fallback_to_tcp) s.(rudp_engine).

Definition with_session (sid : string) (s : SessionState) (g : UdpGateway) : UdpGateway :=
  mkUdpGateway (<[sid := s]> g.(sessions_)) g.(udp_bind_abuse_guard_).

(** The section that runs the engine: the new state, datagrams to send, inner frames, the
    number of retransmissions, and whether to fall back. *)
Definition run_engine (datagram : list Z) (now : Z) (s : SessionState)
    : option (SessionState * list gw_out * list (list Z) * list (list Z) * Z * bool) :=
  match s.(rudp_engine) with
  | Some e =>
      if negb (rollout_enabled gw_cfg.(rudp_rollout_policy_)) || negb s.(rudp_selected) || s.(rudp_fallback_to_tcp)
      then Some (set_fallback_to_tcp s, [Count (rudp_fallback_metric_ kDisabled) 1], [], [], 0, true)
      else
        '(e, processed) ← process_datagram datagram now e;
        '(e, polled) ← poll now e;
        let fallback := fallback_required processed || fallback_required polled in
        Some (set_engine e fallback s, [], egress_datagrams processed ++ egress_datagrams polled,
              inner_frames processed, pr_retransmit_count polled, fallback)
  | None => Some (set_fallback_to_tcp s, [Count (rudp_fallback_metric_ kDisabled) 1], [], [], 0, true)
  end.

Definition on_rudp_datagram (datagram : list Z) (ep : endpoint) (now : Z) (g : UdpGateway)
    : option (UdpGateway * list gw_out) :=
  let start := [Count rudp_packets_total_ 1] in
  match find_bound ep g with
  | None => Some (g, start ++ [Count udp_bind_reject_total_ 1; Count rudp_packets_reject_total_ 1])
  | Some sid =>
      match g.(sessions_) !! sid with
      | None => Some (g, start ++ [Count rudp_packets_reject_total_ 1; Count rudp_fallback_total_ 1])
      | Some s =>
          '(s, metrics, egress, inner, retransmits, fallback) ← run_engine datagram now s;
          let outs := start ++ metrics ++ (SendUdp ep <$> egress)
                      ++ (if 0 <? retransmits then [Count udp_retransmit_total_ retransmits] else []) in
          '(forwarded, invalid) ← (if fallback : bool then Some ([], false) else forward_inner sid inner);
          let s := if invalid : bool then set_fallback_to_tcp s else s in
          Some (with_session sid s g,
                outs ++ forwarded
                ++ (if invalid then [Count (rudp_fallback_metric_ kProtocolError) 1] else [])
                ++ (if fallback || invalid
                    then [Count rudp_packets_reject_total_ 1; Count rudp_fallback_total_ 1] else []))
      end
  end.

(** *** Plain datagrams *)

Definition reject_datagram (counters : list gw_out) (code : Z) (message : string) (header : PacketHeader)
    (ep : endpoint) (now : Z) (g : UdpGateway) : option (UdpGateway * list gw_out) :=
  frame ← make_udp_bind_res_frame code no_ticket message (ph_seq header) now;
  Some (g, counters ++ [SendUdp ep frame]).

(** The sequence check of an unreliable sequenced packet, for the session that is bound. *)
Definition check_sequence (sid : string) (seq now : Z) (ep : endpoint) (g : UdpGateway)
    : UdpGateway * UpdateResult :=
  match g.(sessions_) !! sid with
  | Some s =>
      if s.(udp_bound) && bool_decide (s.(udp_endpoint) = ep)
      then let '(m, update) := on_packet seq now s.(udp_sequenced_metrics) in
           (with_session sid (set_metrics m s) g, update)
      else (g, mkUpdateResult false false false 0 0)
  | None => (g, mkUpdateResult false false false 0 0)
  end.

Definition forward_plain (sid : string) (datagram : list Z) (d : DeliveryClass) : list gw_out :=
  [Forward sid datagram; Count udp_forward_total_ 1; Count (udp_forward_class_total_ d) 1].

Definition on_frame (header : PacketHeader) (datagram : list Z) (ep : endpoint) (now : Z) (g : UdpGateway)
    : option (UdpGateway * list gw_out) :=
  let reject counters code message :=
    reject_datagram (Count udp_bind_reject_total_ 1 :: counters) code message header ep now g in
  match find_bound ep g with
  | None => reject [] UNAUTHORIZED "udp session not bound"%string
  | Some sid =>
      match known_policy (ph_msg_id header) with
      | None => reject [] UNKNOWN_MSG_ID "unknown udp msg_id"%string
      | Some policy =>
          if negb (bool_decide (ph_msg_id header ∈ gw_cfg.(udp_opcode_allowlist_)))
          then reject [Count udp_opcode_allowlist_reject_total_ 1] FORBIDDEN "opcode not in udp allowlist"%string
          else if negb (transport_allows policy.(transport) kUdp)
          then reject [] FORBIDDEN "opcode not allowed on udp"%string
          else if bool_decide (policy.(op_delivery) = kUnreliableSequenced) then
            let '(g, update) := check_sequence sid (ph_seq header) now ep g in
            if negb update.(ur_accepted) then
              reject_datagram
                ([Count udp_replay_drop_total_ 1; Count udp_bind_reject_total_ 1]
                 ++ (if update.(ur_duplicate) then [Count udp_duplicate_drop_total_ 1; Count udp_retransmit_total_ 1]
                     else if update.(ur_reordered) then [Count udp_reorder_drop_total_ 1] else []))
                FORBIDDEN "stale sequenced udp packet" header ep now g
            else
              Some (g, (if 0 <? update.(ur_estimated_lost_packets)
                        then [Count udp_loss_estimated_total_ update.(ur_estimated_lost_packets)] else [])
                       ++ forward_plain sid datagram policy.(op_delivery))
          else Some (g, forward_plain sid datagram policy.(op_delivery))
      end
  end.

(** The receive handler of [do_udp_receive]. *)
Definition on_datagram (datagram : list Z) (ep : endpoint) (now : Z) (g : UdpGateway)
    : option (UdpGateway * list gw_out) :=
  let start := if 0 <? zlen datagram then [Count udp_packets_total_ 1] else [] in
  rudp ← looks_like_rudp datagram;
  if rudp : bool then
    '(g, outs) ← on_rudp_datagram datagram ep now g;
    Some (g, start ++ outs)
  else if zlen datagram <? Z.of_nat k_header_bytes then Some (g, start ++ [Count udp_receive_error_total_ 1])
  else
    header ← decode_header datagram 0;
    if negb (ph_length header =? zlen datagram - Z.of_nat k_header_bytes)
    then Some (g, start ++ [Count udp_receive_error_total_ 1])
    else
      '(g, outs) ← (if ph_msg_id header =? MSG_UDP_BIND_REQ
                    then on_bind_request header (drop k_header_bytes datagram) ep now g
                    else on_frame header datagram ep now g);
      Some (g, start ++ outs).

(** ** Sessions *)

Definition open_session (sid client_id : string) (g : UdpGateway) : UdpGateway :=
  with_session sid (new_SessionState client_id) g.
Definition close_backend_connection (sid : string) (g : UdpGateway) : UdpGateway :=
  mkUdpGateway (delete sid g.(sessions_)) g.(udp_bind_abuse_guard_).

End gateway.
