(* ===== verification/GatewayUdpProps.v ===== *)
(** Theorems about the UDP path of the gateway ([GatewayUdp]): whose datagrams are forwarded,
    what a binding can be moved by, that no datagram leads outside a buffer; and two
    behaviours of the binding that its users have to know about. *)

From S2P Require Import Prelude Text Wire Utf8 ProtocolErrors Dispatch RudpPacket AckWindow RetransmissionQueue RudpEngine RudpEngineProps AdminAuth UdpGuard Rollout GatewayUdp.

(** The parts of a list a member can come from. *)
Ltac split_elem H :=
  repeat match type of H with
  | _ ∈ _ ++ _ => apply elem_of_app in H as [H|H]
  | _ ∈ _ :: _ => apply elem_of_cons in H as [H|H]; [try discriminate H|]
  | _ ∈ [] => by apply elem_of_nil in H
  end.

Section gateway_props.
  Context `{!GatewayEnv}.

(** ** Events *)

Inductive gw_event :=
  | EOpen (sid client_id : string)
  | ECloseSession (sid : string)
  | ETicket (sid : string) (nonce now : Z)
  | EUdp (datagram : list Z) (ep : endpoint) (now : Z).

Definition gw_step (g : UdpGateway) (ev : gw_event) : option (UdpGateway * list gw_out) :=
  match ev with
  | EOpen sid client_id => Some (open_session sid client_id g, [])
  | ECloseSession sid => Some (close_backend_connection sid g, [])
  | ETicket sid nonce now => Some ((make_udp_bind_ticket_frame sid nonce now g).1, [])
  | EUdp d ep now => on_datagram d ep now g
  end.

Fixpoint gw_run (evs : list gw_event) (g : UdpGateway) : option UdpGateway :=
  match evs with
  | [] => Some g
  | ev :: rest => '(g, _) ← gw_step g ev; gw_run rest g
  end.

Definition empty_gateway : UdpGateway := mkUdpGateway ∅ default_UdpBindAbuseGuard.

(** A datagram that is a bind request with these fields. *)
Definition carries (d : list Z) (req : UdpBindTicket) : Prop :=
  exists header, decode_header d 0 = Some header /\ ph_msg_id header = MSG_UDP_BIND_REQ
    /\ parse_udp_bind_req (drop k_header_bytes d) = Some (Some req).

(** ** What a datagram changes *)

Definition same_binding (s s' : SessionState) : Prop :=
  s'.(udp_bound) = s.(udp_bound) /\ s'.(udp_endpoint) = s.(udp_endpoint) /\ s'.(udp_nonce) = s.(udp_nonce)
  /\ s'.(udp_expires_unix_ms) = s.(udp_expires_unix_ms) /\ s'.(udp_token) = s.(udp_token).

Definition bound_by (sid : string) (req : UdpBindTicket) (ep : endpoint) (now : Z) (s s' : SessionState) : Prop :=
  req = mkTicket sid s.(udp_nonce) s.(udp_expires_unix_ms) s.(udp_token)
  /\ s.(udp_token) <> EmptyString
  /\ s.(udp_token) = make_udp_bind_token sid s.(udp_nonce) s.(udp_expires_unix_ms)
  /\ now <= s.(udp_expires_unix_ms)
  /\ (s.(udp_bound) = true -> s.(udp_endpoint) = ep)
  /\ s' = bind_session ep s.

Lemma check_bind_cases req ep now s s' outs code message :
  check_bind req ep now s = (s', outs, code, message) ->
  (code <> 0 /\ same_binding s s') \/ (code = 0 /\ bound_by req.(tk_session_id) req ep now s s').
Proof.
  unfold check_bind. repeat case_match; intros [= <- <- <- <-]; try (left; by split).
  right. split; [done|]. unfold bound_by.
  repeat match goal with
    | H : _ || _ = false |- _ => apply orb_false_iff in H as [? ?]
    | H : negb _ = false |- _ => apply negb_false_iff in H
    | H : bool_decide _ = false |- _ => apply bool_decide_eq_false in H
    | H : secure_equals _ _ = true |- _ => apply bool_decide_eq_true in H
    end.
  zbool. destruct req as [sid nonce expires token]. cbn in *. subst. split_and!; try done; try lia.
  intros Hb. rewrite Hb in *. cbn in *.
  match goal with H : negb (bool_decide _) = false |- _ => by apply negb_false_iff, bool_decide_eq_true in H end.
Qed.

Lemma same_binding_refl s : same_binding s s.
Proof. by split_and!. Qed.

(** What becomes of every session. *)
Definition sessions_after (P : string -> SessionState -> SessionState -> Prop) (g g' : UdpGateway) : Prop :=
  forall sid, match g.(sessions_) !! sid, g'.(sessions_) !! sid with
              | Some s, Some s' => P sid s s'
              | None, None => True
              | _, _ => False
              end.

Lemma sessions_after_same (P : string -> SessionState -> SessionState -> Prop) g g' :
  (forall sid s, P sid s s) -> g'.(sessions_) = g.(sessions_) -> sessions_after P g g'.
Proof. intros HP Heq sid. rewrite Heq. by destruct (_ !! sid). Qed.

Lemma sessions_after_one (P : string -> SessionState -> SessionState -> Prop) g g' sid s s' :
  (forall sid s, P sid s s) -> g.(sessions_) !! sid = Some s -> g'.(sessions_) = <[sid := s']> g.(sessions_) ->
  P sid s s' -> sessions_after P g g'.
Proof.
  intros HP Hs Heq Hp sid'. rewrite Heq. destruct (decide (sid' = sid)) as [->|].
  - by rewrite lookup_insert_eq, Hs.
  - rewrite lookup_insert_ne by done. by destruct (_ !! sid').
Qed.

Definition udp_change (d : list Z) (ep : endpoint) (now : Z) (sid : string) (s s' : SessionState) : Prop :=
  same_binding s s' \/ exists req, carries d req /\ bound_by sid req ep now s s'.

Lemma udp_change_refl d ep now sid s : udp_change d ep now sid s s.
Proof. left. apply same_binding_refl. Qed.

Definition is_forward (o : gw_out) : Prop := match o with Forward _ _ => True | _ => False end.

Lemma on_bind_request_spec header d ep now g g' outs :
  decode_header d 0 = Some header -> ph_msg_id header = MSG_UDP_BIND_REQ ->
  on_bind_request header (drop k_header_bytes d) ep now g = Some (g', outs) ->
  sessions_after (udp_change d ep now) g g' /\ forall o, o ∈ outs -> ~ is_forward o.
Proof.
  intros Hd Hid. unfold on_bind_request. destruct (block_state _ _ _) as [guard st].
  set (failure := guard_record_failure _ _ _).
  assert (Hquiet : forall (b : bool) o, o ∈ (if b then [Count udp_bind_block_total_ 1] else []) -> ~ is_forward o)
    by (intros [] o; set_solver).
  destruct st.(blocked).
  { intros (frame & _ & [= <- <-])%bind_Some. split; [|set_solver]. by apply sessions_after_same; [apply udp_change_refl|]. }
  intros (parsed & Hp & Hrest)%bind_Some. destruct parsed as [req|].
  - destruct (apply_udp_bind_request req ep now _) as [[[g1 outs1] code] message] eqn:Ea.
    apply bind_Some in Hrest as (frame & _ & Hrest).
    assert (Ha : sessions_after (udp_change d ep now) g g1 /\ forall o, o ∈ outs1 -> ~ is_forward o).
    { unfold apply_udp_bind_request in Ea. destruct (_ || _); [injection Ea as <- <- _ _; split; [|set_solver];
        by apply sessions_after_same; [apply udp_change_refl|]|]. cbn [sessions_] in Ea.
      destruct (g.(sessions_) !! _) as [s|] eqn:Es; [|injection Ea as <- <- _ _; split; [|set_solver];
        by apply sessions_after_same; [apply udp_change_refl|]].
      destruct (check_bind req ep now s) as [[[s' outs'] code'] msg'] eqn:Ec. injection Ea as <- <- _ _. split.
      - eapply sessions_after_one; [apply udp_change_refl|exact Es|done|].
        destruct (check_bind_cases _ _ _ _ _ _ _ _ Ec) as [[_ ?]|[_ Hb]]; [by left|right].
        exists req. split; [|done]. by exists header.
      - unfold check_bind in Ec. repeat case_match; injection Ec as _ <- _ _; set_solver. }
    destruct Ha as [Hs Ho]. destruct (code =? 0); injection Hrest as <- <-; (split; [exact Hs|]).
    + intros o [?|?]%elem_of_app; [by apply Ho|set_solver].
    + intros o [?|[->|[?|?]%elem_of_app]%elem_of_cons]%elem_of_app; [by apply Ho|cbn; tauto|by eapply Hquiet|set_solver].
  - apply bind_Some in Hrest as (frame & _ & [= <- <-]). split; [by apply sessions_after_same; [apply udp_change_refl|]|].
    intros o [->|[?|?]%elem_of_app]%elem_of_cons; [cbn; tauto|by eapply Hquiet|set_solver].
Qed.

(** The session a datagram is attributed to is bound to the endpoint it comes from. *)
Lemma find_bound_spec ep g sid :
  find_bound ep g = Some sid -> exists s, g.(sessions_) !! sid = Some s /\ s.(udp_bound) = true /\ s.(udp_endpoint) = ep.
Proof.
  unfold find_bound. destruct (filter _ _) as [|[k s] rest] eqn:Ef; [done|]. intros [= <-].
  assert (Hin : (k, s) ∈ filter (bound_to ep) (session_order g.(sessions_))) by (rewrite Ef; by left).
  apply list_elem_of_filter in Hin as [[Hb He] Hin]. rewrite session_order_perm in Hin.
  apply elem_of_map_to_list in Hin. by exists s.
Qed.

(** A frame that may be forwarded: well formed, with a known opcode that is allowed. *)
Definition allowed_frame (listed : Z -> bool) (f : list Z) : Prop :=
  exists h policy, decode_header f 0 = Some h /\ ph_length h = zlen f - Z.of_nat k_header_bytes
    /\ known_policy (ph_msg_id h) = Some policy /\ listed (ph_msg_id h) = true
    /\ transport_allows policy.(transport) kUdp = true.

Definition rudp_listed (id : Z) : bool := opcode_allowed id gw_cfg.(rudp_rollout_policy_).
Definition udp_listed (id : Z) : bool := bool_decide (id ∈ gw_cfg.(udp_opcode_allowlist_)).

Lemma forward_inner_spec sid frames outs invalid :
  forward_inner sid frames = Some (outs, invalid) ->
  forall sid' data, Forward sid' data ∈ outs -> sid' = sid /\ data ∈ frames /\ allowed_frame rudp_listed data.
Proof.
  revert outs invalid. induction frames as [|f frames IH]; intros outs invalid; cbn [forward_inner].
  { intros [= <- <-]. set_solver. }
  destruct (_ <? _); [intros [= <- <-]; set_solver|]. intros (h & Hh & Hrest)%bind_Some.
  destruct (negb _) eqn:Hlen in Hrest; [injection Hrest as <- <-; set_solver|].
  destruct (known_policy _) as [policy|] eqn:Hk; [|injection Hrest as <- <-; set_solver].
  destruct (negb _) eqn:Hal in Hrest; [injection Hrest as <- <-; set_solver|].
  destruct (negb _) eqn:Htr in Hrest; [injection Hrest as <- <-; set_solver|].
  apply bind_Some in Hrest as ([outs' inv'] & Hr & [= <- <-]). apply negb_false_iff in Hlen, Hal, Htr.
  intros sid' data [[= -> ->]|Hin]%elem_of_cons.
  - split_and!; [done|by left|]. exists h, policy. split_and!; try done. by apply Z.eqb_eq.
  - do 3 (apply elem_of_cons in Hin as [?|Hin]; [done|]).
    destruct (IH _ _ Hr sid' data Hin) as (? & ? & ?). split_and!; [done|by right|done].
Qed.

Lemma run_engine_binding d now s s' m egress inner n fb :
  run_engine d now s = Some (s', m, egress, inner, n, fb) -> same_binding s s' /\ forall o, o ∈ m -> ~ is_forward o.
Proof.
  unfold run_engine. destruct s.(rudp_engine) as [e|].
  - destruct (_ || _ || _); [intros [= <- <- <- <- <- <-]; split; [by split_and!|set_solver]|].
    intros ([e1 r1] & _ & Hrest)%bind_Some. apply bind_Some in Hrest as ([e2 r2] & _ & [= <- <- <- <- <- <-]).
    split; [by split_and!|set_solver].
  - intros [= <- <- <- <- <- <-]. split; [by split_and!|set_solver].
Qed.

Lemma on_rudp_datagram_spec d ep now g g' outs :
  on_rudp_datagram d ep now g = Some (g', outs) ->
  sessions_after (fun _ => same_binding) g g'
  /\ forall sid data, Forward sid data ∈ outs -> find_bound ep g = Some sid /\ allowed_frame rudp_listed data.
Proof.
  unfold on_rudp_datagram. destruct (find_bound ep g) as [sid|] eqn:Hf.
  2:{ intros [= <- <-]. split; [by apply sessions_after_same; [intros; apply same_binding_refl|]|set_solver]. }
  destruct (find_bound_spec _ _ _ Hf) as (s & Hs & _). rewrite Hs.
  intros ([[[[[s1 m] egress] inner] n] fb] & Hr & Hrest)%bind_Some.
  destruct (run_engine_binding _ _ _ _ _ _ _ _ _ Hr) as [Hsame Hm].
  apply bind_Some in Hrest as ([fwd invalid] & Hfwd & [= <- <-]). split.
  - eapply sessions_after_one; [intros; apply same_binding_refl|exact Hs|done|]. by destruct invalid.
  - intros sid' data Hin. cbn [app] in Hin. split_elem Hin.
    + by destruct (Hm _ Hin).
    + apply list_elem_of_fmap in Hin as (? & ? & _). done.
    + destruct (0 <? n); set_solver.
    + destruct fb; [injection Hfwd as <- <-; set_solver|].
      destruct (forward_inner_spec _ _ _ _ Hfwd sid' data Hin) as (-> & _ & ?). done.
    + destruct invalid; set_solver.
    + destruct (fb || invalid); set_solver.
Qed.

Lemma check_sequence_binding sid seq now ep g :
  sessions_after (fun _ => same_binding) g (check_sequence sid seq now ep g).1.
Proof.
  unfold check_sequence. destruct (g.(sessions_) !! sid) as [s|] eqn:Hs.
  - destruct (_ && _); [|by apply sessions_after_same; [intros; apply same_binding_refl|]].
    destruct (on_packet _ _ _) as [m u]. by eapply sessions_after_one; [intros; apply same_binding_refl|exact Hs|done|].
  - by apply sessions_after_same; [intros; apply same_binding_refl|].
Qed.

Lemma on_frame_spec header d ep now g g' outs :
  decode_header d 0 = Some header -> ph_length header = zlen d - Z.of_nat k_header_bytes ->
  on_frame header d ep now g = Some (g', outs) ->
  sessions_after (fun _ => same_binding) g g'
  /\ forall sid data, Forward sid data ∈ outs ->
       find_bound ep g = Some sid /\ data = d /\ allowed_frame udp_listed data.
Proof.
  intros Hd Hlen. unfold on_frame, reject_datagram.
  assert (Hrej : forall counters frame, sessions_after (fun _ => same_binding) g g
    /\ forall sid data, Forward sid data ∈ (Count udp_bind_reject_total_ 1 :: counters) ++ [SendUdp ep frame] ->
         Forward sid data ∈ counters).
  { intros counters frame. split; [by apply sessions_after_same; [intros; apply same_binding_refl|]|set_solver]. }
  destruct (find_bound ep g) as [sid|] eqn:Hf.
  2:{ intros (frame & _ & [= <- <-])%bind_Some. destruct (Hrej [] frame) as [? Hc]. split; [done|]. intros ?? ?%Hc. set_solver. }
  destruct (known_policy _) as [policy|] eqn:Hk.
  2:{ intros (frame & _ & [= <- <-])%bind_Some. destruct (Hrej [] frame) as [? Hc]. split; [done|]. intros ?? ?%Hc. set_solver. }
  destruct (negb _) eqn:Hal.
  { intros (frame & _ & [= <- <-])%bind_Some. destruct (Hrej [Count udp_opcode_allowlist_reject_total_ 1] frame) as [? Hc].
    split; [done|]. intros ?? ?%Hc. set_solver. }
  destruct (negb (transport_allows _ _)) eqn:Htr.
  { intros (frame & _ & [= <- <-])%bind_Some. destruct (Hrej [] frame) as [? Hc]. split; [done|]. intros ?? ?%Hc. set_solver. }
  apply negb_false_iff in Hal, Htr.
  assert (Hok : allowed_frame udp_listed d) by (by exists header, policy).
  assert (Hfwd : forall pre sid' data, (forall o, o ∈ pre -> ~ is_forward o) ->
    Forward sid' data ∈ pre ++ forward_plain sid d policy.(op_delivery) ->
    Some sid = Some sid' /\ data = d /\ allowed_frame udp_listed data).
  { intros pre sid' data Hpre. unfold forward_plain. rewrite elem_of_app, elem_of_cons.
    intros [Hin|[[= -> ->]|Hin]]; [by destruct (Hpre _ Hin)|done|set_solver]. }
  destruct (bool_decide (policy.(op_delivery) = _)).
  - pose proof (check_sequence_binding sid (ph_seq header) now ep g) as Hc.
    destruct (check_sequence _ _ _ _ _) as [g1 u]. cbn [fst] in Hc. destruct (negb _).
    + intros (frame & _ & [= <- <-])%bind_Some. split; [done|]. destruct (ur_duplicate u), (ur_reordered u); set_solver.
    + intros [= <- <-]. split; [done|]. intros sid' data. apply Hfwd. destruct (0 <? _); set_solver.
  - intros [= <- <-]. split; [by apply sessions_after_same; [intros; apply same_binding_refl|]|].
    intros sid' data. apply (Hfwd []). set_solver.
Qed.

(** Both together: the bindings after a datagram, and what is forwarded. *)
Lemma on_datagram_spec d ep now g g' outs :
  on_datagram d ep now g = Some (g', outs) ->
  sessions_after (udp_change d ep now) g g'
  /\ forall sid data, Forward sid data ∈ outs -> find_bound ep g = Some sid
       /\ ((data = d /\ allowed_frame udp_listed data) \/ allowed_frame rudp_listed data).
Proof.
  assert (Hweak : forall g1, sessions_after (fun _ => same_binding) g g1 -> sessions_after (udp_change d ep now) g g1).
  { intros g1 Hs sid. specialize (Hs sid). repeat case_match; try done. by left. }
  assert (Hsame : sessions_after (udp_change d ep now) g g) by (by apply sessions_after_same; [apply udp_change_refl|]).
  unfold on_datagram. set (start := if 0 <? zlen d then [Count udp_packets_total_ 1] else []).
  assert (Hstart : forall o, o ∈ start -> ~ is_forward o) by (unfold start; destruct (0 <? _); set_solver).
  clearbody start.
  intros ([] & _ & Hrest)%bind_Some.
  - apply bind_Some in Hrest as ([g1 outs1] & Hr & [= <- <-]).
    destruct (on_rudp_datagram_spec _ _ _ _ _ _ Hr) as [Hs Ho]. split; [by apply Hweak|].
    intros sid data [Hin|Hin]%elem_of_app; [by destruct (Hstart _ Hin)|]. destruct (Ho _ _ Hin). auto.
  - destruct (_ <? _); [injection Hrest as <- <-; split; [done|]; intros sid data [Hin|Hin]%elem_of_app;
      [by destruct (Hstart _ Hin)|set_solver]|].
    apply bind_Some in Hrest as (header & Hd & Hrest).
    destruct (negb _) eqn:Hlen; [injection Hrest as <- <-; split; [done|]; intros sid data [Hin|Hin]%elem_of_app;
      [by destruct (Hstart _ Hin)|set_solver]|].
    apply negb_false_iff, Z.eqb_eq in Hlen. apply bind_Some in Hrest as ([g1 outs1] & Hr & [= <- <-]).
    destruct (Z.eqb_spec (ph_msg_id header) MSG_UDP_BIND_REQ) as [Hid|Hid].
    + destruct (on_bind_request_spec _ _ _ _ _ _ _ Hd Hid Hr) as [Hs Ho]. split; [done|].
      intros sid data [Hin|Hin]%elem_of_app; [by destruct (Hstart _ Hin)|by destruct (Ho _ Hin)].
    + destruct (on_frame_spec _ _ _ _ _ _ _ Hd Hlen Hr) as [Hs Ho]. split; [by apply Hweak|].
      intros sid data [Hin|Hin]%elem_of_app; [by destruct (Hstart _ Hin)|]. destruct (Ho _ _ Hin) as (? & ? & ?). auto.
Qed.

(** ** Where bindings come from *)

Definition ticket_of (tr : list gw_event) (sid : string) (nonce expires : Z) (token : string) : Prop :=
  exists t, ETicket sid nonce t ∈ tr /\ expires = u64 (t + gw_cfg.(udp_bind_ttl_ms_))
    /\ token = make_udp_bind_token sid nonce expires /\ token <> EmptyString.

Definition bound_in (tr : list gw_event) (sid : string) (ep : endpoint) (nonce expires : Z) (token : string) : Prop :=
  exists d t, EUdp d ep t ∈ tr /\ carries d (mkTicket sid nonce expires token) /\ t <= expires.

Definition binding_ok (tr : list gw_event) (sid : string) (s : SessionState) : Prop :=
  (s.(udp_token) = EmptyString \/ ticket_of tr sid s.(udp_nonce) s.(udp_expires_unix_ms) s.(udp_token))
  /\ (s.(udp_bound) = true ->
       s.(udp_token) <> EmptyString
       /\ bound_in tr sid s.(udp_endpoint) s.(udp_nonce) s.(udp_expires_unix_ms) s.(udp_token)).

Definition bindings_ok (tr : list gw_event) (g : UdpGateway) : Prop :=
  forall sid s, g.(sessions_) !! sid = Some s -> binding_ok tr sid s.

Lemma binding_ok_later tr ev sid s : binding_ok tr sid s -> binding_ok (tr ++ [ev]) sid s.
Proof.
  intros [Ht Hb]. split.
  - destruct Ht as [?|(t & Hin & ?)]; [by left|right]. exists t. split; [|done]. apply elem_of_app. by left.
  - intros (Hne & d & t & Hin & ?)%Hb. split; [done|]. exists d, t. split; [|done]. apply elem_of_app. by left.
Qed.

Lemma binding_ok_same tr sid s s' : same_binding s s' -> binding_ok tr sid s -> binding_ok tr sid s'.
Proof. unfold binding_ok. by intros (-> & -> & -> & -> & ->). Qed.

Lemma gw_step_bindings tr g ev g' outs :
  bindings_ok tr g -> gw_step g ev = Some (g', outs) -> bindings_ok (tr ++ [ev]) g'.
Proof.
  intros Hok. assert (Hlater : bindings_ok (tr ++ [ev]) g) by (intros sid s ?; by apply binding_ok_later, Hok).
  destruct ev as [sid c|sid|sid nonce now|d ep now]; cbn [gw_step].
  - intros [= <- _] sid' s. cbn. intros [[-> <-]|[_ ?]]%lookup_insert_Some; [|by apply Hlater].
    split; [by left|done].
  - intros [= <- _] sid' s. cbn. intros [_ ?]%lookup_delete_Some. by apply Hlater.
  - intros [= <- _]. unfold make_udp_bind_ticket_frame. destruct (_ || _); [done|].
    destruct (g.(sessions_) !! sid) as [s|] eqn:Hs; [|done]. case_bool_decide as Htok; [done|].
    intros sid' s'. cbn. intros [[-> <-]|[_ ?]]%lookup_insert_Some; [|by apply Hlater].
    split; [|done]. right. exists now. split; [apply elem_of_app; right; by left|done].
  - intros (Hs & _)%on_datagram_spec sid s'. specialize (Hs sid). intros Hs'. rewrite Hs' in Hs.
    destruct (g.(sessions_) !! sid) as [s|] eqn:Es; [|done].
    destruct Hs as [Hsame|(req & Hc & (-> & Hne & Htok & Hexp & _ & ->))].
    + eapply binding_ok_same; [done|]. by apply Hlater.
    + destruct (Hlater _ _ Es) as [Ht _]. split; [exact Ht|]. intros _. split; [done|].
      exists d, now. split; [apply elem_of_app; right; by left|done].
Qed.

Lemma gw_run_bindings evs tr g g' : bindings_ok tr g -> gw_run evs g = Some g' -> bindings_ok (tr ++ evs) g'.
Proof.
  revert tr g. induction evs as [|ev evs IH]; intros tr g Hok; cbn [gw_run].
  { intros [= <-]. by rewrite app_nil_r. }
  intros ([g1 outs] & Hs & Hr)%bind_Some. change (ev :: evs) with ([ev] ++ evs). rewrite (app_assoc tr [ev] evs). eapply IH; [|exact Hr]. by eapply gw_step_bindings.
Qed.

(** C6. A datagram is forwarded to the backend of a session only if it comes from an
    endpoint that has presented, in time, the token of a ticket issued to that session, and
    only if the frame is complete and its opcode known, listed and allowed on UDP. *)
Theorem udp_forward_authenticated evs g d ep now g' outs sid data :
  gw_run evs empty_gateway = Some g -> on_datagram d ep now g = Some (g', outs) -> Forward sid data ∈ outs ->
  ((data = d /\ allowed_frame udp_listed data) \/ allowed_frame rudp_listed data)
  /\ exists nonce expires token,
       ticket_of evs sid nonce expires token /\ bound_in evs sid ep nonce expires token.
Proof.
  intros Hr Hd Hin. destruct (on_datagram_spec _ _ _ _ _ _ Hd) as [_ Ho]. destruct (Ho sid data Hin) as [Hf Hall].
  split; [done|]. destruct (find_bound_spec _ _ _ Hf) as (s & Hs & Hb & <-).
  assert (Hok : bindings_ok ([] ++ evs) g).
  { eapply gw_run_bindings; [|exact Hr]. intros k st Hk. cbn in Hk. by rewrite lookup_empty in Hk. }
  destruct (Hok sid s Hs) as [Ht Hbound]. destruct (Hbound Hb) as [Hne Hbd]. destruct Ht as [?|Ht]; [done|].
  by exists s.(udp_nonce), s.(udp_expires_unix_ms), s.(udp_token).
Qed.

(** Until a new ticket is issued, a bound session stays bound to its endpoint: no datagram
    moves it, whoever knows the token. *)
Theorem udp_binding_exclusive d ep now g g' outs sid s :
  on_datagram d ep now g = Some (g', outs) -> g.(sessions_) !! sid = Some s -> s.(udp_bound) = true ->
  exists s', g'.(sessions_) !! sid = Some s' /\ s'.(udp_bound) = true /\ s'.(udp_endpoint) = s.(udp_endpoint).
Proof.
  intros (Hs & _)%on_datagram_spec Hg Hb. specialize (Hs sid). rewrite Hg in Hs.
  destruct (g'.(sessions_) !! sid) as [s'|]; [|done]. exists s'. split; [done|].
  destruct Hs as [(-> & -> & _)|(req & _ & (_ & _ & _ & _ & He & ->))]; [done|]. cbn. by rewrite He.
Qed.

(** Of the opcodes the tables know, only the two of the binding itself may travel on UDP:
    whatever the allowlists say, nothing else is forwarded. *)
Lemma only_bind_opcodes_on_udp listed f :
  allowed_frame listed f ->
  exists h, decode_header f 0 = Some h /\ (ph_msg_id h = MSG_UDP_BIND_REQ \/ ph_msg_id h = MSG_UDP_BIND_RES).
Proof.
  intros (h & policy & Hd & _ & Hk & _ & Ht). exists h. split; [done|].
  unfold known_policy, system_opcode_policy, game_opcode_policy, MSG_UDP_BIND_REQ, MSG_UDP_BIND_RES in *.
  case_bool_decide as Hg.
  - injection Hk as <-. revert Ht. repeat (case_match; zbool; try done; try (by auto)).
  - case_bool_decide; [|done]. injection Hk as <-. revert Ht. by repeat case_match.
Qed.

End gateway_props.

(** ** Examples *)

Definition example_cfg : GatewayConfig :=
  mkGatewayConfig 7000 "secret" 5000 200 2000 6 {[MSG_UDP_BIND_RES]} (mkRudpRolloutPolicy false 0 ∅) default_RudpConfig.
Definition example_gw : GatewayEnv :=
  {| gw_cfg := example_cfg; gw_hmac := toy_HMAC; session_order := map_to_list;
     session_order_perm := fun m => Permutation_refl (map_to_list m) |}.
#[local] Existing Instance example_gw.

Definition lp (s : string) : list Z := be16 (zlen (bytes_of_string s)) ++ bytes_of_string s.
Definition frame_of (msg_id seq : Z) (payload : list Z) : list Z :=
  header_bytes (mkPacketHeader (zlen payload) msg_id 0 seq 0) ++ payload.
Definition bind_datagram (sid : string) (nonce expires : Z) (token : string) : list Z :=
  frame_of MSG_UDP_BIND_REQ 1 (lp sid ++ be64 nonce ++ be64 expires ++ lp token).

Definition alice : endpoint := ("10.0.0.1"%string, 5000).
Definition mallory : endpoint := ("10.6.6.6"%string, 666).

Definition alice_binds (sid : string) : list gw_event :=
  [EOpen sid "alice"; ETicket sid 77 1000; EUdp (bind_datagram sid 77 6000 (make_udp_bind_token sid 77 6000)) alice 1500].
Definition run_or_empty (evs : list gw_event) : UdpGateway := default empty_gateway (gw_run evs empty_gateway).

Definition udp_note : list Z := frame_of MSG_UDP_BIND_RES 2 [].
Definition after_note : option (UdpGateway * list gw_out) :=
  on_datagram udp_note alice 2000 (run_or_empty (alice_binds "s1")).

Lemma udp_forward_authenticated_witness :
  exists nonce expires token,
    ticket_of (alice_binds "s1") "s1" nonce expires token /\ bound_in (alice_binds "s1") "s1" alice nonce expires token.
Proof.
  assert (Hr : gw_run (alice_binds "s1") empty_gateway = Some (run_or_empty (alice_binds "s1"))) by (by vm_compute).
  destruct after_note as [[g' outs]|] eqn:Ed; [|by vm_compute in Ed].
  assert (Hin : Forward "s1" udp_note ∈ outs) by (vm_compute in Ed; injection Ed as _ <-; right; left).
  apply (udp_forward_authenticated (alice_binds "s1") _ udp_note alice 2000 g' outs "s1" udp_note Hr Ed Hin).
Defined.

Lemma udp_binding_exclusive_witness :
  exists g' outs s', on_datagram (bind_datagram "s1" 77 6000 (make_udp_bind_token "s1" 77 6000)) mallory 2000
                       (run_or_empty (alice_binds "s1")) = Some (g', outs)
    /\ g'.(sessions_) !! "s1"%string = Some s' /\ s'.(udp_endpoint) = alice.
Proof.
  destruct (on_datagram (bind_datagram "s1" 77 6000 (make_udp_bind_token "s1" 77 6000)) mallory 2000
              (run_or_empty (alice_binds "s1"))) as [[g' outs]|] eqn:Ed; [|by vm_compute in Ed].
  destruct ((run_or_empty (alice_binds "s1")).(sessions_) !! "s1"%string) as [s|] eqn:Es; [|by vm_compute in Es].
  assert (Hb : s.(udp_bound) = true /\ s.(udp_endpoint) = alice) by (vm_compute in Es; injection Es as <-; split; vm_compute; reflexivity).
  destruct (udp_binding_exclusive _ _ _ _ _ _ "s1" s Ed Es (proj1 Hb)) as (s' & Hs' & _ & He).
  exists g', outs, s'. split_and!; [reflexivity|exact Hs'|]. rewrite He. exact (proj2 Hb).
Defined.

(** Nothing prevents two sessions from binding one endpoint; a datagram from it then goes to
    the one the traversal of the table meets first. *)
Lemma endpoint_shared_by_sessions :
  let g := run_or_empty (alice_binds "s1" ++ alice_binds "s2") in
  (fun e => (e.1, e.2.(udp_bound), e.2.(udp_endpoint))) <$> map_to_list g.(sessions_)
    ≡ₚ [("s1"%string, true, alice); ("s2"%string, true, alice)]
  /\ (exists sid, find_bound alice g = Some sid).
Proof. vm_compute. split; [|eauto]. first [reflexivity|apply Permutation_swap]. Qed.

(** The delay after a failed bind belongs to the session, whoever failed: a stranger who
    names the session without knowing its token makes the client's own, correct request
    fail, and can repeat it when the delay is over. *)
Lemma stranger_delays_bind :
  let g := run_or_empty [EOpen "s1" "alice"; ETicket "s1" 77 1000;
                         EUdp (bind_datagram "s1" 1 6000 "guess") mallory 1500] in
  (apply_udp_bind_request (mkTicket "s1" 77 6000 (make_udp_bind_token "s1" 77 6000)) alice 1600 g).1.2 = SERVER_BUSY.
Proof. by vm_compute. Qed.
