(* ===== verification/SessionClient.v ===== *)
(** The client of the load generator, [tools/loadgen/session_client.cpp]: the TCP client
    with its queue of events, and the clients that attach over UDP and reliable UDP.

    Other threads and the network are inputs: [io_event] is what the I/O thread does while a
    caller waits, [udp_poll] the result of one read of the socket, [can_send] the error of a
    send.  A packet that is posted to the strand is queued at once.  Messages of protobuf
    are decoded by the class [ClientCodec].  [None] is an access outside a buffer, or an
    input that ends before the operation does.

    The theorems: that the client and the gateway ([GatewayUdp]) agree on tickets and bind requests, what a wait returns, and
    how an attach over reliable UDP is counted. *)

From S2P Require Import Prelude Text Wire Utf8 ProtocolErrors Dispatch RudpPacket AckWindow RetransmissionQueue RudpEngine AdminAuth UdpGuard Rollout GatewayUdp GatewayUdpProps.

(** ** Statistics *)

Inductive stat :=
  | connect_failures | read_timeouts | disconnects | unsupported_operations | bind_ticket_timeouts
  | udp_bind_attempts | udp_bind_successes | udp_bind_failures
  | rudp_attach_attempts | rudp_attach_successes | rudp_attach_fallbacks.

#[export] Instance stat_eq_dec : EqDecision stat.
Proof. solve_decision. Defined.

Definition TransportStats := stat -> Z.
Definition no_stats : TransportStats := fun _ => 0.
Definition bump (k : stat) (t : TransportStats) : TransportStats :=
  fun k' => if decide (k' = k) then u64 (t k' + 1) else t k'.
Definition accumulate_transport_stats (target source : TransportStats) : TransportStats :=
  fun k => u64 (target k + source k).

(** ** Tickets and frames *)

(** The [UdpBindTicket] of the client: the fields of the gateway's with a code and a message. *)
Record ClientTicket := mkClientTicket { ct_code : Z; ct_ticket : UdpBindTicket; ct_message : string }.

Definition bind_ticket_error_message (t : ClientTicket) : string :=
  let message := if bool_decide (ct_message t = EmptyString) then "udp bind rejected"%string else ct_message t in
  "udp bind rejected (code=" +:+ to_string (ct_code t) +:+ "): " +:+ message.

(** The inner [option] is whether the payload is well formed. *)
Definition parse_udp_bind_ticket_payload (payload : list Z) : option (option ClientTicket) :=
  if zlen payload <? 2 then Some None
  else
    code ← read_be16 payload 0;
    r ← read_lp_utf8 (drop 2 payload);
    match r with
    | None => Some None
    | Some (session_id, input) =>
        match read_be64 input with
        | None => Some None
        | Some (nonce, input) =>
            match read_be64 input with
            | None => Some None
            | Some (expires, input) =>
                r ← read_lp_utf8 input;
                match r with
                | None => Some None
                | Some (token, input) =>
                    r ← read_lp_utf8 input;
                    match r with
                    | Some (message, []) =>
                        Some (Some (mkClientTicket code (mkTicket session_id nonce expires token) message))
                    | _ => Some None
                    end
                end
            end
        end
    end.

(** A frame with its header; the client's [make_frame] has no flags. *)
Definition frame_with (msg_id flags seq : Z) (payload : list Z) (now : Z) : option (list Z) :=
  let header := mkPacketHeader (u16 (zlen payload)) msg_id flags seq (u32 (Z.land now 0xFFFFFFFF)) in
  frame ← encode_header header 0 (replicate (k_header_bytes + length payload) 0);
  if decide (payload = []) then Some frame else poke k_header_bytes payload frame.
Definition make_frame (msg_id seq : Z) (payload : list Z) (now : Z) : option (list Z) :=
  frame_with msg_id 0 seq payload now.

(** ** The TCP client *)

Inductive Event :=
  | EvHello (capabilities : Z)
  | EvLoginRes (effective_user : string) (session_id : Z) (is_admin : bool)
  | EvSnapshot (current_room : string)
  | EvPong
  | EvSelfChat (flags : Z) (room sender text : string)
  | EvUdpBindTicket (ticket : ClientTicket)
  | EvError (code : Z) (message : string).

(** Decoding of [LoginRes], [StateSnapshot] and [ChatBroadcast]. *)
Class ClientCodec := {
  decode_login_res : list Z -> option (string * Z * bool);
  decode_snapshot : list Z -> option string;
  decode_broadcast : list Z -> option (string * string * string);
}.

Record TcpClient := mkTcpClient {
  connected_ : bool;
  closing_ : bool;
  authenticated_ : bool;
  seq_ : Z;
  write_queue_ : list (list Z);
  events_ : list Event;
  last_error_ : string;
  current_user_ : string;
  transport_ : TransportStats;
}.

Definition new_TcpClient : TcpClient := mkTcpClient false false false 1 [] [] EmptyString EmptyString no_stats.

Section setters.
  Context (c : TcpClient).
Definition set_flags (connected closing authenticated : bool) : TcpClient :=
  mkTcpClient connected closing authenticated (seq_ c) (write_queue_ c) (events_ c) (last_error_ c) (current_user_ c) (transport_ c).
Definition set_writes (seq : Z) (q : list (list Z)) : TcpClient :=
  mkTcpClient (connected_ c) (closing_ c) (authenticated_ c) seq q (events_ c) (last_error_ c) (current_user_ c) (transport_ c).
Definition set_events (evs : list Event) : TcpClient :=
  mkTcpClient (connected_ c) (closing_ c) (authenticated_ c) (seq_ c) (write_queue_ c) evs (last_error_ c) (current_user_ c) (transport_ c).
Definition set_last_error (message : string) : TcpClient :=
  mkTcpClient (connected_ c) (closing_ c) (authenticated_ c) (seq_ c) (write_queue_ c) (events_ c) message (current_user_ c) (transport_ c).
Definition set_user (user : string) : TcpClient :=
  mkTcpClient (connected_ c) (closing_ c) (authenticated_ c) (seq_ c) (write_queue_ c) (events_ c) (last_error_ c) user (transport_ c).
Definition count_stat (k : stat) : TcpClient :=
  mkTcpClient (connected_ c) (closing_ c) (authenticated_ c) (seq_ c) (write_queue_ c) (events_ c) (last_error_ c) (current_user_ c)
    (bump k (transport_ c)).
End setters.

Definition close (c : TcpClient) : TcpClient := set_flags c false true (authenticated_ c).
Definition reset_state (c : TcpClient) : TcpClient := new_TcpClient.

Inductive connect_result := ConnectDone | ConnectTimeout | ConnectError (message : string).

Definition connect (r : connect_result) (c : TcpClient) : TcpClient * bool :=
  let c := reset_state (close c) in
  let failed message := (close (set_last_error (count_stat c connect_failures) message), false) in
  match r with
  | ConnectTimeout => failed "connect timeout"%string
  | ConnectError message => failed ("connect failed: " +:+ message)
  | ConnectDone => (set_flags c true false false, true)
  end.

Definition push_event (e : Event) (c : TcpClient) : TcpClient := set_events c (events_ c ++ [e]).

(** [enqueue_packet]: the front of the queue is being written. *)
Definition enqueue_packet (msg_id flags : Z) (payload : list Z) (now : Z) (c : TcpClient) : option TcpClient :=
  if negb (connected_ c) then Some c
  else
    frame ← frame_with msg_id flags (seq_ c) payload now;
    Some (set_writes c (u32 (seq_ c + 1)) (write_queue_ c ++ [frame])).

Definition handle_disconnect (context message : string) (c : TcpClient) : TcpClient :=
  if closing_ c then c
  else if negb (connected_ c) then c
  else set_last_error (count_stat (set_flags c false (closing_ c) (authenticated_ c)) disconnects) (context +:+ ": " +:+ message).

(** The handler of [async_write]. *)
Definition on_written (error : option string) (c : TcpClient) : TcpClient :=
  match error with
  | Some message => handle_disconnect "async_write" message (set_writes c (seq_ c) [])
  | None => set_writes c (seq_ c) (tail (write_queue_ c))
  end.

Section tcp.
  Context `{!ClientCodec}.

(** The two branches of [handle_frame] that read bytes themselves. *)
Definition error_event (payload : list Z) : option Event :=
  let default_message := "server returned MSG_ERR"%string in
  if zlen payload <? 4 then Some (EvError 0 default_message)
  else
    code ← read_be16 payload 0;
    len ← read_be16 payload 2;
    let message := if 4 + len <=? zlen payload then string_of_bytes (take (Z.to_nat len) (drop 4 payload)) else EmptyString in
    Some (EvError code (if bool_decide (message = EmptyString) then default_message else message)).

Definition legacy_login_event (payload : list Z) : option Event :=
  let span := drop 1 payload in
  r ← read_lp_utf8 span;
  let span := match r with Some (_, rest) => rest | None => span end in
  r ← (if decide (span = []) then Some None else read_lp_utf8 span);
  let '(user, span) := match r with Some (user, rest) => (user, rest) | None => (EmptyString, span) end in
  session_id ← (if 4 <=? zlen span then read_be32 span 0 else Some 0);
  Some (EvLoginRes user session_id false).

Definition handle_frame (msg_id flags : Z) (payload : list Z) (now : Z) (c : TcpClient) : option TcpClient :=
  if msg_id =? MSG_PING then enqueue_packet MSG_PONG 0 [] now c
  else if msg_id =? MSG_HELLO then
    capabilities ← (if 12 <=? zlen payload then read_be16 payload 4 else Some 0);
    Some (push_event (EvHello capabilities) c)
  else if msg_id =? MSG_PONG then Some (push_event EvPong c)
  else if msg_id =? MSG_ERR then
    e ← error_event payload;
    Some (push_event e c)
  else if msg_id =? MSG_UDP_BIND_RES then
    t ← parse_udp_bind_ticket_payload payload;
    Some (push_event (match t with
                      | Some t => EvUdpBindTicket t
                      | None => EvError 0 "invalid udp bind ticket payload"
                      end) c)
  else if msg_id =? MSG_LOGIN_RES then
    match decode_login_res payload with
    | Some (user, session_id, is_admin) => Some (push_event (EvLoginRes user session_id is_admin) c)
    | None =>
        e ← legacy_login_event payload;
        Some (push_event e c)
    end
  else if msg_id =? MSG_STATE_SNAPSHOT then
    Some (match decode_snapshot payload with Some room => push_event (EvSnapshot room) c | None => c end)
  else if msg_id =? MSG_CHAT_BROADCAST then
    Some (match decode_broadcast payload with
          | Some (room, sender, text) =>
              if (Z.land flags FLAG_SELF =? 0) && negb (bool_decide (sender = "(system)"%string)) then c
              else push_event (EvSelfChat flags room sender text) c
          | None => c
          end)
  else Some c.

(** [start_read_header] and [start_read_body]: the next frame of the stream of bytes, [None]
    inside when it has not arrived completely. *)
Definition next_frame (stream : list Z) : option (option (PacketHeader * list Z * list Z)) :=
  if (length stream <? k_header_bytes)%nat then Some None
  else
    header ← decode_header stream 0;
    let body := drop k_header_bytes stream in
    if zlen body <? ph_length header then Some None
    else Some (Some (header, take (Z.to_nat (ph_length header)) body, drop (Z.to_nat (ph_length header)) body)).

(** What the I/O thread does: it reads a frame, loses the connection, ends a write, or
    another thread closes the client. *)
Inductive io_event :=
  | IoFrame (header : PacketHeader) (payload : list Z) (now : Z)
  | IoReadError (context message : string)
  | IoWritten (error : option string)
  | IoClosed.

Definition run_io (ev : io_event) (c : TcpClient) : option TcpClient :=
  match ev with
  | IoFrame header payload now => handle_frame (ph_msg_id header) (ph_flags header) payload now c
  | IoReadError context message => Some (handle_disconnect context message c)
  | IoWritten error => Some (on_written error c)
  | IoClosed => Some (close c)
  end.

Fixpoint take_first (p : Event -> bool) (evs : list Event) : option (Event * list Event) :=
  match evs with
  | [] => None
  | e :: evs =>
      if p e then Some (e, evs)
      else match take_first p evs with Some (e', rest) => Some (e', e :: rest) | None => None end
  end.

Definition is_error (e : Event) : bool := match e with EvError _ _ => true | _ => false end.
Definition error_text (e : Event) : string := match e with EvError _ message => message | _ => EmptyString end.

(** One round of [wait_for_event] under its lock; [None] when it goes to wait. *)
Definition check_events (p : Event -> bool) (c : TcpClient) : option (TcpClient * option Event) :=
  match take_first p (events_ c) with
  | Some (e, rest) => Some (set_events c rest, Some e)
  | None =>
      match take_first is_error (events_ c) with
      | Some (e, rest) => Some (set_events (set_last_error c ("server error: " +:+ error_text e)) rest, None)
      | None =>
          if negb (connected_ c) || closing_ c
          then Some (if bool_decide (last_error_ c = EmptyString) then set_last_error c "connection closed" else c, None)
          else None
      end
  end.

(** [wait_for_event]; a [None] among the wake-ups is the end of the time. *)
Fixpoint wait_for_event (p : Event -> bool) (wait_label : string) (wakes : list (option io_event)) (c : TcpClient) :
    option (TcpClient * list (option io_event) * option Event) :=
  match check_events p c with
  | Some (c, r) => Some (c, wakes, r)
  | None =>
      match wakes with
      | [] => None
      | None :: wakes =>
          Some (set_last_error (count_stat c read_timeouts) ("timeout waiting for " +:+ wait_label), wakes, None)
      | Some ev :: wakes =>
          c ← run_io ev c;
          wait_for_event p wait_label wakes c
      end
  end.

(** ** Requests *)

Abbreviation reply := (TcpClient * list (option io_event) * option Event)%type.

Definition kProtocolVersionMajor : Z := 1.
Definition kProtocolVersionMinor : Z := 1.

Definition login (user token : string) (now : Z) (wakes : list (option io_event)) (c : TcpClient) : option reply :=
  payload ← write_lp_utf8 [] user;
  payload ← write_lp_utf8 payload token;
  c ← enqueue_packet MSG_LOGIN_REQ 0 (payload ++ be16 kProtocolVersionMajor ++ be16 kProtocolVersionMinor) now c;
  '(c, wakes, r) ← wait_for_event (fun e => match e with EvLoginRes _ _ _ => true | _ => false end) "login response" wakes c;
  match r with
  | Some (EvLoginRes effective_user sid admin) =>
      let c := set_user c (if bool_decide (effective_user = EmptyString) then user else effective_user) in
      Some (set_flags c (connected_ c) (closing_ c) true, wakes, r)
  | _ => Some (c, wakes, None)
  end.

(** [None] as the ticket is a failure. *)
Definition wait_for_udp_bind_ticket (wakes : list (option io_event)) (c : TcpClient) :
    option (TcpClient * list (option io_event) * option ClientTicket) :=
  '(c, wakes, r) ← wait_for_event (fun e => match e with EvUdpBindTicket _ => true | _ => false end) "udp bind ticket" wakes c;
  match r with
  | Some (EvUdpBindTicket t) =>
      if negb (ct_code t =? 0) then Some (set_last_error c (bind_ticket_error_message t), wakes, None)
      else Some (c, wakes, Some t)
  | _ => Some (count_stat c bind_ticket_timeouts, wakes, None)
  end.

Definition join_confirmed (room user : string) (e : Event) : bool :=
  match e with
  | EvSelfChat _ r sender text =>
      bool_decide (r = room) && bool_decide (sender = "(system)"%string) && bool_decide (is_Some (String.index 0 user text))
  | _ => false
  end.

Definition join (room password : string) (now : Z) (wakes : list (option io_event)) (c : TcpClient) : option reply :=
  payload ← write_lp_utf8 [] room;
  payload ← write_lp_utf8 payload password;
  c ← enqueue_packet MSG_JOIN_ROOM 0 payload now c;
  let expected_room := if bool_decide (room = EmptyString) then "lobby"%string else room in
  wait_for_event (join_confirmed expected_room (current_user_ c)) "join confirmation broadcast" wakes c.

Definition own_echo (room text : string) (e : Event) : bool :=
  match e with
  | EvSelfChat flags r _ t => negb (Z.land flags FLAG_SELF =? 0) && bool_decide (r = room) && bool_decide (t = text)
  | _ => false
  end.

Definition send_chat_and_wait_echo (room text : string) (now : Z) (wakes : list (option io_event)) (c : TcpClient) : option reply :=
  payload ← write_lp_utf8 [] room;
  payload ← write_lp_utf8 payload text;
  c ← enqueue_packet MSG_CHAT_SEND 0 payload now c;
  wait_for_event (own_echo room text) "chat echo" wakes c.

Definition send_ping_and_wait_pong (now : Z) (wakes : list (option io_event)) (c : TcpClient) : option reply :=
  c ← enqueue_packet MSG_PING 0 [] now c;
  wait_for_event (fun e => match e with EvPong => true | _ => false end) "pong" wakes c.
End tcp.

(** ** The clients over UDP *)

Definition unsupported_operation_message (transport operation : string) : string :=
  "transport '" +:+ transport +:+ "' currently only supports login_only attach validation; " +:+ operation +:+ " requires tcp".

(** One [receive_from]: a datagram, of which the buffer takes 2048 bytes, nothing yet, with
    whether the time is over, or an error. *)
Inductive udp_poll := PGot (datagram : list Z) | PBlock (late : bool) | PError (message : string).

Fixpoint wait_for_udp_datagram (polls : list udp_poll) : option (list Z + string) :=
  match polls with
  | [] => None
  | PGot d :: _ => Some (inl (take 2048 d))
  | PError message :: _ => Some (inr ("udp receive failed: " +:+ message))
  | PBlock true :: _ => Some (inr "timeout waiting for udp response"%string)
  | PBlock false :: polls => wait_for_udp_datagram polls
  end.

(** A round of a loop with a deadline: whether it has passed, the reads and the clock. *)
Record udp_round := mkRound { rd_late : bool; rd_polls : list udp_poll; rd_now : Z }.

(** Why a datagram is not the answer to a bind request. *)
Inductive bind_answer := Ignore | Invalid | Answer (t : ClientTicket).

Definition read_bind_answer (expected_seq : Z) (datagram : list Z) : option bind_answer :=
  if zlen datagram <? Z.of_nat k_header_bytes then Some Ignore
  else
    header ← decode_header datagram 0;
    if negb (ph_length header =? zlen datagram - Z.of_nat k_header_bytes) then Some Ignore
    else if negb (ph_msg_id header =? MSG_UDP_BIND_RES) || negb (ph_seq header =? expected_seq) then Some Ignore
    else
      t ← parse_udp_bind_ticket_payload (drop k_header_bytes datagram);
      Some (match t with Some t => Answer t | None => Invalid end).

(** [wait_for_udp_bind_response]: the ticket, or the error it records; [summary] is the
    text of the two endpoints. *)
Fixpoint wait_for_udp_bind_response (summary : string) (expected_seq : Z) (rounds : list udp_round) :
    option (ClientTicket + string) :=
  match rounds with
  | [] => None
  | r :: rounds =>
      if rd_late r then Some (inr ("timeout waiting for udp bind response (" +:+ summary +:+ ")"))
      else
        got ← wait_for_udp_datagram (rd_polls r);
        match got with
        | inr message => Some (inr message)
        | inl datagram =>
            answer ← read_bind_answer expected_seq datagram;
            match answer with
            | Ignore => wait_for_udp_bind_response summary expected_seq rounds
            | Invalid => Some (inr "invalid udp bind response payload"%string)
            | Answer t => Some (if negb (ct_code t =? 0) then inr (bind_ticket_error_message t) else inl t)
            end
        end
  end.

(** [UdpSessionClient]; [RudpSessionClient] has the same members and an engine. *)
Record UdpClient := mkUdpClient {
  tcp_client_ : TcpClient;
  udp_seq_ : Z;
  udp_bound_ : bool;
  udp_last_error_ : string;
  udp_transport_ : TransportStats;
}.

Definition new_UdpClient : UdpClient := mkUdpClient new_TcpClient 1 false EmptyString no_stats.

Definition udp_fail (message : string) (u : UdpClient) : UdpClient :=
  mkUdpClient (tcp_client_ u) (udp_seq_ u) (udp_bound_ u) message (udp_transport_ u).
Definition udp_count (k : stat) (u : UdpClient) : UdpClient :=
  mkUdpClient (tcp_client_ u) (udp_seq_ u) (udp_bound_ u) (udp_last_error_ u) (bump k (udp_transport_ u)).
Definition on_tcp (c : TcpClient) (u : UdpClient) : UdpClient :=
  mkUdpClient c (udp_seq_ u) (udp_bound_ u) (udp_last_error_ u) (udp_transport_ u).

Definition udp_close (u : UdpClient) : UdpClient :=
  mkUdpClient (close (tcp_client_ u)) (udp_seq_ u) false (udp_last_error_ u) (udp_transport_ u).

(** [opened] is the error of [open_udp_socket]. *)
Definition udp_connect (r : connect_result) (opened : option string) (u : UdpClient) : UdpClient * bool :=
  let u := udp_close u in
  let '(c, ok) := connect r (tcp_client_ u) in
  if negb ok then (udp_fail (last_error_ c) (on_tcp c u), false)
  else match opened with
       | Some message => (udp_fail message (on_tcp (close c) u), false)
       | None => (mkUdpClient c 1 false (udp_last_error_ u) (udp_transport_ u), true)
       end.

Definition udp_last_error (u : UdpClient) : string :=
  if bool_decide (udp_last_error_ u = EmptyString) then last_error_ (tcp_client_ u) else udp_last_error_ u.
Definition udp_transport_stats (u : UdpClient) : TransportStats :=
  accumulate_transport_stats (transport_ (tcp_client_ u)) (udp_transport_ u).

Definition unsupported_operation (transport operation : string) (u : UdpClient) : UdpClient * bool :=
  (udp_fail (unsupported_operation_message transport operation) (udp_count unsupported_operations u), false).

(** The inputs of an attach: how sends end, the endpoints, the clock. *)
Record UdpWorld := mkUdpWorld { can_send : list Z -> option string; uw_summary : string; uw_now : Z }.

Definition bind_payload (t : UdpBindTicket) : option (list Z) :=
  payload ← write_lp_utf8 [] t.(tk_session_id);
  write_lp_utf8 (payload ++ be64 t.(tk_nonce) ++ be64 t.(tk_expires_unix_ms)) t.(tk_token).

(** The frame of the request, and the rest after it was sent. *)
Definition bind_request_frame (t : UdpBindTicket) (now : Z) (u : UdpClient) : option (list Z) :=
  payload ← bind_payload t;
  make_frame MSG_UDP_BIND_REQ (udp_seq_ u) payload now.

Definition send_udp_bind_request (w : UdpWorld) (t : UdpBindTicket) (rounds : list udp_round) (u : UdpClient) :
    option (UdpClient * bool) :=
  frame ← bind_request_frame t (uw_now w) u;
  let seq := udp_seq_ u in
  let u := udp_count udp_bind_attempts
             (mkUdpClient (tcp_client_ u) (u32 (seq + 1)) (udp_bound_ u) (udp_last_error_ u) (udp_transport_ u)) in
  match can_send w frame with
  | Some message => Some (udp_fail ("udp bind send failed: " +:+ message) (udp_count udp_bind_failures u), false)
  | None =>
      r ← wait_for_udp_bind_response (uw_summary w) seq rounds;
      Some (match r with
            | inr message => (udp_count udp_bind_failures (udp_fail message u), false)
            | inl _ =>
                let u := udp_count udp_bind_successes u in
                (mkUdpClient (tcp_client_ u) (udp_seq_ u) true (udp_last_error_ u) (udp_transport_ u), true)
            end)
  end.

Definition perform_udp_bind (w : UdpWorld) (wakes : list (option io_event)) (rounds : list udp_round) `{!ClientCodec} (u : UdpClient) :
    option (UdpClient * bool) :=
  '(c, wakes, t) ← wait_for_udp_bind_ticket wakes (tcp_client_ u);
  let u := on_tcp c u in
  match t with
  | None => Some (udp_fail (last_error_ c) u, false)
  | Some t => send_udp_bind_request w (ct_ticket t) rounds u
  end.

Definition udp_login (w : UdpWorld) (user token : string) (wakes : list (option io_event)) (rounds : list udp_round)
    `{!ClientCodec} (u : UdpClient) : option (UdpClient * bool) :=
  '(c, wakes, r) ← login user token (uw_now w) wakes (tcp_client_ u);
  let u := on_tcp c u in
  match r with
  | None => Some (udp_fail (last_error_ c) u, false)
  | Some _ => perform_udp_bind w wakes rounds u
  end.

(** ** Reliable UDP *)

Definition make_loadgen_rudp_config (read_timeout_ms : Z) : RudpConfig :=
  let d := default_RudpConfig in
  mkRudpConfig (Z.max 250 read_timeout_ms) (idle_timeout_ms d) (cfg_ack_delay_ms d) (rto_min_ms d) (rto_max_ms d)
    (max_inflight_packets d) (max_inflight_bytes d) (mtu_payload_bytes d).

Record RudpClient := mkRudpClient { ru_udp : UdpClient; rudp_engine_ : RudpEngine }.

(** The first send that fails. *)
Fixpoint send_all (w : UdpWorld) (ds : list (list Z)) : option string :=
  match ds with
  | [] => None
  | d :: ds => match can_send w d with Some message => Some message | None => send_all w ds end
  end.

Definition attached (k : stat) (r : RudpClient) : RudpClient * bool :=
  (mkRudpClient (udp_count k (ru_udp r)) (rudp_engine_ r), true).
Definition attach_failed (message : string) (r : RudpClient) : RudpClient * bool :=
  (mkRudpClient (udp_fail message (ru_udp r)) (rudp_engine_ r), false).

(** After the loop: the engine is asked once more, and the attach counts as a fallback. *)
Definition attach_gives_up (now : Z) (r : RudpClient) : option (RudpClient * bool) :=
  '(e, polled) ← poll now (rudp_engine_ r);
  let r := mkRudpClient (ru_udp r) e in
  Some (if fallback_required polled then attached rudp_attach_fallbacks r else attached rudp_attach_fallbacks r).

(** [last_now] is the clock after the loop. *)
Fixpoint wait_for_rudp_attach_result (w : UdpWorld) (last_now : Z) (rounds : list udp_round) (r : RudpClient) :
    option (RudpClient * bool) :=
  match rounds with
  | [] => None
  | round :: rounds =>
      if rd_late round then attach_gives_up last_now r
      else
        got ← wait_for_udp_datagram (rd_polls round);
        match got with
        | inr message =>
            if bool_decide (message = "timeout waiting for udp response"%string) then attach_gives_up last_now r
            else Some (attach_failed message r)
        | inl datagram =>
            looks ← looks_like_rudp datagram;
            if negb looks then wait_for_rudp_attach_result w last_now rounds r
            else
              '(e, processed) ← process_datagram datagram (rd_now round) (rudp_engine_ r);
              let r := mkRudpClient (ru_udp r) e in
              match send_all w (egress_datagrams processed) with
              | Some message => Some (attach_failed ("rudp response send failed: " +:+ message) r)
              | None =>
                  if handshake_established processed then Some (attached rudp_attach_successes r)
                  else if fallback_required processed then Some (attached rudp_attach_fallbacks r)
                  else
                    '(e, polled) ← poll (rd_now round) (rudp_engine_ r);
                    let r := mkRudpClient (ru_udp r) e in
                    match send_all w (egress_datagrams polled) with
                    | Some message => Some (attach_failed ("rudp poll send failed: " +:+ message) r)
                    | None =>
                        if fallback_required polled then Some (attached rudp_attach_fallbacks r)
                        else wait_for_rudp_attach_result w last_now rounds r
                    end
              end
        end
  end.

(** [connection_id] is drawn from a counter of the process. *)
Definition attempt_rudp_attach (w : UdpWorld) (connection_id last_now : Z) (rounds : list udp_round) (r : RudpClient) :
    option (RudpClient * bool) :=
  let u := udp_count rudp_attach_attempts (ru_udp r) in
  '(e, hello) ← make_hello connection_id (uw_now w) (rudp_engine_reset (rudp_engine_ r));
  let r := mkRudpClient u e in
  match can_send w hello with
  | Some message => Some (attach_failed ("rudp hello send failed: " +:+ message) r)
  | None => wait_for_rudp_attach_result w last_now rounds r
  end.

Definition rudp_close (r : RudpClient) : RudpClient := mkRudpClient (udp_close (ru_udp r)) (rudp_engine_reset (rudp_engine_ r)).

Definition rudp_connect (res : connect_result) (opened : option string) (r : RudpClient) : RudpClient * bool :=
  let '(u, ok) := udp_connect res opened (ru_udp r) in (mkRudpClient u (rudp_engine_reset (rudp_engine_ r)), ok).

Definition rudp_login (w : UdpWorld) (user token : string) (connection_id last_now : Z) (wakes : list (option io_event))
    (bind_rounds attach_rounds : list udp_round) `{!ClientCodec} (r : RudpClient) : option (RudpClient * bool) :=
  '(u, ok) ← udp_login w user token wakes bind_rounds (ru_udp r);
  let r := mkRudpClient u (rudp_engine_ r) in
  if negb ok then Some (r, false) else attempt_rudp_attach w connection_id last_now attach_rounds r.

(** ** Bytes *)

Lemma be64_arith v : be64 v = map (fun k => v / 2 ^ k mod 2 ^ 8) [56; 48; 40; 32; 24; 16; 8; 0].
Proof.
  unfold be64. cbn [map fmap list_fmap]. rewrite !land_ff. unfold wrap. rewrite !Z.mod_mod by lia.
  by rewrite !Z.shiftr_div_pow2 by lia.
Qed.

Lemma be64_step v k : 0 <= k -> Z.lor (Z.shiftl (v / 2 ^ k mod 2 ^ 8) k) (v mod 2 ^ k) = v mod 2 ^ (k + 8).
Proof.
  intros Hk. pose proof (Z.mod_pos_bound v (2 ^ k)). rewrite lor_shiftl_add by (lia || auto with zarith).
  rewrite Z.pow_add_r, Z.rem_mul_r by lia. lia.
Qed.

Lemma read_be64_app v rest : fits 64 v -> read_be64 (be64 v ++ rest) = Some (v, rest).
Proof.
  intros Hv. rewrite be64_arith. cbn [map app]. unfold read_be64. rewrite (proj2 (Z.ltb_ge _ 8)) by (cbn; lia).
  do 2 f_equal. change (v / 2 ^ 0) with (v / 1). rewrite Z.div_1_r.
  rewrite !be64_step by lia. apply Z.mod_small, Hv.
Qed.

Lemma length_be64 v : length (be64 v) = 8%nat.
Proof. done. Qed.

Lemma well_formed_ascii l : Forall (fun b => 0 <= b < 0x80) l -> well_formed_utf8 l.
Proof.
  intros Hl. exists l. split.
  - eapply Forall_impl; [exact Hl|]. intros b Hb. unfold scalar_value. cbn in Hb. lia.
  - induction Hl as [|b l Hb Hl IH]; [done|]. cbn. rewrite <- IH. unfold utf8_encode. by rewrite (proj2 (Z.ltb_lt b _)) by lia.
Qed.

Lemma hex_well_formed digest : well_formed_utf8 (bytes_of_string (String.string_of_list_ascii (to_hex digest))).
Proof.
  apply well_formed_ascii.
  assert (forall n, 0 <= byte_of_ascii (kHex (Z.land n 0x0F)) < 0x80) as Hk.
  { intros n. change 0x0F with (Z.ones 4). rewrite Z.land_ones by lia. pose proof (Z.mod_pos_bound n (2 ^ 4)).
    unfold kHex. destruct (Z.ltb_spec (n mod 2 ^ 4) 10); rewrite byte_ascii_id by (widths; lia); lia. }
  induction digest as [|b digest IH]; [constructor|]. cbn -[kHex Z.land Z.shiftr].
  constructor; [apply Hk|]. constructor; [apply Hk|]. exact IH.
Qed.

(** ** Strings with a length *)

Definition short (s : string) : Prop :=
  well_formed_utf8 (bytes_of_string s) /\ zlen (bytes_of_string s) <= 0xFFFF.

Lemma write_lp_short out s : short s -> write_lp_utf8 out s = Some (out ++ lp s).
Proof. intros [_ Hl]. rewrite write_lp_utf8_eq. unfold lp. by rewrite take_ge by lia. Qed.

Lemma read_lp_short s rest : short s -> read_lp_utf8 (lp s ++ rest) = Some (Some (s, rest)).
Proof.
  intros [Hw Hl]. unfold lp. rewrite <- app_assoc, read_lp_utf8_well_formed by auto with mach.
  by rewrite string_of_bytes_of_string.
Qed.

Lemma length_lp s : zlen (lp s) = 2 + zlen (bytes_of_string s).
Proof. unfold lp. rewrite length_app. change (length (be16 _)) with 2%nat. lia. Qed.

(** ** Frames *)

Definition header_of (msg_id flags seq : Z) (payload : list Z) (now : Z) : PacketHeader :=
  mkPacketHeader (u16 (zlen payload)) msg_id flags seq (u32 (Z.land now 0xFFFFFFFF)).

Lemma frame_with_eq msg_id flags seq payload now :
  frame_with msg_id flags seq payload now = Some (header_bytes (header_of msg_id flags seq payload now) ++ payload).
Proof.
  unfold frame_with. fold (header_of msg_id flags seq payload now). set (h := header_of _ _ _ _ _).
  rewrite encode_header_poke, poke_Some by (rewrite length_header_bytes, length_replicate; lia). cbn [mbind option_bind].
  rewrite length_header_bytes, take_0, drop_replicate, Nat.add_0_l.
  replace (k_header_bytes + length payload - k_header_bytes)%nat with (length payload) by lia. cbn [app].
  case_decide as Hp; [by rewrite Hp|].
  rewrite poke_Some by (rewrite length_app, length_header_bytes, length_replicate; lia).
  rewrite take_app_length' by done.
  rewrite drop_ge by (rewrite length_app, length_header_bytes, length_replicate; lia). by rewrite app_nil_r.
Qed.

Lemma wf_header_of msg_id seq payload now : fits 16 msg_id -> fits 32 seq -> wf_PacketHeader (header_of msg_id 0 seq payload now).
Proof. intros Hm Hs. split_and!; cbn; auto with mach. widths. lia. Qed.

(** What every reader of a frame does with one that was made of a short payload. *)
Lemma read_frame msg_id seq payload now (f := header_bytes (header_of msg_id 0 seq payload now) ++ payload) :
  fits 16 msg_id -> fits 32 seq -> zlen payload <= 0xFFFF ->
  decode_header f 0 = Some (header_of msg_id 0 seq payload now)
  /\ ph_length (header_of msg_id 0 seq payload now) = zlen payload
  /\ zlen f = Z.of_nat k_header_bytes + zlen payload /\ drop k_header_bytes f = payload.
Proof.
  intros Hm Hs Hl. split_and!.
  - by apply decode_header_app, wf_header_of.
  - cbn. apply wrap_id. widths. lia.
  - unfold f. rewrite length_app, length_header_bytes. lia.
  - by apply drop_app_length'.
Qed.

(** ** Tickets *)

Definition ticket_bytes (t : UdpBindTicket) : list Z :=
  lp t.(tk_session_id) ++ be64 t.(tk_nonce) ++ be64 t.(tk_expires_unix_ms) ++ lp t.(tk_token).

Record wf_ticket (t : UdpBindTicket) : Prop := {
  wt_session : short t.(tk_session_id);
  wt_nonce : fits 64 t.(tk_nonce);
  wt_expires : fits 64 t.(tk_expires_unix_ms);
  wt_token : short t.(tk_token);
}.

Lemma parse_bind_req_ticket t : wf_ticket t -> parse_udp_bind_req (ticket_bytes t) = Some (Some t).
Proof.
  intros [H1 H2 H3 H4]. unfold parse_udp_bind_req, ticket_bytes. rewrite read_lp_short by done. cbn [mbind option_bind].
  rewrite !read_be64_app by done. rewrite <- (app_nil_r (lp _)), read_lp_short by done. cbn. by destruct t.
Qed.

Lemma parse_ticket_payload code t message :
  fits 16 code -> wf_ticket t -> short message ->
  parse_udp_bind_ticket_payload (be16 code ++ ticket_bytes t ++ lp message) = Some (Some (mkClientTicket code t message)).
Proof.
  intros Hc [H1 H2 H3 H4] Hm. unfold parse_udp_bind_ticket_payload, ticket_bytes.
  rewrite (proj2 (Z.ltb_ge _ 2)) by (rewrite length_app; change (length (be16 _)) with 2%nat; lia).
  rewrite read_be16_app by done. cbn [mbind option_bind]. rewrite drop_app_length' by done.
  rewrite <- !app_assoc, read_lp_short by done. cbn [mbind option_bind]. rewrite !read_be64_app by done.
  rewrite read_lp_short by done. cbn [mbind option_bind]. rewrite <- (app_nil_r (lp message)), read_lp_short by done.
  cbn. by destruct t.
Qed.

Section bind.
  Context `{!GatewayEnv}.

Lemma bind_res_frame_eq code t message seq now :
  wf_ticket t -> short message ->
  let payload := be16 code ++ ticket_bytes t ++ lp message in
  make_udp_bind_res_frame code t message seq now
  = Some (header_bytes (header_of MSG_UDP_BIND_RES 0 seq payload now) ++ payload).
Proof.
  intros [H1 H2 H3 H4] Hm payload. unfold make_udp_bind_res_frame.
  rewrite write_lp_short by done. cbn [mbind option_bind]. rewrite write_lp_short by done. cbn [mbind option_bind].
  rewrite write_lp_short by done. cbn [mbind option_bind].
  replace ((((be16 code ++ lp (tk_session_id t)) ++ be64 (tk_nonce t) ++ be64 (tk_expires_unix_ms t)) ++ lp (tk_token t)) ++ lp message)
    with payload by (unfold payload, ticket_bytes; by rewrite <- !app_assoc).
  exact (frame_with_eq MSG_UDP_BIND_RES 0 seq payload now).
Qed.

Lemma bind_request_frame_eq t now u :
  wf_ticket t ->
  bind_request_frame t now u
  = Some (header_bytes (header_of MSG_UDP_BIND_REQ 0 (udp_seq_ u) (ticket_bytes t) now) ++ ticket_bytes t).
Proof.
  intros [H1 H2 H3 H4]. unfold bind_request_frame, bind_payload. rewrite write_lp_short by done. cbn [mbind option_bind app].
  rewrite write_lp_short by done. cbn [mbind option_bind].
  replace ((lp (tk_session_id t) ++ be64 (tk_nonce t) ++ be64 (tk_expires_unix_ms t)) ++ lp (tk_token t)) with (ticket_bytes t)
    by (unfold ticket_bytes; by rewrite <- !app_assoc).
  exact (frame_with_eq MSG_UDP_BIND_REQ 0 (udp_seq_ u) (ticket_bytes t) now).
Qed.

(** The token is hexadecimal. *)
Lemma token_well_formed sid nonce expires : well_formed_utf8 (bytes_of_string (make_udp_bind_token sid nonce expires)).
Proof.
  unfold make_udp_bind_token, hmac_sha256_hex. case_bool_decide; [apply well_formed_nil|].
  destruct (gw_hmac _ _) as [[|b d]|]; [apply well_formed_nil|apply hex_well_formed|apply well_formed_nil].
Qed.

(** The client reads the frame of a ticket from its stream and takes the ticket from it. *)
Lemma ticket_frame_received t seq now frame `{!ClientCodec} c now' wakes :
  wf_ticket t -> zlen (ticket_bytes t) <= 0xF000 -> fits 32 seq ->
  make_udp_bind_res_frame 0 t "issued" seq now = Some frame ->
  connected_ c = true -> closing_ c = false -> events_ c = [] ->
  exists header payload, next_frame frame = Some (Some (header, payload, []))
    /\ wait_for_udp_bind_ticket (Some (IoFrame header payload now') :: wakes) c
       = Some (c, wakes, Some (mkClientTicket 0 t "issued")).
Proof.
  intros Ht Hl Hs Hf Hc Hcl He. assert (short "issued") as Hi
    by (split; [apply well_formed_ascii; repeat constructor; vm_compute; done|by vm_compute]).
  rewrite (bind_res_frame_eq 0 t "issued" seq now Ht Hi) in Hf. apply (inj Some) in Hf. subst frame.
  set (payload := be16 0 ++ ticket_bytes t ++ lp "issued").
  assert (zlen payload <= 0xFFFF) as Hp.
  { unfold payload. rewrite !length_app. change (length (be16 0)) with 2%nat. change (length (lp "issued")) with 8%nat. lia. }
  destruct (read_frame MSG_UDP_BIND_RES seq payload now) as (Hd & Hlen & Hz & Hdrop); [by vm_compute|done|done|].
  exists (header_of MSG_UDP_BIND_RES 0 seq payload now), payload. split.
  - unfold next_frame. rewrite (proj2 (Nat.ltb_ge _ _)) by lia. rewrite Hd. cbn [mbind option_bind]. rewrite Hdrop, Hlen.
    rewrite Z.ltb_irrefl, Nat2Z.id, firstn_all, drop_all. done.
  - unfold wait_for_udp_bind_ticket. cbn [wait_for_event]. unfold check_events. rewrite He, Hc, Hcl. cbn [take_first negb orb run_io].
    unfold handle_frame. cbn [ph_msg_id header_of]. change (MSG_UDP_BIND_RES =? MSG_PING) with false.
    change (MSG_UDP_BIND_RES =? MSG_HELLO) with false. change (MSG_UDP_BIND_RES =? MSG_PONG) with false.
    change (MSG_UDP_BIND_RES =? MSG_ERR) with false. cbn [Z.eqb]. change (MSG_UDP_BIND_RES =? MSG_UDP_BIND_RES) with true. cbn iota.
    unfold payload. rewrite parse_ticket_payload by (done || by vm_compute). cbn [mbind option_bind].
    destruct c. cbn in *. subst. destruct wakes; done.
Qed.

(** The gateway grants the request for a ticket that is the session's latest, and its answer
    is what the client waits for. *)
Lemma bind_request_granted t s u ep now g :
  wf_ticket t -> zlen (ticket_bytes t) <= 1600 -> fits 32 (udp_seq_ u) ->
  t.(tk_session_id) <> EmptyString -> t.(tk_token) <> EmptyString -> t.(tk_nonce) <> 0 -> 0 < now <= t.(tk_expires_unix_ms) ->
  t.(tk_token) = make_udp_bind_token t.(tk_session_id) t.(tk_nonce) t.(tk_expires_unix_ms) ->
  g.(sessions_) !! t.(tk_session_id) = Some s ->
  s.(udp_nonce) = t.(tk_nonce) -> s.(udp_expires_unix_ms) = t.(tk_expires_unix_ms) -> s.(udp_token) = t.(tk_token) ->
  s.(udp_bound) = false -> s.(udp_bind_retry_after_unix_ms) = 0 ->
  (block_state (endpoint_key ep) now g.(udp_bind_abuse_guard_)).2.(blocked) = false ->
  exists request g2 outs answer,
    bind_request_frame t now u = Some request
    /\ on_datagram request ep now g = Some (g2, outs) /\ SendUdp ep answer ∈ outs
    /\ g2.(sessions_) !! t.(tk_session_id) = Some (bind_session ep s)
    /\ read_bind_answer (udp_seq_ u) (take 2048 answer) = Some (Answer (mkClientTicket 0 t "bound")).
Proof.
  intros Ht Hl Hseq Hsid Htok Hnz Hnow Hmac Hs Hn He Hk Hb Hr Hblock.
  assert (short "bound") as Hbound by (split; [apply well_formed_ascii; repeat constructor; vm_compute; done|by vm_compute]).
  set (request := header_bytes (header_of MSG_UDP_BIND_REQ 0 (udp_seq_ u) (ticket_bytes t) now) ++ ticket_bytes t).
  destruct (read_frame MSG_UDP_BIND_REQ (udp_seq_ u) (ticket_bytes t) now) as (Hd & Hlen & Hz & Hdrop); [by vm_compute|done|lia|].
  fold request in Hd, Hz, Hdrop. set (payload := be16 0 ++ ticket_bytes t ++ lp "bound").
  set (answer := header_bytes (header_of MSG_UDP_BIND_RES 0 (udp_seq_ u) payload now) ++ payload).
  assert (zlen payload <= 0x700) as Hp.
  { unfold payload. rewrite !length_app. change (length (be16 0)) with 2%nat. change (length (lp "bound")) with 7%nat. lia. }
  destruct (read_frame MSG_UDP_BIND_RES (udp_seq_ u) payload now) as (Hd' & Hlen' & Hz' & Hdrop'); [by vm_compute|done|lia|].
  fold answer in Hd', Hz', Hdrop'.
  assert (looks_like_rudp request = Some false) as Hlook.
  { unfold looks_like_rudp. rewrite (proj2 (Z.leb_le 2 _)) by (rewrite Hz; unfold k_header_bytes; lia).
    unfold request, header_bytes. rewrite <- !app_assoc, read_be16_app by (cbn; auto with mach). cbn [mbind option_bind].
    rewrite Hlen. f_equal. apply Z.eqb_neq. unfold kRudpMagic. lia. }
  assert (check_bind t ep now s = (bind_session ep s, [], 0, "bound"%string)) as Hcheck.
  { unfold check_bind. rewrite Hr, Hn, He, Hk, Hb. rewrite (proj2 (Z.ltb_ge now 0)) by lia.
    rewrite (proj2 (Z.eqb_neq _ 0)) by lia. rewrite (proj2 (Z.eqb_neq (tk_nonce t) 0)) by done.
    rewrite bool_decide_false by done. rewrite (proj2 (Z.ltb_ge _ now)) by lia. rewrite !Z.eqb_refl. unfold secure_equals.
    rewrite bool_decide_true by done. rewrite bool_decide_true by done. done. }
  assert (on_bind_request (header_of MSG_UDP_BIND_REQ 0 (udp_seq_ u) (ticket_bytes t) now) (ticket_bytes t) ep now g
          = Some (mkUdpGateway (<[tk_session_id t := bind_session ep s]> g.(sessions_))
                    (guard_record_success (endpoint_key ep) (block_state (endpoint_key ep) now g.(udp_bind_abuse_guard_)).1),
                  [Count udp_bind_success_total_ 1; SendUdp ep answer])) as Hbind.
  { unfold on_bind_request. destruct (block_state (endpoint_key ep) now _) as [guard st]. cbn in Hblock. rewrite Hblock.
    rewrite parse_bind_req_ticket by done. cbn [mbind option_bind]. unfold apply_udp_bind_request.
    rewrite !bool_decide_false by done. cbn [orb sessions_]. rewrite Hs, Hcheck.
    rewrite bind_res_frame_eq by done. done. }
  exists request. eexists _, _, answer. split; [by apply bind_request_frame_eq|]. split.
  { unfold on_datagram. rewrite Hlook. cbn [mbind option_bind]. rewrite (proj2 (Z.ltb_ge (zlen request) _)) by lia.
    rewrite Hd. cbn [mbind option_bind]. rewrite Hlen, Hz, Z.add_simpl_l, Z.eqb_refl. cbn [negb ph_msg_id header_of].
    change (MSG_UDP_BIND_REQ =? MSG_UDP_BIND_REQ) with true. cbn iota. rewrite Hdrop, Hbind. reflexivity. }
  split; [apply elem_of_app; right; right; left|]. split; [cbn; by rewrite lookup_insert_eq|].
  rewrite take_ge by (unfold k_header_bytes in *; lia). unfold read_bind_answer. rewrite (proj2 (Z.ltb_ge _ _)) by lia.
  rewrite Hd'. cbn [mbind option_bind]. rewrite Hlen', Hz', Z.add_simpl_l, Z.eqb_refl. cbn [negb ph_msg_id ph_seq header_of].
  change (MSG_UDP_BIND_RES =? MSG_UDP_BIND_RES) with true. rewrite Z.eqb_refl. cbn [negb orb]. rewrite Hdrop'.
  unfold payload. rewrite parse_ticket_payload by (done || by vm_compute). done.
Qed.

(** C16. A client attaches.  The ticket the gateway sends for a session is read by the client,
    and if the datagrams arrive before the ticket expires, from an endpoint that is not
    blocked, the gateway binds the session to this endpoint, and its answer ends the wait of
    the client with success, whatever else the client has been through. *)
Theorem client_binds_with_gateway `{!ClientCodec} sid nonce issued (g : UdpGateway) s g1 frame (u : UdpClient) ep now now' :
  let expires := u64 (issued + gw_cfg.(udp_bind_ttl_ms_)) in
  g.(sessions_) !! sid = Some s -> sid <> EmptyString ->
  well_formed_utf8 (bytes_of_string sid) -> zlen (bytes_of_string sid) <= 1024 ->
  fits 64 nonce -> nonce <> 0 -> zlen (bytes_of_string (make_udp_bind_token sid nonce expires)) <= 512 ->
  make_udp_bind_ticket_frame sid nonce issued g = (g1, Some (Some frame)) ->
  connected_ (tcp_client_ u) = true -> closing_ (tcp_client_ u) = false -> events_ (tcp_client_ u) = [] ->
  fits 32 (udp_seq_ u) -> 0 < now <= expires ->
  (block_state (endpoint_key ep) now g.(udp_bind_abuse_guard_)).2.(blocked) = false ->
  exists header payload request g2 outs answer s',
    next_frame frame = Some (Some (header, payload, []))
    /\ on_datagram request ep now g1 = Some (g2, outs) /\ SendUdp ep answer ∈ outs
    /\ g2.(sessions_) !! sid = Some s' /\ s'.(udp_bound) = true /\ s'.(udp_endpoint) = ep
    /\ forall w wakes rounds, uw_now w = now -> can_send w request = None ->
         exists u', perform_udp_bind w (Some (IoFrame header payload now') :: wakes) (mkRound false [PGot answer] now :: rounds) u
                    = Some (u', true) /\ udp_bound_ u' = true.
Proof.
  intros expires Hs Hsid Hwf Hlen Hn Hn0 Htok Hframe Hc Hcl He Hseq Hnow Hblock.
  unfold make_udp_bind_ticket_frame in Hframe. destruct (_ || _); [done|]. rewrite Hs in Hframe. fold expires in Hframe.
  case_bool_decide as Ht0; [done|]. set (t := mkTicket sid nonce expires (make_udp_bind_token sid nonce expires)) in *.
  set (s1 := with_ticket sid nonce issued expires (tk_token t) s) in *.
  pose proof (f_equal fst Hframe) as Hg1. pose proof (f_equal snd Hframe) as Hf. cbn [fst snd] in Hg1, Hf.
  apply (inj Some) in Hf. symmetry in Hg1. clear Hframe.
  assert (wf_ticket t) as Ht.
  { constructor; cbn; [split; [done|lia]|done|apply wrap_fits; lia|split; [apply token_well_formed|lia]]. }
  assert (zlen (ticket_bytes t) <= 1600) as Hl.
  { unfold ticket_bytes. rewrite !length_app, !length_be64. pose proof (length_lp sid). pose proof (length_lp (tk_token t)).
    cbn [tk_session_id tk_token t] in *. lia. }
  destruct (ticket_frame_received t 0 issued frame (tcp_client_ u) now' []) as (header & payload & Hnext & _);
    [done|lia|by vm_compute|done..|].
  destruct (bind_request_granted t s1 u ep now g1) as (request & g2 & outs & answer & Hreq & Hd & Hin & Hs2 & Hans); try done.
  { rewrite Hg1. cbn [sessions_ tk_session_id t]. by rewrite lookup_insert_eq. }
  { by rewrite Hg1. }
  exists header, payload, request, g2, outs, answer, (bind_session ep s1). split_and!; try done.
  intros w wakes rounds Hw Hsend.
  destruct (ticket_frame_received t 0 issued frame (tcp_client_ u) now' wakes) as (header' & payload' & Hnext' & Hwait);
    [done|lia|by vm_compute|done..|].
  rewrite Hnext in Hnext'. assert (header' = header /\ payload' = payload) as [-> ->] by (split; congruence).
  unfold perform_udp_bind. rewrite Hwait. cbn [mbind option_bind]. unfold send_udp_bind_request. cbn [ct_ticket].
  rewrite Hw. assert (bind_request_frame t now (on_tcp (tcp_client_ u) u) = Some request) as -> by (rewrite <- Hreq; by destruct u).
  cbn [mbind option_bind]. rewrite Hsend. cbn [wait_for_udp_bind_response rd_late rd_polls wait_for_udp_datagram mbind option_bind].
  change (udp_seq_ (on_tcp (tcp_client_ u) u)) with (udp_seq_ u). rewrite Hans. cbn. by eexists.
Qed.
End bind.

(** ** Waiting *)

Lemma take_first_sound p evs e rest : take_first p evs = Some (e, rest) -> p e = true /\ evs ≡ₚ e :: rest.
Proof.
  revert rest. induction evs as [|x evs IH]; cbn; intros rest H; [done|]. destruct (p x) eqn:Hx; [by injection H as <- <-|].
  destruct (take_first p evs) as [[e' rest']|]; [|done]. injection H as <- <-. destruct (IH rest' eq_refl) as [Hp Hperm].
  split; [done|]. by rewrite Hperm, Permutation_swap.
Qed.

(** A wait that ends gives an event that was asked for, which it takes out of the queue, or
    leaves the reason of its failure. *)
Lemma wait_for_event_sound `{!ClientCodec} p label wakes c c' rest r :
  wait_for_event p label wakes c = Some (c', rest, r) ->
  match r with Some e => p e = true | None => last_error_ c' <> EmptyString end.
Proof.
  revert c. induction wakes as [|wake wakes IH]; intros c; cbn [wait_for_event]; destruct (check_events p c) as [[c1 r1]|] eqn:Hk.
  1,3: intros [= <- _ <-]; unfold check_events in Hk; destruct (take_first p (events_ c)) as [[e evs]|] eqn:He;
    [injection Hk as <- <-; exact (proj1 (take_first_sound _ _ _ _ He))|];
    destruct (take_first is_error (events_ c)) as [[e evs]|]; [injection Hk as <- <-; cbn; discriminate|];
    destruct (_ || _); [|done]; injection Hk as <- <-; case_bool_decide; cbn; done.
  - done.
  - destruct wake as [ev|]; [|by intros [= <- _ <-]]. intros (c1 & _ & Hw)%bind_Some. exact (IH c1 Hw).
Qed.

(** ** Attaching over reliable UDP *)

Lemma process_data_handshake e r h payload now e' r' :
  process_data e r h payload now = Some (e', r') -> handshake_established r' = handshake_established r.
Proof.
  unfold process_data. destruct (negb _); [by intros [= _ <-]|]. destruct (observe _ _) as [w ack].
  destruct (negb (accepted ack)); [by intros [= _ <-]|]. intros ([e1 r1] & H1 & H2)%bind_Some.
  assert (handshake_established r1 = handshake_established r) as Hr.
  { destruct (_ && _); [apply bind_Some in H1 as (out & _ & H1)|]; injection H1 as _ <-; cbn; by case_bool_decide. }
  destruct (negb (_ =? 0)); [apply bind_Some in H2 as (x & _ & H2)|]; by injection H2 as _ <-.
Qed.

Lemma handshake_means_established d now e e' r :
  process_datagram d now e = Some (e', r) -> handshake_established r = true -> lifecycle (state_ e') = kEstablished.
Proof.
  unfold process_datagram. intros (looks & _ & H)%bind_Some. destruct (negb looks); [by injection H as _ <-|].
  apply bind_Some in H as (dec & _ & H). destruct (_ || _); [by injection H as _ <-|].
  destruct (_ && _); [by injection H as _ <-|]. destruct (_ =? kHello).
  { apply bind_Some in H as (out & _ & H). by injection H as <- _. }
  destruct (_ =? kHelloAck); [by injection H as <- _|]. destruct (_ =? kClose); [by injection H as _ <-|].
  destruct (_ =? kPing); [apply bind_Some in H as (out & _ & H); by injection H as _ <-|].
  intros Hh. apply process_data_handshake in H. by rewrite H in Hh.
Qed.

(** How an attach ends, from the statistics and the engine it started with. *)
Definition attach_outcome (t : TransportStats) (r : RudpClient) (ok : bool) : Prop :=
  let t' := udp_transport_ (ru_udp r) in
  if ok
  then (t' = bump rudp_attach_successes t /\ lifecycle (state_ (rudp_engine_ r)) = kEstablished)
       \/ t' = bump rudp_attach_fallbacks t
  else t' = t /\ udp_last_error_ (ru_udp r) <> EmptyString.

Lemma gives_up_outcome now r r' ok : attach_gives_up now r = Some (r', ok) -> attach_outcome (udp_transport_ (ru_udp r)) r' ok.
Proof.
  unfold attach_gives_up. intros ([e polled] & _ & H)%bind_Some. destruct (fallback_required polled); injection H as <- <-; by right.
Qed.

Lemma wait_datagram_error polls message : wait_for_udp_datagram polls = Some (inr message) -> message <> EmptyString.
Proof. induction polls as [|[d|[]|m] polls IH]; cbn; intros H; try done; solve [by injection H as <- | by apply IH]. Qed.

Lemma wait_attach_outcome w last_now rounds r r' ok :
  wait_for_rudp_attach_result w last_now rounds r = Some (r', ok) -> attach_outcome (udp_transport_ (ru_udp r)) r' ok.
Proof.
  revert r. induction rounds as [|round rounds IH]; intros r; cbn [wait_for_rudp_attach_result]; [done|].
  destruct (rd_late round); [apply gives_up_outcome|]. intros (got & Hg & H)%bind_Some. destruct got as [d|message].
  2:{ case_bool_decide; [by eapply gives_up_outcome|]. injection H as <- <-. split; [done|]. by eapply wait_datagram_error. }
  apply bind_Some in H as (looks & _ & H). destruct (negb looks); [by apply IH|].
  apply bind_Some in H as ([e processed] & Hp & H).
  destruct (send_all w (egress_datagrams processed)); [by injection H as <- <-|].
  destruct (handshake_established processed) eqn:Hh.
  { injection H as <- <-. left. split; [done|]. by apply (handshake_means_established d (rd_now round) (rudp_engine_ r) e processed). }
  destruct (fallback_required processed); [injection H as <- <-; by right|].
  apply bind_Some in H as ([e' polled] & _ & H).
  destruct (send_all w (egress_datagrams polled)); [by injection H as <- <-|].
  destruct (fallback_required polled); [injection H as <- <-; by right|]. exact (IH _ H).
Qed.

(** An attach is counted once: with one attempt and, when it returns true, with either a
    success, and then the engine is established, or a fallback; when it returns false with
    neither, and there is an error. *)
Theorem attach_counted_once w connection_id last_now rounds r r' ok :
  attempt_rudp_attach w connection_id last_now rounds r = Some (r', ok) ->
  attach_outcome (bump rudp_attach_attempts (udp_transport_ (ru_udp r))) r' ok.
Proof.
  unfold attempt_rudp_attach. intros ([e hello] & _ & H)%bind_Some.
  destruct (can_send w hello); [by injection H as <- <-|]. by apply wait_attach_outcome in H.
Qed.

(** ** Examples *)

Definition no_codec : ClientCodec :=
  {| decode_login_res := fun _ => None; decode_snapshot := fun _ => None; decode_broadcast := fun _ => None |}.

Definition online : UdpClient := on_tcp (connect ConnectDone new_TcpClient).1 new_UdpClient.
Definition one_session : UdpGateway := run_or_empty [EOpen "s1" "alice"].

Lemma client_binds_with_gateway_witness :
  exists request g2 outs s', on_datagram (H := example_gw) request alice 1500
      (make_udp_bind_ticket_frame (H := example_gw) "s1" 77 1000 one_session).1 = Some (g2, outs)
    /\ g2.(sessions_) !! "s1"%string = Some s' /\ s'.(udp_bound) = true /\ s'.(udp_endpoint) = alice.
Proof.
  destruct (one_session.(sessions_) !! "s1"%string) as [s|] eqn:Hs; [|by vm_compute in Hs].
  destruct (make_udp_bind_ticket_frame (H := example_gw) "s1" 77 1000 one_session) as [g1 [[frame|]|]] eqn:Hf;
    [|by vm_compute in Hf|by vm_compute in Hf].
  destruct (@client_binds_with_gateway example_gw no_codec "s1" 77 1000 one_session s g1 frame online alice 1500 1200)
    as (_ & _ & request & g2 & outs & _ & s' & _ & Hd & _ & Hs' & Hb & He & _);
    [exact Hs|discriminate| |by vm_compute|widths; lia|discriminate|by vm_compute|exact Hf|reflexivity|reflexivity|reflexivity
    |cbn; widths; lia|vm_compute; split; [reflexivity|discriminate]|reflexivity|].
  - apply well_formed_ascii. repeat constructor; vm_compute; done.
  - exists request, g2, outs, s'. split; [exact Hd|]. split; [exact Hs'|]. split; [exact Hb|exact He].
Defined.

(** A gateway's engine answers the first datagram of the client. *)
Definition rudp_online : RudpClient := mkRudpClient online (new_RudpEngine (make_loadgen_rudp_config 5000)).
Definition open_world : UdpWorld := mkUdpWorld (fun _ => None) "local=unknown remote=unbound" 1000.
Definition hello_answer : list Z :=
  match make_hello 9 1000 (rudp_engine_ rudp_online) with
  | Some (_, hello) =>
      match process_datagram hello 1005 (new_RudpEngine default_RudpConfig) with
      | Some (_, r) => concat (egress_datagrams r)
      | None => []
      end
  | None => []
  end.

Lemma attach_counted_once_witness :
  exists r', attempt_rudp_attach open_world 9 7000 [mkRound false [PBlock false; PGot hello_answer] 1010] rudp_online = Some (r', true)
    /\ udp_transport_ (ru_udp r') rudp_attach_successes = 1
    /\ attach_outcome (bump rudp_attach_attempts (udp_transport_ (ru_udp rudp_online))) r' true.
Proof.
  assert (snd <$> attempt_rudp_attach open_world 9 7000 [mkRound false [PBlock false; PGot hello_answer] 1010] rudp_online = Some true) as H1
    by (vm_compute; reflexivity).
  assert ((fun x => udp_transport_ (ru_udp x.1) rudp_attach_successes)
            <$> attempt_rudp_attach open_world 9 7000 [mkRound false [PBlock false; PGot hello_answer] 1010] rudp_online = Some 1) as H2
    by (vm_compute; reflexivity).
  pose proof (attach_counted_once open_world 9 7000 [mkRound false [PBlock false; PGot hello_answer] 1010] rudp_online) as Ho.
  revert H1 H2 Ho. generalize (attempt_rudp_attach open_world 9 7000 [mkRound false [PBlock false; PGot hello_answer] 1010] rudp_online).
  intros [[r' ok]|] H1 H2 Ho; [|discriminate]. cbn [fmap option_fmap option_map fst snd] in H1, H2.
  apply (inj Some) in H1, H2. subst ok. exists r'. split; [reflexivity|]. split; [exact H2|]. exact (Ho r' true eq_refl).
Defined.

(** The error of an earlier connection stays: [udp_connect] clears the error of its TCP
    client but not its own. *)
Lemma udp_error_survives_connect :
  let u := (udp_connect ConnectTimeout None new_UdpClient).1 in
  udp_last_error (udp_connect ConnectDone None u).1 = "connect timeout"%string
  /\ (udp_connect ConnectDone None u).2 = true.
Proof. done. Qed.

(** A confirmation of a join is recognised by a name inside a text: the news that [bobby]
    has come confirms the join of [bob]. *)
Lemma join_confirmed_by_other :
  join_confirmed "lobby" "bob" (EvSelfChat 0 "lobby" "(system)" "bobby joined") = true.
Proof. reflexivity. Qed.
