(* ===== verification/ChatText.v ===== *)
(** Text of commands, settings and requests: the parts of [std::string],
    [std::istringstream], [std::stoul] and [std::strtoull] that the programs use, the
    trimming and lower casing they write out, and the hexadecimal names of the chat
    service. *)

From S2P Require Import Prelude Text.

(** ** The C++ library *)

(** [std::isspace] in the C locale. *)
Definition isspace (c : Ascii.ascii) : bool :=
  let b := byte_of_ascii c in (b =? 32) || ((9 <=? b) && (b <=? 13)).

Definition is_blank (c : Ascii.ascii) : bool := byte_of_ascii c =? 32.

(** [s.substr(n)] for [n <= s.size()]. *)
Fixpoint str_drop (n : nat) (s : string) : string :=
  match n, s with
  | O, _ => s
  | S n', String _ s' => str_drop n' s'
  | S _, EmptyString => EmptyString
  end.

(** What follows the leading characters of a kind, and the text before the first one. *)
Fixpoint skip_while (f : Ascii.ascii -> bool) (s : string) : string :=
  match s with
  | String c s' => if f c then skip_while f s' else s
  | EmptyString => EmptyString
  end.

Fixpoint take_until (f : Ascii.ascii -> bool) (s : string) : string * string :=
  match s with
  | String c s' => if f c then (EmptyString, s) else let (w, r) := take_until f s' in (String c w, r)
  | EmptyString => (EmptyString, EmptyString)
  end.

(** [iss >> word]: the word, empty when the extraction fails, and what is left. *)
Definition next_word (s : string) : string * string := take_until isspace (skip_while isspace s).

Fixpoint str_rev (s acc : string) : string :=
  match s with
  | String c s' => str_rev s' (String c acc)
  | EmptyString => acc
  end.

(** Both ends trimmed: [trim_ascii_local] with [isspace], [trim_copy] with blanks. *)
Definition trim (f : Ascii.ascii -> bool) (s : string) : string :=
  str_rev (skip_while f (str_rev (skip_while f s) EmptyString)) EmptyString.
Definition trim_ascii_local : string -> string := trim isspace.
Definition trim_copy : string -> string := trim is_blank.

Definition tolower (c : Ascii.ascii) : Ascii.ascii :=
  let b := byte_of_ascii c in
  if (65 <=? b) && (b <=? 90) then ascii_of_byte (b + 32) else c.
Fixpoint to_lower_ascii_local (s : string) : string :=
  match s with
  | String c s' => String (tolower c) (to_lower_ascii_local s')
  | EmptyString => EmptyString
  end.

(** The number at the front of a text after blanks and a sign: its value, whether it is
    negated, and what follows the digits; [None] without digits. *)
Definition scan_number (s : string) : option (Z * bool * chars) :=
  let s := chars_of (skip_while isspace s) in
  let '(neg, s) := match s with
                   | c :: s' => if byte_of_ascii c =? 45 then (true, s')
                                else if byte_of_ascii c =? 43 then (false, s') else (false, s)
                   | [] => (false, [])
                   end in
  let '(v, n, rest) := scan_digits 10 s 0 0 in
  if Nat.eqb n 0 then None else Some (v, neg, rest).

(** [std::stoul] and [std::stoull]: an exception ([None]) without digits or out of range; a
    negated number wraps.  The second component is what [pos] points at. *)
Definition stoull (s : string) : option (Z * chars) :=
  match scan_number s with
  | None => None
  | Some (v, neg, rest) =>
      if 2 ^ 64 <=? v then None else Some (if neg then u64 (- v) else v, rest)
  end.

(** [std::strtoull]: [None] when nothing is converted, the largest value out of range. *)
Definition strtoull (s : string) : option Z :=
  match scan_number s with
  | None => None
  | Some (v, neg, _) =>
      Some (if 2 ^ 64 <=? v then 2 ^ 64 - 1 else if neg then u64 (- v) else v)
  end.

(** ** Parsers of the service *)

(** The lambda [parse_duration_sec] of [on_chat_send]. *)
Definition parse_duration_sec (raw : string) (fallback min_value max_value : Z) : Z :=
  if bool_decide (raw = EmptyString) then fallback
  else match stoull raw with
       | None => fallback
       | Some (parsed, _) =>
           if (parsed <? min_value) || (max_value <? parsed) then fallback else u32 parsed
       end.

(** The lambda [parse_u32] of [admin_apply_runtime_setting]. *)
Definition parse_u32 (raw : string) : option Z :=
  if bool_decide (raw = EmptyString) then None
  else match stoull raw with
       | None => None
       | Some (parsed, rest) =>
           if negb (bool_decide (rest = [])) || (2 ^ 32 - 1 <? parsed) then None else Some (u32 parsed)
       end.

(** ** Hexadecimal *)

Definition hex_digit (n : Z) : Ascii.ascii :=
  ascii_of_byte (if n <? 10 then 48 + n else 87 + n).

Definition hex_byte (b : Z) : string :=
  String (hex_digit (Z.land (Z.shiftr b 4) 0xF)) (String (hex_digit (Z.land b 0xF)) EmptyString).

(** [oss << std::hex << value], without leading zeros. *)
Fixpoint hex_go (fuel : nat) (v : Z) (acc : string) : string :=
  match fuel with
  | O => acc
  | S fuel' =>
      let acc := String (hex_digit (v mod 16)) acc in
      if v / 16 =? 0 then acc else hex_go fuel' (v / 16) acc
  end.
Definition hex_u64 (v : Z) : string := hex_go 16 v EmptyString.

Fixpoint pad_left (n : nat) (s : string) : string :=
  match n with O => s | S n' => pad_left n' (String (ascii_of_byte 48) s) end.

(** [gen_temp_name_uuid8] from a value of the generator. *)
Definition gen_temp_name_uuid8 (rng : Z) : string :=
  let h := hex_u64 (u32 rng) in pad_left (8 - String.length h) h.

(** [generate_uuid_v4] from two values of the generator. *)
Definition uuid_bytes (r0 r1 : Z) : list Z :=
  let b := ((fun j => Z.land (Z.shiftr r0 (j * 8)) 0xFF) <$> [0; 1; 2; 3; 4; 5; 6; 7])
           ++ ((fun j => Z.land (Z.shiftr r1 (j * 8)) 0xFF) <$> [0; 1; 2; 3; 4; 5; 6; 7]) in
  alter (fun x => Z.lor (Z.land x 0x3F) 0x80) 8%nat
    (alter (fun x => Z.lor (Z.land x 0x0F) 0x40) 6%nat b).

Fixpoint uuid_text (i : Z) (b : list Z) : string :=
  match b with
  | [] => EmptyString
  | x :: b' =>
      let tail := uuid_text (i + 1) b' in
      let tail := if (i =? 3) || (i =? 5) || (i =? 7) || (i =? 9)
                  then String (ascii_of_byte 45) tail else tail in
      String.append (hex_byte x) tail
  end.

Definition generate_uuid_v4 (r0 r1 : Z) : string := uuid_text 0 (uuid_bytes r0 r1).

(** ** Lengths and fuel *)

Lemma take_until_length f s :
  match take_until f s with
  | (line, EmptyString) => line = s
  | (line, String _ rest) => (String.length line + S (String.length rest) = String.length s)%nat
  end.
Proof.
  induction s as [|c s IH]; [done|]. cbn. destruct (f c); [by cbn|].
  destruct (take_until f s) as [w r]. destruct r as [|c' r]; [by subst|]. cbn. lia.
Qed.

Lemma take_until_rest f s : (String.length (take_until f s).2 <= String.length s)%nat.
Proof.
  pose proof (take_until_length f s) as H.
  destruct (take_until f s) as [w [|c r]]; cbn in *; lia.
Qed.

Lemma skip_while_length f s : (String.length (skip_while f s) <= String.length s)%nat.
Proof. induction s as [|c s IH]; [done|]. cbn. destruct (f c); cbn; lia. Qed.

Lemma skip_while_head f s c s' : skip_while f s = String c s' -> f c = false.
Proof. induction s as [|d s IH]; [done|]. cbn. destruct (f d) eqn:Hd; [done|]. by intros [= <- <-]. Qed.

(** A digit per four bits: sixteen are enough for every word. *)
Lemma hex_go_enough n m v acc :
  0 <= v < 16 ^ Z.of_nat (S n) -> (n <= m)%nat -> hex_go (S m) v acc = hex_go (S n) v acc.
Proof.
  revert m v acc. induction n as [|n IH]; intros m v acc Hv Hm.
  - cbn [hex_go]. by rewrite Z.div_small by lia.
  - destruct m as [|m]; [lia|]. cbn [hex_go]. destruct (Z.eqb_spec (v / 16) 0); [done|].
    apply IH; [|lia]. rewrite Nat2Z.inj_succ, Z.pow_succ_r in Hv by lia.
    split; [apply Z.div_pos; lia|apply Z.div_lt_upper_bound; lia].
Qed.

Lemma hex_u64_enough n v : fits 64 v -> (16 <= n)%nat -> hex_go n v EmptyString = hex_u64 v.
Proof. intros Hv Hn. destruct n as [|n]; [lia|]. apply (hex_go_enough 15); [exact Hv|lia]. Qed.
