(* ===== verification/GatewayConfig.v ===== *)
(** The configuration of the gateway from environment variables:
    [GatewayApp::configure_gateway] of [gateway/src/gateway_app.cpp] and its parsers.

    [getenv] is a parameter.  The result is the record the UDP side uses ([GatewayUdp.v]),
    the objects of [Resilience.v] and [UdpGuard.v] configured, and the other settings. *)

From S2P Require Import Prelude Text Resilience UdpGuard Rollout Dispatch RudpEngine RudpEngineProps GatewayUdp ChatText.

(** [listen_port_]. *)
Definition kDefaultListenPort : Z := 6000.

Section config.
  Context (getenv : string -> option string).

(** [value && *value]. *)
Definition env_value (key : string) : option string :=
  match getenv key with
  | Some value => if bool_decide (value = EmptyString) then None else Some value
  | None => None
  end.

Definition parse_env_bool (key : string) (fallback : bool) : bool :=
  match env_value key with
  | Some text =>
      if bool_decide (text ∈ ["1"; "true"; "TRUE"; "on"; "ON"]%string) then true
      else if bool_decide (text ∈ ["0"; "false"; "FALSE"; "off"; "OFF"]%string) then false
      else fallback
  | None => fallback
  end.

(** [parse_env_u32_bounded] and [parse_env_size_bounded]; the cast is to [w] bits. *)
Definition parse_env_integral_bounded (w : Z) (key : string) (fallback min_value max_value : Z) : Z :=
  match env_value key with
  | Some value =>
      match stoull value with
      | Some (parsed, _) =>
          if (min_value <=? parsed) && (parsed <=? max_value) then wrap w parsed else fallback
      | None => fallback
      end
  | None => fallback
  end.
Definition parse_env_u32_bounded := parse_env_integral_bounded 32.
Definition parse_env_size_bounded := parse_env_integral_bounded 64.

(** The host and the port of a listen address. *)
Definition is_colon (c : Ascii.ascii) : bool := byte_of_ascii c =? 58.

Definition parse_listen (value : string) (fallback_port : Z) : string * Z :=
  if bool_decide (value = EmptyString) then ("0.0.0.0"%string, fallback_port)
  else match take_until is_colon value with
       | (_, EmptyString) => (value, fallback_port)
       | (host, String _ port_view) =>
           (host, if bool_decide (port_view = EmptyString) then fallback_port
                  else match stoull port_view with
                       | Some (port, _) => u16 port
                       | None => fallback_port
                       end)
       end.

Record GatewaySettings := mkGatewaySettings {
  listen_host_ : string;
  listen_port_ : Z;
  gateway_id_ : string;
  backend_connect_timeout_ms_ : Z;
  backend_send_queue_max_bytes_ : Z;
  backend_connect_retry_backoff_ms_ : Z;
  backend_connect_retry_backoff_max_ms_ : Z;
  ingress_max_active_sessions_ : Z;
  ingress_token_bucket_ : TokenBucket;
  retry_budget_ : RetryBudget;
  circuit_breaker_ : CircuitBreaker;
  udp_listen_host_ : string;
  udp_settings : GatewayConfig;
  abuse_guard_ : UdpBindAbuseGuard;
  allow_anonymous_ : bool;
}.

(** A maximum is raised to its minimum. *)
Definition at_least (low high : Z) : Z := if high <? low then low else high.

Definition configure_rudp : RudpConfig :=
  let rto_min := parse_env_u32_bounded "GATEWAY_RUDP_RTO_MIN_MS" 50 1 10000 in
  let rto_max := parse_env_u32_bounded "GATEWAY_RUDP_RTO_MAX_MS" 2000 1 60000 in
  mkRudpConfig
    (parse_env_u32_bounded "GATEWAY_RUDP_HANDSHAKE_TIMEOUT_MS" 1500 100 60000)
    (parse_env_u32_bounded "GATEWAY_RUDP_IDLE_TIMEOUT_MS" 10000 1000 300000)
    (parse_env_u32_bounded "GATEWAY_RUDP_ACK_DELAY_MS" 10 1 200)
    rto_min (at_least rto_min rto_max)
    (parse_env_size_bounded "GATEWAY_RUDP_MAX_INFLIGHT_PACKETS" 256 1 4096)
    (parse_env_size_bounded "GATEWAY_RUDP_MAX_INFLIGHT_BYTES" (256 * 1024) 1024 (16 * 1024 * 1024))
    (parse_env_size_bounded "GATEWAY_RUDP_MTU_PAYLOAD_BYTES" 1200 256 1400).

(** The opcodes of a list variable; the loop of the parser is bounded, see
    [Rollout.v]. *)
Definition env_opcodes (key : string) : gset Z :=
  match env_value key with
  | Some csv => default ∅ (parse_udp_opcode_allowlist (chars_of csv))
  | None => ∅
  end.

Definition configure_rollout : RudpRolloutPolicy :=
  let enabled := parse_env_bool "GATEWAY_RUDP_ENABLE" false in
  let percent := parse_env_u32_bounded "GATEWAY_RUDP_CANARY_PERCENT" 0 0 100 in
  mkRudpRolloutPolicy enabled (if enabled then percent else 0) (env_opcodes "GATEWAY_RUDP_OPCODE_ALLOWLIST").

Definition configure_udp : string * GatewayConfig :=
  let '(host, port) := match env_value "GATEWAY_UDP_LISTEN" with
                       | Some value => parse_listen value 0
                       | None => (EmptyString, 0)
                       end in
  let backoff := parse_env_u32_bounded "GATEWAY_UDP_BIND_RETRY_BACKOFF_MS" 200 10 60000 in
  let backoff_max := parse_env_u32_bounded "GATEWAY_UDP_BIND_RETRY_BACKOFF_MAX_MS" 2000 10 300000 in
  let opcodes := env_opcodes "GATEWAY_UDP_OPCODE_ALLOWLIST" in
  (host, mkGatewayConfig port
    (default EmptyString (env_value "GATEWAY_UDP_BIND_SECRET"))
    (parse_env_u32_bounded "GATEWAY_UDP_BIND_TTL_MS" 5000 1000 120000)
    backoff (at_least backoff backoff_max)
    (parse_env_u32_bounded "GATEWAY_UDP_BIND_RETRY_MAX_ATTEMPTS" 6 1 32)
    (if bool_decide (opcodes = ∅) then {[MSG_UDP_BIND_REQ]} else opcodes)
    configure_rollout configure_rudp).

(** The constructor: without a bind secret the boot id stands in for it. *)
Definition with_boot_secret (boot_id : string) (c : GatewayConfig) : GatewayConfig :=
  if negb (udp_listen_port_ c =? 0) && bool_decide (udp_bind_secret_ c = EmptyString)
  then mkGatewayConfig (udp_listen_port_ c) boot_id (udp_bind_ttl_ms_ c) (udp_bind_retry_backoff_ms_ c)
         (udp_bind_retry_backoff_max_ms_ c) (udp_bind_retry_max_attempts_ c) (udp_opcode_allowlist_ c)
         (rudp_rollout_policy_ c) (rudp_config_ c)
  else c.

Definition configure_gateway : GatewaySettings :=
  let '(host, port) := parse_listen (default "0.0.0.0:6000"%string (getenv "GATEWAY_LISTEN")) kDefaultListenPort in
  let backoff := parse_env_u32_bounded "GATEWAY_BACKEND_CONNECT_RETRY_BACKOFF_MS" 200 10 60000 in
  let backoff_max := parse_env_u32_bounded "GATEWAY_BACKEND_CONNECT_RETRY_BACKOFF_MAX_MS" 2000 10 300000 in
  let tokens := parse_env_u32_bounded "GATEWAY_INGRESS_TOKENS_PER_SEC" 200 1 100000 in
  let burst := at_least tokens (parse_env_u32_bounded "GATEWAY_INGRESS_BURST_TOKENS" 400 1 200000) in
  let '(udp_host, udp) := configure_udp in
  mkGatewaySettings host port
    (default "gateway-default"%string (env_value "GATEWAY_ID"))
    (parse_env_u32_bounded "GATEWAY_BACKEND_CONNECT_TIMEOUT_MS" 5000 100 60000)
    (parse_env_size_bounded "GATEWAY_BACKEND_SEND_QUEUE_MAX_BYTES" (256 * 1024) 1024 (16 * 1024 * 1024))
    backoff (at_least backoff backoff_max)
    (parse_env_size_bounded "GATEWAY_INGRESS_MAX_ACTIVE_SESSIONS" 50000 1 500000)
    (token_configure (f_of_Z tokens) (f_of_Z burst) default_TokenBucket)
    (retry_configure (parse_env_u32_bounded "GATEWAY_BACKEND_CONNECT_RETRY_BUDGET_PER_MIN" 120 0 60000) 60000
       default_RetryBudget)
    (breaker_configure (parse_env_bool "GATEWAY_BACKEND_CIRCUIT_BREAKER_ENABLED" true)
       (parse_env_u32_bounded "GATEWAY_BACKEND_CIRCUIT_FAIL_THRESHOLD" 5 1 100)
       (parse_env_u32_bounded "GATEWAY_BACKEND_CIRCUIT_OPEN_MS" 10000 100 300000) default_CircuitBreaker)
    udp_host udp
    (guard_configure (parse_env_u32_bounded "GATEWAY_UDP_BIND_FAIL_WINDOW_MS" 10000 1000 120000)
       (parse_env_u32_bounded "GATEWAY_UDP_BIND_FAIL_LIMIT" 5 2 100)
       (parse_env_u32_bounded "GATEWAY_UDP_BIND_BLOCK_MS" 60000 1000 300000) default_UdpBindAbuseGuard)
    (match env_value "ALLOW_ANONYMOUS" with
     | Some value => negb (bool_decide (value = "0"%string))
     | None => true
     end).
End config.

(** ** The settings *)

Definition between (lo v hi : Z) : Prop := lo <= v <= hi.

#[local] Arguments parse_env_u32_bounded : simpl never.
#[local] Arguments parse_env_size_bounded : simpl never.
#[local] Arguments between : simpl never.

Lemma env_bounded getenv w key fallback lo hi :
  0 <= lo -> hi < 2 ^ w -> between lo fallback hi ->
  between lo (parse_env_integral_bounded getenv w key fallback lo hi) hi.
Proof.
  intros Hlo Hhi Hf. unfold parse_env_integral_bounded.
  destruct (env_value getenv key) as [value|]; [|done]. destruct (stoull value) as [[parsed ?]|]; [|done].
  destruct (Z.leb_spec lo parsed), (Z.leb_spec parsed hi); try done. simpl.
  unfold between. rewrite wrap_id by (unfold fits; lia). lia.
Qed.

Lemma env_u32 getenv key fallback lo hi :
  0 <= lo -> hi < 2 ^ 32 -> between lo fallback hi ->
  between lo (parse_env_u32_bounded getenv key fallback lo hi) hi.
Proof. apply env_bounded. Qed.

Lemma env_size getenv key fallback lo hi :
  0 <= lo -> hi < 2 ^ 64 -> between lo fallback hi ->
  between lo (parse_env_size_bounded getenv key fallback lo hi) hi.
Proof. apply env_bounded. Qed.

(** A decimal number is read back by [std::stoull]. *)
Lemma digit10_plain c :
  digit10 c -> isspace c = false /\ (byte_of_ascii c =? 45) = false /\ (byte_of_ascii c =? 43) = false.
Proof.
  intros (d & Hd & H0 & Hlt). unfold digit_value, isspace in *.
  destruct (Z.leb_spec 48 (byte_of_ascii c)), (Z.leb_spec (byte_of_ascii c) 57); simpl in Hd;
    repeat case_match; simplify_eq; lia.
Qed.

Lemma scan_number_decimal n :
  0 <= n -> scan_number (String.string_of_list_ascii (decimal n)) = Some (n, false, []).
Proof.
  intros H0. destruct (decimal_digits n H0) as (Hds & Hv & Hne).
  unfold scan_number. destruct (decimal n) as [|c ds] eqn:Hd; [done|].
  destruct (digit10_plain c) as (Hsp & Hm & Hp); [by inv Hds|].
  cbn [String.string_of_list_ascii skip_while]. rewrite Hsp.
  change (String c (String.string_of_list_ascii ds)) with (String.string_of_list_ascii (c :: ds)).
  rewrite chars_of_string_of_list, Hm, Hp, <- (app_nil_r (c :: ds)), scan_digits_app, Hv by done.
  done.
Qed.

Lemma stoull_decimal n :
  fits 64 n -> stoull (String.string_of_list_ascii (decimal n)) = Some (n, []).
Proof.
  intros [H0 H1]. unfold stoull. rewrite scan_number_decimal by done. by destruct (Z.leb_spec (2 ^ 64) n); [lia|].
Qed.

Lemma env_value_decimal getenv key n :
  0 <= n -> getenv key = Some (String.string_of_list_ascii (decimal n)) ->
  env_value getenv key = Some (String.string_of_list_ascii (decimal n)).
Proof.
  intros H0 Hg. unfold env_value. rewrite Hg.
  destruct (decimal_digits n H0) as (_ & _ & Hne). rewrite bool_decide_eq_false_2; [done|].
  by destruct (decimal n).
Qed.

(** A number in its range that is written in the environment is the setting. *)
Lemma env_bounded_exact getenv w key fallback lo hi n :
  0 <= lo -> hi < 2 ^ w -> w <= 64 -> between lo n hi ->
  getenv key = Some (String.string_of_list_ascii (decimal n)) ->
  parse_env_integral_bounded getenv w key fallback lo hi = n.
Proof.
  intros Hlo Hhi Hw [Hn1 Hn2] Hg. assert (2 ^ w <= 2 ^ 64) by (apply Z.pow_le_mono_r; lia).
  unfold parse_env_integral_bounded.
  rewrite (env_value_decimal getenv key n ltac:(lia) Hg), stoull_decimal by (unfold fits; lia).
  rewrite (proj2 (Z.leb_le _ _) Hn1), (proj2 (Z.leb_le _ _) Hn2). simpl.
  apply wrap_id. unfold fits. lia.
Qed.

Lemma env_opcodes_fit getenv key : set_Forall (fits 16) (env_opcodes getenv key).
Proof.
  unfold env_opcodes. destruct (env_value getenv key) as [csv|]; [|apply set_Forall_empty].
  unfold parse_udp_opcode_allowlist. rewrite parse_allowlist_eq. simpl. intros op.
  rewrite elem_of_list_to_set, list_elem_of_omap. intros (tok & _ & Htok). by eapply parse_u16_token_fits.
Qed.

Lemma at_least_spec low high lo hi :
  between lo high hi -> low <= hi -> low <= at_least low high /\ between lo (at_least low high) hi.
Proof. unfold between, at_least. destruct (Z.ltb_spec high low); lia. Qed.

Lemma parse_listen_port value fallback : fits 16 fallback -> fits 16 (parse_listen value fallback).2.
Proof.
  intros Hf. unfold parse_listen. repeat (case_match; simpl; try done). by apply wrap_fits.
Qed.

(** The ranges of the RUDP parameters. *)
Record rudp_ranges (c : RudpConfig) : Prop := {
  range_handshake : between 100 (handshake_timeout_ms c) 60000;
  range_idle : between 1000 (idle_timeout_ms c) 300000;
  range_ack_delay : between 1 (cfg_ack_delay_ms c) 200;
  range_rto_min : between 1 (rto_min_ms c) 10000;
  range_rto_max : rto_min_ms c <= rto_max_ms c <= 60000;
  range_packets : between 1 (max_inflight_packets c) 4096;
  range_bytes : between 1024 (max_inflight_bytes c) 16777216;
  range_mtu : between 256 (mtu_payload_bytes c) 1400;
}.

(** What the rest of the gateway relies on. *)
Record wf_udp_settings (c : GatewayConfig) : Prop := {
  wf_udp_port : fits 16 (udp_listen_port_ c);
  wf_udp_ttl : between 1000 (udp_bind_ttl_ms_ c) 120000;
  wf_udp_backoff : between 10 (udp_bind_retry_backoff_ms_ c) 60000;
  wf_udp_backoff_max : udp_bind_retry_backoff_ms_ c <= udp_bind_retry_backoff_max_ms_ c <= 300000;
  wf_udp_attempts : between 1 (udp_bind_retry_max_attempts_ c) 32;
  wf_udp_opcodes : set_Forall (fits 16) (udp_opcode_allowlist_ c) /\ udp_opcode_allowlist_ c <> ∅;
  wf_udp_policy : 0 <= canary_percent (rudp_rollout_policy_ c) <= 100
    /\ (rollout_enabled (rudp_rollout_policy_ c) = false -> canary_percent (rudp_rollout_policy_ c) = 0)
    /\ set_Forall (fits 16) (opcode_allowlist (rudp_rollout_policy_ c));
  wf_udp_rudp : wf_config (rudp_config_ c) /\ rudp_ranges (rudp_config_ c);
}.

Record wf_settings (s : GatewaySettings) : Prop := {
  wf_port : fits 16 (listen_port_ s);
  wf_id : gateway_id_ s <> EmptyString;
  wf_connect_timeout : between 100 (backend_connect_timeout_ms_ s) 60000;
  wf_send_queue : between 1024 (backend_send_queue_max_bytes_ s) 16777216;
  wf_backoff : between 10 (backend_connect_retry_backoff_ms_ s) 60000;
  wf_backoff_max : backend_connect_retry_backoff_ms_ s <= backend_connect_retry_backoff_max_ms_ s <= 300000;
  wf_sessions : between 1 (ingress_max_active_sessions_ s) 500000;
  wf_ingress : exists tokens burst, between 1 tokens 100000 /\ tokens <= burst <= 200000
    /\ ingress_token_bucket_ s = token_configure (f_of_Z tokens) (f_of_Z burst) default_TokenBucket;
  wf_retry : wf_budget (retry_budget_ s) /\ window_ms_ (retry_budget_ s) = 60000
    /\ between 0 (budget_per_window_ (retry_budget_ s)) 60000;
  wf_circuit : 1 <= failure_threshold_ (circuit_breaker_ s) <= 100
    /\ 100 <= open_window_ms_ (circuit_breaker_ s) <= 300000
    /\ (enabled_ (circuit_breaker_ s) = true -> wf_breaker (circuit_breaker_ s));
  wf_guard : between 1000 (fail_window_ms_ (abuse_guard_ s)) 120000 /\ between 2 (fail_limit_ (abuse_guard_ s)) 100
    /\ between 1000 (block_ms_ (abuse_guard_ s)) 300000 /\ entries_ (abuse_guard_ s) = ∅;
  wf_udp : wf_udp_settings (udp_settings s);
}.

Ltac setting :=
  lazymatch goal with
  | |- between _ (parse_env_u32_bounded _ _ _ _ _) _ => apply env_u32; unfold between; lia
  | |- between _ (parse_env_size_bounded _ _ _ _ _) _ => apply env_size; unfold between; lia
  end.

Ltac have_setting t H :=
  lazymatch t with
  | parse_env_u32_bounded ?g ?k ?f ?lo ?hi => assert (H : between lo t hi) by setting
  | parse_env_size_bounded ?g ?k ?f ?lo ?hi => assert (H : between lo t hi) by setting
  end.

(** Every numeric setting of a goal as a variable with its range. *)
Ltac settings :=
  repeat match goal with
  | |- context [parse_env_u32_bounded ?g ?k ?f ?lo ?hi] =>
      let H := fresh "Hset" in have_setting (parse_env_u32_bounded g k f lo hi) H;
      generalize dependent (parse_env_u32_bounded g k f lo hi); intros ? H
  | |- context [parse_env_size_bounded ?g ?k ?f ?lo ?hi] =>
      let H := fresh "Hset" in have_setting (parse_env_size_bounded g k f lo hi) H;
      generalize dependent (parse_env_size_bounded g k f lo hi); intros ? H
  end; unfold between in *.

Lemma configure_rudp_wf getenv :
  wf_config (configure_rudp getenv) /\ rudp_ranges (configure_rudp getenv).
Proof.
  split.
  - unfold configure_rudp, wf_config, at_least. cbn. settings. widths. case_match; zbool; lia.
  - constructor; cbn; try setting. settings. unfold at_least. case_match; zbool; lia.
Qed.

Lemma configure_rollout_wf getenv :
  0 <= canary_percent (configure_rollout getenv) <= 100
  /\ (rollout_enabled (configure_rollout getenv) = false -> canary_percent (configure_rollout getenv) = 0)
  /\ set_Forall (fits 16) (opcode_allowlist (configure_rollout getenv)).
Proof.
  split_and!; [..|apply env_opcodes_fit]; unfold configure_rollout; cbn; settings; case_match; lia || done.
Qed.

Lemma configure_udp_wf getenv : wf_udp_settings (configure_udp getenv).2.
Proof.
  unfold configure_udp.
  set (listen := match env_value getenv "GATEWAY_UDP_LISTEN" with Some _ => _ | None => _ end).
  assert (Hport : fits 16 listen.2).
  { unfold listen. case_match; [by apply parse_listen_port|by split]. }
  destruct listen as [host port]. simpl in Hport.
  constructor; cbn [snd udp_listen_port_ udp_bind_ttl_ms_ udp_bind_retry_backoff_ms_
    udp_bind_retry_backoff_max_ms_ udp_bind_retry_max_attempts_ udp_opcode_allowlist_ rudp_rollout_policy_
    rudp_config_]; try setting; try done.
  - settings. unfold at_least. case_match; zbool; lia.
  - case_bool_decide as Hop; [|by split; [apply env_opcodes_fit|]].
    split; [apply set_Forall_singleton; by split|set_solver].
  - apply configure_rollout_wf.
  - apply configure_rudp_wf.
Qed.

Lemma with_boot_secret_wf boot_id c : wf_udp_settings c -> wf_udp_settings (with_boot_secret boot_id c).
Proof. intros []. unfold with_boot_secret. case_match; by constructor. Qed.

(** ** Theorems *)

(** C35. Whatever the environment holds, the configured gateway is well-formed: every number read
    from a variable is in the range of that variable (timeouts, queue and session limits,
    back-offs, rates, retry budget, breaker, abuse guard, the UDP and the eight RUDP
    parameters; a port has 16 bits), each maximum is at least its minimum and the burst
    at least the rate, the retry budget, the circuit breaker and the abuse guard start in
    states that satisfy their invariants, the allowlists hold 16-bit opcodes and the one
    of UDP is not empty, no session is a canary when RUDP is off, and the RUDP parameters
    are those the engine's theorems require.  With UDP on and a boot id, the secret that
    signs the bind tickets is not empty. *)
Theorem gateway_settings_wf getenv boot_id :
  let s := configure_gateway getenv in
  wf_settings s /\ wf_udp_settings (with_boot_secret boot_id (udp_settings s))
  /\ (boot_id <> EmptyString -> udp_listen_port_ (udp_settings s) <> 0 ->
      udp_bind_secret_ (with_boot_secret boot_id (udp_settings s)) <> EmptyString).
Proof.
  assert (Hwf : wf_settings (configure_gateway getenv)).
  { unfold configure_gateway.
    pose proof (parse_listen_port (default "0.0.0.0:6000"%string (getenv "GATEWAY_LISTEN")) kDefaultListenPort
      ltac:(by split)) as Hport.
    destruct (parse_listen _ _) as [host port]. simpl in Hport.
    pose proof (configure_udp_wf getenv) as Hudp. destruct (configure_udp getenv) as [udp_host udp].
    simpl in Hudp.
    constructor; cbn; try setting; try done.
    - unfold env_value. repeat (case_match; simpl; try done). by apply bool_decide_eq_false in H0.
    - settings. unfold at_least. case_match; zbool; lia.
    - eexists _, _. refine (conj _ (conj _ eq_refl)); settings; [|unfold at_least; case_match; zbool]; lia.
    - split_and!; [|done|setting]. unfold wf_budget. cbn. settings. widths. lia.
    - unfold wf_breaker. cbn. settings. widths. split_and!; try lia. intros ->. split_and!; done || lia.
    - split_and!; done || setting. }
  split; [done|]. split; [apply with_boot_secret_wf, Hwf|].
  intros Hb Hp. unfold with_boot_secret. rewrite (proj2 (Z.eqb_neq _ _) Hp). simpl.
  by case_bool_decide.
Qed.

(** A port beyond 65535 is not refused: it is truncated to 16 bits, and 65536 disables the
    UDP listener. *)
Lemma listen_port_truncated :
  parse_listen "0.0.0.0:70000" kDefaultListenPort = ("0.0.0.0"%string, 4464)
  /\ parse_listen "0.0.0.0:65536" kDefaultListenPort = ("0.0.0.0"%string, 0).
Proof. by split; vm_compute. Qed.

(** A number followed by other text is accepted, and so is a negative number that wraps
    into the range. *)
Lemma setting_junk_accepted :
  parse_env_u32_bounded (fun _ => Some "250sec"%string) "GATEWAY_BACKEND_CONNECT_TIMEOUT_MS" 5000 100 60000 = 250
  /\ parse_env_u32_bounded (fun _ => Some "-18446744073709551516"%string) "GATEWAY_BACKEND_CONNECT_TIMEOUT_MS"
       5000 100 60000 = 100.
Proof. by split; vm_compute. Qed.
