(* ===== verification/InstanceRegistry.v ===== *)
(** The registry of server instances: records, selectors and the in-memory backend of
    [core/src/state/instance_registry.cpp], the JSON form of a record
    ([server/src/state/instance_registry_common.cpp]), and the backends on Redis and Consul
    ([instance_registry_redis.cpp], [instance_registry_consul.cpp]).

    A routine that talks to Redis is a program of [Redis.v].  The traversal order of an
    [unordered_map] is a parameter. *)

From S2P Require Import Prelude Text Redis ChatText.

(** ** Records and selectors *)

Record InstanceRecord := mkInstanceRecord {
  instance_id : string;
  host : string;
  port : Z;
  role : string;
  game_mode : string;
  region : string;
  shard : string;
  tags : list string;
  capacity : Z;
  active_sessions : Z;
  ready : bool;
  last_heartbeat_ms : Z;
}.

Definition default_InstanceRecord : InstanceRecord :=
  mkInstanceRecord EmptyString EmptyString 0 EmptyString EmptyString EmptyString EmptyString [] 0 0 true 0.

Record InstanceSelector := mkInstanceSelector {
  sel_all : bool;
  server_ids : list string;
  roles : list string;
  game_modes : list string;
  regions : list string;
  shards : list string;
  sel_tags : list string;
}.

Definition normalize_token (value : string) : string := to_lower_ascii_local (trim isspace value).

Definition normalize_token_set (values : list string) : gset string :=
  fold_left (fun out value =>
    let token := normalize_token value in
    if bool_decide (token = EmptyString) then out else {[token]} ∪ out) values ∅.

Definition matches_field (value : string) (filters : list string) : bool :=
  if bool_decide (filters = []) then true
  else let normalized_filters := normalize_token_set filters in
       if bool_decide (normalized_filters = ∅) then false
       else bool_decide (normalize_token value ∈ normalized_filters).

Definition matches_tags (record_tags selector_tags : list string) : bool :=
  if bool_decide (selector_tags = []) then true
  else let normalized_selector_tags := normalize_token_set selector_tags in
       if bool_decide (normalized_selector_tags = ∅) then false
       else existsb (fun tag => bool_decide (normalize_token tag ∈ normalized_selector_tags)) record_tags.

Definition nonempty {A} (l : list A) : bool := match l with [] => false | _ => true end.

Definition has_at_least_one_selector_field (selector : InstanceSelector) : bool :=
  sel_all selector || nonempty (server_ids selector) || nonempty (roles selector)
  || nonempty (game_modes selector) || nonempty (regions selector) || nonempty (shards selector)
  || nonempty (sel_tags selector).

Definition matches_selector (record : InstanceRecord) (selector : InstanceSelector) : bool :=
  if sel_all selector then true
  else if negb (has_at_least_one_selector_field selector) then false
  else if negb (matches_field (instance_id record) (server_ids selector)) then false
  else if negb (matches_field (role record) (roles selector)) then false
  else if negb (matches_field (game_mode record) (game_modes selector)) then false
  else if negb (matches_field (region record) (regions selector)) then false
  else if negb (matches_field (shard record) (shards selector)) then false
  else matches_tags (tags record) (sel_tags selector).

Inductive SelectorPolicyLayer := kGlobal | kGameMode | kRegion | kShard | kServer.

Definition classify_selector_policy_layer (selector : InstanceSelector) : SelectorPolicyLayer :=
  if sel_all selector then kGlobal
  else if nonempty (server_ids selector) then kServer
  else if nonempty (shards selector) then kShard
  else if nonempty (regions selector) then kRegion
  else if nonempty (game_modes selector) then kGameMode
  else kGlobal.

Definition selector_policy_layer_name (layer : SelectorPolicyLayer) : string :=
  match layer with
  | kGlobal => "global"
  | kGameMode => "game_mode"
  | kRegion => "region"
  | kShard => "shard"
  | kServer => "server"
  end.

Record SelectorMatchStats := mkSelectorMatchStats { scanned : Z; matched : Z; selector_mismatch : Z }.

Definition select_step (selector : InstanceSelector) (acc : list InstanceRecord * SelectorMatchStats)
    (record : InstanceRecord) : list InstanceRecord * SelectorMatchStats :=
  let '(out, st) := acc in
  if matches_selector record selector
  then (out ++ [record], mkSelectorMatchStats (u64 (scanned st + 1)) (u64 (matched st + 1)) (selector_mismatch st))
  else (out, mkSelectorMatchStats (u64 (scanned st + 1)) (matched st) (u64 (selector_mismatch st + 1))).

Definition select_instances (instances : list InstanceRecord) (selector : InstanceSelector) :
    list InstanceRecord * SelectorMatchStats :=
  fold_left (select_step selector) instances ([], mkSelectorMatchStats 0 0 0).

(** ** The JSON form *)

Definition trim_ascii_copy (view : string) : string := trim isspace view.

(** The loop over the tokens ends with the text; [split_sep] is its list of tokens. *)
Definition split_pipe_tokens (value : string) : list string :=
  List.filter (fun t => negb (bool_decide (t = EmptyString)))
    (map (fun t => trim_ascii_copy (str t)) (split_sep 124 (chars_of value))).

Definition join_pipe_tokens (values : list string) : string :=
  str (join_sep 124 (map chars_of (List.filter (fun v => negb (bool_decide (v = EmptyString))) values))).

Definition json_string (key value : string) : string :=
  quote +:+ key +:+ quote +:+ ":" +:+ quote +:+ value +:+ quote.
Definition json_number (key : string) (value : Z) : string :=
  quote +:+ key +:+ quote +:+ ":" +:+ str (decimal value).

Definition serialize_json (record : InstanceRecord) : string :=
  "{" +:+ json_string "instance_id" (instance_id record) +:+ ","
  +:+ json_string "host" (host record) +:+ ","
  +:+ json_number "port" (port record) +:+ ","
  +:+ json_string "role" (role record) +:+ ","
  +:+ json_string "game_mode" (game_mode record) +:+ ","
  +:+ json_string "region" (region record) +:+ ","
  +:+ json_string "shard" (shard record) +:+ ","
  +:+ json_string "tags" (join_pipe_tokens (tags record)) +:+ ","
  +:+ json_number "capacity" (capacity record) +:+ ","
  +:+ json_number "active_sessions" (active_sessions record) +:+ ","
  +:+ quote +:+ "ready" +:+ quote +:+ ":" +:+ (if ready record then "true" else "false") +:+ ","
  +:+ json_number "last_heartbeat_ms" (last_heartbeat_ms record) +:+ "}".

(** The setters; [None] is an exception, which leaves the record as it is. *)
Definition JsonFieldSetter := InstanceRecord -> string -> option InstanceRecord.

Definition set_instance_id : JsonFieldSetter := fun '(mkInstanceRecord id h p ro g re s t c a rd hb) v =>
  Some (mkInstanceRecord v h p ro g re s t c a rd hb).
Definition set_host : JsonFieldSetter := fun '(mkInstanceRecord id h p ro g re s t c a rd hb) v =>
  Some (mkInstanceRecord id v p ro g re s t c a rd hb).
Definition set_role : JsonFieldSetter := fun '(mkInstanceRecord id h p ro g re s t c a rd hb) v =>
  Some (mkInstanceRecord id h p v g re s t c a rd hb).
Definition set_game_mode : JsonFieldSetter := fun '(mkInstanceRecord id h p ro g re s t c a rd hb) v =>
  Some (mkInstanceRecord id h p ro v re s t c a rd hb).
Definition set_region : JsonFieldSetter := fun '(mkInstanceRecord id h p ro g re s t c a rd hb) v =>
  Some (mkInstanceRecord id h p ro g v s t c a rd hb).
Definition set_shard : JsonFieldSetter := fun '(mkInstanceRecord id h p ro g re s t c a rd hb) v =>
  Some (mkInstanceRecord id h p ro g re v t c a rd hb).
Definition set_tags : JsonFieldSetter := fun '(mkInstanceRecord id h p ro g re s t c a rd hb) v =>
  Some (mkInstanceRecord id h p ro g re s (split_pipe_tokens v) c a rd hb).
Definition set_port : JsonFieldSetter := fun '(mkInstanceRecord id h p ro g re s t c a rd hb) v =>
  '(n, _) ← stoull v; Some (mkInstanceRecord id h (u16 n) ro g re s t c a rd hb).
Definition set_capacity : JsonFieldSetter := fun '(mkInstanceRecord id h p ro g re s t c a rd hb) v =>
  '(n, _) ← stoull v; Some (mkInstanceRecord id h p ro g re s t (u32 n) a rd hb).
Definition set_active_sessions : JsonFieldSetter := fun '(mkInstanceRecord id h p ro g re s t c a rd hb) v =>
  '(n, _) ← stoull v; Some (mkInstanceRecord id h p ro g re s t c (u32 n) rd hb).
Definition set_ready : JsonFieldSetter := fun '(mkInstanceRecord id h p ro g re s t c a rd hb) v =>
  let rd := if bool_decide (v ∈ ["true"; "1"]%string) then true
            else if bool_decide (v ∈ ["false"; "0"]%string) then false else rd in
  Some (mkInstanceRecord id h p ro g re s t c a rd hb).
Definition set_last_heartbeat_ms : JsonFieldSetter := fun '(mkInstanceRecord id h p ro g re s t c a rd hb) v =>
  '(n, _) ← stoull v; Some (mkInstanceRecord id h p ro g re s t c a rd (u64 n)).

Definition kJsonFieldRules : list (string * JsonFieldSetter) :=
  [("instance_id"%string, set_instance_id); ("host"%string, set_host); ("role"%string, set_role);
   ("game_mode"%string, set_game_mode); ("region"%string, set_region); ("shard"%string, set_shard);
   ("tags"%string, set_tags); ("port"%string, set_port); ("capacity"%string, set_capacity);
   ("active_sessions"%string, set_active_sessions); ("ready"%string, set_ready);
   ("last_heartbeat_ms"%string, set_last_heartbeat_ms)].

Definition find_json_field_setter (key : string) : option JsonFieldSetter :=
  snd <$> find (fun rule => bool_decide (rule.1 = key)) kJsonFieldRules.

(** The text with blanks for the braces, and [std::getline] over it with a comma: an empty
    text after the last comma is not an item. *)
Definition blank_brace (ch : Ascii.ascii) : Ascii.ascii :=
  if (byte_of_ascii ch =? 123) || (byte_of_ascii ch =? 125) then ascii_of_byte 32 else ch.

Definition getline_items (json : chars) : list chars :=
  match rev (split_sep 44 json) with
  | [] :: items => rev items
  | items => rev items
  end.

(** One quote at each end is removed. *)
Definition unquote_front (s : string) : string :=
  match s with String c s' => if byte_of_ascii c =? 34 then s' else s | EmptyString => s end.
Definition unquote (s : string) : string :=
  str_rev (unquote_front (str_rev (unquote_front s) EmptyString)) EmptyString.

(** The body of the loop of [deserialize_json]. *)
Definition json_item (record : InstanceRecord) (item : chars) : InstanceRecord :=
  match take_until (is_sep 58) (str item) with
  | (_, EmptyString) => record
  | (before, String _ after) =>
      let key := unquote (trim_ascii_copy before) in
      let value := unquote (trim_ascii_copy after) in
      match find_json_field_setter key with
      | None => record
      | Some setter => default record (setter record value)
      end
  end.

Definition deserialize_json (payload : string) : option InstanceRecord :=
  Some (fold_left json_item (getline_items (map blank_brace (chars_of payload))) default_InstanceRecord).

(** ** The backend in memory *)

Abbreviation records := (gmap string InstanceRecord).

Definition with_heartbeat (heartbeat_ms : Z) (r : InstanceRecord) : InstanceRecord :=
  mkInstanceRecord (instance_id r) (host r) (port r) (role r) (game_mode r) (region r) (shard r) (tags r)
    (capacity r) (active_sessions r) (ready r) heartbeat_ms.

Definition memory_upsert (record : InstanceRecord) (m : records) : records * bool :=
  (<[instance_id record := record]> m, true).
Definition memory_remove (id : string) (m : records) : records * bool :=
  (delete id m, bool_decide (is_Some (m !! id))).
Definition memory_touch (id : string) (heartbeat_ms : Z) (m : records) : records * bool :=
  match m !! id with
  | None => (m, false)
  | Some r => (<[id := with_heartbeat heartbeat_ms r]> m, true)
  end.

(** ** The backend on Redis *)

Record RedisBackend := mkRedisBackend {
  has_client : bool;
  key_prefix_ : string;
  ttl_ : Z;
  reload_min_interval_ : Z;
  last_reload_attempt_ : Z;
  last_reload_ok_ : Z;
  cache_ : records;
}.

Definition set_cache (c : records) (b : RedisBackend) : RedisBackend :=
  mkRedisBackend (has_client b) (key_prefix_ b) (ttl_ b) (reload_min_interval_ b) (last_reload_attempt_ b)
    (last_reload_ok_ b) c.

Fixpoint with_slash (s : string) : string :=
  match s with
  | EmptyString => EmptyString
  | String c EmptyString => if byte_of_ascii c =? 47 then s else String c "/"
  | String c s' => String c (with_slash s')
  end.

(** The time to live is in seconds, the interval between reloads 500 ms. *)
Definition new_RedisBackend (client : bool) (key_prefix : string) (ttl : Z) : RedisBackend :=
  let prefix := if bool_decide (key_prefix = EmptyString) then "gateway/instances/"%string else key_prefix in
  mkRedisBackend client (with_slash prefix) (if ttl <=? 0 then 10 else ttl) 500 0 0 ∅.

Definition reply_ok (r : RReply) : bool := match r with RBool ok => ok | _ => false end.

Definition write_record (record : InstanceRecord) (b : RedisBackend) : prog bool :=
  if has_client b then
    Do (RSetEx (key_prefix_ b +:+ instance_id record) (serialize_json record) (u32 (ttl_ b)))
      (fun r => Ret (reply_ok r))
  else Ret true.

Definition upsert (record : InstanceRecord) (b : RedisBackend) : prog (RedisBackend * bool) :=
  let b := set_cache (<[instance_id record := record]> (cache_ b)) b in
  ok ← write_record record b;
  Ret (b, ok).

Definition remove (id : string) (b : RedisBackend) : prog (RedisBackend * bool) :=
  let b := set_cache (delete id (cache_ b)) b in
  if has_client b then Do (RDel (key_prefix_ b +:+ id)) (fun r => Ret (b, reply_ok r))
  else Ret (b, true).

Definition touch (id : string) (heartbeat_ms : Z) (b : RedisBackend) : prog (RedisBackend * bool) :=
  match cache_ b !! id with
  | None => Ret (b, false)
  | Some record =>
      let record := with_heartbeat heartbeat_ms record in
      let b := set_cache (<[id := record]> (cache_ b)) b in
      ok ← write_record record b;
      Ret (b, ok)
  end.

(** A payload of the reload loop goes to the next cache. *)
Definition load_payload (prefix key : string) (payload : option string) (next : records) : records :=
  match payload with
  | None => next
  | Some payload =>
      if bool_decide (payload = EmptyString) then next
      else match deserialize_json payload with
           | None => next
           | Some record =>
               let record :=
                 if bool_decide (instance_id record = EmptyString)
                    && (Nat.ltb (String.length prefix) (String.length key))
                 then default record (set_instance_id record (str_drop (String.length prefix) key))
                 else record in
               <[instance_id record := record]> next
           end
  end.

(** The payloads of the batch are used, or one is read per key. *)
Fixpoint load_batch (prefix : string) (keys : list string) (payloads : list (option string)) (next : records) :
    records :=
  match keys, payloads with
  | key :: keys, payload :: payloads => load_batch prefix keys payloads (load_payload prefix key payload next)
  | _, _ => next
  end.
Fixpoint load_each (prefix : string) (keys : list string) (next : records) : prog records :=
  match keys with
  | [] => Ret next
  | key :: keys =>
      Do (RGet key) (fun r =>
        load_each prefix keys
          (load_payload prefix key (match r with RValue v => v | _ => None end) next))
  end.

Definition reload_cache_from_backend (b : RedisBackend) : prog (RedisBackend * bool) :=
  if negb (has_client b) then Ret (b, false)
  else
    Do (RScanKeys (key_prefix_ b +:+ "*")) (fun r =>
      match r with
      | RKeys (Some []) => Ret (set_cache ∅ b, true)
      | RKeys (Some keys) =>
          Do (RMGet keys) (fun r =>
            match r with
            | RValues (Some payloads) =>
                if Nat.eqb (length payloads) (length keys)
                then Ret (set_cache (load_batch (key_prefix_ b) keys payloads ∅) b, true)
                else next ← load_each (key_prefix_ b) keys ∅; Ret (set_cache next b, true)
            | _ => next ← load_each (key_prefix_ b) keys ∅; Ret (set_cache next b, true)
            end)
      | _ => Ret (b, false)
      end).

(** The reload of [list_instances], one thread at a time: [reload_in_progress_] is down. *)
Definition reload_if_due (now : Z) (b : RedisBackend) : prog RedisBackend :=
  if has_client b && (reload_min_interval_ b <=? now - last_reload_attempt_ b) then
    let b := mkRedisBackend (has_client b) (key_prefix_ b) (ttl_ b) (reload_min_interval_ b) now
               (last_reload_ok_ b) (cache_ b) in
    '(b, ok) ← reload_cache_from_backend b;
    Ret (if ok : bool
         then mkRedisBackend (has_client b) (key_prefix_ b) (ttl_ b) (reload_min_interval_ b)
                (last_reload_attempt_ b) now (cache_ b)
         else b)
  else Ret b.

Definition list_instances (order : records -> list InstanceRecord) (now : Z) (b : RedisBackend) :
    prog (RedisBackend * list InstanceRecord) :=
  b ← reload_if_due now b;
  Ret (b, order (cache_ b)).

(** ** The backend on Consul *)

(** The callbacks are functions of the embedding program: [put_] and [del_] record their
    calls with the answers [answer] gives. *)
Record ConsulBackend := mkConsulBackend {
  base_path_ : string;
  has_put : bool;
  has_del : bool;
  consul_cache : records;
}.

Inductive consul_call := Put (path payload : string) | Delete (path payload : string).

Definition new_ConsulBackend (base_path : string) (put del : bool) : ConsulBackend :=
  let path := if bool_decide (base_path = EmptyString) then "kv/gateway/instances/"%string else base_path in
  mkConsulBackend (with_slash path) put del ∅.

Definition consul_set (c : records) (b : ConsulBackend) : ConsulBackend :=
  mkConsulBackend (base_path_ b) (has_put b) (has_del b) c.
Definition make_path (id : string) (b : ConsulBackend) : string := base_path_ b +:+ id.

Section consul.
  Context (answer : consul_call -> bool).

Definition consul_upsert (record : InstanceRecord) (b : ConsulBackend) :
    ConsulBackend * list consul_call * bool :=
  let b := consul_set (<[instance_id record := record]> (consul_cache b)) b in
  if negb (has_put b) then (b, [], true)
  else let call := Put (make_path (instance_id record) b) (serialize_json record) in (b, [call], answer call).

Definition consul_remove (id : string) (b : ConsulBackend) : ConsulBackend * list consul_call * bool :=
  let b := consul_set (delete id (consul_cache b)) b in
  if negb (has_del b) then (b, [], true)
  else let call := Delete (make_path id b) EmptyString in (b, [call], answer call).

Definition consul_touch (id : string) (heartbeat_ms : Z) (b : ConsulBackend) :
    ConsulBackend * list consul_call * bool :=
  match consul_cache b !! id with
  | None => (b, [], false)
  | Some record =>
      let record := with_heartbeat heartbeat_ms record in
      let b := consul_set (<[id := record]> (consul_cache b)) b in
      if negb (has_put b) then (b, [], true)
      else let call := Put (make_path id b) (serialize_json record) in (b, [call], answer call)
  end.
End consul.
