(* ===== verification/InstanceRegistryProps.v ===== *)
(** Properties of the instance registry: the JSON form round-trips, selection is a filter,
    and what the backends on one Redis server publish is what each of them lists. *)

From S2P Require Import Prelude Text Redis ChatText GatewayConfig InstanceRegistry.

(** ** Text *)

Lemma str_app l1 l2 : str (l1 ++ l2) = str l1 +:+ str l2.
Proof. induction l1 as [|c l1 IH]; [done|]. simpl. by rewrite IH. Qed.

Lemma append_empty s : s +:+ EmptyString = s.
Proof. induction s as [|c s IH]; [done|]. by apply (f_equal (String c)). Qed.

Lemma str_chars s : str (chars_of s) = s.
Proof. apply String.string_of_list_ascii_of_string. Qed.

Lemma chars_of_app s1 s2 : chars_of (s1 +:+ s2) = chars_of s1 ++ chars_of s2.
Proof. induction s1 as [|c s1 IH]; [done|]. simpl. by rewrite IH. Qed.

Fixpoint drop_while (f : Ascii.ascii -> bool) (l : chars) : chars :=
  match l with c :: l' => if f c then drop_while f l' else l | [] => [] end.

Lemma skip_while_str f l : skip_while f (str l) = str (drop_while f l).
Proof. induction l as [|c l IH]; [done|]. cbn. by case_match. Qed.

Lemma str_rev_str l acc : str_rev (str l) (str acc) = str (rev l ++ acc).
Proof. revert acc. induction l as [|c l IH]; intros acc; [done|]. cbn. rewrite <- app_assoc. apply (IH (c :: acc)). Qed.

Lemma str_rev_empty l : str_rev (str l) EmptyString = str (rev l).
Proof. rewrite <- (app_nil_r (rev l)). apply (str_rev_str l []). Qed.

Lemma trim_str f l : trim f (str l) = str (rev (drop_while f (rev (drop_while f l)))).
Proof. unfold trim. by rewrite skip_while_str, str_rev_empty, skip_while_str, str_rev_empty. Qed.

(** Neither end of a text is a character of the kind. *)
Definition edges (f : Ascii.ascii -> bool) (l : chars) : Prop :=
  (exists c l', l = c :: l' /\ f c = false) /\ (exists l' c, l = l' ++ [c] /\ f c = false).

Lemma drop_while_app f pre l : Forall (fun c => f c = true) pre -> drop_while f (pre ++ l) = drop_while f l.
Proof. induction 1 as [|c pre Hc _ IH]; [done|]. cbn. by rewrite Hc. Qed.

Lemma trim_edges f pre l post :
  Forall (fun c => f c = true) pre -> Forall (fun c => f c = true) post -> edges f l ->
  trim f (str (pre ++ l ++ post)) = str l.
Proof.
  intros Hpre Hpost [(c & l' & -> & Hc) (l'' & z & Hz & Hfz)]. rewrite trim_str, drop_while_app by done.
  cbn [app drop_while]. rewrite Hc. change (c :: l' ++ post) with ((c :: l') ++ post).
  rewrite rev_app_distr, drop_while_app by (by apply Forall_rev). rewrite Hz, rev_app_distr.
  cbn [rev app drop_while]. rewrite Hfz. cbn [rev app]. by rewrite rev_involutive.
Qed.

Lemma take_until_str f before c after :
  Forall (fun c => f c = false) before -> f c = true ->
  take_until f (str (before ++ c :: after)) = (str before, String c (str after)).
Proof.
  intros Hb Hc. induction Hb as [|b before Hfb _ IH]; cbn; [by rewrite Hc|]. by rewrite Hfb, IH.
Qed.

Definition is_quote (c : Ascii.ascii) : bool := byte_of_ascii c =? 34.
Abbreviation quote_char := (ascii_of_byte 34).

Lemma unquote_quoted l : unquote (str (quote_char :: l ++ [quote_char])) = str l.
Proof.
  unfold unquote. change (str (quote_char :: l ++ [quote_char])) with (String quote_char (str (l ++ [quote_char]))).
  cbn [unquote_front]. change (byte_of_ascii quote_char =? 34) with true. cbv iota.
  rewrite str_rev_empty, rev_app_distr. cbn [rev app str unquote_front].
  change (byte_of_ascii quote_char =? 34) with true. cbv iota.
  by rewrite str_rev_empty, rev_involutive.
Qed.

Lemma unquote_plain l : edges is_quote l -> unquote (str l) = str l.
Proof.
  intros [(c & l' & Hl & Hc) (l'' & z & Hz & Hfz)]. unfold unquote.
  assert (Hf : unquote_front (str l) = str l) by (subst; cbn; unfold is_quote in Hc; by rewrite Hc).
  rewrite Hf, str_rev_empty.
  assert (Hb : unquote_front (str (rev l)) = str (rev l)).
  { rewrite Hz, rev_app_distr. cbn. unfold is_quote in Hfz. by rewrite Hfz. }
  by rewrite Hb, str_rev_empty, rev_involutive.
Qed.

(** A numeral has digits at its ends. *)
Lemma digits_edges f ds :
  (forall c, digit10 c -> f c = false) -> Forall digit10 ds -> ds <> [] -> edges f ds.
Proof.
  intros Hf Hds Hne. split.
  - destruct Hds as [|c ds Hc _]; [done|]. eauto.
  - destruct ds as [|z ds' _] using rev_ind; [done|]. exists ds', z. apply Forall_app in Hds as [_ Hz].
    split; [done|]. apply Hf. by rewrite Forall_singleton in Hz.
Qed.

(** ** The JSON form *)

(** Characters that do not disturb the reader of items. *)
Definition plain_char (c : Ascii.ascii) : Prop :=
  is_sep 44 c = false /\ blank_brace c = c.

Definition plain (s : string) : Prop := Forall plain_char (chars_of s).

#[export] Instance plain_char_dec c : Decision (plain_char c).
Proof. unfold plain_char. apply _. Defined.
#[export] Instance plain_dec s : Decision (plain s).
Proof. unfold plain. apply _. Defined.

(** A tag: not empty, without the separator and without blanks at its ends. *)
Definition wf_tag (t : string) : Prop :=
  plain t /\ Forall (fun c => is_sep 124 c = false) (chars_of t) /\ t <> EmptyString
  /\ trim isspace t = t.

Record wf_record (r : InstanceRecord) : Prop := {
  wf_instance_id : plain (instance_id r);
  wf_host : plain (host r);
  wf_record_port : fits 16 (port r);
  wf_role : plain (role r);
  wf_game_mode : plain (game_mode r);
  wf_region : plain (region r);
  wf_shard : plain (shard r);
  wf_tags : Forall wf_tag (tags r);
  wf_capacity : fits 32 (capacity r);
  wf_active : fits 32 (active_sessions r);
  wf_heartbeat : fits 64 (last_heartbeat_ms r);
}.

Definition item (key body : string) : chars :=
  chars_of (quote +:+ key +:+ quote +:+ ":" +:+ body).

(** The keys of the records. *)
Definition plain_key (key : string) : bool :=
  forallb (fun c => negb (is_sep 58 c || isspace c)) (chars_of key).

Lemma json_item_eq pre post key body value setter r :
  Forall (fun c => isspace c = true) pre -> Forall (fun c => isspace c = true) post ->
  plain_key key = true -> edges isspace (chars_of body) -> unquote body = value ->
  find_json_field_setter key = Some setter ->
  json_item r (pre ++ item key body ++ post) = default r (setter r value).
Proof.
  intros Hpre Hpost Hkey Hbody Hval Hset.
  set (k := quote_char :: chars_of key ++ [quote_char]).
  assert (Hsplit : pre ++ item key body ++ post = (pre ++ k ++ []) ++ ascii_of_byte 58 :: [] ++ chars_of body ++ post).
  { unfold item, k. rewrite !chars_of_app. cbn. rewrite app_nil_r, <- !app_assoc. cbn. by rewrite <- !app_assoc. }
  assert (Hks : Forall (fun c => is_sep 58 c = false /\ isspace c = false) (chars_of key)).
  { apply Forall_forall. intros c Hc%list_elem_of_In.
    unfold plain_key in Hkey. rewrite forallb_forall in Hkey. specialize (Hkey c Hc).
    by apply negb_true_iff, orb_false_iff in Hkey. }
  assert (Hcol : Forall (fun c => is_sep 58 c = false) (pre ++ k ++ [])).
  { rewrite app_nil_r. apply Forall_app. split.
    - eapply Forall_impl; [exact Hpre|]. intros c Hc. unfold isspace, is_sep in *.
      destruct (Z.eqb_spec (byte_of_ascii c) 58) as [E|]; [|done]. by rewrite E in Hc.
    - unfold k. constructor; [done|]. apply Forall_app. split; [|by repeat constructor].
      eapply Forall_impl; [exact Hks|]. by intros c [? _]. }
  assert (Hedge : edges isspace k).
  { split; [by exists quote_char, (chars_of key ++ [quote_char])|].
    by exists (quote_char :: chars_of key), quote_char. }
  unfold json_item. rewrite Hsplit, take_until_str by done. unfold trim_ascii_copy.
  rewrite (trim_edges isspace pre k []) by (done || constructor).
  rewrite (trim_edges isspace [] (chars_of body) post) by (done || constructor).
  unfold k. rewrite unquote_quoted, !str_chars, Hval, Hset. done.
Qed.

Abbreviation spaces l := (Forall (fun c => isspace c = true) l).

Lemma json_string_item pre post key v setter r :
  spaces pre -> spaces post -> plain_key key = true -> find_json_field_setter key = Some setter ->
  json_item r (pre ++ item key (quote +:+ v +:+ quote) ++ post) = default r (setter r v).
Proof.
  intros. assert (Hq : chars_of (quote +:+ v +:+ quote) = quote_char :: chars_of v ++ [quote_char])
    by (by rewrite !chars_of_app).
  eapply json_item_eq; try done.
  - rewrite Hq. split; [by exists quote_char, (chars_of v ++ [quote_char])|].
    by exists (quote_char :: chars_of v), quote_char.
  - by rewrite <- (str_chars (quote +:+ v +:+ quote)), Hq, unquote_quoted, str_chars.
Qed.

Lemma json_number_item pre post key n setter r :
  spaces pre -> spaces post -> plain_key key = true -> find_json_field_setter key = Some setter -> 0 <= n ->
  json_item r (pre ++ item key (str (decimal n)) ++ post) = default r (setter r (str (decimal n))).
Proof.
  intros Hpre Hpost Hk Hs Hn. destruct (decimal_digits n Hn) as (Hds & _ & Hne).
  eapply json_item_eq; try done.
  - rewrite chars_of_string_of_list. apply digits_edges; [|done..]. intros c Hc. by apply digit10_plain.
  - apply unquote_plain, digits_edges; [|done..]. intros c (d & Hd & _).
    unfold is_quote. destruct (Z.eqb_spec (byte_of_ascii c) 34) as [E|]; [|done].
    unfold digit_value in Hd. by rewrite E in Hd.
Qed.

Lemma wf_tag_nonempty ts : Forall wf_tag ts -> List.filter (fun v => negb (bool_decide (v = EmptyString))) ts = ts.
Proof.
  induction 1 as [|t ts (_ & _ & Hne & _) _ IH]; [done|]. cbn. by rewrite bool_decide_eq_false_2, IH.
Qed.

Lemma pipe_roundtrip ts : Forall wf_tag ts -> split_pipe_tokens (join_pipe_tokens ts) = ts.
Proof.
  intros Hts. unfold split_pipe_tokens, join_pipe_tokens. rewrite (wf_tag_nonempty ts), chars_of_string_of_list by done.
  destruct (decide (ts = [])) as [->|Hne]; [done|].
  rewrite (split_join 124); [|by vm_compute|by destruct ts|].
  - rewrite map_map. assert (Hid : map (fun t => trim_ascii_copy (str (chars_of t))) ts = ts).
    { clear Hne. induction Hts as [|t ts (_ & _ & _ & Ht) _ IH]; [done|]. cbn. rewrite str_chars, IH.
      unfold trim_ascii_copy. by rewrite Ht. }
    rewrite Hid. by apply wf_tag_nonempty.
  - apply Forall_map. eapply Forall_impl; [exact Hts|]. by intros t (_ & ? & _).
Qed.

(** The text between the braces is the items, with commas. *)
Definition middle_items (r : InstanceRecord) : list chars :=
  [item "host" (quote +:+ host r +:+ quote);
   item "port" (str (decimal (port r))); item "role" (quote +:+ role r +:+ quote);
   item "game_mode" (quote +:+ game_mode r +:+ quote); item "region" (quote +:+ region r +:+ quote);
   item "shard" (quote +:+ shard r +:+ quote); item "tags" (quote +:+ join_pipe_tokens (tags r) +:+ quote);
   item "capacity" (str (decimal (capacity r))); item "active_sessions" (str (decimal (active_sessions r)));
   item "ready" (if ready r then "true" else "false")].

Definition items (r : InstanceRecord) : list chars :=
  item "instance_id" (quote +:+ instance_id r +:+ quote)
  :: middle_items r ++ [item "last_heartbeat_ms" (str (decimal (last_heartbeat_ms r)))].

Lemma serialize_items r :
  chars_of (serialize_json r) = ascii_of_byte 123 :: join_sep 44 (items r) ++ [ascii_of_byte 125].
Proof.
  unfold serialize_json, json_string, json_number, items, middle_items, item, join_sep.
  cbn [app map concat]. rewrite !chars_of_app, app_nil_r, <- !app_assoc.
  repeat (cbn [app]; rewrite <- ?app_assoc). reflexivity.
Qed.

Lemma plain_app l1 l2 : Forall plain_char l1 -> Forall plain_char l2 -> Forall plain_char (l1 ++ l2).
Proof. intros. by apply Forall_app. Qed.

Lemma plain_digits ds : Forall digit10 ds -> Forall plain_char ds.
Proof.
  intros Hds. eapply Forall_impl; [exact Hds|]. intros c (d & Hd & _). unfold plain_char, blank_brace, is_sep.
  destruct (Z.eqb_spec (byte_of_ascii c) 44) as [E|]; [unfold digit_value in Hd; by rewrite E in Hd|].
  destruct (Z.eqb_spec (byte_of_ascii c) 123) as [E|]; [unfold digit_value in Hd; by rewrite E in Hd|].
  destruct (Z.eqb_spec (byte_of_ascii c) 125) as [E|]; [unfold digit_value in Hd; by rewrite E in Hd|done].
Qed.

Lemma plain_decimal n : 0 <= n -> plain (str (decimal n)).
Proof. intros Hn. unfold plain. rewrite chars_of_string_of_list. by apply plain_digits, decimal_digits. Qed.

Lemma plain_append s1 s2 : plain s1 -> plain s2 -> plain (s1 +:+ s2).
Proof. unfold plain. rewrite chars_of_app. apply plain_app. Qed.

Lemma plain_quoted s : plain s -> plain (quote +:+ s +:+ quote).
Proof. intros. repeat apply plain_append; done || by apply (bool_decide_unpack (plain quote)); vm_compute. Qed.

Lemma plain_tags ts : Forall wf_tag ts -> plain (join_pipe_tokens ts).
Proof.
  intros Hts. unfold plain, join_pipe_tokens. rewrite (wf_tag_nonempty ts), chars_of_string_of_list by done.
  destruct Hts as [|t ts (Ht & _) Hts]; [constructor|]. cbn [map join_sep]. apply plain_app; [done|].
  induction Hts as [|t' ts (Ht' & _) _ IH]; [constructor|]. cbn [map concat app].
  constructor; [by split|]. by apply plain_app.
Qed.

Lemma plain_item key body : plain key -> plain body -> Forall plain_char (item key body).
Proof.
  intros. change (plain (quote +:+ key +:+ quote +:+ ":" +:+ body)).
  repeat apply plain_append; try done; by apply (bool_decide_unpack (plain _)); vm_compute.
Qed.

Ltac plain_literal := by apply (bool_decide_unpack (plain _)); vm_compute.

Lemma items_plain r : wf_record r -> Forall (Forall plain_char) (items r).
Proof.
  intros []. unfold items, middle_items. cbn [app].
  repeat (apply Forall_cons; split; [apply plain_item; [plain_literal|]|]); [..|constructor];
    try (apply plain_quoted; try done; by apply plain_tags); try (apply plain_decimal; widths; lia).
  case_match; plain_literal.
Qed.

Lemma blank_plain l : Forall plain_char l -> map blank_brace l = l.
Proof. induction 1 as [|c l [_ Hc] _ IH]; [done|]. cbn. by rewrite Hc, IH. Qed.

Lemma blank_join its : Forall (Forall plain_char) its -> map blank_brace (join_sep 44 its) = join_sep 44 its.
Proof.
  intros [|i ? Hi Hits]; [done|]. cbn [join_sep]. rewrite map_app, (blank_plain i Hi). f_equal.
  induction Hits as [|i' its' Hi' _ IH]; [done|]. cbn [map concat]. rewrite map_app, IH. cbn [map].
  by rewrite (blank_plain i' Hi').
Qed.

Lemma join_last sep i mids z post :
  join_sep sep (i :: mids ++ [z]) ++ post = join_sep sep (i :: mids ++ [z ++ post]).
Proof.
  cbn [join_sep]. rewrite !map_app, !concat_app. cbn. by rewrite !app_nil_r, <- !app_assoc.
Qed.

(** Between the blanks that stand for the braces, the items are read back. *)
Lemma getline_framed i mids z :
  Forall (Forall plain_char) (i :: mids ++ [z]) ->
  getline_items (ascii_of_byte 32 :: join_sep 44 (i :: mids ++ [z]) ++ [ascii_of_byte 32])
  = ([ascii_of_byte 32] ++ i ++ []) :: map (fun m => [] ++ m ++ []) mids ++ [[] ++ z ++ [ascii_of_byte 32]].
Proof.
  intros Hplain. rewrite join_last.
  change (ascii_of_byte 32 :: join_sep 44 (i :: mids ++ [z ++ [ascii_of_byte 32]]))
    with (join_sep 44 (([ascii_of_byte 32] ++ i) :: mids ++ [z ++ [ascii_of_byte 32]])).
  unfold getline_items. rewrite (split_join 44); [|by vm_compute|done|].
  - rewrite app_comm_cons, rev_app_distr. cbn [rev app].
    destruct (z ++ [ascii_of_byte 32]) eqn:Hz; [by destruct z|]. cbn [rev]. rewrite rev_app_distr.
    cbn [rev app]. rewrite rev_involutive, app_nil_r. do 2 f_equal.
    symmetry. rewrite <- map_id. apply map_ext, app_nil_r.
  - assert (Hsp : Forall plain_char [ascii_of_byte 32]) by (by repeat constructor).
    apply Forall_cons in Hplain as [Hi [Hm Hz]%Forall_app]. rewrite Forall_singleton in Hz.
    eapply (Forall_impl (Forall plain_char)); [|intros l Hl; eapply Forall_impl; [exact Hl|]; by intros c []].
    constructor; [by apply plain_app|]. apply Forall_app. split; [done|]. constructor; [by apply plain_app|constructor].
Qed.

Ltac read_string pre key setter :=
  rewrite (json_string_item pre [] key _ setter) by (done || by repeat constructor);
  unfold setter, default_InstanceRecord; cbn [default from_option Datatypes.id].

Ltac read_number post key setter :=
  rewrite (json_number_item [] post key _ setter) by (done || (by repeat constructor) || (widths; lia));
  unfold setter; rewrite stoull_decimal by (widths; lia); cbn [default from_option Datatypes.id mbind option_bind];
  rewrite wrap_id by done.

(** Reading the items one by one. *)
Lemma read_items r :
  wf_record r ->
  fold_left json_item (([ascii_of_byte 32] ++ item "instance_id" (quote +:+ instance_id r +:+ quote) ++ [])
    :: map (fun m => [] ++ m ++ []) (middle_items r)
    ++ [[] ++ item "last_heartbeat_ms" (str (decimal (last_heartbeat_ms r))) ++ [ascii_of_byte 32]])
    default_InstanceRecord = r.
Proof.
  destruct r as [id h p ro g re sh t c a rd hb]. intros []. cbn [instance_id host port role game_mode region
    shard tags capacity active_sessions ready last_heartbeat_ms] in *.
  unfold middle_items. cbn [map fold_left]. rewrite fold_left_app. cbn [fold_left instance_id host port role
    game_mode region shard tags capacity active_sessions ready last_heartbeat_ms].
  read_string [ascii_of_byte 32] "instance_id"%string set_instance_id.
  read_string (@nil Ascii.ascii) "host"%string set_host.
  read_number (@nil Ascii.ascii) "port"%string set_port.
  read_string (@nil Ascii.ascii) "role"%string set_role.
  read_string (@nil Ascii.ascii) "game_mode"%string set_game_mode.
  read_string (@nil Ascii.ascii) "region"%string set_region.
  read_string (@nil Ascii.ascii) "shard"%string set_shard.
  read_string (@nil Ascii.ascii) "tags"%string set_tags. rewrite pipe_roundtrip by done.
  read_number (@nil Ascii.ascii) "capacity"%string set_capacity.
  read_number (@nil Ascii.ascii) "active_sessions"%string set_active_sessions.
  assert (Hready : forall r, json_item r ([] ++ item "ready" (if rd then "true" else "false") ++ [])
    = default r (set_ready r (if rd then "true" else "false"))).
  { intros r. eapply json_item_eq; try done; destruct rd; (split; [by eexists _, _|]) || done;
      [by exists (chars_of "tru"), (ascii_of_byte 101)|by exists (chars_of "fals"), (ascii_of_byte 101)]. }
  rewrite Hready. unfold set_ready. cbn [default from_option Datatypes.id].
  read_number [ascii_of_byte 32] "last_heartbeat_ms"%string set_last_heartbeat_ms.
  by destruct rd.
Qed.

(** A record survives its JSON form: for a record whose texts are free of commas and
    braces, whose tags are trimmed, not empty and free of the separator, and whose numbers
    fit their fields, reading what [serialize_json] writes gives the record back. *)
Lemma json_roundtrip r : wf_record r -> deserialize_json (serialize_json r) = Some r.
Proof.
  intros Hwf. pose proof (items_plain r Hwf) as Hplain. unfold deserialize_json. f_equal.
  rewrite serialize_items. cbn [map]. rewrite map_app, blank_join by done. cbn [map].
  change (blank_brace (ascii_of_byte 123)) with (ascii_of_byte 32).
  change (blank_brace (ascii_of_byte 125)) with (ascii_of_byte 32).
  unfold items in *. rewrite (getline_framed _ (middle_items r) _ Hplain). by apply read_items.
Qed.

(** ** Selection *)

Lemma normalize_token_set_spec values t :
  t ∈ normalize_token_set values <-> t <> EmptyString /\ exists v, v ∈ values /\ normalize_token v = t.
Proof.
  unfold normalize_token_set. assert (Hgen : forall out : gset string, t ∈ fold_left (fun (out : gset string) value =>
    let token := normalize_token value in
    if bool_decide (token = EmptyString) then out else {[token]} ∪ out) values out
    <-> t ∈ out \/ (t <> EmptyString /\ exists v, v ∈ values /\ normalize_token v = t)).
  2: { rewrite Hgen. set_solver. }
  induction values as [|v values IH]; intros out; cbn [fold_left]; [set_solver|]. rewrite IH.
  case_bool_decide as Hv; set_solver.
Qed.

(** A field passes when the filter is absent or names the field, up to blanks and case. *)
Definition field_passes (value : string) (filters : list string) : Prop :=
  filters = [] \/ (normalize_token value <> EmptyString
                   /\ exists f, f ∈ filters /\ normalize_token f = normalize_token value).

Lemma matches_field_spec value filters : matches_field value filters = true <-> field_passes value filters.
Proof.
  unfold matches_field, field_passes. case_bool_decide as Hf; [by split; auto|].
  case_bool_decide as Hn.
  - split; [done|]. intros [?|Hx]; [done|]. apply normalize_token_set_spec in Hx. set_solver.
  - rewrite bool_decide_eq_true, normalize_token_set_spec. split; [by right|]. intros [?|?]; done.
Qed.

Lemma matches_tags_spec ts filters :
  matches_tags ts filters = true <-> filters = [] \/ exists t, t ∈ ts /\ filters <> [] /\ field_passes t filters.
Proof.
  unfold matches_tags. case_bool_decide as Hf; [by split; auto|]. case_bool_decide as Hn.
  - split; [done|]. intros [?|(t & _ & _ & [?|Hx])]; [done..|]. apply normalize_token_set_spec in Hx. set_solver.
  - rewrite existsb_exists. setoid_rewrite bool_decide_eq_true. setoid_rewrite normalize_token_set_spec.
    split.
    + intros (t & Ht%list_elem_of_In & Hx). right. exists t. split_and!; [done..|]. by right.
    + intros [?|(t & Ht & _ & [?|Hx])]; [done..|]. exists t. by rewrite <- list_elem_of_In.
Qed.

Lemma select_fold selector instances out st :
  0 <= scanned st -> 0 <= matched st -> 0 <= selector_mismatch st ->
  scanned st + zlen instances < 2 ^ 64 -> scanned st = matched st + selector_mismatch st ->
  let '(out', st') := fold_left (select_step selector) instances (out, st) in
  out' = out ++ List.filter (fun r => matches_selector r selector) instances
  /\ scanned st' = scanned st + zlen instances
  /\ matched st' = matched st + zlen (List.filter (fun r => matches_selector r selector) instances)
  /\ scanned st' = matched st' + selector_mismatch st'.
Proof.
  revert out st. induction instances as [|r l IH]; intros out st H1 H2 H3 H4 H5; cbn [fold_left List.filter].
  { cbn. rewrite app_nil_r. split_and!; done || lia. }
  cbn [length] in *. unfold select_step at 2. destruct (matches_selector r selector) eqn:Hm.
  all: rewrite !wrap_id by (widths; lia).
  all: match goal with |- context [fold_left _ _ (?o, ?s)] => specialize (IH o s) end;
    destruct (fold_left _ _ _) as [out' st']; cbn [scanned matched selector_mismatch] in *;
    destruct IH as (-> & ? & ? & ?); try lia.
  all: cbn [length]; rewrite <- ?app_assoc; cbn [app]; split_and!; done || lia.
Qed.

(** ** Backends that share a server *)

Inductive registry_op :=
  | OpUpsert (r : InstanceRecord)
  | OpRemove (id : string)
  | OpTouch (id : string) (heartbeat_ms : Z)
  | OpList (now : Z).

Inductive registry_res := ResBool (ok : bool) | ResList (l : list InstanceRecord).

Section shared.
  Context (order : records -> list InstanceRecord).

Definition registry_prog (op : registry_op) (b : RedisBackend) : prog (RedisBackend * registry_res) :=
  match op with
  | OpUpsert r => '(b, ok) ← upsert r b; Ret (b, ResBool ok)
  | OpRemove id => '(b, ok) ← remove id b; Ret (b, ResBool ok)
  | OpTouch id hb => '(b, ok) ← touch id hb b; Ret (b, ResBool ok)
  | OpList now => '(b, l) ← list_instances order now b; Ret (b, ResList l)
  end.

(** Operations of several processes, each with its backend: the process and the operation. *)
Fixpoint registry_run {S} `{RedisServer S} (ops : list (nat * registry_op)) (s : S) (bs : list RedisBackend) :
    S * list RedisBackend * list registry_res :=
  match ops with
  | [] => (s, bs, [])
  | (i, op) :: ops =>
      match bs !! i with
      | None => registry_run ops s bs
      | Some b =>
          let '(s, (b, r)) := run (registry_prog op b) s in
          let '(s, bs, rs) := registry_run ops s (<[i := b]> bs) in (s, bs, r :: rs)
      end
  end.

(** The specification: one map of records that all share, and for each process the time
    of its last look and what it saw or wrote since. *)
Definition spec_op (op : registry_op) (m : records) (last : Z) (c : records) :
    records * (Z * records) * registry_res :=
  match op with
  | OpUpsert r => (<[instance_id r := r]> m, (last, <[instance_id r := r]> c), ResBool true)
  | OpRemove id => (delete id m, (last, delete id c), ResBool true)
  | OpTouch id hb =>
      match c !! id with
      | None => (m, (last, c), ResBool false)
      | Some r => let r := with_heartbeat hb r in (<[id := r]> m, (last, <[id := r]> c), ResBool true)
      end
  | OpList now => if 500 <=? now - last then (m, (now, m), ResList (order m)) else (m, (last, c), ResList (order c))
  end.

Fixpoint spec_run (ops : list (nat * registry_op)) (m : records) (cs : list (Z * records)) :
    records * list (Z * records) * list registry_res :=
  match ops with
  | [] => (m, cs, [])
  | (i, op) :: ops =>
      match cs !! i with
      | None => spec_run ops m cs
      | Some (last, c) =>
          let '(m, c, r) := spec_op op m last c in
          let '(m, cs, rs) := spec_run ops m (<[i := c]> cs) in (m, cs, r :: rs)
      end
  end.

Definition wf_op (op : registry_op) : Prop :=
  match op with OpUpsert r => wf_record r | OpTouch _ hb => fits 64 hb | _ => True end.

(** *** The simulation *)

Context (p : string) (Hp : plain_text p = true).

Definition wf_records (m : records) : Prop := map_Forall (fun id r => wf_record r /\ instance_id r = id) m.

(** The keys with the prefix hold the records of the map, in JSON. *)
Definition published (m : records) (v : gmap string string) : Prop :=
  forall id, v !! (p +:+ id) = serialize_json <$> m !! id.

Definition simulates (b : RedisBackend) (c : Z * records) : Prop :=
  has_client b = true /\ key_prefix_ b = p /\ reload_min_interval_ b = 500
  /\ last_reload_attempt_ b = c.1 /\ cache_ b = c.2 /\ wf_records c.2.

#[local] Instance append_inj : Inj (=) (=) (String.append p).
Proof. intros x y H. clear Hp. induction p as [|c q IH]; [done|]. simpl in H. simplify_eq. auto. Qed.

Lemma prefix_split k : String.prefix p k = true <-> exists id, k = p +:+ id.
Proof.
  clear Hp. revert k. induction p as [|c q IH]; intros k.
  { split; [by exists k|by destruct k]. }
  destruct k as [|c' k]; simpl; [by split; [|intros [? ?]]|].
  destruct (Ascii.ascii_dec c c') as [<-|Hne]; [rewrite IH|].
  - split; intros [id Hid]; exists id; [by rewrite Hid|by injection Hid as ->].
  - split; [done|]. intros [id Hid]. by injection Hid.
Qed.

Lemma published_insert m v id r :
  published m v -> published (<[id := r]> m) (<[p +:+ id := serialize_json r]> v).
Proof.
  intros H id'. destruct (decide (id = id')) as [->|Hne]; [by rewrite !lookup_insert_eq|].
  rewrite !lookup_insert_ne; [apply H|done|]. by intros ?%(inj (String.append p)).
Qed.

Lemma published_delete m v id : published m v -> published (delete id m) (delete (p +:+ id) v).
Proof.
  intros H id'. destruct (decide (id = id')) as [->|Hne]; [by rewrite !lookup_delete_eq|].
  rewrite !lookup_delete_ne; [apply H|done|]. by intros ?%(inj (String.append p)).
Qed.

Lemma wf_records_insert id r m :
  wf_record r -> instance_id r = id -> wf_records m -> wf_records (<[id := r]> m).
Proof. intros. by apply map_Forall_insert_2. Qed.

Lemma with_heartbeat_wf hb r : fits 64 hb -> wf_record r -> wf_record (with_heartbeat hb r).
Proof. intros ? []. by constructor. Qed.

(** A record that is loaded is the one that was published. *)
Lemma load_published m v id r next :
  published m v -> m !! id = Some r -> wf_records m ->
  load_payload p (p +:+ id) (v !! (p +:+ id)) next = <[id := r]> next.
Proof.
  intros Hpub Hm Hwf. destruct (Hwf id r Hm) as [Hr Hid]. rewrite Hpub, Hm. cbn [fmap option_fmap option_map].
  unfold load_payload. rewrite bool_decide_eq_false_2 by done. rewrite json_roundtrip by done. cbv beta iota zeta. rewrite Hid.
  destruct (bool_decide_reflect (id = EmptyString)) as [->|]; [|cbn [andb]; by rewrite Hid].
  rewrite append_empty, Nat.ltb_irrefl. cbn [andb]. by rewrite Hid.
Qed.

(** Loading the keys of a scan gives the map. *)
Lemma load_batch_lookup m v ks next :
  published m v -> wf_records m ->
  Forall (fun k => exists id r, k = p +:+ id /\ m !! id = Some r) ks ->
  forall id, load_batch p ks ((fun k => v !! k) <$> ks) next !! id
    = if bool_decide (p +:+ id ∈ ks) then m !! id else next !! id.
Proof.
  intros Hpub Hwf Hks. revert next. induction Hks as [|k ks (id0 & r & -> & Hr) _ IH]; intros next id; [done|].
  rewrite fmap_cons. cbn [load_batch]. rewrite IH, (load_published m v id0 r) by done.
  destruct (decide (id0 = id)) as [->|Hne].
  - rewrite lookup_insert_eq, (bool_decide_eq_true_2 (_ ∈ _ :: _)) by set_solver. by case_bool_decide.
  - rewrite lookup_insert_ne by done. assert (p +:+ id <> p +:+ id0) by (by intros ?%(inj (String.append p))).
    by rewrite (bool_decide_ext (p +:+ id ∈ _ :: ks) (p +:+ id ∈ ks)) by set_solver.
Qed.

Lemma load_scan m v ks :
  published m v -> wf_records m ->
  (forall k, k ∈ ks <-> is_Some (v !! k) /\ String.prefix p k = true) ->
  load_batch p ks ((fun k => v !! k) <$> ks) ∅ = m.
Proof.
  intros Hpub Hwf Hks. apply map_eq. intros id. rewrite (load_batch_lookup m v) by
    (done || (apply Forall_forall; intros k [[w Hw] [id' ->]%prefix_split]%Hks; rewrite Hpub in Hw;
      apply fmap_Some in Hw as (r & Hr & _); eauto)).
  case_bool_decide as Hin; [done|]. rewrite lookup_empty. destruct (m !! id) as [r|] eqn:Hr; [|done].
  destruct Hin. apply Hks. rewrite Hpub, Hr, prefix_split. split; [done|by exists id].
Qed.

Context {S : Type} `{RegistryLaws S}.

Lemma run_load_each ks next (s : S) :
  redis_view (run (load_each p ks next) s).1 = redis_view s
  /\ (run (load_each p ks next) s).2 = load_batch p ks ((fun k => redis_view s !! k) <$> ks) next.
Proof.
  revert next s. induction ks as [|k ks IH]; intros next s; [done|]. cbn [load_each run].
  destruct (registry_get_law k s) as [Hv Hr]. destruct (redis_exec (RGet k) s) as [s' r]. cbn in Hv, Hr. subst r.
  rewrite fmap_cons. cbn [load_batch]. rewrite <- Hv. apply IH.
Qed.

Lemma run_reload m (s : S) b c :
  published m (redis_view s) -> wf_records m -> simulates b c ->
  redis_view (run (reload_cache_from_backend b) s).1 = redis_view s
  /\ (run (reload_cache_from_backend b) s).2 = (set_cache m b, true).
Proof.
  intros Hpub Hwf (Hc & Hk & _). unfold reload_cache_from_backend. rewrite Hc, Hk. cbn [negb run].
  destruct (scan_law p s Hp) as (Hv & ks & Hr & Hks). destruct (redis_exec _ s) as [s' r]. cbn in Hv, Hr. subst r.
  pose proof (load_scan m (redis_view s) ks Hpub Hwf Hks) as Hload. rewrite <- Hv in *.
  destruct ks as [|k ks]; [by rewrite <- Hload|]. cbn [run].
  destruct (mget_law (k :: ks) s') as [Hv' Hr']. destruct (redis_exec _ s') as [s'' r]. cbn [fst snd] in Hv', Hr'.
  rewrite <- Hv' in Hload. rewrite <- Hv'.
  destruct Hr' as [->| ->].
  - rewrite length_fmap, Nat.eqb_refl. cbn [run fst snd]. rewrite <- Hv'. by rewrite Hload.
  - rewrite run_mbind. destruct (run_load_each (k :: ks) ∅ s'') as [Hv'' Hl].
    destruct (run (load_each p (k :: ks) ∅) s'') as [s3 next]. cbn [fst snd] in Hv'', Hl. cbn [run fst snd].
    by rewrite Hl, Hload.
Qed.

Lemma run_write r m (s : S) b c :
  published m (redis_view s) -> simulates b c ->
  published (<[instance_id r := r]> m) (redis_view (run (write_record r b) s).1)
  /\ (run (write_record r b) s).2 = true.
Proof.
  intros Hpub (Hc & Hk & _). unfold write_record. rewrite Hc, Hk. cbn [run].
  match goal with |- context [redis_exec (RSetEx ?k ?v ?t) s] =>
    destruct (setex_law k v t s) as [Hr Hv]; destruct (redis_exec (RSetEx k v t) s) as [s' r'] end.
  cbn [fst snd] in *. subst r'. rewrite Hv. split; [by apply published_insert|done].
Qed.

Lemma simulates_cache b c m :
  simulates b c -> wf_records m -> simulates (set_cache m b) (c.1, m).
Proof. intros (? & ? & ? & ? & ? & ?) ?. by split_and!. Qed.

(** One operation of one process. *)
Lemma registry_op_refines op m (s : S) b c :
  published m (redis_view s) -> wf_records m -> simulates b c -> wf_op op ->
  let '(s', (b', res)) := run (registry_prog op b) s in
  let '(m', c', res') := spec_op op m c.1 c.2 in
  published m' (redis_view s') /\ wf_records m' /\ simulates b' c' /\ res = res'.
Proof.
  intros Hpub Hwf Hsim Hop. pose proof Hsim as (Hcl & Hk & Hint & Hlast & Hcache & Hwfc).
  destruct op as [r|id|id hb|now]; cbn [registry_prog spec_op wf_op] in *; rewrite run_mbind.
  - unfold upsert. rewrite run_mbind, Hcache.
    pose proof (simulates_cache b c _ Hsim (wf_records_insert (instance_id r) r c.2 Hop eq_refl Hwfc)) as Hsim'.
    destruct (run_write r m s _ _ Hpub Hsim') as [Hp' Hr]. destruct (run (write_record r _) s) as [s' ok].
    cbn [run fst snd] in *. subst ok. split_and!; [done|by apply wf_records_insert|done..].
  - unfold remove. cbn [set_cache has_client key_prefix_]. rewrite Hcl, Hk, Hcache. cbn [run].
    destruct (del_law (p +:+ id) s) as [Hr Hv]. destruct (redis_exec _ s) as [s' r]. cbn [fst snd] in *. subst r.
    cbn [run]. rewrite Hv. split_and!; [by apply published_delete|by apply map_Forall_delete| |done].
    apply simulates_cache; [done|by apply map_Forall_delete].
  - unfold touch. rewrite Hcache. destruct (c.2 !! id) as [r|] eqn:Hr; [|by destruct c].
    destruct (Hwfc id r Hr) as [Hwr Hid]. rewrite run_mbind.
    assert (Hw : wf_record (with_heartbeat hb r)) by (by apply with_heartbeat_wf).
    pose proof (simulates_cache b c _ Hsim (wf_records_insert id (with_heartbeat hb r) c.2 Hw Hid Hwfc)) as Hsim'.
    destruct (run_write (with_heartbeat hb r) m s _ _ Hpub Hsim') as [Hp' Hr'].
    destruct (run (write_record _ _) s) as [s' ok]. cbn [run fst snd] in *. subst ok.
    change (instance_id (with_heartbeat hb r)) with (instance_id r) in Hp'. rewrite Hid in Hp'.
    split_and!; [done|by apply wf_records_insert|done..].
  - unfold list_instances. rewrite run_mbind. unfold reload_if_due. rewrite Hcl, Hint, Hlast. cbn [andb].
    destruct (500 <=? now - c.1).
    + rewrite run_mbind. set (b1 := mkRedisBackend _ _ _ _ _ _ _).
      assert (Hsim1 : simulates b1 (now, c.2)) by (by split_and!).
      destruct (run_reload m s b1 _ Hpub Hwf Hsim1) as [Hv Hr].
      destruct (run (reload_cache_from_backend b1) s) as [s' [b2 ok]]. cbn [fst snd] in Hv, Hr.
      injection Hr as -> ->. cbn [run]. rewrite Hv. split_and!; [done..|by split_and!|done].
    + cbn [run]. rewrite Hcache. destruct c. by split_and!.
Qed.

Lemma registry_run_refines ops m (s : S) bs cs :
  published m (redis_view s) -> wf_records m -> Forall2 simulates bs cs -> Forall (fun o => wf_op o.2) ops ->
  let '(s', bs', res) := registry_run ops s bs in
  let '(m', cs', res') := spec_run ops m cs in
  published m' (redis_view s') /\ Forall2 simulates bs' cs' /\ res = res'.
Proof.
  revert m s bs cs. induction ops as [|[i op] ops IH]; intros m s bs cs Hpub Hwf Hsim Hops; [by split_and!|].
  apply Forall_cons in Hops as [Hop Hops]. cbn [registry_run spec_run].
  destruct (bs !! i) as [b|] eqn:Hb.
  - destruct (Forall2_lookup_l _ _ _ _ _ Hsim Hb) as (c & Hc & Hs). rewrite Hc. destruct c as [last c].
    pose proof (registry_op_refines op m s b _ Hpub Hwf Hs Hop) as Hstep.
    destruct (run (registry_prog op b) s) as [s' [b' r]]. cbn [fst snd] in Hstep.
    destruct (spec_op op m last c) as [[m' c'] r']. destruct Hstep as (Hpub' & Hwf' & Hs' & ->).
    specialize (IH m' s' (<[i := b']> bs) (<[i := c']> cs) Hpub' Hwf' (Forall2_insert _ _ _ _ _ _ Hsim Hs') Hops).
    destruct (registry_run ops s' _) as [[s2 bs2] rs]. destruct (spec_run ops m' _) as [[m2 cs2] rs'].
    destruct IH as (? & ? & ->). by split_and!.
  - assert (cs !! i = None) as ->.
    { apply lookup_ge_None. rewrite <- (Forall2_length _ _ _ Hsim). by apply lookup_ge_None. }
    by apply IH.
Qed.

End shared.

(** ** Theorems *)

(** The registry on Redis is a shared map of records.  Any number of processes, each with
    its backend on one key prefix of a server that keeps its documented behaviour, publish,
    remove, touch and list in any order: every answer is the one of a single map shared by
    all, where a process that has not looked for 500 ms sees the whole map, and otherwise
    what it saw at its last look with its own writes since; in between the map is in the
    server's keys, as JSON, one key per record. *)
Theorem registry_refines_map {S} `{RegistryLaws S} order key_prefix ttl n ops (s : S) :
  let p := key_prefix_ (new_RedisBackend true key_prefix ttl) in
  plain_text p = true -> (forall id, redis_view s !! (p +:+ id) = None) ->
  Forall (fun o => wf_op o.2) ops ->
  let '(s', bs', res) := registry_run order ops s (replicate n (new_RedisBackend true key_prefix ttl)) in
  let '(m, cs, res') := spec_run order ops ∅ (replicate n (0, ∅)) in
  res = res' /\ (forall id, redis_view s' !! (p +:+ id) = serialize_json <$> m !! id)
  /\ cache_ <$> bs' = snd <$> cs.
Proof.
  intros p Hp Hnone Hops.
  assert (Hpub : published p ∅ (redis_view s)) by (intros id; by rewrite Hnone, lookup_empty).
  assert (Hsim : Forall2 (simulates p) (replicate n (new_RedisBackend true key_prefix ttl)) (replicate n (0, ∅))).
  { apply Forall2_replicate. split_and!; try done; apply map_Forall_empty. }
  pose proof (registry_run_refines order p Hp ops ∅ s _ _ Hpub (map_Forall_empty _) Hsim Hops) as Href.
  destruct (registry_run order ops s _) as [[s' bs'] res]. destruct (spec_run order ops ∅ _) as [[m cs] res'].
  destruct Href as (Hpub' & Hsim' & ->). split_and!; [done..|].
  clear -Hsim'. induction Hsim' as [|b c bs cs (_ & _ & _ & _ & Hb & _) _ IH]; [done|]. cbn. by rewrite Hb, IH.
Qed.

Definition sample_record (id : string) (sessions : Z) : InstanceRecord :=
  mkInstanceRecord id "10.0.0.7" 5000 "server" "pvp" "eu" "s1" ["beta"; "eu-west"]%string 100 sessions true 12.

Lemma sample_record_wf id sessions : plain id -> fits 32 sessions -> wf_record (sample_record id sessions).
Proof.
  intros. constructor; try done; try plain_literal; cbn; try (by vm_compute).
  repeat constructor; try plain_literal; try (by vm_compute).
Qed.

Lemma registry_refines_map_witness :
  let order := fun m : records => (map_to_list m).*2 in
  let ops := [(0%nat, OpUpsert (sample_record "srv-1" 3)); (1%nat, OpUpsert (sample_record "srv-2" 1));
              (2%nat, OpList 1000); (0%nat, OpRemove "srv-1"); (1%nat, OpTouch "srv-2" 99); (2%nat, OpList 1600)] in
  let bs := replicate 3 (new_RedisBackend true "gateway/instances" 30) in
  (registry_run order ops (∅ : gmap string string) bs).2
  = (spec_run order ops ∅ (replicate 3 (0, ∅))).2
  /\ last (registry_run order ops (∅ : gmap string string) bs).2
    = Some (ResList [with_heartbeat 99 (sample_record "srv-2" 1)]).
Proof.
  intros order ops bs.
  assert (Hops : Forall (fun o => wf_op o.2) ops).
  { repeat constructor; try (apply sample_record_wf; [plain_literal|by vm_compute]); by vm_compute. }
  pose proof (registry_refines_map order "gateway/instances" 30 3 ops (∅ : gmap string string)
    ltac:(by vm_compute) ltac:(done) Hops) as Hw.
  cbv zeta in Hw. fold bs in Hw.
  destruct (registry_run order ops (∅ : gmap string string) bs) as [[s' bs'] res] eqn:Hr.
  destruct (spec_run order ops ∅ (replicate 3 (0, ∅))) as [[m cs] res'] eqn:Hs.
  destruct Hw as (-> & _). split; [done|]. clear -Hs. unfold ops, order in Hs. vm_compute in Hs.
  apply (f_equal snd) in Hs. cbn [snd] in Hs. subst res'. by vm_compute.
Defined.

(** Selection is filtering: [select_instances] keeps, in order, the records the selector
    matches, and its statistics count them; a selector matches everything when it says so,
    nothing when it has no field, and otherwise the records whose every field passes its
    filter, up to blanks and case. *)
Theorem select_instances_spec instances selector :
  zlen instances < 2 ^ 64 ->
  let '(out, st) := select_instances instances selector in
  out = List.filter (fun r => matches_selector r selector) instances
  /\ scanned st = zlen instances /\ matched st = zlen out /\ scanned st = matched st + selector_mismatch st
  /\ forall r, matches_selector r selector = true <->
       sel_all selector = true \/
       (has_at_least_one_selector_field selector = true
        /\ field_passes (instance_id r) (server_ids selector) /\ field_passes (role r) (roles selector)
        /\ field_passes (game_mode r) (game_modes selector) /\ field_passes (region r) (regions selector)
        /\ field_passes (shard r) (shards selector)
        /\ (sel_tags selector = [] \/ exists t, t ∈ tags r /\ sel_tags selector <> [] /\ field_passes t (sel_tags selector))).
Proof.
  intros Hlen. unfold select_instances.
  pose proof (select_fold selector instances [] (mkSelectorMatchStats 0 0 0)) as Hf.
  destruct (fold_left _ _ _) as [out st]. cbn [scanned matched selector_mismatch app] in Hf.
  destruct Hf as (-> & -> & -> & ?); try lia. split_and!; [done..|lia|lia|].
  intros r. unfold matches_selector. destruct (sel_all selector); [by split; auto|].
  rewrite <- !matches_field_spec, <- matches_tags_spec.
  destruct (has_at_least_one_selector_field selector), (matches_field (instance_id r) _),
    (matches_field (role r) _), (matches_field (game_mode r) _), (matches_field (region r) _),
    (matches_field (shard r) _); cbn; intuition congruence.
Qed.

(** The JSON form does not escape its texts: a comma truncates a field, and a quote and a
    comma in one field overwrite another. *)
Lemma json_not_escaped :
  let r region := mkInstanceRecord "srv" "10.0.0.7" 5000 "server" "pvp" region "s1" [] 100 1 true 12 in
  deserialize_json (serialize_json (r "eu,west"%string)) = Some (r "eu"%string)
  /\ (host <$> deserialize_json (serialize_json (r ("eu" +:+ quote +:+ "," +:+ quote +:+ "host" +:+ quote +:+ ":" +:+ quote +:+ "evil"))))
     = Some "evil"%string.
Proof. split; vm_compute; reflexivity. Qed.

Lemma select_instances_spec_witness :
  let sel := mkInstanceSelector false [] [" SERVER "]%string [] ["eu"]%string [] [] in
  let l := [sample_record "srv-1" 3; default_InstanceRecord] in
  (select_instances l sel).1 = [sample_record "srv-1" 3] /\ scanned (select_instances l sel).2 = 2.
Proof.
  intros sel l. pose proof (select_instances_spec l sel ltac:(unfold l; cbn [length]; lia)) as Hw.
  destruct (select_instances l sel) as [out st]. destruct Hw as (-> & Hs & _). cbn [fst snd]. rewrite Hs. by split; vm_compute.
Defined.
