(* ===== verification/GatewayRouting.v ===== *)
(** Admission and routing of the gateway, [gateway/src/gateway_app.cpp]: which connections
    are let in, which backend a client goes to, and when the choice is remembered.

    The registry is the one of [InstanceRegistry.v], the directory of sticky sessions the
    one of [SessionDirectory.v], the table of sessions the one of [GatewayUdp.v]; what talks
    to Redis is a program of [Redis.v]. *)

From S2P Require Import Prelude Text Redis SessionDirectory Resilience GatewayUdp InstanceRegistry InstanceRegistryProps.

Inductive IngressAdmission := kAccept | kRejectNotReady | kRejectRateLimited | kRejectSessionLimit | kRejectCircuitOpen.

Definition ingress_admission_name (admission : IngressAdmission) : string :=
  match admission with
  | kAccept => "accept"
  | kRejectNotReady => "not_ready"
  | kRejectRateLimited => "rate_limited"
  | kRejectSessionLimit => "session_limit"
  | kRejectCircuitOpen => "circuit_open"
  end.

Record SelectedBackend := mkSelectedBackend { selected_record : InstanceRecord; sticky_hit : bool }.

(** The part of [GatewayApp] these methods use.  The counters of rejections are by reason. *)
Record GatewayApp := mkGatewayApp {
  gateway_id_ : string;
  boot_id_ : string;
  ingress_max_active_sessions_ : Z;
  backend_circuit_breaker_ : CircuitBreaker;
  ingress_token_bucket_ : TokenBucket;
  ingress_rejects : IngressAdmission -> Z;
  backend_circuit_reject_total_ : Z;
  backend_registry_ : option RedisBackend;
  session_directory_ : option (SessionDirectory * gmap string CacheEntry);
  session_counter : Z;
  gw_sessions : UdpGateway;
}.

Definition with_breaker (b : CircuitBreaker) (g : GatewayApp) : GatewayApp :=
  mkGatewayApp (gateway_id_ g) (boot_id_ g) (ingress_max_active_sessions_ g) b (ingress_token_bucket_ g)
    (ingress_rejects g) (backend_circuit_reject_total_ g) (backend_registry_ g) (session_directory_ g)
    (session_counter g) (gw_sessions g).
Definition with_bucket (b : TokenBucket) (g : GatewayApp) : GatewayApp :=
  mkGatewayApp (gateway_id_ g) (boot_id_ g) (ingress_max_active_sessions_ g) (backend_circuit_breaker_ g) b
    (ingress_rejects g) (backend_circuit_reject_total_ g) (backend_registry_ g) (session_directory_ g)
    (session_counter g) (gw_sessions g).
Definition reject (why : IngressAdmission) (g : GatewayApp) : GatewayApp * IngressAdmission :=
  let count a := match a, why with
                 | kAccept, kAccept | kRejectNotReady, kRejectNotReady | kRejectRateLimited, kRejectRateLimited
                 | kRejectSessionLimit, kRejectSessionLimit | kRejectCircuitOpen, kRejectCircuitOpen =>
                     u64 (ingress_rejects g a + 1)
                 | _, _ => ingress_rejects g a
                 end in
  (mkGatewayApp (gateway_id_ g) (boot_id_ g) (ingress_max_active_sessions_ g) (backend_circuit_breaker_ g)
     (ingress_token_bucket_ g) count (backend_circuit_reject_total_ g) (backend_registry_ g)
     (session_directory_ g) (session_counter g) (gw_sessions g), why).
Definition circuit_rejected (g : GatewayApp) : GatewayApp :=
  mkGatewayApp (gateway_id_ g) (boot_id_ g) (ingress_max_active_sessions_ g) (backend_circuit_breaker_ g)
    (ingress_token_bucket_ g) (ingress_rejects g) (u64 (backend_circuit_reject_total_ g + 1))
    (backend_registry_ g) (session_directory_ g) (session_counter g) (gw_sessions g).
Definition with_routing (r : option RedisBackend) (d : option (SessionDirectory * gmap string CacheEntry))
    (g : GatewayApp) : GatewayApp :=
  mkGatewayApp (gateway_id_ g) (boot_id_ g) (ingress_max_active_sessions_ g) (backend_circuit_breaker_ g)
    (ingress_token_bucket_ g) (ingress_rejects g) (backend_circuit_reject_total_ g) r d (session_counter g)
    (gw_sessions g).
Definition with_sessions (counter : Z) (u : UdpGateway) (g : GatewayApp) : GatewayApp :=
  mkGatewayApp (gateway_id_ g) (boot_id_ g) (ingress_max_active_sessions_ g) (backend_circuit_breaker_ g)
    (ingress_token_bucket_ g) (ingress_rejects g) (backend_circuit_reject_total_ g) (backend_registry_ g)
    (session_directory_ g) counter u.

(** [app_ready] is [ready() && healthy() && !stop_requested()] of the application host. *)
Definition admit_ingress_connection (app_ready : bool) (now_ms : Z) (g : GatewayApp) :
    GatewayApp * IngressAdmission :=
  if negb app_ready then reject kRejectNotReady g
  else
    let '(b, open) := is_open now_ms (backend_circuit_breaker_ g) in
    let g := with_breaker b g in
    if open then reject kRejectCircuitOpen g
    else if (0 <? ingress_max_active_sessions_ g)
            && (ingress_max_active_sessions_ g <=? Z.of_nat (size (sessions_ (gw_sessions g))))
    then reject kRejectSessionLimit g
    else
      let '(t, ok) := token_consume now_ms (f_of_Z 1) (ingress_token_bucket_ g) in
      let g := with_bucket t g in
      if ok then (g, kAccept) else reject kRejectRateLimited g.

Definition backend_circuit_allows_connect (now_ms : Z) (g : GatewayApp) : GatewayApp * bool :=
  let '(b, ok) := breaker_allow now_ms (backend_circuit_breaker_ g) in
  let g := with_breaker b g in
  if ok then (g, true) else (circuit_rejected g, false).

(** ** Choosing a backend *)

Definition eligible (rec : InstanceRecord) : bool :=
  ready rec && negb (bool_decide (instance_id rec = EmptyString)) && negb (bool_decide (host rec = EmptyString))
  && negb (port rec =? 0).

(** The loop of the least-connections choice. *)
Definition least_step (selected : option InstanceRecord) (rec : InstanceRecord) : option InstanceRecord :=
  if negb (eligible rec) then selected
  else match selected with
       | None => Some rec
       | Some s => if active_sessions rec <? active_sessions s then Some rec else selected
       end.
Definition least_connections (instances : list InstanceRecord) : option InstanceRecord :=
  fold_left least_step instances None.

(** Only clients with a name stick to a backend. *)
Definition named (client_id : string) : bool :=
  negb (bool_decide (client_id = EmptyString)) && negb (bool_decide (client_id = "anonymous"%string)).

Section routing.
  Context (order : records -> list InstanceRecord).

(** [now_ms] is the clock of the registry, [now] and [later] those of the directory. *)
Definition select_best_server (client_id : string) (now_ms now later : Z) (g : GatewayApp) :
    prog (GatewayApp * option SelectedBackend) :=
  match backend_registry_ g with
  | None => Ret (g, None)
  | Some reg =>
      '(reg, instances) ← list_instances order now_ms reg;
      let g := with_routing (Some reg) (session_directory_ g) g in
      match instances with
      | [] => Ret (g, None)
      | _ =>
          let fresh g := Ret (g, (fun rec => mkSelectedBackend rec false) <$> least_connections instances) in
          match session_directory_ g with
          | Some (d, c) =>
              if named client_id then
                '(c, found) ← find_backend d client_id now later c;
                let g := with_routing (Some reg) (Some (d, c)) g in
                match found with
                | None => fresh g
                | Some backend_id =>
                    match find (fun rec => bool_decide (instance_id rec = backend_id) && ready rec) instances with
                    | Some rec => Ret (g, Some (mkSelectedBackend rec true))
                    | None =>
                        c ← release_backend d client_id backend_id c;
                        fresh (with_routing (Some reg) (Some (d, c)) g)
                    end
                end
              else fresh g
          | None => fresh g
          end
      end
  end.

(** After the TCP connection to the backend; the log of a mismatch apart. *)
Definition on_backend_connected (client_id backend_instance_id : string) (now later : Z) (g : GatewayApp) :
    prog GatewayApp :=
  match session_directory_ g with
  | None => Ret g
  | Some (d, c) =>
      if negb (named client_id) then Ret g
      else if bool_decide (backend_instance_id = EmptyString) then Ret g
      else
        '(c, _) ← ensure_backend d client_id backend_instance_id now later c;
        Ret (with_routing (backend_registry_ g) (Some (d, c)) g)
  end.

Definition make_session_id (g : GatewayApp) (counter : Z) : string :=
  gateway_id_ g +:+ "-" +:+ boot_id_ g +:+ "-" +:+ str (decimal counter).

(** The session that is created and the backend it connects to; [None] is [nullptr]. *)
Definition create_backend_connection (client_id : string) (steady_ms now_ms now later : Z) (g : GatewayApp) :
    prog (GatewayApp * option (string * SelectedBackend)) :=
  let '(g, allowed) := backend_circuit_allows_connect steady_ms g in
  if negb allowed then Ret (g, None)
  else
    '(g, selected) ← select_best_server client_id now_ms now later g;
    match selected with
    | None => Ret (g, None)
    | Some selected =>
        let counter := u64 (session_counter g + 1) in
        let session_id := make_session_id g counter in
        Ret (with_sessions counter (open_session session_id client_id (gw_sessions g)) g,
             Some (session_id, selected))
    end.

Definition close_session (session_id : string) (g : GatewayApp) : GatewayApp :=
  with_sessions (session_counter g) (close_backend_connection session_id (gw_sessions g)) g.

End routing.

(** ** Lemmas *)

Lemma least_step_spec l selected :
  match fold_left least_step l selected with
  | None => selected = None /\ Forall (fun r => eligible r = false) l
  | Some r =>
      (selected = Some r \/ (r ∈ l /\ eligible r = true))
      /\ (forall s, selected = Some s -> active_sessions r <= active_sessions s)
      /\ forall r', r' ∈ l -> eligible r' = true -> active_sessions r <= active_sessions r'
  end.
Proof.
  revert selected. induction l as [|x l IH]; intros selected; cbn [fold_left].
  { destruct selected; [|done]. split_and!; [by left|by intros ? [= ->]|set_solver]. }
  specialize (IH (least_step selected x)).
  destruct (fold_left least_step l (least_step selected x)) as [r|] eqn:Er.
  - destruct IH as (H1 & H2 & H3). unfold least_step in H1, H2. destruct (eligible x) eqn:Hx; cbn [negb] in *.
    + assert (Hr : active_sessions r <= active_sessions x
        /\ (forall s, selected = Some s -> active_sessions r <= active_sessions s)
        /\ (selected = Some r \/ r = x \/ (r ∈ l /\ eligible r = true))).
      { destruct selected as [s|].
        - destruct (Z.ltb_spec (active_sessions x) (active_sessions s)); specialize (H2 _ eq_refl);
            (split_and!; [lia|intros ? [= <-]; lia|]); destruct H1 as [[= ->]|]; auto.
        - split_and!; [by apply H2|done|]. destruct H1 as [[= ->]|]; auto. }
      destruct Hr as (Hrx & Hrs & Hor). split_and!; [|done|].
      * destruct Hor as [?|[->|[? ?]]]; [by left|right..]; set_solver.
      * intros r' [->|?]%elem_of_cons ?; auto.
    + split_and!; [set_solver|done|]. intros r' [->|?]%elem_of_cons ?; [congruence|auto].
  - destruct IH as [H1 H2]. unfold least_step in H1. destruct (eligible x) eqn:Hx; cbn [negb] in *.
    + destruct selected; [|done]. by destruct (_ <? _).
    + split; [done|by constructor].
Qed.

(** The choice among the instances of a listing. *)
Definition good_choice (instances : list InstanceRecord) (client_id : string) (sel : option SelectedBackend) : Prop :=
  match sel with
  | None => Forall (fun r => eligible r = false) instances
  | Some (mkSelectedBackend rec sticky) =>
      rec ∈ instances /\ ready rec = true
      /\ (if sticky then named client_id = true
          else eligible rec = true
               /\ forall r, r ∈ instances -> eligible r = true -> active_sessions rec <= active_sessions r)
  end.

Lemma least_good instances client_id :
  good_choice instances client_id ((fun rec => mkSelectedBackend rec false) <$> least_connections instances).
Proof.
  pose proof (least_step_spec instances None) as H. unfold least_connections.
  destruct (fold_left least_step instances None) as [r|]; cbn; [|apply H].
  destruct H as ([?|[Hin He]] & _ & Hmin); [done|]. split_and!; [done| |done..].
  unfold eligible in He. by destruct (ready r).
Qed.

Section facts.
  Context {S : Type} `{RedisServer S} (order : records -> list InstanceRecord).

Definition keeps_table (g g' : GatewayApp) : Prop :=
  gw_sessions g' = gw_sessions g /\ session_counter g' = session_counter g
  /\ gateway_id_ g' = gateway_id_ g /\ boot_id_ g' = boot_id_ g.

Lemma list_instances_cache now_ms reg (s : S) :
  (run (list_instances order now_ms reg) s).2.2 = order (cache_ (run (list_instances order now_ms reg) s).2.1).
Proof. unfold list_instances. rewrite run_mbind. by destruct (run (reload_if_due now_ms reg) s). Qed.

Lemma select_best_server_facts client_id now_ms now later g (s : S) :
  let '(_, (g', sel)) := run (select_best_server order client_id now_ms now later g) s in
  keeps_table g g'
  /\ match backend_registry_ g' with
     | None => backend_registry_ g = None /\ sel = None
     | Some reg => good_choice (order (cache_ reg)) client_id sel
     end.
Proof.
  unfold select_best_server. destruct (backend_registry_ g) as [reg|] eqn:Hreg; [|by cbn; rewrite Hreg].
  rewrite run_mbind. pose proof (list_instances_cache now_ms reg s) as Hl.
  destruct (run (list_instances order now_ms reg) s) as [s1 [reg' instances]]. cbn [fst snd] in Hl. subst instances.
  destruct (order (cache_ reg')) as [|i0 rest] eqn:Ho; [cbn; rewrite Ho; by split_and!|]. rewrite <- Ho. clear Ho i0 rest.
  destruct (session_directory_ _) as [[d c]|]; [|by split; [|apply least_good]].
  destruct (named client_id) eqn:Hn; [|by split; [|apply least_good]].
  rewrite run_mbind. destruct (run (find_backend d client_id now later c) s1) as [s2 [c' found]].
  destruct found as [b|]; [|by split; [|apply least_good]].
  destruct (find _ (order (cache_ reg'))) as [rec|] eqn:Hf.
  - split; [by split_and!|]. apply find_some in Hf as [Hin [_ Hrd]%andb_prop].
    split_and!; [by apply list_elem_of_In|done..].
  - rewrite run_mbind. destruct (run (release_backend d client_id b c') s2) as [s3 c''].
    by split; [|apply least_good].
Qed.

(** *** Session identifiers *)

Lemma decimal_inj n1 n2 : 0 <= n1 -> 0 <= n2 -> str (decimal n1) = str (decimal n2) -> n1 = n2.
Proof.
  intros H1 H2 E. apply (f_equal chars_of) in E. rewrite !chars_of_string_of_list in E.
  destruct (decimal_digits n1 H1) as (_ & <- & _), (decimal_digits n2 H2) as (_ & <- & _). by rewrite E.
Qed.

Inductive session_op := OpCreate (client_id : string) (steady_ms now_ms now later : Z) | OpClose (session_id : string).

(** The identifiers created over a sequence of operations. *)
Fixpoint session_run (ops : list session_op) (g : GatewayApp) (s : S) : GatewayApp * S * list string :=
  match ops with
  | [] => (g, s, [])
  | OpCreate client t1 t2 t3 t4 :: ops =>
      let '(s, (g, r)) := run (create_backend_connection order client t1 t2 t3 t4 g) s in
      let '(g, s, ids) := session_run ops g s in
      (g, s, match r with Some (id, _) => id :: ids | None => ids end)
  | OpClose id :: ops => session_run ops (close_session id g) s
  end.

Lemma create_facts client t1 t2 t3 t4 g (s : S) :
  let '(_, (g', r)) := run (create_backend_connection order client t1 t2 t3 t4 g) s in
  gateway_id_ g' = gateway_id_ g /\ boot_id_ g' = boot_id_ g
  /\ match r with
     | None => session_counter g' = session_counter g /\ gw_sessions g' = gw_sessions g
     | Some (id, _) => session_counter g' = u64 (session_counter g + 1)
         /\ id = make_session_id g (u64 (session_counter g + 1))
         /\ gw_sessions g' = open_session id client (gw_sessions g)
     end.
Proof.
  unfold create_backend_connection, backend_circuit_allows_connect.
  destruct (breaker_allow t1 (backend_circuit_breaker_ g)) as [b ok]. destruct ok; [|by cbn]. cbn [negb].
  rewrite run_mbind.
  pose proof (select_best_server_facts client t2 t3 t4 (with_breaker b g) s) as Hsel.
  destruct (run (select_best_server _ _ _ _ _ _) s) as [s' [g' sel]].
  destruct Hsel as [(Ht & Hc & Hg & Hb) _]. cbn in Ht, Hc, Hg, Hb.
  destruct sel; cbn; unfold make_session_id; rewrite ?Ht, ?Hc, ?Hg, ?Hb; by split_and!.
Qed.

End facts.
(** ** Theorems *)

(** The backend a client is sent to.  Whatever Redis answers, the choice is a ready
    instance of the listing; without a sticky hit it has an identifier, a host and a port,
    and no instance with those has fewer sessions; a sticky hit is for a named client only;
    and no backend is reported only if none of the listing can be used.  The choice leaves
    the table of sessions alone. *)
Theorem select_best_server_sound {S} `{RedisServer S} order client_id now_ms now later g (s : S) reg :
  backend_registry_ g = Some reg ->
  let '(_, (g', sel)) := run (select_best_server order client_id now_ms now later g) s in
  gw_sessions g' = gw_sessions g
  /\ exists reg', backend_registry_ g' = Some reg' /\ good_choice (order (cache_ reg')) client_id sel.
Proof.
  intros Hreg. pose proof (select_best_server_facts order client_id now_ms now later g s) as Hf.
  destruct (run _ s) as [s' [g' sel]]. destruct Hf as [Ht Hf]. split; [apply Ht|].
  destruct (backend_registry_ g') as [reg'|]; [by exists reg'|]. destruct Hf. congruence.
Qed.

Definition sample_gateway (cache : gmap string CacheEntry) : GatewayApp :=
  mkGatewayApp "gw-1" "cafe0123" 100 default_CircuitBreaker default_TokenBucket (fun _ => 0) 0
    (Some (new_RedisBackend true "gateway/instances/" 30))
    (Some (new_SessionDirectory true "gateway/session/" 600, cache)) 0
    (mkUdpGateway ∅ UdpGuard.default_UdpBindAbuseGuard).

Definition sample_server : gmap string string :=
  <["gateway/instances/srv-1"%string := serialize_json (sample_record "srv-1" 3)]>
  (<["gateway/instances/srv-2"%string := serialize_json (sample_record "srv-2" 1)]> ∅).

Definition by_key (m : records) : list InstanceRecord := (map_to_list m).*2.

Lemma select_best_server_sound_witness :
  let '(_, (g', sel)) := run (select_best_server by_key "alice" 1000 0 0 (sample_gateway ∅)) sample_server in
  gw_sessions g' = gw_sessions (sample_gateway ∅)
  /\ sel = Some (mkSelectedBackend (sample_record "srv-2" 1) false).
Proof.
  pose proof (select_best_server_sound by_key "alice" 1000 0 0 (sample_gateway ∅) sample_server _ eq_refl) as Hw.
  destruct (run _ sample_server) as [s' [g' sel]] eqn:Er. destruct Hw as [Ht _]. split; [exact Ht|].
  clear Ht. apply (f_equal (fun x => x.2.2)) in Er. vm_compute in Er. by rewrite <- Er; vm_compute.
Defined.

Lemma append_cancel (a x y : string) : a +:+ x = a +:+ y -> x = y.
Proof. induction a as [|c a IH]; [done|]. intros E. injection E. apply IH. Qed.

Lemma make_session_id_inj g n1 n2 :
  0 <= n1 -> 0 <= n2 -> make_session_id g n1 = make_session_id g n2 -> n1 = n2.
Proof.
  intros H1 H2 E. unfold make_session_id in E.
  do 4 apply append_cancel in E. by apply decimal_inj.
Qed.

Lemma make_session_id_same g g' n :
  gateway_id_ g' = gateway_id_ g -> boot_id_ g' = boot_id_ g -> make_session_id g' n = make_session_id g n.
Proof. unfold make_session_id. by intros -> ->. Qed.

(** The identifiers of a run are those of the counter values it goes through. *)
Lemma session_run_ids {S} `{RedisServer S} order ops g (s : S) :
  0 <= session_counter g -> session_counter g + zlen ops < 2 ^ 64 ->
  let '(_, _, ids) := session_run order ops g s in
  NoDup ids /\ Forall (fun id => exists n, session_counter g < n < 2 ^ 64 /\ id = make_session_id g n) ids.
Proof.
  revert g s. induction ops as [|op ops IH]; intros g s H0 Hlen; cbn [session_run length] in *.
  { split; constructor. }
  destruct op as [client t1 t2 t3 t4|id].
  - pose proof (create_facts order client t1 t2 t3 t4 g s) as Hc.
    destruct (run (create_backend_connection _ _ _ _ _ _ _) s) as [s' [g' r]]. destruct Hc as (Hg & Hb & Hr).
    specialize (IH g' s'). destruct r as [[id sel]|].
    + destruct Hr as (Hn & -> & _). rewrite wrap_id in * by (widths; lia).
      destruct (session_run order ops g' s') as [[g2 s2] ids]. destruct IH as [Hnd Hall]; [lia..|].
      split.
      * constructor; [|done]. intros Hin. rewrite Forall_forall in Hall. destruct (Hall _ Hin) as (n & Hlt & E).
        rewrite (make_session_id_same g g' n Hg Hb) in E. apply make_session_id_inj in E; lia.
      * constructor; [exists (session_counter g + 1); split; [lia|done]|].
        eapply Forall_impl; [exact Hall|]. intros id (n & ? & ->). exists n.
        split; [lia|by apply make_session_id_same].
    + destruct Hr as [Hn _]. destruct (session_run order ops g' s') as [[g2 s2] ids].
      destruct IH as [Hnd Hall]; [lia..|]. split; [done|]. eapply Forall_impl; [exact Hall|].
      intros id (n & ? & ->). exists n. split; [lia|by apply make_session_id_same].
  - specialize (IH (close_session id g) s). destruct (session_run order ops _ s) as [[g2 s2] ids].
    apply IH; cbn; lia.
Qed.

(** A gateway never reuses a session identifier: over any sequence of connections and
    closings, with any answers of Redis, the identifiers it creates are distinct, so that
    none takes over the entry of another in the table of sessions. *)
Theorem session_ids_unique {S} `{RedisServer S} order ops g (s : S) :
  session_counter g = 0 -> zlen ops < 2 ^ 64 -> NoDup (session_run order ops g s).2.
Proof.
  intros H0 Hlen. pose proof (session_run_ids order ops g s ltac:(lia) ltac:(lia)) as Hids.
  destruct (session_run order ops g s) as [[g' s'] ids]. apply Hids.
Qed.

Lemma session_ids_unique_witness :
  let ops := [OpCreate "alice" 5 1000 0 0; OpClose "gw-1-cafe0123-1"; OpCreate "alice" 6 1600 0 0] in
  let ids := (session_run by_key ops (sample_gateway ∅) sample_server).2 in
  NoDup ids /\ ids = ["gw-1-cafe0123-1"; "gw-1-cafe0123-2"]%string.
Proof.
  split; [|vm_compute; reflexivity].
  apply (session_ids_unique by_key [OpCreate "alice" 5 1000 0 0; OpClose "gw-1-cafe0123-1";
    OpCreate "alice" 6 1600 0 0] (sample_gateway ∅) sample_server); by vm_compute.
Defined.

(** ** Sticky routing over two gateways *)

Section sticky.
  Context {S : Type} `{HS : RedisServer S} `{!RedisLaws S, !RedisReliable S, !RegistryLaws S}.
  Context (order : records -> list InstanceRecord) (Horder : forall m, order m ≡ₚ (map_to_list m).*2).

(** The instance of an identifier in the listing of a map of records. *)
Lemma find_in_order m id r :
  wf_records m -> m !! id = Some r -> ready r = true ->
  find (fun rec => bool_decide (instance_id rec = id) && ready rec) (order m) = Some r.
Proof.
  intros Hwf Hr Hrd. assert (Hin : r ∈ order m).
  { rewrite Horder. apply list_elem_of_fmap. exists (id, r). by rewrite elem_of_map_to_list. }
  assert (Hkey : forall r', r' ∈ order m -> instance_id r' = id -> r' = r).
  { intros r'. rewrite Horder, list_elem_of_fmap. intros ([k x] & -> & Hx%elem_of_map_to_list) Hid.
    destruct (Hwf k x Hx) as [_ Hk]. cbn in *. assert (k = id) as -> by congruence. congruence. }
  destruct (find _ (order m)) as [r'|] eqn:Hf.
  - apply find_some in Hf as [Hin' [Hid _]%andb_prop]. f_equal. apply Hkey; [by apply list_elem_of_In|].
    by apply bool_decide_eq_true in Hid.
  - apply find_none with (x := r) in Hf; [|by apply list_elem_of_In].
    destruct (Hwf id r Hr) as [_ Hid]. by rewrite bool_decide_eq_true_2, Hrd in Hf.
Qed.

(** A gateway with a registry on the prefix [p], not looked at for 500 ms, and a directory. *)
Definition routes_on (p : string) (d : SessionDirectory) (now_ms : Z) (g : GatewayApp) : Prop :=
  (exists reg c, backend_registry_ g = Some reg /\ simulates p reg c /\ 500 <= now_ms - c.1)
  /\ exists cache, session_directory_ g = Some (d, cache).

(** C22. Sticky sessions across gateways.  Gateway A connects a named client that has no binding
    (neither in Redis nor in the cache of A or B) to an instance that is published as ready,
    and the gateways share one Redis server that answers and keeps what it is given.  When
    gateway B, whose listing of the registry is due for a reload, next chooses a backend for
    that client, with nothing in between, it chooses the same one, as a sticky hit and
    whatever the numbers of sessions are. *)
Theorem sticky_across_gateways p d m r client now_ms now later now' later' gA gB cA cB (s : S) :
  plain_text p = true -> sd_has_redis d = true -> named client = true ->
  (forall id, make_key d client <> p +:+ id) ->
  published p m (redis_view s) -> wf_records m ->
  m !! instance_id r = Some r -> ready r = true -> instance_id r <> EmptyString ->
  redis_view s !! make_key d client = None ->
  session_directory_ gA = Some (d, cA) -> cA !! client = None ->
  routes_on p d now_ms gB -> session_directory_ gB = Some (d, cB) -> cB !! client = None ->
  let '(s1, _) := run (on_backend_connected client (instance_id r) now later gA) s in
  let '(_, (_, sel)) := run (select_best_server order client now_ms now' later' gB) s1 in
  sel = Some (mkSelectedBackend r true).
Proof.
  intros Hp Hd Hnamed Hdisj Hpub Hwf Hr Hready Hid Hkey HdA HcA [(reg & c & Hreg & Hsim & Hdue) _] HdB HcB.
  assert (Hcl : client <> EmptyString).
  { intros ->. unfold named in Hnamed. by rewrite bool_decide_eq_true_2 in Hnamed. }
  unfold on_backend_connected. rewrite HdA, Hnamed, bool_decide_eq_false_2 by done. cbn [negb].
  rewrite run_mbind.
  destruct (ensure_missed d Hd client Hcl (instance_id r) now later cA s Hid HcA) as (s1 & -> & Hs1);
    [by rewrite Hkey|].
  rewrite Hkey in *. cbn [default from_option Datatypes.id] in Hs1. cbn [run].
  assert (Hpub1 : published p m (redis_view s1)).
  { intros id. rewrite Hs1, lookup_insert_ne; [apply Hpub|apply Hdisj]. }
  unfold select_best_server. rewrite Hreg, run_mbind. unfold list_instances. rewrite run_mbind.
  unfold reload_if_due. pose proof Hsim as (Hc1 & _ & Hint & Hlast & _).
  rewrite Hc1, Hint, Hlast, (proj2 (Z.leb_le _ _) Hdue). cbn [andb]. rewrite run_mbind.
  match goal with |- context [run (reload_cache_from_backend ?b) s1] =>
    destruct (run_reload order p Hp m s1 b (now_ms, c.2) Hpub1 Hwf) as [Hv2 Hr2];
      [destruct Hsim as (? & ? & ? & ? & ? & ?); by split_and!|];
      destruct (run (reload_cache_from_backend b) s1) as [s2 [b2 ok]] end.
  cbn [fst snd] in Hv2, Hr2. injection Hr2 as -> ->. cbn [run cache_ set_cache].
  assert (Hfind := find_in_order m (instance_id r) r Hwf Hr Hready).
  destruct (order m) as [|i0 rest]; [done|]. cbn [session_directory_ with_routing]. rewrite HdB, Hnamed, run_mbind.
  destruct (find_missed d Hd client Hcl now' later' cB s2 HcB) as (s3 & _ & ->).
  { rewrite Hv2, Hs1, lookup_insert_eq. by intros ? [= <-]. }
  rewrite Hv2, Hs1, lookup_insert_eq, Hfind. done.
Qed.

End sticky.

Lemma sticky_across_gateways_witness :
  let '(s1, _) := run (on_backend_connected "alice" "srv-1" 0 1 (sample_gateway ∅)) sample_server in
  let '(_, (_, sel)) := run (select_best_server by_key "alice" 1000 5 6 (sample_gateway ∅)) s1 in
  sel = Some (mkSelectedBackend (sample_record "srv-1" 3) true).
Proof.
  set (m := <["srv-1"%string := sample_record "srv-1" 3]> (<["srv-2"%string := sample_record "srv-2" 1]> (∅ : records))).
  apply (sticky_across_gateways (S := gmap string string) by_key ltac:(done) "gateway/instances/"
    (new_SessionDirectory true "gateway/session/" 600) m (sample_record "srv-1" 3) "alice" 1000 0 1 5 6
    (sample_gateway ∅) (sample_gateway ∅) ∅ ∅ sample_server); try (by vm_compute).
  - unfold m, sample_server. cbn [redis_view gmap_redis].
    change "gateway/instances/srv-1"%string with ("gateway/instances/" +:+ "srv-1").
    change "gateway/instances/srv-2"%string with ("gateway/instances/" +:+ "srv-2").
    do 2 (apply published_insert). done.
  - unfold m. do 2 (apply wf_records_insert; [apply sample_record_wf; [plain_literal|by vm_compute]|done|]).
    apply map_Forall_empty.
  - split; [|by eexists]. eexists _, (0, ∅). split; [done|]. split; [|done]. by split_and!.
Defined.

(** The limit of sessions is compared at admission with sessions that are opened only
    after the login: connections that are admitted before any of them has logged in pass
    the limit together. *)
Theorem session_limit_overrun :
  let g0 := mkGatewayApp "gw-1" "cafe0123" 1 default_CircuitBreaker
              (token_configure (f_of_Z 200) (f_of_Z 400) default_TokenBucket) (fun _ => 0) 0
              (Some (new_RedisBackend true "gateway/instances/" 30)) None 0
              (mkUdpGateway ∅ UdpGuard.default_UdpBindAbuseGuard) in
  let '(g1, a1) := admit_ingress_connection true 1000 g0 in
  let '(g2, a2) := admit_ingress_connection true 1001 g1 in
  let '(g3, _, ids) := session_run by_key [OpCreate "alice" 1002 1002 0 0; OpCreate "bob" 1003 1003 0 0] g2 sample_server in
  a1 = kAccept /\ a2 = kAccept /\ ingress_max_active_sessions_ g3 = 1 /\ size (sessions_ (gw_sessions g3)) = 2%nat.
Proof. vm_compute. by split_and!. Qed.

(** A sticky hit is not checked for a host and a port as a fresh choice is. *)
Theorem sticky_hit_unchecked :
  let broken := mkInstanceRecord "srv-1" EmptyString 0 "server" "pvp" "eu" "s1" [] 100 1 true 12 in
  let server := <["gateway/instances/srv-1"%string := serialize_json broken]>
    (<["gateway/session/alice"%string := "srv-1"%string]> (∅ : gmap string string)) in
  eligible broken = false
  /\ (run (select_best_server by_key "alice" 1000 0 1 (sample_gateway ∅)) server).2.2
     = Some (mkSelectedBackend broken true).
Proof. by split; vm_compute. Qed.
