(* ===== verification/HttpServer.v ===== *)
(** The HTTP server for metrics and administration, [core/src/metrics/http_server.cpp]: the
    configuration from the environment, the polled reads with their time limits, the parser
    of requests, access control, routing and responses, as one handler per connection.

    What the operating system shows to the read loops is a stream of polls, one per round:
    the elapsed time, the number of bytes available and what a read returns.  A write is the
    result it ends with.  The callbacks of the embedding program are parameters that return a
    value or throw. *)

From S2P Require Import Prelude Text ChatText GatewayConfig InstanceRegistry InstanceRegistryProps.

Definition kMaxHttpHeaderBytes : Z := 16384.
Definition kMaxHttpRequestLineBytes : Z := 2048.
Definition kMaxHttpHeaderCount : Z := 64.
Definition kMaxHttpTargetBytes : Z := 2048.
Definition kMaxHttpBodyBytesDefault : Z := 65536.
Definition kDefaultHeaderTimeoutMs : Z := 5000.
Definition kDefaultBodyTimeoutMs : Z := 5000.

Abbreviation slen s := (Z.of_nat (String.length s)).

Definition trim_ascii (value : string) : string := trim isspace value.
Definition to_lower_ascii (value : string) : string := to_lower_ascii_local value.

(** ** Configuration *)

Definition read_env_size (getenv : string -> option string) (key : string) (fallback min_value max_value : Z) : Z :=
  match env_value getenv key with
  | Some raw =>
      match stoull raw with
      | Some (parsed, _) => if (min_value <=? parsed) && (parsed <=? max_value) then parsed else fallback
      | None => fallback
      end
  | None => fallback
  end.

Definition read_env_string (getenv : string -> option string) (key : string) : string :=
  default EmptyString (env_value getenv key).

(** The loop over the tokens ends with the text. *)
Definition split_csv_set (raw : string) : gset string :=
  list_to_set (List.filter (fun t => negb (bool_decide (t = EmptyString)))
    (map (fun t => trim_ascii (str t)) (split_sep 44 (chars_of raw)))).

Record HttpHardeningConfig := mkHttpHardeningConfig {
  max_connections : Z;
  max_body_bytes : Z;
  header_timeout_ms : Z;
  body_timeout_ms : Z;
  auth_token : string;
  ip_allowlist : gset string;
}.

Definition hardening_config (getenv : string -> option string) : HttpHardeningConfig :=
  mkHttpHardeningConfig
    (read_env_size getenv "METRICS_HTTP_MAX_CONNECTIONS" 64 1 65535)
    (read_env_size getenv "METRICS_HTTP_MAX_BODY_BYTES" kMaxHttpBodyBytesDefault 1 (1024 * 1024))
    (read_env_size getenv "METRICS_HTTP_HEADER_TIMEOUT_MS" kDefaultHeaderTimeoutMs 1 600000)
    (read_env_size getenv "METRICS_HTTP_BODY_TIMEOUT_MS" kDefaultBodyTimeoutMs 1 600000)
    (read_env_string getenv "METRICS_HTTP_AUTH_TOKEN")
    (split_csv_set (read_env_string getenv "METRICS_HTTP_ALLOWLIST")).

(** ** Requests *)

Record HttpRequest := mkHttpRequest {
  method : string;
  target : string;
  headers : gmap string string;
  body : string;
  source_ip : string;
}.

Definition parse_content_length (raw : string) : option Z :=
  if bool_decide (raw = EmptyString) then Some 0
  else match stoull raw with
       | Some (parsed, rest) => if negb (bool_decide (rest = [])) then None else Some parsed
       | None => None
       end.

(** [s.substr(0, n)]. *)
Fixpoint str_take (n : nat) (s : string) : string :=
  match n, s with
  | S n', String c s' => String c (str_take n' s')
  | _, _ => EmptyString
  end.

Definition request_has_valid_token (request : HttpRequest) (expected_token : string) : bool :=
  if bool_decide (expected_token = EmptyString) then true
  else if bool_decide (headers request !! "x-metrics-token"%string = Some expected_token) then true
  else match headers request !! "authorization"%string with
       | Some raw =>
           let value := trim_ascii raw in
           if (7 <? slen value) && bool_decide (to_lower_ascii (str_take 7 value) = "bearer "%string)
           then bool_decide (str_drop 7 value = expected_token)
           else false
       | None => false
       end.

Inductive BuiltInRoute := kNone | kMetrics | kLogs | kHealth | kReady.

Definition kRouteEntries : list (string * BuiltInRoute) :=
  [("/"%string, kMetrics); ("/metrics"%string, kMetrics); ("/logs"%string, kLogs); ("/healthz"%string, kHealth);
   ("/health"%string, kHealth); ("/readyz"%string, kReady); ("/ready"%string, kReady)].

Definition classify_builtin_route (target : string) : BuiltInRoute :=
  match find (fun entry => bool_decide (entry.1 = target)) kRouteEntries with
  | Some (_, route) => route
  | None => kNone
  end.

(** ** Reading *)

Inductive TimedReadResult := kOk | kTimeout | kTooLarge | kEof | kError.
Inductive exn := StdException | UnknownException.

Inductive read_some := Data (bytes : string) | Eof | Failed.

(** One round of a read loop: [available] is [None] on an error. *)
Record Poll := mkPoll { elapsed_ms : Z; available : option Z; got : read_some }.

Fixpoint contains (sub s : string) : bool :=
  String.prefix sub s || match s with String _ s' => contains sub s' | EmptyString => false end.

Definition crlf : string := str [ascii_of_byte 13; ascii_of_byte 10].
Definition streambuf_contains (buffer delimiter : string) : bool := contains delimiter buffer.

(** [read_headers_with_timeout]: the buffer holds at most [kMaxHttpHeaderBytes], and
    [prepare] throws beyond that.  [None] is out of fuel. *)
Fixpoint read_headers (fuel : nat) (polls : nat -> Poll) (i : nat) (timeout_ms : Z) (request_buf : string) :
    option (string * (TimedReadResult + exn)) :=
  match fuel with
  | O => None
  | S fuel =>
      if streambuf_contains request_buf (crlf +:+ crlf) then Some (request_buf, inl kOk)
      else if kMaxHttpHeaderBytes <? slen request_buf then Some (request_buf, inl kTooLarge)
      else if timeout_ms <=? elapsed_ms (polls i) then Some (request_buf, inl kTimeout)
      else match available (polls i) with
           | None => Some (request_buf, inl kError)
           | Some n =>
               if n =? 0 then read_headers fuel polls (S i) timeout_ms request_buf
               else match got (polls i) with
                    | Eof => Some (request_buf, inl kEof)
                    | Failed => Some (request_buf, inl kError)
                    | Data bytes =>
                        if bool_decide (bytes = EmptyString) then read_headers fuel polls (S i) timeout_ms request_buf
                        else if kMaxHttpHeaderBytes <? slen request_buf + slen bytes
                        then Some (request_buf, inr StdException)
                        else read_headers fuel polls (S i) timeout_ms (request_buf +:+ bytes)
                    end
           end
  end.

(** [read_body_with_timeout]: what follows the part of the body that is there. *)
Fixpoint read_body (fuel : nat) (polls : nat -> Poll) (i : nat) (timeout_ms remaining : Z) (body : string) :
    option (string * TimedReadResult) :=
  match fuel with
  | O => None
  | S fuel =>
      if remaining <=? 0 then Some (body, kOk)
      else if timeout_ms <=? elapsed_ms (polls i) then Some (body, kTimeout)
      else match available (polls i) with
           | None => Some (body, kError)
           | Some n =>
               if n =? 0 then read_body fuel polls (S i) timeout_ms remaining body
               else match got (polls i) with
                    | Eof => Some (body, kEof)
                    | Failed => Some (body, kError)
                    | Data bytes => read_body fuel polls (S i) timeout_ms (remaining - slen bytes) (body +:+ bytes)
                    end
           end
  end.

(** ** Effects *)

Inductive http_counter :=
  | record_http_header_timeout | record_http_header_oversize | record_http_bad_request | record_http_body_oversize
  | record_http_body_timeout | record_http_auth_reject | record_http_connection_limit_reject
  | record_exception_recoverable | record_exception_ignored.

Inductive http_callback := CallMetrics | CallLogs | CallHealth | CallHealthBody | CallReady | CallReadyBody | CallRoute.

Inductive http_event :=
  | Counted (c : http_counter)
  | Called (c : http_callback)
  | Written (bytes : string)
  | Closed.

(** A computation emits events and ends with a value, by an early return, or by an
    exception; [None] is out of fuel. *)
Inductive outcome (A : Type) := Value (a : A) | Returned | Threw (e : exn).
Arguments Value {A}.
Arguments Returned {A}.
Arguments Threw {A}.

Definition H (A : Type) : Type := option (list http_event * outcome A).

#[export] Instance H_ret : MRet H := fun A a => Some ([], Value a).
#[export] Instance H_bind : MBind H := fun A B f m =>
  match m with
  | Some (evs, Value a) => match f a with Some (evs', r) => Some (evs ++ evs', r) | None => None end
  | Some (evs, Returned) => Some (evs, Returned)
  | Some (evs, Threw e) => Some (evs, Threw e)
  | None => None
  end.

Definition emit (ev : http_event) : H unit := Some ([ev], Value tt).
Definition leave {A} : H A := Some ([], Returned).
Definition throw {A} (e : exn) : H A := Some ([], Threw e).

(** What a callback does when it is called. *)
Definition call {A} (c : http_callback) (r : A + exn) : H A :=
  match r with inl a => Some ([Called c], Value a) | inr e => Some ([Called c], Threw e) end.

Record RouteResponse := mkRouteResponse { rr_status : string; rr_content_type : string; rr_body : string }.

(** The callbacks; an absent one is [None]. *)
Record Callbacks := mkCallbacks {
  callback_ : option (string + exn);
  health_callback_ : option (bool + exn);
  ready_callback_ : option (bool + exn);
  logs_callback_ : option (string + exn);
  health_body_callback_ : option (bool -> string + exn);
  ready_body_callback_ : option (bool -> string + exn);
  route_callback_ : option (HttpRequest -> option RouteResponse + exn);
}.

(** What a connection meets: the polls of the two loops, whether the write of the response
    succeeds, and the address of the peer. *)
Record ConnectionEnv := mkConnectionEnv {
  header_polls : nat -> Poll;
  body_polls : nat -> Poll;
  write_ok : bool;
  remote_ip : option string;
}.

Definition lines (ls : list string) : string := foldr (fun l acc => l +:+ crlf +:+ acc) EmptyString ls.

Section handler.
  Context (cfg : HttpHardeningConfig) (cbs : Callbacks) (env : ConnectionEnv).

(** [asio::write] throws on an error.  It blocks until the peer has taken the bytes or the
    connection fails, without a time limit; here it is the result it ends with, and how long
    it takes is not modelled. *)
Definition write (bytes : string) : H unit :=
  if write_ok env then emit (Written bytes) else throw StdException.

(** A response without a callback: its header, its body and the end of the connection. *)
Definition respond (status : string) (extra : list string) (text : string) : H unit :=
  let body := text +:+ crlf in
  write (lines (["HTTP/1.1 " +:+ status; "Content-Type: text/plain; charset=utf-8"] ++ extra
                ++ ["Content-Length: " +:+ to_string (slen body); "Connection: close"; EmptyString]) +:+ body) ;;
  emit Closed ;; leave.

Definition bad_request : H unit :=
  emit (Counted record_http_bad_request) ;; respond "400 Bad Request" [] "Bad Request".
Definition headers_too_large : H unit :=
  emit (Counted record_http_header_oversize) ;;
  respond "431 Request Header Fields Too Large" [] "Request Header Fields Too Large".

(** [std::getline] on the stream: the line and what follows; [None] at its end. *)
Definition is_newline (c : Ascii.ascii) : bool := byte_of_ascii c =? 10.
Definition getline (s : string) : option (string * string) :=
  match s with
  | EmptyString => None
  | _ => match take_until is_newline s with
         | (line, String _ rest) => Some (line, rest)
         | (line, EmptyString) => Some (line, EmptyString)
         end
  end.

(** A carriage return at the end of a line is dropped. *)
Fixpoint drop_cr (s : string) : string :=
  match s with
  | EmptyString => EmptyString
  | String c EmptyString => if byte_of_ascii c =? 13 then EmptyString else s
  | String c s' => String c (drop_cr s')
  end.

Definition add_header (line : string) (hs : gmap string string) : gmap string string :=
  match take_until is_colon line with
  | (_, EmptyString) => hs
  | (name, String _ value) =>
      let name := to_lower_ascii (trim_ascii name) in
      if bool_decide (name = EmptyString) then hs else <[name := trim_ascii value]> hs
  end.

(** The loop over the header lines, at most one per character: the headers and the rest of
    the stream, or [None] when there are too many. *)
Fixpoint parse_headers (fuel : nat) (s : string) (count : Z) (hs : gmap string string) :
    option (option (gmap string string * string)) :=
  match fuel with
  | O => None
  | S fuel =>
      match getline s with
      | None => Some (Some (hs, EmptyString))
      | Some (line, rest) =>
          let line := drop_cr line in
          if bool_decide (line = EmptyString) then Some (Some (hs, rest))
          else if kMaxHttpHeaderCount <? count + 1 then Some None
          else parse_headers fuel rest (count + 1) (add_header line hs)
      end
  end.

(** From the bytes of the header to the request, what follows it in the buffer, and the
    length of its body. *)
Definition parse_request (request_buf : string) : H (HttpRequest * string * Z) :=
  (if kMaxHttpHeaderBytes <? slen request_buf then headers_too_large else mret tt) ;;
  let '(line, rest) := default (EmptyString, EmptyString) (getline request_buf) in
  let request_line := drop_cr line in
  (if bool_decide (request_line = EmptyString) || (kMaxHttpRequestLineBytes <? slen request_line)
   then bad_request else mret tt) ;;
  let '(method, more) := next_word request_line in
  let '(target, more) := next_word more in
  let '(version, _) := next_word more in
  (if bool_decide (method = EmptyString) || bool_decide (target = EmptyString) || bool_decide (version = EmptyString)
   then bad_request else mret tt) ;;
  let target := if bool_decide (target = EmptyString) then "/metrics"%string else target in
  (if kMaxHttpTargetBytes <? slen target
   then emit (Counted record_http_bad_request) ;; respond "414 URI Too Long" [] "URI Too Long"
   else mret tt) ;;
  match parse_headers (S (String.length rest)) rest 0 ∅ with
  | None => None
  | Some None => headers_too_large ;; leave
  | Some (Some (hs, rest)) =>
      content_length ← match hs !! "content-length"%string with
                       | None => mret 0
                       | Some v => match parse_content_length (trim_ascii v) with
                                   | Some n => mret n
                                   | None => bad_request ;; leave
                                   end
                       end;
      (if max_body_bytes cfg <? content_length
       then emit (Counted record_http_body_oversize) ;; respond "413 Payload Too Large" [] "Payload Too Large"
       else mret tt) ;;
      mret (mkHttpRequest method target hs EmptyString EmptyString, rest, content_length)
  end.

(** The body: what is in the buffer, and what is read for the rest. *)
Definition receive_body (fuel : nat) (rest : string) (content_length : Z) : H string :=
  if 0 <? content_length then
    let buffered := if content_length <? slen rest then str_take (Z.to_nat content_length) rest else rest in
    if slen buffered <? content_length then
      match read_body fuel (body_polls env) 0 (body_timeout_ms cfg) (content_length - slen buffered) buffered with
      | None => None
      | Some (body, kOk) => mret body
      | Some (_, kTimeout) => emit (Counted record_http_body_timeout) ;; emit Closed ;; leave
      | Some (_, _) => emit (Counted record_http_bad_request) ;; emit Closed ;; leave
      end
    else mret buffered
  else mret EmptyString.

(** The status, the type and the body of a response. *)
Definition text_type : string := "text/plain; charset=utf-8".
Definition not_found : RouteResponse := mkRouteResponse "404 Not Found" text_type ("Not Found" +:+ crlf).

Definition status_route (cb : option (bool + exn)) (body_cb : option (bool -> string + exn))
    (c1 c2 : http_callback) (yes no : string) : H RouteResponse :=
  ok ← match cb with Some r => call c1 r | None => mret true end;
  let status := if ok : bool then "200 OK"%string else "503 Service Unavailable"%string in
  body ← match body_cb with Some f => call c2 (f ok) | None => mret (if ok then yes else no) end;
  mret (mkRouteResponse status text_type body).

Definition route (request : HttpRequest) : H RouteResponse :=
  match classify_builtin_route (target request) with
  | kLogs => match logs_callback_ cbs with
             | Some r => body ← call CallLogs r; mret (mkRouteResponse "200 OK" text_type body)
             | None => mret not_found
             end
  | kMetrics =>
      body ← match callback_ cbs with
             | Some r => call CallMetrics r
             | None => mret ("# No callback registered" +:+ newline)
             end;
      mret (mkRouteResponse "200 OK" "text/plain; version=0.0.4" body)
  | kHealth => status_route (health_callback_ cbs) (health_body_callback_ cbs) CallHealth CallHealthBody
                 ("ok" +:+ newline) ("unhealthy" +:+ newline)
  | kReady => status_route (ready_callback_ cbs) (ready_body_callback_ cbs) CallReady CallReadyBody
                ("ready" +:+ newline) ("not ready" +:+ newline)
  | kNone =>
      match route_callback_ cbs with
      | Some f =>
          custom ← call CallRoute (f request);
          match custom with
          | Some (mkRouteResponse status content_type body) =>
              mret (mkRouteResponse
                      (if bool_decide (status = EmptyString) then "200 OK"%string else status)
                      (if bool_decide (content_type = EmptyString) then text_type else content_type) body)
          | None => mret not_found
          end
      | None => mret not_found
      end
  end.

(** The bytes of a response; the body of a HEAD request is left out. *)
Definition render (r : RouteResponse) (extra : list string) (is_head : bool) : string :=
  lines (["HTTP/1.1 " +:+ rr_status r; "Content-Type: " +:+ rr_content_type r;
          "Content-Length: " +:+ to_string (slen (rr_body r))] ++ extra ++ ["Connection: close"; EmptyString])
  +:+ (if is_head then EmptyString else rr_body r).

(** Access control and the response. *)
Definition serve (request : HttpRequest) : H unit :=
  (if negb (bool_decide (ip_allowlist cfg = ∅)) && negb (bool_decide (source_ip request ∈ ip_allowlist cfg))
   then emit (Counted record_http_auth_reject) ;; respond "403 Forbidden" [] "Forbidden" else mret tt) ;;
  (if negb (request_has_valid_token request (auth_token cfg))
   then emit (Counted record_http_auth_reject) ;;
        respond "401 Unauthorized" ["WWW-Authenticate: Bearer"%string] "Unauthorized"
   else mret tt) ;;
  let is_get := bool_decide (method request = "GET"%string) in
  let is_head := bool_decide (method request = "HEAD"%string) in
  let built_in := match classify_builtin_route (target request) with kNone => false | _ => true end in
  '(r, extra) ← (if built_in && negb is_get && negb is_head then
                   emit (Counted record_http_bad_request) ;;
                   mret (mkRouteResponse "405 Method Not Allowed" text_type ("Method Not Allowed" +:+ crlf),
                         ["Allow: GET, HEAD"%string])
                 else r ← route request; mret (r, []));
  write (render r extra is_head) ;;
  emit Closed.

Definition peer_ip : string :=
  match remote_ip env with
  | Some ip => if bool_decide (ip = EmptyString) then "unknown"%string else ip
  | None => "unknown"%string
  end.

(** The body of the handler. *)
Definition handle_request (fuel : nat) : H unit :=
  match read_headers fuel (header_polls env) 0 (header_timeout_ms cfg) EmptyString with
  | None => None
  | Some (_, inr e) => throw e
  | Some (_, inl kTimeout) => emit (Counted record_http_header_timeout) ;; emit Closed
  | Some (_, inl kTooLarge) => headers_too_large
  | Some (_, inl kEof) | Some (_, inl kError) => emit (Counted record_http_bad_request) ;; emit Closed
  | Some (request_buf, inl kOk) =>
      '(request, rest, content_length) ← parse_request request_buf;
      body ← receive_body fuel rest content_length;
      serve (mkHttpRequest (method request) (target request) (headers request) body peer_ip)
  end.

(** With the handlers of exceptions. *)
Definition handle_connection (fuel : nat) : option (list http_event) :=
  match handle_request fuel with
  | None => None
  | Some (evs, Threw StdException) => Some (evs ++ [Counted record_exception_recoverable; Closed])
  | Some (evs, Threw UnknownException) => Some (evs ++ [Counted record_exception_ignored; Closed])
  | Some (evs, _) => Some evs
  end.

End handler.

(** ** Accepting *)

(** [active_connections()]. *)
Definition on_accept (cfg : HttpHardeningConfig) (active : Z) : Z * list http_event * bool :=
  let active_now := u64 (active + 1) in
  if max_connections cfg <? active_now then
    let body := "Service Unavailable" +:+ crlf in
    (u64 (active_now - 1),
     [Counted record_http_connection_limit_reject;
      Written (lines ["HTTP/1.1 503 Service Unavailable"; "Content-Type: text/plain; charset=utf-8";
                      "Content-Length: " +:+ to_string (slen body); "Connection: close"; EmptyString] +:+ body);
      Closed], false)
  else (active_now, [], true).
