(* ===== verification/HttpServerProps.v ===== *)
(** Properties of the HTTP server: the read loops of a connection end in bounded time and
    the connection is closed once, callbacks run for authorised requests only, and a well-formed request
    is understood as it was sent. *)

From S2P Require Import Prelude Text ChatText GatewayConfig InstanceRegistry InstanceRegistryProps HttpServer.

(** ** The read loops *)

Lemma slen_append s1 s2 : slen (s1 +:+ s2) = slen s1 + slen s2.
Proof.
  induction s1 as [|c s1 IH]; [done|]. change (slen (String c (s1 +:+ s2)) = slen (String c s1) + slen s2).
  cbn [String.length]. lia.
Qed.

Lemma nonempty_length s : s <> EmptyString -> 1 <= slen s.
Proof. destruct s; [done|]. cbn. lia. Qed.

(** The documented behaviour of what the loops call: [sleep_for] lets at least its duration
    pass on the steady clock, which does not go back, and a read of available bytes that
    succeeds returns at least one. *)
Record polls_ok (polls : nat -> Poll) : Prop := {
  clock_start : 0 <= elapsed_ms (polls 0%nat);
  clock_mono i : elapsed_ms (polls i) <= elapsed_ms (polls (S i));
  clock_sleep i : available (polls i) = Some 0 -> elapsed_ms (polls i) + 1 <= elapsed_ms (polls (S i));
  read_some_bytes i n bytes :
    available (polls i) = Some n -> n <> 0 -> got (polls i) = Data bytes -> 1 <= slen bytes;
}.

Section loops.
  Context (polls : nat -> Poll) (Hpolls : polls_ok polls).

Lemma clock_nonneg i : 0 <= elapsed_ms (polls i).
Proof.
  induction i as [|i IH]; [by apply (clock_start _ Hpolls)|].
  pose proof (clock_mono _ Hpolls i). lia.
Qed.

(** The time that is left and the room that is left bound the rounds. *)
Lemma read_headers_total fuel i timeout_ms buf :
  slen buf <= kMaxHttpHeaderBytes ->
  Z.max 0 (timeout_ms - elapsed_ms (polls i)) + (kMaxHttpHeaderBytes - slen buf) + 1 <= Z.of_nat fuel ->
  exists buf' r, read_headers fuel polls i timeout_ms buf = Some (buf', r)
    /\ slen buf' <= kMaxHttpHeaderBytes /\ r <> inl kTooLarge
    /\ (r = inl kOk -> streambuf_contains buf' (crlf +:+ crlf) = true).
Proof.
  revert i buf. induction fuel as [|fuel IH]; intros i buf Hlen Hfuel; [lia|].
  cbn [read_headers]. destruct (streambuf_contains buf (crlf +:+ crlf)) eqn:Hc; [by eexists _, _|].
  destruct (Z.ltb_spec kMaxHttpHeaderBytes (slen buf)); [lia|].
  destruct (Z.leb_spec timeout_ms (elapsed_ms (polls i))); [by eexists _, _|].
  pose proof (clock_mono _ Hpolls i) as Hmono.
  destruct (available (polls i)) as [n|] eqn:Ha; [|by eexists _, _].
  destruct (Z.eqb_spec n 0) as [->|Hn].
  { pose proof (clock_sleep _ Hpolls i Ha). apply IH; lia. }
  destruct (got (polls i)) as [bytes| |] eqn:Hg; [|by eexists _, _..].
  pose proof (read_some_bytes _ Hpolls i n bytes Ha Hn Hg) as Hb.
  case_bool_decide as He; [subst; cbn in Hb; lia|].
  destruct (Z.ltb_spec kMaxHttpHeaderBytes (slen buf + slen bytes)); [by eexists _, _|].
  apply IH; rewrite slen_append; lia.
Qed.

Lemma read_body_total fuel i timeout_ms remaining body :
  Z.max 0 (timeout_ms - elapsed_ms (polls i)) + Z.max 0 remaining + 1 <= Z.of_nat fuel ->
  exists r, read_body fuel polls i timeout_ms remaining body = Some r.
Proof.
  revert i remaining body. induction fuel as [|fuel IH]; intros i remaining body Hfuel; [lia|].
  cbn [read_body]. destruct (Z.leb_spec remaining 0); [by eexists|].
  destruct (Z.leb_spec timeout_ms (elapsed_ms (polls i))); [by eexists|].
  pose proof (clock_mono _ Hpolls i) as Hmono.
  destruct (available (polls i)) as [n|] eqn:Ha; [|by eexists].
  destruct (Z.eqb_spec n 0) as [->|Hn].
  { pose proof (clock_sleep _ Hpolls i Ha). apply IH; lia. }
  destruct (got (polls i)) as [bytes| |] eqn:Hg; [|by eexists..].
  pose proof (read_some_bytes _ Hpolls i n bytes Ha Hn Hg). apply IH. lia.
Qed.
End loops.

(** ** The parser of headers is total *)

Lemma getline_length s line rest : getline s = Some (line, rest) -> (String.length rest < String.length s)%nat.
Proof.
  unfold getline. destruct s as [|c s]; [done|]. pose proof (take_until_length is_newline (String c s)) as Hl.
  destruct (take_until is_newline (String c s)) as [w [|c' r]]; intros [= <- <-]; cbn in *; lia.
Qed.

Lemma parse_headers_total fuel s count hs :
  (String.length s < fuel)%nat -> exists r, parse_headers fuel s count hs = Some r.
Proof.
  revert s count hs. induction fuel as [|fuel IH]; intros s count hs Hf; [lia|]. cbn [parse_headers].
  destruct (getline s) as [[line rest]|] eqn:Hg; [|by eexists]. apply getline_length in Hg.
  repeat (case_match; [by eexists|]). apply IH. lia.
Qed.

(** ** Events *)

(** Before the response: counters and callbacks only. *)
Definition quiet (evs : list http_event) : Prop :=
  Forall (fun ev => match ev with Written _ | Closed => False | _ => True end) evs.

(** The end of a connection: at most one response, and the socket is closed. *)
Definition finished (evs : list http_event) : Prop :=
  exists q, quiet q /\ (evs = q ++ [Closed] \/ exists bytes, evs = q ++ [Written bytes; Closed]).

Definition runs_quiet {A} (m : H A) (Q : A -> Prop) : Prop :=
  exists evs r, m = Some (evs, r)
    /\ match r with Value a => quiet evs /\ Q a | Returned => finished evs | Threw _ => quiet evs end.

Definition runs_to_end (m : H unit) : Prop :=
  exists evs r, m = Some (evs, r) /\ match r with Threw _ => quiet evs | _ => finished evs end.

Lemma quiet_app l1 l2 : quiet l1 -> quiet l2 -> quiet (l1 ++ l2).
Proof. intros. by apply Forall_app. Qed.

Lemma finished_app l1 l2 : quiet l1 -> finished l2 -> finished (l1 ++ l2).
Proof.
  intros Hq (q & Hq' & Hor). exists (l1 ++ q). split; [by apply quiet_app|].
  destruct Hor as [->|[b ->]]; [left|right; exists b]; by rewrite app_assoc.
Qed.

Lemma quiet_bind {A B} (m : H A) (f : A -> H B) Q R :
  runs_quiet m Q -> (forall a, Q a -> runs_quiet (f a) R) -> runs_quiet (m ≫= f) R.
Proof.
  intros (evs & r & -> & Hr) Hf. destruct r as [a| |e]; [|by eexists _, _..].
  destruct Hr as [Hq Ha]. destruct (Hf a Ha) as (evs' & r' & Hm & Hr'). unfold mbind, H_bind. rewrite Hm.
  eexists _, _. split; [done|]. destruct r'; [split; [apply quiet_app|]; tauto|by apply finished_app|by apply quiet_app].
Qed.

Lemma end_bind {A} (m : H A) (f : A -> H unit) Q :
  runs_quiet m Q -> (forall a, Q a -> runs_to_end (f a)) -> runs_to_end (m ≫= f).
Proof.
  intros (evs & r & -> & Hr) Hf. destruct r as [a| |e]; [|by eexists _, _..].
  destruct Hr as [Hq Ha]. destruct (Hf a Ha) as (evs' & r' & Hm & Hr'). unfold mbind, H_bind. rewrite Hm.
  eexists _, _. split; [done|]. destruct r'; [by apply finished_app..|by apply quiet_app].
Qed.

Lemma quiet_ret {A} (a : A) (Q : A -> Prop) : Q a -> runs_quiet (mret a) Q.
Proof. intros. eexists _, _. split; [done|]. split; [constructor|done]. Qed.

Lemma quiet_emit c (Q : unit -> Prop) : Q tt -> runs_quiet (emit (Counted c)) Q.
Proof. intros. eexists _, _. split; [done|]. split; [by repeat constructor|done]. Qed.

Lemma quiet_call {A} c (r : A + exn) : runs_quiet (call c r) (fun _ => True).
Proof. destruct r; eexists _, _; (split; [done|]); cbn; repeat constructor. Qed.

Create HintDb http.
#[export] Hint Resolve quiet_emit quiet_call : http.

Section shape.
  Context (cfg : HttpHardeningConfig) (cbs : Callbacks) (env : ConnectionEnv).

(** A canned response ends the handler. *)
Lemma quiet_respond status extra text (Q : unit -> Prop) : runs_quiet (respond env status extra text) Q.
Proof.
  unfold respond, write. destruct (write_ok env).
  - eexists _, Returned. split; [reflexivity|]. exists []. split; [constructor|]. right. by eexists.
  - eexists _, (Threw StdException). split; [reflexivity|constructor].
Qed.

Lemma quiet_count_respond c status extra text (Q : unit -> Prop) :
  runs_quiet (emit (Counted c) ;; respond env status extra text) Q.
Proof. eapply quiet_bind; [by apply (quiet_emit c (fun _ => True))|]. intros. apply quiet_respond. Qed.

Lemma quiet_guard b m Q : runs_quiet m Q -> Q tt -> runs_quiet (if b : bool then m else mret tt) Q.
Proof. intros. destruct b; [done|by apply quiet_ret]. Qed.

Lemma quiet_leave {A} (m : H unit) (Q : A -> Prop) :
  runs_quiet m (fun _ => False) -> runs_quiet (m ;; leave) Q.
Proof. intros Hm. eapply quiet_bind; [exact Hm|done]. Qed.

Lemma quiet_count_close {A} c (Q : A -> Prop) : runs_quiet (emit (Counted c) ;; emit Closed ;; leave) Q.
Proof.
  eexists _, Returned. split; [reflexivity|]. exists [Counted c]. split; [by repeat constructor|by left].
Qed.

Lemma parse_request_quiet buf :
  runs_quiet (parse_request cfg env buf) (fun '(_, _, content_length) => content_length <= Z.max 0 (max_body_bytes cfg)).
Proof.
  unfold parse_request, headers_too_large, bad_request.
  eapply (quiet_bind _ _ (fun _ => True)); [apply quiet_guard; [apply quiet_count_respond|done]|intros _ _].
  destruct (default _ _) as [line rest].
  eapply (quiet_bind _ _ (fun _ => True)); [apply quiet_guard; [apply quiet_count_respond|done]|intros _ _].
  destruct (next_word (drop_cr line)) as [m more1], (next_word more1) as [t more2], (next_word more2) as [v more3].
  do 2 (eapply (quiet_bind _ _ (fun _ => True)); [apply quiet_guard; [apply quiet_count_respond|done]|intros _ _]).
  destruct (parse_headers_total (S (String.length rest)) rest 0 ∅ ltac:(lia)) as [r ->].
  destruct r as [[hs rest']|]; [|apply quiet_leave, quiet_count_respond].
  eapply (quiet_bind _ _ (fun _ => True)).
  { destruct (hs !! _) as [v'|]; [|by apply quiet_ret].
    destruct (parse_content_length _); [by apply quiet_ret|apply quiet_leave, quiet_count_respond]. }
  intros n _. eapply (quiet_bind _ _ (fun _ => n <= Z.max 0 (max_body_bytes cfg))).
  - destruct (Z.ltb_spec (max_body_bytes cfg) n); [apply quiet_count_respond|apply quiet_ret; lia].
  - intros _ Hn. by apply quiet_ret.
Qed.

Lemma receive_body_quiet fuel rest n :
  polls_ok (body_polls env) -> Z.max 0 (body_timeout_ms cfg) + Z.max 0 n + 1 <= Z.of_nat fuel ->
  runs_quiet (receive_body cfg env fuel rest n) (fun _ => True).
Proof.
  intros Hp Hf. unfold receive_body. destruct (Z.ltb_spec 0 n); [|by apply quiet_ret].
  set (buffered := if _ : bool then _ else rest). destruct (Z.ltb_spec (slen buffered) n); [|by apply quiet_ret].
  destruct (read_body_total (body_polls env) Hp fuel 0 (body_timeout_ms cfg) (n - slen buffered) buffered) as [[b r] ->].
  { pose proof (clock_start _ Hp). lia. }
  destruct r; [by apply quiet_ret|apply quiet_count_close..].
Qed.

Lemma status_route_quiet cb body_cb c1 c2 yes no : runs_quiet (status_route cb body_cb c1 c2 yes no) (fun _ => True).
Proof.
  unfold status_route. eapply (quiet_bind _ _ (fun _ => True)).
  { destruct cb; [apply quiet_call|by apply quiet_ret]. }
  intros ok _. eapply (quiet_bind _ _ (fun _ => True)); [|intros; by apply quiet_ret].
  destruct body_cb; [apply quiet_call|by apply quiet_ret].
Qed.

Lemma route_quiet request : runs_quiet (route cbs request) (fun _ => True).
Proof.
  unfold route. destruct (classify_builtin_route _); try apply status_route_quiet.
  - destruct (route_callback_ cbs); [|by apply quiet_ret]. eapply (quiet_bind _ _ (fun _ => True)); [apply quiet_call|].
    intros [[]|] _; by apply quiet_ret.
  - eapply (quiet_bind _ _ (fun _ => True)); [|intros; by apply quiet_ret].
    destruct (callback_ cbs); [apply quiet_call|by apply quiet_ret].
  - destruct (logs_callback_ cbs); [|by apply quiet_ret].
    eapply (quiet_bind _ _ (fun _ => True)); [apply quiet_call|]. intros; by apply quiet_ret.
Qed.

Lemma write_end bytes : runs_to_end (write env bytes ;; emit Closed).
Proof.
  unfold write. destruct (write_ok env).
  - eexists _, (Value tt). split; [reflexivity|]. exists []. split; [constructor|]. right. by eexists.
  - eexists _, (Threw StdException). split; [reflexivity|constructor].
Qed.

Lemma serve_end request : runs_to_end (serve cfg cbs env request).
Proof.
  unfold serve.
  do 2 (eapply (end_bind _ _ (fun _ => True)); [apply quiet_guard; [apply quiet_count_respond|done]|intros _ _]).
  eapply (end_bind _ _ (fun _ => True)); [|intros [r extra] _; apply write_end].
  case_match.
  - eapply (quiet_bind _ _ (fun _ => True)); [by apply quiet_emit|]. intros; by apply quiet_ret.
  - eapply (quiet_bind _ _ (fun _ => True)); [apply route_quiet|]. intros; by apply quiet_ret.
Qed.

Lemma handle_request_end fuel :
  polls_ok (header_polls env) -> polls_ok (body_polls env) ->
  Z.max 0 (header_timeout_ms cfg) + kMaxHttpHeaderBytes + 1 <= Z.of_nat fuel ->
  Z.max 0 (body_timeout_ms cfg) + Z.max 0 (max_body_bytes cfg) + 1 <= Z.of_nat fuel ->
  runs_to_end (handle_request cfg cbs env fuel).
Proof.
  intros Hh Hb Hf1 Hf2. unfold handle_request.
  destruct (read_headers_total (header_polls env) Hh fuel 0 (header_timeout_ms cfg) EmptyString)
    as (buf & r & -> & _ & _ & _).
  { by vm_compute. }
  { pose proof (clock_start _ Hh). cbn [String.length]. lia. }
  assert (Hclose : forall c, runs_to_end (emit (Counted c) ;; emit Closed)).
  { intros c. eexists _, (Value tt). split; [reflexivity|]. exists [Counted c]. split; [by repeat constructor|by left]. }
  destruct r as [[]|e]; [|apply Hclose| |apply Hclose..|].
  - eapply end_bind; [apply parse_request_quiet|]. intros [[request rest] n] Hn.
    eapply end_bind; [apply receive_body_quiet; [done|lia]|]. intros body _. apply serve_end.
  - unfold headers_too_large. destruct (quiet_count_respond record_http_header_oversize
      "431 Request Header Fields Too Large" [] "Request Header Fields Too Large" (fun _ => False))
      as (evs & r & -> & Hr). exists evs, r. split; [done|]. by destruct r; [destruct Hr|..].
  - eexists _, (Threw e). split; [reflexivity|constructor].
Qed.

End shape.

(** ** Callbacks *)

Definition no_call (ev : http_event) : Prop := match ev with Called _ => False | _ => True end.

(** A computation that calls no callback. *)
Definition silent {A} (m : H A) : Prop := forall evs r, m = Some (evs, r) -> Forall no_call evs.

Lemma silent_bind {A B} (m : H A) (f : A -> H B) : silent m -> (forall a, silent (f a)) -> silent (m ≫= f).
Proof.
  intros Hm Hf evs r. unfold mbind, H_bind. destruct m as [[evs1 [a| |e]]|]; [|by intros [= <- <-]; eapply Hm..|done].
  specialize (Hm evs1 _ eq_refl). destruct (f a) as [[evs2 r2]|] eqn:Ef; [|done]. intros [= <- <-].
  apply Forall_app. split; [done|by eapply Hf].
Qed.

Lemma silent_events {A} evs (r : outcome A) : Forall no_call evs -> silent (Some (evs, r)).
Proof. intros Hevs ? ? [= <- <-]. done. Qed.

Lemma silent_ret {A} (a : A) : silent (mret a).
Proof. by apply silent_events. Qed.
Lemma silent_leave {A} : silent (leave : H A).
Proof. by apply silent_events. Qed.
Lemma silent_count c : silent (emit (Counted c)).
Proof. apply silent_events. by repeat constructor. Qed.
Lemma silent_close : silent (emit Closed).
Proof. apply silent_events. by repeat constructor. Qed.
Lemma silent_none {A} : silent (None : H A).
Proof. done. Qed.
Lemma silent_write env bytes : silent (write env bytes).
Proof. unfold write. case_match; apply silent_events; by repeat constructor. Qed.

#[export] Hint Resolve silent_ret silent_leave silent_count silent_close silent_none silent_write : http.

Lemma silent_respond env status extra text : silent (respond env status extra text).
Proof. unfold respond. repeat (apply silent_bind; [auto with http|intros _]). apply silent_leave. Qed.
#[export] Hint Resolve silent_respond : http.

Ltac silent :=
  repeat (case_match; simplify_eq) ;
  repeat (apply silent_bind; [|intros ?]); repeat case_match; auto with http.

Lemma silent_bad_request env : silent (bad_request env).
Proof. unfold bad_request. silent. Qed.
Lemma silent_too_large env : silent (headers_too_large env).
Proof. unfold headers_too_large. silent. Qed.
#[export] Hint Resolve silent_bad_request silent_too_large : http.

Lemma silent_parse_request cfg env buf : silent (parse_request cfg env buf).
Proof.
  unfold parse_request. apply silent_bind; [case_match; auto with http|intros _].
  destruct (default _ _) as [line rest]. apply silent_bind; [case_match; auto with http|intros _].
  destruct (next_word (drop_cr line)) as [m more1], (next_word more1) as [t more2], (next_word more2) as [v more3].
  apply silent_bind; [case_match; auto with http|intros _].
  apply silent_bind; [case_match; auto with http|intros _].
  { apply silent_bind; auto with http. }
  destruct (parse_headers _ _ _ _) as [[[hs rest']|]|]; auto with http.
  - apply silent_bind; [|intros n].
    + repeat case_match; auto with http. apply silent_bind; auto with http.
    + apply silent_bind; [case_match; auto with http|auto with http]. apply silent_bind; auto with http.
  - apply silent_bind; auto with http.
Qed.

Lemma silent_receive_body cfg env fuel rest n : silent (receive_body cfg env fuel rest n).
Proof.
  unfold receive_body. repeat case_match; auto with http; repeat (apply silent_bind; [auto with http|intros _]);
    auto with http.
Qed.
#[export] Hint Resolve silent_parse_request silent_receive_body : http.

Lemma silent_guard (b : bool) m : silent m -> silent (if b then m else mret tt).
Proof. destruct b; auto with http. Qed.

Lemma silent_not_called {A} (m : H A) evs r c : silent m -> m = Some (evs, r) -> Called c ∈ evs -> False.
Proof. intros Hm He Hin. specialize (Hm _ _ He). rewrite Forall_forall in Hm. by destruct (Hm _ Hin). Qed.

(** A call of a sequence is in the part that is not silent. *)
Lemma silent_then {A B} (m : H A) (f : A -> H B) evs r c :
  m ≫= f = Some (evs, r) -> Called c ∈ evs -> silent m ->
  exists evs1 a evs2, m = Some (evs1, Value a) /\ f a = Some (evs2, r) /\ Called c ∈ evs2.
Proof.
  intros He Hin Hm. unfold mbind, H_bind in He. destruct m as [[evs1 [a| |e]]|]; [| | |done].
  - destruct (f a) as [[evs2 r2]|] eqn:Ef; [|done]. injection He as <- <-. apply elem_of_app in Hin as [Hin|Hin].
    + by destruct (silent_not_called _ _ _ _ Hm eq_refl Hin).
    + by eexists _, a, _.
  - injection He as <- <-. by destruct (silent_not_called _ _ _ _ Hm eq_refl Hin).
  - injection He as <- <-. by destruct (silent_not_called _ _ _ _ Hm eq_refl Hin).
Qed.

Lemma then_silent {A B} (m : H A) (f : A -> H B) evs r c :
  m ≫= f = Some (evs, r) -> Called c ∈ evs -> (forall a, silent (f a)) ->
  exists evs1 r1, m = Some (evs1, r1) /\ Called c ∈ evs1.
Proof.
  intros He Hin Hf. unfold mbind, H_bind in He. destruct m as [[evs1 [a| |e]]|]; [| | |done].
  - destruct (f a) as [[evs2 r2]|] eqn:Ef; [|done]. injection He as <- <-. apply elem_of_app in Hin as [Hin|Hin].
    + by eexists _, _.
    + by destruct (silent_not_called _ _ _ _ (Hf a) Ef Hin).
  - injection He as <- <-. by eexists _, _.
  - injection He as <- <-. by eexists _, _.
Qed.

(** A canned response never goes on. *)
Lemma guard_passed (b : bool) (m : H unit) evs a :
  runs_quiet m (fun _ => False) -> (if b then m else mret tt) = Some (evs, Value a) -> b = false.
Proof.
  intros (evs' & r & Hm & Hr) Hg. destruct b; [|done]. rewrite Hm in Hg. injection Hg as -> ->. by destruct Hr.
Qed.

Lemma status_route_calls cb body_cb c1 c2 yes no evs r c :
  status_route cb body_cb c1 c2 yes no = Some (evs, r) -> Called c ∈ evs -> c = c1 \/ c = c2.
Proof.
  unfold status_route. destruct cb as [[ok|e]|], body_cb as [f|]; cbn; try destruct (f _); intros [= <- <-];
    set_solver.
Qed.

Lemma route_calls cbs request evs r c :
  route cbs request = Some (evs, r) -> Called c ∈ evs ->
  c = CallRoute \/ classify_builtin_route (target request) <> kNone.
Proof.
  unfold route. destruct (classify_builtin_route (target request)) eqn:Hc; [|by right..].
  destruct (route_callback_ cbs) as [f|]; cbn.
  - destruct (f request) as [[[]|]|e]; cbn; intros [= <- <-]; set_solver.
  - intros [= <- <-]. set_solver.
Qed.

Lemma serve_called cfg cbs env request evs r c :
  serve cfg cbs env request = Some (evs, r) -> Called c ∈ evs ->
  (ip_allowlist cfg = ∅ \/ source_ip request ∈ ip_allowlist cfg)
  /\ request_has_valid_token request (auth_token cfg) = true
  /\ (c = CallRoute \/ method request = "GET"%string \/ method request = "HEAD"%string).
Proof.
  intros Hs Hin. unfold serve in Hs.
  destruct (silent_then _ _ _ _ _ Hs Hin) as (e1 & [] & e2 & Hg1 & Hs1 & Hin1).
  { apply silent_guard, silent_bind; auto with http. }
  destruct (silent_then _ _ _ _ _ Hs1 Hin1) as (e3 & [] & e4 & Hg2 & Hs2 & Hin2).
  { apply silent_guard, silent_bind; auto with http. }
  apply guard_passed in Hg1; [|apply quiet_count_respond]. apply guard_passed in Hg2; [|apply quiet_count_respond].
  apply negb_false_iff in Hg2. split_and!; [|done|].
  - destruct (bool_decide_reflect (ip_allowlist cfg = ∅)); [by left|]. cbn in Hg1.
    apply negb_false_iff, bool_decide_eq_true in Hg1. by right.
  - destruct (then_silent _ _ _ _ _ Hs2 Hin2) as (e5 & r5 & Hs3 & Hin3).
    { intros [rr extra]. apply silent_bind; auto with http. }
    destruct (_ && _ && _) eqn:Hm in Hs3.
    { eapply silent_not_called in Hin3; [done| |exact Hs3]. apply silent_bind; auto with http. }
    destruct (then_silent _ _ _ _ _ Hs3 Hin3) as (e6 & r6 & Hr & Hin4); [auto with http|].
    destruct (route_calls _ _ _ _ _ Hr Hin4) as [->|Hc]; [by left|right].
    destruct (bool_decide_reflect (method request = "GET"%string)); [by left|].
    destruct (bool_decide_reflect (method request = "HEAD"%string)); [by right|].
    exfalso. by destruct (classify_builtin_route (target request)).
Qed.

(** ** Requests as they are sent *)

Definition has_none (f : Ascii.ascii -> bool) (s : string) : Prop := Forall (fun c => f c = false) (chars_of s).

#[export] Instance has_none_dec f s : Decision (has_none f s).
Proof. unfold has_none. apply _. Defined.

(** A word of the request line, and a header: a normalised name and a trimmed value. *)
Definition word (s : string) : Prop := s <> EmptyString /\ has_none isspace s.
Definition header_ok (h : string * string) : Prop :=
  let '(name, value) := h in
  name <> EmptyString /\ to_lower_ascii (trim_ascii name) = name /\ has_none is_colon name
  /\ has_none is_newline name /\ trim_ascii value = value /\ has_none is_newline value.

Definition header_line (h : string * string) : string := h.1 +:+ ": " +:+ h.2.
Definition header_lines (hs : list (string * string)) : string :=
  foldr (fun h acc => header_line h +:+ crlf +:+ acc) EmptyString hs.
Definition request_line (m t v : string) : string := m +:+ " " +:+ t +:+ " " +:+ v.
Definition request_text (m t v : string) (hs : list (string * string)) (b : string) : string :=
  request_line m t v +:+ crlf +:+ header_lines hs +:+ crlf +:+ b.

(** The last header of a name counts. *)
Definition headers_of (hs : list (string * string)) (acc : gmap string string) : gmap string string :=
  fold_left (fun m h => <[h.1 := h.2]> m) hs acc.

Lemma append_assoc (a b c : string) : (a +:+ b) +:+ c = a +:+ (b +:+ c).
Proof. induction a as [|x a IH]; [done|]. by apply (f_equal (String x)). Qed.

Lemma has_none_app f a b : has_none f a -> has_none f b -> has_none f (a +:+ b).
Proof. unfold has_none. rewrite chars_of_app. intros. by apply Forall_app. Qed.

Lemma take_until_app f a c b :
  has_none f a -> f c = true -> take_until f (a +:+ String c b) = (a, String c b).
Proof.
  intros Ha Hc. rewrite <- (str_chars (a +:+ String c b)), chars_of_app.
  change (chars_of (String c b)) with (c :: chars_of b). by rewrite take_until_str, !str_chars.
Qed.

Lemma take_until_none f a : has_none f a -> take_until f a = (a, EmptyString).
Proof.
  induction a as [|c a IH]; [done|]. intros [Hc Ha]%Forall_cons. cbn [take_until]. rewrite Hc.
  by rewrite IH.
Qed.

Lemma skip_word s rest : word s -> skip_while isspace (s +:+ rest) = s +:+ rest.
Proof.
  intros [Hne Hs]. destruct s as [|c s]; [done|]. apply Forall_cons in Hs as [Hc _].
  change (String c s +:+ rest) with (String c (s +:+ rest)). cbn [skip_while]. by rewrite Hc.
Qed.

Lemma skip_blank s : skip_while isspace (" " +:+ s) = skip_while isspace s.
Proof. done. Qed.

Lemma next_word_first s rest : word s -> next_word (s +:+ " " +:+ rest) = (s, " " +:+ rest).
Proof. intros Hs. unfold next_word. rewrite skip_word by done. by apply take_until_app; [apply Hs|]. Qed.

Lemma next_word_blank s rest : word s -> next_word (" " +:+ s +:+ " " +:+ rest) = (s, " " +:+ rest).
Proof. intros Hs. unfold next_word. rewrite skip_blank. by apply next_word_first. Qed.

Lemma next_word_last s : word s -> next_word (" " +:+ s) = (s, EmptyString).
Proof.
  intros Hs. unfold next_word. rewrite skip_blank. rewrite <- (append_empty s) at 1.
  rewrite skip_word by done. rewrite append_empty. apply take_until_none, Hs.
Qed.

Lemma getline_crlf line rest :
  has_none is_newline line -> getline (line +:+ crlf +:+ rest) = Some (line +:+ str [ascii_of_byte 13], rest).
Proof.
  intros Hl. unfold getline.
  change (crlf +:+ rest) with (str [ascii_of_byte 13] +:+ String (ascii_of_byte 10) rest).
  rewrite <- append_assoc, take_until_app; [by destruct line|apply has_none_app; [done|by repeat constructor]|done].
Qed.

Lemma drop_cr_app line : drop_cr (line +:+ str [ascii_of_byte 13]) = line.
Proof.
  induction line as [|c line IH]; [done|].
  change (String c line +:+ str [ascii_of_byte 13]) with (String c (line +:+ str [ascii_of_byte 13])).
  cbn [drop_cr]. rewrite IH. by destruct line.
Qed.

Lemma trim_blank v : trim_ascii (" " +:+ v) = trim_ascii v.
Proof. done. Qed.

Lemma add_header_line h hs : header_ok h -> add_header (header_line h) hs = <[h.1 := h.2]> hs.
Proof.
  destruct h as [n v]. intros (Hne & Hn & Hcol & _ & Hv & _). unfold add_header, header_line. cbn [fst snd].
  change (": " +:+ v) with (String (ascii_of_byte 58) (" " +:+ v)). rewrite take_until_app by done.
  rewrite Hn, trim_blank, Hv. by rewrite bool_decide_eq_false_2.
Qed.

Lemma header_line_newline h : header_ok h -> has_none is_newline (header_line h).
Proof.
  destruct h as [n v]. intros (_ & _ & _ & Hn & _ & Hv). apply has_none_app; [done|].
  apply has_none_app; [by repeat constructor|done].
Qed.

Lemma parse_headers_lines fuel hs b count acc :
  Forall header_ok hs -> (length hs < fuel)%nat -> 0 <= count -> count + zlen hs <= kMaxHttpHeaderCount ->
  parse_headers fuel (header_lines hs +:+ crlf +:+ b) count acc = Some (Some (headers_of hs acc, b)).
Proof.
  intros Hhs. revert fuel count acc. induction Hhs as [|h hs Hh Hhs IH]; intros fuel count acc Hf H0 Hc;
    (destruct fuel as [|fuel]; [cbn in Hf; lia|]); cbn [parse_headers header_lines foldr].
  - change (EmptyString +:+ crlf +:+ b) with (EmptyString +:+ (crlf +:+ b)). rewrite getline_crlf by constructor.
    by rewrite drop_cr_app.
  - fold (header_lines hs). rewrite !append_assoc, getline_crlf by (by apply header_line_newline).
    rewrite drop_cr_app. cbn [length] in *.
    rewrite bool_decide_eq_false_2 by (destruct h as [n v]; destruct n; [destruct Hh; done|done]).
    destruct (Z.ltb_spec kMaxHttpHeaderCount (count + 1)); [lia|].
    rewrite add_header_line by done. by rewrite IH by lia.
Qed.

(** ** Theorems *)

(** C24. Every connection comes to its end.  Whatever the client sends, however slowly, and
    whatever the callbacks return or throw, the handler stops: the number of rounds of its
    loops is bounded by the time limits and the size limits.  It then has written at most
    one response and has closed the socket, once, as its last action.  A call of a callback
    and the write of the response count as one action each, with the result they end with;
    how long they take is not covered. *)
Theorem http_connection_terminates cfg cbs env fuel :
  polls_ok (header_polls env) -> polls_ok (body_polls env) ->
  Z.max 0 (header_timeout_ms cfg) + kMaxHttpHeaderBytes + 1 <= Z.of_nat fuel ->
  Z.max 0 (body_timeout_ms cfg) + Z.max 0 (max_body_bytes cfg) + 1 <= Z.of_nat fuel ->
  exists evs, handle_connection cfg cbs env fuel = Some evs /\ finished evs.
Proof.
  intros Hh Hb Hf1 Hf2. destruct (handle_request_end cfg cbs env fuel Hh Hb Hf1 Hf2) as (evs & r & Hr & Hevs).
  unfold handle_connection. rewrite Hr. destruct r as [[]| |[]]; [by exists evs..| |].
  - eexists. split; [done|]. apply finished_app; [done|]. exists [Counted record_exception_recoverable].
    split; [by repeat constructor|by left].
  - eexists. split; [done|]. apply finished_app; [done|]. exists [Counted record_exception_ignored].
    split; [by repeat constructor|by left].
Qed.

(** A client that sends its request in two pieces, with a pause. *)
Definition two_pieces (a b : string) (i : nat) : Poll :=
  match i with
  | O => mkPoll 0 (Some (slen a)) (Data a)
  | S O => mkPoll 1 (Some 0) Eof
  | S (S O) => mkPoll 2 (Some (slen b)) (Data b)
  | _ => mkPoll (Z.of_nat i) (Some 0) Eof
  end.

Lemma two_pieces_ok a b : a <> EmptyString -> b <> EmptyString -> polls_ok (two_pieces a b).
Proof.
  intros Ha Hb. pose proof (nonempty_length a Ha). pose proof (nonempty_length b Hb). constructor.
  - done.
  - intros [|[|[|i]]]; cbn; lia.
  - intros [|[|[|i]]]; cbn; try lia; intros [= ?]; lia.
  - intros [|[|[|i]]] n bytes [= <-] ? [= <-]; lia.
Qed.

Definition sample_cfg : HttpHardeningConfig := hardening_config (fun _ => None).
Definition sample_callbacks : Callbacks :=
  mkCallbacks (Some (inl "up 1"%string)) None None None None None None.
Definition sample_env : ConnectionEnv :=
  mkConnectionEnv (two_pieces "GET /metr" ("ics HTTP/1.1" +:+ crlf +:+ crlf)) (two_pieces "x" "y") true (Some "10.0.0.9"%string).

Lemma http_connection_terminates_witness :
  exists evs, handle_connection sample_cfg sample_callbacks sample_env (Z.to_nat 80000) = Some evs /\ finished evs
    /\ evs = [Called CallMetrics;
              Written (lines ["HTTP/1.1 200 OK"; "Content-Type: text/plain; version=0.0.4"; "Content-Length: 4";
                              "Connection: close"; EmptyString]%string +:+ "up 1"); Closed].
Proof.
  destruct (http_connection_terminates sample_cfg sample_callbacks sample_env (Z.to_nat 80000)) as (evs & He & Hf);
    [by apply two_pieces_ok|by apply two_pieces_ok|by vm_compute|by vm_compute|].
  exists evs. split; [done|]. split; [done|]. clear Hf. vm_compute in He. injection He as <-. by vm_compute.
Defined.

(** C25. Callbacks run for authorised requests only.  When a connection reaches a callback of the
    embedding program, the header of a request was received and understood, the address of
    the peer is allowed, the request carries the token that is configured, and a built-in
    page was asked for with GET or HEAD. *)
Theorem http_callbacks_authorised cfg cbs env fuel evs c :
  handle_connection cfg cbs env fuel = Some evs -> Called c ∈ evs ->
  (ip_allowlist cfg = ∅ \/ peer_ip env ∈ ip_allowlist cfg)
  /\ exists buf evs1 request rest n,
       read_headers fuel (header_polls env) 0 (header_timeout_ms cfg) EmptyString = Some (buf, inl kOk)
       /\ parse_request cfg env buf = Some (evs1, Value (request, rest, n))
       /\ request_has_valid_token request (auth_token cfg) = true
       /\ (c = CallRoute \/ method request = "GET"%string \/ method request = "HEAD"%string).
Proof.
  intros Hh Hin. assert (Hr : exists evs' r, handle_request cfg cbs env fuel = Some (evs', r) /\ Called c ∈ evs').
  { unfold handle_connection in Hh. destruct (handle_request cfg cbs env fuel) as [[evs' r]|]; [|done].
    exists evs', r. split; [done|]. destruct r as [[]| |[]]; simplify_eq; [done..| |]; set_solver. }
  clear Hh Hin. destruct Hr as (evs' & r & Hr & Hin). unfold handle_request in Hr.
  destruct (read_headers _ _ _ _ _) as [[buf [[]|e]]|] eqn:Hb; [| | | | | |done].
  2-6: exfalso; eapply silent_not_called in Hin; [done| |exact Hr];
    first [apply silent_too_large|by apply silent_events|apply silent_bind; auto with http].
  destruct (silent_then _ _ _ _ _ Hr Hin (silent_parse_request _ _ _)) as (e1 & [[request rest] n] & e2 & Hp & Hr1 & Hin1).
  destruct (silent_then _ _ _ _ _ Hr1 Hin1 (silent_receive_body _ _ _ _ _)) as (e3 & body & e4 & _ & Hs & Hin2).
  destruct (serve_called _ _ _ _ _ _ _ Hs Hin2) as (Hip & Htok & Hm). split; [done|].
  exists buf, e1, request, rest, n. split_and!; done.
Qed.

Lemma http_callbacks_authorised_witness :
  let cfg := mkHttpHardeningConfig 64 1024 5000 5000 "s3cret" {["10.0.0.9"%string]} in
  let env := mkConnectionEnv (two_pieces "GET /metr" ("ics HTTP/1.1" +:+ crlf +:+ "Authorization: Bearer s3cret" +:+ crlf +:+ crlf))
               (two_pieces "x" "y") true (Some "10.0.0.9"%string) in
  exists evs, handle_connection cfg sample_callbacks env 10 = Some evs /\ Called CallMetrics ∈ evs
    /\ (ip_allowlist cfg = ∅ \/ peer_ip env ∈ ip_allowlist cfg).
Proof.
  intros cfg env. destruct (handle_connection cfg sample_callbacks env 10) as [evs|] eqn:He; [|by vm_compute in He].
  assert (Hin : Called CallMetrics ∈ evs).
  { vm_compute in He. injection He as <-. by left. }
  exists evs. split; [done|]. split; [done|].
  apply (http_callbacks_authorised cfg sample_callbacks env 10 evs CallMetrics He Hin).
Defined.

Lemma header_lines_length hs : (length hs <= String.length (header_lines hs))%nat.
Proof.
  induction hs as [|h hs IH]; [done|]. cbn [header_lines foldr length]. fold (header_lines hs).
  pose proof (slen_append (header_line h) (crlf +:+ header_lines hs)) as H1.
  pose proof (slen_append crlf (header_lines hs)) as H2. change (slen crlf) with 2 in H2. lia.
Qed.

Lemma word_newline s : word s -> has_none is_newline s.
Proof.
  intros [_ Hs]. eapply Forall_impl; [exact Hs|]. intros c Hc. unfold isspace, is_newline in *.
  destruct (Z.eqb_spec (byte_of_ascii c) 10) as [E|]; [by rewrite E in Hc|done].
Qed.

Lemma request_line_newline m t v : word m -> word t -> word v -> has_none is_newline (request_line m t v).
Proof.
  intros. assert (has_none is_newline " ") by (by repeat constructor).
  unfold request_line. do 4 (apply has_none_app; [by auto using word_newline|]). by apply word_newline.
Qed.

Lemma slen_nonneg s : 0 <= slen s.
Proof. lia. Qed.

(** A request is understood as it was sent: from the bytes of a request line of three words,
    at most 64 headers with normalised names and trimmed values, an empty line and the
    beginning of a body, within the limits of size, the parser gives the method, the target,
    the headers (the last one of each name), what follows, and the length of the body that
    the headers announce, without a response or a counter. *)
Theorem http_request_roundtrip cfg env m t v hs b n :
  word m -> word t -> word v -> Forall header_ok hs -> zlen hs <= kMaxHttpHeaderCount ->
  slen (request_line m t v) <= kMaxHttpRequestLineBytes -> slen (request_text m t v hs b) <= kMaxHttpHeaderBytes ->
  headers_of hs ∅ !! "content-length"%string = Some (to_string n) -> 0 <= n <= max_body_bytes cfg -> n < 2 ^ 64 ->
  parse_request cfg env (request_text m t v hs b)
  = Some ([], Value (mkHttpRequest m t (headers_of hs ∅) EmptyString EmptyString, b, n)).
Proof.
  intros Hm Ht Hv Hhs Hcount Hline Hlen Hcl Hn H64. unfold parse_request.
  destruct (Z.ltb_spec kMaxHttpHeaderBytes (slen (request_text m t v hs b))); [lia|].
  unfold request_text. rewrite getline_crlf.
  2: { by apply request_line_newline. }
  cbn [default from_option Datatypes.id mbind H_bind mret H_ret]. rewrite drop_cr_app.
  assert (Hne : request_line m t v <> EmptyString) by (destruct Hm as [? _]; by destruct m).
  rewrite bool_decide_eq_false_2 by done.
  destruct (Z.ltb_spec kMaxHttpRequestLineBytes (slen (request_line m t v))); [lia|]. cbn [orb].
  unfold request_line in *. rewrite next_word_first, next_word_blank, next_word_last by done.
  destruct Hm as [Hm _], Hv as [Hv _]. pose proof Ht as [Htne _].
  rewrite !bool_decide_eq_false_2 by done. cbn [orb].
  destruct (Z.ltb_spec kMaxHttpTargetBytes (slen t)).
  { rewrite !slen_append in Hline. unfold kMaxHttpTargetBytes, kMaxHttpRequestLineBytes in *.
    pose proof (slen_nonneg m). pose proof (slen_nonneg v). change (slen " ") with 1 in *. lia. }
  rewrite parse_headers_lines by (done || lia || (pose proof (header_lines_length hs);
    pose proof (slen_append (header_lines hs) (crlf +:+ b)); lia)).
  rewrite Hcl. unfold parse_content_length, to_string.
  destruct (decimal_digits n ltac:(lia)) as (Hds & _ & Hnd).
  assert (Htrim : trim_ascii (str (decimal n)) = str (decimal n)).
  { pose proof (trim_edges isspace [] (decimal n) []) as Htr. rewrite app_nil_r in Htr. apply Htr; [constructor..|].
    apply digits_edges; [|done..]. intros c Hc. by apply digit10_plain. }
  rewrite Htrim, bool_decide_eq_false_2, stoull_decimal by (done || (by destruct (decimal n)) || (widths; lia)).
  cbn. destruct (Z.ltb_spec (max_body_bytes cfg) n); [lia|done].
Qed.

Lemma http_request_roundtrip_witness :
  let hs := [("host"%string, "gw-1"%string); ("content-length"%string, "3"%string)] in
  parse_request sample_cfg sample_env (request_text "POST" "/admin" "HTTP/1.1" hs "abc")
  = Some ([], Value (mkHttpRequest "POST" "/admin" (headers_of hs ∅) EmptyString EmptyString, "abc"%string, 3)).
Proof.
  apply (http_request_roundtrip sample_cfg sample_env "POST" "/admin" "HTTP/1.1"
    [("host"%string, "gw-1"%string); ("content-length"%string, "3"%string)] "abc" 3);
    try (by vm_compute); try (by split; [|apply (bool_decide_unpack (has_none _ _)); vm_compute]).
  repeat constructor; try done; try (by vm_compute); by apply (bool_decide_unpack (has_none _ _)); vm_compute.
Defined.

(** A header beyond the limit is never answered with 431: the buffer is created with the
    limit as its maximum, so that the read that would pass it throws, the test for a larger
    buffer is never true, and the connection is dropped and counted as an exception. *)
Lemma oversized_header_not_answered :
  let chunk := str (repeat (ascii_of_byte 97) 1024) in
  let env := mkConnectionEnv (fun i => mkPoll 0 (Some 1024) (Data chunk)) (two_pieces "x" "y") true None in
  handle_connection sample_cfg sample_callbacks env 20
  = Some [Counted record_exception_recoverable; Closed].
Proof. vm_compute. reflexivity. Qed.

Lemma headers_never_too_large polls fuel timeout_ms buf :
  polls_ok polls -> Z.max 0 timeout_ms + kMaxHttpHeaderBytes + 1 <= Z.of_nat fuel ->
  read_headers fuel polls 0 timeout_ms EmptyString <> Some (buf, inl kTooLarge).
Proof.
  intros Hp Hf. destruct (read_headers_total polls Hp fuel 0 timeout_ms EmptyString) as (b & r & -> & _ & Hr & _).
  - by vm_compute.
  - pose proof (clock_start _ Hp). cbn [String.length]. lia.
  - by intros [= _ ->].
Qed.
