(* ===== verification/Metrics.v ===== *)
(** The metrics registry, [core/metrics/metrics.hpp] and [metrics.cpp]: counters, gauges
    and histograms with labelled series, and the page in the Prometheus text format.

    A metric is used under its own mutex and the registry under another one, so each
    operation is a function of the registry.  A [double] is that of [Resilience.v].

    The theorems: a series is identified by its labels in any order,
    the page shows each series once with the sum of what was counted, and the buckets of a
    histogram are cumulative. *)

From stdpp Require Import sorting.
From Stdlib Require Import SpecFloat.
From S2P Require Import Prelude Text ChatText Resilience RuntimeMetrics InstanceRegistryProps HttpServerProps.

(** ** Labels *)

Abbreviation Label := (string * string)%type.

Definition backslash : Ascii.ascii := ascii_of_byte 92.

Definition escape_char (ch : Ascii.ascii) : string :=
  let b := byte_of_ascii ch in
  if b =? 92 then str [backslash; backslash]
  else if b =? 34 then str [backslash; ascii_of_byte 34]
  else if b =? 10 then str [backslash; ascii_of_byte 110]
  else if b =? 13 then str [backslash; ascii_of_byte 114]
  else if b =? 9 then str [backslash; ascii_of_byte 116]
  else str [ch].

Fixpoint escape_prometheus_label_value (value : string) : string :=
  match value with
  | EmptyString => EmptyString
  | String ch value => escape_char ch +:+ escape_prometheus_label_value value
  end.

Definition label_le (lhs rhs : Label) : Prop :=
  (if bool_decide (lhs.1 = rhs.1) then String.leb lhs.2 rhs.2 else String.leb lhs.1 rhs.1) = true.

#[export] Instance label_le_dec a b : Decision (label_le a b).
Proof. unfold label_le. apply _. Defined.

Definition normalize_labels (labels : list Label) : list Label := merge_sort label_le labels.

Fixpoint make_label_key (labels : list Label) : string :=
  match labels with
  | [] => EmptyString
  | (name, value) :: labels =>
      name +:+ str [ascii_of_byte 0x1f] +:+ value +:+ str [ascii_of_byte 0x1e] +:+ make_label_key labels
  end.

Fixpoint label_texts (first : bool) (labels : list Label) : string :=
  match labels with
  | [] => EmptyString
  | (name, value) :: labels =>
      (if first then EmptyString else ","%string) +:+ name +:+ "=" +:+ quote
      +:+ escape_prometheus_label_value value +:+ quote +:+ label_texts false labels
  end.
Definition make_label_text (labels : list Label) : string := label_texts true labels.

(** ** Numbers

    [stream << std::setprecision(15) << value]: the conversion [%.15g], which rounds the
    exact value to fifteen digits, drops the trailing zeros, and uses an exponent when the
    first digit stands at a power of ten below -4 or above 14. *)

Definition round_half_even (num den : Z) : Z :=
  let q := num / den in
  let r := 2 * (num mod den) in
  if (den <? r) || ((r =? den) && Z.odd q) then q + 1 else q.

(** The power of ten of the first digit of [num / den], which is at least [10 ^ -400]. *)
Definition decimal_exponent (num den : Z) : Z := zlen (decimal (num * 10 ^ 400 / den)) - 1 - 400.

Definition scaled (num den k : Z) : Z :=
  if 0 <=? k then round_half_even (num * 10 ^ k) den else round_half_even num (den * 10 ^ (- k)).

Definition fifteen_digits (num den : Z) : Z * Z :=
  let x := decimal_exponent num den in
  let q := scaled num den (14 - x) in
  if q =? 10 ^ 15 then (10 ^ 14, x + 1) else (q, x).

Fixpoint drop_zeros (rev_digits : chars) : chars :=
  match rev_digits with
  | c :: rest => if byte_of_ascii c =? 48 then drop_zeros rest else rev_digits
  | [] => []
  end.
Definition strip_zeros (digits : chars) : chars := rev (drop_zeros (rev digits)).

Definition with_fraction (whole fraction : chars) : chars :=
  match strip_zeros fraction with [] => whole | f => whole ++ ascii_of_byte 46 :: f end.

Definition exponent_text (x : Z) : chars :=
  let d := decimal (Z.abs x) in
  ascii_of_byte 101 :: ascii_of_byte (if x <? 0 then 45 else 43)
  :: (if zlen d <? 2 then ascii_of_byte 48 :: d else d).

Definition format_positive (num den : Z) : chars :=
  let '(q, x) := fifteen_digits num den in
  let digits := decimal q in
  if (x <? -4) || (15 <=? x) then with_fraction (take 1 digits) (drop 1 digits) ++ exponent_text x
  else if 0 <=? x then with_fraction (take (Z.to_nat (x + 1)) digits) (drop (Z.to_nat (x + 1)) digits)
  else with_fraction [ascii_of_byte 48] (replicate (Z.to_nat (- x - 1)) (ascii_of_byte 48) ++ digits).

(** A NaN of the model has no sign. *)
Definition format_double (value : double) : string :=
  let sign (s : bool) : string := if s then "-" else EmptyString in
  match value with
  | S754_zero s => sign s +:+ "0"
  | S754_infinity s => sign s +:+ "inf"
  | S754_nan => "nan"
  | S754_finite s m e => sign s +:+ str (format_positive (Zpos m * 2 ^ (Z.max e 0)) (2 ^ (Z.max (- e) 0)))
  end.

(** ** Series *)

Record Series := mkSeries { s_value : double; s_labels : string }.
Record HistogramSeries := mkHistogramSeries {
  bucket_counts : list Z;
  h_count : Z;
  h_sum : double;
  h_labels : string;
}.

Definition f_zero : double := S754_zero false.
Definition new_Series : Series := mkSeries f_zero EmptyString.
Definition new_HistogramSeries : HistogramSeries := mkHistogramSeries (replicate 10 0) 0 f_zero EmptyString.

(** A literal [n / 10 ^ k]: the closest [double]. *)
Definition f_ratio (n d : Z) : double := fdiv (f_of_Z n) (f_of_Z d).
Definition kHistogramUpperBounds : list double :=
  Eval vm_compute in
  [f_ratio 1 10; f_ratio 5 10; f_of_Z 1; f_ratio 25 10; f_of_Z 5; f_of_Z 10; f_of_Z 25; f_of_Z 50;
   f_of_Z 100; f_of_Z 250].

(** [if (series.labels.empty()) series.labels = label_text]. *)
Definition first_text (labels label_text : string) : string :=
  if bool_decide (labels = EmptyString) then label_text else labels.

Record CounterImpl := mkCounterImpl { c_name : string; c_series : gmap string Series }.
Record GaugeImpl := mkGaugeImpl { g_name : string; g_series : gmap string Series }.
Record HistogramImpl := mkHistogramImpl { h_name : string; h_series : gmap string HistogramSeries }.

Definition update_series (f : double -> double) (labels : list Label) (m : gmap string Series) : gmap string Series :=
  let normalized := normalize_labels labels in
  let key := make_label_key normalized in
  let series := default new_Series (m !! key) in
  <[key := mkSeries (f (s_value series)) (first_text (s_labels series) (make_label_text normalized))]> m.

Definition counter_inc (value : double) (labels : list Label) (c : CounterImpl) : CounterImpl :=
  if SFltb value f_zero then c
  else mkCounterImpl (c_name c) (update_series (fun v => fadd v value) labels (c_series c)).

Definition gauge_set (value : double) (labels : list Label) (g : GaugeImpl) : GaugeImpl :=
  mkGaugeImpl (g_name g) (update_series (fun _ => value) labels (g_series g)).
Definition gauge_inc (value : double) (labels : list Label) (g : GaugeImpl) : GaugeImpl :=
  mkGaugeImpl (g_name g) (update_series (fun v => fadd v value) labels (g_series g)).
Definition gauge_dec (value : double) (labels : list Label) (g : GaugeImpl) : GaugeImpl :=
  mkGaugeImpl (g_name g) (update_series (fun v => fsub v value) labels (g_series g)).

(** The loop over the bounds: a bucket counts the values up to its bound. *)
Fixpoint count_buckets (value : double) (bounds : list double) (counts : list Z) : list Z :=
  match bounds, counts with
  | bound :: bounds, n :: counts =>
      (if SFleb value bound then u64 (n + 1) else n) :: count_buckets value bounds counts
  | _, counts => counts
  end.

Definition observe (value : double) (labels : list Label) (h : HistogramImpl) : HistogramImpl :=
  let normalized := normalize_labels labels in
  let key := make_label_key normalized in
  let series := default new_HistogramSeries (h_series h !! key) in
  mkHistogramImpl (h_name h)
    (<[key := mkHistogramSeries (count_buckets value kHistogramUpperBounds (bucket_counts series))
                (u64 (h_count series + 1)) (fadd (h_sum series) value)
                (first_text (h_labels series) (make_label_text normalized))]> (h_series h)).

(** ** The page *)

Definition append_sample_line (metric_name labels value : string) : string :=
  metric_name +:+ (if bool_decide (labels = EmptyString) then EmptyString else "{" +:+ labels +:+ "}")
  +:+ " " +:+ value +:+ newline.

Definition row_le {A} (lhs rhs : string * A) : Prop := String.leb lhs.1 rhs.1 = true.

#[export] Instance row_le_dec {A} (a b : string * A) : Decision (row_le a b).
Proof. unfold row_le. apply _. Defined.

(** The entries of an [unordered_map], sorted by key. *)
Definition sorted_rows {A} (m : gmap string A) : list (string * A) := merge_sort row_le (map_to_list m).

Definition type_line (name kind : string) : string := "# TYPE " +:+ name +:+ " " +:+ kind +:+ newline.
Definition concat_lines (ls : list string) : string := foldr String.append EmptyString ls.

Definition append_series (name kind : string) (m : gmap string Series) : string :=
  type_line name kind
  +:+ concat_lines (map (fun row => append_sample_line name (s_labels row.2) (format_double (s_value row.2))) (sorted_rows m)).
Definition counter_append (c : CounterImpl) : string := append_series (c_name c) "counter" (c_series c).
Definition gauge_append (g : GaugeImpl) : string := append_series (g_name g) "gauge" (g_series g).

Definition le_label (labels bound : string) : string :=
  (if bool_decide (labels = EmptyString) then EmptyString else labels +:+ ",") +:+ "le=" +:+ quote +:+ bound +:+ quote.

Definition histogram_rows (name : string) (s : HistogramSeries) : list string :=
  map (fun bn => append_sample_line (name +:+ "_bucket") (le_label (h_labels s) (format_double bn.1)) (to_string bn.2))
    (zip kHistogramUpperBounds (bucket_counts s))
  ++ [append_sample_line (name +:+ "_bucket") (le_label (h_labels s) "+Inf") (to_string (h_count s));
      append_sample_line (name +:+ "_sum") (h_labels s) (format_double (h_sum s));
      append_sample_line (name +:+ "_count") (h_labels s) (to_string (h_count s))].

Definition histogram_append (h : HistogramImpl) : string :=
  type_line (h_name h) "histogram"
  +:+ concat_lines (concat (map (fun row => histogram_rows (h_name h) row.2) (sorted_rows (h_series h)))).

(** ** The registry *)

Record Registry := mkRegistry {
  counter_registry : gmap string CounterImpl;
  gauge_registry : gmap string GaugeImpl;
  histogram_registry : gmap string HistogramImpl;
}.

Definition empty_Registry : Registry := mkRegistry ∅ ∅ ∅.

(** A reference to a metric is its name; [get_counter] and its siblings create the metric
    when there is none. *)
Definition obtain {A} (make : string -> A) (name : string) (m : gmap string A) : gmap string A :=
  match m !! name with Some _ => m | None => <[name := make name]> m end.

Definition get_counter (name : string) (r : Registry) : Registry :=
  mkRegistry (obtain (fun n => mkCounterImpl n ∅) name (counter_registry r)) (gauge_registry r) (histogram_registry r).
Definition get_gauge (name : string) (r : Registry) : Registry :=
  mkRegistry (counter_registry r) (obtain (fun n => mkGaugeImpl n ∅) name (gauge_registry r)) (histogram_registry r).
Definition get_histogram (name : string) (r : Registry) : Registry :=
  mkRegistry (counter_registry r) (gauge_registry r) (obtain (fun n => mkHistogramImpl n ∅) name (histogram_registry r)).

(** The calls of the rest of the program. *)
Inductive metric_call :=
  | CounterInc (name : string) (value : double) (labels : list Label)
  | GaugeSet (name : string) (value : double) (labels : list Label)
  | GaugeInc (name : string) (value : double) (labels : list Label)
  | GaugeDec (name : string) (value : double) (labels : list Label)
  | Observe (name : string) (value : double) (labels : list Label).

Definition on_gauge (f : GaugeImpl -> GaugeImpl) (name : string) (r : Registry) : Registry :=
  let r := get_gauge name r in
  mkRegistry (counter_registry r) (alter f name (gauge_registry r)) (histogram_registry r).

Definition run_call (c : metric_call) (r : Registry) : Registry :=
  match c with
  | CounterInc name value labels =>
      let r := get_counter name r in
      mkRegistry (alter (counter_inc value labels) name (counter_registry r)) (gauge_registry r) (histogram_registry r)
  | GaugeSet name value labels => on_gauge (gauge_set value labels) name r
  | GaugeInc name value labels => on_gauge (gauge_inc value labels) name r
  | GaugeDec name value labels => on_gauge (gauge_dec value labels) name r
  | Observe name value labels =>
      let r := get_histogram name r in
      mkRegistry (counter_registry r) (gauge_registry r) (alter (observe value labels) name (histogram_registry r))
  end.

Definition run_calls (cs : list metric_call) (r : Registry) : Registry := foldl (fun r c => run_call c r) r cs.

(** A metric is found under its own name, so sorting by name is sorting by key. *)
Definition append_prometheus_metrics (r : Registry) : string :=
  concat_lines (map (fun row => counter_append row.2) (sorted_rows (counter_registry r)))
  +:+ concat_lines (map (fun row => gauge_append row.2) (sorted_rows (gauge_registry r)))
  +:+ concat_lines (map (fun row => histogram_append row.2) (sorted_rows (histogram_registry r))).

Definition reset_for_tests (r : Registry) : Registry := empty_Registry.

(** ** The counters of the runtime *)

Definition rudp_fallback_reason_label (index : Z) : string :=
  match index with
  | 0 => "handshake_timeout"
  | 1 => "idle_timeout"
  | 2 => "protocol_error"
  | 3 => "inflight_limit"
  | 4 => "disabled"
  | _ => "other"
  end.

(** The part of the name after [core_runtime_], its type and its value. *)
Definition core_metrics : list (string * string * Counter) :=
  [("accept_total", "counter", accept_total);
   ("session_started_total", "counter", session_started_total);
   ("session_stopped_total", "counter", session_stopped_total);
   ("session_active", "gauge", session_active);
   ("dispatch_total", "counter", dispatch_total);
   ("dispatch_unknown_total", "counter", dispatch_unknown_total);
   ("dispatch_exception_total", "counter", dispatch_exception_total);
   ("exception_recoverable_total", "counter", exception_recoverable_total);
   ("exception_fatal_total", "counter", exception_fatal_total);
   ("exception_ignored_total", "counter", exception_ignored_total);
   ("send_queue_drop_total", "counter", send_queue_drop_total);
   ("packet_error_total", "counter", packet_error_total);
   ("log_async_queue_depth", "gauge", log_async_queue_depth);
   ("log_async_queue_capacity", "gauge", log_async_queue_capacity);
   ("log_async_queue_drop_total", "counter", log_async_queue_drop_total);
   ("log_async_flush_total", "counter", log_async_flush_total);
   ("log_async_flush_latency_sum_ns", "counter", log_async_flush_latency_sum_ns);
   ("log_async_flush_latency_max_ns", "gauge", log_async_flush_latency_max_ns);
   ("log_masked_fields_total", "counter", log_masked_fields_total);
   ("http_active_connections", "gauge", http_active_connections);
   ("http_connection_limit_reject_total", "counter", http_connection_limit_reject_total);
   ("http_auth_reject_total", "counter", http_auth_reject_total);
   ("http_header_timeout_total", "counter", http_header_timeout_total);
   ("http_body_timeout_total", "counter", http_body_timeout_total);
   ("http_header_oversize_total", "counter", http_header_oversize_total);
   ("http_body_oversize_total", "counter", http_body_oversize_total);
   ("http_bad_request_total", "counter", http_bad_request_total);
   ("setting_reload_attempt_total", "counter", runtime_setting_reload_attempt_total);
   ("setting_reload_success_total", "counter", runtime_setting_reload_success_total);
   ("setting_reload_failure_total", "counter", runtime_setting_reload_failure_total);
   ("setting_reload_latency_sum_ns", "counter", runtime_setting_reload_latency_sum_ns);
   ("setting_reload_latency_max_ns", "gauge", runtime_setting_reload_latency_max_ns)]%string.

Definition core_sample (name labels : string) (value : Z) : string :=
  append_sample_line ("core_runtime_" +:+ name) labels (to_string value).
Definition core_type (name kind : string) : string := type_line ("core_runtime_" +:+ name) kind.
Definition equals_quoted (name value : string) : string := name +:+ "=" +:+ quote +:+ value +:+ quote.

(** The loop over the buckets, with the running sum. *)
Fixpoint rtt_buckets (rows : list (Z * Z)) (cumulative : Z) : list string :=
  match rows with
  | [] => []
  | (bound, n) :: rows =>
      let cumulative := u64 (cumulative + n) in
      core_sample "rudp_rtt_ms_bucket" (equals_quoted "le" (to_string bound)) cumulative :: rtt_buckets rows cumulative
  end.

Definition append_runtime_core_metrics (snap : Snapshot) : string :=
  let v := snap_counter snap in
  let indexed {A} (l : list A) := imap (fun i x => (Z.of_nat i, x)) l in
  concat_lines
    (concat (map (fun '(name, kind, c) => [core_type name kind; core_sample name EmptyString (v c)]) core_metrics)
     ++ [core_type "rudp_handshake_total" "counter";
         core_sample "rudp_handshake_total" (equals_quoted "result" "ok") (v rudp_handshake_ok_total);
         core_sample "rudp_handshake_total" (equals_quoted "result" "fail") (v rudp_handshake_fail_total);
         core_type "rudp_retransmit_total" "counter";
         core_sample "rudp_retransmit_total" EmptyString (v rudp_retransmit_total);
         core_type "rudp_inflight_packets" "gauge";
         core_sample "rudp_inflight_packets" EmptyString (v rudp_inflight_packets);
         core_type "rudp_rtt_ms" "histogram"]
     ++ rtt_buckets (map (fun ib => (ib.2, v (rudp_rtt_ms_bucket_counts ib.1))) (indexed kRudpRttBucketUpperBoundsMs)) 0
     ++ [core_sample "rudp_rtt_ms_bucket" (equals_quoted "le" "+Inf") (v rudp_rtt_ms_count);
         core_sample "rudp_rtt_ms_sum" EmptyString (v rudp_rtt_ms_sum);
         core_sample "rudp_rtt_ms_count" EmptyString (v rudp_rtt_ms_count);
         core_type "rudp_rtt_ms_max" "gauge";
         core_sample "rudp_rtt_ms_max" EmptyString (v rudp_rtt_ms_max);
         core_type "rudp_fallback_total" "counter"]
     ++ map (fun i => core_sample "rudp_fallback_total" (equals_quoted "reason" (rudp_fallback_reason_label i))
                        (v (rudp_fallback_total i)))
          (map Z.of_nat (seq 0 (Z.to_nat kRudpFallbackReasonCount)))).

(** ** The order of labels *)

Lemma string_leb_cons a s b t :
  String.leb (String a s) (String b t)
  = match Ascii.compare a b with Lt => true | Eq => String.leb s t | Gt => false end.
Proof. unfold String.leb. cbn. by destruct (Ascii.compare a b). Qed.

Lemma string_leb_trans s t u : String.leb s t = true -> String.leb t u = true -> String.leb s u = true.
Proof.
  revert t u. induction s as [|a s IH]; intros [|b t] [|c u]; try done.
  rewrite !string_leb_cons. unfold Ascii.compare.
  destruct (N.compare_spec (Ascii.N_of_ascii a) (Ascii.N_of_ascii b)) as [Hab|Hab|Hab];
    destruct (N.compare_spec (Ascii.N_of_ascii b) (Ascii.N_of_ascii c)) as [Hbc|Hbc|Hbc];
    destruct (N.compare_spec (Ascii.N_of_ascii a) (Ascii.N_of_ascii c)) as [Hac|Hac|Hac];
    try done; try lia. apply IH.
Qed.

#[local] Instance label_le_trans : Transitive label_le.
Proof.
  intros [a1 a2] [b1 b2] [c1 c2]. unfold label_le; cbn. repeat case_bool_decide; subst; try done; eauto using string_leb_trans.
  intros H1 H2. exfalso. pose proof (String.leb_antisym _ _ H1 H2). done.
Qed.

#[local] Instance label_le_total : Total label_le.
Proof.
  intros [a1 a2] [b1 b2]. unfold label_le; cbn. repeat case_bool_decide; subst; try done; apply String.leb_total.
Qed.

#[local] Instance label_le_antisym : AntiSymm (=) label_le.
Proof.
  intros [a1 a2] [b1 b2]. unfold label_le; cbn. repeat case_bool_decide; subst; try done; intros H1 H2.
  - by rewrite (String.leb_antisym _ _ H1 H2).
  - pose proof (String.leb_antisym _ _ H1 H2). done.
Qed.

Lemma normalize_labels_iff l l' : normalize_labels l = normalize_labels l' <-> l ≡ₚ l'.
Proof.
  unfold normalize_labels. split.
  - intros H. by rewrite <- (merge_sort_Permutation label_le l), H, merge_sort_Permutation.
  - intros H. apply (Sorted_unique label_le); [apply Sorted_merge_sort; apply _..|].
    by rewrite !merge_sort_Permutation.
Qed.

#[export] Instance labels_perm_dec (l l' : list Label) : Decision (l ≡ₚ l').
Proof.
  destruct (decide (normalize_labels l = normalize_labels l')) as [H|H]; [left|right]; by rewrite <- normalize_labels_iff.
Defined.

(** ** Names of series *)

Definition is_byte (b : Z) (c : Ascii.ascii) : bool := byte_of_ascii c =? b.

(** The separators of a key do not occur in the parts they end; a name is an identifier, so
    it is not empty and has no equals sign. *)
Record plain_label (l : Label) : Prop := {
  name_no_sep : has_none (is_byte 0x1f) l.1;
  value_no_sep : has_none (is_byte 0x1e) l.2;
  name_some : l.1 <> EmptyString;
  name_no_eq : has_none (is_byte 61) l.1;
}.

Lemma split_at f (a a' : string) c b b' :
  has_none f a -> has_none f a' -> f c = true ->
  a +:+ String c b = a' +:+ String c b' -> a = a' /\ b = b'.
Proof.
  intros Ha Ha' Hc H. pose proof (take_until_app f a c b Ha Hc) as H1. rewrite H in H1.
  rewrite (take_until_app f a' c b' Ha' Hc) in H1. by injection H1.
Qed.

Lemma make_label_key_inj l l' :
  Forall plain_label l -> Forall plain_label l' -> make_label_key l = make_label_key l' -> l = l'.
Proof.
  revert l'. induction l as [|[n v] l IH]; intros [|[n' v'] l'] Hl Hl'; cbn; try done.
  - by destruct n'.
  - by destruct n.
  - apply Forall_cons in Hl as [[Hn Hv _ _] Hl], Hl' as [[Hn' Hv' _ _] Hl']. cbn in *. intros H.
    apply (split_at (is_byte 0x1f)) in H as [-> H]; [|done..].
    apply (split_at (is_byte 0x1e)) in H as [-> H]; [|done..].
    by rewrite (IH l').
Qed.

Lemma Forall_normalize (P : Label -> Prop) l : Forall P l -> Forall P (normalize_labels l).
Proof. unfold normalize_labels. by rewrite merge_sort_Permutation. Qed.

Lemma series_key_iff l l' :
  Forall plain_label l -> Forall plain_label l' ->
  make_label_key (normalize_labels l) = make_label_key (normalize_labels l') <-> l ≡ₚ l'.
Proof.
  intros Hl Hl'. rewrite <- normalize_labels_iff. split; [|congruence].
  apply make_label_key_inj; by apply Forall_normalize.
Qed.

(** What a reader of the page does with a quoted value: the value and what follows it. *)
Definition unescape_char (d : Ascii.ascii) : Ascii.ascii :=
  let b := byte_of_ascii d in
  if b =? 110 then ascii_of_byte 10 else if b =? 114 then ascii_of_byte 13
  else if b =? 116 then ascii_of_byte 9 else d.

Fixpoint read_value (s : string) : string * string :=
  match s with
  | EmptyString => (EmptyString, EmptyString)
  | String c s' =>
      if is_byte 34 c then (EmptyString, s')
      else if is_byte 92 c then
        match s' with
        | EmptyString => (EmptyString, EmptyString)
        | String d s'' => let (v, r) := read_value s'' in (String (unescape_char d) v, r)
        end
      else let (v, r) := read_value s' in (String c v, r)
  end.

Lemma read_value_escape v rest : read_value (escape_prometheus_label_value v +:+ quote +:+ rest) = (v, rest).
Proof.
  induction v as [|c v IH]; [done|]. cbn [escape_prometheus_label_value]. rewrite append_assoc.
  assert (forall s, read_value (escape_char c +:+ s) = let (v, r) := read_value s in (String c v, r)) as ->.
  { intros s. destruct c as [[] [] [] [] [] [] [] []]; reflexivity. }
  by rewrite IH.
Qed.

Lemma label_texts_inj first l l' :
  Forall plain_label l -> Forall plain_label l' -> label_texts first l = label_texts first l' -> l = l'.
Proof.
  revert first l'. induction l as [|[n v] l IH]; intros first [|[n' v'] l'] Hl Hl'; [done|..].
  1,2: intros H; exfalso; first [apply Forall_cons in Hl as [[_ _ Hn _] _]|apply Forall_cons in Hl' as [[_ _ Hn _] _]];
    cbn in H, Hn; destruct first; [|done]; first [by destruct n|by destruct n'].
  apply Forall_cons in Hl as [[_ _ _ Hn] Hl], Hl' as [[_ _ _ Hn'] Hl']. cbn in Hn, Hn'. cbn [label_texts]. intros H.
  assert (n +:+ "=" +:+ quote +:+ escape_prometheus_label_value v +:+ quote +:+ label_texts false l
          = n' +:+ "=" +:+ quote +:+ escape_prometheus_label_value v' +:+ quote +:+ label_texts false l') as H'
    by (destruct first; [exact H|by injection H]).
  apply (split_at (is_byte 61)) in H' as [-> H']; [|done..].
  apply (f_equal (str_drop 1)) in H'. change (str_drop 1 (quote +:+ ?x)) with x in H'.
  apply (f_equal read_value) in H'. rewrite !read_value_escape in H'.
  injection H' as -> H'. by rewrite (IH false l').
Qed.

(** ** A store of series

    Counters, gauges and histograms keep their series in the same way: a call goes to the
    series of its labels, which is made when it is missing. *)

Section store.
Context {S V : Type} (new : S) (f : string -> V -> S -> S).

Abbreviation key l := (make_label_key (normalize_labels l)).
Abbreviation text l := (make_label_text (normalize_labels l)).

Definition put (m : gmap string S) (call : list Label * V) : gmap string S :=
  <[key call.1 := f (text call.1) call.2 (default new (m !! key call.1))]> m.
Definition puts (calls : list (list Label * V)) : gmap string S := foldl put ∅ calls.

(** The values given to the series of [l], whatever the order of the labels. *)
Definition values (l : list Label) (calls : list (list Label * V)) : list V :=
  omap (fun call => if decide (call.1 ≡ₚ l) then Some call.2 else None) calls.

Abbreviation plain_calls calls := (Forall (fun call => Forall plain_label call.1) calls).

Lemma puts_lookup calls l :
  plain_calls calls -> Forall plain_label l ->
  puts calls !! key l
  = match values l calls with [] => None | vs => Some (foldl (fun s v => f (text l) v s) new vs) end.
Proof.
  intros Hc Hl. unfold puts, values. induction calls as [|[l' v] calls IH] using rev_ind; [done|].
  apply Forall_app in Hc as [Hc [Hl' _]%Forall_cons]. specialize (IH Hc). cbn in Hl'.
  rewrite foldl_app, omap_app. cbn [foldl omap list_omap]. unfold put at 1; cbn [fst snd]. case_decide as Hp.
  - apply normalize_labels_iff in Hp. rewrite Hp, lookup_insert_eq, IH.
    destruct (omap _ calls) as [|v0 vs]; [done|]. cbn [app]. by rewrite foldl_app.
  - rewrite lookup_insert_ne by (by rewrite series_key_iff). rewrite IH. by rewrite app_nil_r.
Qed.

Lemma puts_keys calls k : is_Some (puts calls !! k) -> exists call, call ∈ calls /\ k = key call.1.
Proof.
  unfold puts. induction calls as [|call calls IH] using rev_ind; [by intros [? ?]|].
  rewrite foldl_app. cbn [foldl]. unfold put at 1. intros [s Hs]. apply lookup_insert_Some in Hs as [[<- _]|[_ Hs]].
  - exists call. split; [set_solver|done].
  - destruct IH as (c & Hin & ->); [by eexists|]. exists c. split; [set_solver|done].
Qed.

(** The rows of the page, for a field that is the text of the labels. *)
Lemma puts_rows (labels : S -> string) calls :
  plain_calls calls ->
  (forall l vs, vs <> [] -> labels (foldl (fun s v => f (text l) v s) new vs) = text l) ->
  NoDup (map (fun row => labels row.2) (sorted_rows (puts calls)))
  /\ forall l s, Forall plain_label l ->
     (s ∈ (sorted_rows (puts calls)).*2 /\ labels s = text l
      <-> values l calls <> [] /\ s = foldl (fun s v => f (text l) v s) new (values l calls)).
Proof.
  intros Hc Hlab.
  assert (forall k s, puts calls !! k = Some s ->
            exists l, Forall plain_label l /\ k = key l /\ values l calls <> []
                      /\ s = foldl (fun s v => f (text l) v s) new (values l calls)) as Hk.
  { intros k s Hs. destruct (puts_keys calls k) as (call & Hin & ->); [by eexists|].
    assert (Forall plain_label call.1) as Hl by by eapply Forall_forall in Hc.
    exists call.1. rewrite puts_lookup in Hs by done. destruct (values call.1 calls); [done|]. by injection Hs as <-. }
  assert (forall l l', Forall plain_label l -> Forall plain_label l' -> text l = text l' -> l ≡ₚ l') as Ht.
  { intros l l' Hl Hl' H. apply normalize_labels_iff. eapply label_texts_inj; [by apply Forall_normalize..|exact H]. }
  assert (forall k s, (k, s) ∈ sorted_rows (puts calls) <-> puts calls !! k = Some s) as Hin.
  { intros k s. unfold sorted_rows. rewrite merge_sort_Permutation. apply elem_of_map_to_list. }
  split.
  - apply NoDup_fmap_2_strong; [|unfold sorted_rows; rewrite merge_sort_Permutation; apply NoDup_map_to_list].
    intros [k s] [k' s'] H H' Heq. apply Hin in H, H'. cbn in Heq.
    destruct (Hk k s H) as (l & Hl & Hkl & Hv & Hs), (Hk k' s' H') as (l' & Hl' & Hkl' & Hv' & Hs').
    rewrite Hs, Hs', !Hlab in Heq by done. apply Ht in Heq; [|done..].
    apply normalize_labels_iff in Heq. rewrite Hkl, Heq in H |- *. rewrite Hkl' in H' |- *. rewrite H in H'. congruence.
  - intros l s Hl. pose proof (puts_lookup calls l Hc Hl) as Hlk. split.
    + intros [([k s'] & -> & H)%list_elem_of_fmap Heq]. apply Hin in H. cbn in *.
      destruct (Hk k s' H) as (l' & Hl' & -> & Hv & Hs). rewrite Hs, Hlab in Heq by done. apply Ht in Heq; [|done..].
      apply normalize_labels_iff in Heq. rewrite Heq, Hlk in H. destruct (values l calls); [done|]. by injection H as <-.
    + intros [Hv ->]. split; [|by apply Hlab]. apply list_elem_of_fmap.
      eexists (key l, _). split; [reflexivity|]. apply Hin. rewrite Hlk. by destruct (values l calls).
Qed.
End store.

(** ** Counters and histograms of the registry *)

Definition call_labels (c : metric_call) : list Label :=
  match c with
  | CounterInc _ _ l | GaugeSet _ _ l | GaugeInc _ _ l | GaugeDec _ _ l | Observe _ _ l => l
  end.

(** The calls that reach a series of the counter, and those that reach the histogram. *)
Definition counted (name : string) (c : metric_call) : option (list Label * double) :=
  match c with
  | CounterInc n v l => if bool_decide (n = name) && negb (SFltb v f_zero) then Some (l, v) else None
  | _ => None
  end.
Definition observed (name : string) (c : metric_call) : option (list Label * double) :=
  match c with
  | Observe n v l => if bool_decide (n = name) then Some (l, v) else None
  | _ => None
  end.

Definition add_to (text : string) (v : double) (s : Series) : Series :=
  mkSeries (fadd (s_value s) v) (first_text (s_labels s) text).
Definition observe_in (text : string) (v : double) (s : HistogramSeries) : HistogramSeries :=
  mkHistogramSeries (count_buckets v kHistogramUpperBounds (bucket_counts s)) (u64 (h_count s + 1))
    (fadd (h_sum s) v) (first_text (h_labels s) text).

Lemma obtain_lookup {A} (make : string -> A) name name' m :
  obtain make name m !! name' = if decide (name = name') then Some (default (make name) (m !! name')) else m !! name'.
Proof.
  unfold obtain. case_decide as H; [subst name'; destruct (m !! name) eqn:Hm; [by rewrite Hm|by rewrite lookup_insert_eq]|].
  destruct (m !! name); [done|by rewrite lookup_insert_ne].
Qed.

Lemma counter_of_calls cs name :
  default (mkCounterImpl name ∅) (counter_registry (run_calls cs empty_Registry) !! name)
  = mkCounterImpl name (puts new_Series add_to (omap (counted name) cs)).
Proof.
  unfold run_calls, puts. induction cs as [|c cs IH] using rev_ind; [done|].
  rewrite foldl_app, omap_app, foldl_app. cbn [foldl]. set (r := foldl _ _ cs) in *.
  destruct c as [n v l| | | |n v l]; try exact IH. cbn [run_call counter_registry get_counter omap list_omap counted].
  destruct (decide (n = name)) as [->|Hn].
  - rewrite lookup_alter_eq, obtain_lookup, decide_True by done. cbn [fmap option_fmap option_map default].
    rewrite IH, bool_decide_true by done. unfold counter_inc. by destruct (SFltb v f_zero).
  - rewrite bool_decide_false, lookup_alter_ne, obtain_lookup, decide_False by done. exact IH.
Qed.

Lemma histogram_of_calls cs name :
  default (mkHistogramImpl name ∅) (histogram_registry (run_calls cs empty_Registry) !! name)
  = mkHistogramImpl name (puts new_HistogramSeries observe_in (omap (observed name) cs)).
Proof.
  unfold run_calls, puts. induction cs as [|c cs IH] using rev_ind; [done|].
  rewrite foldl_app, omap_app, foldl_app. cbn [foldl]. set (r := foldl _ _ cs) in *.
  destruct c as [n v l| | | |n v l]; try exact IH. cbn [run_call histogram_registry get_histogram omap list_omap observed].
  destruct (decide (n = name)) as [->|Hn].
  - rewrite lookup_alter_eq, obtain_lookup, decide_True by done. cbn [fmap option_fmap option_map default].
    by rewrite IH, bool_decide_true.
  - rewrite bool_decide_false, lookup_alter_ne, obtain_lookup, decide_False by done. exact IH.
Qed.

Lemma first_text_same t : first_text (first_text EmptyString t) t = t.
Proof. unfold first_text. repeat case_bool_decide; done. Qed.

Lemma adds_labels text vs s : s_labels s = EmptyString \/ s_labels s = text -> vs <> [] ->
  s_labels (foldl (fun s v => add_to text v s) s vs) = text.
Proof.
  revert s. induction vs as [|v vs IH]; intros s Hs Hv; [done|]. cbn [foldl].
  assert (s_labels (add_to text v s) = text) as Ht.
  { cbn. unfold first_text. destruct Hs as [->| ->]; case_bool_decide; congruence. }
  destruct vs as [|v' vs]; [done|]. apply IH; auto.
Qed.

Lemma adds_value text vs s : s_value (foldl (fun s v => add_to text v s) s vs) = foldl fadd (s_value s) vs.
Proof. revert s. induction vs as [|v vs IH]; intros s; [done|]. cbn [foldl]. by rewrite IH. Qed.

Lemma length_omap_le {A B} (f : A -> option B) (l : list A) : zlen (omap f l) <= zlen l.
Proof. induction l as [|x l IH]; [done|]. cbn. destruct (f x); cbn; lia. Qed.

Lemma plain_omap (f : metric_call -> option (list Label * double)) cs :
  (forall c x, f c = Some x -> x.1 = call_labels c) ->
  Forall (fun c => Forall plain_label (call_labels c)) cs ->
  Forall (fun call => Forall plain_label call.1) (omap f cs).
Proof.
  intros Hf Hc. apply Forall_forall. intros x (c & Hin & Hx)%list_elem_of_omap. rewrite (Hf c x Hx).
  by eapply Forall_forall in Hc.
Qed.

(** C38. The page shows a counter as one line per set of labels it was increased with, however
    the labels were ordered, and the value of the line is the sum of the increases with
    these labels. *)
Theorem counter_page_exact cs name c :
  Forall (fun c => Forall plain_label (call_labels c)) cs ->
  counter_registry (run_calls cs empty_Registry) !! name = Some c ->
  exists rows : list (string * double),
    counter_append c
    = type_line name "counter" +:+ concat_lines (map (fun row => append_sample_line name row.1 (format_double row.2)) rows)
    /\ NoDup rows.*1
    /\ forall l v, Forall plain_label l ->
       ((make_label_text (normalize_labels l), v) ∈ rows
        <-> values l (omap (counted name) cs) <> [] /\ v = foldl fadd f_zero (values l (omap (counted name) cs))).
Proof.
  intros Hp Hc. pose proof (counter_of_calls cs name) as Hs. rewrite Hc in Hs. cbn in Hs. subst c.
  assert (Forall (fun call => Forall plain_label call.1) (omap (counted name) cs)) as Hpc.
  { apply plain_omap; [|done]. intros [] x; cbn; try done. destruct (_ && _); [|done]. by intros [= <-]. }
  destruct (puts_rows new_Series add_to s_labels _ Hpc) as [Hnd Hrows]; [intros l vs; by apply adds_labels; left|].
  exists (map (fun row => (s_labels row.2, s_value row.2)) (sorted_rows (puts new_Series add_to (omap (counted name) cs)))).
  split; [|split].
  - unfold counter_append, append_series. cbn. f_equal. f_equal. by rewrite map_map.
  - change (list_fmap _ _ fst ?l) with (map fst l). rewrite map_map. exact Hnd.
  - intros l v Hl. rewrite list_elem_of_fmap. split.
    + intros ([k s] & [= Ht Hv] & Hin). cbn in *. destruct (Hrows l s Hl) as [[Hne ->] _].
      { split; [by apply (list_elem_of_fmap_2 snd) in Hin|done]. }
      split; [done|]. by rewrite Hv, adds_value.
    + intros [Hne ->]. destruct (proj2 (Hrows l _ Hl) (conj Hne eq_refl)) as [([k s] & Heq & Hin)%list_elem_of_fmap Ht].
      exists (k, s). cbn in *. subst s. split; [|done]. by rewrite Ht, adds_value.
Qed.

Lemma SFleb_trans a b c : SFleb a b = true -> SFleb b c = true -> SFleb a c = true.
Proof.
  unfold SFleb, SFcompare.
  destruct a as [sa|sa| |sa ma ea], b as [sb|sb| |sb mb eb], c as [sc|sc| |sc mc ec]; try done;
    try (by destruct sa, sb, sc); try (by destruct sa, sb); try (by destruct sb, sc); try (by destruct sa, sc).
  destruct sa, sb, sc; try done;
    destruct (Z.compare_spec ea eb) as [->|H1|H1]; destruct (Z.compare_spec eb ec) as [->|H2|H2]; try done;
    rewrite ?Z.compare_refl; try (rewrite (proj2 (Z.compare_lt_iff ea ec)) by lia; done);
    try (rewrite (proj2 (Z.compare_gt_iff ea ec)) by lia; done);
    try (rewrite (proj2 (Z.compare_lt_iff _ _) H2); done); try (rewrite (proj2 (Z.compare_gt_iff _ _) H2); done);
    try (rewrite (proj2 (Z.compare_lt_iff _ _) H1); done); try (rewrite (proj2 (Z.compare_gt_iff _ _) H1); done);
    change (Pcompare ?x ?y Eq) with (Pos.compare x y);
    destruct (Pos.compare_spec ma mb) as [->|H3|H3]; destruct (Pos.compare_spec mb mc) as [->|H4|H4]; try done;
    destruct (Pos.compare_spec ma mc) as [H5|H5|H5]; try done; lia.
Qed.

(** The number of values up to a bound. *)
Definition below (vs : list double) (b : double) : Z := zlen (List.filter (fun v => SFleb v b) vs).

Lemma below_snoc vs v b : below (vs ++ [v]) b = below vs b + (if SFleb v b then 1 else 0).
Proof.
  unfold below. rewrite List.filter_app, length_app. cbn. destruct (SFleb v b); cbn; lia.
Qed.

Lemma below_length vs b : 0 <= below vs b <= zlen vs.
Proof. unfold below. pose proof (List.filter_length_le (fun v => SFleb v b) vs). lia. Qed.

Lemma below_mono vs b b' : SFleb b b' = true -> below vs b <= below vs b'.
Proof.
  intros Hb. induction vs as [|v vs IH] using rev_ind; [done|]. rewrite !below_snoc.
  destruct (SFleb v b) eqn:Hv; [rewrite (SFleb_trans _ _ _ Hv Hb); lia|]. destruct (SFleb v b'); lia.
Qed.

Lemma count_buckets_below vs v bounds :
  zlen vs < 2 ^ 64 - 1 -> count_buckets v bounds (map (below vs) bounds) = map (below (vs ++ [v])) bounds.
Proof.
  intros Hn. induction bounds as [|b bounds IH]; [done|]. cbn [map count_buckets]. rewrite IH, below_snoc. f_equal.
  pose proof (below_length vs b). destruct (SFleb v b); [|lia]. zlia.
Qed.

Lemma observes_counts text vs :
  zlen vs < 2 ^ 64 ->
  let s := foldl (fun s v => observe_in text v s) new_HistogramSeries vs in
  bucket_counts s = map (below vs) kHistogramUpperBounds /\ h_count s = zlen vs
  /\ (vs <> [] -> h_labels s = text).
Proof.
  cbv zeta. induction vs as [|v vs IH] using rev_ind; [done|]. rewrite length_app. intros Hn.
  cbn [length] in Hn. destruct IH as (Hb & Hc & Hl); [lia|]. rewrite foldl_app. cbn [foldl observe_in bucket_counts h_count h_labels].
  rewrite Hb, Hc, count_buckets_below by lia. cbn [length]. split_and!; [done|zlia|]. intros _. unfold first_text.
  destruct vs as [|v' vs]; [done|]. rewrite Hl by done. by case_bool_decide.
Qed.

Lemma below_sorted vs bounds :
  Sorted (fun a b => SFleb a b = true) bounds -> Sorted Z.le (map (below vs) bounds ++ [zlen vs]).
Proof.
  induction 1 as [|b bounds Hs IH Hh]; [repeat constructor|]. cbn. constructor; [done|].
  destruct Hh as [|b' bounds Hb]; cbn; constructor; [apply below_length|by apply below_mono].
Qed.

Lemma bounds_sorted : Sorted (fun a b => SFleb a b = true) kHistogramUpperBounds.
Proof. repeat constructor. Qed.

(** A bucket of a histogram holds the number of observations up to its bound, the count
    their number, so that the buckets are cumulative; this is so for every series of a
    histogram, as long as fewer than [2 ^ 64] observations were made. *)
Theorem histogram_buckets_cumulative cs name h s :
  Forall (fun c => Forall plain_label (call_labels c)) cs ->
  zlen cs < 2 ^ 64 ->
  histogram_registry (run_calls cs empty_Registry) !! name = Some h ->
  s ∈ (sorted_rows (h_series h)).*2 ->
  exists l, h_labels s = make_label_text (normalize_labels l)
    /\ bucket_counts s = map (below (values l (omap (observed name) cs))) kHistogramUpperBounds
    /\ h_count s = zlen (values l (omap (observed name) cs)) /\ 0 < h_count s
    /\ Sorted Z.le (bucket_counts s ++ [h_count s]).
Proof.
  intros Hp Hn Hh Hin. pose proof (histogram_of_calls cs name) as Hs. rewrite Hh in Hs. cbn in Hs. subst h.
  set (calls := omap (observed name) cs) in *.
  assert (Forall (fun call => Forall plain_label call.1) calls) as Hpc.
  { apply plain_omap; [|done]. intros [] x; cbn; try done. destruct (bool_decide _); [|done]. by intros [= <-]. }
  cbn in Hin. unfold sorted_rows in Hin. rewrite merge_sort_Permutation in Hin.
  apply list_elem_of_fmap in Hin as ([k s'] & -> & Hk%elem_of_map_to_list).
  destruct (puts_keys new_HistogramSeries observe_in calls k) as (call & Hcall & ->); [by eexists|].
  assert (Forall plain_label call.1) as Hl by by eapply Forall_forall in Hpc.
  rewrite puts_lookup in Hk by done. exists call.1. cbn [snd].
  assert (zlen (values call.1 calls) < 2 ^ 64) as Hlen.
  { unfold values, calls. pose proof (length_omap_le (observed name) cs).
    pose proof (length_omap_le (fun c : list Label * double => if decide (c.1 ≡ₚ call.1) then Some c.2 else None) (omap (observed name) cs)).
    lia. }
  destruct (observes_counts (make_label_text (normalize_labels call.1)) _ Hlen) as (Hb & Hc & Ht).
  destruct (values call.1 calls) as [|v vs]; [done|]. apply (inj Some) in Hk. rewrite <- Hk.
  rewrite Hb, Hc, (Ht ltac:(done)). split_and!; try done. apply below_sorted, bounds_sorted.
Qed.

Definition sample_calls : list metric_call :=
  [CounterInc "requests" (f_of_Z 1) [("path", "/a"); ("code", "200")];
   CounterInc "requests" (f_of_Z 2) [("code", "200"); ("path", "/a")];
   Observe "latency" (f_of_Z 3) [("path", "/a")];
   Observe "latency" (f_of_Z 300) [("path", "/a")]]%string.

Lemma sample_calls_plain : Forall (fun c => Forall plain_label (call_labels c)) sample_calls.
Proof. repeat constructor; done. Qed.

Lemma counter_page_exact_witness :
  exists c rows,
    counter_registry (run_calls sample_calls empty_Registry) !! "requests"%string = Some c
    /\ counter_append c
       = type_line "requests" "counter"
         +:+ concat_lines (map (fun row => append_sample_line "requests" row.1 (format_double row.2)) rows)
    /\ (make_label_text (normalize_labels [("path", "/a"); ("code", "200")]%string), f_of_Z 3) ∈ rows.
Proof.
  eexists. destruct (counter_page_exact sample_calls "requests" _ sample_calls_plain eq_refl) as (rows & Htext & _ & Hrows).
  exists rows. split; [reflexivity|]. split; [exact Htext|]. apply Hrows; [repeat constructor; done|].
  split; [by vm_compute|vm_compute; reflexivity].
Defined.

Lemma histogram_buckets_cumulative_witness :
  exists h s l,
    histogram_registry (run_calls sample_calls empty_Registry) !! "latency"%string = Some h
    /\ s ∈ (sorted_rows (h_series h)).*2 /\ h_labels s = make_label_text (normalize_labels l)
    /\ Sorted Z.le (bucket_counts s ++ [h_count s]).
Proof.
  eexists. eexists.
  destruct (histogram_buckets_cumulative sample_calls "latency" _
              (mkHistogramSeries [0; 0; 0; 0; 1; 1; 1; 1; 1; 1] 2 (f_of_Z 303) (make_label_text [("path", "/a")]%string))
              sample_calls_plain ltac:(by vm_compute) eq_refl) as (l & Hl & _ & _ & _ & Hs).
  - vm_compute. apply list_elem_of_here.
  - exists l. split; [reflexivity|]. split; [vm_compute; apply list_elem_of_here|]. by split.
Defined.
