(* ===== verification/Trace.v ===== *)
(** Tracing, [core/trace/context.hpp] and [context.cpp]: which messages are sampled, the
    identifiers of a trace, and the context of a thread that nested scopes switch.

    The configuration is read from the environment once ([getenv] is a parameter); the
    context is that of one thread. *)

From S2P Require Import Prelude Text ChatText GatewayConfig.

(** ** Configuration *)

Record TraceConfig := mkTraceConfig { t_enabled : bool; t_sample_percent : Z }.

Section config.
  Context (getenv : string -> option string).

Definition parse_env_u32 (key : string) (fallback min_value max_value : Z) : Z :=
  match env_value getenv key with
  | Some value =>
      match stoull value with
      | Some (parsed, _) => if (min_value <=? parsed) && (parsed <=? max_value) then u32 parsed else fallback
      | None => fallback
      end
  | None => fallback
  end.

Definition load_TraceConfig : TraceConfig :=
  mkTraceConfig (parse_env_bool getenv "RUNTIME_TRACING_ENABLED" false)
    (parse_env_u32 "RUNTIME_TRACING_SAMPLE_PERCENT" 100 0 100).

(** [config()]: the cached configuration, loaded by the first call. *)
Definition trace_config (loaded : option TraceConfig) : TraceConfig := default load_TraceConfig loaded.
End config.

Definition should_sample (cfg : TraceConfig) (seed : Z) : bool :=
  if negb (t_enabled cfg) then false
  else
    let percent := t_sample_percent cfg in
    if percent =? 0 then false
    else if 100 <=? percent then true
    else seed mod 100 <? percent.

(** ** Identifiers *)

Definition low_bytes (value : Z) : list Z :=
  map (fun j => Z.land (Z.shiftr value (j * 8)) 0xFF) [0; 1; 2; 3; 4; 5; 6; 7].

(** [random_hex_16bytes], from two values of the generator. *)
Definition random_hex_16bytes (r0 r1 : Z) : string :=
  foldr (fun b acc => hex_byte b +:+ acc) EmptyString (low_bytes r0 ++ low_bytes r1).
Definition make_trace_id (r0 r1 : Z) : string := random_hex_16bytes r0 r1.

Definition make_correlation_id (session_id msg_id seq : Z) : string :=
  "s" +:+ to_string session_id +:+ "-m" +:+ to_string msg_id +:+ "-q" +:+ to_string seq.

(** ** The context of a thread *)

Record TraceContextState := mkTraceContextState {
  g_trace_id : string;
  g_correlation_id : string;
  g_sampled : bool;
}.
Definition no_context : TraceContextState := mkTraceContextState EmptyString EmptyString false.

Definition current_trace_id (g : TraceContextState) : string := if g_sampled g then g_trace_id g else EmptyString.
Definition current_correlation_id (g : TraceContextState) : string :=
  if g_sampled g then g_correlation_id g else EmptyString.
Definition current_sampled (g : TraceContextState) : bool := g_sampled g.

(** A scope that is active keeps the context it replaced. *)
Record ScopedContext := mkScopedContext { active_ : bool; prev : TraceContextState }.

Definition open_scope (cfg : TraceConfig) (trace_id correlation_id : string) (sampled : bool) (g : TraceContextState) :
    TraceContextState * ScopedContext :=
  if negb (t_enabled cfg) || negb sampled || bool_decide (trace_id = EmptyString)
  then (g, mkScopedContext false no_context)
  else (mkTraceContextState trace_id correlation_id true, mkScopedContext true g).

Definition close_scope (s : ScopedContext) (g : TraceContextState) : TraceContextState :=
  if negb (active_ s) then g else prev s.

(** Code with scopes: a scope around a block, and points that read the context. *)
Inductive block :=
  | Read
  | Scope (trace_id correlation_id : string) (sampled : bool) (body : list block).

(** The context each point reads and the context at the end. *)
Fixpoint run_block (cfg : TraceConfig) (b : block) (g : TraceContextState) : list TraceContextState * TraceContextState :=
  let fix run_body (bs : list block) (g : TraceContextState) : list TraceContextState * TraceContextState :=
    match bs with
    | [] => ([], g)
    | b :: bs => let (seen, g) := run_block cfg b g in let (more, g) := run_body bs g in (seen ++ more, g)
    end in
  match b with
  | Read => ([g], g)
  | Scope trace_id correlation_id sampled body =>
      let (g, s) := open_scope cfg trace_id correlation_id sampled g in
      let (seen, g) := run_body body g in
      (seen, close_scope s g)
  end.

(** ** Theorems *)

(** Every block leaves the context as it found it, however scopes nest. *)
Theorem scopes_restore_context cfg b g : (run_block cfg b g).2 = g.
Proof.
  revert b g. fix IH 1. intros [|t c s body] g; [done|]. cbn [run_block].
  destruct (open_scope cfg t c s g) as [g1 sc] eqn:Ho.
  set (run_body := fix run_body (bs : list block) (g : TraceContextState) : list TraceContextState * TraceContextState :=
    match bs with
    | [] => ([], g)
    | b :: bs => let (seen, g) := run_block cfg b g in let (more, g) := run_body bs g in (seen ++ more, g)
    end).
  assert (forall bs g, (run_body bs g).2 = g) as Hb.
  { fix IHb 1. intros [|b bs] g'; [done|]. cbn [run_body]. pose proof (IH b g') as H.
    destruct (run_block cfg b g') as [seen g2]. cbn in H. subst g2. pose proof (IHb bs g') as H.
    destruct (run_body bs g') as [more g2]. cbn in H. by subst g2. }
  pose proof (Hb body g1) as H. destruct (run_body body g1) as [seen g2]. cbn in H |- *. subst g2.
  unfold open_scope in Ho. destruct (_ || _); injection Ho as <- <-; done.
Qed.

(** A configured percentage is the share of the seeds that are sampled: of any hundred
    seeds in a row as many as the percentage says. *)
Theorem sampling_share cfg k :
  t_enabled cfg = true -> 0 <= t_sample_percent cfg <= 100 ->
  zlen (List.filter (should_sample cfg) (map (fun i => 100 * k + Z.of_nat i) (seq 0 100))) = t_sample_percent cfg.
Proof.
  intros He Hp.
  assert (forall seed, should_sample cfg seed = (seed mod 100 <? t_sample_percent cfg)) as Hs.
  { intros seed. unfold should_sample. rewrite He. cbn. pose proof (Z.mod_pos_bound seed 100). by zbool. }
  rewrite (List.filter_ext _ _ Hs).
  assert (forall n, (n <= 100)%nat ->
            zlen (List.filter (fun s => s mod 100 <? t_sample_percent cfg) (map (fun i => 100 * k + Z.of_nat i) (seq 0 n)))
            = Z.min (Z.of_nat n) (t_sample_percent cfg)) as H; [|rewrite H; lia].
  induction n as [|n IH]; intros Hn; [cbn; lia|]. rewrite seq_S, map_app, List.filter_app, length_app, Nat2Z.inj_add, IH by lia.
  cbn [map List.filter Nat.add]. replace ((100 * k + Z.of_nat n) mod 100) with (Z.of_nat n); [zbool; cbn; lia|].
  rewrite Z.mul_comm, Z.add_comm, Z.mod_add, Z.mod_small; lia.
Qed.

Lemma sampling_share_witness :
  zlen (List.filter (should_sample (mkTraceConfig true 30)) (map (fun i => 100 * 7 + Z.of_nat i) (seq 0 100))) = 30.
Proof. apply (sampling_share (mkTraceConfig true 30) 7); [reflexivity|cbn; lia]. Defined.
