(* ===== verification/Log.v ===== *)
(** The logger, [core/util/log.hpp] and [log.cpp]: masking of secrets, the line of a
    message, the buffer of recent lines, and the queue behind which a thread writes.

    The critical sections of the queue are functions of the logger; [None] is a thread that
    waits on its condition variable.  The environment and the local time are arguments, the
    calls to the two kinds of metrics are recorded.

    The theorems: what masking guarantees and where it does not, and that lines
    are neither reordered nor lost unnoticed on their way to the output. *)

From Stdlib Require Import SpecFloat.
From S2P Require Import Prelude Text ChatText Resilience RuntimeMetrics GatewayConfig HttpServer Metrics Trace.

Inductive level := trace | debug | info | warn | error.
Definition level_index (lv : level) : Z :=
  match lv with trace => 0 | debug => 1 | info => 2 | warn => 3 | error => 4 end.

Inductive OverflowPolicy := kDropNewest | kDropOldest | kBlock.

#[export] Instance OverflowPolicy_eq_dec : EqDecision OverflowPolicy.
Proof. solve_decision. Defined.

(** ** Settings *)

Section settings.
  Context (getenv : string -> option string).

Definition parse_level_from_env : level :=
  match env_value getenv "LOG_LEVEL" with
  | Some raw =>
      let value := to_lower_ascii_local raw in
      if bool_decide (value = "trace"%string) then trace
      else if bool_decide (value = "debug"%string) then debug
      else if bool_decide (value = "warn"%string) || bool_decide (value = "warning"%string) then warn
      else if bool_decide (value = "error"%string) then error
      else info
  | None => info
  end.

Definition parse_buffer_capacity_from_env : Z :=
  match env_value getenv "LOG_BUFFER_CAPACITY" with
  | Some raw =>
      match stoull raw with
      | Some (parsed, _) => if (0 <? parsed) && (parsed <=? 1000000) then parsed else 256
      | None => 256
      end
  | None => 256
  end.

Definition parse_queue_capacity : Z :=
  match env_value getenv "LOG_ASYNC_QUEUE_CAPACITY" with
  | Some raw =>
      match stoull raw with
      | Some (parsed, _) => if 0 <? parsed then parsed else 8192
      | None => 8192
      end
  | None => 8192
  end.

Definition parse_overflow_policy : OverflowPolicy :=
  match env_value getenv "LOG_ASYNC_QUEUE_OVERFLOW" with
  | Some raw =>
      let policy := to_lower_ascii_local raw in
      if bool_decide (policy = "drop_oldest"%string) || bool_decide (policy = "oldest"%string) then kDropOldest
      else if bool_decide (policy = "block"%string) then kBlock
      else kDropNewest
  | None => kDropNewest
  end.

Definition log_format_json : bool :=
  match env_value getenv "LOG_FORMAT" with
  | Some raw => bool_decide (to_lower_ascii_local raw = "json"%string)
  | None => false
  end.
End settings.

(** ** The text of a line *)

Definition to_cstr (lv : level) : string :=
  match lv with
  | trace => "TRACE" | debug => "DEBUG" | info => "INFO" | warn => "WARN" | error => "ERROR"
  end.

Definition json_escape_char (ch : Ascii.ascii) : string :=
  let b := byte_of_ascii ch in
  let two n := str [backslash; ascii_of_byte n] in
  if b =? 34 then two 34 else if b =? 92 then two 92 else if b =? 8 then two 98
  else if b =? 12 then two 102 else if b =? 10 then two 110 else if b =? 13 then two 114
  else if b =? 9 then two 116
  else if b <? 0x20 then two 117 +:+ (let hex := hex_u64 b in pad_left (4 - String.length hex) hex)
  else str [ch].
Fixpoint json_escape (input : string) : string :=
  match input with
  | EmptyString => EmptyString
  | String ch input => json_escape_char ch +:+ json_escape input
  end.

(** [message.find(token)]: what follows the first occurrence. *)
Fixpoint after_first (token message : string) : option string :=
  if String.prefix token message then Some (str_drop (String.length token) message)
  else match message with EmptyString => None | String _ message => after_first token message end.

Definition ends_token (c : Ascii.ascii) : bool :=
  isspace c || (byte_of_ascii c =? 44) || (byte_of_ascii c =? 59).

Definition extract_token_value (message key : string) : string :=
  match after_first (key +:+ "=") message with
  | None => EmptyString
  | Some rest => (take_until ends_token rest).1
  end.

Definition looks_like_json_object (line : string) : bool :=
  (2 <=? slen line)
  && match line with String c _ => byte_of_ascii c =? 123 | EmptyString => false end
  && match str_rev line EmptyString with String c _ => byte_of_ascii c =? 125 | EmptyString => false end.

Definition f_one : double := f_of_Z 1.

Definition record_log_schema_metrics (format : string) (parse_success : bool) (fields : list (string * string)) :
    list metric_call :=
  [CounterInc "core_log_schema_records_total" f_one [("format"%string, format)];
   CounterInc (if parse_success then "core_log_schema_parse_success_total" else "core_log_schema_parse_failure_total")
     f_one [("format"%string, format)]]
  ++ concat (map (fun '(field, value) =>
       CounterInc "core_log_schema_field_total" f_one [("field"%string, field); ("format"%string, format)]
       :: (if bool_decide (value = EmptyString) then []
           else [CounterInc "core_log_schema_field_filled_total" f_one [("field"%string, field); ("format"%string, format)]]))
     fields).

(** [timestamp] is the local time as [std::put_time] writes it. *)
Definition format_line (json : bool) (timestamp : string) (ctx : TraceContextState) (lv : level) (msg : string) :
    string * list metric_call :=
  let trace_id := if current_sampled ctx then current_trace_id ctx else EmptyString in
  let correlation_id := if current_sampled ctx then current_correlation_id ctx else EmptyString in
  let component := let value := extract_token_value msg "component" in
                   if bool_decide (value = EmptyString) then "core"%string else value in
  let error_code := extract_token_value msg "error_code" in
  let fields := [("timestamp", timestamp); ("level", to_cstr lv); ("component", component); ("trace_id", trace_id);
                 ("correlation_id", correlation_id); ("message", msg); ("error_code", error_code)]%string in
  if json then
    let member (name value : string) := quote +:+ name +:+ quote +:+ ":" +:+ quote +:+ value +:+ quote in
    let line := "{" +:+ member "timestamp" (json_escape timestamp) +:+ "," +:+ member "level" (to_cstr lv) +:+ ","
                +:+ member "component" (json_escape component) +:+ "," +:+ member "trace_id" (json_escape trace_id) +:+ ","
                +:+ member "correlation_id" (json_escape correlation_id) +:+ ","
                +:+ member "error_code" (json_escape error_code) +:+ "," +:+ member "message" (json_escape msg) +:+ "}" in
    (line, record_log_schema_metrics "json" (looks_like_json_object line) fields)
  else
    let line := timestamp +:+ " [" +:+ to_cstr lv +:+ "] " +:+ msg
                +:+ (if bool_decide (trace_id = EmptyString) then EmptyString else " trace_id=" +:+ trace_id)
                +:+ (if bool_decide (correlation_id = EmptyString) then EmptyString
                     else " correlation_id=" +:+ correlation_id) in
    (line, record_log_schema_metrics "text" (negb (bool_decide (line = EmptyString))) fields).

(** ** Masking

    [lower] is always the lower-case copy of [out], so it is computed from it. *)

Definition lowered (s : chars) : chars := map tolower s.

Fixpoint starts_with (token s : chars) : bool :=
  match token, s with
  | [], _ => true
  | t :: token, c :: s => bool_decide (t = c) && starts_with token s
  | _ :: _, [] => false
  end.

(** [lower.find(token, pos)] for [lower = take pos lower ++ s]: the distance from [pos]. *)
Fixpoint find_chars (token s : chars) : option nat :=
  if starts_with token s then Some 0%nat
  else match s with [] => None | _ :: s => S <$> find_chars token s end.

Definition ends_value (c : Ascii.ascii) : bool :=
  isspace c || existsb (Z.eqb (byte_of_ascii c)) [38; 44; 34; 39; 59].

Fixpoint span_length (f : Ascii.ascii -> bool) (s : chars) : nat :=
  match s with c :: s => if f c then S (span_length f s) else 0 | [] => 0 end.

Definition stars : chars := chars_of "***".

(** The loop of [mask_after]. *)
Fixpoint mask_loop (fuel : nat) (token : chars) (pos : nat) (out : chars) (masked_fields : Z) : option (chars * Z) :=
  match fuel with
  | O => None
  | S fuel =>
      match find_chars token (drop pos (lowered out)) with
      | None => Some (out, masked_fields)
      | Some d =>
          let value_begin := (pos + d + length token)%nat in
          let value_begin := (value_begin + span_length isspace (drop value_begin out))%nat in
          let value_end := (value_begin + span_length (fun c => negb (ends_value c)) (drop value_begin out))%nat in
          if (value_begin <? value_end)%nat
          then mask_loop fuel token (value_begin + 3) (take value_begin out ++ stars ++ drop value_end out)
                 (u64 (masked_fields + 1))
          else mask_loop fuel token (pos + d + length token) out masked_fields
      end
  end.

Definition mask_tokens : list chars :=
  map chars_of ["authorization: bearer "; "token="; "password="; "secret="; "api_key="]%string.

(** Every turn of the loop leaves less behind [pos]. *)
Definition mask_after (token : chars) (st : chars * Z) : option (chars * Z) :=
  mask_loop (S (length st.1)) token 0 st.1 st.2.

Definition mask_sensitive_fields (raw : string) : option (string * Z) :=
  '(out, masked_fields) ← foldl (fun st token => st ≫= mask_after token) (Some (chars_of raw, 0)) mask_tokens;
  Some (str out, masked_fields).

(** ** The logger *)

Record Logger := mkLogger {
  g_level : level;
  g_buffer : list string;
  g_buffer_capacity : Z;
  queue_ : list string;
  capacity_ : Z;
  overflow_policy_ : OverflowPolicy;
  stop_ : bool;
  log_instrs : list instr;
  log_calls : list metric_call;
}.

Definition new_Logger (getenv : string -> option string) : Logger :=
  mkLogger (parse_level_from_env getenv) [] (parse_buffer_capacity_from_env getenv) [] (parse_queue_capacity getenv)
    (parse_overflow_policy getenv) false (register_log_async_queue_capacity (parse_queue_capacity getenv)) [].

Definition set_queue (q : list string) (instrs : list instr) (l : Logger) : Logger :=
  mkLogger (g_level l) (g_buffer l) (g_buffer_capacity l) q (capacity_ l) (overflow_policy_ l) (stop_ l)
    (log_instrs l ++ instrs) (log_calls l).
Definition set_buffer (b : list string) (capacity : Z) (l : Logger) : Logger :=
  mkLogger (g_level l) b capacity (queue_ l) (capacity_ l) (overflow_policy_ l) (stop_ l) (log_instrs l) (log_calls l).
Definition note (instrs : list instr) (calls : list metric_call) (l : Logger) : Logger :=
  mkLogger (g_level l) (g_buffer l) (g_buffer_capacity l) (queue_ l) (capacity_ l) (overflow_policy_ l) (stop_ l)
    (log_instrs l ++ instrs) (log_calls l ++ calls).

Definition enqueue (msg : string) (q : list string) (instrs : list instr) (l : Logger) : Logger :=
  let q := q ++ [msg] in set_queue q (instrs ++ record_log_async_queue_depth (zlen q)) l.

(** [AsyncLogger::push]. *)
Definition push (msg : string) (l : Logger) : option Logger :=
  let q := queue_ l in
  if 0 <? capacity_ l then
    match overflow_policy_ l with
    | kBlock =>
        if negb (stop_ l || (zlen q <? capacity_ l)) then None
        else if stop_ l then Some l
        else Some (enqueue msg q [] l)
    | policy =>
        if capacity_ l <=? zlen q then
          if decide (policy = kDropOldest) then Some (enqueue msg (drop 1 q) record_log_async_queue_drop l)
          else Some (set_queue q (record_log_async_queue_drop ++ record_log_async_queue_depth (zlen q)) l)
        else Some (enqueue msg q [] l)
    end
  else Some (enqueue msg q [] l).

(** One turn of [worker_loop]: the thread ends, or takes a message, which it writes unless
    it is empty; [elapsed] is the time the output takes. *)
Definition worker_turn (elapsed : Z) (l : Logger) : option (Logger * option (list string)) :=
  if negb (stop_ l || negb (bool_decide (queue_ l = []))) then None
  else match queue_ l with
       | [] => Some (l, None)
       | msg :: q =>
           let l := set_queue q (record_log_async_queue_depth (zlen q)) l in
           if bool_decide (msg = EmptyString) then Some (l, Some [])
           else Some (note (record_log_async_flush_latency elapsed) [] l, Some [msg])
       end.

(** The destructor, up to the join of the thread. *)
Definition stop_logger (l : Logger) : Logger :=
  mkLogger (g_level l) (g_buffer l) (g_buffer_capacity l) (queue_ l) (capacity_ l) (overflow_policy_ l) true
    (log_instrs l) (log_calls l).

(** ** Recent lines *)

Definition push_buffer (line : string) (l : Logger) : Logger :=
  if g_buffer_capacity l =? 0 then l
  else
    let b := g_buffer l ++ [line] in
    set_buffer (if g_buffer_capacity l <? zlen b then drop 1 b else b) (g_buffer_capacity l) l.

(** The loop drops from the front until the buffer fits. *)
Definition set_buffer_capacity (capacity : Z) (l : Logger) : Logger :=
  set_buffer (drop (length (g_buffer l) - Z.to_nat capacity) (g_buffer l)) capacity l.

Definition recent (limit : Z) (l : Logger) : list string :=
  let limit := if (limit =? 0) || (zlen (g_buffer l) <? limit) then zlen (g_buffer l) else limit in
  drop (length (g_buffer l) - Z.to_nat limit) (g_buffer l).

Definition set_level (lv : level) (l : Logger) : Logger :=
  mkLogger lv (g_buffer l) (g_buffer_capacity l) (queue_ l) (capacity_ l) (overflow_policy_ l) (stop_ l)
    (log_instrs l) (log_calls l).

(** [emit] up to the queue: the logger and the line to push; [Some None] below the level. *)
Definition prepare (json : bool) (timestamp : string) (ctx : TraceContextState) (lv : level) (msg : string)
    (l : Logger) : option (Logger * option string) :=
  if level_index lv <? level_index (g_level l) then Some (l, None)
  else
    '(sanitized, masked_fields) ← mask_sensitive_fields msg;
    let instrs := if 0 <? masked_fields then record_log_masked_fields masked_fields else [] in
    let '(line, calls) := format_line json timestamp ctx lv sanitized in
    Some (push_buffer line (note instrs calls l), Some line).

(** [emit]: [None] while the thread waits for space in the queue. *)
Definition emit (json : bool) (timestamp : string) (ctx : TraceContextState) (lv : level) (msg : string) (l : Logger) :
    option Logger :=
  '(l, line) ← prepare json timestamp ctx lv msg l;
  match line with None => Some l | Some line => push line l end.

(** ** What a masked text looks like *)

Definition ends_or (s : chars) : bool := match s with [] => true | c :: _ => ends_value c end.

Fixpoint skip_spaces (s : chars) : chars :=
  match s with c :: s' => if isspace c then skip_spaces s' else s | [] => [] end.

(** The text after a token: no value, or three stars that are the whole value. *)
Definition masked_tail (s : chars) : bool :=
  let s := skip_spaces s in ends_or s || (starts_with stars s && ends_or (drop 3 s)).

(** Wherever the token occurs, in upper or lower case, within the first [n] places. *)
Definition masked_upto (n : nat) (token out : chars) : Prop :=
  forall a m b, out = a ++ m ++ b -> lowered m = token -> (length a < n)%nat -> masked_tail b = true.

Definition masked (token out : chars) : Prop :=
  forall a m b, out = a ++ m ++ b -> lowered m = token -> masked_tail b = true.

Definition star : Ascii.ascii := ascii_of_byte 42.

Lemma masked_all n token out : (length out < n)%nat -> masked_upto n token out -> masked token out.
Proof. intros Hn H a m b Heq Hm. apply (H a m b Heq Hm). subst out. rewrite length_app in Hn. lia. Qed.

(** ** Replacing a value *)

Lemma skip_spaces_app sp s : forallb isspace sp = true -> skip_spaces (sp ++ s) = skip_spaces s.
Proof. induction sp as [|c sp IH]; [done|]. cbn. by destruct (isspace c). Qed.

Lemma split_spaces s : exists sp s', s = sp ++ s' /\ forallb isspace sp = true
  /\ match s' with [] => True | c :: _ => isspace c = false end.
Proof.
  induction s as [|c s (sp & s' & -> & Hsp & Hs')]; [by exists [], []|].
  destruct (isspace c) eqn:Hc; [exists (c :: sp), s'; cbn; by rewrite Hc|by exists [], (c :: sp ++ s')].
Qed.

Lemma skip_spaces_none c s : isspace c = false -> skip_spaces (c :: s) = c :: s.
Proof. cbn. by intros ->. Qed.

Lemma ends_value_space c : ends_value c = false -> isspace c = false.
Proof. unfold ends_value. by destruct (isspace c). Qed.

(** The part of the tail before the value does not end in a star, the value is not empty
    and is followed by the end of a value. *)
Lemma masked_tail_replace c v vs r :
  last c <> Some star -> ends_value v = false -> ends_or r = true ->
  masked_tail (c ++ (v :: vs) ++ r) = true -> masked_tail (c ++ stars ++ r) = true.
Proof.
  intros Hlast Hv Hr. destruct (split_spaces c) as (sp & c' & -> & Hsp & Hc'). unfold masked_tail. cbv zeta.
  rewrite <- !(assoc_L (++)), !(skip_spaces_app sp) by done. destruct c' as [|x c'].
  - intros _. change (skip_spaces ([] ++ stars ++ r)) with (stars ++ r).
    change (drop 3 (stars ++ r)) with r. rewrite Hr, andb_true_r. apply orb_true_iff. by right.
  - cbn [app]. rewrite !skip_spaces_none by done. cbn [ends_or]. destruct (ends_value x) eqn:Hx; [done|]. cbn [orb].
    destruct c' as [|y [|z [|w c']]]; try (cbn; intros H; exact H).
    all: intros [H _]%andb_true_iff; exfalso; apply Hlast; rewrite last_app; cbn in H |- *;
      repeat match goal with H : context [bool_decide ?P] |- _ => destruct (bool_decide_reflect P); [subst|done] end; done.
Qed.

Lemma lowered_star m : star ∈ m -> star ∈ lowered m.
Proof. intros H. apply (list_elem_of_fmap_2 tolower) in H. exact H. Qed.

Lemma lowered_length m token : lowered m = token -> length m = length token.
Proof. intros <-. unfold lowered. by rewrite length_map. Qed.

Lemma masked_replace n token p v vs r :
  token <> [] -> star ∉ token -> last p <> Some star -> ends_value v = false -> ends_or r = true ->
  (n <= length p \/ length (p ++ (v :: vs) ++ r) < n)%nat ->
  masked_upto n token (p ++ (v :: vs) ++ r) -> masked_upto n token (p ++ stars ++ r).
Proof.
  intros Hne Hns Hlast Hv Hr Hn H a m b Heq Hm Ha.
  assert (0 < length m)%nat as Hpos by (destruct m; [by subst token|cbn; lia]).
  destruct (decide (length (a ++ m) <= length p)%nat) as [Hle|Hgt].
  - assert (exists c, p = (a ++ m) ++ c /\ b = c ++ stars ++ r) as (c & -> & ->).
    { rewrite (app_assoc a m b) in Heq. apply app_eq_inv in Heq as [(k & Hp & Hb)|(k & Hp & Hb)]; [by exists k|].
      rewrite Hp, length_app in Hle. destruct k; [|cbn in Hle; lia]. exists []. cbn in *. by rewrite app_nil_r in *. }
    apply (masked_tail_replace c v vs r); [|done..|].
    { intros Hc. apply Hlast. rewrite last_app, Hc. done. }
    apply (H a m); [by rewrite <- !(assoc_L (++))|done|done].
  - rewrite length_app in Hgt. destruct (decide (length p + 3 <= length a)%nat) as [Hge|Hlt].
    + destruct Hn as [Hn|Hn]; [lia|].
      assert (exists c, a = (p ++ stars) ++ c /\ r = c ++ m ++ b) as (c & -> & ->).
      { rewrite (app_assoc p stars r) in Heq. apply app_eq_inv in Heq as [(k & Hp & Hb)|(k & Hp & Hb)]; [|by exists k].
        assert (Hl := f_equal length Hp). rewrite !length_app in Hl. cbn in Hl.
        destruct k; [|cbn in Hl; lia]. exists []. cbn in *. by rewrite app_nil_r in *. }
      apply (H (p ++ (v :: vs) ++ c) m b); [by rewrite <- !(assoc_L (++))|done|].
      rewrite !length_app in *. cbn in *. lia.
    + exfalso. apply Hns. rewrite <- Hm. apply lowered_star.
      assert ((p ++ stars ++ r) !! (Nat.max (length a) (length p)) = Some star) as Hi.
      { rewrite lookup_app_r by lia. destruct (Nat.max (length a) (length p) - length p)%nat as [|[|[|]]] eqn:E; [done..|lia]. }
      rewrite Heq, lookup_app_r, lookup_app_l in Hi by lia. by eapply list_elem_of_lookup_2.
Qed.

(** ** The loop *)

(** A token that can be masked: it does not begin like a value or a replacement, has no
    star, and does not overlap with itself. *)
Record maskable (token : chars) : Prop := {
  token_some : token <> [];
  token_plain : star ∉ token;
  token_head : match token with c :: _ => isspace c = false | [] => True end;
  token_last : last token <> Some star;
  token_border : forall k, (0 < k < length token)%nat -> drop k token <> take (length token - k) token;
}.

Lemma starts_with_app token s : starts_with token s = true <-> exists b, s = token ++ b.
Proof.
  revert s. induction token as [|t token IH]; intros s; cbn; [split; [by eexists|done]|].
  destruct s as [|c s]; [by split; [|intros [? [=]]]|]. rewrite andb_true_iff, bool_decide_eq_true, IH. split.
  - intros [-> [b ->]]. by exists b.
  - intros [b [= -> ->]]. eauto.
Qed.

Lemma find_chars_spec token s :
  match find_chars token s with
  | Some d => exists b, s = take d s ++ token ++ b /\ (d <= length s)%nat
              /\ forall a b', s = a ++ token ++ b' -> (d <= length a)%nat
  | None => forall a b, s <> a ++ token ++ b
  end.
Proof.
  induction s as [|c s IH]; cbn [find_chars]; destruct (starts_with token _) eqn:Hs.
  - apply starts_with_app in Hs as [b Hb]. exists b. split_and!; [done|lia|intros; lia].
  - intros a b Heq. apply not_true_iff_false in Hs. apply Hs, starts_with_app.
    symmetry in Heq. apply app_eq_nil in Heq as [-> Heq]. by exists b.
  - apply starts_with_app in Hs as [b Hb]. exists b. split_and!; [done|lia|intros; lia].
  - apply not_true_iff_false in Hs. rewrite starts_with_app in Hs. destruct (find_chars token s) as [d|]; cbn.
    + destruct IH as (b & Hb & Hd & Hmin). exists b. split_and!; [by f_equal|lia|].
      intros [|x a] b' Heq; [destruct Hs; by exists b'|]. injection Heq as -> Heq. apply Hmin in Heq. cbn. lia.
    + intros [|x a] b Heq; [apply Hs; by exists b|]. injection Heq as -> Heq. by eapply IH.
Qed.

Lemma next_occurrence token out pos :
  token <> [] ->
  match find_chars token (drop pos (lowered out)) with
  | Some d => exists a m b, out = a ++ m ++ b /\ length a = (pos + d)%nat /\ lowered m = token
              /\ forall a' m' b', out = a' ++ m' ++ b' -> lowered m' = token -> (pos <= length a' -> length a <= length a')%nat
  | None => forall a m b, out = a ++ m ++ b -> lowered m = token -> (length a < pos)%nat
  end.
Proof.
  intros Hne. pose proof (find_chars_spec token (drop pos (lowered out))) as H.
  assert (forall a m b, out = a ++ m ++ b -> lowered m = token -> (pos <= length a)%nat ->
            drop pos (lowered out) = drop pos (lowered a) ++ token ++ lowered b) as Hocc.
  { intros a m b -> <- Hpos. unfold lowered. rewrite !map_app, drop_app_le by (by rewrite length_map). done. }
  destruct (find_chars _ _) as [d|].
  - destruct H as (s & Hs & Hd & Hmin). set (q := (pos + d)%nat).
    assert (drop q (lowered out) = token ++ s) as Hq.
    { unfold q. rewrite <- drop_drop, Hs, drop_app_length'; [done|]. rewrite length_take. lia. }
    assert (q + length token + length s = length out)%nat as Hlen.
    { apply (f_equal length) in Hq. rewrite length_drop, length_app in Hq. unfold lowered in Hq. rewrite length_map in Hq.
      destruct token; [done|]. cbn in *. lia. }
    exists (take q out), (take (length token) (drop q out)), (drop (length token) (drop q out)).
    split_and!; [by rewrite !take_drop|rewrite length_take; lia| |].
    + unfold lowered in *. by rewrite <- firstn_map, <- skipn_map, Hq, take_app_length.
    + intros a m b Heq Hm Hpos. rewrite length_take. pose proof (Hmin _ _ (Hocc a m b Heq Hm Hpos)) as Hle.
      rewrite length_drop in Hle. unfold lowered in Hle. rewrite length_map in Hle. lia.
  - intros a m b Heq Hm. destruct (decide (length a < pos)%nat); [done|]. edestruct H. apply (Hocc a m b); [done..|lia].
Qed.

Lemma no_overlap token a m b a' m' b' :
  maskable token -> a ++ m ++ b = a' ++ m' ++ b' -> lowered m = token -> lowered m' = token ->
  (length a < length a' < length a + length token)%nat -> False.
Proof.
  intros Ht Heq Hm Hm' Hlen. set (k := (length a' - length a)%nat).
  pose proof (lowered_length _ _ Hm) as Lm. pose proof (lowered_length _ _ Hm') as Lm'.
  apply (token_border _ Ht k); [unfold k; lia|].
  assert (drop k m ++ b = m' ++ b') as Hd.
  { apply (f_equal (drop (length a'))) in Heq. rewrite drop_app_length in Heq. rewrite <- Heq.
    rewrite drop_app_ge by lia. rewrite drop_app_le by (fold k; unfold k; lia). done. }
  apply (f_equal (take (length token - k))) in Hd.
  rewrite take_app_length', take_app_le in Hd by (rewrite ?length_drop; unfold k in *; lia).
  rewrite <- Hm at 1. rewrite <- Hm' at 2. unfold lowered. rewrite skipn_map, firstn_map. by rewrite Hd.
Qed.

Lemma isspace_tolower c : isspace (tolower c) = isspace c.
Proof. destruct c as [[] [] [] [] [] [] [] []]; reflexivity. Qed.

Lemma span_length_split f s :
  s = take (span_length f s) s ++ drop (span_length f s) s
  /\ Forall (fun c => f c = true) (take (span_length f s) s)
  /\ match drop (span_length f s) s with c :: _ => f c = false | [] => True end.
Proof.
  split; [by rewrite take_drop|]. induction s as [|c s IH]; cbn; [by split|]. destruct (f c) eqn:Hc; cbn; [|by split].
  destruct IH. by split; [constructor|].
Qed.

Lemma skip_spaces_span s : skip_spaces s = drop (span_length isspace s) s.
Proof. induction s as [|c s IH]; [done|]. cbn. by destruct (isspace c). Qed.

(** What the loop finds behind a token: spaces, a value, and the end of the value. *)
Lemma token_value b :
  exists sp v r, b = sp ++ v ++ r /\ skip_spaces b = v ++ r
    /\ length sp = span_length isspace b
    /\ length v = span_length (fun c => negb (ends_value c)) (drop (span_length isspace b) b)
    /\ Forall (fun c => isspace c = true) sp /\ Forall (fun c => ends_value c = false) v /\ ends_or r = true.
Proof.
  destruct (span_length_split isspace b) as (Hb & Hsp & _). set (n := span_length isspace b) in *.
  destruct (span_length_split (fun c => negb (ends_value c)) (drop n b)) as (Hv & Hval & Hr).
  set (k := span_length _ (drop n b)) in *.
  assert (forall f (s : chars), (span_length f s <= length s)%nat) as Hle.
  { intros f s. induction s as [|c s IH]; cbn; [lia|]. destruct (f c); lia. }
  exists (take n b), (take k (drop n b)), (drop k (drop n b)). split_and!.
  - by rewrite <- Hv.
  - by rewrite skip_spaces_span, <- Hv.
  - rewrite length_take. pose proof (Hle isspace b). unfold n. lia.
  - rewrite length_take. pose proof (Hle (fun c => negb (ends_value c)) (drop n b)). fold k in H. lia.
  - done.
  - eapply Forall_impl; [exact Hval|]. intros c. cbn. by destruct (ends_value c).
  - revert Hr. unfold ends_or. destruct (drop k (drop n b)) as [|c r]; [done|]. by destruct (ends_value c).
Qed.

Lemma last_before_value a m sp token :
  maskable token -> lowered m = token -> Forall (fun c => isspace c = true) sp -> last (a ++ m ++ sp) <> Some star.
Proof.
  intros Ht Hm Hsp. rewrite !last_app. destruct (last sp) as [c|] eqn:Hl.
  - intros [= ->]. apply last_Some_elem_of in Hl. rewrite Forall_forall in Hsp. by specialize (Hsp _ Hl).
  - destruct (last m) as [c|] eqn:Hlm; [|apply last_None in Hlm; subst m; by destruct (token_some _ Ht)].
    intros [= ->]. apply (token_last _ Ht). rewrite <- Hm. unfold lowered. by rewrite fmap_last, Hlm.
Qed.

(** Text that a longer one shares with its beginning. *)
Lemma common_prefix (p s a b : chars) : p ++ s = a ++ b -> (length a <= length p)%nat -> exists c, p = a ++ c.
Proof.
  intros Heq Hle. apply app_eq_inv in Heq as [(k & -> & _)|(k & -> & _)]; [by exists k|].
  rewrite length_app in Hle. destruct k; [|cbn in Hle; lia]. exists []. by rewrite !app_nil_r.
Qed.

(** No occurrence begins among the spaces before a value or in its replacement. *)
Lemma no_token_in_gap token p sp r a m b :
  maskable token -> Forall (fun c => isspace c = true) sp -> lowered m = token ->
  (p ++ sp) ++ stars ++ r = a ++ m ++ b -> (length p <= length a)%nat -> (length p + length sp + 3 <= length a)%nat.
Proof.
  intros Ht Hsp Hm Heq Hle. destruct (decide (length p + length sp + 3 <= length a)%nat) as [|Hlt]; [done|]. exfalso.
  destruct m as [|c m]; [subst token; by destruct (token_some _ Ht)|].
  assert (((p ++ sp) ++ stars ++ r) !! length a = Some c) as Hat.
  { rewrite Heq, lookup_app_r, Nat.sub_diag by lia. done. }
  destruct (decide (length a < length (p ++ sp))%nat) as [H|H].
  - rewrite lookup_app_l, lookup_app_r in Hat by lia. apply list_elem_of_lookup_2 in Hat.
    rewrite Forall_forall in Hsp. apply Hsp in Hat.
    pose proof (token_head _ Ht) as Hh. rewrite <- Hm in Hh. cbn in Hh. rewrite isspace_tolower in Hh. congruence.
  - rewrite lookup_app_r in Hat by lia. apply (token_plain _ Ht). rewrite <- Hm. apply lowered_star.
    rewrite length_app in H, Hat.
    destruct (length a - (length p + length sp))%nat as [|[|[|]]] eqn:E; [injection Hat as <-; left..|lia].
Qed.

(** One turn with a value. *)
Lemma masked_turn token pos a m sp v vs r :
  maskable token -> lowered m = token -> (pos <= length a)%nat ->
  Forall (fun c => isspace c = true) sp -> ends_value v = false -> ends_or r = true ->
  (forall a' m' b', a ++ m ++ sp ++ (v :: vs) ++ r = a' ++ m' ++ b' -> lowered m' = token ->
     (pos <= length a' -> length a <= length a')%nat) ->
  masked_upto pos token (a ++ m ++ sp ++ (v :: vs) ++ r) ->
  masked_upto (length (a ++ m ++ sp) + 3) token ((a ++ m ++ sp) ++ stars ++ r).
Proof.
  intros Ht Hm Hpos Hsp Hv Hr Hmin Hold a' m' b' Heq Hm' Hlen.
  pose proof (lowered_length _ _ Hm) as Lm. pose proof (lowered_length _ _ Hm') as Lm'.
  assert (a ++ m ++ sp ++ (v :: vs) ++ r = (a ++ m ++ sp) ++ (v :: vs) ++ r) as Hp by (by rewrite <- !app_assoc).
  rewrite !length_app in Hlen. rewrite Hp in *. destruct (decide (length a' < pos)%nat) as [H1|H1].
  { apply (masked_replace pos token (a ++ m ++ sp) v vs r) with a' m'; try done;
      [apply (token_some _ Ht)|apply (token_plain _ Ht)|by eapply last_before_value|rewrite length_app; lia]. }
  destruct (decide (length a' < length a)%nat) as [H2|H2].
  { exfalso. destruct (common_prefix (a ++ m ++ sp) (stars ++ r) (a' ++ m') b') as [c Hc].
    - by rewrite Heq, app_assoc.
    - rewrite !length_app. lia.
    - specialize (Hmin a' m' (c ++ (v :: vs) ++ r)). rewrite Hc, <- !app_assoc in Hmin. specialize (Hmin eq_refl Hm'). lia. }
  destruct (decide (length a' = length a)) as [H3|H3].
  { assert (b' = sp ++ stars ++ r) as ->.
    { rewrite <- !app_assoc in Heq. apply app_inj_1 in Heq as [_ Heq]; [|lia].
      by apply app_inj_1 in Heq as [_ ->]; [|lia]. }
    unfold masked_tail. cbv zeta. rewrite skip_spaces_app.
    - change (skip_spaces (stars ++ r)) with (stars ++ r). change (drop 3 (stars ++ r)) with r.
      rewrite Hr. apply orb_true_iff. by right.
    - apply forallb_forall. intros c Hc%list_elem_of_In. rewrite Forall_forall in Hsp. by apply Hsp. }
  exfalso. destruct (decide (length a' < length a + length token)%nat) as [H4|H4].
  - apply (no_overlap token a m (sp ++ stars ++ r) a' m' b'); try done; [|lia]. rewrite <- Heq. by rewrite <- !app_assoc.
  - rewrite (app_assoc a m sp) in Heq. pose proof (no_token_in_gap _ _ _ _ _ _ _ Ht Hsp Hm' Heq) as H.
    rewrite length_app in H. lia.
Qed.

(** A turn without one. *)
Lemma masked_no_value token pos a m b :
  maskable token -> lowered m = token -> masked_tail b = true ->
  (forall a' m' b', a ++ m ++ b = a' ++ m' ++ b' -> lowered m' = token -> (pos <= length a' -> length a <= length a')%nat) ->
  masked_upto pos token (a ++ m ++ b) -> masked_upto (length a + length token) token (a ++ m ++ b).
Proof.
  intros Ht Hm Hb Hmin Hold a' m' b' Heq Hm' Hlen. destruct (decide (length a' < pos)%nat) as [H|H]; [by eapply Hold|].
  pose proof (Hmin a' m' b' Heq Hm' ltac:(lia)). destruct (decide (length a' = length a)) as [H3|H3].
  - apply app_inj_1 in Heq as [_ Heq]; [|lia]. apply app_inj_1 in Heq as [_ <-]; [done|].
    by rewrite (lowered_length _ _ Hm), (lowered_length _ _ Hm').
  - exfalso. apply (no_overlap token a m b a' m' b'); try done. lia.
Qed.

Lemma mask_loop_masks fuel token pos out k :
  maskable token -> (length out < fuel + pos)%nat -> (pos <= length out)%nat -> masked_upto pos token out ->
  exists out' k', mask_loop fuel token pos out k = Some (out', k') /\ masked token out'
    /\ forall token', maskable token' -> masked token' out -> masked token' out'.
Proof.
  intros Ht. revert pos out k. induction fuel as [|fuel IH]; intros pos out k Hf Hpos Hold; [lia|]. cbn [mask_loop].
  pose proof (next_occurrence token out pos (token_some _ Ht)) as Hnext. destruct (find_chars _ _) as [d|].
  2:{ exists out, k. split_and!; [done| |done]. intros a m b Heq Hm. apply (Hold a m b Heq Hm). by eapply Hnext. }
  destruct Hnext as (a & m & b & -> & La & Hm & Hmin).
  pose proof (lowered_length _ _ Hm) as Lm.
  assert (0 < length token)%nat as Lt by (pose proof (token_some _ Ht); destruct token; [done|cbn; lia]).
  destruct (token_value b) as (sp & v & r & Hb & Hskip & Lsp & Lv & Hsp & Hv & Hr).
  assert (drop (pos + d + length token) (a ++ m ++ b) = b) as Hdrop.
  { rewrite app_assoc. apply drop_app_length'. rewrite length_app. lia. }
  rewrite Hdrop, <- (drop_drop _ (span_length _ _)), Hdrop, <- Lv, <- Lsp.
  destruct v as [|v vs].
  - rewrite (proj2 (Nat.ltb_ge _ _)) by (cbn; lia). apply IH; [rewrite !length_app in *; lia..|].
    rewrite <- La. apply (masked_no_value token pos); try done. unfold masked_tail. cbv zeta. rewrite Hskip. cbn [app]. by rewrite Hr.
  - rewrite (proj2 (Nat.ltb_lt _ _)) by (cbn; lia).
    assert (take (pos + d + length token + length sp) (a ++ m ++ b) = a ++ m ++ sp) as ->.
    { rewrite Hb, !app_assoc, <- (app_assoc _ (v :: vs)). apply take_app_length'. rewrite !length_app. lia. }
    assert (drop (pos + d + length token + length sp + length (v :: vs)) (a ++ m ++ b) = r) as ->.
    { rewrite Hb, !app_assoc. apply drop_app_length'. rewrite !length_app. lia. }
    apply Forall_cons in Hv as [Hv0 Hvs].
    assert (a ++ m ++ b = (a ++ m ++ sp) ++ (v :: vs) ++ r) as Hout by (rewrite Hb; by rewrite <- !app_assoc).
    destruct (IH (pos + d + length token + length sp + 3)%nat ((a ++ m ++ sp) ++ stars ++ r) (u64 (k + 1)))
      as (out' & k' & Heq & Hmask & Hkeep).
    + rewrite Hb in Hf. rewrite !length_app in *. cbn in *. lia.
    + rewrite !length_app. cbn. lia.
    + replace (pos + d + length token + length sp + 3)%nat with (length (a ++ m ++ sp) + 3)%nat by (rewrite !length_app; lia).
      rewrite Hb in Hmin, Hold. apply (masked_turn token pos a m sp v vs r); try done. lia.
    + exists out', k'. split_and!; [done..|]. intros token' Ht' Hm'. apply Hkeep; [done|].
      eapply (masked_all (S (length ((a ++ m ++ sp) ++ stars ++ r) + length (a ++ m ++ b)))); [lia|].
      apply (masked_replace _ token' _ v vs); [apply (token_some _ Ht')|apply (token_plain _ Ht')|by apply (last_before_value a m sp token)|done..| |].
      * right. rewrite <- Hout. lia.
      * rewrite <- Hout. intros a' m' b' H1 H2 _. by eapply Hm'.
Qed.

Lemma mask_tokens_maskable : Forall maskable mask_tokens.
Proof.
  assert (forall t : chars, forallb (fun k => negb (bool_decide (drop k t = take (length t - k) t))) (seq 1 (length t - 1)) = true ->
            forall k, (0 < k < length t)%nat -> drop k t <> take (length t - k) t) as Hb.
  { intros t H k Hk Heq. rewrite forallb_forall in H. specialize (H k). rewrite bool_decide_true in H by done.
    apply diff_false_true, H. apply in_seq. lia. }
  repeat constructor; try done; try (by apply Hb); by_decide.
Qed.

(** C27. Masking ends for every message, and in its result each of the five tokens, wherever it
    occurs and in whatever case, is followed by three stars as its whole value, or by none. *)
Theorem masking_complete raw :
  exists out n, mask_sensitive_fields raw = Some (out, n)
    /\ forall token, token ∈ mask_tokens -> masked token (chars_of out).
Proof.
  unfold mask_sensitive_fields.
  assert (forall ts out n, Forall maskable ts ->
            exists out' n', foldl (fun st token => st ≫= mask_after token) (Some (out, n)) ts = Some (out', n')
              /\ (forall t, maskable t -> masked t out -> masked t out') /\ forall t, t ∈ ts -> masked t out') as H.
  { induction ts as [|t ts IH]; intros out n Hts; [exists out, n; split_and!; [done..|]; by intros t ?%elem_of_nil|].
    apply Forall_cons in Hts as [Ht Hts]. cbn [foldl].
    change (Some (out, n) ≫= mask_after t) with (mask_loop (S (length out)) t 0 out n).
    destruct (mask_loop_masks (S (length out)) t 0 out n Ht) as (o1 & n1 & -> & Hm & Hk); [lia..|intros ??????; lia|].
    destruct (IH o1 n1 Hts) as (o2 & n2 & Heq & Hk2 & Hts2). exists o2, n2. split_and!; [done|by eauto|].
    intros t' [->|Hin]%elem_of_cons; eauto. }
  destruct (H mask_tokens (chars_of raw) 0 mask_tokens_maskable) as (out & n & -> & _ & Hall).
  exists (str out), n. split; [done|]. intros t Hin. unfold chars_of. rewrite String.list_ascii_of_string_of_list_ascii. by apply Hall.
Qed.

(** A value in quotes is not masked: the quote ends it before it begins. *)
Lemma quoted_values_not_masked :
  mask_sensitive_fields ("password=" +:+ quote +:+ "hunter2" +:+ quote)
  = Some ("password=" +:+ quote +:+ "hunter2" +:+ quote, 0)
  /\ mask_sensitive_fields "Password=hunter2 user=bob" = Some ("Password=*** user=bob"%string, 1).
Proof. split; vm_compute; reflexivity. Qed.

(** ** The queue *)

(** The logger with the lines handed to it and the lines written. *)
Record LogRun := mkLogRun { logger : Logger; handed : list string; written : list string }.

Inductive log_step : LogRun -> LogRun -> Prop :=
  | step_push line l h w l' :
      line <> EmptyString -> push line l = Some l' -> log_step (mkLogRun l h w) (mkLogRun l' (h ++ [line]) w)
  | step_worker elapsed l h w l' ls :
      worker_turn elapsed l = Some (l', Some ls) -> log_step (mkLogRun l h w) (mkLogRun l' h (w ++ ls))
  | step_prepare json timestamp ctx lv msg l h w l' line :
      prepare json timestamp ctx lv msg l = Some (l', line) -> log_step (mkLogRun l h w) (mkLogRun l' h w)
  | step_set_level lv l h w : log_step (mkLogRun l h w) (mkLogRun (set_level lv l) h w)
  | step_set_buffer_capacity n l h w : log_step (mkLogRun l h w) (mkLogRun (set_buffer_capacity n l) h w).

(** What instructions add to the drop counter. *)
Definition drops_in (ins : list instr) : Z := zsum (map (weight log_async_queue_drop_total) ins).
Definition dropped (l : Logger) : Z := drops_in (log_instrs l).
#[local] Arguments drops_in : simpl never.
#[local] Arguments dropped : simpl never.

(** The lines on their way are in order among those handed in, their number and the drop
    counter add up, and the queue keeps its limit. *)
Record log_inv (st : LogRun) : Prop := {
  inv_order : sublist (written st ++ queue_ (logger st)) (handed st);
  inv_count : zlen (handed st) = zlen (written st ++ queue_ (logger st)) + dropped (logger st);
  inv_bound : 0 < capacity_ (logger st) -> zlen (queue_ (logger st)) <= capacity_ (logger st);
  inv_some : Forall (fun line => line <> EmptyString) (queue_ (logger st));
  inv_running : stop_ (logger st) = false;
}.

Lemma drops_in_app a b : drops_in (a ++ b) = drops_in a + drops_in b.
Proof. unfold drops_in, zsum. induction a as [|i a IH]; cbn in *; lia. Qed.

Lemma log_inv_enqueue line l h w q ins :
  line <> EmptyString -> log_inv (mkLogRun l h w) ->
  (exists d, queue_ l = d ++ q /\ drops_in ins = zlen d) ->
  (0 < capacity_ l -> zlen q < capacity_ l) ->
  log_inv (mkLogRun (enqueue line q ins l) (h ++ [line]) w).
Proof.
  intros Hl [Ho Hc Hb Hs Hr] (d & Hd & Hw) Hq. cbn in *. rewrite Hd in *. constructor; cbn.
  - rewrite app_assoc. apply sublist_app; [|done]. etrans; [|exact Ho]. apply sublist_app; [done|]. by apply sublist_inserts_l.
  - unfold dropped in *. cbn [enqueue set_queue log_instrs]. rewrite !drops_in_app, Hw.
    change (drops_in (record_log_async_queue_depth _)) with 0. rewrite !length_app in *. cbn. lia.
  - rewrite length_app. cbn. lia.
  - apply Forall_app. split; [by apply Forall_app in Hs as [_ ?]|by constructor].
  - done.
Qed.

Lemma log_inv_same l h w l' :
  queue_ l' = queue_ l -> capacity_ l' = capacity_ l -> stop_ l' = stop_ l -> dropped l' = dropped l ->
  log_inv (mkLogRun l h w) -> log_inv (mkLogRun l' h w).
Proof. intros Hq Hc Hs Hd [H1 H2 H3 H4 H5]. cbn in *. constructor; cbn; by rewrite ?Hq, ?Hc, ?Hs, ?Hd. Qed.

Lemma push_inv line l h w l' :
  line <> EmptyString -> push line l = Some l' -> log_inv (mkLogRun l h w) -> log_inv (mkLogRun l' (h ++ [line]) w).
Proof.
  intros Hl Hp Hi. pose proof (inv_bound _ Hi) as Hb. pose proof (inv_running _ Hi) as Hr. cbn in Hb, Hr. unfold push in Hp.
  assert ((0 < capacity_ l -> zlen (queue_ l) < capacity_ l) -> log_inv (mkLogRun (enqueue line (queue_ l) [] l) (h ++ [line]) w)) as Hput.
  { intros Hq. apply log_inv_enqueue; try done. by exists []. }
  destruct (Z.ltb_spec 0 (capacity_ l)) as [Hcap|Hcap]; [|injection Hp as <-; apply Hput; lia].
  destruct (overflow_policy_ l); rewrite ?Hr in Hp; cbn in Hp;
    try (destruct (Z.leb_spec (capacity_ l) (zlen (queue_ l))); [injection Hp as <-|injection Hp as <-; by apply Hput]).
  - destruct Hi as [Ho Hc _ Hs _]. constructor; cbn in *; try done.
    + by apply sublist_inserts_r.
    + unfold dropped in *. cbn [set_queue log_instrs]. rewrite drops_in_app.
      change (drops_in (_ :: record_log_async_queue_depth _)) with 1. rewrite !length_app in *. cbn. lia.
  - destruct (queue_ l) as [|x q] eqn:Hq; [cbn in *; lia|]. apply log_inv_enqueue; [done..| |].
    + exists [x]. by rewrite Hq.
    + cbn [drop] in *. rewrite drop_0. cbn in *. lia.
  - destruct (Z.ltb_spec (zlen (queue_ l)) (capacity_ l)); cbn in Hp; [injection Hp as <-; by apply Hput|done].
Qed.

(** Only a push can drop a line. *)
Lemma worker_dropped elapsed l l' ls : worker_turn elapsed l = Some (l', Some ls) -> dropped l' = dropped l.
Proof.
  unfold worker_turn. destruct (negb _); [done|]. destruct (queue_ l) as [|x q]; [done|].
  destruct (bool_decide (x = EmptyString)); intros [= <- _]; unfold dropped; cbn; rewrite !drops_in_app;
    change (drops_in (record_log_async_queue_depth _)) with 0; [lia|].
  assert (drops_in (record_log_async_flush_latency elapsed) = 0) as ->
    by (unfold record_log_async_flush_latency; by destruct (_ =? 0)). lia.
Qed.

Lemma prepare_keeps json ts ctx lv msg l l' line :
  prepare json ts ctx lv msg l = Some (l', line) ->
  queue_ l' = queue_ l /\ capacity_ l' = capacity_ l /\ overflow_policy_ l' = overflow_policy_ l
  /\ stop_ l' = stop_ l /\ dropped l' = dropped l.
Proof.
  unfold prepare. destruct (_ <? _); [by intros [= <- _]|].
  destruct (mask_sensitive_fields msg) as [[out n]|]; [|done]. cbn. destruct (format_line _ _ _ _ _) as [t calls].
  intros [= <- _]. set (noted := if 0 <? n then _ else _).
  assert (drops_in noted = 0) by (unfold noted, record_log_masked_fields; destruct (0 <? n); [by destruct (n =? 0)|done]).
  unfold push_buffer. destruct (_ =? 0); split_and!; try done; unfold dropped; cbn; rewrite drops_in_app; lia.
Qed.

Lemma worker_inv elapsed l h w l' ls :
  worker_turn elapsed l = Some (l', Some ls) -> log_inv (mkLogRun l h w) -> log_inv (mkLogRun l' h (w ++ ls)).
Proof.
  intros Ht [Ho Hc Hb Hs Hr]. cbn in *. pose proof (worker_dropped _ _ _ _ Ht) as Hd. unfold worker_turn in Ht.
  rewrite Hr in Ht. destruct (queue_ l) as [|x q] eqn:Hq; [done|]. apply Forall_cons in Hs as [Hx Hs]. cbn in Ht.
  rewrite bool_decide_false in Ht by done. injection Ht as <- <-. constructor; cbn; try done.
  - by rewrite <- app_assoc.
  - rewrite Hd, !length_app in *. cbn in *. lia.
  - cbn in Hb. lia.
Qed.

Lemma log_step_inv st st' : log_step st st' -> log_inv st -> log_inv st'.
Proof.
  destruct 1 as [| |json ts ctx lv msg l h w l' line Hp| |]; eauto using push_inv, worker_inv; intros Hi.
  - apply prepare_keeps in Hp as (? & ? & ? & ? & ?). by apply (log_inv_same l).
  - by apply (log_inv_same l).
  - by apply (log_inv_same l).
Qed.

Lemma log_step_settings st st' : log_step st st' ->
  capacity_ (logger st') = capacity_ (logger st) /\ overflow_policy_ (logger st') = overflow_policy_ (logger st).
Proof.
  destruct 1 as [line l h w l' _ Hp|elapsed l h w l' ls Hw|json ts ctx lv msg l h w l' line Hp| |]; cbn; try done.
  - unfold push in Hp. repeat case_match; by simplify_eq.
  - unfold worker_turn in Hw. repeat case_match; by simplify_eq.
  - by apply prepare_keeps in Hp as (? & ? & ? & ? & ?).
Qed.

Definition idle_logger (cap : Z) (policy : OverflowPolicy) : Logger := mkLogger info [] 256 [] cap policy false [] [].

(** With the policy that blocks nothing is dropped. *)
Lemma block_keeps st st' :
  log_step st st' -> overflow_policy_ (logger st) = kBlock -> dropped (logger st') = dropped (logger st).
Proof.
  destruct 1 as [line l h w l' _ Hp|elapsed l h w l' ls Hw|json ts ctx lv msg l h w l' line Hp| |]; cbn; try done; intros Hb.
  - unfold push in Hp. rewrite Hb in Hp.
    assert (dropped (enqueue line (queue_ l) [] l) = dropped l) as Hq.
    { unfold dropped. cbn. rewrite drops_in_app. change (drops_in _) with 0 at 2. lia. }
    repeat case_match; by simplify_eq.
  - by eapply worker_dropped.
  - by apply prepare_keeps in Hp as (? & ? & ? & ? & ?).
Qed.

(** Lines keep their order from the callers to the output, none is written twice, and
    every line that does not arrive is counted by the drop counter; the queue never grows
    beyond its limit.  With the policy that blocks, none is dropped. *)
Theorem log_lines_accounted cap policy st :
  rtc log_step (mkLogRun (idle_logger cap policy) [] []) st ->
  sublist (written st ++ queue_ (logger st)) (handed st)
  /\ zlen (handed st) = zlen (written st ++ queue_ (logger st)) + dropped (logger st)
  /\ (0 < cap -> zlen (queue_ (logger st)) <= cap)
  /\ (policy = kBlock -> dropped (logger st) = 0).
Proof.
  intros Hr. set (P := fun st => log_inv st /\ capacity_ (logger st) = cap /\ overflow_policy_ (logger st) = policy
                              /\ (policy = kBlock -> dropped (logger st) = 0)).
  assert (P st) as ([Ho Hc Hb _ _] & Hcap & _ & Hk); [|by rewrite Hcap in Hb].
  apply (rtc_preserved P Hr).
  - intros s1 s2 (Hi & Hcap & Hpol & Hk) Hs. destruct (log_step_settings _ _ Hs) as [Hc' Hp'].
    split_and!; [by eapply log_step_inv|congruence..|]. intros Hb. rewrite (block_keeps _ _ Hs) by congruence. auto.
  - unfold P. split_and!; try done. constructor; cbn; try done. lia.
Qed.

Lemma log_lines_accounted_witness :
  exists st, rtc log_step (mkLogRun (idle_logger 1 kDropOldest) [] []) st
    /\ handed st = ["a"; "b"]%string /\ queue_ (logger st) = ["b"%string]
    /\ zlen (handed st) = zlen (written st ++ queue_ (logger st)) + dropped (logger st).
Proof.
  destruct (push "a" (idle_logger 1 kDropOldest)) as [l1|] eqn:H1; [|done].
  destruct (push "b" l1) as [l2|] eqn:H2; [|vm_compute in H1; by injection H1 as <-].
  assert (rtc log_step (mkLogRun (idle_logger 1 kDropOldest) [] []) (mkLogRun l2 ["a"; "b"]%string [])) as Hr.
  { eapply rtc_l; [apply (step_push "a"); done|]. eapply rtc_l; [apply (step_push "b"); done|]. apply rtc_refl. }
  exists (mkLogRun l2 ["a"; "b"]%string []). split; [exact Hr|]. split; [reflexivity|].
  split; [vm_compute in H1; injection H1 as <-; vm_compute in H2; by injection H2 as <-|].
  exact (proj1 (proj2 (log_lines_accounted _ _ _ Hr))).
Defined.

(** The thread after [stop_]: turns until it ends. *)
Fixpoint drain (times : list Z) (l : Logger) : option (list string) :=
  match times with
  | [] => None
  | elapsed :: times =>
      match worker_turn elapsed l with
      | None => None
      | Some (_, None) => Some []
      | Some (l, Some ls) => app ls <$> drain times l
      end
  end.

(** When the program ends, the thread writes every line that is still queued and then
    stops; it needs one turn per line and one to see that there are no more. *)
Theorem logger_flushes_on_exit l times :
  Forall (fun line => line <> EmptyString) (queue_ l) -> (length (queue_ l) < length times)%nat ->
  drain times (stop_logger l) = Some (queue_ l).
Proof.
  intros Hs Hlen.
  assert (forall q l, queue_ l = q -> stop_ l = true -> Forall (fun line => line <> EmptyString) q ->
            forall times, (length q < length times)%nat -> drain times l = Some q) as H; [|by apply H].
  clear l times Hs Hlen. induction q as [|x q IH]; intros l Hq Hstop Hs [|elapsed times] Hlen; try (cbn in Hlen; lia);
    cbn [drain]; unfold worker_turn; rewrite Hq, Hstop; [done|].
  apply Forall_cons in Hs as [Hx Hs]. cbn [negb orb]. rewrite bool_decide_false by done.
  rewrite (IH (note (record_log_async_flush_latency elapsed) [] (set_queue q (record_log_async_queue_depth (zlen q)) l)));
    [done|done|done|done|cbn in Hlen; lia].
Qed.

Lemma logger_flushes_on_exit_witness :
  drain [1; 1; 1] (stop_logger (mkLogger info [] 256 ["a"; "b"]%string 8 kBlock false [] [])) = Some ["a"; "b"]%string.
Proof. apply logger_flushes_on_exit; [repeat constructor; done|cbn; lia]. Defined.
