(* ===== verification/ServerConfig.v ===== *)
(** The configuration of a server, [server/app/config.hpp] and [config.cpp]: defaults, the
    command line and the environment.

    [getenv] is a parameter, [argv1] the first argument.  [None] is an exception of
    [std::stoi] that leaves [load]. *)

From S2P Require Import Prelude Text ChatText GatewayConfig HttpServer.

Record ServerConfig := mkServerConfig {
  port : Z;
  log_buffer_capacity : Z;
  job_queue_max : Z;
  db_job_queue_max : Z;
  advertise_host : string;
  advertise_port : Z;
  registry_heartbeat_interval : Z;
  registry_prefix : string;
  registry_ttl : Z;
  server_instance_id : string;
  server_role : string;
  server_game_mode : string;
  server_region : string;
  server_shard : string;
  server_tags : list string;
  db_uri : string;
  db_pool_min : Z;
  db_pool_max : Z;
  db_conn_timeout_ms : Z;
  db_query_timeout_ms : Z;
  db_prepare_statements : bool;
  db_worker_threads : Z;
  redis_uri : string;
  redis_pool_max : Z;
  redis_use_streams : bool;
  presence_clean_on_start : bool;
  redis_channel_prefix : string;
  use_redis_pubsub : bool;
  gateway_id : string;
  shutdown_drain_timeout_ms : Z;
  shutdown_drain_poll_ms : Z;
  admin_command_signing_secret : string;
  admin_command_ttl_ms : Z;
  admin_command_future_skew_ms : Z;
  lua_enabled : bool;
  lua_scripts_dir : string;
  lua_fallback_scripts_dir : string;
  lua_lock_path : string;
  lua_reload_interval_ms : Z;
  lua_instruction_limit : Z;
  lua_memory_limit_bytes : Z;
  lua_auto_disable_threshold : Z;
  metrics_port : Z;
}.

(** [std::stoi]: an exception without digits or outside [int]. *)
Definition stoi (s : string) : option Z :=
  match scan_number s with
  | None => None
  | Some (v, neg, _) =>
      let n := if neg : bool then - v else v in
      if (- 2 ^ 31 <=? n) && (n <? 2 ^ 31) then Some n else None
  end.

(** The value of [strtoull] and [strtoul], which is 0 when nothing is converted. *)
Definition strtoull_value (s : string) : Z := default 0 (strtoull s).

(** The conversion from [unsigned long] to [long long]. *)
Definition as_long_long (z : Z) : Z := if z <? 2 ^ 63 then z else z - 2 ^ 64.

Definition split_csv (input : string) : list string :=
  List.filter (fun t => negb (bool_decide (t = EmptyString)))
    (map (fun t => trim_ascii (str t)) (split_sep 44 (chars_of input))).

Definition ends_with_slash (s : string) : bool :=
  match str_rev s EmptyString with String c _ => byte_of_ascii c =? 47 | EmptyString => false end.

Section load.
  Context (getenv : string -> option string).

Definition env_string (key fallback : string) : string := default fallback (env_value getenv key).
Definition env_flag (key : string) (fallback : bool) : bool :=
  match env_value getenv key with Some val => negb (bool_decide (val = "0"%string)) | None => fallback end.
(** A number, converted to [w] bits. *)
Definition env_number (w : Z) (key : string) (fallback : Z) : Z :=
  match env_value getenv key with Some val => wrap w (strtoull_value val) | None => fallback end.
(** A number between 1 and a limit. *)
Definition env_positive (key : string) (fallback limit : Z) : Z :=
  match env_value getenv key with
  | Some val => let parsed := strtoull_value val in if (0 <? parsed) && (parsed <=? limit) then parsed else fallback
  | None => fallback
  end.
(** Seconds; a value that [std::stoul] does not read is ignored. *)
Definition env_seconds (key : string) (fallback : Z) : Z :=
  match env_value getenv key with
  | Some val =>
      match stoull val with
      | Some (parsed, _) => if 0 <? parsed then as_long_long parsed else fallback
      | None => fallback
      end
  | None => fallback
  end.

Definition no_limit : Z := 2 ^ 64 - 1.

(** [port], from the argument and then from the environment. *)
Definition load_port (argv1 : option string) : option Z :=
  from_argv ← match argv1 with Some a => u16 <$> stoi a | None => Some 5000 end;
  match env_value getenv "PORT" with Some val => u16 <$> stoi val | None => Some from_argv end.

Definition load (argv1 : option string) (steady_ms : Z) : option ServerConfig :=
  port ← load_port argv1;
  let prefix := env_string "SERVER_REGISTRY_PREFIX" "gateway/instances/" in
  Some (mkServerConfig
    port
    (env_positive "LOG_BUFFER_CAPACITY" 0 no_limit)
    (env_positive "CHAT_JOB_QUEUE_MAX" 8192 no_limit)
    (env_positive "CHAT_DB_JOB_QUEUE_MAX" 4096 no_limit)
    (env_string "SERVER_ADVERTISE_HOST" "127.0.0.1")
    (match env_value getenv "SERVER_ADVERTISE_PORT" with
     | Some val => match stoull val with Some (parsed, _) => u16 parsed | None => port end
     | None => port
     end)
    (env_seconds "SERVER_HEARTBEAT_INTERVAL" 5)
    (if bool_decide (prefix = EmptyString) || ends_with_slash prefix then prefix else prefix +:+ "/")
    (env_seconds "SERVER_REGISTRY_TTL" 30)
    (env_string "SERVER_INSTANCE_ID" ("server-" +:+ to_string steady_ms))
    (env_string "SERVER_ROLE" "server")
    (env_string "SERVER_GAME_MODE" "default")
    (env_string "SERVER_REGION" "global")
    (env_string "SERVER_SHARD" "default")
    (match env_value getenv "SERVER_TAGS" with Some val => split_csv val | None => [] end)
    (env_string "DB_URI" EmptyString)
    (env_number 64 "DB_POOL_MIN" 0)
    (env_number 64 "DB_POOL_MAX" 0)
    (env_number 32 "DB_CONN_TIMEOUT_MS" 0)
    (env_number 32 "DB_QUERY_TIMEOUT_MS" 0)
    (env_flag "DB_PREPARE_STATEMENTS" true)
    (env_number 64 "DB_WORKER_THREADS" 0)
    (env_string "REDIS_URI" EmptyString)
    (env_number 64 "REDIS_POOL_MAX" 0)
    (env_flag "REDIS_USE_STREAMS" true)
    (env_flag "PRESENCE_CLEAN_ON_START" false)
    (env_string "REDIS_CHANNEL_PREFIX" EmptyString)
    (env_flag "USE_REDIS_PUBSUB" true)
    (env_string "GATEWAY_ID" "gw-default")
    (env_positive "SERVER_DRAIN_TIMEOUT_MS" 15000 600000)
    (env_positive "SERVER_DRAIN_POLL_MS" 100 5000)
    (env_string "ADMIN_COMMAND_SIGNING_SECRET" EmptyString)
    (env_positive "ADMIN_COMMAND_TTL_MS" 60000 no_limit)
    (env_number 64 "ADMIN_COMMAND_FUTURE_SKEW_MS" 5000)
    (env_flag "LUA_ENABLED" false)
    (env_string "LUA_SCRIPTS_DIR" EmptyString)
    (env_string "LUA_FALLBACK_SCRIPTS_DIR" EmptyString)
    (env_string "LUA_LOCK_PATH" EmptyString)
    (env_positive "LUA_RELOAD_INTERVAL_MS" 1000 600000)
    (env_positive "LUA_INSTRUCTION_LIMIT" 100000 no_limit)
    (env_positive "LUA_MEMORY_LIMIT_BYTES" 1048576 no_limit)
    (env_positive "LUA_AUTO_DISABLE_THRESHOLD" 3 no_limit)
    (env_positive "METRICS_PORT" 0 65535)).
End load.

(** ** Theorems *)

Lemma env_positive_range getenv key fallback limit :
  0 <= fallback <= limit -> 0 <= env_positive getenv key fallback limit <= limit.
Proof. intros H. unfold env_positive. destruct (env_value getenv key); [|done]. zbool. Qed.

Lemma env_positive_pos getenv key fallback limit :
  0 < fallback <= limit -> 0 < env_positive getenv key fallback limit <= limit.
Proof. intros H. unfold env_positive. destruct (env_value getenv key); [|done]. zbool. Qed.

Lemma ends_with_slash_app s : ends_with_slash (s +:+ "/") = true.
Proof.
  unfold ends_with_slash.
  assert (forall s acc, str_rev (s +:+ "/") acc = str_rev "/" (str_rev s acc)) as H.
  { clear s. intros s. induction s as [|c s IH]; intros acc; [done|]. exact (IH (String c acc)). }
  by rewrite H.
Qed.

(** What every configuration that is loaded satisfies: ports are 16-bit, queues and limits
    are not zero, the times of the shutdown are bounded, and a prefix of the registry ends
    in a slash. *)
Theorem server_config_wf getenv argv1 steady_ms c :
  load getenv argv1 steady_ms = Some c ->
  fits 16 (port c) /\ fits 16 (advertise_port c) /\ fits 16 (metrics_port c)
  /\ 0 < job_queue_max c < 2 ^ 64 /\ 0 < db_job_queue_max c < 2 ^ 64
  /\ 0 < shutdown_drain_timeout_ms c <= 600000 /\ 0 < shutdown_drain_poll_ms c <= 5000
  /\ 0 < admin_command_ttl_ms c /\ 0 < lua_reload_interval_ms c <= 600000
  /\ 0 < lua_instruction_limit c /\ 0 < lua_memory_limit_bytes c /\ 0 < lua_auto_disable_threshold c
  /\ (registry_prefix c = EmptyString \/ ends_with_slash (registry_prefix c) = true)
  /\ Forall (fun t => t <> EmptyString) (server_tags c).
Proof.
  unfold load. destruct (load_port getenv argv1) as [p|] eqn:Hp; [|done]. cbn [mbind option_bind]. intros [= <-].
  assert (fits 16 p) as Hfit.
  { unfold load_port in Hp. destruct (match argv1 with Some a => u16 <$> stoi a | None => Some 5000 end) as [a|] eqn:Ha; [|done].
    cbn in Hp. destruct (env_value getenv "PORT") as [v|].
    - destruct (stoi v) as [n|]; [|done]. injection Hp as <-. zlia.
    - injection Hp as <-. destruct argv1 as [x|]; [|injection Ha as <-; by_decide].
      destruct (stoi x); [|done]. injection Ha as <-. zlia. }
  assert (2 ^ 64 - 1 = no_limit) as Hl by done. cbn.
  split_and!; try (apply env_positive_pos; vm_compute; split; [done|congruence]); try done.
  - destruct (env_value getenv "SERVER_ADVERTISE_PORT") as [v|]; [|done]. destruct (stoull v) as [[n r]|]; [|done]. zlia.
  - destruct (env_positive_range getenv "METRICS_PORT" 0 65535); [lia|]. zlia.
  - destruct (env_positive_pos getenv "CHAT_JOB_QUEUE_MAX" 8192 no_limit); [by_decide|]. lia.
  - destruct (env_positive_pos getenv "CHAT_DB_JOB_QUEUE_MAX" 4096 no_limit); [by_decide|]. lia.
  - case_bool_decide; cbn; [by left|]. right. destruct (ends_with_slash (env_string _ _ _)) eqn:Hs; [done|apply ends_with_slash_app].
  - destruct (env_value getenv "SERVER_TAGS") as [v|]; [|constructor]. apply Forall_forall. intros t Ht%list_elem_of_In.
    apply filter_In in Ht as [_ Ht]. case_bool_decide; done.
Qed.

Definition sample_env (key : string) : option string :=
  if bool_decide (key = "PORT"%string) then Some "6100"%string
  else if bool_decide (key = "SERVER_REGISTRY_PREFIX"%string) then Some "instances"%string else None.

Lemma server_config_wf_witness :
  exists c, load sample_env None 17 = Some c /\ port c = 6100 /\ registry_prefix c = "instances/"%string
    /\ fits 16 (advertise_port c).
Proof.
  destruct (load sample_env None 17) as [c|] eqn:Hc; [|vm_compute in Hc; discriminate Hc].
  exists c. split; [reflexivity|]. split; [vm_compute in Hc; by injection Hc as <-|].
  split; [vm_compute in Hc; by injection Hc as <-|].
  exact (proj1 (proj2 (server_config_wf sample_env None 17 c Hc))).
Defined.

(** A port above 65535 is cut to 16 bits, a port that is no number ends the process, and a
    negative interval is accepted. *)
Lemma config_numbers_not_checked :
  let with_env k v := load (fun key => if bool_decide (key = k) then Some v else None) None 17 in
  (port <$> with_env "PORT"%string "70000"%string) = Some 4464
  /\ with_env "PORT"%string "http"%string = None
  /\ (registry_heartbeat_interval <$> with_env "SERVER_HEARTBEAT_INTERVAL"%string "-1"%string) = Some (-1).
Proof. vm_compute. done. Qed.
