(* ===== verification/AppHost.v ===== *)
(** The application host, [core/src/app/app_host.cpp]: life cycle, health, readiness with
    its dependencies, the admin pages, and the shutdown steps.

    A shutdown step is its name and whether it throws; what it does is its entry in the
    trace.  The process-wide flag of [termination_signals.hpp] is a field. *)

From S2P Require Import Prelude Text HttpServer.

Module AppHost.

Inductive LifecyclePhase := kInit | kBootstrapping | kRunning | kStopping | kStopped | kFailed.

Definition to_phase_code (phase : LifecyclePhase) : Z :=
  match phase with
  | kInit => 0 | kBootstrapping => 1 | kRunning => 2 | kStopping => 3 | kStopped => 4 | kFailed => 5
  end.
Definition from_phase_code (phase : Z) : LifecyclePhase :=
  if phase =? 0 then kInit else if phase =? 1 then kBootstrapping else if phase =? 2 then kRunning
  else if phase =? 3 then kStopping else if phase =? 4 then kStopped else kFailed.

Definition lifecycle_phase_name (phase : LifecyclePhase) : string :=
  match phase with
  | kInit => "init"
  | kBootstrapping => "bootstrapping"
  | kRunning => "running"
  | kStopping => "stopping"
  | kStopped => "stopped"
  | kFailed => "failed"
  end.

Inductive DependencyRequirement := kRequired | kOptional.

#[export] Instance requirement_eq_dec : EqDecision DependencyRequirement.
Proof. solve_decision. Defined.

Record Entry := mkEntry { dep_name : string; requirement : DependencyRequirement; dep_ok : bool }.

Definition blocks (e : Entry) : bool := bool_decide (requirement e = kRequired) && negb (dep_ok e).
Definition compute_ok (entries : list Entry) : bool := negb (existsb blocks entries).

Record step := mkStep { step_name : string; step_throws : bool }.

Record t := mkAppHost {
  stop_requested_ : bool;
  termination_signal_received : bool;
  lifecycle_phase_ : Z;
  healthy_ : bool;
  startup_ready_ : bool;
  deps_ok_ : bool;
  shutdown_ran_ : bool;
  deps_ : option (list Entry);
  shutdown_ : option (list step);
  signals_ : option bool;  (** installed, and whether the wait is pending *)
}.

Definition new : t := mkAppHost false false 0 true false true false None None None.

Definition set_lifecycle_phase (phase : LifecyclePhase) (a : t) : t :=
  mkAppHost (stop_requested_ a) (termination_signal_received a) (to_phase_code phase) (healthy_ a)
    (startup_ready_ a) (deps_ok_ a) (shutdown_ran_ a) (deps_ a) (shutdown_ a) (signals_ a).
Definition lifecycle_phase (a : t) : LifecyclePhase := from_phase_code (lifecycle_phase_ a).

Definition set_stop (a : t) : t :=
  mkAppHost true (termination_signal_received a) (lifecycle_phase_ a) (healthy_ a)
    (startup_ready_ a) (deps_ok_ a) (shutdown_ran_ a) (deps_ a) (shutdown_ a) (signals_ a).
Definition request_stop (a : t) : t * bool :=
  if stop_requested_ a then (a, false) else (set_lifecycle_phase kStopping (set_stop a), true).
Definition stop_requested (a : t) : bool := stop_requested_ a || termination_signal_received a.

Definition set_healthy (healthy : bool) (a : t) : t :=
  mkAppHost (stop_requested_ a) (termination_signal_received a) (lifecycle_phase_ a) healthy
    (startup_ready_ a) (deps_ok_ a) (shutdown_ran_ a) (deps_ a) (shutdown_ a) (signals_ a).
Definition set_ready (ready : bool) (a : t) : t :=
  mkAppHost (stop_requested_ a) (termination_signal_received a) (lifecycle_phase_ a) (healthy_ a)
    ready (deps_ok_ a) (shutdown_ran_ a) (deps_ a) (shutdown_ a) (signals_ a).
Definition ready (a : t) : bool := startup_ready_ a && deps_ok_ a.

(** ** Dependencies *)

Definition with_deps (entries : list Entry) (a : t) : t :=
  mkAppHost (stop_requested_ a) (termination_signal_received a) (lifecycle_phase_ a) (healthy_ a)
    (startup_ready_ a) (compute_ok entries) (shutdown_ran_ a) (Some entries) (shutdown_ a) (signals_ a).

(** The first entry of the name is changed. *)
Fixpoint update_first (name : string) (f : Entry -> Entry) (entries : list Entry) : option (list Entry) :=
  match entries with
  | [] => None
  | e :: rest => if bool_decide (dep_name e = name) then Some (f e :: rest)
                 else cons e <$> update_first name f rest
  end.

Definition declare_dependency (name : string) (req : DependencyRequirement) (a : t) : t :=
  if bool_decide (name = EmptyString) then a
  else let entries := default [] (deps_ a) in
       match update_first name (fun e => mkEntry (dep_name e) req (dep_ok e)) entries with
       | Some entries => with_deps entries a
       | None => with_deps (entries ++ [mkEntry name req false]) a
       end.

Definition set_dependency_ok (name : string) (ok : bool) (a : t) : t :=
  if bool_decide (name = EmptyString) then a
  else let entries := default [] (deps_ a) in
       match update_first name (fun e => mkEntry (dep_name e) (requirement e) ok) entries with
       | Some entries => with_deps entries a
       | None => with_deps (entries ++ [mkEntry name kRequired ok]) a
       end.

Definition dependencies_ok (a : t) : bool := deps_ok_ a.

(** ** Pages *)

Definition health_body (a : t) (ok : bool) : string :=
  if ok then "ok" +:+ newline else if stop_requested a then "stopping" +:+ newline else "unhealthy" +:+ newline.

Fixpoint join (sep : string) (l : list string) : string :=
  match l with [] => EmptyString | [x] => x | x :: rest => x +:+ sep +:+ join sep rest end.

Definition missing (a : t) : list string :=
  match deps_ a with
  | Some entries => if dependencies_ok a then [] else map dep_name (List.filter blocks entries)
  | None => []
  end.

Definition reasons (a : t) : list string :=
  (if stop_requested a then ["stopping"%string] else [])
  ++ (if healthy_ a then [] else ["unhealthy"%string])
  ++ (if startup_ready_ a then [] else ["starting"%string])
  ++ match missing a with [] => [] | m => ["deps=" +:+ join "," m] end.

Definition readiness_body (a : t) (ok : bool) : string :=
  if ok then "ready" +:+ newline
  else "not ready" +:+ match reasons a with [] => EmptyString | r => ": " +:+ join ", " r end +:+ newline.

Definition quoted (s : string) : string := quote +:+ s +:+ quote.

Definition dependency_metrics_text (a : t) : string :=
  "# TYPE runtime_dependency_ready gauge" +:+ newline
  +:+ foldr (fun e acc =>
        "runtime_dependency_ready{name=" +:+ quoted (dep_name e) +:+ ",required="
        +:+ quoted (if bool_decide (requirement e = kRequired) then "true" else "false") +:+ "} "
        +:+ (if dep_ok e then "1" else "0") +:+ newline +:+ acc) EmptyString (default [] (deps_ a))
  +:+ "# TYPE runtime_dependencies_ok gauge" +:+ newline
  +:+ "runtime_dependencies_ok " +:+ (if dependencies_ok a then "1" else "0") +:+ newline.

Definition lifecycle_metrics_text (a : t) : string :=
  let phase := lifecycle_phase a in
  "# TYPE runtime_lifecycle_phase_code gauge" +:+ newline
  +:+ "runtime_lifecycle_phase_code " +:+ to_string (to_phase_code phase) +:+ newline
  +:+ "# TYPE runtime_lifecycle_phase gauge" +:+ newline
  +:+ "runtime_lifecycle_phase{phase=" +:+ quoted (lifecycle_phase_name phase) +:+ "} 1" +:+ newline.

(** The callbacks [start_admin_http] gives to the HTTP server. *)
Definition admin_callbacks (metrics_callback : option (string + exn)) (a : t) : Callbacks :=
  mkCallbacks metrics_callback
    (Some (inl (healthy_ a && negb (stop_requested a))))
    (Some (inl (ready a && healthy_ a && negb (stop_requested a))))
    None
    (Some (fun ok => inl (health_body a ok)))
    (Some (fun ok => inl (readiness_body a ok)))
    None.

(** ** Shutdown *)

Definition set_shutdown (ran : bool) (steps : option (list step)) (a : t) : t :=
  mkAppHost (stop_requested_ a) (termination_signal_received a) (lifecycle_phase_ a) (healthy_ a)
    (startup_ready_ a) (deps_ok_ a) ran (deps_ a) steps (signals_ a).

Definition add_shutdown_step (s : step) (a : t) : t :=
  let name := if bool_decide (step_name s = EmptyString) then "(unnamed)"%string else step_name s in
  set_shutdown (shutdown_ran_ a) (Some (default [] (shutdown_ a) ++ [mkStep name (step_throws s)])) a.

(** The names of the steps that are run; an exception of one does not stop the others. *)
Definition run_shutdown_steps (a : t) : t * list string :=
  if shutdown_ran_ a then (a, [])
  else match shutdown_ a with
       | None | Some [] => (set_shutdown true (shutdown_ a) a, [])
       | Some steps => (set_shutdown true (Some []) a, map step_name (rev steps))
       end.

Definition set_signals (armed : option bool) (a : t) : t :=
  mkAppHost (stop_requested_ a) (termination_signal_received a) (lifecycle_phase_ a) (healthy_ a)
    (startup_ready_ a) (deps_ok_ a) (shutdown_ran_ a) (deps_ a) (shutdown_ a) armed.

Definition install_asio_termination_signals (a : t) : t :=
  match signals_ a with Some _ => a | None => set_signals (Some true) a end.

(** The handler of the process sets its flag. *)
Definition termination_signal_handler (a : t) : t :=
  mkAppHost (stop_requested_ a) true (lifecycle_phase_ a) (healthy_ a)
    (startup_ready_ a) (deps_ok_ a) (shutdown_ran_ a) (deps_ a) (shutdown_ a) (signals_ a).

(** The completion of the one wait for a signal, without an error: the steps that run and
    whether the callback [on_shutdown] is called. *)
Definition on_signal (a : t) : t * list string * bool :=
  if negb (bool_decide (signals_ a = Some true)) then (a, [], false)
  else
    let a := set_signals (Some false) a in
    let '(a, first) := request_stop a in
    if negb first then (a, [], false)
    else
      let a := set_ready false a in
      let '(a, names) := run_shutdown_steps a in
      (a, names, true).

(** ** Histories *)

Inductive op :=
  | OpDeclare (name : string) (req : DependencyRequirement)
  | OpDependency (name : string) (ok : bool)
  | OpReady (ready : bool)
  | OpHealthy (healthy : bool)
  | OpPhase (phase : LifecyclePhase)
  | OpRequestStop
  | OpAddStep (s : step)
  | OpInstall
  | OpSignal
  | OpProcessSignal.

(** The steps an operation runs. *)
Definition apply (o : op) (a : t) : t * list string :=
  match o with
  | OpDeclare name req => (declare_dependency name req a, [])
  | OpDependency name ok => (set_dependency_ok name ok a, [])
  | OpReady r => (set_ready r a, [])
  | OpHealthy h => (set_healthy h a, [])
  | OpPhase p => (set_lifecycle_phase p a, [])
  | OpRequestStop => ((request_stop a).1, [])
  | OpAddStep s => (add_shutdown_step s a, [])
  | OpInstall => (install_asio_termination_signals a, [])
  | OpSignal => (on_signal a).1
  | OpProcessSignal => (termination_signal_handler a, [])
  end.

Fixpoint run (ops : list op) (a : t) : t * list string :=
  match ops with
  | [] => (a, [])
  | o :: ops => let '(a, l1) := apply o a in let '(a, l2) := run ops a in (a, l1 ++ l2)
  end.

(** *** Readiness as a function of the history *)

Abbreviation dependency_map := (gmap string (DependencyRequirement * bool)).

Definition spec_deps (o : op) (m : dependency_map) : dependency_map :=
  match o with
  | OpDeclare name req =>
      if bool_decide (name = EmptyString) then m
      else <[name := (req, match m !! name with Some (_, ok) => ok | None => false end)]> m
  | OpDependency name ok =>
      if bool_decide (name = EmptyString) then m
      else <[name := (match m !! name with Some (req, _) => req | None => kRequired end, ok)]> m
  | _ => m
  end.

Definition satisfied (m : dependency_map) : Prop := map_Forall (fun _ d => d.1 = kRequired -> d.2 = true) m.

#[export] Instance satisfied_dec m : Decision (satisfied m).
Proof. unfold satisfied. apply map_Forall_dec. intros ? [[] []]; cbn; [left|right|left|left]; naive_solver. Defined.

(** The entries are the map, one per name. *)
Definition entries_of (entries : list Entry) (m : dependency_map) : Prop :=
  NoDup (map dep_name entries)
  /\ forall name req ok, m !! name = Some (req, ok) <-> mkEntry name req ok ∈ entries.

Lemma update_first_none name f entries :
  update_first name f entries = None <-> ~ name ∈ map dep_name entries.
Proof.
  induction entries as [|e entries IH]; cbn; [set_solver|]. case_bool_decide as He; [set_solver|].
  rewrite fmap_None, IH. set_solver.
Qed.

Lemma update_first_some name f entries entries' :
  (forall e, dep_name (f e) = dep_name e) -> NoDup (map dep_name entries) ->
  update_first name f entries = Some entries' ->
  exists e, e ∈ entries /\ dep_name e = name /\ map dep_name entries' = map dep_name entries
    /\ forall x, x ∈ entries' <-> x = f e \/ (x ∈ entries /\ dep_name x <> name).
Proof.
  intros Hf. revert entries'. induction entries as [|e entries IH]; intros entries' Hnd; [done|]. cbn [update_first map].
  apply NoDup_cons in Hnd as [Hni Hnd]. case_bool_decide as He.
  - intros [= <-]. exists e. split_and!; [by left|done|cbn; by rewrite Hf|]. intros x.
    rewrite !elem_of_cons. split; [|naive_solver]. intros [->|Hx]; [by left|right]. split; [by right|].
    intros Hx'. apply Hni. rewrite He, <- Hx'. by apply list_elem_of_fmap_2.
  - rewrite fmap_Some. intros (l & Hl & ->). destruct (IH l Hnd Hl) as (e' & Hin & Hn & Hm & Hx).
    exists e'. split_and!; [by right|done|cbn; by rewrite Hm|]. intros x. rewrite !elem_of_cons, Hx. naive_solver.
Qed.

Lemma entries_names entries m name : entries_of entries m -> name ∈ map dep_name entries <-> is_Some (m !! name).
Proof.
  intros [_ Hin]. rewrite list_elem_of_fmap. split.
  - intros ([n req ok] & -> & He). exists (req, ok). by apply Hin.
  - intros [[req ok] Hm]. exists (mkEntry name req ok). split; [done|by apply Hin].
Qed.

(** One change of an entry, or a new entry. *)
Lemma entries_update name f fresh entries m :
  (forall e, dep_name (f e) = dep_name e) -> dep_name fresh = name -> entries_of entries m ->
  let entries' := default (entries ++ [fresh]) (update_first name f entries) in
  let value e := (requirement e, dep_ok e) in
  entries_of entries' (<[name := value (match m !! name with
                                        | Some (req, ok) => f (mkEntry name req ok)
                                        | None => fresh
                                        end)]> m).
Proof.
  intros Hf Hfresh Hent entries' value. pose proof Hent as [Hnd Hin]. unfold entries'.
  destruct (update_first name f entries) as [l|] eqn:Hu; cbn [default from_option Datatypes.id].
  - destruct (update_first_some name f entries l Hf Hnd Hu) as (e & He & Hn & Hm & Hx).
    assert (Hme : m !! name = Some (requirement e, dep_ok e)) by (apply Hin; rewrite <- Hn; by destruct e).
    rewrite Hme. assert (Hee : mkEntry name (requirement e) (dep_ok e) = e) by (rewrite <- Hn; by destruct e).
    rewrite Hee. split; [by rewrite Hm|]. intros n req ok. rewrite Hx.
    destruct (decide (name = n)) as [<-|Hne].
    + rewrite lookup_insert_eq. split.
      * intros [= <- <-]. left. rewrite <- Hn at 1. rewrite <- Hf. by destruct (f e).
      * intros [Heq|[_ Habs]]; [|done]. unfold value. by rewrite <- Heq.
    + rewrite lookup_insert_ne by done. rewrite Hin. split; [by right|].
      intros [Heq|[? _]]; [|done]. destruct Hne. by rewrite <- Hn, <- Hf, <- Heq.
  - apply update_first_none in Hu. assert (Hm : m !! name = None).
    { apply eq_None_not_Some. by rewrite <- (entries_names entries). }
    rewrite Hm. split.
    + rewrite map_app. apply NoDup_app. split_and!; [done| |repeat constructor; set_solver]. cbn.
      rewrite Hfresh. set_solver.
    + intros n req ok. rewrite elem_of_app, list_elem_of_singleton. destruct (decide (name = n)) as [<-|Hne].
      * rewrite lookup_insert_eq. split.
        -- intros [= <- <-]. right. rewrite <- Hfresh. by destruct fresh.
        -- intros [Hl|Heq]; [|unfold value; by rewrite <- Heq]. apply Hin in Hl. congruence.
      * rewrite lookup_insert_ne by done. rewrite Hin. split; [by left|].
        intros [?|Heq]; [done|]. destruct Hne. by rewrite <- Hfresh, <- Heq.
Qed.

Lemma compute_ok_spec entries m : entries_of entries m -> compute_ok entries = bool_decide (satisfied m).
Proof.
  intros [_ Hin]. unfold compute_ok. case_bool_decide as Hs.
  - apply negb_true_iff, not_true_iff_false. rewrite existsb_exists. intros ([n req ok] & He & Hb).
    apply list_elem_of_In, Hin in He. apply andb_prop in Hb as [Hr Ho]. apply bool_decide_eq_true in Hr.
    specialize (Hs n _ He Hr). cbn in *. by rewrite Hs in Ho.
  - apply negb_false_iff, existsb_exists. apply map_not_Forall in Hs; [|apply _].
    destruct Hs as (n & [req ok] & Hm & Hs). exists (mkEntry n req ok). split; [by apply list_elem_of_In, Hin|].
    unfold blocks. cbn in *. destruct req, ok; naive_solver.
Qed.

Definition inv (m : dependency_map) (a : t) : Prop :=
  entries_of (default [] (deps_ a)) m /\ deps_ok_ a = bool_decide (satisfied m).

Lemma with_deps_inv entries m a : entries_of entries m -> inv m (with_deps entries a).
Proof. intros He. split; [done|]. by apply compute_ok_spec. Qed.

Lemma on_signal_inv m a : inv m a -> inv m (on_signal a).1.1.
Proof.
  intros Hi. unfold on_signal. case_match; [exact Hi|]. unfold request_stop. cbn [stop_requested_ set_signals].
  destruct (stop_requested_ a); [exact Hi|]. cbn [negb]. unfold run_shutdown_steps.
  cbn [shutdown_ran_ shutdown_ set_ready set_lifecycle_phase set_stop set_signals].
  destruct (shutdown_ran_ a); [exact Hi|]. destruct (shutdown_ a) as [[|]|]; exact Hi.
Qed.

Lemma apply_inv o m a : inv m a -> inv (spec_deps o m) (apply o a).1.
Proof.
  intros Hi. pose proof Hi as [He _]. destruct o as [name req|name ok| | | | | | | |]; cbn [apply spec_deps fst]; try exact Hi.
  - unfold declare_dependency. case_bool_decide; [done|].
    pose proof (entries_update name (fun e => mkEntry (dep_name e) req (dep_ok e)) (mkEntry name req false)
      (default [] (deps_ a)) m ltac:(done) eq_refl He) as Hu. cbv zeta in Hu.
    destruct (update_first _ _ _); cbn [default from_option Datatypes.id] in Hu; apply with_deps_inv;
      destruct (m !! name) as [[? ?]|]; exact Hu.
  - unfold set_dependency_ok. case_bool_decide; [done|].
    pose proof (entries_update name (fun e => mkEntry (dep_name e) (requirement e) ok) (mkEntry name kRequired ok)
      (default [] (deps_ a)) m ltac:(done) eq_refl He) as Hu. cbv zeta in Hu.
    destruct (update_first _ _ _); cbn [default from_option Datatypes.id] in Hu; apply with_deps_inv;
      destruct (m !! name) as [[? ?]|]; exact Hu.
  - unfold request_stop. by case_match; exact Hi.
  - unfold install_asio_termination_signals. by case_match; exact Hi.
  - by apply on_signal_inv.
Qed.

Lemma run_inv ops m a : inv m a -> inv (fold_left (fun m o => spec_deps o m) ops m) (run ops a).1.
Proof.
  revert m a. induction ops as [|o ops IH]; intros m a Hi; [done|]. cbn [run fold_left].
  pose proof (apply_inv o m a Hi) as Ha. destruct (apply o a) as [a' l1]. cbn [fst] in Ha. specialize (IH _ _ Ha).
  by destruct (run ops a') as [a'' l2].
Qed.

Lemma new_inv : inv ∅ new.
Proof. split; [|done]. split; [constructor|]. intros. rewrite lookup_empty. set_solver. Qed.

(** *** Shutdown *)

Definition before_stop (o : op) : Prop := match o with OpSignal | OpRequestStop => False | _ => True end.

Definition display_name (s : step) : string :=
  if bool_decide (step_name s = EmptyString) then "(unnamed)"%string else step_name s.

Definition added (ops : list op) : list string :=
  omap (fun o => match o with OpAddStep s => Some (display_name s) | _ => None end) ops.

(** The part of the state the shutdown depends on. *)
Definition pending (names : list string) (a : t) : Prop :=
  stop_requested_ a = false /\ shutdown_ran_ a = false /\ map step_name (default [] (shutdown_ a)) = names.

Lemma apply_pending o names a :
  before_stop o -> pending names a ->
  pending (names ++ added [o]) (apply o a).1 /\ (apply o a).2 = []
  /\ signals_ (apply o a).1 = match o, signals_ a with OpInstall, None => Some true | _, x => x end.
Proof.
  intros Ho (Hs & Hr & Hn). destruct o; try done; cbn [apply fst snd added omap list_omap];
    rewrite ?app_nil_r; try (by split_and!).
  1,2: unfold declare_dependency, set_dependency_ok; repeat case_match; by split_and!.
  - split_and!; [split_and!; [done..|]|done..]. cbn. rewrite map_app, Hn. cbn. by unfold display_name.
  - unfold install_asio_termination_signals. by destruct (signals_ a) eqn:E; split_and!.
Qed.

Lemma run_pending ops names a :
  Forall before_stop ops -> pending names a -> signals_ a <> Some false ->
  pending (names ++ added ops) (run ops a).1 /\ (run ops a).2 = []
  /\ (signals_ a = Some true \/ OpInstall ∈ ops -> signals_ (run ops a).1 = Some true).
Proof.
  intros Hops. revert names a. induction Hops as [|o ops Ho Hops IH]; intros names a Hp Hsig.
  { cbn. rewrite app_nil_r. split_and!; [done..|]. intros [?|?]; [done|set_solver]. }
  destruct (apply_pending o names a Ho Hp) as (Hp1 & Hl & Hk). cbn [run].
  destruct (apply o a) as [a1 l1]. cbn [fst snd] in *. subst l1.
  destruct (IH _ a1 Hp1) as (Hp2 & Hl2 & Hs2); [rewrite Hk; destruct o, (signals_ a) as [[]|]; done|].
  destruct (run ops a1) as [a2 l2]. cbn [fst snd app] in *. split_and!; [|done|].
  - assert (added (o :: ops) = added [o] ++ added ops) as -> by (cbn; by case_match).
    by rewrite app_assoc.
  - intros [Hs|[<-|Hin]%elem_of_cons]; apply Hs2; [left|left|by right].
    + rewrite Hk, Hs. by destruct o.
    + rewrite Hk. by destruct (signals_ a) as [[]|].
Qed.

(** After the stop: nothing runs any more, and the host stays stopped. *)
Definition over (a : t) : Prop := stop_requested_ a = true /\ shutdown_ran_ a = true.

Lemma apply_over o a : over a -> over (apply o a).1 /\ (apply o a).2 = [].
Proof.
  intros [Hs Hr]. destruct o; cbn [apply fst snd]; try (by split).
  1,2: unfold declare_dependency, set_dependency_ok; repeat case_match; by split.
  - unfold request_stop. rewrite Hs. by split.
  - unfold install_asio_termination_signals. case_match; by split.
  - unfold on_signal. case_match; [by split|]. unfold request_stop. cbn [stop_requested_ set_signals]. rewrite Hs. by split.
Qed.

Lemma run_over ops a : over a -> over (run ops a).1 /\ (run ops a).2 = [].
Proof.
  revert a. induction ops as [|o ops IH]; intros a Ha; [done|]. cbn [run].
  destruct (apply_over o a Ha) as [Ha1 Hl]. destruct (apply o a) as [a1 l1]. cbn [fst snd] in *. subst l1.
  specialize (IH a1 Ha1). by destruct (run ops a1).
Qed.

Lemma run_app ops1 ops2 a :
  run (ops1 ++ ops2) a = let '(a1, l1) := run ops1 a in let '(a2, l2) := run ops2 a1 in (a2, l1 ++ l2).
Proof.
  revert a. induction ops1 as [|o ops1 IH]; intros a; cbn [run app]; [by destruct (run ops2 a)|].
  destruct (apply o a) as [a1 l1]. rewrite IH. destruct (run ops1 a1) as [a2 l2], (run ops2 a2) as [a3 l3].
  by rewrite app_assoc.
Qed.

(** *** The other conditions of readiness as functions of the history *)

(** What the application last said, and whether a stop was asked for: by [request_stop], by
    the flag of the process, or by a signal after the handler was installed. *)
Definition said_ready (ops : list op) : bool :=
  fold_left (fun b o => match o with OpReady r => r | _ => b end) ops false.
Definition said_healthy (ops : list op) : bool :=
  fold_left (fun b o => match o with OpHealthy h => h | _ => b end) ops true.
Definition stop_asked_step (st : bool * bool) (o : op) : bool * bool :=
  let (installed, asked) := st in
  match o with
  | OpInstall => (true, asked)
  | OpRequestStop | OpProcessSignal => (installed, true)
  | OpSignal => (installed, asked || installed)
  | _ => st
  end.
Definition stop_asked (ops : list op) : bool := (fold_left stop_asked_step ops (false, false)).2.

(** The flags of the host are these; a handled signal also withdraws the readiness. *)
Record flags (r h : bool) (st : bool * bool) (a : t) : Prop := {
  fl_healthy : healthy_ a = h;
  fl_stop : stop_requested a = st.2;
  fl_ready : st.2 = false -> startup_ready_ a = r;
  fl_installed : signals_ a = None <-> st.1 = false;
  fl_used : signals_ a = Some false -> st.2 = true;
}.

Lemma request_stop_requested a : stop_requested (request_stop a).1 = true.
Proof. unfold request_stop, stop_requested. destruct (stop_requested_ a) eqn:Es; cbn; [by rewrite Es|done]. Qed.

Lemma on_signal_flags r h st a :
  flags r h st a -> flags r h (stop_asked_step st OpSignal) (on_signal a).1.1.
Proof.
  destruct st as [inst asked]. intros [H1 H2 H3 H4 H5]. unfold on_signal. cbn [fst snd stop_asked_step] in *.
  case_bool_decide as Hs; cbn [negb].
  2: { destruct inst; [|rewrite orb_false_r; by constructor].
       destruct (signals_ a) as [[]|] eqn:Esig; [done| |discriminate (proj1 H4 eq_refl)].
       assert (asked = true) as -> by (by apply H5). constructor; cbn [fst snd]; rewrite ?Esig; done. }
  assert (inst = true) as -> by (destruct inst; [done|]; by rewrite (proj2 H4) in Hs). rewrite orb_true_r.
  unfold request_stop. cbn [stop_requested_ set_signals]. destruct (stop_requested_ a) eqn:Es; cbn [negb].
  - constructor; cbn; try done. unfold stop_requested. cbn. by rewrite Es.
  - unfold run_shutdown_steps. cbn [shutdown_ran_ shutdown_ set_ready set_lifecycle_phase set_stop set_signals].
    destruct (shutdown_ran_ a); [by constructor|]. destruct (shutdown_ a) as [[|]|]; by constructor.
Qed.

Lemma apply_flags o r h st a :
  flags r h st a ->
  flags (match o with OpReady r => r | _ => r end) (match o with OpHealthy h => h | _ => h end)
    (stop_asked_step st o) (apply o a).1.
Proof.
  destruct st as [inst asked]. intros Hf. pose proof Hf as [H1 H2 H3 H4 H5]. cbn [fst snd] in *.
  destruct o as [name req|name ok|r'|h'|p| |s| | |]; cbn [apply fst stop_asked_step]; try (by constructor).
  - unfold declare_dependency. case_bool_decide; [done|]. case_match; by constructor.
  - unfold set_dependency_ok. case_bool_decide; [done|]. case_match; by constructor.
  - constructor; cbn [fst snd]; try done; [..|by apply request_stop_requested|].
    all: unfold request_stop; by destruct (stop_requested_ a).
  - unfold install_asio_termination_signals. destruct (signals_ a) as [b|] eqn:Esig; constructor; cbn; try done.
    all: by rewrite Esig.
  - exact (on_signal_flags r h (inst, asked) a Hf).
  - constructor; cbn; try done. unfold stop_requested. cbn. by rewrite orb_true_r.
Qed.

Lemma run_flags_from ops r h st a :
  flags r h st a ->
  flags (fold_left (fun b o => match o with OpReady r => r | _ => b end) ops r)
    (fold_left (fun b o => match o with OpHealthy h => h | _ => b end) ops h)
    (fold_left stop_asked_step ops st) (run ops a).1.
Proof.
  revert r h st a. induction ops as [|o ops IH]; intros r h st a Hf; [done|]. cbn [run fold_left].
  pose proof (apply_flags o r h st a Hf) as Ha. destruct (apply o a) as [a' l1]. cbn [fst] in Ha.
  specialize (IH _ _ _ _ Ha). by destruct (run ops a') as [a'' l2].
Qed.

Lemma run_flags ops : flags (said_ready ops) (said_healthy ops) (fold_left stop_asked_step ops (false, false)) (run ops new).1.
Proof. apply run_flags_from. by constructor. Qed.

(** ** Theorems *)

(** C37. Readiness is what the history says.  After any operations on the host, take a GET of
    /readyz that passes access control (its address is on the allowlist, if there is one,
    and its token is valid) and whose answer can be written.  It is answered with 200 and
    the body "ready" exactly when the last [set_ready] was with [true], every dependency
    whose last declaration is required was last reported as available, [set_healthy] was
    never called or last with [true], and no stop was asked for (by [request_stop], by the
    flag of the process, or by a signal after the handler was installed); otherwise with 503
    and a body that starts with "not ready". *)
Theorem readyz_reflects_history ops cfg env metrics_callback request :
  let deps := fold_left (fun m o => spec_deps o m) ops ∅ in
  let ok := said_ready ops && bool_decide (satisfied deps) && said_healthy ops && negb (stop_asked ops) in
  target request = "/readyz"%string -> method request = "GET"%string ->
  (ip_allowlist cfg = ∅ \/ source_ip request ∈ ip_allowlist cfg) ->
  request_has_valid_token request (auth_token cfg) = true -> write_ok env = true ->
  exists why,
    serve cfg (admin_callbacks metrics_callback (run ops new).1) env request
    = Some ([Called CallReady; Called CallReadyBody;
             Written (render (if ok then mkRouteResponse "200 OK" text_type ("ready" +:+ newline)
                              else mkRouteResponse "503 Service Unavailable" text_type ("not ready" +:+ why))
                        [] false);
             Closed], Value tt).
Proof.
  intros deps ok Ht Hm Hip Htok Hw. destruct (run_inv ops ∅ new new_inv) as [_ Hok]. fold deps in Hok.
  pose proof (run_flags ops) as [Fh Fs Fr _ _]. fold (stop_asked ops) in Fs, Fr. set (a := (run ops new).1) in *.
  assert (Hsame : startup_ready_ a && bool_decide (satisfied deps) && healthy_ a && negb (stop_requested a) = ok).
  { unfold ok. rewrite Fh, Fs. destruct (stop_asked ops); [by rewrite !andb_false_r|]. by rewrite Fr. }
  assert (Hacc : negb (bool_decide (ip_allowlist cfg = ∅)) && negb (bool_decide (source_ip request ∈ ip_allowlist cfg)) = false).
  { destruct Hip; [rewrite bool_decide_eq_true_2|rewrite (bool_decide_eq_true_2 (source_ip request ∈ _)), andb_comm]; done. }
  exists (match reasons a with [] => EmptyString | r => ": " +:+ join ", " r end +:+ newline).
  unfold serve. rewrite Hacc, Htok, Hm, Ht. cbn [negb andb].
  unfold route. rewrite Ht. change (classify_builtin_route "/readyz") with kReady. cbn [negb andb].
  unfold status_route, admin_callbacks, write. cbn [ready_callback_ ready_body_callback_]. rewrite Hw.
  unfold ready. rewrite Hok, Hsame. by destruct ok.
Qed.

Lemma readyz_reflects_history_witness :
  let ops := [OpDeclare "redis" kRequired; OpDeclare "db" kOptional; OpReady true; OpDependency "redis" true] in
  let request := mkHttpRequest "GET" "/readyz" ∅ EmptyString "10.0.0.9" in
  serve (mkHttpHardeningConfig 64 65536 5000 5000 EmptyString ∅) (admin_callbacks None (run ops new).1)
    (mkConnectionEnv (fun _ => mkPoll 0 None Eof) (fun _ => mkPoll 0 None Eof) true None) request
  = Some ([Called CallReady; Called CallReadyBody;
           Written (render (mkRouteResponse "200 OK" text_type ("ready" +:+ newline)) [] false); Closed], Value tt).
Proof.
  intros ops request.
  destruct (readyz_reflects_history ops (mkHttpHardeningConfig 64 65536 5000 5000 EmptyString ∅)
    (mkConnectionEnv (fun _ => mkPoll 0 None Eof) (fun _ => mkPoll 0 None Eof) true None) None request)
    as [why Hw]; [done|done|by left|done|done|].
  rewrite Hw. vm_compute. reflexivity.
Defined.

(** Shutdown runs every step once, the last one added first.  Once the handler of signals is
    installed, the first signal runs all steps registered so far in the reverse order of
    their registration, whether or not some of them throw; no later operation runs a step
    again, and the host reports that it is stopping from then on. *)
Theorem shutdown_runs_once ops1 ops2 :
  Forall before_stop ops1 -> OpInstall ∈ ops1 ->
  let '(a, trace) := run (ops1 ++ OpSignal :: ops2) new in
  trace = rev (added ops1) /\ stop_requested a = true.
Proof.
  intros Hops Hin. rewrite run_app. destruct (run_pending ops1 [] new Hops) as (Hp & Hl & Hs); [by split_and!|done|].
  specialize (Hs (or_intror Hin)). destruct (run ops1 new) as [a1 l1]. cbn [fst snd app] in *. subst l1.
  destruct Hp as (Hst & Hran & Hnames). cbn [run apply]. unfold on_signal.
  rewrite Hs, bool_decide_eq_true_2 by done. unfold request_stop. cbn [negb stop_requested_ set_signals]. rewrite Hst.
  cbn [negb]. unfold run_shutdown_steps. cbn [shutdown_ran_ shutdown_ set_ready set_lifecycle_phase set_stop set_signals].
  rewrite Hran. destruct (shutdown_ a1) as [[|s steps]|]; cbn [fst default from_option Datatypes.id] in *;
    match goal with |- context [run ops2 ?a] => destruct (run_over ops2 a ltac:(by split)) as [[Ho _] Ht] end;
    destruct (run ops2 _) as [a2 l2]; cbn [fst snd app] in *; subst l2; unfold stop_requested; rewrite Ho;
    (split; [|done]); rewrite <- Hnames, ?app_nil_r; [done| |done].
  by rewrite <- map_rev.
Qed.

Lemma shutdown_runs_once_witness :
  let ops1 := [OpAddStep (mkStep "stop workers" false); OpInstall; OpAddStep (mkStep "stop acceptor" true); OpReady true] in
  let '(a, trace) := run (ops1 ++ OpSignal :: [OpAddStep (mkStep "late" false); OpSignal]) new in
  trace = ["stop acceptor"; "stop workers"]%string /\ stop_requested a = true.
Proof.
  apply (shutdown_runs_once [OpAddStep (mkStep "stop workers" false); OpInstall;
    OpAddStep (mkStep "stop acceptor" true); OpReady true] [OpAddStep (mkStep "late" false); OpSignal]).
  - by repeat constructor.
  - right. left.
Defined.

(** A stop that the program itself requests does not run the steps, and a signal that comes
    after it does not either. *)
Lemma requested_stop_skips_steps :
  (run [OpInstall; OpAddStep (mkStep "deregister instance" false); OpRequestStop; OpSignal] new).2 = [].
Proof. done. Qed.

End AppHost.
