(* ===== verification/WriteBehind.v ===== *)
(** The write-behind worker and the replayer of its dead letters,
    [tools/wb_worker/main.cpp] and [tools/wb_dlq_replayer/main.cpp]: events of a Redis stream
    are stored in a database in batches, with acknowledgement after the commit, a dead-letter
    stream for events that cannot be stored, retries and reclaiming.

    Redis and the database answer as an oracle says: whether a command succeeds and, where
    the reply can be lost, whether it took effect all the same.  [dump] is the serialisation
    of a JSON object of strings by the JSON library. *)

From S2P Require Import Prelude Text ChatText InstanceRegistry.

Module WriteBehind.

Record StreamEntry := mkStreamEntry { entry_id : string; fields : list (string * string) }.

(** ** Configuration *)

Record WorkerConfig := mkWorkerConfig {
  db_uri : string;
  redis_uri : string;
  stream_key : string;
  group : string;
  consumer : string;
  dlq_stream : string;
  batch_max_events : Z;
  batch_max_bytes : Z;
  batch_delay_ms : Z;
  dlq_on_error : bool;
  ack_on_error : bool;
  reclaim_enabled : bool;
  reclaim_interval_ms : Z;
  reclaim_min_idle_ms : Z;
  reclaim_count : Z;
  metrics_port : Z;
  db_reconnect_base_ms : Z;
  db_reconnect_max_ms : Z;
  retry_max : Z;
  retry_backoff_ms : Z;
}.

Section load.
  Context (getenv : string -> option string).

Definition env_string (key fallback : string) : string := default fallback (getenv key).
Definition env_flag (key : string) (fallback : bool) : bool :=
  match getenv key with Some v => negb (bool_decide (v = "0"%string)) | None => fallback end.

(** [std::strtoul], 0 when nothing is converted, and the test of the range. *)
Definition env_number (key : string) (fallback lo hi : Z) : Z :=
  match getenv key with
  | Some v => let n := default 0 (strtoull v) in if (lo <=? n) && (n <=? hi) then n else fallback
  | None => fallback
  end.

Definition Load : WorkerConfig :=
  let base := env_number "WB_DB_RECONNECT_BASE_MS" 500 100 60000 in
  let max := env_number "WB_DB_RECONNECT_MAX_MS" 30000 1000 300000 in
  mkWorkerConfig (env_string "DB_URI" EmptyString) (env_string "REDIS_URI" EmptyString)
    (env_string "REDIS_STREAM_KEY" "session_events") (env_string "WB_GROUP" "wb_group")
    (env_string "WB_CONSUMER" "wb_consumer") (env_string "WB_DLQ_STREAM" "session_events_dlq")
    (env_number "WB_BATCH_MAX_EVENTS" 100 1 10000)
    (env_number "WB_BATCH_MAX_BYTES" (512 * 1024) (16 * 1024) (16 * 1024 * 1024))
    (env_number "WB_BATCH_DELAY_MS" 500 50 10000)
    (env_flag "WB_DLQ_ON_ERROR" true) (env_flag "WB_ACK_ON_ERROR" true) (env_flag "WB_RECLAIM_ENABLED" true)
    (env_number "WB_RECLAIM_INTERVAL_MS" 1000 100 (60 * 1000))
    (env_number "WB_RECLAIM_MIN_IDLE_MS" 5000 0 (10 * 60 * 1000))
    (env_number "WB_RECLAIM_COUNT" 200 1 10000)
    (env_number "METRICS_PORT" 0 1 65535)
    base (if max <? base then base else max)
    (env_number "WB_RETRY_MAX" 5 0 100)
    (env_number "WB_RETRY_BACKOFF_MS" 250 10 10000).
End load.

(** ** Events *)

Definition is_hex (c : Ascii.ascii) : bool :=
  let b := byte_of_ascii c in
  ((48 <=? b) && (b <=? 57)) || ((97 <=? b) && (b <=? 102)) || ((65 <=? b) && (b <=? 70)).

(** The test of each position. *)
Fixpoint uuid_chars (i : nat) (s : chars) : bool :=
  match s with
  | [] => true
  | c :: s =>
      (if bool_decide (i ∈ [8; 13; 18; 23]%nat) then byte_of_ascii c =? 45 else is_hex c) && uuid_chars (S i) s
  end.
Definition IsUuid (s : string) : bool := Nat.eqb (String.length s) 36 && uuid_chars 0 (chars_of s).

Definition EstimateEntryBytes (e : StreamEntry) : Z :=
  fold_left (fun est f => u64 (est + (Z.of_nat (String.length f.1) + Z.of_nat (String.length f.2) + 4)))
    (fields e) (Z.of_nat (String.length (entry_id e))).

(** [std::stoll]. *)
Definition stoll (s : string) : option Z :=
  match scan_number s with
  | None => None
  | Some (v, neg, _) =>
      let v := if neg : bool then - v else v in
      if (- 2 ^ 63 <=? v) && (v <? 2 ^ 63) then Some v else None
  end.

(** The row of the table of events; a missing identifier is empty, which the statement
    stores as null. *)
Record Row := mkRow {
  row_event_id : string;
  row_type : string;
  row_ts : Z;
  row_user_id : string;
  row_session_id : string;
  row_room_id : string;
  row_payload : string;
}.

(** The last field of a name, as the loop over the fields leaves it. *)
Definition last_field (name : string) (fs : list (string * string)) : option string :=
  fold_left (fun acc f => if bool_decide (f.1 = name) then Some f.2 else acc) fs None.

Definition normalize_uuid (opt : option string) : string :=
  match opt with
  | Some s => if bool_decide (s = EmptyString) then EmptyString else if IsUuid s then s else EmptyString
  | None => EmptyString
  end.

(** [j[f.first] = f.second]. *)
Definition json_object (fs : list (string * string)) : gmap string string :=
  fold_left (fun j f => <[f.1 := f.2]> j) fs ∅.

Section worker.
  Context (dump : gmap string string -> string).

(** What [ProcessEntry] inserts. *)
Definition ProcessEntry (e : StreamEntry) : Row :=
  mkRow (entry_id e)
    (default "unknown"%string (last_field "type" (fields e)))
    (default 0 (stoll (default "0"%string (last_field "ts_ms" (fields e)))))
    (normalize_uuid (last_field "user_id" (fields e)))
    (normalize_uuid (last_field "session_id" (fields e)))
    (normalize_uuid (last_field "room_id" (fields e)))
    (dump (json_object (fields e))).

(** What [SendToDlq] adds to the stream of dead letters. *)
Definition dlq_fields (e : StreamEntry) (error : string) : list (string * string) :=
  [("orig_event_id"%string, entry_id e)] ++ fields e ++ [("error"%string, error)].

(** ** The world *)

Inductive counter :=
  | wb_ack_total_ | wb_ack_fail_total_ | wb_error_drop_total_ | wb_flush_retry_attempt_total_
  | wb_flush_retry_exhausted_total_ | wb_flush_total_ | wb_flush_ok_total_ | wb_flush_fail_total_
  | wb_flush_dlq_total_ | wb_reclaim_runs_total_ | wb_reclaim_total_ | wb_reclaim_error_total_
  | wb_reclaim_deleted_total_ | wb_db_unavailable_total_.

#[export] Instance counter_eq_dec : EqDecision counter.
Proof. solve_decision. Defined.

(** The connection of the worker, its counters, and what Redis and the database hold: the
    pending entries of the consumer group, the rows, and the stream of dead letters. *)
Record State := mkState {
  db_open : bool;
  db_prepared_ : bool;
  counters : counter -> Z;
  pel : gset string;
  db : gmap string Row;
  dlq : list (list (string * string));
}.

Definition bump (c : counter) (n : Z) (st : State) : State :=
  mkState (db_open st) (db_prepared_ st)
    (fun c' => if decide (c' = c) then u64 (counters st c + n) else counters st c') (pel st) (db st) (dlq st).
Definition set_connection (open prepared : bool) (st : State) : State :=
  mkState open prepared (counters st) (pel st) (db st) (dlq st).
Definition set_pel (p : gset string) (st : State) : State :=
  mkState (db_open st) (db_prepared_ st) (counters st) p (db st) (dlq st).
Definition set_db (d : gmap string Row) (st : State) : State :=
  mkState (db_open st) (db_prepared_ st) (counters st) (pel st) d (dlq st).
Definition add_dlq (fs : list (string * string)) (st : State) : State :=
  mkState (db_open st) (db_prepared_ st) (counters st) (pel st) (db st) (dlq st ++ [fs]).

(** [insert ... on conflict (event_id) do nothing]. *)
Definition insert_row (r : Row) (d : gmap string Row) : gmap string Row :=
  match d !! row_event_id r with Some _ => d | None => <[row_event_id r := r]> d end.

(** *** Answers *)

Record ack_answer := mkAckAnswer { ack_effective : bool; ack_reported : bool }.
Inductive entry_answer := Inserted | EntryFailed (error : string) | EntryBroken.
(** The commit, or an exception: whether it took effect and whether the connection is gone. *)
Inductive commit_answer := Committed | CommitFailed (effective broken : bool).

Record attempt_oracle := mkAttemptOracle {
  prepare_ok : bool;
  begin_fails : option bool;                (** [pqxx::work] throws: is the connection gone *)
  entry_answer_of : nat -> entry_answer;
  xadd_ok : nat -> bool;
  error_ack : nat -> ack_answer;
  commit_answer_of : commit_answer;
  final_ack : nat -> ack_answer;
}.

(** ** Operations *)

Definition EnsureDbPrepared (prepare_ok : bool) (st : State) : State * bool :=
  if negb (db_open st) then (st, false)
  else if db_prepared_ st then (st, true)
  else (set_connection true prepare_ok st, prepare_ok).

Definition Ack (id : string) (a : ack_answer) (st : State) : State * bool :=
  let st := if ack_effective a then set_pel (pel st ∖ {[id]}) st else st in
  (bump (if ack_reported a then wb_ack_total_ else wb_ack_fail_total_) 1 st, ack_reported a).

(** [SendToDlq]: the result of [xadd] is not used. *)
Definition SendToDlq (e : StreamEntry) (error : string) (ok : bool) (st : State) : State * bool :=
  (if ok then add_dlq (dlq_fields e error) st else st, true).

Section flush.
  Context (cfg : WorkerConfig).

(** The handler of an error of one entry: the new state, and whether it counts as a dead
    letter. *)
Definition on_entry_error (o : attempt_oracle) (i : nat) (e : StreamEntry) (error : string) (st : State) :
    State * bool :=
  let '(st, acked) :=
    if dlq_on_error cfg && negb (bool_decide (dlq_stream cfg = EmptyString)) then
      let '(st, sent) := SendToDlq e error (xadd_ok o i) st in
      if sent then ((Ack (entry_id e) (error_ack o i) st).1, true) else (st, false)
    else (st, false) in
  let st := if negb acked && ack_on_error cfg then
              let '(st, ok) := Ack (entry_id e) (error_ack o i) st in
              if ok then bump wb_error_drop_total_ 1 st else st
            else st in
  (st, acked).

(** The transaction: what was inserted, and the counts of the attempt. *)
Record batch := mkBatch { ack_ids : list string; tx_rows : list Row; attempt_fail : Z; attempt_dlqed : Z }.

(** The loop over the entries; [true] when the connection broke. *)
Fixpoint process_batch (o : attempt_oracle) (i : nat) (buf : list StreamEntry) (b : batch) (st : State) :
    State * batch * bool :=
  match buf with
  | [] => (st, b, false)
  | e :: buf =>
      match entry_answer_of o i with
      | EntryBroken => (st, b, true)
      | Inserted =>
          process_batch o (S i) buf
            (mkBatch (ack_ids b ++ [entry_id e]) (tx_rows b ++ [ProcessEntry e]) (attempt_fail b) (attempt_dlqed b)) st
      | EntryFailed error =>
          let '(st, dead) := on_entry_error o i e error st in
          process_batch o (S i) buf
            (mkBatch (ack_ids b) (tx_rows b) (attempt_fail b + 1)
               (if dead : bool then attempt_dlqed b + 1 else attempt_dlqed b)) st
      end
  end.

Fixpoint ack_all (o : attempt_oracle) (i : nat) (ids : list string) (st : State) : State :=
  match ids with [] => st | id :: ids => ack_all o (S i) ids (Ack id (final_ack o i) st).1 end.

Definition commit_rows (rows : list Row) (st : State) : State :=
  set_db (fold_left (fun d r => insert_row r d) rows (db st)) st.

(** One attempt: whether it committed, and the counts of stored, failed and dead events. *)
Definition flush_attempt (o : attempt_oracle) (buf : list StreamEntry) (st : State) : State * bool * (Z * Z * Z) :=
  let '(st, ready) := EnsureDbPrepared (prepare_ok o) st in
  if negb ready then (st, false, (0, 0, 0))
  else match begin_fails o with
       | Some broken => (if broken : bool then set_connection false false st else st, false, (0, 0, 0))
       | None =>
           let '(st, b, broken) := process_batch o 0 buf (mkBatch [] [] 0 0) st in
           if broken then (set_connection false false st, false, (0, attempt_fail b, attempt_dlqed b))
           else match commit_answer_of o with
                | Committed =>
                    (ack_all o 0 (ack_ids b) (commit_rows (tx_rows b) st), true,
                     (zlen (ack_ids b), attempt_fail b, attempt_dlqed b))
                | CommitFailed effective broken =>
                    let st := if effective then commit_rows (tx_rows b) st else st in
                    (if broken then set_connection false false st else st, false,
                     (0, attempt_fail b, attempt_dlqed b))
                end
       end.

(** The attempts from [attempt] on, [more] of them after this one. *)
Fixpoint flush_attempts (os : nat -> attempt_oracle) (attempt more : nat) (buf : list StreamEntry)
    (counts : Z * Z * Z) (st : State) : State * (Z * Z * Z) :=
  let st := if Nat.eqb attempt 0 then st else bump wb_flush_retry_attempt_total_ 1 st in
  let '(st, committed, (ok, fail, dead)) := flush_attempt (os attempt) buf st in
  let counts := (counts.1.1 + ok, counts.1.2 + fail, counts.2 + dead) in
  if committed : bool then (st, counts)
  else match more with
       | O => (bump wb_flush_retry_exhausted_total_ 1 st, counts)
       | S more => flush_attempts os (S attempt) more buf counts st
       end.

Definition Flush (os : nat -> attempt_oracle) (buf : list StreamEntry) (st : State) : State :=
  match buf with
  | [] => st
  | _ =>
      let '(st, (ok, fail, dead)) := flush_attempts os 0 (Z.to_nat (retry_max cfg)) buf (0, 0, 0) st in
      bump wb_flush_dlq_total_ dead (bump wb_flush_fail_total_ fail (bump wb_flush_ok_total_ ok
        (bump wb_flush_total_ 1 st)))
  end.

(** ** The loop *)

Record Loop := mkLoop {
  buf : list StreamEntry;
  buf_bytes : Z;
  last_flush : Z;
  last_reclaim : Z;
  initial_reclaim_done : bool;
  reclaim_next_id_ : string;
  db_reconnect_attempt_ : Z;
}.

Definition set_buf (b : list StreamEntry) (bytes flushed : Z) (l : Loop) : Loop :=
  mkLoop b bytes flushed (last_reclaim l) (initial_reclaim_done l) (reclaim_next_id_ l) (db_reconnect_attempt_ l).

(** The answers to the flushes of a round, the clock after each, and the rest of a round. *)
Record Claimed := mkClaimed { claimed_entries : list StreamEntry; next_start_id : string; deleted_ids : list string }.

Record tick := mkTick {
  connect_ok : bool;
  connect_prepare_ok : bool;
  now_reclaim : Z;
  claim : option Claimed;
  deleted_ack : nat -> ack_answer;
  read : option (list StreamEntry);
  now : Z;
  flush_answers : nat -> nat -> attempt_oracle;
  flush_clock : nat -> Z;
}.

(** The buffering of entries, with a flush when the batch is full; [k] counts the flushes of
    the round. *)
Fixpoint buffer_entries (t : tick) (k : nat) (entries : list StreamEntry) (l : Loop) (st : State) :
    nat * Loop * State :=
  match entries with
  | [] => (k, l, st)
  | e :: entries =>
      let bytes := u64 (buf_bytes l + EstimateEntryBytes e) in
      let b := buf l ++ [e] in
      if (batch_max_events cfg <=? zlen b) || (batch_max_bytes cfg <=? bytes) then
        buffer_entries t (S k) entries (set_buf [] 0 (flush_clock t k) l) (Flush (flush_answers t k) b st)
      else buffer_entries t k entries (set_buf b bytes (last_flush l) l) st
  end.

Definition EnsureDbConnection (t : tick) (st : State) : State * bool :=
  if db_open st then
    let '(st, ok) := EnsureDbPrepared (connect_prepare_ok t) st in
    if ok then (st, true) else (bump wb_db_unavailable_total_ 1 st, false)
  else
    let st := set_connection (connect_ok t) false st in
    if connect_ok t then EnsureDbPrepared (connect_prepare_ok t) st
    else (bump wb_db_unavailable_total_ 1 st, false).

Fixpoint ack_deleted (t : tick) (i : nat) (ids : list string) (st : State) : State :=
  match ids with [] => st | id :: ids => ack_deleted t (S i) ids (Ack id (deleted_ack t i) st).1 end.

Definition ReclaimPending (t : tick) (l : Loop) (st : State) : nat * Loop * State :=
  let st := bump wb_reclaim_runs_total_ 1 st in
  match claim t with
  | None => (0%nat, l, bump wb_reclaim_error_total_ 1 st)
  | Some c =>
      let l := if bool_decide (next_start_id c = EmptyString) then l
               else mkLoop (buf l) (buf_bytes l) (last_flush l) (last_reclaim l) (initial_reclaim_done l)
                      (next_start_id c) (db_reconnect_attempt_ l) in
      let st := match deleted_ids c with
                | [] => st
                | ids => ack_deleted t 0 ids (bump wb_reclaim_deleted_total_ (zlen ids) st)
                end in
      match claimed_entries c with
      | [] => (0%nat, l, st)
      | entries => buffer_entries t 0 entries l (bump wb_reclaim_total_ (zlen entries) st)
      end
  end.

(** [SleepDbReconnectBackoff]: the largest delay it draws, and the count of attempts. *)
Definition reconnect_bound (attempt : Z) : Z :=
  let base := Z.max 1 (db_reconnect_base_ms cfg) in
  let cap := Z.max base (db_reconnect_max_ms cfg) in
  Z.min cap (u64 (base * Z.shiftl 1 (Z.min attempt 16))).
Definition next_attempt (attempt : Z) : Z := if attempt <? 2 ^ 32 - 1 then attempt + 1 else attempt.

Definition set_attempt (n : Z) (l : Loop) : Loop :=
  mkLoop (buf l) (buf_bytes l) (last_flush l) (last_reclaim l) (initial_reclaim_done l) (reclaim_next_id_ l) n.

(** Entries that are read become pending. *)
Definition deliver (entries : list StreamEntry) (st : State) : State :=
  set_pel (list_to_set (map entry_id entries) ∪ pel st) st.

(** One round of [Loop]; the log of the number of pending entries apart. *)
Definition loop_round (t : tick) (l : Loop) (st : State) : Loop * State :=
  let '(st, connected) := EnsureDbConnection t st in
  if negb connected then (set_attempt (next_attempt (db_reconnect_attempt_ l)) l, st)
  else
    let l := set_attempt 0 l in
    let '(k, l, st) :=
      if reclaim_enabled cfg && (reclaim_interval_ms cfg <=? now_reclaim t - last_reclaim l) then
        let '(k, l, st) := ReclaimPending t l st in
        (k, mkLoop (buf l) (buf_bytes l) (last_flush l) (now_reclaim t) true (reclaim_next_id_ l)
              (db_reconnect_attempt_ l), st)
      else (0%nat, l, st) in
    match read t with
    | None => (l, st)
    | Some entries =>
        let '(k, l, st) := buffer_entries t k entries l (deliver entries st) in
        if nonempty (buf l) && (batch_delay_ms cfg <=? now t - last_flush l)
        then (set_buf [] 0 (now t) l, Flush (flush_answers t k) (buf l) st)
        else (l, st)
    end.

Fixpoint loop_run (ts : list tick) (l : Loop) (st : State) : Loop * State :=
  match ts with [] => (l, st) | t :: ts => let '(l, st) := loop_round t l st in loop_run ts l st end.

End flush.
End worker.

(** ** The replayer *)

Record ReplayerConfig := mkReplayerConfig {
  replay_db_uri : string;
  replay_redis_uri : string;
  replay_dlq_stream : string;
  dead_stream : string;
  replay_group : string;
  replay_consumer : string;
  replay_retry_max : Z;
  replay_backoff_ms : Z;
  replay_batch_size : Z;
}.

Definition ReplayerLoad (getenv : string -> option string) : ReplayerConfig :=
  mkReplayerConfig (env_string getenv "DB_URI" EmptyString) (env_string getenv "REDIS_URI" EmptyString)
    (env_string getenv "WB_DLQ_STREAM" "session_events_dlq") (env_string getenv "WB_DEAD_STREAM" "session_events_dead")
    (env_string getenv "WB_GROUP_DLQ" "wb_dlq_group") (env_string getenv "WB_CONSUMER" "wb_dlq_consumer")
    (env_number getenv "WB_RETRY_MAX" 5 1 999) (env_number getenv "WB_RETRY_BACKOFF_MS" 250 50 60000)
    (env_number getenv "WB_DLQ_BATCH" 50 1 1000).

(** [emplace] keeps the first value of a name. *)
Definition ToMap (fs : list (string * string)) : gmap string string :=
  fold_left (fun m kv => match m !! kv.1 with Some _ => m | None => <[kv.1 := kv.2]> m end) fs ∅.

(** [std::stoi]. *)
Definition stoi (s : string) : option Z :=
  match stoll s with
  | Some v => if (- 2 ^ 31 <=? v) && (v <? 2 ^ 31) then Some v else None
  | None => None
  end.

Definition reserved : list string := ["orig_event_id"; "error"; "retry_count"]%string.

(** The row [TryInsertToDb] inserts. *)
Definition replay_row (dump : gmap string string -> string) (event_id : string) (mp : gmap string string) : Row :=
  mkRow event_id
    (default "unknown"%string (mp !! "type"%string))
    (default 0 (stoll (default "0"%string (mp !! "ts_ms"%string))))
    (default EmptyString (mp !! "user_id"%string))
    (default EmptyString (mp !! "session_id"%string))
    (default EmptyString (mp !! "room_id"%string))
    (dump (filter (fun kv => kv.1 ∉ reserved) mp)).

Definition orig_id (e : StreamEntry) : string := default (entry_id e) (ToMap (fields e) !! "orig_event_id"%string).
Definition retry_count (e : StreamEntry) : Z :=
  match ToMap (fields e) !! "retry_count"%string with Some v => default 0 (stoi v) | None => 0 end.

Definition without_retry_count (fs : list (string * string)) : list (string * string) :=
  List.filter (fun kv => negb (bool_decide (kv.1 = "retry_count"%string))) fs.

(** What goes to the stream of the dead, and what goes back to the dead letters. *)
Definition dead_fields (e : StreamEntry) (orig error : string) : list (string * string) :=
  [("orig_event_id"%string, orig)] ++ without_retry_count (fields e) ++ [("error"%string, error)].
Definition retry_fields (e : StreamEntry) (orig : string) (count : Z) (error : string) : list (string * string) :=
  [("orig_event_id"%string, orig)] ++ without_retry_count (fields e)
  ++ [("retry_count"%string, str (decimal (count + 1))); ("error"%string, error)].

Fixpoint double_delay (n : nat) (delay : Z) : Z :=
  match n with O => delay | S n => double_delay n (if delay <? 10000 then Z.min (delay * 2) 10000 else delay) end.
Definition retry_delay (cfg : ReplayerConfig) (count : Z) : Z :=
  double_delay (Z.to_nat count) (replay_backoff_ms cfg).

(** What becomes of a dead letter: acknowledged after it was stored, moved or put back, or
    left pending. *)
Inductive replay_outcome :=
  | Stored (r : Row)
  | MovedToDead (fs : list (string * string))
  | PutBack (fs : list (string * string))
  | LeftPending.

(** The replayer's [ProcessEntry] with [HandleFailure], and whether the connection is open
    after it; [answer] is what the database would do with the row, and [xadd_ok] the answer
    to the one stream it may add to.  A connection that was lost is not opened again before
    the next batch, and [TryInsertToDb] then throws an error of its own. *)
Definition ReplayEntry (dump : gmap string string -> string) (cfg : ReplayerConfig) (open : bool)
    (answer : entry_answer) (xadd_ok : bool) (e : StreamEntry) : replay_outcome * bool :=
  match (if open then answer else EntryFailed "DB connection not open") with
  | Inserted => (Stored (replay_row dump (orig_id e) (ToMap (fields e))), open)
  | EntryBroken => (LeftPending, false)
  | EntryFailed error =>
      (if replay_retry_max cfg <=? retry_count e + 1 then
         if xadd_ok then MovedToDead (dead_fields e (orig_id e) error) else LeftPending
       else if xadd_ok then PutBack (retry_fields e (orig_id e) (retry_count e) error) else LeftPending, open)
  end.

(** The entries of one read, after [EnsureDbConnection]. *)
Fixpoint replay_batch (dump : gmap string string -> string) (cfg : ReplayerConfig) (open : bool)
    (es : list (entry_answer * bool * StreamEntry)) : list replay_outcome :=
  match es with
  | [] => []
  | (answer, xadd_ok, e) :: es =>
      let '(r, open) := ReplayEntry dump cfg open answer xadd_ok e in
      r :: replay_batch dump cfg open es
  end.

End WriteBehind.
