(* ===== verification/WriteBehindProps.v ===== *)
(** Properties of the write-behind pipeline: no event that was delivered is lost, the table
    holds rows of delivered events only, and a replayed dead letter gives the row the worker
    would have stored. *)

From S2P Require Import Prelude Text ChatText GatewayConfig InstanceRegistry WriteBehind.
Import WriteBehind.

(** ** Where an event is *)

Definition dead_letter (id : string) (st : State) : Prop :=
  exists fs, fs ∈ dlq st /\ head fs = Some ("orig_event_id"%string, id).

(** In the table or among the dead letters. *)
Definition stored (id : string) (st : State) : Prop := is_Some (db st !! id) \/ dead_letter id st.

(** Still pending, or stored. *)
Definition safe (id : string) (st : State) : Prop := id ∈ pel st \/ stored id st.

Definition keeps (st st' : State) : Prop :=
  (forall id, safe id st -> safe id st') /\ (forall id, stored id st -> stored id st').

#[export] Instance keeps_preorder : PreOrder keeps.
Proof.
  split; [by split; auto|]. intros st1 st2 st3 [H1 H1'] [H2 H2']. split; auto.
Qed.

Create HintDb wb.

Lemma keeps_bump c n st : keeps st (bump c n st).
Proof. done. Qed.
Lemma keeps_connection o p st : keeps st (set_connection o p st).
Proof. done. Qed.
Lemma keeps_prepared ok st : keeps st (EnsureDbPrepared ok st).1.
Proof. unfold EnsureDbPrepared. repeat case_match; done. Qed.
Lemma keeps_deliver es st : keeps st (deliver es st).
Proof.
  split; [|done]. intros id [Hid|Hid]; [left|by right]. cbn. set_solver.
Qed.
#[export] Hint Resolve keeps_bump keeps_connection keeps_prepared keeps_deliver : wb.

(** An acknowledgement of a stored event. *)
Lemma keeps_ack id a st : stored id st -> keeps st (Ack id a st).1.
Proof.
  intros Hs. unfold Ack. split; [|by destruct (ack_effective a)].
  intros id' [Hp|Hp]; [|right; by destruct (ack_effective a)].
  destruct (decide (id' = id)) as [->|Hne]; [right; by destruct (ack_effective a)|left].
  destruct (ack_effective a); [|done]. cbn. set_solver.
Qed.

Lemma keeps_add_dlq fs st : keeps st (add_dlq fs st).
Proof.
  assert (Hs : forall id, stored id st -> stored id (add_dlq fs st)).
  { intros id [Hd|(fs' & Hin & Hh)]; [by left|right]. exists fs'. split; [|done]. cbn. set_solver. }
  split; [|done]. intros id [Hp|Hp]; [by left|right; auto].
Qed.
#[export] Hint Resolve keeps_add_dlq : wb.

Lemma insert_row_mono r d id : is_Some (d !! id) -> insert_row r d !! id = d !! id.
Proof.
  intros [x Hx]. unfold insert_row. destruct (d !! row_event_id r) eqn:Hr; [done|].
  rewrite lookup_insert_ne; [done|]. intros He. congruence.
Qed.

Lemma insert_rows_mono rows d id :
  is_Some (d !! id) -> fold_left (fun d r => insert_row r d) rows d !! id = d !! id.
Proof.
  revert d. induction rows as [|r rows IH]; intros d Hd; [done|]. cbn [fold_left].
  rewrite IH by (by rewrite insert_row_mono). by apply insert_row_mono.
Qed.

Lemma insert_rows_stored rows d r :
  r ∈ rows -> is_Some (fold_left (fun d r => insert_row r d) rows d !! row_event_id r).
Proof.
  revert d. induction rows as [|r' rows IH]; intros d Hin; [set_solver|].
  apply elem_of_cons in Hin as [->|Hr]; cbn [fold_left]; [|by apply IH].
  assert (Hs : is_Some (insert_row r' d !! row_event_id r')).
  { unfold insert_row. destruct (d !! row_event_id r') eqn:Hd; [by eexists|]. rewrite lookup_insert_eq. by eexists. }
  by rewrite insert_rows_mono.
Qed.

Lemma keeps_commit rows st : keeps st (commit_rows rows st).
Proof.
  assert (Hs : forall id, stored id st -> stored id (commit_rows rows st)).
  { intros id [Hd|Hd]; [left|by right]. cbn. by rewrite insert_rows_mono. }
  split; [|done]. intros id [Hp|Hp]; [by left|right; auto].
Qed.
#[export] Hint Resolve keeps_commit : wb.

Section config.
  Context (dump : gmap string string -> string) (cfg : WorkerConfig).

Definition dlq_enabled : bool := dlq_on_error cfg && negb (bool_decide (dlq_stream cfg = EmptyString)).

(** With dead letters on, Redis accepts them; without them, failed events are not
    acknowledged. *)
Definition lossless (o : attempt_oracle) : Prop :=
  if dlq_enabled then forall i, xadd_ok o i = true else ack_on_error cfg = false.

Lemma keeps_entry_error o i e error st : lossless o -> keeps st (on_entry_error cfg o i e error st).1.
Proof.
  intros Hl. unfold on_entry_error, lossless, dlq_enabled in *.
  destruct (dlq_on_error cfg && negb (bool_decide (dlq_stream cfg = EmptyString))).
  - unfold SendToDlq. rewrite Hl. cbn [fst negb andb].
    etransitivity; [apply (keeps_add_dlq (dlq_fields e error))|]. apply keeps_ack. right.
    exists (dlq_fields e error). split; [|done]. cbn. set_solver.
  - rewrite Hl. cbn. done.
Qed.

Lemma Ack_db id a st : db (Ack id a st).1 = db st.
Proof. unfold Ack. by destruct (ack_effective a). Qed.

Lemma on_entry_error_db o i e error st : db (on_entry_error cfg o i e error st).1 = db st.
Proof.
  unfold on_entry_error, SendToDlq.
  destruct (dlq_on_error cfg && negb (bool_decide (dlq_stream cfg = EmptyString))).
  - cbn [fst negb andb]. rewrite Ack_db. by destruct (xadd_ok o i).
  - cbn [negb andb]. destruct (ack_on_error cfg); [|done].
    pose proof (Ack_db (entry_id e) (error_ack o i) st) as Ha.
    destruct (Ack (entry_id e) (error_ack o i) st) as [st' ok]. by destruct ok.
Qed.

(** Every identifier to acknowledge has its row in the transaction, and rows are of entries
    of the batch. *)
Definition batch_ok (es : list StreamEntry) (b : batch) : Prop :=
  Forall (fun id => exists r, r ∈ tx_rows b /\ row_event_id r = id) (ack_ids b)
  /\ Forall (fun r => exists e, e ∈ es /\ r = ProcessEntry dump e) (tx_rows b).

Lemma process_batch_facts o i es all b st :
  lossless o -> batch_ok all b -> (forall e, e ∈ es -> e ∈ all) ->
  let '(st', b', _) := process_batch dump cfg o i es b st in keeps st st' /\ batch_ok all b' /\ db st' = db st.
Proof.
  intros Hl. revert i b st. induction es as [|e es IH]; intros i b st Hb Hes; cbn [process_batch]; [done|].
  destruct (entry_answer_of o i) as [|error|]; [| |done].
  - apply IH; [|set_solver]. destruct Hb as [Ha Hr]. split; cbn [ack_ids tx_rows].
    + apply Forall_app. split.
      * eapply Forall_impl; [exact Ha|]. intros id (r & Hin & Hid). exists r. set_solver.
      * constructor; [|constructor]. exists (ProcessEntry dump e). set_solver.
    + apply Forall_app. split; [done|]. constructor; [|constructor]. exists e. set_solver.
  - pose proof (keeps_entry_error o i e error st Hl) as Hk.
    pose proof (on_entry_error_db o i e error st) as Hdb.
    destruct (on_entry_error cfg o i e error st) as [st1 dead]. cbn [fst] in Hk, Hdb.
    match goal with |- context [process_batch _ _ _ _ _ ?b' st1] => specialize (IH (S i) b' st1 Hb) end.
    destruct (process_batch _ _ _ _ _ _ st1) as [[st2 b2] broken].
    destruct IH as (Hk2 & Hb2 & Hdb2); [set_solver|]. split_and!; [by etransitivity|done|congruence].
Qed.

Lemma keeps_ack_all o i ids st : Forall (fun id => stored id st) ids -> keeps st (ack_all o i ids st).
Proof.
  revert i st. induction ids as [|id ids IH]; intros i st Hids; cbn [ack_all]; [done|].
  apply Forall_cons in Hids as [Hid Hids]. pose proof (keeps_ack id (final_ack o i) st Hid) as Hk.
  etransitivity; [exact Hk|]. apply IH. eapply Forall_impl; [exact Hids|]. apply Hk.
Qed.

Lemma ack_all_db o i ids st : db (ack_all o i ids st) = db st.
Proof.
  revert i st. induction ids as [|id ids IH]; intros i st; cbn [ack_all]; [done|]. rewrite IH.
  unfold Ack. by destruct (ack_effective _).
Qed.

(** The rows that an operation adds are of entries of a list. *)
Definition rows_from (es : list StreamEntry) (st st' : State) : Prop :=
  forall id r, db st' !! id = Some r -> db st !! id = Some r \/ exists e, e ∈ es /\ entry_id e = id /\ r = ProcessEntry dump e.

Lemma rows_from_refl es st st' : db st' = db st -> rows_from es st st'.
Proof. intros He id r Hr. left. by rewrite <- He. Qed.

Lemma rows_from_trans es st1 st2 st3 : rows_from es st1 st2 -> rows_from es st2 st3 -> rows_from es st1 st3.
Proof. intros H1 H2 id r Hr. destruct (H2 id r Hr) as [Hr'|?]; [|by right]. by apply H1. Qed.

Lemma insert_rows_from (es : list StreamEntry) rows d id r :
  Forall (fun r => exists e, e ∈ es /\ r = ProcessEntry dump e) rows ->
  fold_left (fun d r => insert_row r d) rows d !! id = Some r ->
  d !! id = Some r \/ exists e, e ∈ es /\ entry_id e = id /\ r = ProcessEntry dump e.
Proof.
  intros Hrows. revert d. induction Hrows as [|r' rows (e & He & ->) _ IH]; intros d Hd; cbn [fold_left] in Hd; [by left|].
  destruct (IH _ Hd) as [Hi|?]; [|by right]. unfold insert_row in Hi. cbn [row_event_id ProcessEntry] in Hi.
  destruct (d !! entry_id e) eqn:Hde; [by left|]. apply lookup_insert_Some in Hi as [[<- <-]|[_ Hi]]; [|by left].
  right. by exists e.
Qed.

Lemma flush_attempt_facts o es st :
  lossless o -> let '(st', _, _) := flush_attempt dump cfg o es st in keeps st st' /\ rows_from es st st'.
Proof.
  intros Hl. unfold flush_attempt. pose proof (keeps_prepared (prepare_ok o) st) as Hk0.
  assert (Hdb0 : db (EnsureDbPrepared (prepare_ok o) st).1 = db st) by (unfold EnsureDbPrepared; by repeat case_match).
  destruct (EnsureDbPrepared (prepare_ok o) st) as [st0 ready]. cbn [fst] in Hk0, Hdb0.
  destruct ready; cbn [negb]; [|by split; [|apply rows_from_refl]].
  destruct (begin_fails o) as [broken|]; [by destruct broken; (split; [|by apply rows_from_refl])|].
  pose proof (process_batch_facts o 0 es es (mkBatch [] [] 0 0) st0 Hl) as Hb.
  destruct (process_batch dump cfg o 0 es _ st0) as [[st1 b] broken].
  destruct Hb as (Hk1 & [Hack Hrows] & Hdb1); [by split; constructor|done|].
  assert (Hk : keeps st st1) by (by etransitivity). assert (Hdb : db st1 = db st) by congruence.
  assert (Hcommit : rows_from es st (commit_rows (tx_rows b) st1)).
  { intros id r Hr. cbn in Hr. rewrite <- Hdb. by apply (insert_rows_from es (tx_rows b)). }
  destruct broken; [by split; [|apply rows_from_refl]|].
  destruct (commit_answer_of o) as [|effective broken].
  - split.
    + etransitivity; [exact Hk|]. etransitivity; [apply (keeps_commit (tx_rows b))|]. apply keeps_ack_all.
      eapply Forall_impl; [exact Hack|]. intros id (r & Hin & <-). left. cbn. by apply insert_rows_stored.
    + eapply rows_from_trans; [exact Hcommit|]. apply rows_from_refl, ack_all_db.
  - destruct effective, broken; (split; [|first [exact Hcommit|by apply rows_from_refl]]); try done;
      (etransitivity; [exact Hk|]; apply (keeps_commit (tx_rows b))).
Qed.

Lemma rows_from_mono es all st st' :
  (forall e, e ∈ es -> e ∈ all) -> rows_from es st st' -> rows_from all st st'.
Proof. intros Hes Hr id r Hid. destruct (Hr id r Hid) as [?|(e & He & ?)]; [by left|right]. exists e. auto. Qed.

Lemma flush_attempts_facts os attempt more es counts st :
  (forall a, lossless (os a)) ->
  let '(st', _) := flush_attempts dump cfg os attempt more es counts st in keeps st st' /\ rows_from es st st'.
Proof.
  intros Hl. revert attempt counts st. induction more as [|more IH]; intros attempt counts st; cbn [flush_attempts].
  all: set (st0 := if Nat.eqb attempt 0 then st else bump wb_flush_retry_attempt_total_ 1 st).
  all: assert (Hk0 : keeps st st0 /\ db st0 = db st) by (unfold st0; by destruct (Nat.eqb attempt 0)).
  all: pose proof (flush_attempt_facts (os attempt) es st0 (Hl attempt)) as Ha.
  all: destruct (flush_attempt dump cfg (os attempt) es st0) as [[st1 committed] [[ok fail] dead]].
  all: assert (H1 : keeps st st1 /\ rows_from es st st1) by
    (destruct Ha as [Hk Hr], Hk0 as [Hk0 Hd0]; split; [by etransitivity|]; intros id r Hid; rewrite <- Hd0; by apply Hr).
  all: destruct committed; [exact H1|].
  - exact H1.
  - specialize (IH (S attempt) (counts.1.1 + ok, counts.1.2 + fail, counts.2 + dead) st1).
    destruct (flush_attempts _ _ _ _ _ _ _ st1) as [st2 c2]. destruct IH as [Hk Hr], H1 as [Hk1 Hr1].
    split; [by etransitivity|by eapply rows_from_trans].
Qed.

Lemma Flush_facts os es st :
  (forall a, lossless (os a)) -> keeps st (Flush dump cfg os es st) /\ rows_from es st (Flush dump cfg os es st).
Proof.
  intros Hl. unfold Flush. destruct es as [|e es]; [by split; [|apply rows_from_refl]|].
  pose proof (flush_attempts_facts os 0 (Z.to_nat (retry_max cfg)) (e :: es) (0, 0, 0) st Hl) as Hf.
  by destruct (flush_attempts _ _ _ _ _ _ _ _) as [st' [[ok fail] dead]].
Qed.

(** A loop whose buffered entries are among the known ones, with room for one more. *)
Definition loop_ok (all : list StreamEntry) (l : Loop) : Prop :=
  (forall e, e ∈ buf l -> e ∈ all) /\ (zlen (buf l) < Z.max 1 (batch_max_events cfg)).

Lemma buffer_entries_facts t k es all l st :
  (forall k a, lossless (flush_answers t k a)) -> (forall e, e ∈ es -> e ∈ all) -> loop_ok all l ->
  let '(_, l', st') := buffer_entries dump cfg t k es l st in
  keeps st st' /\ rows_from all st st' /\ loop_ok all l'.
Proof.
  intros Hl. revert k l st. induction es as [|e es IH]; intros k l st Hes Hok; cbn [buffer_entries].
  { by split_and!; [|apply rows_from_refl|]. }
  assert (Hb : forall x, x ∈ buf l ++ [e] -> x ∈ all).
  { intros x [Hx|Hx]%elem_of_app; [by apply Hok|]. apply Hes. set_solver. }
  destruct (_ || _) eqn:Hfull.
  - destruct (Flush_facts (flush_answers t k) (buf l ++ [e]) st (Hl k)) as [Hk Hr].
    specialize (IH (S k) (set_buf [] 0 (flush_clock t k) l) (Flush dump cfg (flush_answers t k) (buf l ++ [e]) st)).
    destruct (buffer_entries _ _ _ _ _ _ _) as [[k' l'] st']. destruct IH as (Hk2 & Hr2 & Hok2).
    + set_solver.
    + split; [set_solver|]. cbn. lia.
    + split_and!; [by etransitivity| |done]. eapply rows_from_trans; [|done]. by eapply rows_from_mono.
  - apply IH; [set_solver|]. split; [done|]. apply orb_false_iff in Hfull as [Hfull _]. cbn in *. lia.
Qed.

Lemma ack_deleted_facts t i ids st id :
  ~ id ∈ ids -> (safe id st -> safe id (ack_deleted t i ids st)) /\ db (ack_deleted t i ids st) = db st.
Proof.
  revert i st. induction ids as [|x ids IH]; intros i st Hni; cbn [ack_deleted]; [done|].
  destruct (IH (S i) (Ack x (deleted_ack t i) st).1) as [Hs Hd]; [set_solver|].
  split; [|by rewrite Hd, Ack_db]. intros Hid. apply Hs. unfold Ack. destruct (ack_effective _); [|done].
  destruct Hid as [Hp|Hp]; [left|by right]. cbn. set_solver.
Qed.

Definition deleted (t : tick) : list string := match claim t with Some c => deleted_ids c | None => [] end.
Definition seen (t : tick) : list StreamEntry :=
  match claim t with Some c => claimed_entries c | None => [] end ++ default [] (read t).

Lemma ReclaimPending_facts t all l st id :
  (forall k a, lossless (flush_answers t k a)) -> (forall e, e ∈ seen t -> e ∈ all) -> loop_ok all l -> ~ id ∈ deleted t ->
  let '(_, l', st') := ReclaimPending dump cfg t l st in
  (safe id st -> safe id st') /\ rows_from all st st' /\ loop_ok all l'.
Proof.
  intros Hl Hes Hok Hnd. unfold ReclaimPending, deleted, seen in *.
  destruct (claim t) as [c|]; [|by split_and!; [|apply rows_from_refl|]].
  set (l1 := if bool_decide _ then l else _). assert (Hok1 : loop_ok all l1) by (unfold l1; by case_match).
  set (st1 := match deleted_ids c with [] => _ | _ => _ end).
  assert (H1 : (safe id st -> safe id st1) /\ db st1 = db st).
  { unfold st1. destruct (deleted_ids c) as [|x ids]; [done|].
    exact (ack_deleted_facts t 0 (x :: ids) (bump wb_reclaim_deleted_total_ (zlen (x :: ids))
      (bump wb_reclaim_runs_total_ 1 st)) id Hnd). }
  destruct H1 as [Hs1 Hd1]. clearbody st1 l1.
  destruct (claimed_entries c) as [|e es] eqn:Hce; [by split_and!; [|apply rows_from_refl|]|].
  pose proof (buffer_entries_facts t 0 (e :: es) all l1 (bump wb_reclaim_total_ (zlen (e :: es)) st1) Hl) as Hb.
  destruct (buffer_entries _ _ _ _ _ _ _) as [[k' l'] st']. destruct Hb as (Hk & Hr & Hok2); [set_solver|done|].
  split_and!; [|intros i r Hi; rewrite <- Hd1; by apply Hr|done].
  intros Hid. apply Hk, Hs1, Hid.
Qed.

Lemma EnsureDbConnection_facts t st :
  keeps st (EnsureDbConnection t st).1 /\ db (EnsureDbConnection t st).1 = db st.
Proof. unfold EnsureDbConnection, EnsureDbPrepared. repeat (case_match; cbn; simplify_eq; try done). Qed.

(** Whether a round gets entries from Redis. *)
Definition reads (t : tick) (st : State) (id : string) : Prop :=
  (EnsureDbConnection t st).2 = true /\ exists es, read t = Some es /\ id ∈ map entry_id es.

Lemma loop_round_facts t all l st id :
  (forall k a, lossless (flush_answers t k a)) -> (forall e, e ∈ seen t -> e ∈ all) -> loop_ok all l -> ~ id ∈ deleted t ->
  let '(l', st') := loop_round dump cfg t l st in
  (safe id st \/ reads t st id -> safe id st') /\ rows_from all st st' /\ loop_ok all l'.
Proof.
  intros Hl Hes Hok Hnd. unfold loop_round, reads. destruct (EnsureDbConnection_facts t st) as [Hk0 Hd0].
  destruct (EnsureDbConnection t st) as [st0 connected]. cbn [fst snd] in *.
  destruct connected; cbn [negb].
  2: { split_and!; [|by apply rows_from_refl|done]. intros [Hs|[? _]]; [by apply Hk0|done]. }
  set (rec := if _ && _ then _ else _).
  assert (Hrec : (safe id st -> safe id rec.2) /\ rows_from all st rec.2 /\ loop_ok all rec.1.2).
  { unfold rec. destruct (_ && _); [|by split_and!; [intros; apply Hk0|apply rows_from_refl|]].
    pose proof (ReclaimPending_facts t all (set_attempt 0 l) st0 id Hl Hes Hok Hnd) as Hr.
    destruct (ReclaimPending _ _ _ _ _) as [[k l'] st']. destruct Hr as (Hs & Hr & Hok').
    split_and!; [intros Hid; by apply Hs, Hk0|intros i r Hi; rewrite <- Hd0; by apply Hr|done]. }
  destruct rec as [[k l1] st1]. cbn [fst snd] in Hrec. destruct Hrec as (Hs1 & Hr1 & Hok1).
  unfold seen in Hes. destruct (read t) as [es|] eqn:Hread; cbn [default from_option Datatypes.id] in *.
  2: { split_and!; [|done..]. intros [Hs|(_ & es & ? & _)]; [auto|done]. }
  pose proof (buffer_entries_facts t k es all l1 (deliver es st1) Hl) as Hb.
  destruct (buffer_entries _ _ _ _ _ _ _) as [[k2 l2] st2]. destruct Hb as (Hk2 & Hr2 & Hok2); [set_solver|done|].
  assert (H2 : (safe id st \/ (true = true /\ exists es0, Some es = Some es0 /\ id ∈ map entry_id es0) -> safe id st2)
    /\ rows_from all st st2).
  { split; [|by eapply rows_from_trans]. intros [Hs|(_ & es0 & [= <-] & Hin)]; apply Hk2.
    - apply keeps_deliver. auto.
    - left. cbn. rewrite elem_of_union, elem_of_list_to_set. by left. }
  destruct H2 as [Hs2 Hrows2]. destruct (nonempty (buf l2) && _); [|by split_and!].
  destruct (Flush_facts (flush_answers t k2) (buf l2) st2 (Hl k2)) as [Hk3 Hr3].
  split_and!; [intros Hid; by apply Hk3, Hs2| |].
  - eapply rows_from_trans; [done|]. eapply rows_from_mono; [|done]. apply Hok2.
  - split; [set_solver|]. cbn. lia.
Qed.

(** An event is delivered in some round of a run. *)
Fixpoint delivered (id : string) (ts : list tick) (l : Loop) (st : State) : Prop :=
  match ts with
  | [] => False
  | t :: ts => reads t st id \/ let '(l, st) := loop_round dump cfg t l st in delivered id ts l st
  end.

Lemma loop_run_facts ts all l st id :
  Forall (fun t => (forall k a, lossless (flush_answers t k a)) /\ (forall e, e ∈ seen t -> e ∈ all) /\ ~ id ∈ deleted t) ts ->
  loop_ok all l ->
  let '(l', st') := loop_run dump cfg ts l st in
  (safe id st \/ delivered id ts l st -> safe id st') /\ rows_from all st st' /\ loop_ok all l'.
Proof.
  intros Hts. revert l st. induction Hts as [|t ts (Hl & Hes & Hnd) Hts IH]; intros l st Hok; cbn [loop_run delivered].
  { split_and!; [by intros [?|[]]|by apply rows_from_refl|done]. }
  pose proof (loop_round_facts t all l st id Hl Hes Hok Hnd) as Hr.
  destruct (loop_round dump cfg t l st) as [l1 st1]. destruct Hr as (Hs & Hr & Hok1).
  specialize (IH l1 st1 Hok1). destruct (loop_run dump cfg ts l1 st1) as [l2 st2]. destruct IH as (Hs2 & Hr2 & Hok2).
  split_and!; [|by eapply rows_from_trans|done]. intros [Hid|[Hid|Hid]]; auto.
Qed.

End config.

(** ** Replay *)

Definition first_field (name : string) (fs : list (string * string)) : option string :=
  snd <$> find (fun kv => bool_decide (kv.1 = name)) fs.

Lemma ToMap_fold fs m name :
  fold_left (fun m kv => match m !! kv.1 with Some _ => m | None => <[kv.1 := kv.2]> m end) fs m !! name
  = match (m : gmap string string) !! name with Some v => Some v | None => first_field name fs end.
Proof.
  revert m. induction fs as [|[k v] fs IH]; intros m; cbn [fold_left]; [by destruct (m !! name)|].
  rewrite IH. unfold first_field. cbn [find fst snd]. destruct (m !! k) eqn:Hk.
  - case_bool_decide as Hn; [subst; by rewrite Hk|]. by destruct (m !! name).
  - case_bool_decide as Hn; [subst; by rewrite lookup_insert_eq, Hk|]. by rewrite lookup_insert_ne.
Qed.

Lemma ToMap_lookup fs name : ToMap fs !! name = first_field name fs.
Proof. unfold ToMap. by rewrite ToMap_fold, lookup_empty. Qed.

Lemma first_field_app name fs1 fs2 :
  first_field name (fs1 ++ fs2) = match first_field name fs1 with Some v => Some v | None => first_field name fs2 end.
Proof.
  unfold first_field. induction fs1 as [|kv fs1 IH]; [done|]. cbn [app find]. by case_bool_decide.
Qed.

Lemma first_field_not_in name fs : ~ name ∈ fs.*1 -> first_field name fs = None.
Proof.
  unfold first_field. induction fs as [|kv fs IH]; [done|]. rewrite fmap_cons. intros Hni. cbn [find].
  rewrite bool_decide_eq_false_2 by set_solver. apply IH. set_solver.
Qed.

(** With distinct names, the last field is the first. *)
Lemma last_field_first name fs : NoDup fs.*1 -> last_field name fs = first_field name fs.
Proof.
  intros Hnd. unfold last_field. assert (Hgen : forall acc,
    fold_left (fun acc f => if bool_decide (f.1 = name) then Some f.2 else acc) fs acc
    = match first_field name fs with Some v => Some v | None => acc end); [|by rewrite Hgen; destruct (first_field name fs)].
  induction fs as [|[k v] fs IH]; intros acc; [done|]. rewrite fmap_cons in Hnd. apply NoDup_cons in Hnd as [Hni Hnd].
  cbn [fold_left fst snd]. rewrite (IH Hnd). unfold first_field. cbn [find fst]. case_bool_decide as Hk; [|done].
  subst k. fold (first_field name fs). by rewrite first_field_not_in.
Qed.

Lemma json_object_lookup name fs : json_object fs !! name = last_field name fs.
Proof.
  unfold json_object, last_field. assert (Hgen : forall (j : gmap string string) acc, j !! name = acc ->
    fold_left (fun j f => <[f.1 := f.2]> j) fs j !! name
    = fold_left (fun acc f => if bool_decide (f.1 = name) then Some f.2 else acc) fs acc);
    [|apply Hgen, lookup_empty].
  induction fs as [|[k v] fs IH]; intros j acc Hj; [done|]. cbn [fold_left fst snd]. apply IH.
  case_bool_decide as Hk; [subst; by rewrite lookup_insert_eq|by rewrite lookup_insert_ne].
Qed.

Lemma first_field_filter name fs :
  name <> "retry_count"%string -> first_field name (without_retry_count fs) = first_field name fs.
Proof.
  intros Hn. unfold first_field, without_retry_count. induction fs as [|[k v] fs IH]; [done|].
  cbn [List.filter find fst]. case_bool_decide as Hk; cbn [negb].
  - subst k. rewrite (bool_decide_eq_false_2 ("retry_count"%string = name)) by congruence. exact IH.
  - cbn [find fst]. by case_bool_decide.
Qed.

Lemma first_field_retry fs : first_field "retry_count" (without_retry_count fs) = None.
Proof.
  unfold first_field, without_retry_count. induction fs as [|[k v] fs IH]; [done|].
  cbn [List.filter fst]. case_bool_decide as Hk; cbn [negb]; [exact IH|]. cbn [find fst].
  by rewrite bool_decide_eq_false_2.
Qed.

(** The fields of an event as the worker gets it. *)
Definition uuid_field (v : option string) : Prop :=
  match v with Some s => s = EmptyString \/ IsUuid s = true | None => True end.

Record plain_event (e : StreamEntry) : Prop := {
  plain_names : NoDup (fields e).*1;
  plain_reserved : Forall (fun n => ~ n ∈ (fields e).*1) reserved;
  plain_user : uuid_field (first_field "user_id" (fields e));
  plain_session : uuid_field (first_field "session_id" (fields e));
  plain_room : uuid_field (first_field "room_id" (fields e));
}.

Lemma normalize_uuid_field v : uuid_field v -> normalize_uuid v = default EmptyString v.
Proof.
  unfold normalize_uuid. destruct v as [s|]; [|done]. intros [->|Hu]; [done|]. rewrite Hu.
  by destruct (bool_decide_reflect (s = EmptyString)) as [->|].
Qed.

(** Entries that carry the same event: the fields that are not reserved, and the
    identifier. *)
Definition carries (e : StreamEntry) (d : StreamEntry) : Prop :=
  orig_id d = entry_id e
  /\ forall name, ~ name ∈ reserved -> first_field name (fields d) = first_field name (fields e).

Lemma carries_row dump e d :
  plain_event e -> carries e d -> replay_row dump (orig_id d) (ToMap (fields d)) = ProcessEntry dump e.
Proof.
  intros [Hnd Hres Hu Hs Hr] [Hid Hf]. unfold replay_row, ProcessEntry.
  assert (Hlast : forall name, last_field name (fields e) = first_field name (fields e)) by (intros; by apply last_field_first).
  rewrite Hid, !ToMap_lookup, !Hlast, !Hf, !normalize_uuid_field by (done || by apply (bool_decide_unpack (~ _ ∈ reserved))).
  f_equal. f_equal. apply map_eq. intros name. rewrite json_object_lookup, Hlast.
  destruct (decide (name ∈ reserved)) as [Hin|Hni].
  - rewrite first_field_not_in by (by rewrite Forall_forall in Hres; auto).
    apply map_lookup_filter_None_2. right. intros v _. cbn. tauto.
  - rewrite <- (Hf name Hni), <- ToMap_lookup. destruct (ToMap (fields d) !! name) as [v|] eqn:Hv.
    + by apply map_lookup_filter_Some_2.
    + apply map_lookup_filter_None_2. by left.
Qed.

Lemma carries_dlq e id error : plain_event e -> carries e (mkStreamEntry id (dlq_fields e error)).
Proof.
  intros _. split.
  - unfold orig_id. rewrite ToMap_lookup. done.
  - intros name Hn. unfold dlq_fields. cbn [fields]. rewrite !first_field_app.
    rewrite (first_field_not_in name [_]) by set_solver. destruct (first_field name (fields e)); [done|].
    apply first_field_not_in. set_solver.
Qed.

Lemma carries_retry e d id count error :
  carries e d -> carries e (mkStreamEntry id (retry_fields d (orig_id d) count error)).
Proof.
  intros [Hid Hf]. split.
  - unfold orig_id at 1. rewrite ToMap_lookup. done.
  - intros name Hn. rewrite <- Hf by done. unfold retry_fields. cbn [fields]. rewrite !first_field_app.
    rewrite (first_field_not_in name [_]) by set_solver. rewrite first_field_filter by set_solver.
    destruct (first_field name (fields d)); [done|]. apply first_field_not_in. set_solver.
Qed.

Lemma stoi_decimal n : 0 <= n < 2 ^ 31 -> stoi (str (decimal n)) = Some n.
Proof.
  intros Hn. unfold stoi, stoll. rewrite scan_number_decimal by lia.
  rewrite (proj2 (Z.leb_le _ _)) by lia. rewrite (proj2 (Z.ltb_lt _ _)) by lia. cbn [andb].
  rewrite (proj2 (Z.leb_le _ _)) by lia. by rewrite (proj2 (Z.ltb_lt _ _)) by lia.
Qed.

Lemma retry_count_dlq e id error : plain_event e -> retry_count (mkStreamEntry id (dlq_fields e error)) = 0.
Proof.
  intros [_ Hres _ _ _]. unfold retry_count. rewrite ToMap_lookup. unfold dlq_fields. cbn [fields].
  rewrite Forall_forall in Hres. rewrite !first_field_app, (first_field_not_in "retry_count" (fields e)); [done|].
  apply Hres. unfold reserved. set_solver.
Qed.

Lemma retry_count_retry d id orig count error :
  0 <= count < 2 ^ 31 - 1 -> retry_count (mkStreamEntry id (retry_fields d orig count error)) = count + 1.
Proof.
  intros Hc. unfold retry_count. rewrite ToMap_lookup. unfold retry_fields. cbn [fields].
  rewrite !first_field_app, first_field_retry.
  change (default 0 (stoi (str (decimal (count + 1)))) = count + 1). by rewrite stoi_decimal by lia.
Qed.

(** The letter after failed attempts, each with its error and the identifier the letter is
    put back under: still in the stream of dead letters, or moved out of it. *)
Fixpoint failed_attempts (dump : gmap string string -> string) (cfg : ReplayerConfig)
    (failures : list (string * string)) (d : StreamEntry) : option StreamEntry :=
  match failures with
  | [] => Some d
  | (error, id) :: failures =>
      match (ReplayEntry dump cfg true (EntryFailed error) true d).1 with
      | PutBack fs => failed_attempts dump cfg failures (mkStreamEntry id fs)
      | _ => None
      end
  end.

Lemma failed_attempts_facts dump cfg failures e d :
  carries e d -> 0 <= retry_count d < replay_retry_max cfg -> replay_retry_max cfg < 1000 ->
  match failed_attempts dump cfg failures d with
  | Some d' => carries e d' /\ retry_count d' = retry_count d + zlen failures
               /\ retry_count d + zlen failures < replay_retry_max cfg
  | None => replay_retry_max cfg <= retry_count d + zlen failures
  end.
Proof.
  revert d. induction failures as [|[error id] failures IH]; intros d Hc Hr Hmax; cbn [failed_attempts length].
  - split_and!; [done|lia|lia].
  - unfold ReplayEntry. destruct (Z.leb_spec (replay_retry_max cfg) (retry_count d + 1)) as [Hle|Hgt]; cbn [fst]; [lia|].
    pose proof (retry_count_retry d id (orig_id d) (retry_count d) error ltac:(lia)) as Hn.
    specialize (IH _ (carries_retry e d id (retry_count d) error Hc) ltac:(lia) Hmax). rewrite Hn in IH.
    destruct (failed_attempts _ _ failures _) as [d'|]; [|lia]. destruct IH as (? & ? & ?). split_and!; [done|lia|lia].
Qed.

(** ** Theorems *)

(** C9. The worker loses no event.  Over any rounds of its loop, with any failures of the
    database at any point, commits whose reply is lost, and acknowledgements that fail or
    whose reply is lost: an event that is pending at the start or is delivered in a round is
    at the end still pending, or in the table, or a dead letter, unless Redis has reported
    it as deleted; every row that was added is that of an event the worker was given; and
    the buffer never holds a full batch between rounds.  This is for configurations that
    either send failed events to the dead letters, with Redis accepting them, or neither
    send nor acknowledge them. *)
Theorem wb_no_event_lost dump cfg ts all l st id :
  Forall (fun t => (forall k a, lossless cfg (flush_answers t k a))
                   /\ (forall e, e ∈ seen t -> e ∈ all) /\ ~ id ∈ deleted t) ts ->
  loop_ok cfg all l ->
  let '(l', st') := loop_run dump cfg ts l st in
  (safe id st \/ delivered dump cfg id ts l st -> safe id st')
  /\ (forall i r, db st' !! i = Some r ->
        db st !! i = Some r \/ exists e, e ∈ all /\ entry_id e = i /\ r = ProcessEntry dump e)
  /\ zlen (buf l') < Z.max 1 (batch_max_events cfg).
Proof.
  intros Hts Hok. pose proof (loop_run_facts dump cfg ts all l st id Hts Hok) as Hr.
  destruct (loop_run dump cfg ts l st) as [l' st']. destruct Hr as (Hs & Hr & [_ Hb]). by split_and!.
Qed.

Definition sample_event (id : string) : StreamEntry :=
  mkStreamEntry id [("type"%string, "login"%string); ("ts_ms"%string, "1700000000000"%string)].

(** A round whose first attempt loses the reply of its commit. *)
Definition sample_oracle (attempt : nat) : attempt_oracle :=
  mkAttemptOracle true None (fun i => if Nat.eqb i 1 then EntryFailed "bad row" else Inserted) (fun _ => true)
    (fun _ => mkAckAnswer true true) (if Nat.eqb attempt 0 then CommitFailed true false else Committed)
    (fun i => mkAckAnswer true (Nat.eqb i 1)).
Definition sample_tick (es : list StreamEntry) : tick :=
  mkTick true true 2000 None (fun _ => mkAckAnswer true true) (Some es) 3000 (fun _ => sample_oracle) (fun _ => 2500).
Definition sample_loop : Loop := mkLoop [] 0 0 0 false "0-0" 0.
Definition sample_state : State := mkState false false (fun _ => 0) ∅ ∅ [].

Lemma wb_no_event_lost_witness :
  let dump := fun _ : gmap string string => "{}"%string in
  let cfg := Load (fun _ => None) in
  let es := [sample_event "1-0"; sample_event "2-0"] in
  let '(l', st') := loop_run dump cfg [sample_tick es] sample_loop sample_state in
  safe "2-0" st' /\ pel st' = ∅ /\ zlen (buf l') < 100.
Proof.
  intros dump cfg es.
  pose proof (wb_no_event_lost dump cfg [sample_tick es] es sample_loop sample_state "2-0") as Hw.
  destruct (loop_run dump cfg [sample_tick es] sample_loop sample_state) as [l' st'] eqn:Er.
  destruct Hw as (Hs & _ & Hb).
  - constructor; [|constructor]. split_and!; [intros k a i; reflexivity|intros e He; exact He|].
    intros Hin. by apply not_elem_of_nil in Hin.
  - split; [intros ? Hin; by apply not_elem_of_nil in Hin|by vm_compute].
  - split_and!; [|apply (f_equal (fun x => pel x.2)) in Er; cbn [snd] in Er; rewrite <- Er; vm_compute; reflexivity|exact Hb].
    apply Hs. right. left. split; [vm_compute; reflexivity|]. exists es. split; [done|]. right. left.
Defined.

(** When Redis refuses the dead letter, the event is lost all the same: the worker does not
    look at the result, acknowledges the event and counts it as a dead letter. *)
Lemma refused_dead_letter_is_lost :
  let dump := fun _ : gmap string string => "{}"%string in
  let cfg := Load (fun _ => None) in
  let o := mkAttemptOracle true None (fun _ => EntryFailed "bad row") (fun _ => false)
             (fun _ => mkAckAnswer true true) Committed (fun _ => mkAckAnswer true true) in
  let st := Flush dump cfg (fun _ => o) [sample_event "1-0"]
              (mkState true true (fun _ => 0) {["1-0"%string]} ∅ []) in
  pel st = ∅ /\ db st = ∅ /\ dlq st = [] /\ counters st wb_flush_dlq_total_ = 1.
Proof. split_and!; vm_compute; reflexivity. Qed.

(** A dead letter is sent in the attempt that fails for it, before the commit: when the
    commit then fails, the next attempt sends it again. *)
Lemma dead_letter_sent_twice :
  let dump := fun _ : gmap string string => "{}"%string in
  let cfg := Load (fun _ => None) in
  let st := Flush dump cfg sample_oracle [sample_event "1-0"; sample_event "2-0"]
              (mkState true true (fun _ => 0) {["1-0"%string; "2-0"%string]} ∅ []) in
  length (dlq st) = 2%nat /\ counters st wb_flush_dlq_total_ = 2.
Proof. split_and!; vm_compute; reflexivity. Qed.

(** After the connection is lost in an attempt, the other attempts of the flush cannot
    succeed: none of them connects again. *)
Lemma retries_without_connection dump cfg os attempt more es counts st :
  db_open st = false ->
  let '(st', counts') := flush_attempts dump cfg os attempt more es counts st in
  pel st' = pel st /\ db st' = db st /\ dlq st' = dlq st /\ counts' = counts.
Proof.
  revert attempt st. induction more as [|more IH]; intros attempt st Ho; cbn [flush_attempts].
  all: set (st0 := if Nat.eqb attempt 0 then st else bump wb_flush_retry_attempt_total_ 1 st).
  all: assert (H0 : db_open st0 = false /\ pel st0 = pel st /\ db st0 = db st /\ dlq st0 = dlq st)
    by (unfold st0; by destruct (Nat.eqb attempt 0)).
  all: destruct H0 as (Ho0 & Hp & Hd & Hq); unfold flush_attempt, EnsureDbPrepared; rewrite Ho0; cbn [negb].
  all: destruct counts as [[a b] c]; cbn [fst snd]; rewrite !Z.add_0_r.
  - by split_and!.
  - specialize (IH (S attempt) st0 Ho0). destruct (flush_attempts _ _ _ _ _ _ _ st0) as [st' c'].
    destruct IH as (-> & -> & -> & ->). by split_and!.
Qed.

(** A dead letter replays as the event it was made from.  However many attempts at it have
    failed before, as long as it is in the stream: when the database takes it, the row that
    is stored is the one the worker would have stored for the event, under the event's own
    identifier; and it leaves the stream for that of the dead at the configured number of
    failures, not before. *)
Theorem dlq_replay_same_row dump cfg e id error failures :
  plain_event e -> 1 <= replay_retry_max cfg < 1000 ->
  match failed_attempts dump cfg failures (mkStreamEntry id (dlq_fields e error)) with
  | Some d => zlen failures < replay_retry_max cfg
              /\ ReplayEntry dump cfg true Inserted true d = (Stored (ProcessEntry dump e), true)
  | None => replay_retry_max cfg <= zlen failures
  end.
Proof.
  intros He Hmax. pose proof (retry_count_dlq e id error He) as H0.
  pose proof (failed_attempts_facts dump cfg failures e _ (carries_dlq e id error He) ltac:(lia) ltac:(lia)) as Hf.
  rewrite H0 in Hf. destruct (failed_attempts _ _ _ _) as [d|]; [|lia]. destruct Hf as (Hc & _ & Hlt).
  split; [lia|]. unfold ReplayEntry. by rewrite (carries_row dump e d He Hc).
Qed.

Lemma dlq_replay_same_row_witness :
  let dump := fun j : gmap string string => default EmptyString (j !! "type"%string) in
  let cfg := ReplayerLoad (fun _ => None) in
  let e := sample_event "1-0" in
  exists d, failed_attempts dump cfg [("timeout"%string, "8-0"%string)] (mkStreamEntry "7-0" (dlq_fields e "bad row")) = Some d
  /\ ReplayEntry dump cfg true Inserted true d = (Stored (ProcessEntry dump e), true).
Proof.
  intros dump cfg e.
  assert (He : plain_event e).
  { constructor; [apply (bool_decide_unpack _); vm_compute; reflexivity..|exact I|exact I|exact I]. }
  pose proof (dlq_replay_same_row dump cfg e "7-0" "bad row" [("timeout"%string, "8-0"%string)] He ltac:(by vm_compute)) as Hr.
  destruct (failed_attempts _ _ _ _) as [d|] eqn:Hd; [exists d; by destruct Hr|]. by vm_compute in Hr.
Defined.

(** An event whose identifier is not a UUID is stored by the worker without it, but replayed
    with it, which the column's type refuses. *)
Lemma replay_keeps_bad_uuid :
  let dump := fun _ : gmap string string => EmptyString in
  let e := mkStreamEntry "1-0" [("user_id"%string, "guest"%string)] in
  row_user_id (ProcessEntry dump e) = EmptyString
  /\ row_user_id (replay_row dump "1-0" (ToMap (dlq_fields e "timeout"))) = "guest"%string.
Proof. split; vm_compute; reflexivity. Qed.

(** A connection that breaks inside a batch costs every later letter of the batch one of its
    attempts, though none of them was sent to the database. *)
Lemma broken_connection_uses_attempts :
  let dump := fun _ : gmap string string => EmptyString in
  let cfg := ReplayerLoad (fun key => if bool_decide (key = "WB_RETRY_MAX"%string) then Some "1"%string else None) in
  let d := fun id => mkStreamEntry id (dlq_fields (sample_event id) "bad row") in
  replay_batch dump cfg true [(EntryBroken, true, d "1-0"%string); (Inserted, true, d "2-0"%string)]
  = [LeftPending; MovedToDead (dead_fields (d "2-0"%string) "2-0" "DB connection not open")].
Proof. vm_compute. reflexivity. Qed.
