(* ===== verification/LuaRuntime.v ===== *)
(** The script runtime: [core/scripting/lua_runtime.hpp], [lua_runtime.cpp] and the sandbox
    policy of [lua_sandbox.cpp].

    The Lua interpreter (LuaJIT through sol2) is not part of the sources: what a run of a
    script yields is the function [vm] of the class [LuaVm].  Modelled are the allocator and
    the instruction hook that limit a run, the directives in comments, the reading of a
    script's answer, and the runtime that calls every script and merges the answers.  What
    the file system holds is an argument of an operation. *)

From stdpp Require Import sorting.
From S2P Require Import Prelude Text ChatText.

(** ** Limits of a run *)

Definition kInstructionHookGranularity : Z := 100.

Record VmExecutionBudget := mkBudget {
  memory_limit_bytes : Z;
  used_bytes : Z;
  peak_bytes : Z;
  instruction_limit : Z;
  executed_instructions : Z;
  memory_limit_hit : bool;
  instruction_limit_hit : bool;
}.

(** The size word in front of every block handed out. *)
Abbreviation lua_heap := (gmap Z Z).

(** [budgeted_lua_alloc] for the block [ptr]; [raw] is the answer of [malloc] or [realloc]. *)
Definition budgeted_lua_alloc (ptr : option Z) (nsize : Z) (raw : option Z)
    (st : lua_heap * VmExecutionBudget) : (lua_heap * VmExecutionBudget) * option Z :=
  let '(h, mkBudget limit used peak ilimit executed mhit ihit) := st in
  let size_of p := default 0 (h !! p) in
  if nsize =? 0 then
    match ptr with
    | Some p => ((delete p h, mkBudget limit (u64 (used - size_of p)) peak ilimit executed mhit ihit), None)
    | None => (st, None)
    end
  else
    let old_size := match ptr with Some p => size_of p | None => 0 end in
    let used_without_old := u64 (used - old_size) in
    if (0 <? limit) && ((limit <? nsize) || (u64 (limit - nsize) <? used_without_old)) then
      ((h, mkBudget limit used peak ilimit executed true ihit), None)
    else
      match raw with
      | None => (st, None)
      | Some r =>
          let h := match ptr with Some p => delete p h | None => h end in
          let used := u64 (used_without_old + nsize) in
          ((<[r := nsize]> h, mkBudget limit used (Z.max peak used) ilimit executed mhit ihit), Some r)
      end.

(** [instruction_limit_hook]; [true] is the Lua error that ends the run. *)
Definition instruction_limit_hook (b : VmExecutionBudget) : VmExecutionBudget * bool :=
  let '(mkBudget limit used peak ilimit executed mhit ihit) := b in
  let executed := u64 (executed + kInstructionHookGranularity) in
  if (0 <? ilimit) && (ilimit <? executed)
  then (mkBudget limit used peak ilimit executed mhit true, true)
  else (mkBudget limit used peak ilimit executed mhit ihit, false).

(** ** Sandbox policy *)

Record Policy := mkPolicy {
  allowed_libraries : list string;
  forbidden_symbols : list string;
  policy_instruction_limit : Z;
  policy_memory_limit_bytes : Z;
}.

Definition normalize_token (token : string) : string := to_lower_ascii_local (trim isspace token).

Definition contains_token (token : string) (values : list string) : bool :=
  let normalized := normalize_token token in
  if bool_decide (normalized = EmptyString) then false
  else existsb (fun v => bool_decide (normalize_token v = normalized)) values.

Definition default_policy : Policy := mkPolicy
  ["base"; "string"; "table"; "math"; "utf8"]%string
  ["os"; "io"; "debug"; "package"; "ffi"; "dofile"; "loadfile"; "require"]%string
  100000 1048576.

Definition is_library_allowed (library : string) (p : Policy) : bool :=
  contains_token library p.(allowed_libraries).
Definition is_symbol_forbidden (symbol : string) (p : Policy) : bool :=
  contains_token symbol p.(forbidden_symbols).

(** What [open_allowed_libraries] opens and what it sets to nil. *)
Definition opened_libraries (p : Policy) : list string :=
  filter (fun l => is_library_allowed l p = true)
    ["base"; "string"; "table"; "math"; "utf8"; "coroutine"]%string.
Definition removed_symbols (p : Policy) : list string :=
  filter (fun x => is_symbol_forbidden x p = true)
    ["os"; "io"; "debug"; "package"; "ffi"; "dofile"; "loadfile"; "require"]%string.

(** ** Decisions *)

Inductive LuaHookDecision := kPass | kHandled | kBlock | kModify | kAllow | kDeny.
Inductive ScriptFailureKind := kNone | kInstructionLimit | kMemoryLimit | kOther.

#[export] Instance LuaHookDecision_eq_dec : EqDecision LuaHookDecision.
Proof. solve_decision. Defined.
#[export] Instance ScriptFailureKind_eq_dec : EqDecision ScriptFailureKind.
Proof. solve_decision. Defined.

Record ScriptDecisionResult := mkScriptResult {
  valid : bool;
  executed : bool;
  decision : LuaHookDecision;
  failure_kind : ScriptFailureKind;
  sr_reason : string;
  sr_notice : string;
  sr_error : string;
  peak_memory_bytes : Z;
}.

Definition no_decision : ScriptDecisionResult :=
  mkScriptResult true false kPass kNone EmptyString EmptyString EmptyString 0.

Definition parse_hook_decision (token : string) : option LuaHookDecision :=
  let lowered := to_lower_ascii_local (trim isspace token) in
  if bool_decide (lowered = "pass"%string) then Some kPass
  else if bool_decide (lowered = "handled"%string) then Some kHandled
  else if bool_decide (lowered = "block"%string) then Some kBlock
  else if bool_decide (lowered = "modify"%string) then Some kModify
  else if bool_decide (lowered = "allow"%string) then Some kAllow
  else if bool_decide (lowered = "deny"%string) then Some kDeny
  else None.

Definition parse_limit_failure_kind (token : string) : option ScriptFailureKind :=
  let lowered := to_lower_ascii_local (trim isspace token) in
  if bool_decide (lowered ∈ ["instruction"; "instruction_limit"; "instruction_limit_exceeded"]%string)
  then Some kInstructionLimit
  else if bool_decide (lowered ∈ ["memory"; "memory_limit"; "memory_limit_exceeded"]%string)
  then Some kMemoryLimit
  else None.

Definition hook_decision_rank (d : LuaHookDecision) : Z :=
  match d with
  | kBlock | kDeny => 3
  | kHandled => 2
  | kModify => 1
  | kPass | kAllow => 0
  end.

(** ** Directives in comments *)

Record ParsedDirective := mkDirective {
  hook_name : string;
  decision_token : string;
  limit_token : string;
  dir_reason : string;
}.

(** The text after the first occurrence of [key] and the blanks that follow it. *)
Definition after_key (text key : string) : option string :=
  match String.index 0 key text with
  | None => None
  | Some pos => Some (skip_while isspace (str_drop (pos + String.length key) text))
  end.

Definition extract_word_value (text key : string) : option string :=
  match after_key text key with Some t => Some (take_until isspace t).1 | None => None end.
Definition extract_tail_value (text key : string) : option string :=
  match after_key text key with Some t => Some (trim isspace t) | None => None end.

(** A token of the directive, empty when it is missing. *)
Definition token_value (payload key : string) : string :=
  match extract_word_value payload key with
  | Some w => to_lower_ascii_local (trim isspace w)
  | None => EmptyString
  end.

(** [parse_directive_line]; [None] when [present] stays false. *)
Definition parse_directive_line (line : string) : option ParsedDirective :=
  let trimmed := trim isspace line in
  if negb (String.prefix "--" trimmed) then None
  else
    let payload := trim isspace (str_drop 2 trimmed) in
    if negb (String.prefix "decision=" payload) && negb (String.prefix "hook=" payload)
       && negb (String.prefix "limit=" payload) then None
    else
      let d := token_value payload "decision=" in
      let l := token_value payload "limit=" in
      if bool_decide (d = EmptyString) && bool_decide (l = EmptyString) then None
      else Some (mkDirective (token_value payload "hook=") d l
                   (default EmptyString (extract_tail_value payload "reason="))).

Definition is_newline (c : Ascii.ascii) : bool := byte_of_ascii c =? 10.

(** The lines [std::getline] yields; [fuel] bounds their number. *)
Fixpoint getlines (fuel : nat) (text : string) : list string :=
  match fuel with
  | O => []
  | S fuel' =>
      match text with
      | EmptyString => []
      | _ => let (line, rest) := take_until is_newline text in line :: getlines fuel' (str_drop 1 rest)
      end
  end.

Fixpoint first_directive (target_hook : string) (lines : list string) : option ParsedDirective :=
  match lines with
  | [] => None
  | line :: rest =>
      match parse_directive_line line with
      | Some d => if bool_decide (d.(hook_name) <> EmptyString) && bool_decide (d.(hook_name) <> target_hook)
                  then first_directive target_hook rest else Some d
      | None => first_directive target_hook rest
      end
  end.

Definition find_matching_directive (script_text func_name : string) : option ParsedDirective :=
  first_directive (to_lower_ascii_local func_name) (getlines (String.length script_text) script_text).

(** ** A run of one script *)

Record LuaHookContext := mkHookContext {
  ctx_session_id : Z;
  ctx_user : string;
  ctx_room : string;
  ctx_text : string;
  ctx_command : string;
  ctx_args : string;
  ctx_issuer : string;
  ctx_reason : string;
  ctx_payload_json : string;
  ctx_event : string;
}.

(** The fields that [build_context_table] sets: those with a value. *)
Definition build_context_table (ctx : LuaHookContext) : Z * list (string * string) :=
  (ctx.(ctx_session_id),
   filter (fun e => e.2 <> EmptyString)
     [("user", ctx.(ctx_user)); ("room", ctx.(ctx_room)); ("text", ctx.(ctx_text));
      ("command", ctx.(ctx_command)); ("args", ctx.(ctx_args)); ("issuer", ctx.(ctx_issuer));
      ("reason", ctx.(ctx_reason)); ("payload_json", ctx.(ctx_payload_json));
      ("event", ctx.(ctx_event))]%string).

(** A value a script returns: a table with its string fields, or something else. *)
Abbreviation lua_value := (option (gmap string string)).

Inductive exec_result := Threw (what : string) | Returned (values : list lua_value).

(** What the interpreter does with a script: [lua_newstate] may fail; running the chunk
    throws or returns; and if the environment then has a function of the hook's name,
    calling it throws or returns.  The limits of the run are those of [budgeted_lua_alloc]
    and [instruction_limit_hook], read after the chunk and after the call. *)
Record VmRun := mkVmRun {
  state_created : bool;
  chunk_exec : exec_result;
  chunk_budget : VmExecutionBudget;
  hook_exec : option exec_result;
  hook_budget : VmExecutionBudget;
}.

Class LuaVm := {
  vm : forall (script_text env_name func_name : string) (ctx : Z * list (string * string)) (p : Policy), VmRun;
  (** [luaL_loadbufferx] on the text of a script: the error message and the peak. *)
  vm_load : forall (script_text : string) (p : Policy), option (string * VmExecutionBudget) * Z;
}.

Definition classify_failure (b : VmExecutionBudget) : option ScriptFailureKind :=
  if b.(instruction_limit_hit) then Some kInstructionLimit
  else if b.(memory_limit_hit) then Some kMemoryLimit
  else None.

Definition failed_result (ran : bool) (kind : ScriptFailureKind) (what : string) (peak : Z) : ScriptDecisionResult :=
  mkScriptResult false ran kPass kind EmptyString EmptyString what peak.

Definition parse_return_table_from_lua_object (v : lua_value) (func_name : string) : ScriptDecisionResult :=
  match v with
  | None => no_decision
  | Some t =>
      let get k := default EmptyString (t !! k) in
      let token := get "decision"%string in
      if bool_decide (token = EmptyString) then no_decision
      else match parse_hook_decision token with
           | None => failed_result false kOther
                       (String.append "invalid decision token in return table: " token) 0
           | Some d =>
               let hook_token := to_lower_ascii_local (trim isspace (get "hook"%string)) in
               if bool_decide (hook_token <> EmptyString)
                  && bool_decide (hook_token <> to_lower_ascii_local func_name) then no_decision
               else mkScriptResult true false d kNone (get "reason"%string) (get "notice"%string) EmptyString 0
           end
  end.

Definition set_peak (ran : bool) (peak : Z) (r : ScriptDecisionResult) : ScriptDecisionResult :=
  mkScriptResult r.(valid) ran r.(decision) r.(failure_kind) r.(sr_reason) r.(sr_notice) r.(sr_error) peak.

(** The end of [execute_script]: the answer of the chunk, then the decision of a directive
    where the answer has none. *)
Definition directive_decision (script_text func_name : string) (out : ScriptDecisionResult)
    : ScriptDecisionResult :=
  match find_matching_directive script_text func_name with
  | Some dir =>
      if bool_decide (dir.(decision_token) = EmptyString) then out
      else match parse_hook_decision dir.(decision_token) with
           | None => mkScriptResult false out.(executed) out.(decision) kOther out.(sr_reason) out.(sr_notice)
                       (String.append "invalid decision token: " dir.(decision_token)) out.(peak_memory_bytes)
           | Some d =>
               if (hook_decision_rank out.(decision) =? hook_decision_rank kPass)
                  && bool_decide (out.(sr_reason) = EmptyString) && bool_decide (out.(sr_notice) = EmptyString)
               then mkScriptResult out.(valid) out.(executed) d out.(failure_kind) dir.(dir_reason)
                      out.(sr_notice) out.(sr_error) out.(peak_memory_bytes)
               else out
           end
  | None => out
  end.

Section scripts.
  Context `{!LuaVm}.

(** The call of the hook function, when the script defined one: [inr] is the result of
    [execute_script], [inl] what is known when it goes on. *)
Definition call_hook (run : VmRun) (func_name : string) : (bool * Z) + ScriptDecisionResult :=
  match run.(hook_exec) with
  | None => inl (false, run.(chunk_budget).(peak_bytes))
  | Some e =>
      let peak := run.(hook_budget).(peak_bytes) in
      match e with
      | Threw what => inr (failed_result true (default kOther (classify_failure run.(hook_budget))) what peak)
      | Returned [] => inl (true, peak)
      | Returned (v :: _) => inr (set_peak true peak (parse_return_table_from_lua_object v func_name))
      end
  end.

Definition execute_script (script_text env_name func_name : string) (ctx : LuaHookContext) (p : Policy)
    : ScriptDecisionResult :=
  let limit := match find_matching_directive script_text func_name with
               | Some dir => dir.(limit_token) | None => EmptyString end in
  if bool_decide (limit <> EmptyString) then
    match parse_limit_failure_kind limit with
    | None => failed_result false kOther (String.append "invalid limit token: " limit) 0
    | Some k => failed_result false k
                  (if bool_decide (k = kInstructionLimit) then "LUA_ERRRUN: instruction limit exceeded"
                   else "LUA_ERRMEM: memory limit exceeded") 0
    end
  else
    let run := vm script_text env_name func_name (build_context_table ctx) p in
    if negb run.(state_created) then failed_result false kOther "failed to create lua state" 0
    else
      let peak := run.(chunk_budget).(peak_bytes) in
      match run.(chunk_exec) with
      | Threw what => failed_result false (default kOther (classify_failure run.(chunk_budget))) what peak
      | Returned values =>
          let top := match values with
                     | v :: _ => parse_return_table_from_lua_object v func_name
                     | [] => no_decision
                     end in
          if negb top.(valid) then set_peak false peak top
          else match call_hook run func_name with
               | inr r => r
               | inl (ran, peak) => directive_decision script_text func_name (set_peak ran peak top)
               end
      end.

(** ** The runtime *)

(** What the file system holds: whether a path is a regular file, and its text. *)
Record Fs := mkFs {
  fs_exists : string -> bool;
  fs_regular : string -> bool;
  fs_read : string -> option string;
}.

Record LuaRuntime := mkLuaRuntime {
  policy_ : Policy;
  loaded_scripts_ : gmap string string;
  host_api_ : gset string;
  memory_used_bytes_ : Z;
  calls_total_ : Z;
  errors_total_ : Z;
  instruction_limit_hits_ : Z;
  memory_limit_hits_ : Z;
  reload_epoch_ : Z;
}.

Definition new_LuaRuntime (ilimit mlimit : Z) (libraries : list string) : LuaRuntime :=
  mkLuaRuntime (mkPolicy libraries default_policy.(forbidden_symbols) ilimit mlimit) ∅ ∅ 0 0 0 0 0 0.

Definition with_scripts (scripts : gmap string string) (mem errs epochs : Z) (r : LuaRuntime) : LuaRuntime :=
  mkLuaRuntime r.(policy_) scripts r.(host_api_) mem r.(calls_total_) (u64 (r.(errors_total_) + errs))
    r.(instruction_limit_hits_) r.(memory_limit_hits_) (u64 (r.(reload_epoch_) + epochs)).

(** [validate_script_with_lua]: the error, if any, and the peak of the memory. *)
Definition validate_script_with_lua (fs : Fs) (path : string) (p : Policy) : option string * Z :=
  match fs.(fs_read) path with
  | None => (Some (String.append "failed to open script: " path), 0)
  | Some text =>
      match vm_load text p with
      | (None, peak) => (None, peak)
      | (Some (message, b), peak) =>
          (Some (match classify_failure b with
                 | Some kInstructionLimit => String.append "instruction limit exceeded while validating: " path
                 | Some _ => String.append "memory limit exceeded while validating: " path
                 | None => message
                 end), peak)
      end
  end.

Definition load_script (fs : Fs) (path env_name : string) (r : LuaRuntime) : LuaRuntime * option string :=
  let fail why mem := (with_scripts r.(loaded_scripts_) mem 1 0 r, Some why) in
  if bool_decide (env_name = EmptyString) then fail "env_name is empty"%string r.(memory_used_bytes_)
  else if negb (fs.(fs_exists) path) then fail "script file does not exist"%string r.(memory_used_bytes_)
  else if negb (fs.(fs_regular) path) then fail "script path is not a regular file"%string r.(memory_used_bytes_)
  else match validate_script_with_lua fs path r.(policy_) with
       | (Some err, peak) => fail err peak
       | (None, peak) => (with_scripts (<[env_name := path]> r.(loaded_scripts_)) peak 0 0 r, None)
       end.

(** The loop of [reload_scripts]: scripts so far, failures, peak. *)
Fixpoint reload_loop (fs : Fs) (p : Policy) (scripts : list (string * string))
    (acc : gmap string string * Z * Z) : gmap string string * Z * Z :=
  match scripts with
  | [] => acc
  | (path, env_name) :: rest =>
      let '(reloaded, failed, peak) := acc in
      reload_loop fs p rest
        (if bool_decide (env_name = EmptyString) || negb (fs.(fs_exists) path) || negb (fs.(fs_regular) path)
         then (reloaded, failed + 1, peak)
         else match validate_script_with_lua fs path p with
              | (Some _, m) => (reloaded, failed + 1, Z.max peak m)
              | (None, m) =>
                  (<[env_name := path]> reloaded,
                   if bool_decide (is_Some (reloaded !! env_name)) then failed + 1 else failed, Z.max peak m)
              end)
  end.

Definition reload_scripts (fs : Fs) (scripts : list (string * string)) (r : LuaRuntime)
    : LuaRuntime * (Z * Z) :=
  let '(reloaded, failed, peak) := reload_loop fs r.(policy_) scripts (∅, 0, 0) in
  (with_scripts reloaded peak failed 1 r, (Z.of_nat (size reloaded), failed)).

(** The counters after a run of a script. *)
Definition count_run (calls : Z) (result : ScriptDecisionResult) (r : LuaRuntime) : LuaRuntime :=
  let hit k := if negb result.(valid) && bool_decide (result.(failure_kind) = k) then 1 else 0 in
  mkLuaRuntime r.(policy_) r.(loaded_scripts_) r.(host_api_) r.(memory_used_bytes_)
    (u64 (r.(calls_total_) + calls)) (u64 (r.(errors_total_) + (if result.(valid) then 0 else 1)))
    (u64 (r.(instruction_limit_hits_) + hit kInstructionLimit))
    (u64 (r.(memory_limit_hits_) + hit kMemoryLimit)) r.(reload_epoch_).

Definition set_memory (m : Z) (r : LuaRuntime) : LuaRuntime :=
  with_scripts r.(loaded_scripts_) m 0 0 r.

Inductive CallResult := CallOk (ran : bool) | CallFailed (ran : bool) (error : string).

(** [LuaRuntime::call] *)
Definition lua_call (fs : Fs) (env_name func_name : string) (ctx : LuaHookContext) (r : LuaRuntime)
    : LuaRuntime * CallResult :=
  if bool_decide (func_name = EmptyString)
  then (with_scripts r.(loaded_scripts_) r.(memory_used_bytes_) 1 0 r, CallFailed false "func_name is empty")
  else match r.(loaded_scripts_) !! env_name with
       | None => (r, CallOk false)
       | Some path =>
           match fs.(fs_read) path with
           | None => (with_scripts r.(loaded_scripts_) r.(memory_used_bytes_) 1 0 r,
                      CallFailed false (String.append "failed to open script: " path))
           | Some text =>
               let result := execute_script text env_name func_name ctx r.(policy_) in
               let r := set_memory result.(peak_memory_bytes) r in
               if result.(valid) then (count_run 1 result r, CallOk result.(executed))
               else (count_run 0 result r, CallFailed result.(executed) result.(sr_error))
           end
       end.

(** ** Calling every script *)

Record ScriptCallResult := mkScriptCall {
  sc_env_name : string;
  sc_failed : bool;
  sc_failure_kind : ScriptFailureKind;
}.

Record CallAllResult := mkCallAll {
  attempted : Z;
  failed : Z;
  ca_decision : LuaHookDecision;
  ca_reason : string;
  ca_notices : list string;
  ca_error : string;
  script_results : list ScriptCallResult;
}.

(** One script of [call_all]: what it answers, a file that cannot be read included. *)
Definition run_script (fs : Fs) (func_name : string) (ctx : LuaHookContext) (p : Policy)
    (e : string * string) : ScriptDecisionResult :=
  match fs.(fs_read) e.2 with
  | None => failed_result false kOther (String.append "failed to open script: " e.2) 0
  | Some text => execute_script text e.1 func_name ctx p
  end.

(** The body of the loop, after the run. *)
Definition merge_result (acc : CallAllResult) (env_name : string) (r : ScriptDecisionResult) : CallAllResult :=
  let call := mkScriptCall env_name (negb r.(valid)) (if r.(valid) then kNone else r.(failure_kind)) in
  if negb r.(valid) then
    mkCallAll acc.(attempted) (acc.(failed) + 1) acc.(ca_decision) acc.(ca_reason) acc.(ca_notices)
      (if bool_decide (acc.(ca_error) = EmptyString) then r.(sr_error) else acc.(ca_error))
      (acc.(script_results) ++ [call])
  else
    let better := hook_decision_rank acc.(ca_decision) <? hook_decision_rank r.(decision) in
    mkCallAll acc.(attempted) acc.(failed)
      (if better then r.(decision) else acc.(ca_decision)) (if better then r.(sr_reason) else acc.(ca_reason))
      (acc.(ca_notices) ++ (if bool_decide (r.(sr_notice) = EmptyString) then [] else [r.(sr_notice)]))
      acc.(ca_error) (acc.(script_results) ++ [call]).

Fixpoint call_loop (fs : Fs) (func_name : string) (ctx : LuaHookContext) (scripts : list (string * string))
    (st : LuaRuntime * CallAllResult * Z) : LuaRuntime * CallAllResult * Z :=
  match scripts with
  | [] => st
  | e :: rest =>
      let '(r, acc, peak) := st in
      let result := run_script fs func_name ctx r.(policy_) e in
      call_loop fs func_name ctx rest
        (count_run 0 result r, merge_result acc e.1 result, Z.max peak result.(peak_memory_bytes))
  end.

Definition ordered_scripts (r : LuaRuntime) : list (string * string) :=
  merge_sort key_le (map_to_list r.(loaded_scripts_)).

Definition call_all (fs : Fs) (func_name : string) (ctx : LuaHookContext) (r : LuaRuntime)
    : LuaRuntime * CallAllResult :=
  if bool_decide (func_name = EmptyString)
  then (with_scripts r.(loaded_scripts_) r.(memory_used_bytes_) 1 0 r,
        mkCallAll 0 0 kPass EmptyString [] "func_name is empty" [])
  else
    let n := Z.of_nat (size r.(loaded_scripts_)) in
    let '(r, acc, peak) := call_loop fs func_name ctx (ordered_scripts r)
                             (r, mkCallAll n 0 kPass EmptyString [] EmptyString [], 0) in
    (count_run n no_decision (set_memory peak r), acc).

Definition make_api_key (table_name func_name : string) : string :=
  String.append table_name (String.append "." func_name).

Definition register_host_api (table_name func_name : string) (callback : bool) (r : LuaRuntime)
    : LuaRuntime * bool :=
  if bool_decide (table_name = EmptyString) || bool_decide (func_name = EmptyString) || negb callback
  then (with_scripts r.(loaded_scripts_) r.(memory_used_bytes_) 1 0 r, false)
  else (mkLuaRuntime r.(policy_) r.(loaded_scripts_) ({[make_api_key table_name func_name]} ∪ r.(host_api_))
          r.(memory_used_bytes_) r.(calls_total_) r.(errors_total_) r.(instruction_limit_hits_)
          r.(memory_limit_hits_) r.(reload_epoch_), true).

Definition lua_reset (r : LuaRuntime) : LuaRuntime := mkLuaRuntime r.(policy_) ∅ ∅ 0 0 0 0 0 0.

End scripts.

(** The length of a text is enough fuel for its lines. *)
Lemma getlines_enough n text : (String.length text <= n)%nat -> getlines n text = getlines (String.length text) text.
Proof.
  assert (forall m n s, String.length s <= n -> String.length s <= m -> getlines n s = getlines m s)%nat as H;
    [|intros; by apply H].
  clear n text. intros m. induction m as [|m IH]; intros n s Hn Hm.
  - destruct s; [by destruct n|cbn in *; lia].
  - destruct n as [|n]; [destruct s; [done|cbn in *; lia]|]. cbn [getlines]. destruct s as [|c s]; [done|].
    pose proof (take_until_length is_newline (String c s)) as Hl.
    destruct (take_until is_newline (String c s)) as [w [|d r]]; f_equal; apply IH; cbn in *; lia.
Qed.

(** ** The memory limit *)

Definition heap_total (h : lua_heap) : Z := map_fold (fun _ n acc => n + acc) 0 h.

Lemma heap_total_insert h p n : h !! p = None -> heap_total (<[p := n]> h) = n + heap_total h.
Proof. intros Hp. unfold heap_total. apply map_fold_insert_L; [intros; lia|done]. Qed.

Lemma heap_total_delete h p n : h !! p = Some n -> heap_total h = n + heap_total (delete p h).
Proof.
  intros Hp. rewrite <- (heap_total_insert (delete p h) p n) by apply lookup_delete_eq. by rewrite insert_delete_id.
Qed.

(** The block a caller passes is one it holds, and a new block does not overlap another. *)
Definition legal_call (h : lua_heap) (ptr raw : option Z) : Prop :=
  (forall p, ptr = Some p -> is_Some (h !! p))
  /\ (forall r, raw = Some r -> h !! r = None \/ ptr = Some r).

Definition without (ptr : option Z) (h : lua_heap) : lua_heap :=
  match ptr with Some p => delete p h | None => h end.

Definition within_limit (limit : Z) (st : lua_heap * VmExecutionBudget) : Prop :=
  st.2.(memory_limit_bytes) = limit /\ heap_total st.1 = st.2.(used_bytes)
  /\ 0 <= st.2.(used_bytes) <= st.2.(peak_bytes) /\ st.2.(peak_bytes) <= limit
  /\ (forall p n, st.1 !! p = Some n -> 0 < n).

Lemma heap_total_nonneg h : (forall p n, h !! p = Some n -> 0 < n) -> 0 <= heap_total h.
Proof.
  induction h as [|p n h Hp IH] using map_ind; intros Hpos; [by cbn|].
  rewrite heap_total_insert by done. specialize (Hpos p n (lookup_insert_eq _ _ _)) as Hn.
  enough (0 <= heap_total h) by lia. apply IH. intros q m Hq. apply (Hpos q). rewrite lookup_insert_ne; [done|congruence].
Qed.

Lemma without_total h ptr raw :
  legal_call h ptr raw -> (forall p n, h !! p = Some n -> 0 < n) ->
  let old := match ptr with Some p => default 0 (h !! p) | None => 0 end in
  heap_total h = old + heap_total (without ptr h) /\ 0 <= old /\ 0 <= heap_total (without ptr h).
Proof.
  intros [Hp _] Hpos. destruct ptr as [p|]; cbn.
  - destruct (Hp p eq_refl) as [n Hn]. rewrite Hn. cbn. split; [by apply heap_total_delete|].
    split; [apply Hpos in Hn; lia|]. apply heap_total_nonneg. intros q m [_ Hq]%lookup_delete_Some. by apply (Hpos q).
  - split; [lia|]. split; [lia|]. by apply heap_total_nonneg.
Qed.

(** One call: it keeps the limit, and it fails exactly when memory would exceed it or the
    allocator below has none. *)
Lemma budgeted_lua_alloc_spec limit h b ptr nsize raw :
  0 < limit < 2 ^ 64 -> 0 <= nsize -> within_limit limit (h, b) -> legal_call h ptr raw ->
  let '(st', r) := budgeted_lua_alloc ptr nsize raw (h, b) in
  within_limit limit st'
  /\ (0 < nsize -> r = None <-> raw = None \/ limit < heap_total (without ptr h) + nsize)
  /\ (0 < nsize -> forall a, r = Some a -> st'.1 = <[a := nsize]> (without ptr h)).
Proof.
  intros Hl Hn Hwl Hlegal. pose proof Hwl as (Hlim & Htot & Hused & Hpk & Hpos).
  destruct (without_total h ptr raw Hlegal Hpos) as (Hsum & Hold & Hw).
  destruct b as [limit' used peak il ex mh ih]. cbn [memory_limit_bytes used_bytes peak_bytes fst snd] in *.
  subst limit'. unfold budgeted_lua_alloc.
  destruct (Z.eqb_spec nsize 0) as [->|Hnz].
  - destruct ptr as [p|]; [|split; [exact Hwl|split; lia]].
    split; [|split; lia]. cbn in Hsum, Hw. unfold within_limit. cbn. rewrite wrap_id by (unfold fits; lia).
    split_and!; [done|lia|lia|lia|lia|]. intros q m [_ Hq]%lookup_delete_Some. by apply (Hpos q).
  - set (old := match ptr with Some p => default 0 (h !! p) | None => 0 end) in *. clearbody old.
    cbv zeta. rewrite (wrap_id 64 (used - old)) by (unfold fits; lia).
    rewrite (proj2 (Z.ltb_lt 0 limit)) by lia. cbn [andb].
    destruct (Z.ltb_spec limit nsize) as [Hbig|Hsmall]; cbn [orb]; cbv beta iota.
    { split; [exact Hwl|]. split; [|done]. intros _. split; [right; lia|done]. }
    rewrite (wrap_id 64 (limit - nsize)) by (unfold fits; lia).
    destruct (Z.ltb_spec (limit - nsize) (used - old)) as [Hover|Hfit]; cbv beta iota.
    { split; [exact Hwl|]. split; [|done]. intros _. split; [right; lia|done]. }
    destruct raw as [r|]; [|split; [exact Hwl|]; split; [|done]; intros _; split; auto].
    rewrite wrap_id by (unfold fits; lia).
    assert (Hfresh : without ptr h !! r = None).
    { destruct Hlegal as [_ Hr]. destruct (Hr r eq_refl) as [Hr'| ->]; [|apply lookup_delete_eq].
      destruct ptr as [p|]; [|done]. cbn. rewrite lookup_delete_None. by right. }
    split; [|split; [intros _; split; [done|intros [?|?]; [done|lia]]|by intros _ a [= <-]]].
    change (within_limit limit (<[r := nsize]> (without ptr h),
              mkBudget limit (used - old + nsize) (Z.max peak (used - old + nsize)) il ex mh ih)).
    unfold within_limit. cbn. rewrite heap_total_insert by done. split_and!; try lia.
    intros q m [[-> ->]|[_ Hq]]%lookup_insert_Some; [lia|].
    destruct ptr as [p|]; cbn in Hq; [apply lookup_delete_Some in Hq as [_ Hq]|]; by apply (Hpos q).
Qed.

(** A run of the interpreter: any sequence of calls to the allocator. *)
Fixpoint alloc_run (calls : list (option Z * Z * option Z)) (st : lua_heap * VmExecutionBudget)
    : lua_heap * VmExecutionBudget :=
  match calls with
  | [] => st
  | (ptr, nsize, raw) :: rest => alloc_run rest (budgeted_lua_alloc ptr nsize raw st).1
  end.

Fixpoint legal_run (calls : list (option Z * Z * option Z)) (st : lua_heap * VmExecutionBudget) : Prop :=
  match calls with
  | [] => True
  | (ptr, nsize, raw) :: rest =>
      0 <= nsize /\ legal_call st.1 ptr raw /\ legal_run rest (budgeted_lua_alloc ptr nsize raw st).1
  end.

Definition fresh_budget (limit ilimit : Z) : VmExecutionBudget := mkBudget limit 0 0 ilimit 0 false false.

Lemma alloc_run_within limit calls st :
  0 < limit < 2 ^ 64 -> within_limit limit st -> legal_run calls st -> within_limit limit (alloc_run calls st).
Proof.
  intros Hl. revert st. induction calls as [|[[ptr nsize] raw] calls IH]; intros [h b] Hw Hr; [done|].
  destruct Hr as (Hn & Hc & Hr). cbn [alloc_run]. apply IH; [|done].
  pose proof (budgeted_lua_alloc_spec limit h b ptr nsize raw Hl Hn Hw Hc) as Hs.
  destruct (budgeted_lua_alloc ptr nsize raw (h, b)) as [st' r]. apply Hs.
Qed.

(** A script never holds more memory than its limit, the accounting is exact, and a
    request fails only when it would exceed the limit or the system is out of memory: in
    particular making a block smaller, which Lua assumes cannot fail, is never refused. *)
Theorem lua_memory_bounded limit ilimit calls :
  0 < limit < 2 ^ 64 -> legal_run calls (∅, fresh_budget limit ilimit) ->
  let '(h, b) := alloc_run calls (∅, fresh_budget limit ilimit) in
  heap_total h = b.(used_bytes) /\ b.(used_bytes) <= b.(peak_bytes) <= limit
  /\ forall ptr nsize raw, 0 < nsize -> legal_call h ptr raw ->
       ((budgeted_lua_alloc ptr nsize raw (h, b)).2 = None
          <-> raw = None \/ limit < heap_total (without ptr h) + nsize)
       /\ (forall p, ptr = Some p -> nsize <= default 0 (h !! p) ->
            (budgeted_lua_alloc ptr nsize raw (h, b)).2 = None -> raw = None).
Proof.
  intros Hl Hr.
  assert (Hw : within_limit limit (alloc_run calls (∅, fresh_budget limit ilimit))).
  { apply alloc_run_within; [done| |done]. unfold within_limit. cbn. split_and!; try lia; done. }
  destruct (alloc_run _ _) as [h b]. pose proof Hw as (_ & Htot & Hu & Hpk & Hpos). cbn in Htot, Hu, Hpk, Hpos.
  split; [done|]. split; [lia|]. intros ptr nsize raw Hn Hc.
  pose proof (budgeted_lua_alloc_spec limit h b ptr nsize raw Hl ltac:(lia) Hw Hc) as Hs.
  destruct (budgeted_lua_alloc _ _ _ _) as [st' r]. cbn [snd]. destruct Hs as (_ & Hs & _). specialize (Hs Hn).
  split; [done|]. intros p -> Hle Hnone. apply Hs in Hnone as [?|Hover]; [done|].
  destruct (without_total h (Some p) raw Hc Hpos) as (Hsum & _). cbn in Hsum, Hover. lia.
Qed.

Lemma lua_memory_bounded_witness :
  let calls := [(None, 600, Some 1); (None, 500, Some 2); (Some 1, 300, Some 3); (None, 500, Some 4)] in
  legal_run calls (∅, fresh_budget 1000 0)
  /\ let '(h, b) := alloc_run calls (∅, fresh_budget 1000 0) in
     heap_total h = 800 /\ b.(used_bytes) <= b.(peak_bytes) <= 1000.
Proof.
  intros calls.
  assert (Hr : legal_run calls (∅, fresh_budget 1000 0)).
  { unfold calls, legal_run, legal_call. split_and!; try lia; try done;
      intros ? [= <-]; try (by vm_compute); try (left; by vm_compute); vm_compute; eauto. }
  split; [done|]. pose proof (lua_memory_bounded 1000 0 calls ltac:(lia) Hr) as P.
  destruct (alloc_run calls (∅, fresh_budget 1000 0)) as [h b] eqn:E. destruct P as (P1 & P2 & _).
  split; [|exact P2]. vm_compute in E. injection E as <- <-. by vm_compute.
Defined.

(** ** The instruction limit *)

Fixpoint hook_run (n : nat) (b : VmExecutionBudget) : VmExecutionBudget :=
  match n with O => b | S n' => (instruction_limit_hook (hook_run n' b)).1 end.

(** The hook, called after every 100 instructions, ends a run at the first call at which
    more than the limit has been executed, so at most 100 instructions late. *)
Lemma instruction_limit_exact limit ilimit n :
  0 < ilimit < 2 ^ 63 -> 100 * (Z.of_nat n + 1) < 2 ^ 64 ->
  (instruction_limit_hook (hook_run n (fresh_budget limit ilimit))).2 = true
  <-> ilimit < 100 * (Z.of_nat n + 1).
Proof.
  intros Hi Hn. assert (Hb : forall m, 100 * Z.of_nat m < 2 ^ 64 ->
    executed_instructions (hook_run m (fresh_budget limit ilimit)) = 100 * Z.of_nat m
    /\ instruction_limit (hook_run m (fresh_budget limit ilimit)) = ilimit).
  { intros m. induction m as [|m IH]; intros Hm; [done|]. cbn [hook_run].
    destruct IH as [IH1 IH2]; [lia|]. destruct (hook_run m _) as [a b c d e f g]. cbn in IH1, IH2. subst d e.
    unfold instruction_limit_hook, kInstructionHookGranularity. rewrite wrap_id by (unfold fits; lia).
    destruct (_ && _); cbn; split; lia. }
  destruct (Hb n) as [H1 H2]; [lia|]. destruct (hook_run n _) as [a b c d e f g]. cbn in H1, H2. subst d e.
  unfold instruction_limit_hook, kInstructionHookGranularity. rewrite wrap_id by (unfold fits; lia).
  rewrite (proj2 (Z.ltb_lt 0 ilimit)) by lia. cbn [andb].
  destruct (Z.ltb_spec ilimit (100 * Z.of_nat n + 100)); cbn; split; (done || lia).
Qed.

(** ** The answers of all scripts *)

Section call_all.
  Context `{!LuaVm}.

Abbreviation script_run := (string * ScriptDecisionResult)%type.

(** What each script answers, in the order of the calls. *)
Definition all_runs (fs : Fs) (func_name : string) (ctx : LuaHookContext) (r : LuaRuntime) : list script_run :=
  (fun e => (e.1, run_script fs func_name ctx r.(policy_) e)) <$> ordered_scripts r.

Definition merge_runs (acc : CallAllResult) (runs : list script_run) : CallAllResult :=
  foldl (fun a e => merge_result a e.1 e.2) acc runs.

Lemma call_loop_merge fs f ctx scripts r acc peak :
  let '(r', acc', _) := call_loop fs f ctx scripts (r, acc, peak) in
  acc' = merge_runs acc ((fun e => (e.1, run_script fs f ctx r.(policy_) e)) <$> scripts)
  /\ r'.(policy_) = r.(policy_) /\ r'.(loaded_scripts_) = r.(loaded_scripts_)
  /\ r'.(reload_epoch_) = r.(reload_epoch_).
Proof.
  revert r acc peak. induction scripts as [|e scripts IH]; intros r acc peak; [done|].
  cbn [call_loop]. specialize (IH (count_run 0 (run_script fs f ctx r.(policy_) e) r)
    (merge_result acc e.1 (run_script fs f ctx r.(policy_) e))
    (Z.max peak (peak_memory_bytes (run_script fs f ctx r.(policy_) e)))).
  by destruct (call_loop _ _ _ _ _) as [[r' acc'] m].
Qed.

(** The decision with its reason: of highest rank among the scripts that did not fail, and
    of those the first; pass without a reason if none has a rank. *)
Definition decides (runs : list script_run) (d : LuaHookDecision) (why : string) : Prop :=
  (forall e, e ∈ runs -> e.2.(valid) = true -> hook_decision_rank e.2.(decision) <= hook_decision_rank d)
  /\ ((d = kPass /\ why = EmptyString)
      \/ exists pre e post, runs = pre ++ e :: post /\ e.2.(valid) = true
           /\ e.2.(decision) = d /\ e.2.(sr_reason) = why
           /\ (forall e', e' ∈ pre -> e'.2.(valid) = true ->
                 hook_decision_rank e'.2.(decision) < hook_decision_rank d)).

Lemma merge_runs_decides n runs :
  let out := merge_runs (mkCallAll n 0 kPass EmptyString [] EmptyString []) runs in
  decides runs out.(ca_decision) out.(ca_reason).
Proof.
  induction runs as [|e runs IH] using rev_ind; cbv zeta in *.
  { split; [by intros e ?%elem_of_nil|]. by left. }
  unfold merge_runs in *. rewrite foldl_snoc. set (a := foldl _ _ runs) in *. clearbody a.
  destruct IH as [Hmax Hfirst]. unfold merge_result. destruct (valid e.2) eqn:Hv; cbn [negb].
  - cbn [ca_decision ca_reason].
    destruct (Z.ltb_spec (hook_decision_rank a.(ca_decision)) (hook_decision_rank e.2.(decision))) as [Hlt|Hge].
    + split.
      * intros e' [He'|He'%list_elem_of_singleton]%elem_of_app Hv'; [specialize (Hmax e' He' Hv'); lia|by subst].
      * right. exists runs, e, []. split_and!; try done. intros e' He' Hv'. specialize (Hmax e' He' Hv'). lia.
    + split.
      * intros e' [He'|He'%list_elem_of_singleton]%elem_of_app Hv'; [by apply Hmax|by subst].
      * destruct Hfirst as [?|(pre & x & post & -> & Hx)]; [by left|right].
        exists pre, x, (post ++ [e]). by rewrite <- app_assoc.
  - cbn [ca_decision ca_reason]. split.
    + intros e' [He'|He'%list_elem_of_singleton]%elem_of_app Hv'; [by apply Hmax|subst; congruence].
    + destruct Hfirst as [?|(pre & x & post & -> & Hx)]; [by left|right].
      exists pre, x, (post ++ [e]). by rewrite <- app_assoc.
Qed.

Lemma merge_runs_report n runs :
  let out := merge_runs (mkCallAll n 0 kPass EmptyString [] EmptyString []) runs in
  let ok := filter (fun e : script_run => e.2.(valid) = true) runs in
  out.(attempted) = n
  /\ out.(failed) = zlen (filter (fun e : script_run => e.2.(valid) = false) runs)
  /\ out.(ca_notices) = filter (fun t => t <> EmptyString) ((fun e => e.2.(sr_notice)) <$> ok)
  /\ out.(script_results) = (fun e => mkScriptCall e.1 (negb e.2.(valid))
                                        (if e.2.(valid) then kNone else e.2.(failure_kind))) <$> runs.
Proof.
  induction runs as [|e runs IH] using rev_ind; cbv zeta in *; [done|].
  unfold merge_runs in *. rewrite foldl_snoc. set (a := foldl _ _ runs) in *. clearbody a.
  destruct IH as (H1 & H2 & H3 & H4). rewrite !fmap_app, !filter_app, fmap_app, filter_app. cbn [fmap list_fmap].
  unfold merge_result. destruct (valid e.2) eqn:Hv; cbn [negb attempted failed ca_notices script_results].
  all: rewrite !filter_cons, !filter_nil; repeat case_decide; try congruence.
  all: rewrite ?length_app, ?app_nil_r, H3, H4; split_and!; try done; try (cbn [length]; lia).
  all: cbn; repeat case_bool_decide; repeat case_decide; rewrite ?app_nil_r; (done || congruence).
Qed.

(** [call_all] runs every loaded script once, in the order of their names, and merges
    the answers: a script that fails is counted and changes nothing else; the decision is
    the strictest one of the others, the first of them in the order, with its reason; and
    the notices of the others are kept in order. *)
Theorem call_all_merges fs func_name ctx r :
  func_name <> EmptyString ->
  let runs := all_runs fs func_name ctx r in
  let '(r', out) := call_all fs func_name ctx r in
  runs.*1 ≡ₚ (map_to_list r.(loaded_scripts_)).*1
  /\ out.(attempted) = zlen runs
  /\ out.(failed) = zlen (filter (fun e : script_run => e.2.(valid) = false) runs)
  /\ decides runs out.(ca_decision) out.(ca_reason)
  /\ out.(ca_notices) = filter (fun t => t <> EmptyString)
       ((fun e => e.2.(sr_notice)) <$> filter (fun e : script_run => e.2.(valid) = true) runs)
  /\ (fun c => (c.(sc_env_name), c.(sc_failed))) <$> out.(script_results)
     = (fun e => (e.1, negb e.2.(valid))) <$> runs
  /\ r'.(loaded_scripts_) = r.(loaded_scripts_) /\ r'.(policy_) = r.(policy_).
Proof.
  intros Hf runs. unfold call_all. rewrite bool_decide_false by done.
  pose proof (call_loop_merge fs func_name ctx (ordered_scripts r) r
    (mkCallAll (Z.of_nat (size r.(loaded_scripts_))) 0 kPass EmptyString [] EmptyString []) 0) as Hl.
  destruct (call_loop _ _ _ _ _) as [[r1 acc] peak]. destruct Hl as (Hacc & Hp & Hs & _).
  fold (all_runs fs func_name ctx r) in Hacc. fold runs in Hacc. subst acc.
  pose proof (merge_runs_decides (Z.of_nat (size r.(loaded_scripts_))) runs) as Hd.
  pose proof (merge_runs_report (Z.of_nat (size r.(loaded_scripts_))) runs) as (H1 & H2 & H3 & H4).
  assert (Hperm : ordered_scripts r ≡ₚ map_to_list r.(loaded_scripts_)) by apply merge_sort_Permutation.
  split_and!; try done.
  - unfold runs, all_runs. rewrite <- list_fmap_compose. by rewrite Hperm.
  - rewrite H1. unfold runs, all_runs. rewrite length_fmap, Hperm. by rewrite length_map_to_list.
  - rewrite H4, <- list_fmap_compose. done.
Qed.

End call_all.

(** ** Examples *)

(** An interpreter for which a script is the decision it returns, and the text [error] fails. *)
Definition echo_run (text : string) : VmRun :=
  mkVmRun true
    (if bool_decide (text = "error"%string) then Threw "runtime error"
     else Returned [Some (<["decision"%string := text]> (<["reason"%string := "because"%string]> ∅))])
    (fresh_budget 0 0) None (fresh_budget 0 0).
#[local] Instance echo_vm : LuaVm :=
  {| vm := fun text _ _ _ _ => echo_run text; vm_load := fun _ _ => (None, 0) |}.

Definition no_context : LuaHookContext :=
  mkHookContext 0 EmptyString EmptyString EmptyString EmptyString EmptyString EmptyString EmptyString
    EmptyString EmptyString.
Definition echo_fs : Fs := mkFs (fun _ => true) (fun _ => true) Some.
Definition three_scripts : LuaRuntime :=
  (reload_scripts echo_fs [("Deny", "b"); ("error", "a"); ("block", "c")]%string
     (new_LuaRuntime 100000 1048576 default_policy.(allowed_libraries))).1.

Lemma call_all_merges_witness :
  let '(_, out) := call_all echo_fs "on_join" no_context three_scripts in
  out.(attempted) = 3 /\ out.(failed) = 1
  /\ decides (all_runs echo_fs "on_join" no_context three_scripts) out.(ca_decision) out.(ca_reason)
  /\ out.(ca_decision) = kDeny.
Proof.
  pose proof (call_all_merges echo_fs "on_join" no_context three_scripts ltac:(done)) as P. cbv zeta in P.
  destruct (call_all echo_fs "on_join" no_context three_scripts) as [r out] eqn:E.
  destruct P as (_ & P1 & P2 & P3 & _). split; [rewrite P1; by vm_compute|]. split; [rewrite P2; by vm_compute|].
  split; [exact P3|]. vm_compute in E. by injection E as _ <-.
Defined.

(** A directive is searched in its own reason too: one that only denies becomes a failure
    of the script when its reason mentions a limit. *)
Lemma reason_read_as_limit :
  find_matching_directive "-- decision=deny reason=over limit=5" "on_join"
  = Some (mkDirective EmptyString "deny" "5" "over limit=5")
  /\ valid (execute_script "-- decision=deny reason=over limit=5" "s" "on_join" no_context default_policy) = false.
Proof. by vm_compute. Qed.
