(* ===== verification/LuaBindings.v ===== *)
(** The functions that chat scripts may call, [server/scripting/chat_lua_bindings.cpp].

    The chat service is behind the interface [ChatLuaHost] of the source, a class here, with
    its calls in an arbitrary monad; [ChatAdmin.v] has the service's own definitions of them.
    What a binding may ask of the service is stated with a host that records its calls. *)

From S2P Require Import Prelude Text LuaRuntime.

(** ** Values *)

Inductive HostValue :=
  | VNil | VBool (b : bool) | VInt (n : Z) | VString (s : string) | VStrings (l : list string).

Record HostCallContext := mkHostCallContext {
  hc_hook_name : string;
  hc_script_name : string;
  hc_session_id : Z;
  hc_user : string;
  hc_room : string;
}.

(** [HostCallResult]: the error is empty when the call succeeded. *)
Record HostCallResult := mkHostCallResult { hr_value : HostValue; hr_error : string }.
Definition make_error (message : string) : HostCallResult := mkHostCallResult VNil message.
Definition make_success (v : HostValue) : HostCallResult := mkHostCallResult v EmptyString.

Definition get_u32_arg (args : list HostValue) (index : nat) (name : string) : Z + HostCallResult :=
  match args !! index with
  | None => inr (make_error (name +:+ " argument is missing"))
  | Some (VInt n) =>
      if (n <? 0) || (2 ^ 32 - 1 <? n) then inr (make_error (name +:+ " argument must be a non-negative integer"))
      else inl n
  | Some _ => inr (make_error (name +:+ " argument must be a non-negative integer"))
  end.

Definition get_string_arg (args : list HostValue) (index : nat) (name : string) : string + HostCallResult :=
  match args !! index with
  | None => inr (make_error (name +:+ " argument is missing"))
  | Some (VString s) => inl s
  | Some _ => inr (make_error (name +:+ " argument must be a string"))
  end.

(** ** The host *)

Class ChatLuaHost (M : Type -> Type) := {
  host_get_user_name : Z -> M (option string);
  host_get_user_room : Z -> M (option string);
  host_get_room_users : string -> M (list string);
  host_get_room_list : M (list string);
  host_get_room_owner : string -> M (option string);
  host_is_user_muted : string -> M bool;
  host_is_user_banned : string -> M bool;
  host_get_online_count : M Z;
  host_get_room_count : M Z;
  host_send_notice : Z -> string -> M bool;
  host_broadcast_room : string -> string -> M bool;
  host_broadcast_all : string -> M bool;
  host_kick_user : Z -> string -> M bool;
  host_mute_user : string -> Z -> string -> M bool;
  host_ban_user : string -> Z -> string -> M bool;
  host_log : string -> string -> M unit;
}.

Definition nonempty (s : string) : bool := negb (bool_decide (s = EmptyString)).

Definition log_line (message : string) (ctx : HostCallContext) : string :=
  "[lua]" +:+ (if nonempty (hc_hook_name ctx) then " hook=" +:+ hc_hook_name ctx else EmptyString)
  +:+ (if nonempty (hc_script_name ctx) then " script=" +:+ hc_script_name ctx else EmptyString) +:+ " " +:+ message.

Section bindings.
  Context {M : Type -> Type} `{!MRet M, !MBind M, !ChatLuaHost M}.

Abbreviation Binding := (list HostValue -> HostCallContext -> M HostCallResult).

(** The early returns of a binding. *)
Definition with_u32 (args : list HostValue) (i : nat) (name : string) (k : Z -> M HostCallResult) : M HostCallResult :=
  match get_u32_arg args i name with inl n => k n | inr e => mret e end.
Definition with_string (args : list HostValue) (i : nat) (name : string) (k : string -> M HostCallResult) : M HostCallResult :=
  match get_string_arg args i name with inl s => k s | inr e => mret e end.

(** A query of the host that the context of the hook can answer for its own session. *)
Definition or_context (answer : option string) (session_id : Z) (own : string) (ctx : HostCallContext) : HostCallResult :=
  match answer with
  | Some v => make_success (VString v)
  | None => make_success (if (hc_session_id ctx =? session_id) && nonempty own then VString own else VNil)
  end.

Definition queued (name : string) (ok : bool) : HostCallResult :=
  if ok then make_success VNil else make_error ("failed to queue " +:+ name).

Definition log_with_context (level : string) : Binding := fun args ctx =>
  with_string args 0 "message" (fun message =>
    host_log (if bool_decide (level = "info"%string) then "info" else if bool_decide (level = "warn"%string) then "warn" else "debug")
      (log_line message ctx) ≫= fun _ => mret (make_success VNil)).

(** The table that [register_chat_lua_bindings] fills, in its order. *)
Definition chat_bindings : list (string * Binding) := [
  ("get_user_name", fun args ctx => with_u32 args 0 "session_id" (fun sid =>
     user ← host_get_user_name sid; mret (or_context user sid (hc_user ctx) ctx)));
  ("get_user_room", fun args ctx => with_u32 args 0 "session_id" (fun sid =>
     room ← host_get_user_room sid; mret (or_context room sid (hc_room ctx) ctx)));
  ("get_room_users", fun args _ => with_string args 0 "room_name" (fun room =>
     users ← host_get_room_users room; mret (make_success (VStrings users))));
  ("get_room_list", fun _ _ => rooms ← host_get_room_list; mret (make_success (VStrings rooms)));
  ("get_room_owner", fun args _ => with_string args 0 "room_name" (fun room =>
     owner ← host_get_room_owner room;
     mret (make_success (match owner with Some o => VString o | None => VNil end))));
  ("is_user_muted", fun args _ => with_string args 0 "nickname" (fun name =>
     b ← host_is_user_muted name; mret (make_success (VBool b))));
  ("is_user_banned", fun args _ => with_string args 0 "nickname" (fun name =>
     b ← host_is_user_banned name; mret (make_success (VBool b))));
  ("get_online_count", fun _ _ => n ← host_get_online_count; mret (make_success (VInt n)));
  ("get_room_count", fun _ _ => n ← host_get_room_count; mret (make_success (VInt n)));
  ("send_notice", fun args _ => with_u32 args 0 "session_id" (fun sid => with_string args 1 "text" (fun text =>
     ok ← host_send_notice sid text; mret (queued "send_notice" ok))));
  ("broadcast_room", fun args _ => with_string args 0 "room_name" (fun room => with_string args 1 "text" (fun text =>
     ok ← host_broadcast_room room text; mret (queued "broadcast_room" ok))));
  ("broadcast_all", fun args _ => with_string args 0 "text" (fun text =>
     ok ← host_broadcast_all text; mret (queued "broadcast_all" ok)));
  ("kick_user", fun args _ => with_u32 args 0 "session_id" (fun sid => with_string args 1 "reason" (fun reason =>
     ok ← host_kick_user sid reason; mret (queued "kick_user" ok))));
  ("mute_user", fun args _ => with_string args 0 "nickname" (fun name => with_u32 args 1 "duration_sec" (fun secs =>
     with_string args 2 "reason" (fun reason => ok ← host_mute_user name secs reason; mret (queued "mute_user" ok)))));
  ("ban_user", fun args _ => with_string args 0 "nickname" (fun name => with_u32 args 1 "duration_sec" (fun secs =>
     with_string args 2 "reason" (fun reason => ok ← host_ban_user name secs reason; mret (queued "ban_user" ok)))));
  ("log_info", log_with_context "info");
  ("log_warn", log_with_context "warn");
  ("log_debug", log_with_context "debug");
  ("hook_name", fun _ ctx => mret (make_success (VString (hc_hook_name ctx))));
  ("script_name", fun _ ctx => mret (make_success (VString (hc_script_name ctx))))
]%string.
End bindings.

Definition chat_lua_binding_count : Z := 20.

(** [register_chat_lua_bindings]: the counts of attempts and of successes. *)
Definition register_chat_lua_bindings (names : list string) (r : LuaRuntime) : LuaRuntime * Z * Z :=
  foldl (fun acc name =>
           let '(r, attempted, registered) := acc in
           let '(r, ok) := register_host_api "server" name true r in
           (r, attempted + 1, if ok : bool then registered + 1 else registered)) (r, 0, 0) names.

(** ** A host that records *)

Inductive host_call :=
  | AskSession (session_id : Z) | AskName (name : string) | AskAll
  | Notice (session_id : Z) (text : string) | ToRoom (room text : string) | ToAll (text : string)
  | Kick (session_id : Z) (reason : string) | Sanction (ban : bool) (name : string) (seconds : Z) (reason : string)
  | Logged (level line : string).

Definition changes_service (c : host_call) : bool :=
  match c with AskSession _ | AskName _ | AskAll | Logged _ _ => false | _ => true end.

(** The answers of a host, by the call. *)
Record answers := mkAnswers {
  an_text : host_call -> option string; an_list : host_call -> list string; an_bool : host_call -> bool; an_count : host_call -> Z;
}.

Definition Rec (A : Type) : Type := answers -> list host_call * A.
#[export] Instance Rec_ret : MRet Rec := fun A x _ => ([], x).
#[export] Instance Rec_bind : MBind Rec := fun A B f m an => let '(c1, x) := m an in let '(c2, y) := f x an in (c1 ++ c2, y).

#[export] Instance recording_host : ChatLuaHost Rec := {|
  host_get_user_name := fun sid an => ([AskSession sid], an_text an (AskSession sid));
  host_get_user_room := fun sid an => ([AskSession sid], an_text an (AskSession sid));
  host_get_room_users := fun room an => ([AskName room], an_list an (AskName room));
  host_get_room_list := fun an => ([AskAll], an_list an AskAll);
  host_get_room_owner := fun room an => ([AskName room], an_text an (AskName room));
  host_is_user_muted := fun name an => ([AskName name], an_bool an (AskName name));
  host_is_user_banned := fun name an => ([AskName name], an_bool an (AskName name));
  host_get_online_count := fun an => ([AskAll], an_count an AskAll);
  host_get_room_count := fun an => ([AskAll], an_count an AskAll);
  host_send_notice := fun sid text an => ([Notice sid text], an_bool an (Notice sid text));
  host_broadcast_room := fun room text an => ([ToRoom room text], an_bool an (ToRoom room text));
  host_broadcast_all := fun text an => ([ToAll text], an_bool an (ToAll text));
  host_kick_user := fun sid reason an => ([Kick sid reason], an_bool an (Kick sid reason));
  host_mute_user := fun name secs reason an => ([Sanction false name secs reason], an_bool an (Sanction false name secs reason));
  host_ban_user := fun name secs reason an => ([Sanction true name secs reason], an_bool an (Sanction true name secs reason));
  host_log := fun level line an => ([Logged level line], ());
|}.

(** The numbers a call carries are 32-bit. *)
Definition call_in_range (c : host_call) : Prop :=
  match c with
  | AskSession n | Notice n _ | Kick n _ | Sanction _ _ n _ => fits 32 n
  | _ => True
  end.

Lemma get_u32_arg_cases args i name :
  (exists n, get_u32_arg args i name = inl n /\ fits 32 n /\ args !! i = Some (VInt n))
  \/ (exists e, get_u32_arg args i name = inr (make_error (name +:+ e)) /\ e <> EmptyString).
Proof.
  unfold get_u32_arg. destruct (args !! i) as [[| |n| |]|]; try (right; eexists; split; [reflexivity|done]).
  destruct (Z.ltb_spec n 0); [right; eexists; split; [reflexivity|done]|].
  destruct (Z.ltb_spec (2 ^ 32 - 1) n); [right; eexists; split; [reflexivity|done]|].
  left. exists n. split_and!; [done|widths; lia|done].
Qed.

Lemma get_string_arg_cases args i name :
  (exists s, get_string_arg args i name = inl s /\ args !! i = Some (VString s))
  \/ (exists e, get_string_arg args i name = inr (make_error (name +:+ e)) /\ e <> EmptyString).
Proof.
  unfold get_string_arg. destruct (args !! i) as [[| | |s|]|]; try (right; eexists; split; [reflexivity|done]).
  left. by exists s.
Qed.

(** What a binding did and answered. *)
Definition guarded (calls : list host_call) (an : answers) (r : HostCallResult) : Prop :=
  (length calls <= 1)%nat /\ Forall call_in_range calls
  /\ (hr_error r <> EmptyString -> hr_value r = VNil /\ forall c, c ∈ calls -> changes_service c = true /\ an_bool an c = false)
  /\ (forall c, c ∈ calls -> changes_service c = true -> an_bool an c = true -> hr_error r = EmptyString).

Lemma guarded_error an name e : e <> EmptyString -> name <> EmptyString -> guarded [] an (make_error (name +:+ e)).
Proof. intros He Hn. split_and!; [cbn; lia|constructor|..]; [intros _; split; [done|]; set_solver|set_solver]. Qed.

Lemma guarded_query an c v : changes_service c = false -> call_in_range c -> guarded [c] an (make_success v).
Proof. intros Hc Hr. split_and!; [cbn; lia|by repeat constructor|done|done]. Qed.

Lemma guarded_nothing an v : guarded [] an (make_success v).
Proof. split_and!; [cbn; lia|constructor|done|done]. Qed.

Lemma guarded_queued an c name : changes_service c = true -> call_in_range c -> guarded [c] an (queued name (an_bool an c)).
Proof.
  intros Hc Hr. unfold queued. destruct (an_bool an c) eqn:Hb; (split_and!; [cbn; lia|by repeat constructor|..]).
  - done.
  - done.
  - intros _. split; [done|]. intros c' ->%list_elem_of_singleton. done.
  - intros c' ->%list_elem_of_singleton _ H. by rewrite Hb in H.
Qed.

Lemma guarded_context an sid answer own ctx : fits 32 sid -> guarded [AskSession sid] an (or_context answer sid own ctx).
Proof. intros Hs. unfold or_context. destruct answer; by apply guarded_query. Qed.

Definition guards (m : Rec HostCallResult) : Prop := forall an, guarded (m an).1 an (m an).2.

Lemma with_u32_guards args i name k :
  name <> EmptyString -> (forall n, fits 32 n -> guards (k n)) -> guards (with_u32 args i name k).
Proof.
  intros Hn Hk an. unfold with_u32. destruct (get_u32_arg_cases args i name) as [(n & -> & Hr & _)|(e & -> & He)]; [by apply Hk|].
  by apply guarded_error.
Qed.

Lemma with_string_guards args i name k :
  name <> EmptyString -> (forall s, guards (k s)) -> guards (with_string args i name k).
Proof.
  intros Hn Hk an. unfold with_string. destruct (get_string_arg_cases args i name) as [(s & -> & _)|(e & -> & He)]; [by apply Hk|].
  by apply guarded_error.
Qed.

(** What scripts can make the service do.  Every function they may call makes at most one
    call of the service, with numbers that are 32-bit; arguments that are missing or of the
    wrong type end in an error without any call; and a call that is to change something
    answers with an error exactly when the service has refused it. *)
Theorem bindings_guarded name b args ctx an :
  (name, b) ∈ chat_bindings (M := Rec) -> guarded (b args ctx an).1 an (b args ctx an).2.
Proof.
  assert (Forall (fun nb : string * (list HostValue -> HostCallContext -> Rec HostCallResult) => forall args ctx, guards (nb.2 args ctx))
            (chat_bindings (M := Rec))) as Hall.
  { unfold chat_bindings. repeat apply Forall_cons_2; [..|apply Forall_nil_2]; cbn [snd]; intros as0 cx.
    all: repeat (apply with_u32_guards; [done|intros ? ?]); repeat (apply with_string_guards; [done|intros ?]);
      repeat (apply with_u32_guards; [done|intros ? ?]); repeat (apply with_string_guards; [done|intros ?]); intros an'.
    all: first [by apply guarded_queued | by apply guarded_context | by apply guarded_query | by apply guarded_nothing
               | by apply (with_string_guards as0 0 "message"); [done|intros ? ?; by apply guarded_query]]. }
  intros Hin. rewrite Forall_forall in Hall. exact (Hall _ Hin args ctx an).
Qed.

Definition willing : answers := mkAnswers (fun _ => None) (fun _ => []) (fun _ => true) (fun _ => 0).
Definition no_hook : HostCallContext := mkHostCallContext EmptyString EmptyString 0 EmptyString EmptyString.

Lemma bindings_guarded_witness :
  exists b, ("kick_user"%string, b) ∈ chat_bindings (M := Rec)
    /\ b [VInt 7; VString "spam"] no_hook willing = ([Kick 7 "spam"], make_success VNil)
    /\ guarded (b [VInt 7] no_hook willing).1 willing (b [VInt 7] no_hook willing).2.
Proof.
  assert (exists b, chat_bindings (M := Rec) !! 12%nat = Some ("kick_user"%string, b)
            /\ b [VInt 7; VString "spam"] no_hook willing = ([Kick 7 "spam"], make_success VNil)) as (b & Hb & Hc)
    by (eexists; split; reflexivity).
  assert (("kick_user"%string, b) ∈ chat_bindings (M := Rec)) as Hin by (by eapply list_elem_of_lookup_2).
  exists b. split; [exact Hin|]. split; [exact Hc|]. exact (bindings_guarded "kick_user" b [VInt 7] no_hook willing Hin).
Defined.

(** All functions are registered, as many as [chat_lua_binding_count] says. *)
Lemma bindings_all_registered r :
  let '(_, attempted, registered) := register_chat_lua_bindings (map fst (chat_bindings (M := Rec))) r in
  attempted = chat_lua_binding_count /\ registered = chat_lua_binding_count.
Proof. split; reflexivity. Qed.
