(* ===== verification/Plugins.v ===== *)
(** Loading of plugins: [core/plugin/plugin_host.hpp] (one module, reloaded when its file
    changes) and [core/plugin/plugin_chain_host.hpp] (an ordered chain of them).

    The table of functions a module exports is a type [A]; the file system, [dlopen] and the
    callbacks that interpret the table are inputs of a poll ([Load]).  A host is shared by
    the chains that list it, so hosts live in a store and a chain is a list of references. *)

From stdpp Require Import sorting.
From S2P Require Import Prelude Text ChatText.

(** ** Paths *)

(** The components between slashes, without the empty ones. *)
Definition is_slash (c : Ascii.ascii) : bool := byte_of_ascii c =? 47.

Fixpoint components (fuel : nat) (p : string) : list string :=
  match fuel with
  | O => []
  | S fuel' =>
      match skip_while is_slash p with
      | EmptyString => []
      | p => let (c, rest) := take_until is_slash p in c :: components fuel' rest
      end
  end.

Definition path_ends_with_slash (p : string) : bool :=
  match str_rev p EmptyString with String c _ => is_slash c | EmptyString => false end.
Definition has_root (p : string) : bool :=
  match p with String c _ => is_slash c | EmptyString => false end.

(** [path::lexically_normal] (POSIX): the components kept, last first, and whether a
    separator follows the last of them. *)
Fixpoint normal_loop (root : bool) (cs stack : list string) (trailing : bool) : list string * bool :=
  match cs with
  | [] => (stack, trailing)
  | c :: rest =>
      if bool_decide (c = "."%string) then normal_loop root rest stack true
      else if bool_decide (c = ".."%string) then
        match stack with
        | [] => if root then normal_loop root rest [] true else normal_loop root rest [c] false
        | top :: below => if bool_decide (top = ".."%string) then normal_loop root rest (c :: stack) false
                          else normal_loop root rest below true
        end
      else normal_loop root rest (c :: stack) false
  end.

Definition lexically_normal (p : string) : string :=
  match p with
  | EmptyString => EmptyString
  | _ =>
      let root := has_root p in
      let '(stack, trailing) := normal_loop root (components (String.length p) p) [] false in
      let trailing := trailing || path_ends_with_slash p in
      match stack with
      | [] => if root then "/"%string else "."%string
      | top :: _ =>
          String.append (if root then "/" else EmptyString)
            (String.append (String.concat "/" (rev stack))
               (if trailing && negb (bool_decide (top = ".."%string)) then "/" else EmptyString))
      end
  end.

(** [path::filename], [stem] and [extension]. *)
Definition path_filename (p : string) : string :=
  str_rev (take_until is_slash (str_rev p EmptyString)).1 EmptyString.

Definition is_dot (c : Ascii.ascii) : bool := byte_of_ascii c =? 46.
Definition split_extension (name : string) : string * string :=
  if bool_decide (name = "."%string) || bool_decide (name = ".."%string) then (name, EmptyString)
  else
    let (ext_rev, stem_rev) := take_until is_dot (str_rev name EmptyString) in
    match stem_rev with
    | EmptyString => (name, EmptyString)
    | String dot before =>
        match before with
        | EmptyString => (name, EmptyString)
        | _ => (str_rev before EmptyString, String dot (str_rev ext_rev EmptyString))
        end
    end.
Definition path_stem (p : string) : string := (split_extension (path_filename p)).1.
Definition path_extension (p : string) : string := (split_extension (path_filename p)).2.

(** [dir / name] *)
Definition path_join (dir name : string) : string :=
  if has_root name then name
  else if bool_decide (dir = EmptyString) || path_ends_with_slash dir then String.append dir name
  else String.append dir (String.append "/" name).

Definition parent_path (p : string) : string :=
  let before := str_rev (take_until is_slash (str_rev p EmptyString)).2 EmptyString in
  let trimmed := str_rev (skip_while is_slash (str_rev before EmptyString)) EmptyString in
  match trimmed with EmptyString => if has_root p then "/"%string else EmptyString | _ => trimmed end.

(** ** One module *)

Definition make_default_lock_path (plugin_path : string) : string :=
  path_join (parent_path plugin_path) (String.append (path_stem plugin_path) "_LOCK").

Definition make_cache_path (cache_dir plugin_path : string) (seq : Z) : string :=
  path_join cache_dir
    (String.append (path_stem plugin_path)
       (String.append "_" (String.append (pretty seq) (path_extension plugin_path)))).

Record HostConfig := mkHostConfig {
  plugin_path : string;
  cache_dir : string;
  lock_path : option string;
  entrypoint_symbol : string;
  fallback_entrypoint_symbols : list string;
}.

(** The constructor's completion of the configuration; [tmp] is [temp_directory_path]. *)
Definition complete_config (tmp : string) (c : HostConfig) : HostConfig :=
  let lock := match c.(lock_path) with
              | Some l => if bool_decide (l = EmptyString) then None else Some l
              | None => None
              end in
  let lock := match lock with
              | Some l => Some l
              | None => if bool_decide (c.(plugin_path) = EmptyString) then None
                        else Some (make_default_lock_path c.(plugin_path))
              end in
  let entry := if bool_decide (c.(entrypoint_symbol) = EmptyString) then "plugin_api_v1"%string
               else c.(entrypoint_symbol) in
  mkHostConfig c.(plugin_path)
    (if bool_decide (c.(cache_dir) = EmptyString) then path_join tmp "plugin_cache" else c.(cache_dir))
    lock entry
    (filter (fun s => s <> EmptyString /\ s <> entry) c.(fallback_entrypoint_symbols)).

Fixpoint add_candidates (cs out : list string) : list string :=
  match cs with
  | [] => out
  | c :: rest => add_candidates rest
                   (if bool_decide (c = EmptyString) || bool_decide (c ∈ out) then out else out ++ [c])
  end.

Definition build_entrypoint_candidates (c : HostConfig) : list string :=
  let out := add_candidates c.(fallback_entrypoint_symbols)
               (if bool_decide (c.(entrypoint_symbol) = EmptyString) then [] else [c.(entrypoint_symbol)]) in
  match out with [] => ["plugin_api_v1"%string] | _ => out end.

Section host.
  Context {A : Type}.

Record LoadedPlugin := mkLoaded {
  api : A;
  instance : option Z;
  cached_path : string;
}.

Record PluginHost := mkHost {
  cfg_ : HostConfig;
  current_ : option LoadedPlugin;
  last_attempt_mtime_ : option Z;
  reload_attempt_total_ : Z;
  reload_success_total_ : Z;
  reload_failure_total_ : Z;
}.

Definition new_PluginHost (tmp : string) (c : HostConfig) : PluginHost :=
  mkHost (complete_config tmp c) None None 0 0 0.

(** What a poll meets: the file system, the dynamic loader, and the callbacks on the table
    behind a symbol ([api_resolver], [api_validator], [instance_creator], whose error is
    [None] here). *)
Record Load := mkLoad {
  file_exists : string -> bool;
  get_mtime : string -> option Z;
  ensure_dir : string -> bool;
  copy_to_cache : string -> string -> bool;
  lib_open : string -> bool;
  lib_symbol : string -> option Z;
  api_resolver : Z -> option A;
  api_validator : A -> bool;
  instance_creator : A -> option (option Z);
}.

(** The steps after the copy: the module, or [None] at the first that fails. *)
Definition load_module (w : Load) (c : HostConfig) (cached : string) : option LoadedPlugin :=
  if negb (lib_open w cached) then None
  else
    sym ← head (omap (lib_symbol w) (build_entrypoint_candidates c));
    a ← api_resolver w sym;
    if negb (api_validator w a) then None
    else
      inst ← instance_creator w a;
      Some (mkLoaded a inst cached).

(** [PluginHost::poll_reload]; [seq] is the process-wide counter of cache copies. *)
Definition poll_reload (w : Load) (st : PluginHost * Z) : PluginHost * Z :=
  let '(h, seq) := st in
  let c := h.(cfg_) in
  let unchanged := (h, seq) in
  if bool_decide (c.(plugin_path) = EmptyString) then unchanged
  else if negb (file_exists w c.(plugin_path)) then unchanged
  else if match c.(lock_path) with Some l => file_exists w l | None => false end then unchanged
  else match get_mtime w c.(plugin_path) with
       | None => unchanged
       | Some mtime =>
           if bool_decide (h.(last_attempt_mtime_) = Some mtime) then unchanged
           else
             let attempted := u64 (h.(reload_attempt_total_) + 1) in
             let failed := mkHost c h.(current_) (Some mtime) attempted h.(reload_success_total_)
                             (u64 (h.(reload_failure_total_) + 1)) in
             if negb (ensure_dir w c.(cache_dir)) then (failed, seq)
             else
               let seq := u64 (seq + 1) in
               let cached := make_cache_path c.(cache_dir) c.(plugin_path) seq in
               if negb (copy_to_cache w c.(plugin_path) cached) then (failed, seq)
               else match load_module w c cached with
                    | None => (failed, seq)
                    | Some m => (mkHost c (Some m) (Some mtime) attempted
                                   (u64 (h.(reload_success_total_) + 1)) h.(reload_failure_total_), seq)
                    end
       end.

(** ** A chain of modules *)

Record ChainConfig := mkChainConfig {
  plugin_paths : list string;
  plugins_dir : option string;
  fallback_plugins_dir : option string;
  chain_cache_dir : string;
  single_lock_path : option string;
  chain_entrypoint : string;
  chain_fallback_entrypoints : list string;
}.

Record PluginChainHost := mkChain {
  chain_cfg_ : ChainConfig;
  hosts : gmap Z PluginHost;
  by_key_ : gmap string Z;
  ordered_ : option (list Z);
  next_host : Z;
  cache_seq : Z;
}.

Definition drop_empty (o : option string) : option string :=
  match o with Some s => if bool_decide (s = EmptyString) then None else Some s | None => None end.

Definition new_PluginChainHost (c : ChainConfig) : PluginChainHost :=
  mkChain (mkChainConfig c.(plugin_paths) (drop_empty c.(plugins_dir)) (drop_empty c.(fallback_plugins_dir))
             c.(chain_cache_dir) (drop_empty c.(single_lock_path)) c.(chain_entrypoint)
             c.(chain_fallback_entrypoints))
    ∅ ∅ None 0 0.

Definition configured (c : ChainConfig) : bool :=
  negb (bool_decide (c.(plugin_paths) = [])) || bool_decide (is_Some c.(plugins_dir)).

Definition normalize_key : string -> string := lexically_normal.

Definition filename_le (a b : string) : Prop := String.leb (path_filename a) (path_filename b) = true.

#[export] Instance filename_le_dec a b : Decision (filename_le a b).
Proof. unfold filename_le. apply _. Defined.

(** A directory listing: the entries and whether they are regular files; [None] when the
    directory cannot be read. *)
Abbreviation listing := (string -> option (list (string * bool))).

Definition scan_plugins_dir (ls : listing) (dir : string) : option (list string) :=
  match ls dir with
  | None => None
  | Some entries =>
      Some (merge_sort filename_le
              (fst <$> filter (fun e : string * bool => e.2 = true /\ path_extension e.1 = ".so"%string) entries))
  end.

Definition get_desired_paths (ls : listing) (c : ChainConfig) : option (list string) :=
  if negb (bool_decide (c.(plugin_paths) = []))
  then Some (filter (fun p => p <> EmptyString) c.(plugin_paths))
  else match c.(plugins_dir) with
       | None => Some []
       | Some dir =>
           match scan_plugins_dir ls dir with
           | None => match c.(fallback_plugins_dir) with
                     | None => None
                     | Some fb => scan_plugins_dir ls fb
                     end
           | Some (p :: ps) => Some (p :: ps)
           | Some [] => match c.(fallback_plugins_dir) with
                        | Some fb => scan_plugins_dir ls fb
                        | None => Some []
                        end
           end
       end.

(** The loop over the desired paths: the host of a known key is kept, another is made. *)
Fixpoint place_hosts (tmp : string) (lock : option string) (c : ChainConfig) (paths : list string)
    (st : gmap Z PluginHost * gmap string Z * Z * list Z) : gmap Z PluginHost * gmap string Z * Z * list Z :=
  match paths with
  | [] => st
  | p :: rest =>
      let '(hs, keys, next, ordered) := st in
      let key := normalize_key p in
      place_hosts tmp lock c rest
        (match keys !! key with
         | Some i => (hs, keys, next, ordered ++ [i])
         | None =>
             (<[next := new_PluginHost tmp (mkHostConfig p c.(chain_cache_dir) lock c.(chain_entrypoint)
                                              c.(chain_fallback_entrypoints))]> hs,
              <[key := next]> keys, next + 1, ordered ++ [next])
         end)
  end.

(** [host->poll_reload()] for every host of the chain in turn. *)
Definition poll_host (w : Load) (st : gmap Z PluginHost * Z) (i : Z) : gmap Z PluginHost * Z :=
  match st.1 !! i with
  | Some h => let '(h', seq) := poll_reload w (h, st.2) in (<[i := h']> st.1, seq)
  | None => st
  end.

Definition poll_hosts (w : Load) (ids : list Z) (s : PluginChainHost) : PluginChainHost :=
  let '(hs, seq) := foldl (poll_host w) (s.(hosts), s.(cache_seq)) ids in
  mkChain s.(chain_cfg_) hs s.(by_key_) s.(ordered_) s.(next_host) seq.

(** [PluginChainHost::poll_reload] *)
Definition poll_chain (tmp : string) (ls : listing) (w : Load) (s : PluginChainHost) : PluginChainHost :=
  let c := s.(chain_cfg_) in
  if negb (configured c) then s
  else match get_desired_paths ls c with
       | None => poll_hosts w (default [] s.(ordered_)) s
       | Some [] => mkChain c s.(hosts) ∅ (Some []) s.(next_host) s.(cache_seq)
       | Some paths =>
           let single := negb (bool_decide (is_Some c.(plugins_dir))) && Nat.eqb (length paths) 1 in
           let lock := if single then c.(single_lock_path) else None in
           let '(hs, keys, next, ordered) :=
             place_hosts tmp lock c paths (s.(hosts), s.(by_key_), s.(next_host), []) in
           let keep : gset string := list_to_set (normalize_key <$> paths) in
           poll_hosts w ordered
             (mkChain c hs (filter (fun e => e.1 ∈ keep) keys) (Some ordered) next s.(cache_seq))
       end.

Definition chain_mode (c : ChainConfig) : string :=
  if negb (configured c) then "none"
  else if bool_decide (is_Some c.(plugins_dir)) then "dir"
  else if Nat.eqb (length c.(plugin_paths)) 1 && bool_decide (is_Some c.(single_lock_path)) then "single"
  else "paths".

(** The modules a call goes through: those of the hosts of the chain that have one. *)
Definition current_chain (s : PluginChainHost) : list PluginHost :=
  omap (fun i => s.(hosts) !! i) (default [] s.(ordered_)).

End host.

Arguments LoadedPlugin : clear implicits.
Arguments PluginHost : clear implicits.
Arguments Load : clear implicits.
Arguments PluginChainHost : clear implicits.

(** ** What a poll of one host does *)

Section host_props.
  Context {A : Type}.
  Implicit Types (h : PluginHost A) (w : Load A) (s : PluginChainHost A).

Definition host_wf h : Prop :=
  h.(reload_attempt_total_) = h.(reload_success_total_) + h.(reload_failure_total_)
  /\ 0 <= h.(reload_success_total_) /\ 0 <= h.(reload_failure_total_)
  /\ (is_Some h.(current_) <-> 0 < h.(reload_success_total_)).

(** The cases of a poll: nothing to do, a failed attempt, a new module. *)
Inductive poll_result w h (seq : Z) : PluginHost A -> Z -> Prop :=
  | poll_idle : poll_result w h seq h seq
  | poll_failed mtime seq' :
      get_mtime w h.(cfg_).(plugin_path) = Some mtime -> h.(last_attempt_mtime_) <> Some mtime ->
      seq' = seq \/ seq' = u64 (seq + 1) ->
      poll_result w h seq (mkHost h.(cfg_) h.(current_) (Some mtime) (u64 (h.(reload_attempt_total_) + 1))
                             h.(reload_success_total_) (u64 (h.(reload_failure_total_) + 1))) seq'
  | poll_loaded mtime m :
      get_mtime w h.(cfg_).(plugin_path) = Some mtime -> h.(last_attempt_mtime_) <> Some mtime ->
      load_module w h.(cfg_) (make_cache_path h.(cfg_).(cache_dir) h.(cfg_).(plugin_path) (u64 (seq + 1))) = Some m ->
      poll_result w h seq (mkHost h.(cfg_) (Some m) (Some mtime) (u64 (h.(reload_attempt_total_) + 1))
                             (u64 (h.(reload_success_total_) + 1)) h.(reload_failure_total_)) (u64 (seq + 1)).

(** The length of a path is enough fuel for its components. *)
Lemma components_enough n p : (String.length p <= n)%nat -> components n p = components (String.length p) p.
Proof.
  assert (forall m n p, String.length p <= n -> String.length p <= m -> components n p = components m p)%nat as H;
    [|intros; by apply H].
  clear n p. intros m. induction m as [|m IH]; intros n p Hn Hm.
  - destruct p; [by destruct n|cbn in *; lia].
  - destruct n as [|n]; [destruct p; [done|cbn in *; lia]|]. cbn [components].
    pose proof (skip_while_length is_slash p). pose proof (skip_while_head is_slash p) as Hh.
    destruct (skip_while is_slash p) as [|c s]; [done|]. cbn [take_until]. rewrite (Hh c s eq_refl).
    pose proof (take_until_rest is_slash s). destruct (take_until is_slash s) as [w r]. cbn in *.
    f_equal. apply IH; lia.
Qed.

Lemma poll_reload_cases w h seq :
  poll_result w h seq (poll_reload w (h, seq)).1 (poll_reload w (h, seq)).2.
Proof.
  unfold poll_reload. destruct (bool_decide _); [apply poll_idle|].
  destruct (negb _); [apply poll_idle|]. destruct (match lock_path _ with Some _ => _ | None => _ end); [apply poll_idle|].
  destruct (get_mtime _ _) as [mtime|] eqn:Hm; [|apply poll_idle]. case_bool_decide as Hlast; [apply poll_idle|].
  cbv zeta. destruct (negb (ensure_dir _ _)); [apply poll_failed; auto|].
  destruct (negb (copy_to_cache _ _ _)); [apply poll_failed; auto|].
  destruct (load_module _ _ _) as [m|] eqn:Hl; [by apply poll_loaded|apply poll_failed; auto].
Qed.

Lemma poll_reload_cfg w h seq : (poll_reload w (h, seq)).1.(cfg_) = h.(cfg_).
Proof. by destruct (poll_reload_cases w h seq). Qed.

(** A module, once loaded, is only replaced by another. *)
Lemma poll_keeps_module w h seq : is_Some h.(current_) -> is_Some (poll_reload w (h, seq)).1.(current_).
Proof. destruct (poll_reload_cases w h seq); cbn; eauto. Qed.

Lemma poll_reload_wf w h seq :
  host_wf h -> h.(reload_attempt_total_) + 1 < 2 ^ 64 -> host_wf (poll_reload w (h, seq)).1.
Proof.
  intros (Hsum & Hs & Hf & Hcur) Hb. destruct (poll_reload_cases w h seq); [by split_and!| |]; unfold host_wf; cbn.
  all: rewrite !wrap_id by (unfold fits; lia); split_and!; try lia.
  - done.
  - split; [lia|eauto].
Qed.

(** A file is attempted once per change: polling again before its time stamp changes does
    nothing, whether the attempt succeeded or not. *)
Lemma poll_once_per_change w w' h seq :
  w'.(get_mtime) = w.(get_mtime) ->
  (poll_reload w (h, seq)).1 <> h ->
  poll_reload w' (poll_reload w (h, seq)) = poll_reload w (h, seq).
Proof.
  intros Hm Hne. rewrite (surjective_pairing (poll_reload w (h, seq))).
  assert (Hp : forall h' q mtime, get_mtime w h'.(cfg_).(plugin_path) = Some mtime ->
    h'.(last_attempt_mtime_) = Some mtime -> poll_reload w' (h', q) = (h', q)).
  { intros h' q mtime Ht Hl. unfold poll_reload. rewrite Hm, Ht, Hl. rewrite (bool_decide_true (Some mtime = _)) by done.
    by repeat case_match. }
  destruct (poll_reload_cases w h seq) as [|mtime seq' Ht|mtime m Ht]; [done| |]; by apply (Hp _ _ mtime).
Qed.

(** ** What a poll of the chain does *)

(** Every known key has its host, the one made for a path with that key. *)
Definition keys_ok (hs : gmap Z (PluginHost A)) (keys : gmap string Z) (next : Z) : Prop :=
  (forall k i, keys !! k = Some i -> exists h, hs !! i = Some h /\ normalize_key h.(cfg_).(plugin_path) = k)
  /\ (forall i, is_Some (hs !! i) -> i < next).

Definition chain_wf s : Prop := keys_ok s.(hosts) s.(by_key_) s.(next_host).

Lemma keys_ok_insert hs keys next k (h : PluginHost A) :
  keys_ok hs keys next -> normalize_key h.(cfg_).(plugin_path) = k ->
  keys_ok (<[next := h]> hs) (<[k := next]> keys) (next + 1) /\ hs !! next = None.
Proof.
  intros [Hk Hn] Hh. assert (Hfresh : hs !! next = None).
  { destruct (hs !! next) eqn:E; [|done]. specialize (Hn next ltac:(eauto)). lia. }
  split; [|done]. split.
  - intros k' i [[<- <-]|[Hne (h' & Hh' & ?)%Hk]]%lookup_insert_Some; [rewrite lookup_insert_eq; eauto|].
    exists h'. rewrite lookup_insert_ne by congruence. done.
  - intros i Hi. destruct (decide (i = next)) as [->|]; [lia|]. rewrite lookup_insert_ne in Hi by done.
    specialize (Hn i Hi). lia.
Qed.

Lemma place_hosts_spec tmp lock c paths hs keys next ordered :
  keys_ok hs keys next ->
  exists hs' keys' next' ids,
    place_hosts tmp lock c paths (hs, keys, next, ordered) = (hs', keys', next', ordered ++ ids)
    /\ keys_ok hs' keys' next' /\ hs ⊆ hs' /\ keys ⊆ keys'
    /\ Forall2 (fun p i => keys' !! normalize_key p = Some i) paths ids.
Proof.
  revert hs keys next ordered. induction paths as [|p paths IH]; intros hs keys next ordered Hok.
  { exists hs, keys, next, []. rewrite app_nil_r. by split_and!. }
  cbn [place_hosts]. destruct (keys !! normalize_key p) as [i|] eqn:Hi.
  - destruct (IH hs keys next (ordered ++ [i]) Hok) as (hs' & keys' & next' & ids & -> & ? & ? & Hsub & ?).
    exists hs', keys', next', (i :: ids). rewrite <- app_assoc. split_and!; try done.
    constructor; [|done]. by eapply lookup_weaken.
  - set (h := new_PluginHost tmp _).
    destruct (keys_ok_insert hs keys next (normalize_key p) h Hok eq_refl) as [Hok' Hfresh].
    destruct (IH _ _ _ (ordered ++ [next]) Hok') as (hs' & keys' & next' & ids & -> & ? & Hs1 & Hs2 & ?).
    exists hs', keys', next', (next :: ids). rewrite <- app_assoc. split_and!; try done.
    + etrans; [by apply insert_subseteq|done].
    + etrans; [by apply insert_subseteq|done].
    + constructor; [|done]. eapply lookup_weaken; [apply lookup_insert_eq|exact Hs2].
Qed.

(** A host after polls: the same configuration, and a module if it had one. *)
Definition polled (h h' : PluginHost A) : Prop :=
  h'.(cfg_) = h.(cfg_) /\ (is_Some h.(current_) -> is_Some h'.(current_)).

Lemma poll_hosts_spec w ids hs seq i :
  match hs !! i, (foldl (poll_host w) (hs, seq) ids).1 !! i with
  | Some h, Some h' => polled h h'
  | None, None => True
  | _, _ => False
  end.
Proof.
  revert hs seq. induction ids as [|j ids IH]; intros hs seq; cbn [foldl].
  { cbn [fst]. destruct (hs !! i); [by split|done]. }
  destruct (poll_host w (hs, seq) j) as [hs1 seq1] eqn:Ep. unfold poll_host in Ep. cbn [fst snd] in Ep.
  destruct (hs !! j) as [h|] eqn:Hj; [|injection Ep as <- <-; apply IH].
  destruct (poll_reload w (h, seq)) as [h' seq'] eqn:Hp. injection Ep as <- <-. specialize (IH (<[j := h']> hs) seq').
  destruct (decide (i = j)) as [->|]; [|by rewrite lookup_insert_ne in IH].
  rewrite lookup_insert_eq in IH. rewrite Hj. destruct (_ !! j) as [h''|]; [|done]. destruct IH as [H1 H2].
  pose proof (poll_reload_cfg w h seq) as Hc. pose proof (poll_keeps_module w h seq) as Hm. rewrite Hp in Hc, Hm.
  split; [by rewrite H1|auto].
Qed.

Lemma poll_hosts_lookup w ids s i h :
  s.(hosts) !! i = Some h -> exists h', (poll_hosts w ids s).(hosts) !! i = Some h' /\ polled h h'.
Proof.
  intros Hi. unfold poll_hosts. pose proof (poll_hosts_spec w ids s.(hosts) s.(cache_seq) i) as Hp.
  destruct (foldl _ _ _) as [hs seq]. cbn [fst] in Hp. rewrite Hi in Hp. cbn. destruct (hs !! i); [eauto|done].
Qed.

Lemma poll_hosts_wf w ids s : chain_wf s -> chain_wf (poll_hosts w ids s).
Proof.
  intros [Hk Hn]. unfold chain_wf. assert (Hp := fun i => poll_hosts_spec w ids s.(hosts) s.(cache_seq) i).
  unfold poll_hosts. destruct (foldl _ _ _) as [hs seq]. cbn in *. split.
  - intros k i (h & Hh & Hc)%Hk. specialize (Hp i). rewrite Hh in Hp. destruct (hs !! i) as [h'|]; [|done].
    exists h'. split; [done|]. by rewrite (proj1 Hp).
  - intros i [h' Hi]. specialize (Hp i). rewrite Hi in Hp. destruct (s.(hosts) !! i) eqn:E; [|done]. eauto.
Qed.

Lemma poll_hosts_keys w ids s :
  (poll_hosts w ids s).(by_key_) = s.(by_key_) /\ (poll_hosts w ids s).(ordered_) = s.(ordered_).
Proof. unfold poll_hosts. by destruct (foldl _ _ _). Qed.

(** A poll of the chain makes it the desired list of modules, in that order, a file
    listed twice sharing one host; and it never unloads a module that is still wanted: a
    host whose file stays in the list keeps its place in the store and has a module after
    the poll if it had one before, whatever fails. *)
Theorem plugin_chain_reload tmp ls w s paths :
  chain_wf s -> configured s.(chain_cfg_) = true -> get_desired_paths ls s.(chain_cfg_) = Some paths ->
  let s' := poll_chain tmp ls w s in
  chain_wf s'
  /\ (fun h => normalize_key h.(cfg_).(plugin_path)) <$> current_chain s' = normalize_key <$> paths
  /\ dom s'.(by_key_) = list_to_set (normalize_key <$> paths)
  /\ (forall k i h, s.(by_key_) !! k = Some i -> s.(hosts) !! i = Some h -> k ∈ normalize_key <$> paths ->
       s'.(by_key_) !! k = Some i
       /\ exists h', s'.(hosts) !! i = Some h' /\ (is_Some h.(current_) -> is_Some h'.(current_))).
Proof.
  intros Hwf Hc Hd s'. unfold s', poll_chain. rewrite Hc, Hd. cbn [negb].
  destruct paths as [|p paths].
  { split_and!; [|done|cbn; by rewrite dom_empty_L|intros k i h _ _ ?%elem_of_nil; done].
    split; [intros k i Hki; cbn in Hki; by rewrite lookup_empty in Hki|apply Hwf]. }
  cbv zeta. set (lock := if _ && _ then _ else _).
  destruct (place_hosts_spec tmp lock s.(chain_cfg_) (p :: paths) _ _ _ [] Hwf)
    as (hs' & keys' & next' & ids & -> & Hok & Hhs & Hkeys & Hids). rewrite app_nil_l.
  set (keep := list_to_set (normalize_key <$> p :: paths) : gset string).
  set (s1 := mkChain _ hs' _ _ _ _).
  assert (Hwf1 : chain_wf s1).
  { destruct Hok as [Hk Hn]. split; [|done]. intros k i [Hi _]%map_lookup_filter_Some. by apply Hk. }
  destruct (poll_hosts_keys w ids s1) as [Hbk Hord]. split; [by apply poll_hosts_wf|]. split.
  { unfold current_chain. rewrite Hord. cbn [s1 ordered_ default].
    assert (Hh : forall p i, keys' !! normalize_key p = Some i -> exists h',
      (poll_hosts w ids s1).(hosts) !! i = Some h' /\ normalize_key h'.(cfg_).(plugin_path) = normalize_key p).
    { intros q i Hi. destruct Hok as [Hk _]. destruct (Hk _ _ Hi) as (h & Hh & Hkey).
      destruct (poll_hosts_lookup w ids s1 i h Hh) as (h' & Hh' & Hp). exists h'. by rewrite (proj1 Hp). }
    cbn [id from_option]. generalize dependent (poll_hosts w ids s1).(hosts). intros store Hh.
    clear -Hids Hh. induction Hids as [|q i qs js Hi _ IH]; [done|].
    destruct (Hh q i Hi) as (h' & Hh' & Hkey). cbn [omap list_omap]. rewrite Hh'. cbn [fmap list_fmap]. by rewrite Hkey, IH. }
  split.
  { rewrite Hbk. cbn [s1 by_key_]. apply set_eq. intros k. rewrite elem_of_dom. split.
    - intros [i [_ Hk]%map_lookup_filter_Some]. exact Hk.
    - intros Hk. pose proof Hk as (q & -> & Hq)%elem_of_list_to_set%list_elem_of_fmap.
      apply list_elem_of_lookup in Hq as [j Hj]. destruct (Forall2_lookup_l _ _ _ _ _ Hids Hj) as (i & _ & Hi).
      exists i. by apply map_lookup_filter_Some. }
  intros k i h Hi Hh Hk. rewrite Hbk. split.
  - apply map_lookup_filter_Some. split; [by eapply lookup_weaken|]. by apply elem_of_list_to_set.
  - destruct (poll_hosts_lookup w ids s1 i h) as (h' & Hh' & _ & Hp); [|eauto]. cbn. by eapply lookup_weaken.
Qed.

End host_props.

(** The copy of a module that is unloaded, which its destructor removes, is not the copy of
    another load. *)
Lemma append_cancel_l (a b c : string) : String.append a b = String.append a c -> b = c.
Proof. induction a as [|x a IH]; cbn; [done|]. intros [= H]. by apply IH. Qed.

Lemma length_append (a b : string) : String.length (String.append a b) = (String.length a + String.length b)%nat.
Proof. induction a as [|x a IH]; [done|]. change (S (String.length (String.append a b)) = S (String.length a + String.length b)%nat). by f_equal. Qed.

Lemma append_cancel_r (a b c : string) : String.append a c = String.append b c -> a = b.
Proof.
  revert b. induction a as [|x a IH]; intros [|y b] Heq; cbn in Heq; [done| | |].
  - apply (f_equal String.length) in Heq. change (String.length c = S (String.length (String.append b c))) in Heq.
    rewrite length_append in Heq. lia.
  - apply (f_equal String.length) in Heq. change (S (String.length (String.append a c)) = String.length c) in Heq.
    rewrite length_append in Heq. lia.
  - injection Heq as -> Heq. by rewrite (IH b).
Qed.

Lemma path_join_inj dir a b : has_root a = false -> has_root b = false -> path_join dir a = path_join dir b -> a = b.
Proof.
  unfold path_join. intros -> ->. destruct (_ || _); [apply append_cancel_l|].
  intros Heq%append_cancel_l. by injection Heq.
Qed.

Lemma make_cache_path_inj dir plugin m n :
  has_root (path_stem plugin) = false ->
  make_cache_path dir plugin m = make_cache_path dir plugin n -> m = n.
Proof.
  intros Hr Heq. unfold make_cache_path in Heq.
  assert (Hroot : forall t, has_root (String.append (path_stem plugin) (String.append "_" t)) = false).
  { intros t. by destruct (path_stem plugin). }
  apply path_join_inj in Heq; [|apply Hroot..].
  apply append_cancel_l, append_cancel_l, append_cancel_r in Heq. by apply (inj pretty).
Qed.

(** ** Example: three entries for two files, of which the second cannot be loaded *)

Definition example_chain : PluginChainHost unit :=
  new_PluginChainHost (mkChainConfig ["p/a.so"; "p/./a.so"; "p/b.so"]%string None None "cache" None
                         "chat_hook_api_v2" ["chat_hook_api_v1"%string]).
Definition example_load (opens : string -> bool) (mtime : Z) : Load unit :=
  mkLoad (fun f => String.eqb (path_extension f) ".so") (fun _ => Some mtime) (fun _ => true) (fun _ _ => true)
    opens (fun s => if String.eqb s "chat_hook_api_v1" then Some 1 else None) (fun _ => Some tt) (fun _ => true)
    (fun _ => Some None).
Definition first_poll : PluginChainHost unit :=
  poll_chain "tmp" (fun _ => None) (example_load (fun f => negb (String.prefix "cache/b" f)) 1) example_chain.
Definition second_poll : PluginChainHost unit :=
  poll_chain "tmp" (fun _ => None) (example_load (fun _ => false) 2) first_poll.

Lemma plugin_chain_reload_witness :
  chain_wf second_poll
  /\ (fun h => normalize_key h.(cfg_).(plugin_path)) <$> current_chain second_poll
     = ["p/a.so"; "p/a.so"; "p/b.so"]%string
  /\ (fun h => (bool_decide (is_Some h.(current_)), h.(reload_failure_total_))) <$> current_chain second_poll
     = [(true, 1); (true, 1); (false, 2)].
Proof.
  assert (Hd : get_desired_paths (fun _ => None) example_chain.(chain_cfg_) = Some ["p/a.so"; "p/./a.so"; "p/b.so"]%string)
    by (by vm_compute).
  assert (Hc0 : chain_wf example_chain).
  { split; [intros k i Hk; cbn in Hk; by rewrite lookup_empty in Hk|]. intros i Hi. cbn in Hi. rewrite lookup_empty in Hi. by destruct Hi. }
  destruct (plugin_chain_reload "tmp" (fun _ => None) (example_load (fun f => negb (String.prefix "cache/b" f)) 1)
    example_chain _ Hc0 eq_refl Hd) as (Hwf1 & _). fold first_poll in Hwf1.
  assert (Hcfg : first_poll.(chain_cfg_) = example_chain.(chain_cfg_)) by (by vm_compute).
  destruct (plugin_chain_reload "tmp" (fun _ => None) (example_load (fun _ => false) 2) first_poll
    ["p/a.so"; "p/./a.so"; "p/b.so"]%string Hwf1) as (Hwf2 & Hks & _); [by rewrite Hcfg..|].
  split; [exact Hwf2|]. split; [|by vm_compute]. unfold second_poll. rewrite Hks. by vm_compute.
Defined.
