(* ===== verification/ScriptWatcher.v ===== *)
(** The watcher of script files, [core/scripting/script_watcher.hpp] and
    [script_watcher.cpp]: a poll compares a scan of the directory with the files known from
    the last one.  The file system is an input of a poll. *)

From Stdlib Require Import Sorted.
From stdpp Require Import sorting.
From S2P Require Import Prelude Text ChatText Plugins.

Inductive ChangeKind := kAdded | kModified | kRemoved.

#[export] Instance ChangeKind_eq_dec : EqDecision ChangeKind.
Proof. solve_decision. Defined.

Definition change_rank (k : ChangeKind) : Z :=
  match k with kAdded => 0 | kModified => 1 | kRemoved => 2 end.

Record TrackedFile := mkTracked { tf_path : string; tf_mtime : Z }.
Record ChangeEvent := mkChange { ch_path : string; ch_kind : ChangeKind }.

Record ScriptWatcher := mkWatcher {
  scripts_dir : string;
  watch_lock_path : option string;
  recursive : bool;
  extensions_ : gset string;
  tracked_ : gmap string TrackedFile;
}.

Definition normalize_extension (ext : string) : string :=
  match ext with
  | EmptyString => EmptyString
  | String c _ => if is_dot c then ext else String.append "." ext
  end.

Definition new_ScriptWatcher (dir : string) (extensions : list string) (lock : option string) (rec : bool)
    : ScriptWatcher :=
  mkWatcher dir (drop_empty lock) rec
    (list_to_set (filter (fun e => e <> EmptyString) (normalize_extension <$> extensions))) ∅.

Definition matches_extension (w : ScriptWatcher) (path : string) : bool :=
  bool_decide (w.(extensions_) = ∅) || bool_decide (normalize_extension (path_extension path) ∈ w.(extensions_)).

(** What a directory iterator yields: a path, whether it is a regular file, and its time
    stamp if that can be read. *)
Record DirEntry := mkEntry { de_path : string; de_regular : bool; de_mtime : option Z }.

Record WatchFs := mkWatchFs {
  watch_exists : string -> bool;
  watch_scan : string -> bool -> option (list DirEntry);
}.

(** The body of the loop of [scan_files]; [emplace] keeps the first file of a key. *)
Definition scan_entry (w : ScriptWatcher) (scanned : gmap string TrackedFile) (e : DirEntry) : gmap string TrackedFile :=
  match e.(de_mtime) with
  | Some mtime =>
      let key := lexically_normal e.(de_path) in
      if e.(de_regular) && matches_extension w e.(de_path) && negb (bool_decide (is_Some (scanned !! key)))
      then <[key := mkTracked e.(de_path) mtime]> scanned else scanned
  | None => scanned
  end.

Definition scan_files (fs : WatchFs) (w : ScriptWatcher) : option (gmap string TrackedFile) :=
  if negb (fs.(watch_exists) w.(scripts_dir)) then None
  else match fs.(watch_scan) w.(scripts_dir) w.(recursive) with
       | None => None
       | Some entries => Some (foldl (scan_entry w) ∅ entries)
       end.

(** The two loops that compare: files of the scan, then files that are gone. *)
Definition scan_change (tracked : gmap string TrackedFile) (e : string * TrackedFile) : option ChangeEvent :=
  match tracked !! e.1 with
  | None => Some (mkChange e.2.(tf_path) kAdded)
  | Some old => if old.(tf_mtime) =? e.2.(tf_mtime) then None else Some (mkChange e.2.(tf_path) kModified)
  end.
Definition gone_change (scanned : gmap string TrackedFile) (e : string * TrackedFile) : option ChangeEvent :=
  match scanned !! e.1 with None => Some (mkChange e.2.(tf_path) kRemoved) | Some _ => None end.

Definition change_le (a b : ChangeEvent) : Prop :=
  let ka := lexically_normal a.(ch_path) in
  let kb := lexically_normal b.(ch_path) in
  if bool_decide (ka = kb) then change_rank a.(ch_kind) <= change_rank b.(ch_kind)
  else String.leb ka kb = true.

#[export] Instance change_le_dec a b : Decision (change_le a b).
Proof. unfold change_le. cbv zeta. case_bool_decide; apply _. Defined.

Definition changes_of (tracked scanned : gmap string TrackedFile) : list ChangeEvent :=
  merge_sort change_le
    (omap (scan_change tracked) (map_to_list scanned) ++ omap (gone_change scanned) (map_to_list tracked)).

(** [ScriptWatcher::poll]: the events, [None] when the scan fails. *)
Definition watch_poll (fs : WatchFs) (w : ScriptWatcher) : ScriptWatcher * option (list ChangeEvent) :=
  if bool_decide (w.(scripts_dir) = EmptyString) then (w, Some [])
  else if match w.(watch_lock_path) with Some l => fs.(watch_exists) l | None => false end then (w, Some [])
  else match scan_files fs w with
       | None => (w, None)
       | Some scanned =>
           (mkWatcher w.(scripts_dir) w.(watch_lock_path) w.(recursive) w.(extensions_) scanned,
            Some (changes_of w.(tracked_) scanned))
       end.

(** ** The events of a poll *)

Definition keyed (m : gmap string TrackedFile) : Prop :=
  forall k f, m !! k = Some f -> k = lexically_normal f.(tf_path).

Lemma scan_keyed fs w scanned : scan_files fs w = Some scanned -> keyed scanned.
Proof.
  unfold scan_files. destruct (negb _); [done|]. destruct (watch_scan _ _ _) as [es|]; [|done]. intros [= <-].
  enough (H : forall m, keyed m -> keyed (foldl (scan_entry w) m es)) by (apply H; intros k f; by rewrite lookup_empty).
  induction es as [|e es IH]; intros m Hm; [done|]. cbn [foldl]. apply IH.
  unfold scan_entry. destruct (de_mtime e) as [t|]; [|done]. destruct (_ && _ && _); [|done].
  intros k f [[<- <-]|[_ ?]]%lookup_insert_Some; [done|]. by apply Hm.
Qed.

Lemma scan_change_spec tracked scanned ev :
  ev ∈ omap (scan_change tracked) (map_to_list scanned)
  <-> exists k f, scanned !! k = Some f /\ ev.(ch_path) = f.(tf_path)
       /\ match tracked !! k with
          | None => ev.(ch_kind) = kAdded
          | Some old => old.(tf_mtime) <> f.(tf_mtime) /\ ev.(ch_kind) = kModified
          end.
Proof.
  rewrite list_elem_of_omap. split.
  - intros ([k f] & Hin%elem_of_map_to_list & Hs). exists k, f. unfold scan_change in Hs. cbn [fst snd] in Hs.
    destruct (tracked !! k) as [old|]; [destruct (Z.eqb_spec old.(tf_mtime) f.(tf_mtime)); [done|]|]; by injection Hs as <-.
  - intros (k & f & Hf & Hp & Hk). exists (k, f). split; [by apply elem_of_map_to_list|]. destruct ev as [p kind]. cbn in *.
    unfold scan_change. cbn [fst snd]. subst p. destruct (tracked !! k) as [old|]; [|by subst kind].
    destruct Hk as [Hne ->]. by rewrite (proj2 (Z.eqb_neq _ _) Hne).
Qed.

Lemma gone_change_spec tracked scanned ev :
  ev ∈ omap (gone_change scanned) (map_to_list tracked)
  <-> exists k f, tracked !! k = Some f /\ scanned !! k = None /\ ev = mkChange f.(tf_path) kRemoved.
Proof.
  rewrite list_elem_of_omap. split.
  - intros ([k f] & Hin%elem_of_map_to_list & Hs). exists k, f. unfold gone_change in Hs. cbn [fst snd] in Hs.
    destruct (scanned !! k); [done|]. by injection Hs as <-.
  - intros (k & f & Hf & Hn & ->). exists (k, f). split; [by apply elem_of_map_to_list|]. unfold gone_change. cbn. by rewrite Hn.
Qed.

(** A poll that scans reports exactly the differences since the last one: a file that was
    not known is added, one with another time stamp modified, one not found any more
    removed; afterwards it knows the files of the scan. *)
Lemma watcher_reports_changes fs w scanned :
  keyed w.(tracked_) -> w.(scripts_dir) <> EmptyString ->
  match w.(watch_lock_path) with Some l => fs.(watch_exists) l = false | None => True end ->
  scan_files fs w = Some scanned ->
  exists w' evs, watch_poll fs w = (w', Some evs) /\ w'.(tracked_) = scanned /\ keyed w'.(tracked_)
  /\ forall p k, mkChange p k ∈ evs <->
       let key := lexically_normal p in
       match k with
       | kAdded => (exists f, scanned !! key = Some f /\ f.(tf_path) = p) /\ w.(tracked_) !! key = None
       | kModified => exists f old, scanned !! key = Some f /\ f.(tf_path) = p
                        /\ w.(tracked_) !! key = Some old /\ old.(tf_mtime) <> f.(tf_mtime)
       | kRemoved => (exists f, w.(tracked_) !! key = Some f /\ f.(tf_path) = p) /\ scanned !! key = None
       end.
Proof.
  intros Hk Hdir Hlock Hscan. pose proof (scan_keyed _ _ _ Hscan) as Hks. eexists _, _. split.
  { unfold watch_poll. rewrite bool_decide_false by done. rewrite Hscan.
    assert (match w.(watch_lock_path) with Some l => fs.(watch_exists) l | None => false end = false) as ->
      by (by destruct (w.(watch_lock_path))). done. }
  split_and!; [done|done|]. intros p k. unfold changes_of. rewrite merge_sort_Permutation, elem_of_app.
  rewrite scan_change_spec, gone_change_spec. cbv zeta. split.
  - intros [(key & f & Hf & Hp & Ht)|(key & f & Hf & Hn & [= -> ->])].
    + cbn in Hp, Ht. subst p. assert (key = lexically_normal f.(tf_path)) as -> by (by apply Hks).
      destruct (w.(tracked_) !! _) as [old|] eqn:E.
      * destruct Ht as [? ->]. by exists f, old.
      * subst k. eauto.
    + assert (key = lexically_normal f.(tf_path)) as -> by (by apply Hk). eauto.
  - destruct k.
    + intros [(f & Hf & <-) Hn]. left. exists (lexically_normal f.(tf_path)), f. by rewrite Hn.
    + intros (f & old & Hf & <- & Ho & Hne). left. exists (lexically_normal f.(tf_path)), f. by rewrite Ho.
    + intros [(f & Hf & <-) Hn]. right. eauto.
Qed.
