(* ===== verification/Bootstrap.v ===== *)
(** The start and the end of a server, [run_server] of [server/src/app/bootstrap.cpp]: the
    order in which the parts are made and started, readiness and registration, the
    directories of the scripts, and the steps of the shutdown with the drain of sessions.

    What the outside answers at the start is the record [BootWorld].  The objects the steps
    act on have models of their own; here a step is an event of the trace, next to the
    application host of [AppHost.v].  The subscription is in [Fanout.v]. *)

From stdpp Require Import sorting.
From S2P Require Import Prelude Text ChatText InstanceRegistry AppHost Plugins ScriptWatcher ServerConfig DbWorkerPool.

(** ** Scripts *)

Definition is_lua_script_file (path : string) : bool :=
  negb (bool_decide (path_extension path = EmptyString)) && bool_decide (path_extension path = ".lua"%string).

Definition path_le (a b : string) : Prop := String.leb (lexically_normal a) (lexically_normal b) = true.

#[export] Instance path_le_dec a b : Decision (path_le a b).
Proof. unfold path_le. apply _. Defined.

Definition list_lua_scripts (fs : WatchFs) (scripts_dir : string) : list string :=
  if negb (watch_exists fs scripts_dir) then []
  else match watch_scan fs scripts_dir true with
       | None => []
       | Some entries =>
           merge_sort path_le
             (map de_path (List.filter (fun e => de_regular e && is_lua_script_file (de_path e)) entries))
       end.

(** [path::replace_extension] without an argument: the extension is dropped. *)
Definition drop_extension (p : string) : string :=
  let ext := String.length (path_extension p) in
  str (take (String.length p - ext) (chars_of p)).

(** [relative] is [std::filesystem::relative], [None] on an error. *)
Definition make_lua_env_name (relative : string -> string -> option string) (scripts_dir script_path : string) : string :=
  let rel := match relative script_path scripts_dir with
             | Some r => if bool_decide (r = EmptyString) then path_filename script_path else r
             | None => path_filename script_path
             end in
  let env_name := lexically_normal (drop_extension rel) in
  if bool_decide (env_name = EmptyString) then path_stem script_path else env_name.

(** The directory to use, and whether it is the fallback. *)
Definition resolve_effective_scripts_dir (fs : WatchFs) (primary fallback : string) : string * bool :=
  let set (dir : string) := negb (bool_decide (dir = EmptyString)) in
  let has_scripts (dir : string) := set dir && negb (bool_decide (list_lua_scripts fs dir = [])) in
  if has_scripts primary then (primary, false)
  else if has_scripts fallback then (fallback, true)
  else if set primary then (primary, false)
  else if set fallback then (fallback, true)
  else (EmptyString, false).

Record LuaWatch := mkLuaWatch { active_scripts_dir : string; lua_script_watcher : option ScriptWatcher }.
Definition no_watch : LuaWatch := mkLuaWatch EmptyString None.

Definition ensure_lua_watcher (fs : WatchFs) (cfg : ServerConfig) (st : LuaWatch) : LuaWatch * bool :=
  let '(resolved, _) := resolve_effective_scripts_dir fs (lua_scripts_dir cfg) (lua_fallback_scripts_dir cfg) in
  if bool_decide (resolved = EmptyString) then (st, false)
  else if negb (bool_decide (active_scripts_dir st = EmptyString)) && bool_decide (active_scripts_dir st = resolved)
          && bool_decide (is_Some (lua_script_watcher st))
  then (st, true)
  else
    let lock := if bool_decide (lua_lock_path cfg = EmptyString) then None else Some (lua_lock_path cfg) in
    let w := new_ScriptWatcher resolved [".lua"%string] lock true in
    (mkLuaWatch resolved (Some (watch_poll fs w).1), true).

(** A poll of the scheduler: whether it schedules a reload. *)
Definition poll_lua_scripts (fs : WatchFs) (cfg : ServerConfig) (st : LuaWatch) : LuaWatch * bool :=
  let '(st, ok) := ensure_lua_watcher fs cfg st in
  match ok, lua_script_watcher st with
  | true, Some w =>
      let '(w, changes) := watch_poll fs w in
      let st := mkLuaWatch (active_scripts_dir st) (Some w) in
      match changes with
      | None => (st, false)
      | Some changes => (st, negb (bool_decide (changes = [])))
      end
  | _, _ => (st, false)
  end.

(** The entries a reload hands to the runtime ([LuaRuntime.reload_scripts]). *)
Definition reload_entries (fs : WatchFs) (relative : string -> string -> option string) (st : LuaWatch) :
    list (string * string) :=
  map (fun path => (path, make_lua_env_name relative (active_scripts_dir st) path))
    (list_lua_scripts fs (active_scripts_dir st)).

(** ** Start *)

Inductive boot_event :=
  | BufferCapacitySet (n : Z)
  | LuaRuntimeMade (instruction_limit memory_limit_bytes : Z)
  | SchedulerTicking
  | LuaReloaded
  | LuaPollScheduled (interval_ms : Z)
  | DbPoolMade
  | DbWorkersStarted (threads capacity : Z)
  | DbHealthScheduled
  | RedisMade
  | PresenceCleaned (pattern : string)
  | RedisHealthScheduled
  | Upserted (record : InstanceRecord)
  | HeartbeatScheduled (seconds : Z)
  | RoutesRegistered
  | AcceptorStarted (port : Z)  (* [acceptor->start()] was called *)
  | WorkersStarted (threads : Z)
  | IoThreadsStarted (threads : Z)
  | Subscribed (pattern : string)
  | MetricsServerStarted (port : Z)
  | ServicesCleared.

(** What the outside answers: exceptions of the constructors, health of the database and of
    Redis, the registry ([None] is an exception), and readings of clocks and counters.  The
    constructor of the metrics server throws when its port is taken.  The creation of threads
    and the allocation of memory succeed. *)
Record BootWorld := mkBootWorld {
  hardware_concurrency : Z;
  db_pool_throws : bool;
  db_healthy : bool;
  redis_made : bool;
  redis_healthy : bool;
  first_upsert : option bool;
  ready_upsert : bool;
  connections : Z;
  metrics_server_throws : bool;
  boot_clock : nat -> Z;
  boot_fs : WatchFs;
}.

Record Boot := mkBoot { boot_host : AppHost.t; boot_events : list boot_event; boot_lua : LuaWatch }.

(** How it ends: with a code, or by [std::terminate]. *)
Inductive boot_end := Returned (code : Z) | Terminated.

(** A step of the start: it goes on, or the process ends.  An exception is handled as the
    outer [catch] of [run_server] does, [fatal], as long as there are no I/O threads.  Once
    there are, unwinding to the [catch] destroys the vector of the threads, which are
    joinable, so that the process is terminated: [terminate]. *)
Definition B (A : Type) : Type := Boot -> Boot * (A + boot_end).
#[export] Instance B_ret : MRet B := fun A x b => (b, inl x).
#[export] Instance B_bind : MBind B := fun A C f m b =>
  match m b with (b, inl x) => f x b | (b, inr code) => (b, inr code) end.

Definition on_host (f : AppHost.t -> AppHost.t) : B () :=
  fun b => (mkBoot (f (boot_host b)) (boot_events b) (boot_lua b), inl ()).
Definition event (e : boot_event) : B () :=
  fun b => (mkBoot (boot_host b) (boot_events b ++ [e]) (boot_lua b), inl ()).
Definition exit_with (code : Z) : B () := fun b => (b, inr (Returned code)).
Definition terminate : B () := fun b => (b, inr Terminated).
Definition fatal : B () :=
  on_host (AppHost.set_lifecycle_phase AppHost.kFailed) ≫= fun _ => event ServicesCleared ≫= fun _ => exit_with 1.
Definition host_ready : B bool := fun b => (b, inl (AppHost.ready (boot_host b))).
Definition only_if (c : bool) (m : B ()) : B () := if c then m else mret ().

Definition nonempty_string (s : string) : bool := negb (bool_decide (s = EmptyString)).

Section start.
  Context (cfg : ServerConfig) (w : BootWorld).

Definition boot_dependencies : B () :=
  on_host (AppHost.declare_dependency "db" AppHost.kRequired) ≫= fun _ =>
  only_if (nonempty_string (redis_uri cfg)) (on_host (AppHost.declare_dependency "redis" AppHost.kRequired)) ≫= fun _ =>
  on_host (AppHost.set_ready false) ≫= fun _ =>
  only_if (0 <? log_buffer_capacity cfg) (event (BufferCapacitySet (log_buffer_capacity cfg))).

Definition boot_lua_runtime : B () :=
  only_if (lua_enabled cfg) (event (LuaRuntimeMade (lua_instruction_limit cfg) (lua_memory_limit_bytes cfg))) ≫= fun _ =>
  event SchedulerTicking ≫= fun _ =>
  only_if (lua_enabled cfg && (nonempty_string (lua_scripts_dir cfg) || nonempty_string (lua_fallback_scripts_dir cfg)))
    (fun b =>
       let '(lua, ok) := ensure_lua_watcher (boot_fs w) cfg (boot_lua b) in
       if negb ok then (mkBoot (boot_host b) (boot_events b) lua, inl ())
       else
         let '(lua, again) := poll_lua_scripts (boot_fs w) cfg lua in
         (mkBoot (boot_host b)
            (boot_events b ++ [LuaReloaded] ++ (if again : bool then [LuaReloaded] else [])
             ++ [LuaPollScheduled (lua_reload_interval_ms cfg)]) lua, inl ())).

Definition boot_db : B () :=
  if nonempty_string (db_uri cfg) then
    if db_pool_throws w then fatal
    else if negb (db_healthy w)
    then on_host (AppHost.set_lifecycle_phase AppHost.kFailed) ≫= fun _ => exit_with 2
    else
      event DbPoolMade ≫= fun _ =>
      on_host (AppHost.set_dependency_ok "db" true) ≫= fun _ =>
      event (DbWorkersStarted (normalize_worker_count (hardware_concurrency w) (db_worker_threads cfg)) (db_job_queue_max cfg)) ≫= fun _ =>
      event DbHealthScheduled
  else on_host (AppHost.set_dependency_ok "db" false).

(** The record this server publishes. *)
Definition boot_record (ready : bool) (active now : Z) : InstanceRecord :=
  mkInstanceRecord (server_instance_id cfg) (advertise_host cfg) (advertise_port cfg) (server_role cfg)
    (server_game_mode cfg) (server_region cfg) (server_shard cfg) (server_tags cfg) 0 active ready now.

Definition registered : bool :=
  nonempty_string (redis_uri cfg) && redis_made w && bool_decide (first_upsert w = Some true).

Definition boot_redis : B () :=
  if negb (nonempty_string (redis_uri cfg)) then mret ()
  else
    only_if (redis_made w)
      (event RedisMade ≫= fun _ =>
       only_if (presence_clean_on_start cfg) (event (PresenceCleaned (redis_channel_prefix cfg +:+ "presence:room:*")))) ≫= fun _ =>
    on_host (AppHost.set_dependency_ok "redis" (redis_made w && redis_healthy w)) ≫= fun _ =>
    only_if (redis_made w)
      (event RedisHealthScheduled ≫= fun _ =>
       ready ← host_ready;
       only_if (bool_decide (is_Some (first_upsert w))) (event (Upserted (boot_record ready 0 (boot_clock w 0%nat)))) ≫= fun _ =>
       only_if registered (event (HeartbeatScheduled (registry_heartbeat_interval cfg)))).

Definition boot_listen : B () :=
  let threads := Z.max 1 (hardware_concurrency w) in
  event RoutesRegistered ≫= fun _ =>
  event (AcceptorStarted (ServerConfig.port cfg)) ≫= fun _ =>
  event (WorkersStarted threads) ≫= fun _ =>
  event (IoThreadsStarted threads) ≫= fun _ =>
  on_host (AppHost.set_ready true) ≫= fun _ =>
  on_host (AppHost.set_lifecycle_phase AppHost.kRunning) ≫= fun _ =>
  ready ← host_ready;
  only_if registered (event (Upserted (boot_record ready (connections w) (boot_clock w 1%nat)))) ≫= fun _ =>
  only_if (nonempty_string (redis_uri cfg) && redis_made w && use_redis_pubsub cfg)
    (event (Subscribed (redis_channel_prefix cfg +:+ "fanout:*"))) ≫= fun _ =>
  only_if (negb (metrics_port cfg =? 0))
    (if metrics_server_throws w then terminate else event (MetricsServerStarted (metrics_port cfg))).

(** The steps, in the order they are added; the host runs them last first. *)
Definition shutdown_steps : list string :=
  ["stop workers"; "stop io_context"; "drain active sessions"; "stop acceptor"; "stop db worker pool";
   "cancel scheduler timer"; "shutdown scheduler"; "reset lua runtime"; "stop metrics server"; "stop redis pubsub";
   "deregister instance"]%string.

Definition boot_shutdown : B () :=
  on_host (fun a => foldl (fun a name => AppHost.add_shutdown_step (AppHost.mkStep name false) a) a shutdown_steps) ≫= fun _ =>
  on_host AppHost.install_asio_termination_signals.
End start.

(** [config.load] throws when it is [None]. *)
Definition run_server (cfg : option ServerConfig) (w : BootWorld) : Boot * (() + boot_end) :=
  let m : B () :=
    match cfg with
    | None => fatal
    | Some cfg =>
        boot_dependencies cfg ≫= fun _ => boot_lua_runtime cfg w ≫= fun _ => boot_db cfg w ≫= fun _ =>
        boot_redis cfg w ≫= fun _ => boot_listen cfg w ≫= fun _ => boot_shutdown
    end in
  m (mkBoot (AppHost.set_lifecycle_phase AppHost.kBootstrapping AppHost.new) [] no_watch).

(** ** The drain *)

Inductive drain_result := DrainCompleted | DrainTimeout (forced_close : Z).

(** The loop over its polls: the connections left and the time elapsed at each. *)
Fixpoint drain_loop (timeout_ms : Z) (polls : list (Z * Z)) : option drain_result :=
  match polls with
  | [] => None
  | (remaining, elapsed) :: polls =>
      if remaining =? 0 then Some DrainCompleted
      else if timeout_ms <=? elapsed then Some (DrainTimeout remaining)
      else drain_loop timeout_ms polls
  end.

Definition drain_poll_ms (cfg : ServerConfig) : Z := Z.max 1 (shutdown_drain_poll_ms cfg).

(** ** Theorems *)

(** Events that neither publish the server nor open it. *)
Definition quiet_event (e : boot_event) : bool :=
  match e with Upserted _ | AcceptorStarted _ | WorkersStarted _ | IoThreadsStarted _ => false | _ => true end.

(** A step that goes on, as what it does to the host and the events it adds. *)
Lemma boot_go {A C} (m : B A) (f : A -> B C) b b' x : m b = (b', inl x) -> (m ≫= f) b = f x b'.
Proof. unfold mbind, B_bind. by intros ->. Qed.

Lemma boot_exit {A C} (m : B A) (f : A -> B C) b b' code : m b = (b', inr code) -> (m ≫= f) b = (b', inr code).
Proof. unfold mbind, B_bind. by intros ->. Qed.

Lemma boot_go2 {A C D} (m : B A) (n : B C) (f : C -> B D) b b' x :
  (m ≫= fun _ => n) b = (b', inl x) -> (m ≫= fun _ => n ≫= f) b = f x b'.
Proof. unfold mbind, B_bind. destruct (m b) as [b1 [y|code]]; [|done]. by intros ->. Qed.

Definition after (h : AppHost.t) (evs : list boot_event) (b : Boot) : Boot := mkBoot h (boot_events b ++ evs) (boot_lua b).

Lemma event_run e b : event e b = (after (boot_host b) [e] b, inl ()).
Proof. done. Qed.
Lemma on_host_run f b : on_host f b = (after (f (boot_host b)) [] b, inl ()).
Proof. unfold after. by rewrite app_nil_r. Qed.
Lemma only_if_event c e b : only_if c (event e) b = (after (boot_host b) (if c then [e] else []) b, inl ()).
Proof. unfold after. destruct c; [done|]. rewrite app_nil_r. by destruct b. Qed.
Lemma only_if_host c f b : only_if c (on_host f) b = (after (if c then f (boot_host b) else boot_host b) [] b, inl ()).
Proof. unfold after. rewrite app_nil_r. destruct c; [done|]. by destruct b. Qed.
Lemma host_ready_run b : host_ready b = (b, inl (AppHost.ready (boot_host b))).
Proof. done. Qed.

Ltac boot_step := first [apply event_run | apply on_host_run | apply only_if_event | apply only_if_host | apply host_ready_run].
Lemma after_after h e h' e' b : after h e (after h' e' b) = after h (e' ++ e) b.
Proof. unfold after. cbn. by rewrite <- app_assoc. Qed.

Ltac boot_run :=
  repeat (erewrite boot_go by boot_step); cbn [boot_host after]; rewrite ?after_after.

Lemma boot_lua_runtime_quiet cfg w b :
  exists evs lua, boot_lua_runtime cfg w b = (mkBoot (boot_host b) (boot_events b ++ evs) lua, inl ())
    /\ forallb quiet_event evs = true.
Proof.
  unfold boot_lua_runtime. boot_run. set (evs := (if lua_enabled cfg then _ else _) ++ _).
  assert (forallb quiet_event evs = true) as Hq by (unfold evs; by destruct (lua_enabled cfg)).
  unfold only_if. destruct (lua_enabled cfg && _); [|by exists evs, (boot_lua b)].
  cbn [after boot_lua boot_host boot_events]. destruct (ensure_lua_watcher _ _ _) as [lua ok].
  destruct (negb ok); [by exists evs, lua|]. destruct (poll_lua_scripts _ _ _) as [lua' again].
  rewrite <- app_assoc. eexists _, lua'. split; [reflexivity|]. rewrite forallb_app, Hq. by destruct again.
Qed.

(** No event tells the registry that the server is ready. *)
Definition unready_event (e : boot_event) : bool :=
  match e with Upserted record => negb (InstanceRegistry.ready record) | _ => true end.

Lemma quiet_unready evs : forallb quiet_event evs = true -> forallb unready_event evs = true.
Proof. intros H. apply forallb_forall. intros e He. rewrite forallb_forall in H. specialize (H e He). by destruct e. Qed.

Lemma set_dependency_startup name ok a : AppHost.startup_ready_ (AppHost.set_dependency_ok name ok a) = AppHost.startup_ready_ a.
Proof. unfold AppHost.set_dependency_ok. destruct (bool_decide _); [done|]. by destruct (AppHost.update_first _ _ _). Qed.

Lemma quiet_not_upserted evs pre record post : forallb quiet_event evs = true -> evs <> pre ++ Upserted record :: post.
Proof. intros Hq ->. rewrite forallb_app in Hq. cbn in Hq. by rewrite andb_false_r in Hq. Qed.

Lemma boot_redis_events cfg w b :
  AppHost.startup_ready_ (boot_host b) = false ->
  exists evs, boot_redis cfg w b
    = (after (if nonempty_string (redis_uri cfg)
              then AppHost.set_dependency_ok "redis" (redis_made w && redis_healthy w) (boot_host b) else boot_host b) evs b, inl ())
    /\ forallb unready_event evs = true.
Proof.
  intros Hready. unfold boot_redis, after. destruct (nonempty_string (redis_uri cfg)); cbn [negb].
  2:{ exists []. rewrite app_nil_r. by destruct b. }
  destruct (redis_made w) eqn:Hm; cbn [andb].
  2:{ exists []. unfold only_if. cbn. by rewrite app_nil_r. }
  set (H := AppHost.set_dependency_ok "redis" (redis_healthy w) (boot_host b)).
  assert (AppHost.ready H = false) as HH.
  { unfold AppHost.ready, H. by rewrite set_dependency_startup, Hready. }
  change (only_if true ?m) with m. rewrite (boot_go _ _ b (after (boot_host b)
    (RedisMade :: if presence_clean_on_start cfg then [PresenceCleaned (redis_channel_prefix cfg +:+ "presence:room:*")] else []) b) tt).
  2:{ erewrite boot_go by boot_step. rewrite only_if_event. by rewrite after_after. }
  boot_run. change (only_if true ?m) with m. boot_run. rewrite only_if_event, after_after. fold H. rewrite HH. eexists. split; [reflexivity|].
  rewrite !forallb_app. by destruct (presence_clean_on_start cfg), (bool_decide _), (registered cfg w).
Qed.

(** The metrics server is started and cannot be. *)
Definition metrics_fail (cfg : ServerConfig) (w : BootWorld) : bool :=
  negb (metrics_port cfg =? 0) && metrics_server_throws w.

Lemma metrics_start_run cfg w b :
  exists evs, only_if (negb (metrics_port cfg =? 0))
      (if metrics_server_throws w then terminate else event (MetricsServerStarted (metrics_port cfg))) b
    = (after (boot_host b) evs b, if metrics_fail cfg w then inr Terminated else inl ()).
Proof.
  unfold metrics_fail, after. destruct (metrics_port cfg =? 0), (metrics_server_throws w); cbn;
    first [exists []; rewrite app_nil_r; by destruct b|by eexists].
Qed.

Lemma boot_listen_events cfg w b :
  exists evs, boot_listen cfg w b
    = (after (AppHost.set_lifecycle_phase AppHost.kRunning (AppHost.set_ready true (boot_host b)))
         ([RoutesRegistered; AcceptorStarted (ServerConfig.port cfg); WorkersStarted (Z.max 1 (hardware_concurrency w));
           IoThreadsStarted (Z.max 1 (hardware_concurrency w))] ++ evs) b,
       if metrics_fail cfg w then inr Terminated else inl ()).
Proof.
  unfold boot_listen. cbv zeta. boot_run.
  match goal with |- context [only_if _ _ ?b] => destruct (metrics_start_run cfg w b) as [evs ->] end.
  rewrite after_after. eexists. by rewrite <- !app_assoc.
Qed.

(** The host after the declarations. *)
Definition declared (redis : bool) : AppHost.t :=
  let a := AppHost.declare_dependency "db" AppHost.kRequired (AppHost.set_lifecycle_phase AppHost.kBootstrapping AppHost.new) in
  AppHost.set_ready false (if redis then AppHost.declare_dependency "redis" AppHost.kRequired a else a).

Lemma boot_prefix cfg w :
  exists evs lua, (boot_dependencies cfg ≫= fun _ => boot_lua_runtime cfg w)
      (mkBoot (AppHost.set_lifecycle_phase AppHost.kBootstrapping AppHost.new) [] no_watch)
    = (mkBoot (declared (nonempty_string (redis_uri cfg))) evs lua, inl ())
    /\ forallb quiet_event evs = true.
Proof.
  unfold boot_dependencies. erewrite boot_go.
  2:{ boot_run. rewrite only_if_event, after_after. cbn [app]. reflexivity. }
  match goal with |- context [boot_lua_runtime cfg w ?b] => destruct (boot_lua_runtime_quiet cfg w b) as (evs & lua & -> & Hq) end.
  eexists _, lua. split; [reflexivity|]. cbn [after boot_events app]. rewrite forallb_app, Hq. by destruct (0 <? _).
Qed.

Lemma split_before {A} (l1 l2 pre post : list A) x : l1 ++ l2 = pre ++ x :: post -> x ∉ l1 -> exists k, pre = l1 ++ k.
Proof.
  intros H Hx. apply app_eq_inv in H as [(k & -> & Hk)|(k & -> & _)]; [|by exists k].
  destruct k as [|y k]; [exists []; by rewrite !app_nil_r|]. injection Hk as <- _. destruct Hx. set_solver.
Qed.

(** A ready record is published after the calls that open the server. *)
Lemma ready_after_open cfg w evs ev1 ev2 pre record post :
  forallb quiet_event evs = true -> forallb unready_event ev1 = true ->
  evs ++ ev1 ++ ([RoutesRegistered; AcceptorStarted (ServerConfig.port cfg); WorkersStarted (Z.max 1 (hardware_concurrency w));
                  IoThreadsStarted (Z.max 1 (hardware_concurrency w))] ++ ev2) = pre ++ Upserted record :: post ->
  InstanceRegistry.ready record = true ->
  AcceptorStarted (ServerConfig.port cfg) ∈ pre /\ IoThreadsStarted (Z.max 1 (hardware_concurrency w)) ∈ pre.
Proof.
  intros Hq Hu Heq Hready.
  set (opened := [RoutesRegistered; AcceptorStarted _; WorkersStarted _; IoThreadsStarted _]) in *.
  assert ((evs ++ ev1 ++ opened) ++ ev2 = pre ++ Upserted record :: post) as Heq'
    by (rewrite <- Heq; by rewrite <- !app_assoc).
  apply split_before in Heq' as [k ->].
  - unfold opened. set_solver.
  - intros Hin. assert (forallb unready_event (evs ++ ev1 ++ opened) = true) as Hall.
    { rewrite !forallb_app, Hu. by rewrite quiet_unready. }
    rewrite forallb_forall in Hall. apply list_elem_of_In, Hall in Hin. cbn in Hin. by rewrite Hready in Hin.
Qed.

(** From a usable database on: only the metrics server can fail. *)
Lemma boot_rest cfg w b (db_ok : bool) evs :
  boot_host b = AppHost.set_dependency_ok "db" db_ok (declared (nonempty_string (redis_uri cfg))) ->
  boot_events b = evs -> forallb quiet_event evs = true ->
  exists host more,
    (boot_redis cfg w ≫= fun _ => boot_listen cfg w ≫= fun _ => boot_shutdown) b
      = (mkBoot host more (boot_lua b), if metrics_fail cfg w then inr Terminated else inl ())
    /\ (metrics_fail cfg w = false ->
          AppHost.ready host = db_ok && (negb (nonempty_string (redis_uri cfg)) || (redis_made w && redis_healthy w))
          /\ (AppHost.on_signal host).1.2 = rev shutdown_steps
          /\ AppHost.ready (AppHost.on_signal host).1.1 = false)
    /\ forall pre record post, more = pre ++ Upserted record :: post -> InstanceRegistry.ready record = true ->
         AcceptorStarted (ServerConfig.port cfg) ∈ pre /\ IoThreadsStarted (Z.max 1 (hardware_concurrency w)) ∈ pre.
Proof.
  intros Hh He Hq. destruct (boot_redis_events cfg w b) as (ev1 & Hr & Hu).
  { rewrite Hh. by destruct (nonempty_string (redis_uri cfg)), db_ok. }
  rewrite (boot_go _ _ _ _ _ Hr). destruct (boot_listen_events cfg w) with
    (b := after (if nonempty_string (redis_uri cfg)
              then AppHost.set_dependency_ok "redis" (redis_made w && redis_healthy w) (boot_host b) else boot_host b) ev1 b)
    as (ev2 & Hl).
  destruct (metrics_fail cfg w).
  { cbv beta. rewrite (boot_exit _ _ _ _ _ Hl), after_after. unfold after. eexists _, _. split; [reflexivity|]. split; [done|].
    rewrite He. intros pre record post. by apply ready_after_open. }
  rewrite (boot_go _ _ _ _ _ Hl). unfold boot_shutdown. erewrite boot_go by boot_step. rewrite on_host_run.
  rewrite !after_after. cbn [after boot_host]. unfold after. eexists _, _. split; [reflexivity|]. rewrite Hh, He. split; [intros _; split_and!|].
  1-3: destruct (nonempty_string (redis_uri cfg)), db_ok, (redis_made w), (redis_healthy w); vm_compute; reflexivity.
  rewrite !app_nil_r. intros pre record post. by apply ready_after_open.
Qed.


(** A metrics port that is taken is noticed only after the server was published as ready,
    and the process ends by [std::terminate]: no step of the shutdown runs, so that the
    record stays in the registry until it expires. *)
Lemma taken_port_after_publishing cfg w b :
  metrics_fail cfg w = true -> registered cfg w = true ->
  AppHost.ready (AppHost.set_ready true (boot_host b)) = true ->
  exists b', boot_listen cfg w b = (b', inr Terminated)
    /\ Upserted (boot_record cfg true (connections w) (boot_clock w 1%nat)) ∈ boot_events b'.
Proof.
  intros Hm Hr Hready. unfold boot_listen. cbv zeta. boot_run.
  match goal with |- context [only_if _ _ ?b] => destruct (metrics_start_run cfg w b) as [evs ->] end.
  rewrite Hm, after_after. eexists. split; [reflexivity|]. unfold after. cbn [boot_events].
  change (AppHost.ready (AppHost.set_lifecycle_phase _ ?a)) with (AppHost.ready a). rewrite Hready, Hr. set_solver.
Qed.

(** What a result of the drain stands for. *)
Definition drain_sound (timeout_ms : Z) (polls : list (Z * Z)) (r : drain_result) : Prop :=
  match r with
  | DrainCompleted => exists p, p ∈ polls /\ p.1 = 0
  | DrainTimeout n => n <> 0 /\ exists p, p ∈ polls /\ p.1 = n /\ timeout_ms <= p.2
  end.

Lemma drain_sound_cons timeout_ms p polls r : drain_sound timeout_ms polls r -> drain_sound timeout_ms (p :: polls) r.
Proof. destruct r; cbn; set_solver. Qed.

Lemma drain_loop_ends timeout_ms poll_ms e polls :
  0 < poll_ms -> polls <> [] ->
  (forall i p q, polls !! i = Some p -> polls !! S i = Some q -> p.2 + poll_ms <= q.2) ->
  (forall p, polls !! 0%nat = Some p -> e <= p.2) -> timeout_ms <= e + poll_ms * (zlen polls - 1) ->
  exists r, drain_loop timeout_ms polls = Some r /\ drain_sound timeout_ms polls r.
Proof.
  intros Hp. revert e. induction polls as [|[n e0] polls IH]; intros e Hne Hstep He Hle; [done|]. cbn [drain_loop].
  destruct (Z.eqb_spec n 0) as [->|Hn]; [eexists; split; [done|]; exists (0, e0); split; [left|done]|].
  destruct (Z.leb_spec timeout_ms e0) as [H0|H0]; [eexists; split; [done|]; split; [done|]; exists (n, e0); split; [left|done]|].
  specialize (He (n, e0) eq_refl). cbn in He, Hle. destruct polls as [|q polls]; [cbn in Hle; lia|].
  destruct (IH (e0 + poll_ms)) as (r & Hr & Hres); [done|exact (fun i => Hstep (S i))|..].
  - intros p [= <-]. by apply (Hstep 0%nat (n, e0) q).
  - cbn in *. nia.
  - exists r. split; [done|by apply drain_sound_cons].
Qed.

(** The drain ends: polls that are at least [poll_ms] apart reach the time limit, so that no
    more than [timeout_ms / poll_ms + 2] of them are made, and it counts as complete only
    without connections. *)
Theorem drain_ends timeout_ms poll_ms polls :
  0 < poll_ms -> 0 <= timeout_ms ->
  (forall i p q, polls !! i = Some p -> polls !! S i = Some q -> p.2 + poll_ms <= q.2) ->
  (forall p, p ∈ polls -> 0 <= p.2) ->
  timeout_ms / poll_ms + 2 <= zlen polls ->
  exists r, drain_loop timeout_ms polls = Some r /\ drain_sound timeout_ms polls r.
Proof.
  intros Hp Ht Hstep Hpos Hlen. apply (drain_loop_ends timeout_ms poll_ms 0 polls); try done.
  - destruct polls; [cbn in Hlen; pose proof (Z.div_pos timeout_ms poll_ms); lia|done].
  - intros p Hp0. apply Hpos. by eapply list_elem_of_lookup_2.
  - pose proof (Z.mul_succ_div_gt timeout_ms poll_ms). nia.
Qed.

Lemma drain_ends_witness : exists r, drain_loop 250 [(3, 0); (2, 100); (1, 205); (1, 310); (1, 420)] = Some r.
Proof.
  destruct (drain_ends 250 100 [(3, 0); (2, 100); (1, 205); (1, 310); (1, 420)]) as (r & Hr & _);
    [lia|lia| | |by vm_compute|by exists r].
  - intros [|[|[|[|[|i]]]]] p q [= <-] [= <-]; cbn; lia.
  - intros p Hp. repeat (apply elem_of_cons in Hp as [->|Hp]; [cbn; lia|]). by apply elem_of_nil in Hp.
Defined.

Lemma omap_none {A C} (f : A -> option C) l : (forall x, x ∈ l -> f x = None) -> omap f l = [].
Proof.
  intros H. induction l as [|x l IH]; [done|]. cbn. rewrite (H x) by left. apply IH. intros y Hy. apply H. by right.
Qed.

Lemma changes_of_same m : changes_of m m = [].
Proof.
  unfold changes_of. rewrite !omap_none; [done|..]; intros [k f] Hin%elem_of_map_to_list.
  - unfold gone_change. cbn. by rewrite Hin.
  - unfold scan_change. cbn. by rewrite Hin, Z.eqb_refl.
Qed.

Lemma second_poll_quiet fs w :
  match (watch_poll fs (watch_poll fs w).1).2 with Some changes => changes = [] | None => True end.
Proof.
  destruct (watch_poll fs w) as [w' r] eqn:Hw. cbn. unfold watch_poll in *.
  destruct (bool_decide (scripts_dir w = EmptyString)) eqn:Hd; [injection Hw as <- <-; by rewrite Hd|].
  destruct (match watch_lock_path w with Some l => watch_exists fs l | None => false end) eqn:Hl; [injection Hw as <- <-; by rewrite Hd, Hl|].
  destruct (scan_files fs w) as [scanned|] eqn:Hs; injection Hw as <- <-; cbn; rewrite ?Hd, ?Hl, ?Hs; [|done].
  change (scan_files fs _) with (scan_files fs w). rewrite Hs. cbn. apply changes_of_same.
Qed.

(** When the directory of the scripts changes, because the first one gets scripts or loses
    its last one, the poll that notices it does not schedule a reload: the watcher of the
    new directory is primed by a poll that discards its events. *)
Lemma switch_without_reload fs cfg st :
  active_scripts_dir (ensure_lua_watcher fs cfg st).1 <> active_scripts_dir st ->
  (poll_lua_scripts fs cfg st).2 = false
  /\ active_scripts_dir (poll_lua_scripts fs cfg st).1 = active_scripts_dir (ensure_lua_watcher fs cfg st).1.
Proof.
  unfold poll_lua_scripts. destruct (ensure_lua_watcher fs cfg st) as [st' ok] eqn:He. cbn [fst]. intros Hne.
  unfold ensure_lua_watcher in He. destruct (resolve_effective_scripts_dir _ _ _) as [dir fb].
  destruct (bool_decide (dir = EmptyString)); [injection He as <- <-; done|].
  destruct (_ && _ && _); [injection He as <- <-; done|]. injection He as <- <-. cbn [lua_script_watcher active_scripts_dir].
  set (w := new_ScriptWatcher _ _ _ _). pose proof (second_poll_quiet fs w) as Hq.
  destruct (watch_poll fs (watch_poll fs w).1) as [w2 [changes|]]; cbn in *; subst; done.
Qed.
