(* ===== verification/ChatHooks.v ===== *)
(** The hooks of the chat service: the chain of native plugins
    ([server/src/chat/chat_hook_plugin_chain.cpp]) and the calls of Lua hooks with their
    auto-disabling ([ChatService::invoke_lua_cold_hook] of [chat_service_core.cpp]).

    A plugin is foreign code: the function behind an entry of its table is any function of
    the input that returns or throws, with what it wrote into the output buffers.  A chain
    call meets a list of slots, one per host, with the functions as they behave in this
    call and the time each takes. *)

From S2P Require Import Prelude Text ChatText LuaRuntime Plugins.

(** ** The plugin interface *)

Module Native.

Inductive HookDecisionV2 := kPass | kHandled | kModify | kBlock | kAllow | kDeny | unknown.

Definition decision_of (raw : Z) : HookDecisionV2 :=
  if raw =? 0 then kPass else if raw =? 1 then kHandled else if raw =? 2 then kModify
  else if raw =? 3 then kBlock else if raw =? 4 then kAllow else if raw =? 5 then kDeny else unknown.

Definition CHAT_HOOK_ABI_VERSION_V1 : Z := 1.
Definition CHAT_HOOK_ABI_VERSION_V2 : Z := 2.

(** An output buffer after the call: what was written to it and the size claimed. *)
Record HookStrBuf := mkBuf { buf_data : string; buf_size : Z }.

Fixpoint pad_right (n : nat) (s : string) : string :=
  match n, s with
  | O, _ => EmptyString
  | S n', String c s' => String c (pad_right n' s')
  | S n', EmptyString => String (ascii_of_byte 0) (pad_right n' EmptyString)
  end.

(** [clamp_and_assign] on a zeroed buffer of [capacity] bytes. *)
Definition clamp_and_assign (capacity : Z) (b : HookStrBuf) : string :=
  if capacity =? 0 then EmptyString
  else
    let n := if capacity <=? b.(buf_size) then capacity - 1 else b.(buf_size) in
    String.substring 0 (Z.to_nat n) (pad_right (Z.to_nat capacity) b.(buf_data)).

(** How a function of the table ends, with the buffers as it leaves them. *)
Inductive call (T : Type) := Returns (raw : Z) (out : T) | Throws (out : T).
Arguments Returns {T} raw out.
Arguments Throws {T} out.

Record ChatHookApi := mkApi {
  abi_version : Z;
  api_name : option string;
  fn_chat_send : option (Z -> string -> string -> string -> call (HookStrBuf * HookStrBuf));
  fn_login : option (Z -> string -> call (HookStrBuf * HookStrBuf));
  fn_join : option (Z -> string -> string -> call (HookStrBuf * HookStrBuf));
  fn_leave : option (Z -> string -> string -> call unit);
  fn_session_event : option (Z -> Z -> string -> string -> call unit);
  fn_admin_command : option (string -> string -> string -> call (HookStrBuf * HookStrBuf * HookStrBuf));
}.

(** [adapt_v1_api_to_v2] with its cache, keyed by the address of the table. *)
Definition adapted (v1 : ChatHookApi) : ChatHookApi :=
  mkApi CHAT_HOOK_ABI_VERSION_V2 v1.(api_name) v1.(fn_chat_send) None None None None None.
Definition adapt_v1_api_to_v2 (addr : Z) (v1 : ChatHookApi) (cache : gmap Z ChatHookApi)
    : gmap Z ChatHookApi * ChatHookApi :=
  match cache !! addr with
  | Some a => (cache, a)
  | None => (<[addr := adapted v1]> cache, adapted v1)
  end.

(** The callbacks of [make_chain_host_config]: the table behind the entry point, [None] when
    it is null or the entry point throws. *)
Definition resolve_api (entry : option (Z * ChatHookApi)) (cache : gmap Z ChatHookApi)
    : gmap Z ChatHookApi * option ChatHookApi :=
  match entry with
  | None => (cache, None)
  | Some (addr, a) =>
      if a.(abi_version) =? CHAT_HOOK_ABI_VERSION_V2 then (cache, Some a)
      else if a.(abi_version) =? CHAT_HOOK_ABI_VERSION_V1
      then let '(cache, a') := adapt_v1_api_to_v2 addr a cache in (cache, Some a')
      else (cache, None)
  end.
Definition validate_api (a : ChatHookApi) : bool :=
  (a.(abi_version) =? CHAT_HOOK_ABI_VERSION_V2) && bool_decide (is_Some a.(fn_chat_send)).

(** ** One call *)

(** [ChainCallResult], [GateCallResult] and [AdminCallResult]: [text] is the replacement
    text or the reason to deny. *)
Record CallResult := mkCall {
  decision : HookDecisionV2;
  notice : string;
  text : string;
  response_json : string;
  plugin_name : string;
  had_error : bool;
  executed : bool;
}.

Definition not_called : CallResult :=
  mkCall kPass EmptyString EmptyString EmptyString EmptyString false false.

Record Slot := mkSlot { slot_api : option ChatHookApi; slot_path : string; slot_elapsed_ns : Z }.

(** The common shape: the entry of the table if there is one, an exception as a pass. *)
Definition call_entry {F T} (slot : Slot) (entry : ChatHookApi -> option F) (invoke : F -> call T)
    (read : T -> string * string * string) : CallResult :=
  match slot.(slot_api) with
  | None => not_called
  | Some a =>
      match entry a with
      | None => not_called
      | Some f =>
          let '(d, err, out) := match invoke f with
                                | Returns raw out => (decision_of raw, false, out)
                                | Throws out => (kPass, true, out)
                                end in
          let '(n, t, r) := read out in
          mkCall d n t r (default EmptyString a.(api_name)) err true
      end
  end.

Definition call_on_chat_send (slot : Slot) (sid : Z) (room user txt : string) : CallResult :=
  call_entry slot fn_chat_send (fun f => f sid room user txt)
    (fun out => (clamp_and_assign 512 out.1, clamp_and_assign 1024 out.2, EmptyString)).
Definition call_on_login (slot : Slot) (sid : Z) (user : string) : CallResult :=
  call_entry slot fn_login (fun f => f sid user)
    (fun out => (clamp_and_assign 512 out.1, clamp_and_assign 512 out.2, EmptyString)).
Definition call_on_join (slot : Slot) (sid : Z) (user room : string) : CallResult :=
  call_entry slot fn_join (fun f => f sid user room)
    (fun out => (clamp_and_assign 512 out.1, clamp_and_assign 512 out.2, EmptyString)).
Definition call_on_leave (slot : Slot) (sid : Z) (user room : string) : CallResult :=
  call_entry slot fn_leave (fun f => f sid user room) (fun _ => (EmptyString, EmptyString, EmptyString)).
Definition call_on_session_event (slot : Slot) (sid kind : Z) (user reason : string) : CallResult :=
  call_entry slot fn_session_event (fun f => f sid kind user reason)
    (fun _ => (EmptyString, EmptyString, EmptyString)).
Definition call_on_admin_command (slot : Slot) (command issuer payload : string) : CallResult :=
  call_entry slot fn_admin_command (fun f => f command issuer payload)
    (fun '(n, r, d) => (clamp_and_assign 512 n, clamp_and_assign 512 d, clamp_and_assign 2048 r)).

(** ** Metrics *)

Definition kHookDurationBucketUpperBoundsNs : list Z :=
  [1000; 2000; 5000; 10000; 25000; 50000; 100000; 250000; 500000; 1000000; 2500000; 5000000].

Fixpoint bucket_search (bounds : list Z) (elapsed_ns : Z) (i : nat) : nat :=
  match bounds with
  | [] => i
  | b :: rest => if elapsed_ns <=? b then i else bucket_search rest elapsed_ns (S i)
  end.
Definition duration_bucket_index (elapsed_ns : Z) : nat :=
  bucket_search kHookDurationBucketUpperBoundsNs elapsed_ns 0.

Record HookCounters := mkCounters {
  calls_total : Z;
  errors_total : Z;
  duration_count : Z;
  duration_sum_ns : Z;
  duration_bucket_counts : list Z;
}.

Definition zero_counters : HookCounters := mkCounters 0 0 0 0 (repeat 0 12).

Definition count_call (had_error : bool) (elapsed_ns : Z) (c : HookCounters) : HookCounters :=
  mkCounters (u64 (c.(calls_total) + 1)) (if had_error then u64 (c.(errors_total) + 1) else c.(errors_total))
    (u64 (c.(duration_count) + 1))
    (if 2 ^ 64 - 1 - c.(duration_sum_ns) <? elapsed_ns then 2 ^ 64 - 1 else c.(duration_sum_ns) + elapsed_ns)
    (alter (fun n => u64 (n + 1)) (duration_bucket_index elapsed_ns) c.(duration_bucket_counts)).

Abbreviation metrics := (gmap (string * string) HookCounters).

Definition record_plugin_hook_metric (plugin hook : string) (had_error : bool) (elapsed_ns : Z) (m : metrics) : metrics :=
  if bool_decide (plugin = EmptyString) || bool_decide (hook = EmptyString) then m
  else <[(plugin, hook) := count_call had_error elapsed_ns (default zero_counters (m !! (plugin, hook)))]> m.

Definition normalize_plugin_metric_name (name path : string) : string :=
  if bool_decide (name <> EmptyString) then name
  else if bool_decide (path_filename path <> EmptyString) then path_filename path
  else path.

Definition record_call (slot : Slot) (hook : string) (r : CallResult) (m : metrics) : metrics :=
  if r.(executed)
  then record_plugin_hook_metric (normalize_plugin_metric_name r.(plugin_name) slot.(slot_path)) hook
         r.(had_error) slot.(slot_elapsed_ns) m
  else m.

(** ** The chain *)

Record Outcome := mkOutcome {
  stop_default : bool;
  notices : list string;
  deny_reason : string;
  response : string;
}.

Definition no_outcome : Outcome := mkOutcome false [] EmptyString EmptyString.

Definition add_notice (r : CallResult) (out : Outcome) : Outcome :=
  mkOutcome out.(stop_default)
    (if bool_decide (r.(notice) = EmptyString) then out.(notices) else out.(notices) ++ [r.(notice)])
    out.(deny_reason) out.(response).

Definition stopped (out : Outcome) (why : string) : Outcome :=
  mkOutcome true out.(notices) why out.(response).

(** The loop of [on_chat_send]. *)
Fixpoint chat_send_loop (slots : list Slot) (sid : Z) (room user : string)
    (st : Outcome * string * metrics) : Outcome * string * metrics :=
  match slots with
  | [] => st
  | slot :: rest =>
      let '(out, txt, m) := st in
      let r := call_on_chat_send slot sid room user txt in
      let m := record_call slot "on_chat_send" r m in
      let out := add_notice r out in
      match r.(decision) with
      | kPass | kAllow | unknown => chat_send_loop rest sid room user (out, txt, m)
      | kModify => chat_send_loop rest sid room user
                     (out, if bool_decide (r.(text) = EmptyString) then txt else r.(text), m)
      | kHandled | kBlock | kDeny => (stopped out EmptyString, txt, m)
      end
  end.

(** The loop of the other hooks; [call] is the call of one slot. *)
Fixpoint gate_loop (hook : string) (call : Slot -> CallResult) (slots : list Slot) (st : Outcome * metrics)
    : Outcome * metrics :=
  match slots with
  | [] => st
  | slot :: rest =>
      let '(out, m) := st in
      let r := call slot in
      let m := record_call slot hook r m in
      let out := add_notice r out in
      let out := if bool_decide (r.(response_json) = EmptyString) then out
                 else mkOutcome out.(stop_default) out.(notices) out.(deny_reason) r.(response_json) in
      match r.(decision) with
      | kPass | kAllow | kModify | unknown => gate_loop hook call rest (out, m)
      | kHandled => (stopped out out.(deny_reason), m)
      | kBlock | kDeny => (stopped out r.(text), m)
      end
  end.

Definition on_chat_send (slots : list Slot) (sid : Z) (room user txt : string) (m : metrics) :=
  chat_send_loop slots sid room user (no_outcome, txt, m).
Definition on_login (slots : list Slot) (sid : Z) (user : string) (m : metrics) :=
  gate_loop "on_login" (fun s => call_on_login s sid user) slots (no_outcome, m).
Definition on_join (slots : list Slot) (sid : Z) (user room : string) (m : metrics) :=
  gate_loop "on_join" (fun s => call_on_join s sid user room) slots (no_outcome, m).
Definition on_leave (slots : list Slot) (sid : Z) (user room : string) (m : metrics) :=
  gate_loop "on_leave" (fun s => call_on_leave s sid user room) slots (no_outcome, m).
Definition on_session_event (slots : list Slot) (sid kind : Z) (user reason : string) (m : metrics) :=
  gate_loop "on_session_event" (fun s => call_on_session_event s sid kind user reason) slots (no_outcome, m).
Definition on_admin_command (slots : list Slot) (command issuer payload : string) (m : metrics) :=
  gate_loop "on_admin_command" (fun s => call_on_admin_command s command issuer payload) slots (no_outcome, m).

End Native.

(** ** Lua hooks *)

Module Cold.

Abbreviation counts := (gmap string Z).

Record LuaHookState := mkHookState {
  lua_reload_epoch_ : Z;
  lua_hook_consecutive_failures_ : counts;
  lua_hook_disabled_ : gset string;
  lua_hook_auto_disable_total_ : counts;
  lua_hook_calls_total_ : counts;
  lua_hook_errors_total_ : counts;
  lua_hook_instruction_limit_hits_ : counts;
  lua_hook_memory_limit_hits_ : counts;
  lua_hook_script_calls_total_ : gmap (string * string) Z;
  lua_hook_script_errors_total_ : gmap (string * string) Z;
}.

Definition new_LuaHookState : LuaHookState := mkHookState 0 ∅ ∅ ∅ ∅ ∅ ∅ ∅ ∅ ∅.

(** [map[key] += n] *)
Definition bump {K} `{Countable K} (key : K) (n : Z) (m : gmap K Z) : gmap K Z :=
  <[key := u64 (default 0 (m !! key) + n)]> m.

(** The first critical section: a new epoch of the scripts forgets the failures; [false]
    when the hook is disabled. *)
Definition before_call (epoch : Z) (hook : string) (st : LuaHookState) : LuaHookState * bool :=
  let st := if epoch =? st.(lua_reload_epoch_) then st
            else mkHookState epoch ∅ ∅ st.(lua_hook_auto_disable_total_) st.(lua_hook_calls_total_)
                   st.(lua_hook_errors_total_) st.(lua_hook_instruction_limit_hits_)
                   st.(lua_hook_memory_limit_hits_) st.(lua_hook_script_calls_total_)
                   st.(lua_hook_script_errors_total_) in
  (st, negb (bool_decide (hook ∈ st.(lua_hook_disabled_)))).

Definition call_failed (r : CallAllResult) : bool :=
  bool_decide (r.(ca_error) <> EmptyString) || negb (r.(failed) =? 0).

Definition script_name (r : ScriptCallResult) : string :=
  if bool_decide (r.(sc_env_name) = EmptyString) then "(unknown)" else r.(sc_env_name).

(** One result of the loop over [script_results]. *)
Definition count_script (hook : string) (st : LuaHookState) (r : ScriptCallResult) : LuaHookState :=
  let key := (hook, script_name r) in
  mkHookState st.(lua_reload_epoch_) st.(lua_hook_consecutive_failures_) st.(lua_hook_disabled_)
    st.(lua_hook_auto_disable_total_) st.(lua_hook_calls_total_) st.(lua_hook_errors_total_)
    (if bool_decide (r.(sc_failure_kind) = kInstructionLimit)
     then bump hook 1 st.(lua_hook_instruction_limit_hits_) else st.(lua_hook_instruction_limit_hits_))
    (if bool_decide (r.(sc_failure_kind) = kMemoryLimit)
     then bump hook 1 st.(lua_hook_memory_limit_hits_) else st.(lua_hook_memory_limit_hits_))
    (bump key 1 st.(lua_hook_script_calls_total_))
    (if r.(sc_failed) then bump key 1 st.(lua_hook_script_errors_total_) else st.(lua_hook_script_errors_total_)).

(** The end of the second section: the failures in a row and the disabling. *)
Definition count_failure (threshold : Z) (hook : string) (call_failed : bool) (st : LuaHookState) : LuaHookState :=
  let consecutive := if call_failed then u64 (default 0 (st.(lua_hook_consecutive_failures_) !! hook) + 1) else 0 in
  let disable := call_failed && (0 <? threshold) && (threshold <=? consecutive)
                 && negb (bool_decide (hook ∈ st.(lua_hook_disabled_))) in
  mkHookState st.(lua_reload_epoch_) (<[hook := consecutive]> st.(lua_hook_consecutive_failures_))
    (if disable then {[hook]} ∪ st.(lua_hook_disabled_) else st.(lua_hook_disabled_))
    (if disable then bump hook 1 st.(lua_hook_auto_disable_total_) else st.(lua_hook_auto_disable_total_))
    st.(lua_hook_calls_total_) st.(lua_hook_errors_total_) st.(lua_hook_instruction_limit_hits_)
    st.(lua_hook_memory_limit_hits_) st.(lua_hook_script_calls_total_) st.(lua_hook_script_errors_total_).

(** The second critical section. *)
Definition after_call (threshold : Z) (hook : string) (r : CallAllResult) (st : LuaHookState) : LuaHookState :=
  let errors := r.(failed) + (if (r.(failed) =? 0) && bool_decide (r.(ca_error) <> EmptyString) then 1 else 0) in
  let st := mkHookState st.(lua_reload_epoch_) st.(lua_hook_consecutive_failures_) st.(lua_hook_disabled_)
              st.(lua_hook_auto_disable_total_) (bump hook r.(attempted) st.(lua_hook_calls_total_))
              (bump hook errors st.(lua_hook_errors_total_)) st.(lua_hook_instruction_limit_hits_)
              st.(lua_hook_memory_limit_hits_) st.(lua_hook_script_calls_total_)
              st.(lua_hook_script_errors_total_) in
  count_failure threshold hook (call_failed r) (foldl (count_script hook) st r.(script_results)).

Record LuaColdHookOutcome := mkColdOutcome {
  cold_stop_default : bool;
  cold_deny_reason : string;
  cold_notices : list string;
}.

Definition no_cold_outcome : LuaColdHookOutcome := mkColdOutcome false EmptyString [].

Definition outcome_of (r : CallAllResult) : LuaColdHookOutcome :=
  match r.(ca_decision) with
  | kPass | kAllow | kModify | kHandled => mkColdOutcome false EmptyString r.(ca_notices)
  | kBlock | kDeny => mkColdOutcome true r.(ca_reason) r.(ca_notices)
  end.

(** [invoke_lua_cold_hook] when no other call comes between its sections; [r] is what
    [LuaRuntime::call_all] returns.  [None] as the runtime is a service without one. *)
Definition invoke_lua_cold_hook (threshold : Z) (hook : string) (runtime : option (Z * CallAllResult))
    (st : LuaHookState) : LuaHookState * LuaColdHookOutcome :=
  match runtime with
  | None => (st, no_cold_outcome)
  | Some (epoch, r) =>
      let '(st, go) := before_call epoch hook st in
      if negb go then (st, no_cold_outcome) else (after_call threshold hook r st, outcome_of r)
  end.

(** *** Auto-disabling *)

(** A run of hook invocations within one epoch. *)
Definition run (threshold epoch : Z) (calls : list (string * CallAllResult)) (st : LuaHookState) : LuaHookState :=
  foldl (fun st c => (invoke_lua_cold_hook threshold c.1 (Some (epoch, c.2)) st).1) st calls.

(** The failures of a hook: the current and the longest row of them. *)
Definition streak (acc : Z * Z) (failed : bool) : Z * Z :=
  let cur := if failed then acc.1 + 1 else 0 in (cur, Z.max acc.2 cur).
Definition longest_failures (hook : string) (calls : list (string * CallAllResult)) : Z * Z :=
  foldl streak (0, 0) ((fun c => call_failed c.2) <$> filter (fun c : string * CallAllResult => c.1 = hook) calls).

Lemma count_scripts_same hook rs st :
  let st' := foldl (count_script hook) st rs in
  st'.(lua_reload_epoch_) = st.(lua_reload_epoch_)
  /\ st'.(lua_hook_consecutive_failures_) = st.(lua_hook_consecutive_failures_)
  /\ st'.(lua_hook_disabled_) = st.(lua_hook_disabled_).
Proof. revert st. induction rs as [|r rs IH]; intros st; [done|]. apply (IH (count_script hook st r)). Qed.

Lemma after_call_view threshold hook r st :
  let st' := after_call threshold hook r st in
  let n := if call_failed r then u64 (default 0 (st.(lua_hook_consecutive_failures_) !! hook) + 1) else 0 in
  st'.(lua_reload_epoch_) = st.(lua_reload_epoch_)
  /\ st'.(lua_hook_consecutive_failures_) = <[hook := n]> st.(lua_hook_consecutive_failures_)
  /\ st'.(lua_hook_disabled_) =
     (if call_failed r && (0 <? threshold) && (threshold <=? n) && negb (bool_decide (hook ∈ st.(lua_hook_disabled_)))
      then {[hook]} ∪ st.(lua_hook_disabled_) else st.(lua_hook_disabled_)).
Proof.
  unfold after_call. set (st1 := mkHookState _ _ _ _ _ _ _ _ _ _).
  destruct (count_scripts_same hook r.(script_results) st1) as (H1 & H2 & H3).
  unfold count_failure. cbn. by rewrite H1, H2, H3.
Qed.

(** What the tables say of a hook, after the calls of the epoch. *)
Definition tracks (threshold epoch : Z) (calls : list (string * CallAllResult)) (st : LuaHookState) : Prop :=
  st.(lua_reload_epoch_) = epoch
  /\ forall hook,
       (hook ∈ st.(lua_hook_disabled_) <-> threshold <= (longest_failures hook calls).2)
       /\ ((longest_failures hook calls).2 < threshold ->
             default 0 (st.(lua_hook_consecutive_failures_) !! hook) = (longest_failures hook calls).1).

Lemma longest_snoc hook calls c :
  longest_failures hook (calls ++ [c])
  = if decide (c.1 = hook) then streak (longest_failures hook calls) (call_failed c.2) else longest_failures hook calls.
Proof.
  unfold longest_failures. rewrite filter_app, fmap_app, foldl_app, filter_cons, filter_nil. by case_decide.
Qed.

Lemma longest_bounds hook calls :
  0 <= (longest_failures hook calls).1 <= (longest_failures hook calls).2.
Proof.
  induction calls as [|c calls IH] using rev_ind; [done|]. rewrite longest_snoc. case_decide; [|done].
  unfold streak. cbn. destruct (call_failed c.2); lia.
Qed.

Lemma run_tracks threshold epoch calls :
  0 < threshold < 2 ^ 64 -> calls <> [] ->
  tracks threshold epoch calls (run threshold epoch calls new_LuaHookState).
Proof.
  intros Ht. induction calls as [|c calls IH] using rev_ind; [done|]. intros _.
  unfold run in *. rewrite foldl_snoc. set (st := foldl _ _ calls) in *.
  assert (Hst : tracks threshold epoch calls (before_call epoch c.1 st).1).
  { destruct (decide (calls = [])) as [->|Hne].
    - unfold before_call, st. cbn. destruct (Z.eqb_spec epoch 0); (split; [done|]; intros hook).
      all: cbn; rewrite lookup_empty; split; [|done]; rewrite elem_of_empty; lia.
    - destruct (IH Hne) as [H1 H2]. unfold before_call. rewrite H1, Z.eqb_refl. by split. }
  clearbody st. clear IH. unfold invoke_lua_cold_hook.
  destruct (before_call epoch c.1 st) as [st1 go] eqn:Hb. cbn [fst] in Hst. destruct Hst as [H1 H2].
  assert (Hgo : go = negb (bool_decide (c.1 ∈ st1.(lua_hook_disabled_)))) by (unfold before_call in Hb; by injection Hb as <- <-).
  pose proof (longest_bounds c.1 calls) as Hlb. destruct (H2 c.1) as [Hd Hc].
  case_bool_decide as Hdis; subst go; cbn [negb fst].
  - split; [done|]. intros hook. rewrite longest_snoc. case_decide as Hh; [|done]. subst hook. apply Hd in Hdis.
    unfold streak; cbn. split; [split; [lia|]|lia]. intros _. by apply Hd.
  - assert (Hlt : (longest_failures c.1 calls).2 < threshold) by (rewrite Hd in Hdis; lia). specialize (Hc Hlt).
    destruct (after_call_view threshold c.1 c.2 st1) as (V1 & V2 & V3).
    split; [by rewrite V1|]. intros hook. rewrite longest_snoc, V2, V3. rewrite Hc.
    rewrite wrap_id by (unfold fits; lia). rewrite (bool_decide_false (c.1 ∈ _)) by done.
    rewrite (proj2 (Z.ltb_lt 0 threshold)) by lia. rewrite !andb_true_r.
    clear V1 V2 V3 Hb. destruct (decide (c.1 = hook)) as [Hh|Hh].
    + subst hook. rewrite lookup_insert_eq. unfold streak. cbn. destruct (call_failed c.2); cbn [andb].
      * destruct (Z.leb_spec threshold ((longest_failures c.1 calls).1 + 1)); split; try lia; set_solver by lia.
      * split; [rewrite Hd; lia|done].
    + rewrite lookup_insert_ne by done. destruct (H2 hook) as [Hd' Hc']. split; [|done].
      destruct (_ && _); set_solver.
Qed.

(** A Lua hook is called until its scripts have failed [threshold] times in a row since
    the last reload, then no more until the next reload, which enables every hook again;
    hooks do not affect one another. *)
Theorem cold_hook_auto_disables threshold epoch calls hook :
  0 < threshold < 2 ^ 64 -> calls <> [] ->
  let st := run threshold epoch calls new_LuaHookState in
  (forall r, invoke_lua_cold_hook threshold hook (Some (epoch, r)) st
     = if threshold <=? (longest_failures hook calls).2 then (st, no_cold_outcome)
       else (after_call threshold hook r st, outcome_of r))
  /\ (forall epoch' r, epoch' <> epoch -> (invoke_lua_cold_hook threshold hook (Some (epoch', r)) st).2 = outcome_of r).
Proof.
  intros Ht Hne st. destruct (run_tracks threshold epoch calls Ht Hne) as [H1 H2]. fold st in H1, H2.
  destruct (H2 hook) as [Hd _]. unfold invoke_lua_cold_hook, before_call. split.
  - intros r. rewrite H1, Z.eqb_refl. destruct (Z.leb_spec threshold (longest_failures hook calls).2).
    + by rewrite bool_decide_true by (by apply Hd).
    + rewrite bool_decide_false; [done|]. rewrite Hd. lia.
  - intros epoch' r Hne'. rewrite H1. by rewrite (proj2 (Z.eqb_neq epoch' epoch)).
Qed.

End Cold.

(** ** The chain of plugins *)

Module Chain.
Import Native.

Lemma substring_length n m s : (String.length (String.substring n m s) <= m)%nat.
Proof.
  revert n m. induction s as [|c s IH]; intros n m; destruct n, m; cbn; try lia; [|apply (IH n 0%nat)|apply (IH n (S m))].
  specialize (IH 0%nat m). lia.
Qed.

Lemma clamp_length capacity b :
  0 < capacity -> Z.of_nat (String.length (clamp_and_assign capacity b)) <= capacity - 1.
Proof.
  intros Hc. unfold clamp_and_assign. destruct (Z.eqb_spec capacity 0); [lia|]. cbv zeta.
  pose proof (substring_length 0 (Z.to_nat (if capacity <=? b.(buf_size) then capacity - 1 else b.(buf_size)))
    (pad_right (Z.to_nat capacity) b.(buf_data))). destruct (Z.leb_spec capacity b.(buf_size)); lia.
Qed.

(** What one call to a plugin can answer. *)
Lemma call_on_chat_send_bounds slot sid room user txt :
  let r := call_on_chat_send slot sid room user txt in
  Z.of_nat (String.length r.(notice)) <= 511 /\ Z.of_nat (String.length r.(text)) <= 1023
  /\ (r.(had_error) = true -> r.(decision) = kPass) /\ (r.(executed) = false -> r = not_called).
Proof.
  unfold call_on_chat_send, call_entry.
  destruct slot.(slot_api) as [a|]; [|by split_and!]. destruct (fn_chat_send a) as [f|]; [|by split_and!].
  destruct (f sid room user txt) as [raw [b1 b2]|[b1 b2]]; cbn [fst snd notice text had_error decision executed].
  all: pose proof (clamp_length 512 b1 ltac:(lia)); pose proof (clamp_length 1024 b2 ltac:(lia)); split_and!; (lia || done).
Qed.

(** The chain is a composition: its first part runs first, on the text as it came, and the
    rest runs on the text the first part left, unless the first part stopped. *)
Lemma chat_send_loop_app pre post sid room user st :
  st.1.1.(stop_default) = false ->
  chat_send_loop (pre ++ post) sid room user st
  = let st' := chat_send_loop pre sid room user st in
    if st'.1.1.(stop_default) then st' else chat_send_loop post sid room user st'.
Proof.
  revert st. induction pre as [|slot pre IH]; intros [[out txt] m] Hs; cbn in Hs.
  { cbn. by rewrite Hs. }
  cbn [app chat_send_loop]. destruct (decision _) eqn:Hd; try done; by rewrite IH.
Qed.

(** Notices and texts that come from plugins are bounded by their buffers. *)
Definition bounded_state (txt0 : string) (st : Outcome * string * metrics) : Prop :=
  Forall (fun n => n <> EmptyString /\ Z.of_nat (String.length n) <= 511) st.1.1.(notices)
  /\ (st.1.2 = txt0 \/ (st.1.2 <> EmptyString /\ Z.of_nat (String.length st.1.2) <= 1023)).

Lemma chat_send_loop_bounded txt0 slots sid room user st :
  bounded_state txt0 st -> bounded_state txt0 (chat_send_loop slots sid room user st).
Proof.
  revert st. induction slots as [|slot slots IH]; intros [[out txt] m] [Hn Ht]; [done|]. cbn [chat_send_loop].
  pose proof (call_on_chat_send_bounds slot sid room user txt) as (H1 & H2 & _).
  set (r := call_on_chat_send _ _ _ _ _) in *. clearbody r. cbn [fst snd] in Hn, Ht.
  assert (Hout : Forall (fun n => n <> EmptyString /\ Z.of_nat (String.length n) <= 511) (add_notice r out).(notices)).
  { cbn. case_bool_decide; [done|]. apply Forall_app. split; [done|]. by repeat constructor. }
  destruct (decision r); try apply IH; split; try done. cbn. case_bool_decide; [done|]. right. done.
Qed.

Definition ends_chain (d : HookDecisionV2) : bool :=
  match d with kHandled | kBlock | kDeny => true | _ => false end.

Lemma chat_send_stops slots sid room user st :
  st.1.1.(stop_default) = false ->
  (chat_send_loop slots sid room user st).1.1.(stop_default) = true
  <-> exists pre slot post, slots = pre ++ slot :: post
        /\ (chat_send_loop pre sid room user st).1.1.(stop_default) = false
        /\ ends_chain (call_on_chat_send slot sid room user (chat_send_loop pre sid room user st).1.2).(decision) = true.
Proof.
  intros Hs. split.
  - induction slots as [|slot slots IH] using rev_ind; [cbn; congruence|].
    rewrite chat_send_loop_app by done. cbv zeta. destruct (stop_default (chat_send_loop slots _ _ _ st).1.1) eqn:E.
    + intros _. destruct (IH eq_refl) as (pre & x & post & -> & ?). exists pre, x, (post ++ [slot]). by rewrite <- app_assoc.
    + intros Hstop. exists slots, slot, []. split_and!; try done.
      destruct (chat_send_loop slots _ _ _ st) as [[out txt] m]. cbn in Hstop, E |- *.
      destruct (decision _); cbn in Hstop; congruence || done.
  - intros (pre & slot & post & -> & Hpre & Hend). rewrite chat_send_loop_app by done. cbv zeta. rewrite Hpre.
    destruct (chat_send_loop pre _ _ _ st) as [[out txt] m]. cbn in Hend |- *. by destruct (decision _).
Qed.

(** The plugins of the chain run in order, each on the text the previous ones left; the
    first that handles, blocks or denies ends the chain, and what follows has no effect; a
    plugin that throws neither ends the chain nor changes the text; notices and replaced
    texts never exceed the buffers of the host. *)
Theorem plugin_chain_sequential slots sid room user txt m :
  let '(out, txt', _) := on_chat_send slots sid room user txt m in
  (forall pre post, slots = pre ++ post ->
     let st := on_chat_send pre sid room user txt m in
     on_chat_send slots sid room user txt m
     = if st.1.1.(stop_default) then st else chat_send_loop post sid room user st)
  /\ (out.(stop_default) = true <-> exists pre slot post, slots = pre ++ slot :: post
        /\ (on_chat_send pre sid room user txt m).1.1.(stop_default) = false
        /\ ends_chain (call_on_chat_send slot sid room user (on_chat_send pre sid room user txt m).1.2).(decision) = true)
  /\ (forall slot out1 txt1 m1, (call_on_chat_send slot sid room user txt1).(had_error) = true ->
       (chat_send_loop [slot] sid room user (out1, txt1, m1)).1.1.(stop_default) = out1.(stop_default)
       /\ (chat_send_loop [slot] sid room user (out1, txt1, m1)).1.2 = txt1)
  /\ Forall (fun n => n <> EmptyString /\ Z.of_nat (String.length n) <= 511) out.(notices)
  /\ (txt' = txt \/ (txt' <> EmptyString /\ Z.of_nat (String.length txt') <= 1023)).
Proof.
  pose proof (chat_send_stops slots sid room user (no_outcome, txt, m) eq_refl) as Hstop.
  pose proof (chat_send_loop_bounded txt slots sid room user (no_outcome, txt, m)) as Hb.
  pose proof (fun pre post => chat_send_loop_app pre post sid room user (no_outcome, txt, m) eq_refl) as Happ.
  unfold on_chat_send in *. destruct (chat_send_loop slots sid room user (no_outcome, txt, m)) as [[out txt'] m'] eqn:E.
  cbn [fst snd] in Hstop, Hb. split_and!; [|done| |apply Hb; split; [constructor|by left]..].
  - intros pre post ->. by rewrite <- E, Happ.
  - intros slot out1 txt1 m1 Herr. cbn [chat_send_loop].
    destruct (call_on_chat_send_bounds slot sid room user txt1) as (_ & _ & Hp & _). by rewrite (Hp Herr).
Qed.

(** The cache of adapted tables is keyed by address and never cleared: a module loaded where
    an unloaded one was gets the functions of the old one. *)
Lemma stale_adapted_table addr old new cache :
  cache !! addr = None ->
  (adapt_v1_api_to_v2 addr new (adapt_v1_api_to_v2 addr old cache).1).2 = adapted old.
Proof. intros Hc. unfold adapt_v1_api_to_v2. rewrite Hc. cbn. by rewrite lookup_insert_eq. Qed.

End Chain.

(** ** Example: two failures, then a call that is not made *)

Definition failing_call : CallAllResult := mkCallAll 1 1 kPass EmptyString [] "runtime error" [mkScriptCall "s" true kOther].
Definition denying_call : CallAllResult := mkCallAll 1 0 kDeny "no" [] EmptyString [mkScriptCall "s" false kNone].

Lemma cold_hook_auto_disables_witness :
  let st := Cold.run 2 1 [("on_join", failing_call); ("on_leave", failing_call); ("on_join", failing_call)]%string
              Cold.new_LuaHookState in
  (Cold.invoke_lua_cold_hook 2 "on_join" (Some (1, denying_call)) st).2 = Cold.no_cold_outcome
  /\ (Cold.invoke_lua_cold_hook 2 "on_leave" (Some (1, denying_call)) st).2 = Cold.mkColdOutcome true "no" []
  /\ (Cold.invoke_lua_cold_hook 2 "on_join" (Some (2, denying_call)) st).2 = Cold.mkColdOutcome true "no" [].
Proof.
  intros st. set (calls := [("on_join", failing_call); ("on_leave", failing_call); ("on_join", failing_call)]%string) in st.
  assert (Hne : calls <> []) by done.
  destruct (Cold.cold_hook_auto_disables 2 1 calls "on_join" ltac:(lia) Hne) as [H1 H2].
  destruct (Cold.cold_hook_auto_disables 2 1 calls "on_leave" ltac:(lia) Hne) as [H3 _].
  fold st in H1, H2, H3. split; [|split].
  - rewrite H1. by vm_compute.
  - rewrite H3. by vm_compute.
  - by rewrite H2.
Defined.
