(* ===== verification/ChatState.v ===== *)
(** The state of the chat service, [server/chat/chat_service.hpp], and the programs its
    jobs are.

    [ChatService::State] is the record [State]: its tables keep the source's names and
    its groups (rooms, sessions, sanctions), a [Session*] is an integer, a set of weak
    references a finite set of them.  What [lock()] finds alive is an argument of every
    critical section.  A job of the worker queue is a program ([prog]): it enters
    critical sections of [State::mu], sends to sessions, and asks the world (clocks,
    random numbers, Redis, the database, plugins) for answers that may be exceptions.
    [chat_step] interleaves any number of jobs between these points; a new session may get
    the address of one that is gone, and [fresh_step] are the steps in which no table names
    that address any more. *)

From S2P Require Import Prelude Text.

(** ** Data *)

Abbreviation RoomSet := (gset Z).

Record TimedPenalty := mkTimedPenalty { expires_at : Z; reason : string }.

(** The settings an administrator changes at run time: [presence_.ttl], [history_] and
    the spam thresholds, members of the service beside [State]. *)
Record Settings := mkSettings {
  presence_ttl : Z;
  recent_limit : Z;
  max_list_len : Z;
  spam_message_threshold : Z;
  spam_window_sec : Z;
  spam_mute_sec : Z;
  spam_ban_sec : Z;
  spam_ban_violation_threshold : Z;
}.

Record RoomTables := mkRoomTables {
  rooms : gmap string RoomSet;
  room_ids : gmap string string;
  room_passwords : gmap string string;
  room_owners : gmap string string;
  room_invites : gmap string (gset string);
}.

Record SessionTables := mkSessionTables {
  user : gmap Z string;
  user_uuid : gmap Z string;
  session_uuid : gmap Z string;
  cur_room : gmap Z string;
  session_ip : gmap Z string;
  session_hwid_hash : gmap Z string;
  user_last_ip : gmap string string;
  user_last_hwid_hash : gmap string string;
  authed : gset Z;
  guest : gset Z;
  by_user : gmap string RoomSet;
  by_session_id : gmap Z Z;
}.

Record Moderation := mkModeration {
  muted_users : gmap string TimedPenalty;
  banned_users : gmap string TimedPenalty;
  banned_ips : gmap string Z;
  banned_hwid_hashes : gmap string Z;
  spam_events : gmap string (list Z);
  spam_violations : gmap string Z;
  user_blacklists : gmap string (gset string);
}.

Record State := mkState {
  room_tables : RoomTables;
  session_tables : SessionTables;
  moderation : Moderation;
  settings : Settings;
}.

Definition empty_State (cfg : Settings) : State :=
  mkState (mkRoomTables ∅ ∅ ∅ ∅ ∅) (mkSessionTables ∅ ∅ ∅ ∅ ∅ ∅ ∅ ∅ ∅ ∅ ∅ ∅)
    (mkModeration ∅ ∅ ∅ ∅ ∅ ∅ ∅) cfg.

Definition with_room_tables (f : RoomTables -> RoomTables) (s : State) : State :=
  mkState (f s.(room_tables)) s.(session_tables) s.(moderation) s.(settings).

Definition set_rooms (v : gmap string RoomSet) : State -> State :=
  with_room_tables (fun t =>
    mkRoomTables v t.(room_ids) t.(room_passwords) t.(room_owners) t.(room_invites)).

Definition set_room_ids (v : gmap string string) : State -> State :=
  with_room_tables (fun t =>
    mkRoomTables t.(rooms) v t.(room_passwords) t.(room_owners) t.(room_invites)).

Definition set_room_passwords (v : gmap string string) : State -> State :=
  with_room_tables (fun t =>
    mkRoomTables t.(rooms) t.(room_ids) v t.(room_owners) t.(room_invites)).

Definition set_room_owners (v : gmap string string) : State -> State :=
  with_room_tables (fun t =>
    mkRoomTables t.(rooms) t.(room_ids) t.(room_passwords) v t.(room_invites)).

Definition set_room_invites (v : gmap string (gset string)) : State -> State :=
  with_room_tables (fun t =>
    mkRoomTables t.(rooms) t.(room_ids) t.(room_passwords) t.(room_owners) v).

Definition with_session_tables (f : SessionTables -> SessionTables) (s : State) : State :=
  mkState s.(room_tables) (f s.(session_tables)) s.(moderation) s.(settings).

Definition set_user (v : gmap Z string) : State -> State :=
  with_session_tables (fun t =>
    mkSessionTables v t.(user_uuid) t.(session_uuid) t.(cur_room) t.(session_ip)
    t.(session_hwid_hash) t.(user_last_ip) t.(user_last_hwid_hash) t.(authed) t.(guest)
    t.(by_user) t.(by_session_id)).

Definition set_user_uuid (v : gmap Z string) : State -> State :=
  with_session_tables (fun t =>
    mkSessionTables t.(user) v t.(session_uuid) t.(cur_room) t.(session_ip)
    t.(session_hwid_hash) t.(user_last_ip) t.(user_last_hwid_hash) t.(authed) t.(guest)
    t.(by_user) t.(by_session_id)).

Definition set_session_uuid (v : gmap Z string) : State -> State :=
  with_session_tables (fun t =>
    mkSessionTables t.(user) t.(user_uuid) v t.(cur_room) t.(session_ip) t.(session_hwid_hash)
    t.(user_last_ip) t.(user_last_hwid_hash) t.(authed) t.(guest) t.(by_user) t.(by_session_id)).

Definition set_cur_room (v : gmap Z string) : State -> State :=
  with_session_tables (fun t =>
    mkSessionTables t.(user) t.(user_uuid) t.(session_uuid) v t.(session_ip)
    t.(session_hwid_hash) t.(user_last_ip) t.(user_last_hwid_hash) t.(authed) t.(guest)
    t.(by_user) t.(by_session_id)).

Definition set_session_ip (v : gmap Z string) : State -> State :=
  with_session_tables (fun t =>
    mkSessionTables t.(user) t.(user_uuid) t.(session_uuid) t.(cur_room) v t.(session_hwid_hash)
    t.(user_last_ip) t.(user_last_hwid_hash) t.(authed) t.(guest) t.(by_user) t.(by_session_id)).

Definition set_session_hwid_hash (v : gmap Z string) : State -> State :=
  with_session_tables (fun t =>
    mkSessionTables t.(user) t.(user_uuid) t.(session_uuid) t.(cur_room) t.(session_ip) v
    t.(user_last_ip) t.(user_last_hwid_hash) t.(authed) t.(guest) t.(by_user) t.(by_session_id)).

Definition set_user_last_ip (v : gmap string string) : State -> State :=
  with_session_tables (fun t =>
    mkSessionTables t.(user) t.(user_uuid) t.(session_uuid) t.(cur_room) t.(session_ip)
    t.(session_hwid_hash) v t.(user_last_hwid_hash) t.(authed) t.(guest) t.(by_user)
    t.(by_session_id)).

Definition set_user_last_hwid_hash (v : gmap string string) : State -> State :=
  with_session_tables (fun t =>
    mkSessionTables t.(user) t.(user_uuid) t.(session_uuid) t.(cur_room) t.(session_ip)
    t.(session_hwid_hash) t.(user_last_ip) v t.(authed) t.(guest) t.(by_user) t.(by_session_id)).

Definition set_authed (v : gset Z) : State -> State :=
  with_session_tables (fun t =>
    mkSessionTables t.(user) t.(user_uuid) t.(session_uuid) t.(cur_room) t.(session_ip)
    t.(session_hwid_hash) t.(user_last_ip) t.(user_last_hwid_hash) v t.(guest) t.(by_user)
    t.(by_session_id)).

Definition set_guest (v : gset Z) : State -> State :=
  with_session_tables (fun t =>
    mkSessionTables t.(user) t.(user_uuid) t.(session_uuid) t.(cur_room) t.(session_ip)
    t.(session_hwid_hash) t.(user_last_ip) t.(user_last_hwid_hash) t.(authed) v t.(by_user)
    t.(by_session_id)).

Definition set_by_user (v : gmap string RoomSet) : State -> State :=
  with_session_tables (fun t =>
    mkSessionTables t.(user) t.(user_uuid) t.(session_uuid) t.(cur_room) t.(session_ip)
    t.(session_hwid_hash) t.(user_last_ip) t.(user_last_hwid_hash) t.(authed) t.(guest) v
    t.(by_session_id)).

Definition set_by_session_id (v : gmap Z Z) : State -> State :=
  with_session_tables (fun t =>
    mkSessionTables t.(user) t.(user_uuid) t.(session_uuid) t.(cur_room) t.(session_ip)
    t.(session_hwid_hash) t.(user_last_ip) t.(user_last_hwid_hash) t.(authed) t.(guest)
    t.(by_user) v).

Definition with_moderation (f : Moderation -> Moderation) (s : State) : State :=
  mkState s.(room_tables) s.(session_tables) (f s.(moderation)) s.(settings).

Definition set_muted_users (v : gmap string TimedPenalty) : State -> State :=
  with_moderation (fun t =>
    mkModeration v t.(banned_users) t.(banned_ips) t.(banned_hwid_hashes) t.(spam_events)
    t.(spam_violations) t.(user_blacklists)).

Definition set_banned_users (v : gmap string TimedPenalty) : State -> State :=
  with_moderation (fun t =>
    mkModeration t.(muted_users) v t.(banned_ips) t.(banned_hwid_hashes) t.(spam_events)
    t.(spam_violations) t.(user_blacklists)).

Definition set_banned_ips (v : gmap string Z) : State -> State :=
  with_moderation (fun t =>
    mkModeration t.(muted_users) t.(banned_users) v t.(banned_hwid_hashes) t.(spam_events)
    t.(spam_violations) t.(user_blacklists)).

Definition set_banned_hwid_hashes (v : gmap string Z) : State -> State :=
  with_moderation (fun t =>
    mkModeration t.(muted_users) t.(banned_users) t.(banned_ips) v t.(spam_events)
    t.(spam_violations) t.(user_blacklists)).

Definition set_spam_events (v : gmap string (list Z)) : State -> State :=
  with_moderation (fun t =>
    mkModeration t.(muted_users) t.(banned_users) t.(banned_ips) t.(banned_hwid_hashes) v
    t.(spam_violations) t.(user_blacklists)).

Definition set_spam_violations (v : gmap string Z) : State -> State :=
  with_moderation (fun t =>
    mkModeration t.(muted_users) t.(banned_users) t.(banned_ips) t.(banned_hwid_hashes)
    t.(spam_events) v t.(user_blacklists)).

Definition set_user_blacklists (v : gmap string (gset string)) : State -> State :=
  with_moderation (fun t =>
    mkModeration t.(muted_users) t.(banned_users) t.(banned_ips) t.(banned_hwid_hashes)
    t.(spam_events) t.(spam_violations) v).
Definition set_settings (v : Settings) (s : State) : State :=
  mkState s.(room_tables) s.(session_tables) s.(moderation) v.

(** ** What the service sends *)

Record SnapshotMessage := mkSnapshotMessage {
  msg_id : Z;
  msg_sender : string;
  msg_text : string;
  msg_ts_ms : Z;
}.

Record RoomInfo := mkRoomInfo { name : string; count : Z; is_locked : bool }.

Inductive Msg :=
  | ChatBroadcast (room sender text : string) (sender_sid ts_ms : Z)
  | LoginRes (effective_user : string) (sid : Z) (message : string) (is_admin : bool)
  | WhisperNotice (sender recipient text : string) (ts_ms : Z) (outgoing : bool)
  | WhisperResult (ok : bool) (why : string)
  | RoomUsers (room : string) (users : list string)
  | StateSnapshot (current_room : string) (infos : list RoomInfo) (users : list string)
      (messages : list SnapshotMessage) (last_seen_id : Z) (your_name : string)
  | RefreshNotify.

(** [async_send], [send_error], [stop] and [set_session_status] of a session. *)
Inductive Out :=
  | Send (s : Z) (m : Msg) (flags : Z)
  | SendError (s : Z) (code : Z) (text : string)
  | Stop (s : Z)
  | Authenticated (s : Z).

(** ** Questions to the world *)

(** The result of a call that may throw. *)
Inductive res (A : Set) : Set := Val (a : A) | Exn.
Arguments Val {A} a.
Arguments Exn {A}.

(** The outcome of a plugin chain or of a Lua cold hook. *)
Record HookOutcome := mkHookOutcome {
  notices : list string;
  stop_default : bool;
  deny_reason : string;
}.

Definition hook_pass : HookOutcome := mkHookOutcome [] false EmptyString.

(** Answers of Redis commands carry the [bool] of the client's interface, [None] standing
    for [false] where the command has a result besides.  [HooksQ] asks for the behaviour
    of the hooks of a name on a user and a room, native chain (absent without plugins)
    and Lua: a hook may run while the lock is held, so that a section applies it. *)
Inductive query : Set -> Set :=
  | NowQ : query Z
  | WallMsQ : query Z
  | RngQ : query Z
  | TraceQ : query (string * string)
  | HooksQ (hook : string) : query (string -> string -> option HookOutcome * HookOutcome)
  | ChatHookQ (s : Z) (room sender text : string) : query (option (HookOutcome * string))
  | RedisGet (key : string) : query (res (option string))
  | RedisSetEx (key value : string) (ttl : Z) : query (res bool)
  | RedisDel (key : string) : query (res bool)
  | RedisSAdd (key member : string) : query (res bool)
  | RedisSRem (key member : string) : query (res bool)
  | RedisSCard (key : string) : query (res (option Z))
  | RedisSMembers (key : string) : query (res (option (list string)))
  | RedisMGet (keys : list string) : query (res (option (list (option string))))
  | RedisSCardMany (keys : list string) : query (res (option (list Z)))
  | RedisLRange (key : string) (start stop : Z) : query (res (option (list string)))
  | RedisLPushTrim (key value : string) (maxlen : Z) : query (res bool)
  | RedisPublish (channel message : string) (payload : option Msg) : query (res bool)
  | RedisXAdd (stream : string) (fields : list (string * string)) : query (res bool)
  | DbBegin : query (res unit)
  | DbCommit : query (res unit)
  | DbFindUser (user_name : string) : query (res (option string))
  | DbCreateGuest (user_name : string) : query (res string)
  | DbUpdateLastLogin (uid ip : string) : query (res unit)
  | DbCreateMessage (rid room : string) (uid : option string) (text : string) : query (res Z)
  | DbFindRoom (room : string) : query (res (option string))
  | DbCreateRoom (room : string) : query (res string)
  | DbCloseRoom (rid : string) : query (res unit)
  | DbUpsertJoin (uid rid : string) : query (res unit)
  | DbGetLastId (rid : string) : query (res Z)
  | DbGetLastSeen (uid rid : string) : query (res (option Z))
  | DbUpdateLastSeen (uid rid : string) (id : Z) : query (res unit)
  | DbFetchRecent (rid : string) (since limit : Z)
    : query (res (list (Z * option string * string * Z))).

(** ** Jobs *)

(** [Crit f]: a critical section; [f] gets the live sessions and the state and yields the
    new state, what is sent while the lock is held, and a result. *)
Inductive prog (A : Type) : Type :=
  | Ret (a : A)
  | Raise
  | Crit (R : Set) (f : gset Z -> State -> State * list Out * R) (k : R -> prog A)
  | Emit (os : list Out) (k : prog A)
  | Ask (R : Set) (q : query R) (k : R -> prog A).
Arguments Ret {A} a.
Arguments Raise {A}.
Arguments Crit {A R} f k.
Arguments Emit {A} os k.
Arguments Ask {A R} q k.

Fixpoint bind {A B} (f : A -> prog B) (p : prog A) : prog B :=
  match p with
  | Ret a => f a
  | Raise => Raise
  | Crit c k => Crit c (fun r => bind f (k r))
  | Emit os k => Emit os (bind f k)
  | Ask q k => Ask q (fun r => bind f (k r))
  end.

#[export] Instance prog_ret : MRet prog := @Ret.
#[export] Instance prog_bind : MBind prog := @bind.

(** [try { p } catch (...) { handler }]. *)
Fixpoint try_catch {A} (p handler : prog A) : prog A :=
  match p with
  | Ret a => Ret a
  | Raise => handler
  | Crit c k => Crit c (fun r => try_catch (k r) handler)
  | Emit os k => Emit os (try_catch k handler)
  | Ask q k => Ask q (fun r => try_catch (k r) handler)
  end.

Definition crit {R : Set} (f : gset Z -> State -> State * list Out * R) : prog R := Crit f Ret.
Definition reads {R : Set} (f : State -> R) : prog R := Crit (fun _ s => (s, [], f s)) Ret.
Definition emit (os : list Out) : prog unit := Emit os (Ret tt).
Definition ask {R : Set} (q : query R) : prog R := Ask q Ret.
Definition call {R : Set} (q : query (res R)) : prog R :=
  Ask q (fun r => match r with Val a => Ret a | Exn => Raise end).
Definition when (b : bool) (p : prog unit) : prog unit := if b then p else Ret tt.

#[global] Instance res_inhabited {A : Set} : Inhabited (res A) := populate Exn.

(** ** Interleaving *)

Record Config := mkConfig {
  cstate : State;
  calive : gset Z;
  cthreads : list (prog unit);
  ctrace : list Out;
}.

Inductive thread_step (al : gset Z) : State -> prog unit -> State -> list Out -> prog unit -> Prop :=
  | TCrit (R : Set) (f : gset Z -> State -> State * list Out * R) k s s' os r :
      f al s = (s', os, r) -> thread_step al s (Crit f k) s' os (k r)
  | TEmit os k s : thread_step al s (Emit os k) s os k
  | TAsk (R : Set) (q : query R) k s (r : R) : thread_step al s (Ask q k) s [] (k r).

(** No table names the address: neither the raw pointers nor the weak references. *)
Definition unknown (x : Z) (s : State) : Prop :=
  s.(session_tables).(user) !! x = None /\ s.(session_tables).(cur_room) !! x = None
  /\ (x ∉ s.(session_tables).(authed)) /\ (x ∉ s.(session_tables).(guest))
  /\ (forall r X, s.(room_tables).(rooms) !! r = Some X -> x ∉ X)
  /\ (forall n X, s.(session_tables).(by_user) !! n = Some X -> x ∉ X).

(** The allocator may give a new session the address of a destroyed one.  The tables keyed
    by raw pointers ([user], [cur_room], [authed], [guest], ...) then take the new session
    for the old; the weak references to the old one stay expired, since they compare and
    lock by their control block: the integer [g] stands for it from then on. *)
Definition expired_as (x g : Z) (X : RoomSet) : RoomSet :=
  if bool_decide (x ∈ X) then {[g]} ∪ X ∖ {[x]} else X.

Definition reuse_address (x g : Z) (s : State) : State :=
  set_by_session_id ((fun y => if y =? x then g else y) <$> s.(session_tables).(by_session_id))
    (set_by_user (expired_as x g <$> s.(session_tables).(by_user))
      (set_rooms (expired_as x g <$> s.(room_tables).(rooms)) s)).

(** [job] says which programs the dispatcher may submit.  A session is created at any
    address no live session has, also one that tables still name; it is destroyed at any
    time. *)
Inductive chat_step (job : prog unit -> Prop) : Config -> Config -> Prop :=
  | StepThread s al pre p post tr s' os p' :
      thread_step al s p s' os p' ->
      chat_step job (mkConfig s al (pre ++ p :: post) tr)
        (mkConfig s' al (pre ++ p' :: post) (tr ++ os))
  | StepSubmit s al ts tr p :
      job p -> chat_step job (mkConfig s al ts tr) (mkConfig s al (ts ++ [p]) tr)
  | StepCreate s al ts tr x g :
      x ∉ al -> g ∉ {[x]} ∪ al -> unknown g s ->
      chat_step job (mkConfig s al ts tr) (mkConfig (reuse_address x g s) ({[x]} ∪ al) ts tr)
  | StepDestroy s al ts tr x :
      chat_step job (mkConfig s al ts tr) (mkConfig s (al ∖ {[x]}) ts tr).

(** The steps in which a new session gets an address no table names.  Nothing in the code
    ensures it: see [reused_address_is_logged_in]. *)
Definition fresh_step (job : prog unit -> Prop) (c c' : Config) : Prop :=
  chat_step job c c'
  /\ forall x, x ∈ c'.(calive) -> x ∉ c.(calive) -> unknown x c.(cstate).

Definition initial_config (cfg : Settings) : Config := mkConfig (empty_State cfg) ∅ [] [].

(** ** Execution *)

Section exec.
  Context {W : Type} (world : forall R : Set, query R -> W -> R * W).

Fixpoint exec {A} (al : gset Z) (p : prog A) (s : State) (w : W) : State * W * list Out * option A :=
  match p with
  | Ret a => (s, w, [], Some a)
  | Raise => (s, w, [], None)
  | Crit f k =>
      let '(s', os, r) := f al s in
      let '(s'', w', os', a) := exec al (k r) s' w in (s'', w', os ++ os', a)
  | Emit os k => let '(s', w', os', a) := exec al k s w in (s', w', os ++ os', a)
  | Ask q k => let (r, w') := world _ q w in exec al (k r) s w'
  end.

(** One step of a thread. *)
Definition exec1 (al : gset Z) (p : prog unit) (s : State) (w : W) : State * W * list Out * prog unit :=
  match p with
  | Ret a => (s, w, [], Ret a)
  | Raise => (s, w, [], Raise)
  | Crit f k => let '(s', os, r) := f al s in (s', w, os, k r)
  | Emit os k => (s, w, os, k)
  | Ask q k => let (r, w') := world _ q w in (s, w', [], k r)
  end.

(** The threads named by the schedule take one step each, in its order. *)
Fixpoint run_threads (sched : list nat) (c : Config) (w : W) : Config * W :=
  match sched with
  | [] => (c, w)
  | i :: sched' =>
      match c.(cthreads) !! i with
      | Some p =>
          let '(s', w', os, p') := exec1 c.(calive) p c.(cstate) w in
          run_threads sched' (mkConfig s' c.(calive) (<[i := p']> c.(cthreads)) (c.(ctrace) ++ os)) w'
      | None => run_threads sched' c w
      end
  end.
End exec.
