(* ===== verification/ChatCore.v ===== *)
(** The routines of [server/src/chat/chat_service_core.cpp] that the handlers of the chat
    service share: names and identifiers, weak sets, refresh notifications, room lists,
    user lists, the snapshot of a room with its recent history, whispers.

    [ChatEnv] collects what a service instance is built with and what lies outside the
    sources: configuration, the order in which a container is traversed, the digest of
    OpenSSL, the hash of the C++ library, protobuf coding of cached messages. *)

From S2P Require Import Prelude Text ProtocolErrors ChatText ChatState.

Class ChatEnv := {
  (* [std::set] of weak references is ordered by control block, [unordered_map] by hash *)
  weak_order : gset Z -> list Z;
  weak_order_perm X : weak_order X ≡ₚ elements X;
  table_order : gmap string RoomSet -> list (string * RoomSet);
  table_order_perm M : table_order M ≡ₚ map_to_list M;
  session_id : Z -> Z;
  remote_ip : Z -> string;
  redis_ : bool;
  db_pool_ : bool;
  redis_pubsub_enabled_ : bool;
  gateway_id_ : string;
  presence_prefix : string;
  admin_users_ : gset string;
  wb_enabled : bool;
  stream_key : string;
  fetch_factor : Z;
  cache_ttl_sec : Z;
  sha256 : string -> option (list Z);
  std_hash : string -> Z;
  serialize_message : SnapshotMessage -> option string;
  parse_message : string -> option SnapshotMessage;
}.

Section core.
  Context `{!ChatEnv}.

(** ** Passwords and devices *)

Definition sha256_hex (input : string) : string :=
  match sha256 input with
  | None => EmptyString
  | Some digest => String.concat EmptyString (hex_byte <$> digest)
  end.

Definition kRoomPasswordHashPrefix : string := "sha256:".

Definition legacy_hash_room_password (password : string) : string := hex_u64 (std_hash password).

Definition has_room_password_hash_prefix (value : string) : bool :=
  String.prefix kRoomPasswordHashPrefix value.

Definition hash_room_password (password : string) : string :=
  let digest := sha256_hex password in
  if bool_decide (digest = EmptyString) then EmptyString
  else String.append kRoomPasswordHashPrefix digest.

Definition hash_hwid_token (token : string) : string :=
  if bool_decide (token = EmptyString) then EmptyString
  else let digest := sha256_hex token in
       if bool_decide (digest = EmptyString) then EmptyString else String.append "hwid:" digest.

Definition verify_room_password (password stored_hash : string) : bool :=
  if bool_decide (stored_hash = EmptyString) then false
  else if has_room_password_hash_prefix stored_hash
  then bool_decide (hash_room_password password = stored_hash)
  else bool_decide (legacy_hash_room_password password = stored_hash).

Definition is_modern_room_password_hash (stored_hash : string) : bool :=
  has_room_password_hash_prefix stored_hash.

(** ** Weak sets *)

(** [collect_room_sessions]: what remains of the set, and the sessions it finds. *)
Definition collect_room_sessions (al X : gset Z) : gset Z * list Z :=
  (X ∩ al, filter (fun p => p ∈ al) (weak_order X)).

(** [state_.rooms.find(room)] followed by [collect_room_sessions]. *)
Definition collect_room (al : gset Z) (room : string) (s : State) : State * list Z :=
  match s.(room_tables).(rooms) !! room with
  | None => (s, [])
  | Some X =>
      let '(X', out) := collect_room_sessions al X in
      (set_rooms (<[room := X']> s.(room_tables).(rooms)) s, out)
  end.

(** The same loop over [state_.by_user]. *)
Definition collect_user (al : gset Z) (u : string) (s : State) : State * list Z :=
  match s.(session_tables).(by_user) !! u with
  | None => (s, [])
  | Some X =>
      let '(X', out) := collect_room_sessions al X in
      (set_by_user (<[u := X']> s.(session_tables).(by_user)) s, out)
  end.

(** The receivers that have a name and have not blocked the sender. *)
Definition has_blocked (s : State) (receiver sender : string) : bool :=
  match s.(moderation).(user_blacklists) !! receiver with
  | Some B => bool_decide (sender ∈ B)
  | None => false
  end.

Definition accepts (s : State) (sender : string) (target : Z) : bool :=
  match s.(session_tables).(user) !! target with
  | None => false
  | Some receiver => negb (has_blocked s receiver sender)
  end.

Definition filter_targets (s : State) (sender : string) (targets : list Z) : list Z :=
  filter (fun t => accepts s sender t = true) targets.

(** The search for a new owner among the sessions of a room. *)
Fixpoint elect_owner (al : gset Z) (s : State) (members : list Z) (new_owner : string) : string :=
  match members with
  | [] => new_owner
  | m :: rest =>
      if decide (m ∈ al) then
        match s.(session_tables).(user) !! m with
        | Some u => if bool_decide (u <> "guest"%string) then u else elect_owner al s rest u
        | None => elect_owner al s rest new_owner
        end
      else elect_owner al s rest new_owner
  end.

Definition name_or_guest (s : State) (x : Z) : string :=
  default "guest"%string (s.(session_tables).(user) !! x).

Definition uuid_of (s : State) (x : Z) : string :=
  default EmptyString (s.(session_tables).(user_uuid) !! x).

(** ** Sending *)

Definition send_system_notice (x : Z) (text : string) : prog unit :=
  ts ← ask WallMsQ;
  emit [Send x (ChatBroadcast "(system)" "(system)" text 0 ts) 0].

Definition send_whisper_result (x : Z) (ok : bool) (why : string) : prog unit :=
  emit [Send x (WhisperResult ok why) 0].

Definition broadcast_refresh_local (room : string) : prog unit :=
  targets ← crit (fun al s => let '(s, out) := collect_room al room s in (s, [], out));
  emit ((fun t => Send t RefreshNotify 0) <$> targets).

Definition broadcast_refresh (room : string) : prog unit :=
  broadcast_refresh_local room;;
  when (redis_ && redis_pubsub_enabled_)
    (try_catch
       (_ ← call (RedisPublish (String.append presence_prefix (String.append "fanout:refresh:" room))
                    (String.append "gw=" gateway_id_) None);
        mret tt)
       (mret tt)).

(** ** Identifiers *)

Definition get_or_create_session_uuid (x : Z) : prog string :=
  r0 ← ask RngQ;
  r1 ← ask RngQ;
  crit (fun _ s =>
    let fresh := generate_uuid_v4 r0 r1 in
    let created := (set_session_uuid (<[x := fresh]> s.(session_tables).(session_uuid)) s, [], fresh) in
    match s.(session_tables).(session_uuid) !! x with
    | Some id => if bool_decide (id <> EmptyString) then (s, [], id) else created
    | None => created
    end).

Definition make_presence_key (category id : string) : string :=
  String.append presence_prefix (String.append category id).

Definition touch_user_presence (uid : string) : prog unit :=
  if negb redis_ || bool_decide (uid = EmptyString) then mret tt
  else
    ttl ← reads (fun s => s.(settings).(presence_ttl));
    _ ← call (RedisSetEx (make_presence_key "presence:user:" uid) "1" ttl);
    mret tt.

(** [wit->lock()] until a live session is found: what remains, and whether one was. *)
Fixpoint any_live (al : gset Z) (order : list Z) (X : gset Z) : gset Z * bool :=
  match order with
  | [] => (X, false)
  | p :: rest => if decide (p ∈ al) then (X, true) else any_live al rest (X ∖ {[p]})
  end.

(** The first of four generated names that no session uses, or a fifth unchecked. *)
Fixpoint first_free (s : State) (candidates : list string) (last : string) : string :=
  match candidates with
  | [] => last
  | c :: rest =>
      match s.(session_tables).(by_user) !! c with
      | None => c
      | Some X => if decide (X = ∅) then c else first_free s rest last
      end
  end.

Definition ensure_unique_section (x : Z) (desired : string) (names : list string) (last : string)
    (al : gset Z) (s : State) : State * list Out * string :=
  if bool_decide (desired <> EmptyString) && bool_decide (desired <> "guest"%string) then
    match s.(session_tables).(by_user) !! desired with
    | None => (s, [], desired)
    | Some X =>
        let '(X', taken) := any_live al (weak_order X) X in
        let s := set_by_user (<[desired := X']> s.(session_tables).(by_user)) s in
        if taken : bool then (s, [SendError x NAME_TAKEN "name taken"], EmptyString)
        else (s, [], desired)
    end
  else (s, [], first_free s names last).

Definition ensure_unique_or_error (x : Z) (desired : string) : prog string :=
  r0 ← ask RngQ; r1 ← ask RngQ; r2 ← ask RngQ; r3 ← ask RngQ; r4 ← ask RngQ;
  crit (ensure_unique_section x desired (gen_temp_name_uuid8 <$> [r0; r1; r2; r3])
          (gen_temp_name_uuid8 r4)).

(** [ensure_room_id_ci]; any exception of the database gives the empty string. *)
Definition ensure_room_id_ci (room_name : string) : prog string :=
  if negb db_pool_ then mret EmptyString
  else
    cached ← reads (fun s => s.(room_tables).(room_ids) !! room_name);
    match cached with
    | Some id => mret id
    | None =>
        try_catch
          (_ ← call DbBegin;
           found ← call (DbFindRoom room_name);
           id ← (match found with Some id => mret id | None => call (DbCreateRoom room_name) end : prog string);
           _ ← call DbCommit;
           _ ← crit (fun _ s =>
             (match s.(room_tables).(room_ids) !! room_name with
              | Some _ => s
              | None => set_room_ids (<[room_name := id]> s.(room_tables).(room_ids)) s
              end, [], tt));
           mret id)
          (mret EmptyString)
    end.

(** [emit_write_behind_event]. *)
Definition write_behind_enabled : bool := wb_enabled && redis_.

Definition opt_field (k : string) (v : option string) : list (string * string) :=
  match v with
  | Some x => if bool_decide (x <> EmptyString) then [(k, x)] else []
  | None => []
  end.

Definition emit_write_behind_event (type sid : string) (user_id room_id : option string)
    (extra_fields : list (string * string)) : prog unit :=
  if negb write_behind_enabled || bool_decide (type = EmptyString) || bool_decide (sid = EmptyString)
  then mret tt
  else
    now_ms ← ask WallMsQ;
    '(trace_id, correlation_id) ← ask TraceQ;
    let fields :=
      [("type", type); ("ts_ms", pretty now_ms); ("session_id", sid)]%string
      ++ opt_field "user_id" user_id ++ opt_field "room_id" room_id
      ++ opt_field "gateway_id" (Some gateway_id_)
      ++ opt_field "trace_id" (Some trace_id) ++ opt_field "correlation_id" (Some correlation_id)
      ++ filter (fun kv => kv.1 <> EmptyString /\ kv.2 <> EmptyString) extra_fields in
    _ ← call (RedisXAdd stream_key fields);
    mret tt.

Definition nonempty (v : string) : option string :=
  if bool_decide (v <> EmptyString) then Some v else None.

End core.
