(* ===== verification/ChatViews.v ===== *)
(** What the chat service shows a session: the list of rooms, the users of a room, the
    snapshot of a room with its recent history, merged from the Redis cache and the
    database ([chat_service_core.cpp]). *)

From S2P Require Import Prelude Text ChatText ChatState ChatCore.

Section views.
  Context `{!ChatEnv}.

(** ** The rooms *)

Definition users_key (r : string) : string := String.append "room:users:" r.
Definition password_key (r : string) : string := String.append "room:password:" r.

(** The number of users of a room by [scard], else by the members. *)
Definition count_users (key : string) : prog Z :=
  n ← call (RedisSCard key);
  match n with
  | Some n => mret n
  | None => users ← call (RedisSMembers key); mret (zlen (default [] users))
  end.

Fixpoint redis_room_infos (active : list string) (passwords : option (list (option string)))
    (counts : option (list Z)) (i : nat) : prog (list RoomInfo) :=
  match active with
  | [] => mret []
  | r :: rest =>
      n ← (match counts with
           | Some cs => mret (default 0 (cs !! i))
           | None => count_users (users_key r)
           end : prog Z);
      locked ← (match passwords with
                | Some ps => mret (bool_decide (is_Some (mjoin (ps !! i))))
                | None => pw ← call (RedisGet (password_key r)); mret (bool_decide (is_Some pw))
                end : prog bool);
      infos ← redis_room_infos rest passwords counts (S i);
      mret (mkRoomInfo r n locked :: infos)
  end.

(** A batch whose answer has the wrong length is not used. *)
Definition batch {A} (n : nat) (ans : option (list A)) : option (list A) :=
  match ans with Some l => if Nat.eqb (length l) n then Some l else None | None => None end.

(** Lines shared by [send_rooms_list] and [send_snapshot]: the rooms Redis knows. *)
Definition load_redis_rooms : prog (list RoomInfo) :=
  active ← call (RedisSMembers "rooms:active");
  let active := default [] active in
  let n := length active in
  passwords ← (if Nat.eqb n 0 then mret None
               else ans ← call (RedisMGet (password_key <$> active)); mret (batch n ans)
               : prog (option (list (option string))));
  counts ← (if Nat.eqb n 0 then mret None
            else ans ← call (RedisSCardMany (users_key <$> active)); mret (batch n ans)
            : prog (option (list Z)));
  infos ← redis_room_infos active passwords counts 0;
  if bool_decide ("lobby"%string ∈ active) then mret infos
  else n ← count_users (users_key "lobby"); mret (infos ++ [mkRoomInfo "lobby" n false]).

(** The local clean-up of both: expired members go, then empty rooms but the lobby, with
    their passwords. *)
Definition purge_rooms (al : gset Z) (s : State) : State :=
  let live : gmap string RoomSet := (fun X => X ∩ al) <$> s.(room_tables).(rooms) in
  let keep := filter (fun kv : string * RoomSet => kv.2 <> ∅ \/ kv.1 = "lobby"%string) live in
  let gone := filter (fun kv : string * RoomSet => ~ (kv.2 <> ∅ \/ kv.1 = "lobby"%string)) live in
  set_room_passwords
    (filter (fun kv : string * string => gone !! kv.1 = None) s.(room_tables).(room_passwords))
    (set_rooms keep s).

(** The entries shown: Redis' rooms, locked also by a local password, else the local ones. *)
Definition room_infos (redis_rooms : option (list RoomInfo)) (s : State) : list RoomInfo :=
  let has_password r := bool_decide (is_Some (s.(room_tables).(room_passwords) !! r)) in
  match redis_rooms with
  | Some infos => (fun i => mkRoomInfo i.(name) i.(count) (i.(is_locked) || has_password i.(name))) <$> infos
  | None => (fun kv : string * RoomSet => mkRoomInfo kv.1 (Z.of_nat (size kv.2)) (has_password kv.1))
              <$> table_order s.(room_tables).(rooms)
  end.

Definition show_room (i : RoomInfo) : string :=
  let display := if i.(is_locked) then String.append "🔒" i.(name) else i.(name) in
  String.append " " (String.append display (String.append "(" (String.append (pretty i.(count)) ")"))).

Definition send_rooms_list (x : Z) : prog unit :=
  redis_rooms ← (if redis_ then infos ← load_redis_rooms; mret (Some infos) else mret None
                 : prog (option (list RoomInfo)));
  infos ← crit (fun al s => let s := purge_rooms al s in (s, [], room_infos redis_rooms s));
  ts ← ask WallMsQ;
  let msg := foldl String.append "rooms:"%string (show_room <$> infos) in
  emit [Send x (ChatBroadcast "(system)" "(system)" msg 0 ts) 0].

(** ** The users of a room *)

(** The search for the session itself, which stops there. *)
Fixpoint member_scan (al : gset Z) (x : Z) (order : list Z) (X : gset Z) : gset Z * bool :=
  match order with
  | [] => (X, false)
  | p :: rest =>
      if decide (p ∈ al) then if decide (p = x) then (X, true) else member_scan al x rest X
      else member_scan al x rest (X ∖ {[p]})
  end.

Definition room_users_section (x : Z) (target : string) (al : gset Z) (s : State)
    : State * list Out * (bool * string) :=
  let locked := bool_decide (is_Some (s.(room_tables).(room_passwords) !! target)) in
  let '(s, member) :=
    match s.(room_tables).(rooms) !! target with
    | None => (s, false)
    | Some X => let '(X', m) := member_scan al x (weak_order X) X in
                (set_rooms (<[target := X']> s.(room_tables).(rooms)) s, m)
    end in
  (s, [], (negb (locked && negb member), default EmptyString (s.(session_tables).(user) !! x))).

Definition local_names (room : string) : prog (list string) :=
  crit (fun al s => let '(s, out) := collect_room al room s in (s, [], map (name_or_guest s) out)).

Definition blocked_of (s : State) (viewer : string) : gset string :=
  default ∅ (s.(moderation).(user_blacklists) !! viewer).

Definition send_room_users (x : Z) (target : string) : prog unit :=
  '(allow, viewer) ← crit (room_users_section x target);
  if negb allow then send_system_notice x "room is locked"
  else
    names ← (if redis_ then ans ← call (RedisSMembers (users_key target)); mret (default [] ans)
             else mret [] : prog (list string));
    names ← (match names with [] => local_names target | _ => mret names end : prog (list string));
    blocked ← reads (fun s => blocked_of s viewer);
    emit [Send x (RoomUsers target (filter (fun n => n ∉ blocked) names)) 0].

(** ** Recent history *)

Definition make_recent_list_key (rid : string) : string :=
  String.append "room:" (String.append rid ":recent").
Definition make_recent_message_key (id : Z) : string := String.append "msg:" (pretty id).

Definition cache_recent_message (rid : string) (m : SnapshotMessage) : prog bool :=
  if negb redis_ || bool_decide (rid = EmptyString) || (m.(msg_id) =? 0) then mret false
  else
    match serialize_message m with
    | None => mret false
    | Some payload =>
        ok ← call (RedisSetEx (make_recent_message_key m.(msg_id)) payload cache_ttl_sec);
        if negb ok then mret false
        else maxlen ← reads (fun s => s.(settings).(max_list_len));
             call (RedisLPushTrim (make_recent_list_key rid) (pretty m.(msg_id)) maxlen)
    end.

(** The numeric, non-zero entries of the list. *)
Definition valid_id (id_str : string) : option Z :=
  match strtoull id_str with Some v => if v =? 0 then None else Some v | None => None end.

Fixpoint load_each (ids : list Z) : prog (list SnapshotMessage) :=
  match ids with
  | [] => mret []
  | id :: rest =>
      payload ← call (RedisGet (make_recent_message_key id));
      later ← load_each rest;
      mret (from_option (fun m => m :: later) later (p ← payload; parse_message p))
  end.

Definition load_recent_messages_from_cache (rid : string) : prog (option (list SnapshotMessage)) :=
  limit ← reads (fun s => s.(settings).(recent_limit));
  if negb redis_ || bool_decide (rid = EmptyString) || (limit =? 0) then mret None
  else
    ids ← call (RedisLRange (make_recent_list_key rid) 0 (limit - 1));
    match omap valid_id (default [] ids) with
    | [] => mret None
    | valid =>
        payloads ← call (RedisMGet (make_recent_message_key <$> valid));
        parsed ← (match batch (length valid) payloads with
                  | Some ps => mret (omap (fun p => p ≫= parse_message) ps)
                  | None => load_each valid
                  end : prog (list SnapshotMessage));
        mret (match parsed with [] => None | _ => Some (reverse parsed) end)
    end.

(** Cached messages with an id not seen yet. *)
Fixpoint dedup_ids (seen : gset Z) (ms : list SnapshotMessage) : list SnapshotMessage :=
  match ms with
  | [] => []
  | m :: rest =>
      if decide (m.(msg_id) ∈ seen) then dedup_ids seen rest
      else m :: dedup_ids ({[m.(msg_id)]} ∪ seen) rest
  end.

(** From which message the database is read. *)
Definition history_since (last_id last_seen limit factor : Z) : Z :=
  if 0 <? last_id then
    if (last_seen =? 0) || (last_id <=? last_seen) then (if limit <? last_id then last_id - limit else 0)
    else
      let context := u64 (limit * factor) in
      if context <? last_id then Z.max last_seen (last_id - context) else last_seen
  else 0.

Definition history_fetch_count (limit factor maxlen : Z) : Z :=
  Z.min maxlen (Z.max limit (u64 (limit * factor))).

(** The rows of the database that are sent: not cached, the newest, within the budget. *)
Definition last_n {A} (n : nat) (l : list A) : list A := drop (length l - n) l.

Definition db_message (row : Z * option string * string * Z) : SnapshotMessage :=
  let '(id, who, text, ts) := row in
  mkSnapshotMessage id
    (match who with Some n => if bool_decide (n <> EmptyString) then n else "(system)" | None => "(system)" end%string)
    text (u64 ts).

Definition select_rows (added : gset Z) (limit cached : Z) (rows : list (Z * option string * string * Z))
    : list SnapshotMessage :=
  let fresh := filter (fun row : Z * option string * string * Z => row.1.1.1 ∉ added) rows in
  let msgs := last_n (Z.to_nat limit) fresh in
  let budget := if limit <=? cached then 0 else limit - cached in
  db_message <$> last_n (Z.to_nat budget) msgs.

(** The loop that adds them and repairs the cache: an exception ends it after the
    message just added. *)
Fixpoint add_rows (rid : string) (msgs : list SnapshotMessage) (acc : list SnapshotMessage)
    : prog (list SnapshotMessage) :=
  match msgs with
  | [] => mret acc
  | m :: rest =>
      let acc := acc ++ [m] in
      ok ← try_catch (when redis_ (_ ← cache_recent_message rid m; mret tt);; mret true) (mret false);
      if ok : bool then add_rows rid rest acc else mret acc
  end.

(** The part of [send_snapshot] in its [try] block: the last message seen and the
    messages, whatever was added when an exception is caught. *)
Definition db_history (x : Z) (rid : string) (loaded : bool) (cached_n : Z) (acc : list SnapshotMessage)
    : prog (Z * list SnapshotMessage) :=
  uid ← reads (fun s => uuid_of s x);
  seen ← try_catch
    (_ ← call DbBegin;
     v ← (if bool_decide (uid <> EmptyString) then call (DbGetLastSeen uid rid) else mret None
          : prog (option Z));
     mret (Some (default 0 v)))
    (mret None);
  match seen with
  | None => mret (0, acc)
  | Some last_seen =>
      cfg ← reads settings;
      let limit := cfg.(recent_limit) in
      if loaded && (limit <=? cached_n) then mret (last_seen, acc)
      else
        rows ← try_catch
          (last_id ← call (DbGetLastId rid);
           rows ← call (DbFetchRecent rid (history_since last_id last_seen limit fetch_factor)
                          (history_fetch_count limit fetch_factor cfg.(max_list_len)));
           mret (Some rows))
          (mret None);
        match rows with
        | None => mret (last_seen, acc)
        | Some rows =>
            acc ← add_rows rid (select_rows (list_to_set (msg_id <$> acc)) limit cached_n rows) acc;
            mret (last_seen, acc)
        end
  end.

(** ** The snapshot *)

Definition snapshot_users (current : string) (blocked : gset string) : prog (list string) :=
  ans ← (if redis_ then call (RedisSMembers (users_key current)) else mret None
         : prog (option (list string)));
  names ← (match ans with Some l => mret l | None => local_names current end : prog (list string));
  mret (filter (fun n => n ∉ blocked) names).

Definition recent_messages (x : Z) (current : string) : prog (Z * list SnapshotMessage) :=
  rid ← reads (fun s => default EmptyString (s.(room_tables).(room_ids) !! current));
  rid ← (if bool_decide (rid = EmptyString) && db_pool_ then ensure_room_id_ci current else mret rid
         : prog string);
  cached ← (if redis_ && bool_decide (rid <> EmptyString) then load_recent_messages_from_cache rid
            else mret None : prog (option (list SnapshotMessage)));
  limit ← reads (fun s => s.(settings).(recent_limit));
  let loaded := match cached with Some l => limit <=? zlen l | None => false end in
  let cached := default [] cached in
  let acc := dedup_ids ∅ cached in
  if db_pool_ && bool_decide (rid <> EmptyString) then db_history x rid loaded (zlen cached) acc
  else mret (0, acc).

Definition send_snapshot (x : Z) (current : string) : prog unit :=
  redis_rooms ← (if redis_ then infos ← load_redis_rooms; mret (Some infos) else mret None
                 : prog (option (list RoomInfo)));
  infos ← crit (fun al s => let s := purge_rooms al s in (s, [], room_infos redis_rooms s));
  blocked ← reads (fun s => match s.(session_tables).(user) !! x with
                            | Some viewer => blocked_of s viewer
                            | None => ∅
                            end);
  users ← snapshot_users current blocked;
  '(last_seen, messages) ← recent_messages x current;
  my_name ← reads (fun s => default EmptyString (s.(session_tables).(user) !! x));
  emit [Send x (StateSnapshot current infos users messages last_seen my_name) 0].

End views.
