(* ===== verification/ChatRooms.v ===== *)
(** Membership of the chat service: the login, join, leave and close handlers
    ([handlers_login.cpp], [handlers_join.cpp], [handlers_leave.cpp],
    [session_events.cpp]).  Each critical section is a function of the live sessions and
    the state; the job of a handler composes them with its Redis and database calls. *)

From S2P Require Import Prelude Text ProtocolErrors Utf8 Wire Session ChatText ChatState ChatCore ChatViews.

Section rooms.
  Context `{!ChatEnv}.

(** ** Hooks *)

Definition hook_notices (ts x : Z) (ns : list string) : list Out :=
  (fun n => Send x (ChatBroadcast "(system)" "(system)" n 0 ts) 0)
    <$> filter (fun n => n <> EmptyString) ns.

Definition deny_text (what who : string) (o : HookOutcome) : string :=
  if bool_decide (o.(deny_reason) = EmptyString)
  then String.append what (String.append " denied by " who) else o.(deny_reason).

(** The body that [maybe_handle_login_hook], [maybe_handle_join_hook] and
    [maybe_handle_leave_hook] share: what is sent, and whether the action stops. *)
Definition hook_verdict (what : string) (ts x : Z) (hooks : option HookOutcome * HookOutcome)
    : list Out * bool :=
  let (plugin, lua) := hooks in
  let after_native :=
    (hook_notices ts x lua.(notices)
       ++ (if lua.(stop_default) then [SendError x FORBIDDEN (deny_text what "lua script" lua)] else []),
     lua.(stop_default)) in
  match plugin with
  | None => after_native
  | Some out =>
      if out.(stop_default)
      then (hook_notices ts x out.(notices) ++ [SendError x FORBIDDEN (deny_text what "plugin" out)], true)
      else (hook_notices ts x out.(notices) ++ after_native.1, after_native.2)
  end.

Definition maybe_handle_login_hook := hook_verdict "login".
Definition maybe_handle_join_hook := hook_verdict "join".
Definition maybe_handle_leave_hook := hook_verdict "leave".

(** ** Login *)

(** A sanction with an expiry: erased when over, else the reason to deny. *)
Definition penalty_check (now : Z) (u : string) (table : gmap string TimedPenalty) (text : string)
    : gmap string TimedPenalty * string :=
  match table !! u with
  | None => (table, EmptyString)
  | Some p => if p.(expires_at) <=? now then (delete u table, EmptyString)
              else (table, if bool_decide (p.(reason) = EmptyString) then text else p.(reason))
  end.

Definition expiry_check (now : Z) (key : string) (table : gmap string Z) (text : string)
    : gmap string Z * string :=
  if bool_decide (key = EmptyString) then (table, EmptyString)
  else match table !! key with
       | None => (table, EmptyString)
       | Some until => if until <=? now then (delete key table, EmptyString) else (table, text)
       end.

(** The reason to deny the login, empty when there is none. *)
Definition ban_section (now : Z) (new_user login_ip hwid_hash : string) (_ : gset Z) (s : State)
    : State * list Out * string :=
  let '(bu, deny) := penalty_check now new_user s.(moderation).(banned_users) "temporarily banned" in
  let s := set_banned_users bu s in
  if bool_decide (deny <> EmptyString) then (s, [], deny)
  else
    let '(bi, deny) := expiry_check now login_ip s.(moderation).(banned_ips) "temporarily banned (ip)" in
    let s := set_banned_ips bi s in
    if bool_decide (deny <> EmptyString) then (s, [], deny)
    else
      let '(bh, deny) := expiry_check now hwid_hash s.(moderation).(banned_hwid_hashes)
                           "temporarily banned (device)" in
      (set_banned_hwid_hashes bh s, [], deny).

(** [itset->second.erase(session_sp)] in the entry of a name. *)
Definition erase_by_user (x : Z) (u : string) (s : State) : State :=
  match s.(session_tables).(by_user) !! u with
  | None => s
  | Some X => set_by_user (<[u := X ∖ {[x]}]> s.(session_tables).(by_user)) s
  end.

Definition insert_room (x : Z) (room : string) (s : State) : State :=
  set_rooms (<[room := {[x]} ∪ default ∅ (s.(room_tables).(rooms) !! room)]> s.(room_tables).(rooms)) s.

Definition move_to_lobby (x : Z) (s : State) : State :=
  insert_room x "lobby" (set_cur_room (<[x := "lobby"%string]> s.(session_tables).(cur_room)) s).

(** A session that logs in again gives up its old name. *)
Definition forget_name (x : Z) (s : State) : State :=
  match s.(session_tables).(user) !! x with
  | Some old => erase_by_user x old s
  | None => s
  end.

Definition take_name (x : Z) (new_user : string) (guest_mode : bool) (s : State) : State :=
  let s := set_user (<[x := new_user]> s.(session_tables).(user)) s in
  let s := set_by_user (<[new_user := {[x]} ∪ default ∅ (s.(session_tables).(by_user) !! new_user)]>
                          s.(session_tables).(by_user)) s in
  let s := set_authed ({[x]} ∪ s.(session_tables).(authed)) s in
  set_guest (if guest_mode then {[x]} ∪ s.(session_tables).(guest)
             else s.(session_tables).(guest) ∖ {[x]}) s.

Definition record_origin (x : Z) (new_user login_ip hwid_hash : string) (s : State) : State :=
  let s := set_session_ip (<[x := login_ip]> s.(session_tables).(session_ip)) s in
  let s := set_session_hwid_hash (<[x := hwid_hash]> s.(session_tables).(session_hwid_hash)) s in
  let s := if bool_decide (login_ip <> EmptyString)
           then set_user_last_ip (<[new_user := login_ip]> s.(session_tables).(user_last_ip)) s else s in
  if bool_decide (hwid_hash <> EmptyString)
  then set_user_last_hwid_hash (<[new_user := hwid_hash]> s.(session_tables).(user_last_hwid_hash)) s
  else s.

Definition login_section (x : Z) (new_user : string) (guest_mode : bool) (login_ip hwid_hash : string)
    (_ : gset Z) (s : State) : State * list Out * unit :=
  let s := take_name x new_user guest_mode (forget_name x s) in
  (move_to_lobby x (record_origin x new_user login_ip hwid_hash s), [], tt).

(** The user's identifier: found by name, else created, else found after all. *)
Definition find_uid (new_user fallback : string) : prog string :=
  try_catch (_ ← call DbBegin; found ← call (DbFindUser new_user); mret (default fallback found))
            (mret fallback).

Definition obtain_uid (new_user : string) : prog string :=
  found ← try_catch (_ ← call DbBegin; found ← call (DbFindUser new_user);
                     _ ← (match found with None => call DbBegin | Some _ => mret tt end : prog unit);
                     mret (Some found))
                    (mret None);
  match found with
  | None => mret EmptyString
  | Some (Some uid) => mret uid
  | Some None =>
      created ← try_catch (id ← call (DbCreateGuest new_user); mret (Some id)) (mret None);
      match created with
      | None => find_uid new_user EmptyString
      | Some id =>
          ok ← try_catch (_ ← call DbCommit; mret true) (mret false);
          if ok : bool then mret id else find_uid new_user id
      end
  end.

(** The database part of the login: the user's and the lobby's identifiers. *)
Definition login_db (x : Z) (new_user login_ip : string) : prog (string * string) :=
  uid ← reads (fun s => uuid_of s x);
  uid ← (if bool_decide (uid = EmptyString) then
           uid ← obtain_uid new_user;
           when (bool_decide (uid <> EmptyString))
             (crit (fun _ s => (set_user_uuid (<[x := uid]> s.(session_tables).(user_uuid)) s, [], tt)));;
           mret uid
         else mret uid : prog string);
  ok ← try_catch (_ ← call DbBegin; _ ← call (DbUpdateLastLogin uid login_ip); _ ← call DbCommit; mret true)
                 (mret false);
  if negb ok then mret (uid, EmptyString)
  else
    rid ← ensure_room_id_ci "lobby";
    when (bool_decide (rid <> EmptyString))
      (try_catch (_ ← call DbBegin;
                  _ ← call (DbCreateMessage rid "lobby" None
                              (String.append "(login ip=" (String.append login_ip ")")));
                  _ ← call DbCommit; mret tt)
                 (mret tt));;
    mret (uid, rid).

(** Up to the decision: the name under which the session may log in, if any. *)
Definition login_admit (x : Z) (user_name token : string) : prog (option string) :=
  _ ← crit (fun _ s => (set_by_session_id (<[session_id x := x]> s.(session_tables).(by_session_id)) s, [], tt));
  new_user ← ensure_unique_or_error x user_name;
  if bool_decide (new_user = EmptyString) then mret None
  else
    hooks ← ask (HooksQ "on_login");
    ts ← ask WallMsQ;
    let '(outs, stop) := maybe_handle_login_hook ts x (hooks new_user EmptyString) in
    emit outs;;
    if stop : bool then mret None
    else
      now ← ask NowQ;
      deny ← crit (ban_section now new_user (remote_ip x) (hash_hwid_token token));
      if bool_decide (deny <> EmptyString) then emit [SendError x FORBIDDEN deny];; mret None
      else mret (Some new_user).

(** After the section: database, answer, Redis, event. *)
Definition login_finish (x : Z) (sid new_user login_ip : string) : prog unit :=
  '(tracked_user_uuid, lobby_room_id) ←
    (if db_pool_ then login_db x new_user login_ip else mret (EmptyString, EmptyString));
  emit [Authenticated x;
        Send x (LoginRes new_user (session_id x) "ok" (bool_decide (new_user ∈ admin_users_))) 0];;
  when redis_
    (try_catch
       (uid ← reads (fun s => uuid_of s x);
        touch_user_presence uid;;
        _ ← call (RedisSAdd (users_key "lobby") new_user);
        broadcast_refresh "lobby")
       (mret tt));;
  emit_write_behind_event "session_login" sid (nonempty tracked_user_uuid) (nonempty lobby_room_id)
    ([("room", "lobby"); ("user_name", new_user)]%string
       ++ (if bool_decide (login_ip <> EmptyString) then [("ip"%string, login_ip)] else [])).

Definition login_job (x : Z) (user_name token : string) : prog unit :=
  sid ← get_or_create_session_uuid x;
  let guest_mode := bool_decide (user_name = EmptyString) || bool_decide (user_name = "guest"%string) in
  admitted ← login_admit x user_name token;
  match admitted with
  | None => mret tt
  | Some new_user =>
      _ ← crit (login_section x new_user guest_mode (remote_ip x) (hash_hwid_token token));
      login_finish x sid new_user (remote_ip x)
  end.

(** What a handler does on the network thread: an answer at once, or a job.  [None] of
    the handlers below is a read outside the payload. *)
Inductive Front := Reject (os : list Out) | Submit (p : prog unit).

(** [TryPush] of the job: [accepted] is its result. *)
Definition submit (accepted : bool) (x : Z) (f : Front) : list Out * option (prog unit) :=
  match f with
  | Reject os => (os, None)
  | Submit p => if accepted then ([], Some p) else ([SendError x SERVER_BUSY "server busy"], None)
  end.

Definition on_login (x : Z) (payload : list Z) : option Front :=
  let bad := Some (Reject [SendError x INVALID_PAYLOAD "bad login payload"]) in
  match read_lp_utf8 payload with
  | None => None
  | Some None => bad
  | Some (Some (user_name, sp)) =>
      match read_lp_utf8 sp with
      | None => None
      | Some None => bad
      | Some (Some (token, sp)) =>
          if bool_decide (sp = []) then Some (Submit (login_job x user_name token))
          else if zlen sp <? 4 then bad
          else
            match read_be16 sp 0, read_be16 sp 2 with
            | Some major, Some minor =>
                if bool_decide (drop 4 sp <> []) then bad
                else if negb (is_protocol_version_compatible major minor)
                then Some (Reject [SendError x UNSUPPORTED_VERSION "unsupported version"])
                else Some (Submit (login_job x user_name token))
            | _, _ => None
            end
      end
  end.

(** ** Leaving a room *)

(** A room without sessions, its password, owner and invitations. *)
Definition drop_room (room : string) (s : State) : State :=
  let s := set_rooms (delete room s.(room_tables).(rooms)) s in
  let s := set_room_passwords (delete room s.(room_tables).(room_passwords)) s in
  let s := set_room_owners (delete room s.(room_tables).(room_owners)) s in
  set_room_invites (delete room s.(room_tables).(room_invites)) s.

(** The owner of a room that goes is replaced by a remaining user. *)
Definition replace_owner (al : gset Z) (room leaver : string) (X : gset Z) (s : State) : State :=
  if bool_decide (s.(room_tables).(room_owners) !! room = Some leaver) then
    let new_owner := elect_owner al s (weak_order X) EmptyString in
    if bool_decide (new_owner <> EmptyString)
    then set_room_owners (<[room := new_owner]> s.(room_tables).(room_owners)) s else s
  else s.

(** What join, leave and close do with the room a session goes from: the session and the
    expired ones are erased; an empty room other than the lobby is dropped, another one
    gets a new owner if the leaver owned it.  The sessions that remain are returned. *)
Definition depart_room (al : gset Z) (x : Z) (room leaver : string) (s : State) : State * list Z :=
  match s.(room_tables).(rooms) !! room with
  | None => (s, [])
  | Some X =>
      let '(X', out) := collect_room_sessions al (X ∖ {[x]}) in
      let s := set_rooms (<[room := X']> s.(room_tables).(rooms)) s in
      let s := if bool_decide (room = "lobby"%string) then s
               else if decide (X' = ∅) then drop_room room s
               else replace_owner al room leaver X' s in
      (s, out)
  end.

(** ** Join *)

Record Access := mkAccess {
  expected_password : string;
  has_password : bool;
  password_ok : bool;
  has_room_invite : bool;
  denied : bool;
}.

(** The decision on the tables, [found] being the password Redis has, which the table of
    passwords already holds. *)
Definition room_access (s : State) (sender room provided : string) (found : option string) : Access :=
  let owner := bool_decide (room <> "lobby"%string)
               && bool_decide (s.(room_tables).(room_owners) !! room = Some sender) in
  let invite := bool_decide (room <> "lobby"%string)
                && bool_decide (sender ∈ default ∅ (s.(room_tables).(room_invites) !! room)) in
  let expected := match found with
                  | Some v => if bool_decide (v <> EmptyString) then v
                              else default EmptyString (s.(room_tables).(room_passwords) !! room)
                  | None => default EmptyString (s.(room_tables).(room_passwords) !! room)
                  end in
  let has := bool_decide (expected <> EmptyString) in
  let ok := has && bool_decide (provided <> EmptyString) && verify_room_password provided expected in
  let exists_ := bool_decide (is_Some (s.(room_tables).(rooms) !! room))
                 || bool_decide (is_Some (s.(room_tables).(room_owners) !! room))
                 || bool_decide (is_Some (s.(room_tables).(room_passwords) !! room)) || has in
  mkAccess expected has ok invite
    (bool_decide (room <> "lobby"%string) && exists_ && negb (bool_decide (sender ∈ admin_users_))
       && negb owner && negb invite && negb ok).

(** The password of the room after admission: an old hash is renewed, a room without a
    password takes the one provided.  [None]: the hash failed; else the new hash, if any. *)
Definition renew_password (a : Access) (room provided : string) (s : State)
    : option (State * option string) :=
  let store h := (set_room_passwords (<[room := h]> s.(room_tables).(room_passwords)) s, Some h) in
  if a.(has_password) && a.(password_ok) then
    if is_modern_room_password_hash a.(expected_password) then Some (s, None)
    else let h := hash_room_password provided in
         if bool_decide (h = EmptyString) then Some (s, None) else Some (store h)
  else if negb a.(has_password) && bool_decide (provided <> EmptyString)
          && bool_decide (room <> "lobby"%string)
  then let h := hash_room_password provided in
       if bool_decide (h = EmptyString) then None else Some (store h)
  else Some (s, None).

(** The session enters: the first named user becomes the owner, an invitation is used up. *)
Definition enter_room (x : Z) (room sender : string) (invited : bool) (s : State) : State :=
  let s := set_cur_room (<[x := room]> s.(session_tables).(cur_room)) s in
  let s := insert_room x room s in
  if bool_decide (room = "lobby"%string) then s
  else
    let s := match s.(room_tables).(room_owners) !! room with
             | Some _ => s
             | None => if bool_decide (sender <> "guest"%string)
                       then set_room_owners (<[room := sender]> s.(room_tables).(room_owners)) s else s
             end in
    if invited then
      match s.(room_tables).(room_invites) !! room with
      | None => s
      | Some invitees =>
          let rest := invitees ∖ {[sender]} in
          if decide (rest = ∅) then set_room_invites (delete room s.(room_tables).(room_invites)) s
          else set_room_invites (<[room := rest]> s.(room_tables).(room_invites)) s
      end
    else s.

Record JoinResult := mkJoinResult {
  join_sender : string;
  join_previous : string;
  join_new_hash : option string;
  join_uuid : string;
  join_targets : list Z;
}.

Definition join_section (x : Z) (room provided : string) (found : option string)
    (hooks : string -> string -> option HookOutcome * HookOutcome) (ts : Z)
    (al : gset Z) (s : State) : State * list Out * option JoinResult :=
  if negb (bool_decide (x ∈ s.(session_tables).(authed)))
  then (s, [SendError x UNAUTHORIZED "unauthorized"], None)
  else
    let sender := name_or_guest s x in
    let '(outs, stop) := maybe_handle_join_hook ts x (hooks sender room) in
    if stop : bool then (s, outs, None)
    else
      let s := match found with
               | Some v => set_room_passwords (<[room := v]> s.(room_tables).(room_passwords)) s
               | None => s
               end in
      let a := room_access s sender room provided found in
      if a.(denied)
      then (s, outs ++ [SendError x FORBIDDEN (if a.(has_password) then "room locked" else "invite required")%string],
            None)
      else
        match renew_password a room provided s with
        | None => (s, outs ++ [SendError x INTERNAL_ERROR "password hash failed"], None)
        | Some (s, new_hash) =>
            let previous := default EmptyString (s.(session_tables).(cur_room) !! x) in
            let s := match s.(session_tables).(cur_room) !! x with
                     | Some old => if bool_decide (old <> room) then (depart_room al x old sender s).1 else s
                     | None => s
                     end in
            let s := enter_room x room sender a.(has_room_invite) s in
            let uuid := uuid_of s x in
            let '(s, targets) := collect_room al room s in
            (s, outs, Some (mkJoinResult sender previous new_hash uuid (filter_targets s sender targets)))
        end.

(** The database record of the membership, and the room's identifier. *)
Definition join_db (x : Z) (room : string) : prog string :=
  uid ← reads (fun s => uuid_of s x);
  if bool_decide (uid = EmptyString) then mret EmptyString
  else
    rid ← ensure_room_id_ci room;
    if bool_decide (rid = EmptyString) then mret EmptyString
    else
      try_catch
        (_ ← call DbBegin;
         _ ← call (DbUpsertJoin uid rid);
         last_id ← call (DbGetLastId rid);
         when (0 <? last_id) (call (DbUpdateLastSeen uid rid last_id));;
         _ ← call DbCommit;
         mret rid)
        (mret rid).

(** The local traces of a room that Redis reports empty. *)
Definition forget_room (room : string) : prog unit :=
  crit (fun _ s =>
    let s := set_room_ids (delete room s.(room_tables).(room_ids)) s in
    let s := set_room_owners (delete room s.(room_tables).(room_owners)) s in
    (set_room_invites (delete room s.(room_tables).(room_invites)) s, [], tt)).

(** The Redis part of a join. *)
Definition join_redis (r : JoinResult) (room joined_room_id : string) : prog unit :=
  let previous := r.(join_previous) in
  when (bool_decide (previous <> EmptyString) && bool_decide (previous <> room))
    (_ ← call (RedisSRem (users_key previous) r.(join_sender));
     when (bool_decide (previous <> "lobby"%string))
       (remaining ← call (RedisSCard (users_key previous));
        when (bool_decide (remaining = Some 0))
          (_ ← call (RedisSRem "rooms:active" previous);
           _ ← call (RedisDel (password_key previous));
           when db_pool_
             (try_catch
                (_ ← call DbBegin;
                 found ← call (DbFindRoom previous);
                 match found with
                 | Some id => _ ← call (DbCloseRoom id); _ ← call DbCommit; mret tt
                 | None => mret tt
                 end;;
                 forget_room previous)
                (mret tt)))));;
  _ ← call (RedisSAdd (users_key room) r.(join_sender));
  when (bool_decide (room <> "lobby"%string)) (_ ← call (RedisSAdd "rooms:active" room); mret tt);;
  when (bool_decide (r.(join_uuid) <> EmptyString) && bool_decide (joined_room_id <> EmptyString))
    (_ ← call (RedisSAdd (make_presence_key "presence:room:" joined_room_id) r.(join_uuid)); mret tt).

Definition join_job (x : Z) (requested password : string) : prog unit :=
  sid ← get_or_create_session_uuid x;
  let room := if bool_decide (requested = EmptyString) then "lobby"%string else requested in
  found ← (if redis_ then call (RedisGet (password_key room)) else mret None : prog (option string));
  hooks ← ask (HooksQ "on_join");
  hook_ts ← ask WallMsQ;
  result ← crit (join_section x room password found hooks hook_ts);
  match result with
  | None => mret tt
  | Some r =>
      ts ← ask WallMsQ;
      match r.(join_new_hash) with
      | Some h => when redis_ (_ ← call (RedisSetEx (password_key room) h 86400); mret tt)
      | None => mret tt
      end;;
      emit ((fun t => Send t (ChatBroadcast room "(system)"
                                (String.append r.(join_sender) " 님이 입장했습니다") 0 ts) 0)
              <$> r.(join_targets));;
      joined_room_id ← (if db_pool_ then join_db x room else mret EmptyString);
      when redis_ (try_catch (join_redis r room joined_room_id) (mret tt));;
      let moved := bool_decide (r.(join_previous) <> EmptyString)
                   && bool_decide (r.(join_previous) <> room) in
      emit_write_behind_event "room_join" sid (nonempty r.(join_uuid)) (nonempty joined_room_id)
        ([("room", room); ("user_name", r.(join_sender))]%string
           ++ (if moved then [("prev_room"%string, r.(join_previous))] else []));;
      send_snapshot x room;;
      broadcast_refresh "lobby";;
      when (bool_decide (room <> "lobby"%string)) (broadcast_refresh room);;
      when (moved && bool_decide (r.(join_previous) <> "lobby"%string)) (broadcast_refresh r.(join_previous))
  end.

(** An optional second field: a malformed one leaves the password empty. *)
Definition on_join (x : Z) (payload : list Z) : option Front :=
  match read_lp_utf8 payload with
  | None => None
  | Some None => Some (Reject [SendError x INVALID_PAYLOAD "bad join payload"])
  | Some (Some (room, [])) => Some (Submit (join_job x room EmptyString))
  | Some (Some (room, rest)) =>
      match read_lp_utf8 rest with
      | None => None
      | Some pw => Some (Submit (join_job x room (from_option fst EmptyString pw)))
      end
  end.

(** ** Leave *)

Record LeaveResult := mkLeaveResult {
  leave_room : string;
  leave_name : string;
  leave_uuid : string;
  leave_targets : list Z;
}.

Definition leave_section (x : Z) (requested : string)
    (hooks : string -> string -> option HookOutcome * HookOutcome) (ts : Z)
    (al : gset Z) (s : State) : State * list Out * option LeaveResult :=
  if negb (bool_decide (x ∈ s.(session_tables).(authed)))
  then (s, [SendError x UNAUTHORIZED "unauthorized"], None)
  else
    match s.(session_tables).(cur_room) !! x with
    | None => (s, [SendError x NO_ROOM "no current room"], None)
    | Some room =>
        if bool_decide (requested <> EmptyString) && bool_decide (room <> requested)
        then (s, [SendError x ROOM_MISMATCH "room mismatch"], None)
        else
          match s.(room_tables).(rooms) !! room with
          | None => (move_to_lobby x s, [], Some (mkLeaveResult room EmptyString EmptyString []))
          | Some _ =>
              let sender := name_or_guest s x in
              let uuid := uuid_of s x in
              let '(outs, stop) := maybe_handle_leave_hook ts x (hooks sender room) in
              if stop : bool then (s, outs, None)
              else
                let '(s, targets) := depart_room al x room sender s in
                let targets := filter_targets s sender targets in
                (move_to_lobby x s, outs, Some (mkLeaveResult room sender uuid targets))
          end
    end.

(** The Redis part of a leave; the result is the room's identifier, which an exception
    keeps as far as it was found. *)
Definition leave_redis (x : Z) (r : LeaveResult) : prog string :=
  let room := r.(leave_room) in
  uid ← reads (fun s => uuid_of s x);
  rid ← ensure_room_id_ci room;
  try_catch
    (when (bool_decide (uid = EmptyString) || bool_decide (rid <> EmptyString))
       (when (bool_decide (uid <> EmptyString))
          (_ ← call (RedisSRem (make_presence_key "presence:room:" rid) uid); mret tt);;
        _ ← call (RedisSRem (users_key room) r.(leave_name)); mret tt);;
     when (bool_decide (room <> "lobby"%string))
       (remaining ← call (RedisSCard (users_key room));
        when (bool_decide (remaining = Some 0))
          (_ ← call (RedisSRem "rooms:active" room);
           _ ← call (RedisDel (password_key room));
           when (db_pool_ && bool_decide (rid <> EmptyString))
             (try_catch (_ ← call DbBegin; _ ← call (DbCloseRoom rid); _ ← call DbCommit; forget_room room)
                        (mret tt))));;
     _ ← call (RedisSAdd (users_key "lobby") r.(leave_name));
     mret rid)
    (mret rid).

Definition leave_job (x : Z) (requested : string) : prog unit :=
  sid ← get_or_create_session_uuid x;
  hooks ← ask (HooksQ "on_leave");
  hook_ts ← ask WallMsQ;
  result ← crit (leave_section x requested hooks hook_ts);
  match result with
  | None => mret tt
  | Some r =>
      let room := r.(leave_room) in
      let named := bool_decide (room <> EmptyString) in
      ts ← ask WallMsQ;
      when named
        (emit ((fun t => Send t (ChatBroadcast room "(system)"
                                   (String.append r.(leave_name) " 님이 떠났습니다") 0 ts)
                           (if bool_decide (t = x) then FLAG_SELF else 0)) <$> r.(leave_targets)));;
      room_uuid ← (if redis_ && named then leave_redis x r else mret EmptyString);
      lobby ← crit (fun al s => let '(s, out) := collect_room al "lobby" s in
                                (s, [], filter_targets s r.(leave_name) out));
      ts2 ← ask WallMsQ;
      emit ((fun t => Send t (ChatBroadcast "lobby" "(system)"
                                (String.append r.(leave_name) " 님이 입장했습니다") 0 ts2) 0) <$> lobby);;
      broadcast_refresh "lobby";;
      when (named && bool_decide (room <> "lobby"%string)) (broadcast_refresh room);;
      when named
        (room_id ← (if bool_decide (room_uuid <> EmptyString) then mret (Some room_uuid)
                    else rid ← ensure_room_id_ci room; mret (nonempty rid) : prog (option string));
         emit_write_behind_event "room_leave" sid (nonempty r.(leave_uuid)) room_id
           [("room", room); ("user_name", r.(leave_name)); ("next_room", "lobby")]%string);;
      send_snapshot x "lobby"
  end.

Definition on_leave (x : Z) (payload : list Z) : option Front :=
  match payload with
  | [] => Some (Submit (leave_job x EmptyString))
  | _ => match read_lp_utf8 payload with
         | None => None
         | Some r => Some (Submit (leave_job x (from_option fst EmptyString r)))
         end
  end.

(** ** Close *)

Record CloseResult := mkCloseResult {
  close_name : string;
  close_uuid : string;
  close_room : string;
  close_targets : list Z;
}.

(** The session is forgotten by name; its [user_uuid] entry stays. *)
Definition forget_session (x : Z) (nm : string) (s : State) : State :=
  let s := set_by_session_id (delete (session_id x) s.(session_tables).(by_session_id)) s in
  let s := set_authed (s.(session_tables).(authed) ∖ {[x]}) s in
  let s := set_guest (s.(session_tables).(guest) ∖ {[x]}) s in
  let s := if bool_decide (nm <> EmptyString) then erase_by_user x nm s else s in
  let s := set_user (delete x s.(session_tables).(user)) s in
  let s := set_session_uuid (delete x s.(session_tables).(session_uuid)) s in
  let s := set_session_ip (delete x s.(session_tables).(session_ip)) s in
  set_session_hwid_hash (delete x s.(session_tables).(session_hwid_hash)) s.

Definition close_section (x : Z) (al : gset Z) (s : State) : State * list Out * CloseResult :=
  let nm := name_or_guest s x in
  let uuid := uuid_of s x in
  let s := forget_session x nm s in
  match s.(session_tables).(cur_room) !! x with
  | None => (s, [], mkCloseResult nm uuid EmptyString [])
  | Some room =>
      let '(s, targets) := depart_room al x room nm s in
      let targets := filter_targets s nm targets in
      (set_cur_room (delete x s.(session_tables).(cur_room)) s, [], mkCloseResult nm uuid room targets)
  end.

Definition close_redis (x : Z) (r : CloseResult) : prog string :=
  let room := r.(close_room) in
  uid ← reads (fun s => uuid_of s x);
  rid ← (if bool_decide (uid <> EmptyString) then ensure_room_id_ci room else mret EmptyString);
  try_catch
    (when (bool_decide (rid <> EmptyString))
       (_ ← call (RedisSRem (make_presence_key "presence:room:" rid) uid); mret tt);;
     _ ← call (RedisSRem (users_key room) r.(close_name));
     when (bool_decide (room <> "lobby"%string))
       (_ ← call (RedisSAdd (users_key "lobby") r.(close_name));
        remaining ← call (RedisSCard (users_key room));
        when (bool_decide (remaining = Some 0)) (_ ← call (RedisSRem "rooms:active" room); mret tt));;
     mret rid)
    (mret rid).

(** The job of [on_session_close]; the hook cannot stop it. *)
Definition close_job (x : Z) : prog unit :=
  sid ← get_or_create_session_uuid x;
  _ ← reads (fun s => default EmptyString (s.(session_tables).(user) !! x));
  _ ← ask (HooksQ "on_session_event");
  r ← crit (close_section x);
  ts ← ask WallMsQ;
  let room := r.(close_room) in
  emit ((fun t => Send t (ChatBroadcast room "(system)"
                            (String.append r.(close_name) " 님이 연결을 종료했습니다") 0 ts) 0)
          <$> r.(close_targets));;
  let named := bool_decide (room <> EmptyString) in
  room_uuid ← (if redis_ && named then close_redis x r else mret EmptyString);
  when named
    (emit_write_behind_event "session_close" sid (nonempty r.(close_uuid)) (nonempty room_uuid)
       [("room", room); ("user_name", r.(close_name))]%string;;
     broadcast_refresh room).
End rooms.
