(* ===== verification/ChatCommands.v ===== *)
(** Slash commands and whispers of the chat service ([handlers_chat.cpp], and the routines
    of [chat_service_core.cpp] they use). *)

From S2P Require Import Prelude Text ProtocolErrors Utf8 ChatText ChatState ChatCore ChatViews ChatRooms.

(** Nanoseconds of [std::chrono::seconds]. *)
Definition sec (n : Z) : Z := n * 1000000000.

Section commands.
  Context `{!ChatEnv}.

Definition is_admin_user (s : State) (x : Z) : bool := bool_decide (name_or_guest s x ∈ admin_users_).

(** Who may invite to, kick from and remove a room. *)
Definition controls_room (s : State) (actor room : string) : bool :=
  bool_decide (actor <> "guest"%string)
  && (bool_decide (actor ∈ admin_users_) || bool_decide (s.(room_tables).(room_owners) !! room = Some actor)).

(** ** Rooms *)

Definition invite_section (x : Z) (target_user target_room : string) (_ : gset Z) (s : State)
    : State * list Out * bool :=
  if controls_room s (name_or_guest s x) target_room then
    (set_room_invites (<[target_room := {[target_user]} ∪ default ∅ (s.(room_tables).(room_invites) !! target_room)]>
                         s.(room_tables).(room_invites)) s, [], true)
  else (s, [], false).

(** [/invite] and [/kick]: a user, then a room that defaults to the current one. *)
Definition user_and_room (args current_room : string) : string * string :=
  let (target_user, rest) := next_word args in
  let (room, _) := next_word rest in
  (target_user, if bool_decide (room = EmptyString) then current_room else room).

Definition bad_room_target (target_user target_room : string) : bool :=
  bool_decide (target_user = EmptyString) || bool_decide (target_room = EmptyString)
  || bool_decide (target_room = "lobby"%string).

Definition cmd_invite (x : Z) (current_room args : string) : prog unit :=
  let (target_user, target_room) := user_and_room args current_room in
  if bad_room_target target_user target_room then send_system_notice x "usage: /invite <user> [room]"
  else
    allowed ← crit (invite_section x target_user target_room);
    if negb allowed then send_system_notice x "invite denied: owner/admin only"
    else send_system_notice x
           (String.append "invited user: " (String.append target_user (String.append " room=" target_room))).

(** The sessions of the target that are in the room go to the lobby. *)
Fixpoint kick_sessions (target_room : string) (found : bool) (order : list Z) (s : State) (kicked : list Z)
    : State * list Z :=
  match order with
  | [] => (s, kicked)
  | c :: rest =>
      if bool_decide (s.(session_tables).(cur_room) !! c = Some target_room) then
        let s := if found
                 then set_rooms (alter (fun X : RoomSet => X ∖ {[c]}) target_room s.(room_tables).(rooms)) s
                 else s in
        kick_sessions target_room found rest (move_to_lobby c s) (kicked ++ [c])
      else kick_sessions target_room found rest s kicked
  end.

Definition kick_section (x : Z) (target_user target_room : string) (al : gset Z) (s : State)
    : State * list Out * (bool * list Z) :=
  if controls_room s (name_or_guest s x) target_room then
    match s.(session_tables).(by_user) !! target_user with
    | None => (s, [], (true, []))
    | Some _ =>
        let found := bool_decide (is_Some (s.(room_tables).(rooms) !! target_room)) in
        let '(s, candidates) := collect_user al target_user s in
        let '(s, kicked) := kick_sessions target_room found candidates s [] in
        let s := if negb found then s
                 else match s.(room_tables).(rooms) !! target_room with
                      | None => s
                      | Some X => if decide (X = ∅) then drop_room target_room s
                                  else replace_owner al target_room target_user X s
                      end in
        (s, [], (true, kicked))
    end
  else (s, [], (false, [])).

Fixpoint for_each {A} (f : A -> prog unit) (l : list A) : prog unit :=
  match l with [] => mret tt | a :: rest => f a;; for_each f rest end.

Definition cmd_kick (x : Z) (current_room args : string) : prog unit :=
  let (target_user, target_room) := user_and_room args current_room in
  if bad_room_target target_user target_room then send_system_notice x "usage: /kick <user> [room]"
  else
    '(allowed, kicked) ← crit (kick_section x target_user target_room);
    if negb allowed then send_system_notice x "kick denied: owner/admin only"
    else
      for_each (fun k => send_system_notice k (String.append "kicked from room: " target_room);;
                         send_snapshot k "lobby") kicked;;
      when (bool_decide (kicked <> [])) (broadcast_refresh target_room;; broadcast_refresh "lobby");;
      send_system_notice x (if bool_decide (kicked = []) then "kick target not found in room" else "kick applied").

Definition remove_section (x : Z) (target_room : string) (al : gset Z) (s : State)
    : State * list Out * (bool * list Z) :=
  if controls_room s (name_or_guest s x) target_room then
    let members := match s.(room_tables).(rooms) !! target_room with
                   | Some X => (collect_room_sessions al X).2
                   | None => []
                   end in
    let s := foldl (fun s c => move_to_lobby c s) s members in
    (drop_room target_room s, [], (true, members))
  else (s, [], (false, [])).

Definition cmd_room_remove (x : Z) (current_room args : string) : prog unit :=
  let (room, _) := next_word args in
  let target_room := if bool_decide (room = EmptyString) then current_room else room in
  if bool_decide (target_room = EmptyString) || bool_decide (target_room = "lobby"%string)
  then send_system_notice x "usage: /room remove [room]"
  else
    '(allowed, moved) ← crit (remove_section x target_room);
    if negb allowed then send_system_notice x "room remove denied: owner/admin only"
    else
      for_each (fun m => send_system_notice m (String.append "room removed: " target_room);;
                         send_snapshot m "lobby") moved;;
      when redis_
        (try_catch
           (_ ← call (RedisSRem "rooms:active" target_room);
            _ ← call (RedisDel (password_key target_room));
            _ ← call (RedisDel (users_key target_room));
            mret tt)
           (mret tt));;
      broadcast_refresh target_room;;
      broadcast_refresh "lobby";;
      send_system_notice x (String.append "room removed: " target_room).

(** ** Sanctions *)

Definition mute_user (u : string) (until : Z) (why : string) (s : State) : State :=
  set_muted_users (<[u := mkTimedPenalty until why]> s.(moderation).(muted_users)) s.

(** A ban also covers the address and the device the user last logged in with. *)
Definition ban_user (u : string) (until : Z) (why : string) (s : State) : State :=
  let s := set_banned_users (<[u := mkTimedPenalty until why]> s.(moderation).(banned_users)) s in
  let s := match s.(session_tables).(user_last_ip) !! u with
           | Some ip => if bool_decide (ip <> EmptyString)
                        then set_banned_ips (<[ip := until]> s.(moderation).(banned_ips)) s else s
           | None => s
           end in
  match s.(session_tables).(user_last_hwid_hash) !! u with
  | Some h => if bool_decide (h <> EmptyString)
              then set_banned_hwid_hashes (<[h := until]> s.(moderation).(banned_hwid_hashes)) s else s
  | None => s
  end.

Definition unban_user (u : string) (s : State) : State * bool :=
  let changed := bool_decide (is_Some (s.(moderation).(banned_users) !! u)) in
  let s := set_banned_users (delete u s.(moderation).(banned_users)) s in
  let '(s, changed) :=
    match s.(session_tables).(user_last_ip) !! u with
    | Some ip => if bool_decide (ip <> EmptyString)
                 then (set_banned_ips (delete ip s.(moderation).(banned_ips)) s,
                       bool_decide (is_Some (s.(moderation).(banned_ips) !! ip)) || changed)
                 else (s, changed)
    | None => (s, changed)
    end in
  match s.(session_tables).(user_last_hwid_hash) !! u with
  | Some h => if bool_decide (h <> EmptyString)
              then (set_banned_hwid_hashes (delete h s.(moderation).(banned_hwid_hashes)) s,
                    bool_decide (is_Some (s.(moderation).(banned_hwid_hashes) !! h)) || changed)
              else (s, changed)
  | None => (s, changed)
  end.

(** The administrator's commands: nothing happens unless the actor is one. *)
Definition mute_section (x : Z) (u : string) (until : Z) (_ : gset Z) (s : State) : State * list Out * bool :=
  if is_admin_user s x then (mute_user u until "muted by admin" s, [], true) else (s, [], false).

Definition unmute_section (x : Z) (u : string) (_ : gset Z) (s : State) : State * list Out * (bool * bool) :=
  if is_admin_user s x
  then (set_muted_users (delete u s.(moderation).(muted_users)) s, [],
        (true, bool_decide (is_Some (s.(moderation).(muted_users) !! u))))
  else (s, [], (false, false)).

Definition ban_command_section (x : Z) (u : string) (until : Z) (al : gset Z) (s : State)
    : State * list Out * (bool * list Z) :=
  if is_admin_user s x
  then let '(s, sessions) := collect_user al u (ban_user u until "banned by admin" s) in (s, [], (true, sessions))
  else (s, [], (false, [])).

Definition unban_section (x : Z) (u : string) (_ : gset Z) (s : State) : State * list Out * (bool * bool) :=
  if is_admin_user s x then let '(s, changed) := unban_user u s in (s, [], (true, changed))
  else (s, [], (false, false)).

Definition gkick_section (x : Z) (u : string) (al : gset Z) (s : State) : State * list Out * (bool * list Z) :=
  if is_admin_user s x then let '(s, sessions) := collect_user al u s in (s, [], (true, sessions))
  else (s, [], (false, [])).

Definition disconnect_all (text : string) : list Z -> prog unit :=
  for_each (fun y => send_system_notice y text;; emit [Stop y]).

Definition cmd_mute (x : Z) (args : string) : prog unit :=
  let (u, rest) := next_word args in
  let (duration_raw, _) := next_word rest in
  if bool_decide (u = EmptyString) then send_system_notice x "usage: /mute <user> [seconds]"
  else
    cfg ← reads settings;
    let duration := parse_duration_sec duration_raw cfg.(spam_mute_sec) 5 86400 in
    now ← ask NowQ;
    allowed ← crit (mute_section x u (now + sec duration));
    if negb allowed then send_system_notice x "mute denied: admin only"
    else send_system_notice x (String.append "mute applied: user=" (String.append u
           (String.append " duration=" (String.append (pretty duration) "s")))).

Definition cmd_unmute (x : Z) (args : string) : prog unit :=
  let (u, _) := next_word args in
  if bool_decide (u = EmptyString) then send_system_notice x "usage: /unmute <user>"
  else
    '(allowed, changed) ← crit (unmute_section x u);
    if negb allowed then send_system_notice x "unmute denied: admin only"
    else send_system_notice x (if changed : bool then String.append "unmute applied: user=" u
                               else "unmute no-op: user not muted"%string).

Definition cmd_ban (x : Z) (args : string) : prog unit :=
  let (u, rest) := next_word args in
  let (duration_raw, _) := next_word rest in
  if bool_decide (u = EmptyString) then send_system_notice x "usage: /ban <user> [seconds]"
  else
    cfg ← reads settings;
    let duration := parse_duration_sec duration_raw cfg.(spam_ban_sec) 10 604800 in
    now ← ask NowQ;
    '(allowed, sessions) ← crit (ban_command_section x u (now + sec duration));
    if negb allowed then send_system_notice x "ban denied: admin only"
    else
      disconnect_all "temporarily banned" sessions;;
      send_system_notice x (String.append "ban applied: user=" (String.append u
        (String.append " duration=" (String.append (pretty duration) "s")))).

Definition cmd_unban (x : Z) (args : string) : prog unit :=
  let (u, _) := next_word args in
  if bool_decide (u = EmptyString) then send_system_notice x "usage: /unban <user>"
  else
    '(allowed, changed) ← crit (unban_section x u);
    if negb allowed then send_system_notice x "unban denied: admin only"
    else send_system_notice x (if changed : bool then String.append "unban applied: user=" u
                               else "unban no-op: user not banned"%string).

Definition cmd_gkick (x : Z) (args : string) : prog unit :=
  let (u, _) := next_word args in
  if bool_decide (u = EmptyString) then send_system_notice x "usage: /gkick <user>"
  else
    '(allowed, sessions) ← crit (gkick_section x u);
    if negb allowed then send_system_notice x "global kick denied: admin only"
    else
      disconnect_all "disconnected by administrator" sessions;;
      send_system_notice x (if bool_decide (sessions = []) then "global kick target not found"
                            else "global kick applied").

(** ** Blacklists *)

(** [/block], [/unblock] and [/blacklist]: the operation and its target. *)
Definition blacklist_args (text : string) : string * string :=
  if String.prefix "/block " text then ("add"%string, trim_copy (str_drop 7 text))
  else if String.prefix "/unblock " text then ("remove"%string, trim_copy (str_drop 9 text))
  else
    let args := trim_copy (str_drop 10 text) in
    if bool_decide (args = EmptyString) || bool_decide (args = "list"%string)
    then ("list"%string, EmptyString)
    else
      let (op, rest) := next_word args in
      let (line, _) := take_until (fun c => byte_of_ascii c =? 10) rest in
      (to_lower_ascii_local op, trim_copy line).

Definition blacklist_add (actor target_user : string) (_ : gset Z) (s : State) : State * list Out * bool :=
  let B := blocked_of s actor in
  (set_user_blacklists (<[actor := {[target_user]} ∪ B]> s.(moderation).(user_blacklists)) s, [],
   bool_decide (target_user ∉ B)).

Definition blacklist_remove (actor target_user : string) (_ : gset Z) (s : State) : State * list Out * bool :=
  match s.(moderation).(user_blacklists) !! actor with
  | None => (s, [], false)
  | Some B =>
      let B' := B ∖ {[target_user]} in
      (set_user_blacklists (if decide (B' = ∅) then delete actor s.(moderation).(user_blacklists)
                            else <[actor := B']> s.(moderation).(user_blacklists)) s, [],
       bool_decide (target_user ∈ B))
  end.

(** [std::sort] on names, by bytes. *)
Fixpoint insert_name (n : string) (l : list string) : list string :=
  match l with
  | [] => [n]
  | m :: rest => if String.leb n m then n :: l else m :: insert_name n rest
  end.
Definition sort_names (l : list string) : list string := foldr insert_name [] l.

Definition cmd_blacklist (x : Z) (text : string) : prog unit :=
  actor ← reads (fun s => name_or_guest s x);
  if bool_decide (actor = EmptyString) || bool_decide (actor = "guest"%string)
  then send_system_notice x "blacklist denied: login required"
  else
    let (op, target_user) := blacklist_args text in
    if bool_decide (op = "list"%string) then
      blocked ← reads (fun s => blocked_of s actor);
      send_system_notice x
        (String.append "blacklist: "
           (if decide (blocked = ∅) then "(empty)" else String.concat ", " (sort_names (elements blocked))))
    else if bool_decide (target_user = EmptyString)
    then send_system_notice x "usage: /blacklist <add|remove|list> [user]"
    else if bool_decide (target_user = actor)
    then send_system_notice x "blacklist denied: cannot target yourself"
    else if bool_decide (op = "add"%string) then
      changed ← crit (blacklist_add actor target_user);
      send_system_notice x (if changed : bool then String.append "blacklist add: " target_user
                            else "blacklist add no-op"%string)
    else if bool_decide (op = "remove"%string) then
      changed ← crit (blacklist_remove actor target_user);
      send_system_notice x (if changed : bool then String.append "blacklist remove: " target_user
                            else "blacklist remove no-op"%string)
    else send_system_notice x "usage: /blacklist <add|remove|list> [user]".

(** ** Whispers *)

Record WhisperTargets := mkWhisperTargets {
  wt_targets : list Z;
  wt_ineligible : bool;
  wt_blocked_by_sender : bool;
}.

Definition whisper_eligible (s : State) (p : Z) : bool :=
  bool_decide (p ∈ s.(session_tables).(authed)) && negb (bool_decide (p ∈ s.(session_tables).(guest))).

Definition whisper_section (x : Z) (sender target_user : string) (al : gset Z) (s : State)
    : State * list Out * WhisperTargets :=
  let by_sender := has_blocked s sender target_user in
  let blocked := by_sender || has_blocked s target_user sender in
  let '(s, live) := collect_user al target_user s in
  let others := filter (fun p => p <> x) live in
  (s, [], mkWhisperTargets
            (if blocked then [] else filter (fun p => whisper_eligible s p = true) others)
            (blocked || existsb (fun p => negb (whisper_eligible s p)) others)
            by_sender).

Definition dispatch_whisper (x : Z) (target_user text : string) : prog unit :=
  if bool_decide (target_user = EmptyString) || bool_decide (text = EmptyString) then
    send_system_notice x "usage: /whisper <user> <message>";;
    send_whisper_result x false "invalid payload"
  else
    known ← reads (fun s => bool_decide (x ∈ s.(session_tables).(authed)));
    if negb known then emit [SendError x UNAUTHORIZED "unauthorized"]
    else
      '(sender, sender_is_guest) ←
        reads (fun s => (name_or_guest s x, bool_decide (x ∈ s.(session_tables).(guest))));
      if bool_decide (sender = "guest"%string) || sender_is_guest then
        send_system_notice x "login required for whisper";;
        send_whisper_result x false "login required";;
        emit [SendError x UNAUTHORIZED "guest cannot whisper"]
      else if bool_decide (target_user = sender) then
        send_system_notice x "cannot whisper to yourself";;
        send_whisper_result x false "cannot whisper to yourself"
      else
        w ← crit (whisper_section x sender target_user);
        if bool_decide (w.(wt_targets) = []) && w.(wt_ineligible) then
          if w.(wt_blocked_by_sender) then
            send_system_notice x "whisper denied: unblock target first";;
            send_whisper_result x false "recipient blocked by sender"
          else
            send_system_notice x (String.append "user cannot receive whispers (login required): " target_user);;
            send_whisper_result x false "recipient not eligible"
        else
          ts ← ask WallMsQ;
          let outgoing := emit [Send x (WhisperNotice sender target_user text (u64 ts) true) 0];;
                          send_whisper_result x true EmptyString in
          let incoming := WhisperNotice sender target_user text (u64 ts) false in
          if bool_decide (w.(wt_targets) = []) then
            routed ← (if redis_ && redis_pubsub_enabled_
                      then try_catch
                             (call (RedisPublish (String.append presence_prefix "fanout:whisper")
                                      (String.append "gw=" gateway_id_) (Some incoming)))
                             (mret false)
                      else mret false : prog bool);
            if negb routed then
              send_system_notice x (String.append "user not found: " target_user);;
              send_whisper_result x false "user not found"
            else outgoing
          else
            emit ((fun t => Send t incoming 0) <$> w.(wt_targets));;
            outgoing.

(** A whisper of another server, already parsed. *)
Definition deliver_remote_whisper (sender recipient text : string) (ts : Z) : prog unit :=
  if bool_decide (sender = EmptyString) || bool_decide (recipient = EmptyString)
     || bool_decide (text = EmptyString) then mret tt
  else
    targets ← crit (fun al s =>
      if has_blocked s recipient sender then (s, [], [])
      else let '(s, live) := collect_user al recipient s in
           (s, [], filter (fun p => whisper_eligible s p = true) live));
    emit ((fun t => Send t (WhisperNotice sender recipient text ts false) 0) <$> targets).

(** A chat message of another server; [sender] is empty when the body does not parse. *)
Definition broadcast_room (room sender : string) (body : Msg) : prog unit :=
  targets ← crit (fun al s =>
    let '(s, live) := collect_room al room s in
    (s, [], if bool_decide (sender = EmptyString) then live else filter_targets s sender live));
  emit ((fun t => Send t body 0) <$> targets).

(** The arguments of [/whisper] and [/w]. *)
Definition whisper_args (text : string) : option (string * string) :=
  let args := str_drop (if String.prefix "/whisper " text then 9 else 3) text in
  let args := if bool_decide (skip_while is_blank args = EmptyString) then args else skip_while is_blank args in
  let (target_user, rest) := take_until is_blank args in
  match rest with
  | EmptyString => None
  | String _ wtext =>
      let wtext := if bool_decide (skip_while is_blank wtext = EmptyString) then wtext
                   else skip_while is_blank wtext in
      if bool_decide (target_user = EmptyString) || bool_decide (wtext = EmptyString) then None
      else Some (target_user, wtext)
  end.

Definition cmd_whisper (x : Z) (text : string) : prog unit :=
  match whisper_args text with
  | None => send_system_notice x "usage: /whisper <user> <message>";;
            send_whisper_result x false "invalid payload"
  | Some (target_user, wtext) => dispatch_whisper x target_user wtext
  end.
End commands.
