(* ===== verification/ChatSend.v ===== *)
(** The chat handler of [handlers_chat.cpp], with its spam gate, and the other
    requests of a client that end in a job. *)

From S2P Require Import Prelude Text ProtocolErrors Utf8 ChatText ChatState ChatCore ChatViews ChatRooms ChatCommands.

Section send.
  Context `{!ChatEnv}.

(** ** The gate *)

Inductive Gate :=
  | GuestCannotChat
  | Banned (why : string)
  | Muted (why : string)
  | SpamMuted (why : string)
  | SpamBanned (why : string) (sessions : list Z)
  | Pass (sender : string).

(** [while (!events.empty() && events.front() < cutoff) events.pop_front()]. *)
Fixpoint drop_old (cutoff : Z) (events : list Z) : list Z :=
  match events with
  | e :: rest => if e <? cutoff then drop_old cutoff rest else events
  | [] => []
  end.

(** The count of messages of a sender that is neither muted nor banned. *)
Definition spam_check (sender : string) (now : Z) (al : gset Z) (s : State) : State * Gate :=
  let cfg := s.(settings) in
  let events := drop_old (now - sec cfg.(spam_window_sec))
                  (default [] (s.(moderation).(spam_events) !! sender)) ++ [now] in
  if zlen events <=? cfg.(spam_message_threshold)
  then (set_spam_events (<[sender := events]> s.(moderation).(spam_events)) s, Pass sender)
  else
    let violations := u32 (default 0 (s.(moderation).(spam_violations) !! sender) + 1) in
    let s := set_spam_events (<[sender := []]> s.(moderation).(spam_events)) s in
    let s := set_spam_violations (<[sender := violations]> s.(moderation).(spam_violations)) s in
    if cfg.(spam_ban_violation_threshold) <=? violations then
      let why := "temporarily banned for repeated spam"%string in
      let '(s, sessions) := collect_user al sender (ban_user sender (now + sec cfg.(spam_ban_sec)) why s) in
      (s, SpamBanned why sessions)
    else
      let why := "temporarily muted for spam"%string in
      (mute_user sender (now + sec cfg.(spam_mute_sec)) why s, SpamMuted why).

Definition gate_section (x now : Z) (al : gset Z) (s : State) : State * list Out * Gate :=
  let sender := name_or_guest s x in
  if bool_decide (sender = "guest"%string)
  then (s, [SendError x UNAUTHORIZED "guest cannot chat"], GuestCannotChat)
  else
    let '(mu, muted) := penalty_check now sender s.(moderation).(muted_users) "temporarily muted" in
    let s := set_muted_users mu s in
    let '(bu, banned) := penalty_check now sender s.(moderation).(banned_users) "temporarily banned" in
    let s := set_banned_users bu s in
    if bool_decide (banned <> EmptyString) then (s, [], Banned banned)
    else if bool_decide (muted <> EmptyString) then (s, [], Muted muted)
    else let '(s, g) := spam_check sender now al s in (s, [], g).

(** What the sender is told when the message is refused. *)
Definition refuse (x : Z) (why : string) : prog unit :=
  send_system_notice x why;; emit [SendError x FORBIDDEN why].

(** ** A chat message *)

Definition chat_targets (sender room : string) (al : gset Z) (s : State) : State * list Out * list Z :=
  let '(s, live) := collect_room al room s in (s, [], filter_targets s sender live).

(** The message in the database: the room's and the message's identifiers, kept as far as
    they were assigned when an exception is caught. *)
Definition persist_message (x : Z) (room text : string) : prog (string * Z) :=
  rid ← ensure_room_id_ci room;
  if bool_decide (rid = EmptyString) then mret (EmptyString, 0)
  else
    uid_opt ← reads (fun s => s.(session_tables).(user_uuid) !! x);
    created ← try_catch (_ ← call DbBegin; id ← call (DbCreateMessage rid room uid_opt text); mret (Some id))
                        (mret None);
    match created with
    | None => mret (rid, 0)
    | Some id => try_catch (_ ← call DbCommit; mret tt) (mret tt);; mret (rid, id)
    end.

Definition broadcast_message (x : Z) (room sender text : string) : prog unit :=
  targets ← crit (chat_targets sender room);
  ts ← ask WallMsQ;
  let body := ChatBroadcast room sender text (session_id x) (u64 ts) in
  '(rid, id) ← (if db_pool_ then persist_message x room text else mret (EmptyString, 0));
  when (redis_ && bool_decide (rid <> EmptyString) && negb (id =? 0))
    (_ ← cache_recent_message rid (mkSnapshotMessage id sender text (u64 ts)); mret tt);;
  emit (match targets with
        | [] => [Send x body FLAG_SELF]
        | _ => (fun t => Send t body (if bool_decide (t = x) then FLAG_SELF else 0)) <$> targets
        end);;
  when redis_ (try_catch (uid ← reads (fun s => uuid_of s x); touch_user_presence uid) (mret tt));;
  when (redis_ && redis_pubsub_enabled_)
    (try_catch
       (_ ← call (RedisPublish (String.append presence_prefix (String.append "fanout:room:" room))
                    (String.append "gw=" gateway_id_) (Some body));
        mret tt)
       (mret tt));;
  when (db_pool_ && (0 <? id) && bool_decide (rid <> EmptyString))
    (uid ← reads (fun s => uuid_of s x);
     when (bool_decide (uid <> EmptyString))
       (try_catch (_ ← call DbBegin; _ ← call (DbUpdateLastSeen uid rid id); _ ← call DbCommit; mret tt)
                  (mret tt))).

(** The plugins may answer the sender, stop the message or change its text. *)
Definition plain_message (x : Z) (room text : string) : prog unit :=
  now ← ask NowQ;
  gate ← crit (gate_section x now);
  match gate with
  | GuestCannotChat => mret tt
  | Banned why => refuse x why;; emit [Stop x]
  | Muted why | SpamMuted why => refuse x why
  | SpamBanned why sessions => refuse x why;; disconnect_all why sessions
  | Pass sender =>
      hook ← ask (ChatHookQ x room sender text);
      match hook with
      | None => broadcast_message x room sender text
      | Some (out, text') =>
          for_each (fun n => if bool_decide (n <> EmptyString) then send_system_notice x n else mret tt)
            out.(notices);;
          if out.(stop_default) then mret tt else broadcast_message x room sender text'
      end
  end.

(** [handle_refresh]: a snapshot, and the room's messages count as seen. *)
Definition handle_refresh (x : Z) : prog unit :=
  current ← reads (fun s => default "lobby"%string (s.(session_tables).(cur_room) !! x));
  send_snapshot x current;;
  when db_pool_
    (uid ← reads (fun s => uuid_of s x);
     if bool_decide (uid = EmptyString) then mret tt
     else
       rid ← ensure_room_id_ci current;
       if bool_decide (rid = EmptyString) then mret tt
       else
         try_catch
           (_ ← call DbBegin;
            last_id ← call (DbGetLastId rid);
            when (0 <? last_id) (_ ← call (DbUpdateLastSeen uid rid last_id); _ ← call DbCommit; mret tt))
           (mret tt)).

(** ** Dispatch of a chat message *)

(** The room of the session, if the message may be handled. *)
Definition room_check (x : Z) (requested : string) (_ : gset Z) (s : State)
    : State * list Out * option string :=
  if negb (bool_decide (x ∈ s.(session_tables).(authed)))
  then (s, [SendError x UNAUTHORIZED "unauthorized"], None)
  else match s.(session_tables).(cur_room) !! x with
       | None => (s, [SendError x NO_ROOM "no current room"], None)
       | Some room =>
           if bool_decide (requested <> EmptyString) && bool_decide (requested <> room)
           then (s, [SendError x ROOM_MISMATCH "room mismatch"], None)
           else (s, [], Some room)
       end.

Definition who_target (text current_room : string) : string :=
  let rest := skip_while is_blank (str_drop 4 text) in
  if bool_decide (rest = EmptyString) then current_room else rest.

Definition slash_command (x : Z) (room text : string) : option (prog unit) :=
  if bool_decide (text = "/rooms"%string) then Some (send_rooms_list x)
  else if String.prefix "/who" text then Some (send_room_users x (who_target text room))
  else if String.prefix "/whisper " text || String.prefix "/w " text then Some (cmd_whisper x text)
  else if String.prefix "/invite " text then Some (cmd_invite x room (str_drop 8 text))
  else if String.prefix "/kick " text then Some (cmd_kick x room (str_drop 6 text))
  else if String.prefix "/room remove" text then Some (cmd_room_remove x room (str_drop 12 text))
  else if String.prefix "/mute " text then Some (cmd_mute x (str_drop 6 text))
  else if String.prefix "/unmute " text then Some (cmd_unmute x (str_drop 8 text))
  else if String.prefix "/ban " text then Some (cmd_ban x (str_drop 5 text))
  else if String.prefix "/unban " text then Some (cmd_unban x (str_drop 7 text))
  else if String.prefix "/gkick " text then Some (cmd_gkick x (str_drop 7 text))
  else if String.prefix "/block " text || String.prefix "/unblock " text || String.prefix "/blacklist" text
  then Some (cmd_blacklist x text)
  else None.

Definition chat_job (x : Z) (requested text : string) : prog unit :=
  if bool_decide (text = "/refresh"%string) then handle_refresh x
  else
    room ← crit (room_check x requested);
    match room with
    | None => mret tt
    | Some room =>
        match slash_command x room text with
        | Some p => p
        | None => plain_message x room text
        end
    end.

Definition on_chat_send (x : Z) (payload : list Z) : option Front :=
  let bad := Some (Reject [SendError x INVALID_PAYLOAD "bad chat payload"]) in
  match read_lp_utf8 payload with
  | None => None
  | Some None => bad
  | Some (Some (room, sp)) =>
      match read_lp_utf8 sp with
      | None => None
      | Some None => bad
      | Some (Some (text, _)) => Some (Submit (chat_job x room text))
      end
  end.

Definition on_whisper (x : Z) (payload : list Z) : option Front :=
  let bad := Some (Reject [SendError x INVALID_PAYLOAD "bad whisper payload"]) in
  match read_lp_utf8 payload with
  | None => None
  | Some None => bad
  | Some (Some (target, sp)) =>
      match read_lp_utf8 sp with
      | None => None
      | Some None => bad
      | Some (Some (text, _)) => Some (Submit (dispatch_whisper x target text))
      end
  end.

Definition on_rooms_request (x : Z) : Front := Submit (send_rooms_list x).
Definition on_refresh_request (x : Z) : Front := Submit (handle_refresh x).

Definition room_users_job (x : Z) (requested : string) : prog unit :=
  target ← (if bool_decide (requested = EmptyString)
            then reads (fun s => default "lobby"%string (s.(session_tables).(cur_room) !! x))
            else mret requested : prog string);
  send_room_users x target.

Definition on_room_users_request (x : Z) (payload : list Z) : option Front :=
  match read_lp_utf8 payload with
  | None => None
  | Some r => Some (Submit (room_users_job x (from_option fst EmptyString r)))
  end.
End send.
