(* ===== verification/ChatAdmin.v ===== *)
(** The administrator's interface of the chat service ([chat_service_core.cpp]): runtime
    settings with the rules of [core/config/runtime_settings.hpp], moderation, notices;
    and the calls that Lua scripts make. *)

From S2P Require Import Prelude Text ChatText ChatState ChatCore ChatViews ChatRooms ChatCommands.

(** ** Runtime settings *)

Inductive RuntimeSettingKey :=
  | kPresenceTtlSec | kRecentHistoryLimit | kRoomRecentMaxlen | kChatSpamThreshold
  | kChatSpamWindowSec | kChatSpamMuteSec | kChatSpamBanSec | kChatSpamBanViolations.

#[global] Instance RuntimeSettingKey_eq_dec : EqDecision RuntimeSettingKey.
Proof. solve_decision. Defined.

Record RuntimeSettingRule := mkRule {
  key_id : RuntimeSettingKey;
  key_name : string;
  min_value : Z;
  max_value : Z;
}.

Definition kRuntimeSettingRules : list RuntimeSettingRule := [
  mkRule kPresenceTtlSec "presence_ttl_sec" 5 3600;
  mkRule kRecentHistoryLimit "recent_history_limit" 5 2000;
  mkRule kRoomRecentMaxlen "room_recent_maxlen" 5 5000;
  mkRule kChatSpamThreshold "chat_spam_threshold" 3 100;
  mkRule kChatSpamWindowSec "chat_spam_window_sec" 1 120;
  mkRule kChatSpamMuteSec "chat_spam_mute_sec" 5 86400;
  mkRule kChatSpamBanSec "chat_spam_ban_sec" 10 604800;
  mkRule kChatSpamBanViolations "chat_spam_ban_violations" 1 20
].

Fixpoint find_rule (key : string) (rules : list RuntimeSettingRule) : option RuntimeSettingRule :=
  match rules with
  | [] => None
  | r :: rest => if bool_decide (r.(key_name) = key) then Some r else find_rule key rest
  end.

Definition find_runtime_setting_rule (key : string) : option RuntimeSettingRule :=
  find_rule key kRuntimeSettingRules.

(** The switch that stores the value. *)
Definition store_setting (k : RuntimeSettingKey) (v : Z) (c : Settings) : Settings :=
  let 'mkSettings ttl limit maxlen thr win mute ban viol := c in
  match k with
  | kPresenceTtlSec => mkSettings v limit maxlen thr win mute ban viol
  | kRecentHistoryLimit => mkSettings ttl v (if maxlen <? v then v else maxlen) thr win mute ban viol
  | kRoomRecentMaxlen => mkSettings ttl limit v thr win mute ban viol
  | kChatSpamThreshold => mkSettings ttl limit maxlen v win mute ban viol
  | kChatSpamWindowSec => mkSettings ttl limit maxlen thr v mute ban viol
  | kChatSpamMuteSec => mkSettings ttl limit maxlen thr win v ban viol
  | kChatSpamBanSec => mkSettings ttl limit maxlen thr win mute v viol
  | kChatSpamBanViolations => mkSettings ttl limit maxlen thr win mute ban v
  end.

Inductive SettingResult := Applied (k : string) (v : Z) | Rejected (why : string).

(** The job of [admin_apply_runtime_setting]. *)
Definition apply_setting (key value : string) (c : Settings) : Settings * SettingResult :=
  let normalized_key := to_lower_ascii_local (trim_ascii_local key) in
  match parse_u32 (trim_ascii_local value) with
  | None => (c, Rejected "invalid_value")
  | Some parsed =>
      match find_runtime_setting_rule normalized_key with
      | None => (c, Rejected "unsupported_key")
      | Some rule =>
          let min_allowed := if bool_decide (rule.(key_id) = kRoomRecentMaxlen)
                             then Z.max rule.(min_value) (u32 c.(recent_limit)) else rule.(min_value) in
          if (parsed <? min_allowed) || (rule.(max_value) <? parsed) then (c, Rejected "out_of_range")
          else (store_setting rule.(key_id) parsed c, Applied rule.(key_name) parsed)
      end
  end.

Definition admin_apply_runtime_setting (key value : string) : option (prog unit) :=
  if bool_decide (key = EmptyString) || bool_decide (value = EmptyString) then None
  else Some (crit (fun _ s => (set_settings (apply_setting key value s.(settings)).1 s, [], tt))).

(** ** Moderation *)

Section admin.
  Context `{!ChatEnv}.

(** [add_user_sessions]: the live sessions of the user not seen before. *)
Definition add_user_sessions (al : gset Z) (u : string) (acc : State * list Z) : State * list Z :=
  let '(s, affected) := acc in
  let '(s, live) := collect_user al u s in
  (s, affected ++ filter (fun y => y ∉ affected) live).

Definition moderate_one (op : string) (now duration_sec : Z) (why : string) (al : gset Z)
    (acc : State * list Z) (u : string) : State * list Z :=
  let '(s, affected) := acc in
  let or_default d := if bool_decide (why = EmptyString) then d else why in
  if bool_decide (op = "mute"%string) then
    let seconds := if 0 <? duration_sec then duration_sec else s.(settings).(spam_mute_sec) in
    (mute_user u (now + sec seconds) (or_default "muted by administrator"%string) s, affected)
  else if bool_decide (op = "unmute"%string) then
    (set_muted_users (delete u s.(moderation).(muted_users)) s, affected)
  else if bool_decide (op = "ban"%string) then
    let seconds := if 0 <? duration_sec then duration_sec else s.(settings).(spam_ban_sec) in
    add_user_sessions al u
      (ban_user u (now + sec seconds) (or_default "banned by administrator"%string) s, affected)
  else if bool_decide (op = "unban"%string) then ((unban_user u s).1, affected)
  else if bool_decide (op = "kick"%string) then add_user_sessions al u (s, affected)
  else (s, affected).

Definition moderation_section (op : string) (targets : list string) (now duration_sec : Z) (why : string)
    (al : gset Z) (s : State) : State * list Out * list Z :=
  let '(s, affected) := foldl (moderate_one op now duration_sec why al) (s, []) targets in
  (s, [], affected).

(** The job of [admin_apply_user_moderation] and [apply_user_moderation_without_hook],
    once the plugins have not denied the former. *)
Definition moderation_job (op : string) (targets : list string) (duration_sec : Z) (why : string) : prog unit :=
  now ← ask NowQ;
  affected ← crit (moderation_section op targets now duration_sec why);
  if bool_decide (op = "ban"%string) || bool_decide (op = "kick"%string) then
    disconnect_all
      (if bool_decide (why <> EmptyString) then why
       else if bool_decide (op = "ban"%string) then "temporarily banned"
       else "disconnected by administrator")%string
      affected
  else mret tt.

Definition apply_user_moderation (op : string) (users : list string) (duration_sec : Z) (why : string)
    : option (prog unit) :=
  let targets := filter (fun u => u <> EmptyString) (trim_ascii_local <$> users) in
  if bool_decide (op = EmptyString) || bool_decide (targets = []) then None
  else Some (moderation_job (to_lower_ascii_local (trim_ascii_local op)) targets duration_sec
               (trim_ascii_local why)).

(** ** Disconnects and notices *)

Definition disconnect_section (targets : list string) (al : gset Z) (s : State) : State * list Out * list Z :=
  let step (acc : State * list Z) u :=
    let '(s, sessions) := acc in
    let '(s, live) := collect_user al u s in
    (s, sessions ++ filter (fun y => whisper_eligible s y = true /\ y ∉ sessions) live) in
  let '(s, sessions) := foldl step (s, []) targets in
  (s, [], sessions).

Definition admin_disconnect_users (users : list string) (notice : string) : option (prog unit) :=
  let targets := filter (fun u => u <> EmptyString) users in
  if bool_decide (targets = []) then None
  else Some
    (sessions ← crit (disconnect_section targets);
     for_each (fun y => when (bool_decide (notice <> EmptyString)) (send_system_notice y notice);;
                        emit [Stop y]) sessions).

(** Every logged-in session of every room, once. *)
Definition everyone_section (al : gset Z) (s : State) : State * list Out * list Z :=
  let step (acc : list Z) (kv : string * RoomSet) :=
    acc ++ filter (fun y => whisper_eligible s y = true /\ y ∉ acc) (collect_room_sessions al kv.2).2 in
  let sessions := foldl step [] (table_order s.(room_tables).(rooms)) in
  (set_rooms ((fun X : RoomSet => X ∩ al) <$> s.(room_tables).(rooms)) s, [], sessions).

Definition broadcast_notice_to_all_sessions (notice : string) : option (prog unit) :=
  if bool_decide (notice = EmptyString) then None
  else Some (sessions ← crit everyone_section;
             for_each (fun y => send_system_notice y notice) sessions).

(** ** Calls of Lua scripts *)

Definition find_session_by_id_locked (sid : Z) (al : gset Z) (s : State) : State * option Z :=
  if sid =? 0 then (s, None)
  else match s.(session_tables).(by_session_id) !! sid with
       | None => (s, None)
       | Some x => if decide (x ∈ al) then (s, Some x)
                   else (set_by_session_id (delete sid s.(session_tables).(by_session_id)) s, None)
       end.

Definition lua_get_user_name (sid : Z) : prog (option string) :=
  crit (fun al s => let '(s, x) := find_session_by_id_locked sid al s in
                    (s, [], match x with Some x => s.(session_tables).(user) !! x | None => None end)).

Definition lua_get_user_room (sid : Z) : prog (option string) :=
  crit (fun al s => let '(s, x) := find_session_by_id_locked sid al s in
                    (s, [], match x with Some x => s.(session_tables).(cur_room) !! x | None => None end)).

Definition lua_get_room_owner (room : string) : prog (option string) :=
  if bool_decide (room = EmptyString) then mret None
  else reads (fun s => s.(room_tables).(room_owners) !! room).

Definition lua_get_room_users (room : string) : prog (list string) :=
  if bool_decide (room = EmptyString) then mret []
  else crit (fun al s =>
    let '(s, live) := collect_room al room s in
    (s, [], sort_names (elements (list_to_set
              (omap (fun y => if whisper_eligible s y then s.(session_tables).(user) !! y else None) live)
              : gset string)))).

Definition lua_is_user_muted (nickname : string) : prog bool :=
  if bool_decide (nickname = EmptyString) then mret false
  else
    now ← ask NowQ;
    crit (fun _ s =>
      match s.(moderation).(muted_users) !! nickname with
      | None => (s, [], false)
      | Some p => if p.(expires_at) <=? now
                  then (set_muted_users (delete nickname s.(moderation).(muted_users)) s, [], false)
                  else (s, [], true)
      end).

Definition lua_is_user_banned (nickname : string) : prog bool :=
  if bool_decide (nickname = EmptyString) then mret false
  else
    now ← ask NowQ;
    crit (fun _ s =>
      match s.(moderation).(banned_users) !! nickname with
      | None => (s, [], false)
      | Some p => if p.(expires_at) <=? now
                  then (set_banned_users (delete nickname s.(moderation).(banned_users)) s, [], false)
                  else (s, [], true)
      end).

Definition lua_send_notice (sid : Z) (text : string) : prog bool :=
  if (sid =? 0) || bool_decide (text = EmptyString) then mret false
  else
    x ← crit (fun al s => let '(s, x) := find_session_by_id_locked sid al s in (s, [], x));
    match x with
    | None => mret false
    | Some x => send_system_notice x text;; mret true
    end.

Definition lua_kick_user (sid : Z) (why : string) : prog bool :=
  if sid =? 0 then mret false
  else
    x ← crit (fun al s => let '(s, x) := find_session_by_id_locked sid al s in (s, [], x));
    match x with
    | None => mret false
    | Some x => when (bool_decide (why <> EmptyString)) (send_system_notice x why);;
                emit [Stop x];; mret true
    end.

Definition lua_broadcast_room (room text : string) : prog bool :=
  if bool_decide (room = EmptyString) || bool_decide (text = EmptyString) then mret false
  else
    known ← reads (fun s => bool_decide (is_Some (s.(room_tables).(rooms) !! room)));
    if negb known then mret false
    else ts ← ask WallMsQ;
         broadcast_room room "(system)" (ChatBroadcast room "(system)" text 0 (u64 ts));; mret true.
End admin.
