(* ===== verification/AdminQuery.v ===== *)
(** The requests of the administration service, first part of
    [tools/admin_app/main.cpp]: settings from the environment, roles, decoding of query
    strings and bodies, the parameters common to all endpoints, selectors, names of
    resources, URLs, and the pieces of JSON the answers are made of.

    The JSON library is a parameter [parse], from a text to a document, [None] when the
    text is malformed.  Objects list their members in the order of the library's map. *)

From stdpp Require Import sorting.
From S2P Require Import Prelude Text ChatText GatewayConfig InstanceRegistry HttpServer ChatAdmin.

(** ** Settings *)

Section environment.
Context (getenv : string -> option string).

Definition read_env_string (key fallback : string) : string := default fallback (env_value getenv key).

Definition read_env_bounded (key : string) (fallback min_value max_value : Z) : Z :=
  match env_value getenv key with
  | Some v => match stoull v with
              | Some (parsed, _) => if (min_value <=? parsed) && (parsed <=? max_value) then parsed else fallback
              | None => fallback
              end
  | None => fallback
  end.
Definition read_env_u16 (key : string) (fallback min_value max_value : Z) : Z :=
  u16 (read_env_bounded key fallback min_value max_value).
Definition read_env_u32 (key : string) (fallback min_value max_value : Z) : Z :=
  u32 (read_env_bounded key fallback min_value max_value).

Definition yes_text (s : string) : bool := bool_decide (s ∈ ["1"; "true"; "yes"; "on"]%string).
Definition no_text (s : string) : bool := bool_decide (s ∈ ["0"; "false"; "no"; "off"]%string).

Definition read_env_bool (key : string) (fallback : bool) : bool :=
  match env_value getenv key with
  | Some v =>
      let value := to_lower_ascii (trim_ascii v) in
      if yes_text value then true else if no_text value then false else fallback
  | None => fallback
  end.
End environment.

(** ** Text *)

Definition bool_json (value : bool) : string := if value then "true" else "false".

Definition escape_char (c : Ascii.ascii) : string :=
  let b := byte_of_ascii c in
  let two n := str [ascii_of_byte 92; ascii_of_byte n] in
  if b =? 92 then two 92 else if b =? 34 then two 34 else if b =? 10 then two 110
  else if b =? 13 then two 114 else if b =? 9 then two 116 else String c EmptyString.
Fixpoint json_escape (input : string) : string :=
  match input with
  | String c input => escape_char c +:+ json_escape input
  | EmptyString => EmptyString
  end.

(** What the answers are built from: a quoted text, an object and an array. *)
Definition jstr (s : string) : string := quote +:+ json_escape s +:+ quote.
Definition jnum (n : Z) : string := to_string n.
Definition join_comma (l : list string) : string := str (join_sep 44 (map chars_of l)).
Definition jobj (members : list (string * string)) : string :=
  "{" +:+ join_comma (map (fun m => quote +:+ m.1 +:+ quote +:+ ":" +:+ m.2) members) +:+ "}".
Definition jarr (items : list string) : string := "[" +:+ join_comma items +:+ "]".

Definition hex_value (c : Ascii.ascii) : option Z :=
  let b := byte_of_ascii c in
  if (48 <=? b) && (b <=? 57) then Some (b - 48)
  else if (97 <=? b) && (b <=? 102) then Some (10 + (b - 97))
  else if (65 <=? b) && (b <=? 70) then Some (10 + (b - 65))
  else None.

Fixpoint url_decode (raw : string) : string :=
  match raw with
  | EmptyString => EmptyString
  | String c rest =>
      if byte_of_ascii c =? 43 then String (ascii_of_byte 32) (url_decode rest)
      else if byte_of_ascii c =? 37 then
        match rest with
        | String h (String l rest') =>
            match hex_value h, hex_value l with
            | Some hi, Some lo => String (ascii_of_byte (Z.lor (Z.shiftl hi 4) lo)) (url_decode rest')
            | _, _ => String c (url_decode rest)
            end
        | _ => String c (url_decode rest)
        end
      else String c (url_decode rest)
  end.

Definition one_line (c : Ascii.ascii) : Ascii.ascii :=
  if (byte_of_ascii c =? 10) || (byte_of_ascii c =? 13) then ascii_of_byte 32 else c.
Definition sanitize_single_line (value : string) : string := trim_ascii (str (map one_line (chars_of value))).

(** The loops over the tokens end with the text; [split_sep] is their list of tokens. *)
Definition split_csv_trimmed (raw : string) : list string :=
  List.filter (fun t => negb (bool_decide (t = EmptyString)))
    (map (fun t => trim_ascii (str t)) (split_sep 44 (chars_of raw))).
Definition join_csv (values : list string) : string := join_comma values.

(** ** Roles *)

Definition normalize_role (value : string) : string := to_lower_ascii (trim_ascii value).
Definition is_supported_role (role : string) : bool := bool_decide (role ∈ ["viewer"; "operator"; "admin"]%string).

Definition kRoleRanks : list (string * Z) := [("admin"%string, 2); ("operator"%string, 1)].
Definition role_rank (role : string) : Z :=
  match find (fun entry => bool_decide (entry.1 = role)) kRoleRanks with Some (_, rank) => rank | None => 0 end.
Definition has_min_role (actual required : string) : bool := role_rank required <=? role_rank actual.

Inductive AdminAuthMode := kOff | kHeader | kBearer | kHeaderOrBearer.

#[export] Instance AdminAuthMode_eq_dec : EqDecision AdminAuthMode.
Proof. solve_decision. Defined.

Definition kAuthModes : list (string * AdminAuthMode) :=
  [("header"%string, kHeader); ("bearer"%string, kBearer); ("header_or_bearer"%string, kHeaderOrBearer);
   ("header-or-bearer"%string, kHeaderOrBearer)].
Definition parse_auth_mode (raw : string) : AdminAuthMode :=
  let mode := to_lower_ascii (trim_ascii raw) in
  match find (fun entry => bool_decide (entry.1 = mode)) kAuthModes with Some (_, m) => m | None => kOff end.
Definition auth_mode_to_string (mode : AdminAuthMode) : string :=
  match mode with
  | kOff => "off" | kHeader => "header" | kBearer => "bearer" | kHeaderOrBearer => "header_or_bearer"
  end.

Definition parse_bearer_token (authorization_value : string) : option string :=
  if slen authorization_value <? 7 then None
  else if negb (bool_decide (to_lower_ascii (str_take 7 authorization_value) = "bearer "%string)) then None
  else let token := trim_ascii (str_drop 7 authorization_value) in
       if bool_decide (token = EmptyString) then None else Some token.

Definition parse_http_status_code (status_line : string) : Z :=
  match scan_number status_line with
  | Some (v, neg, _) => if 2 ^ 32 <=? v then 2 ^ 32 - 1 else if neg : bool then u32 (- v) else v
  | None => 0
  end.

(** ** Queries *)

Record SplitTarget := mkSplitTarget { path : string; query : string }.
Definition is_char (n : Z) (c : Ascii.ascii) : bool := byte_of_ascii c =? n.

Definition split_target (target : string) : SplitTarget :=
  let (p, rest) := take_until (is_char 63) target in mkSplitTarget p (str_drop 1 rest).

Definition parse_u32_strict (raw : string) : option Z := parse_u32 raw.
Definition parse_u64_strict (raw : string) : option Z :=
  if bool_decide (raw = EmptyString) then None
  else match stoull raw with
       | Some (parsed, rest) => if negb (bool_decide (rest = [])) then None else Some parsed
       | None => None
       end.

Abbreviation params_t := (gmap string string).

Definition add_pair (out : params_t) (pair : string) : params_t :=
  if bool_decide (pair = EmptyString) then out
  else let (k, rest) := take_until (is_char 61) pair in
       let key := url_decode k in
       let value := url_decode (str_drop 1 rest) in
       match out !! key with Some _ => out | None => <[key := value]> out end.
Definition parse_query_string (query : string) : params_t :=
  fold_left (fun out t => add_pair out (str t)) (split_sep 38 (chars_of query)) ∅.

Definition encode_query_string (params : params_t) : string :=
  str (join_sep 38 (map (fun kv => chars_of (kv.1 +:+ "=" +:+ kv.2)) (merge_sort key_le (map_to_list params)))).

(** ** Bodies *)

Inductive json :=
  | JNull
  | JBool (b : bool)
  | JInteger (z : Z)      (** a negative number *)
  | JUnsigned (n : Z)
  | JFloat
  | JString (s : string)
  | JArray (l : list json)
  | JObject (members : list (string * json)).

(** [is_number_integer] also holds of an unsigned number; [get<long long>] wraps. *)
Definition get_long_long (v : json) : option Z :=
  match v with
  | JInteger z => Some z
  | JUnsigned n => Some (if n <? 2 ^ 63 then n else n - 2 ^ 64)
  | _ => None
  end.

Definition json_scalar (v : json) : option string :=
  match v with JString s => Some s | _ => to_string <$> get_long_long v end.

Definition merge_member (params : params_t) (member : string * json) : params_t :=
  let '(k, v) := member in
  match json_scalar v with
  | Some s => <[k := s]> params
  | None =>
      match v with
      | JArray items =>
          if bool_decide (k = "client_ids"%string)
          then <[k := join_csv (omap json_scalar items)]> params else params
      | _ => params
      end
  end.

Record Error := mkError { error_status : string; error_code : string; error_message : string }.

Definition content_type (request : HttpRequest) : string :=
  match headers request !! "content-type"%string with
  | Some v => to_lower_ascii (trim_ascii v)
  | None => EmptyString
  end.

Section bodies.
Context (parse : string -> option json).

Definition merge_write_params_from_request (query : string) (request : HttpRequest) : string + Error :=
  let params := parse_query_string query in
  if bool_decide (body request = EmptyString) then inl (encode_query_string params)
  else
    let is_json := String.prefix "application/json" (content_type request) in
    let is_form := String.prefix "application/x-www-form-urlencoded" (content_type request) in
    if negb is_json && negb is_form then
      inr (mkError "415 Unsupported Media Type" "UNSUPPORTED_CONTENT_TYPE"
             "write endpoints support application/json or application/x-www-form-urlencoded")
    else if is_form then inl (encode_query_string (parse_query_string (body request) ∪ params))
    else match parse (body request) with
         | Some (JObject members) => inl (encode_query_string (fold_left merge_member members params))
         | _ => inr (mkError "400 Bad Request" "BAD_REQUEST" "malformed JSON body")
         end.
End bodies.

(** ** Options and selectors *)

Definition kDefaultTimeoutMs : Z := 1500.
Definition kMaxTimeoutMs : Z := 5000.
Definition kDefaultLimit : Z := 100.
Definition kMaxLimit : Z := 500.

Record QueryOptions := mkQueryOptions {
  timeout_ms : Z;
  limit : Z;
  cursor : string;
  timeout_overridden : bool;
  limit_overridden : bool;
}.
Definition default_QueryOptions : QueryOptions := mkQueryOptions kDefaultTimeoutMs kDefaultLimit EmptyString false false.

(** A rejected parameter: the message, its name and its value. *)
Record BadParam := mkBadParam { bad_message : string; bad_param : string; bad_value : string }.

Definition bounded_param (params : params_t) (key : string) (fallback max : Z) (message : string) :
    (Z * bool) + BadParam :=
  match params !! key with
  | None => inl (fallback, false)
  | Some raw =>
      match parse_u32_strict raw with
      | Some value => if (value =? 0) || (max <? value) then inr (mkBadParam message key raw) else inl (value, true)
      | None => inr (mkBadParam message key raw)
      end
  end.

Definition parse_common_query_options (query : string) : QueryOptions + BadParam :=
  if bool_decide (query = EmptyString) then inl default_QueryOptions
  else
    let params := parse_query_string query in
    match bounded_param params "timeout_ms" kDefaultTimeoutMs kMaxTimeoutMs "timeout_ms must be between 1 and 5000" with
    | inr e => inr e
    | inl (timeout, timeout_set) =>
        match bounded_param params "limit" kDefaultLimit kMaxLimit "limit must be between 1 and 500" with
        | inr e => inr e
        | inl (limit, limit_set) =>
            inl (mkQueryOptions timeout limit (default EmptyString (params !! "cursor"%string)) timeout_set limit_set)
        end
    end.

Record SelectorParseResult := mkSelectorParseResult {
  selector : InstanceSelector;
  selector_specified : bool;
  all_specified : bool;
}.
Definition no_selector : InstanceSelector := mkInstanceSelector false [] [] [] [] [] [].

Definition selector_keys : list string := ["server_ids"; "roles"; "game_modes"; "regions"; "shards"; "tags"]%string.

(** The fields [parse_csv_field] reads, after [all]. *)
Definition csv_field (params : params_t) (key : string) : list string :=
  match params !! key with Some v => split_csv_trimmed v | None => [] end.
Definition csv_selector (params : params_t) (all : bool) : InstanceSelector :=
  mkInstanceSelector all (csv_field params "server_ids") (csv_field params "roles") (csv_field params "game_modes")
    (csv_field params "regions") (csv_field params "shards") (csv_field params "tags").
Definition csv_specified (params : params_t) : bool :=
  existsb (fun key => bool_decide (is_Some (params !! key))) selector_keys.

(** A boolean, where an empty text is true. *)
Definition parse_all (raw : string) : option bool :=
  let normalized := to_lower_ascii (trim_ascii raw) in
  if bool_decide (normalized = EmptyString) || yes_text normalized then Some true
  else if no_text normalized then Some false else None.

Definition parse_instance_selector_query (query : string) : SelectorParseResult + BadParam :=
  if bool_decide (query = EmptyString) then inl (mkSelectorParseResult no_selector false false)
  else
    let params := parse_query_string query in
    match params !! "all"%string with
    | None => inl (mkSelectorParseResult (csv_selector params false) (csv_specified params) false)
    | Some raw =>
        match parse_all raw with
        | Some all => inl (mkSelectorParseResult (csv_selector params all) true true)
        | None => inr (mkBadParam "all must be a boolean value" "all" raw)
        end
    end.

Definition append_csv_field (key : string) (values : list string) (fields : params_t) : params_t :=
  if nonempty values then <[key := join_csv values]> fields else fields.

Definition append_selector_command_fields (s : SelectorParseResult) (fields : params_t) : params_t :=
  if negb (selector_specified s) then fields
  else
    let fields := if all_specified s then <["all"%string := if sel_all (selector s) then "1"%string else "0"%string]> fields
                  else fields in
    append_csv_field "tags" (sel_tags (selector s))
      (append_csv_field "shards" (shards (selector s))
        (append_csv_field "regions" (regions (selector s))
          (append_csv_field "game_modes" (game_modes (selector s))
            (append_csv_field "roles" (roles (selector s))
              (append_csv_field "server_ids" (server_ids (selector s)) fields))))).

(** The member [selector] of an answer. *)
Definition append_selector_response_json (s : SelectorParseResult) : string * string :=
  ("selector"%string,
   jobj [("applied"%string, bool_json (selector_specified s));
         ("layer"%string, quote +:+ selector_policy_layer_name (classify_selector_policy_layer (selector s)) +:+ quote)]).

Definition json_details (key value : string) : string := jobj [(json_escape key, jstr value)].
Definition bad_param_details (e : BadParam) : string :=
  jobj [("parameter"%string, jstr (bad_param e)); ("value"%string, jstr (bad_value e))].

(** ** Resources and URLs *)

Definition kExactRoutes : list (string * string) :=
  [("/api/v1/auth/context", "auth_context"); ("/api/v1/overview", "overview"); ("/api/v1/instances", "instances");
   ("/api/v1/users", "users"); ("/api/v1/ext/inventory", "ext_inventory"); ("/api/v1/ext/precheck", "ext_precheck");
   ("/api/v1/ext/deployments", "ext_deployments"); ("/api/v1/ext/schedules", "ext_schedules");
   ("/api/v1/users/disconnect", "users_disconnect"); ("/api/v1/users/mute", "users_mute");
   ("/api/v1/users/unmute", "users_unmute"); ("/api/v1/users/ban", "users_ban"); ("/api/v1/users/unban", "users_unban");
   ("/api/v1/users/kick", "users_kick"); ("/api/v1/announcements", "announcements");
   ("/api/v1/settings", "runtime_settings"); ("/api/v1/worker/write-behind", "worker_write_behind");
   ("/api/v1/metrics/links", "metrics_links"); ("/admin", "admin_ui")]%string.
Definition kPrefixRoutes : list (string * string) :=
  [("/api/v1/instances/", "instance_detail"); ("/api/v1/sessions/", "session_lookup")]%string.

Definition resource_from_path (path : string) : string :=
  match find (fun r => bool_decide (r.1 = path)) kExactRoutes with
  | Some (_, resource) => resource
  | None =>
      if bool_decide (path = "/admin/"%string) then "admin_ui"
      else match find (fun r => String.prefix r.1 path) kPrefixRoutes with
           | Some (_, resource) => resource
           | None => "unknown"
           end
  end.

Definition runtime_setting_range_error_message (rule : RuntimeSettingRule) : string :=
  key_name rule +:+ " must be " +:+ to_string (min_value rule) +:+ ".." +:+ to_string (max_value rule).

Definition ensure_trailing_slash (value : string) : string :=
  if bool_decide (value = EmptyString) then value else with_slash value.

Record HttpUrl := mkHttpUrl { url_host : string; url_port : Z; url_target : string }.

(** The text before and after the last occurrence of a character. *)
Fixpoint split_last (n : Z) (s : string) : option (string * string) :=
  match s with
  | EmptyString => None
  | String c s' =>
      match split_last n s' with
      | Some (before, after) => Some (String c before, after)
      | None => if is_char n c then Some (EmptyString, s') else None
      end
  end.

Definition parse_http_url (raw : string) : option HttpUrl :=
  if negb (String.prefix "http://" raw) then None
  else
    let rest := str_drop 7 raw in
    if bool_decide (rest = EmptyString) then None
    else
      let (host_port, tail) := take_until (is_char 47) rest in
      let target := if bool_decide (tail = EmptyString) then "/"%string else tail in
      if bool_decide (host_port = EmptyString) then None
      else match split_last 58 host_port with
           | None => Some (mkHttpUrl host_port 80 target)
           | Some (host, port_part) =>
               if bool_decide (host = EmptyString) || bool_decide (port_part = EmptyString) then None
               else match stoull port_part with
                    | Some (parsed, _) =>
                        if (parsed =? 0) || (65535 <? parsed) then None else Some (mkHttpUrl host (u16 parsed) target)
                    | None => None
                    end
           end.
