(* ===== verification/AdminState.v ===== *)
(** The administration service, second part of [tools/admin_app/main.cpp]: its
    configuration, its state, authentication, the answers, the audit record of a request
    and the signing of commands.

    The state has the caches the poller fills, the extensions with their deployments, the
    counters, and a trace of what leaves the process: published commands, audit records
    and the file of deployments.  HMAC is a parameter, as in [AdminAuth.v]; the clock and
    the random nonce are arguments. *)

From S2P Require Import Prelude Text ChatText AdminAuth GatewayConfig InstanceRegistry HttpServer AppHost ChatAdmin AdminQuery.

(** ** Configuration *)

Record AdminConfig := mkAdminConfig {
  metrics_port_ : Z;
  poll_interval_ms_ : Z;
  audit_trend_max_points_ : Z;
  instance_metrics_port_ : Z;
  redis_uri_ : string;
  registry_prefix_ : string;
  session_prefix_ : string;
  redis_channel_prefix_ : string;
  registry_ttl_sec_ : Z;
  worker_metrics_raw_url_ : string;
  worker_metrics_url_ : option HttpUrl;
  grafana_base_url_ : string;
  prometheus_base_url_ : string;
  admin_read_only_ : bool;
  admin_command_signing_secret_ : string;
  ext_plugins_dir_ : string;
  ext_plugins_fallback_dir_ : string;
  ext_scripts_dir_ : string;
  ext_scripts_fallback_dir_ : string;
  ext_schedule_store_path_ : string;
  ext_max_clock_skew_ms_ : Z;
  ext_force_fail_wave_index_ : Z;
  auth_mode_ : AdminAuthMode;
  auth_off_role_ : string;
  auth_user_header_name_ : string;
  auth_role_header_name_ : string;
  auth_bearer_token_ : string;
  auth_bearer_actor_ : string;
  auth_bearer_role_ : string;
}.

Definition supported_or (role fallback : string) : string := if is_supported_role role then role else fallback.

Definition load_config (getenv : string -> option string) : AdminConfig :=
  let raw_url := read_env_string getenv "WB_WORKER_METRICS_URL" "http://127.0.0.1:39093/metrics" in
  mkAdminConfig
    (read_env_u16 getenv "METRICS_PORT" 39200 1 65535)
    (read_env_u32 getenv "ADMIN_POLL_INTERVAL_MS" 1000 100 60000)
    (read_env_u32 getenv "ADMIN_AUDIT_TREND_MAX_POINTS" 300 30 5000)
    (read_env_u16 getenv "ADMIN_INSTANCE_METRICS_PORT" 9090 1 65535)
    (read_env_string getenv "REDIS_URI" EmptyString)
    (ensure_trailing_slash (read_env_string getenv "SERVER_REGISTRY_PREFIX" "gateway/instances/"))
    (ensure_trailing_slash (read_env_string getenv "GATEWAY_SESSION_PREFIX" "gateway/session/"))
    (read_env_string getenv "REDIS_CHANNEL_PREFIX" EmptyString)
    (read_env_u32 getenv "SERVER_REGISTRY_TTL" 30 1 3600)
    raw_url
    (parse_http_url raw_url)
    (read_env_string getenv "GRAFANA_BASE_URL" "http://127.0.0.1:33000")
    (read_env_string getenv "PROMETHEUS_BASE_URL" "http://127.0.0.1:39090")
    (read_env_bool getenv "ADMIN_READ_ONLY" false)
    (read_env_string getenv "ADMIN_COMMAND_SIGNING_SECRET" EmptyString)
    (read_env_string getenv "CHAT_HOOK_PLUGINS_DIR" "server/plugins")
    (read_env_string getenv "CHAT_HOOK_FALLBACK_PLUGINS_DIR" "server/plugins_builtin")
    (read_env_string getenv "LUA_SCRIPTS_DIR" "server/scripts")
    (read_env_string getenv "LUA_FALLBACK_SCRIPTS_DIR" "server/scripts_builtin")
    (read_env_string getenv "ADMIN_EXT_SCHEDULE_STORE_PATH" "tasks/runtime_ext_deployments_store.json")
    (read_env_u32 getenv "ADMIN_EXT_MAX_CLOCK_SKEW_MS" 5000 0 60000)
    (read_env_u32 getenv "ADMIN_EXT_FORCE_FAIL_WAVE_INDEX" 0 0 32)
    (parse_auth_mode (read_env_string getenv "ADMIN_AUTH_MODE" "off"))
    (supported_or (normalize_role (read_env_string getenv "ADMIN_OFF_ROLE" "admin")) "admin")
    (to_lower_ascii (read_env_string getenv "ADMIN_AUTH_USER_HEADER" "X-Admin-User"))
    (to_lower_ascii (read_env_string getenv "ADMIN_AUTH_ROLE_HEADER" "X-Admin-Role"))
    (read_env_string getenv "ADMIN_BEARER_TOKEN" EmptyString)
    (read_env_string getenv "ADMIN_BEARER_ACTOR" "token-user")
    (supported_or (normalize_role (read_env_string getenv "ADMIN_BEARER_ROLE" "viewer")) "viewer").

(** ** State *)

Inductive counter :=
  | http_requests_total_ | http_errors_total_ | http_unauthorized_total_ | http_forbidden_total_
  | http_server_errors_total_ | overview_requests_total_ | auth_context_requests_total_ | instances_requests_total_
  | instances_selector_requests_total_ | instances_selector_mismatch_total_ | session_lookup_requests_total_
  | users_requests_total_ | disconnect_requests_total_ | announce_requests_total_ | settings_requests_total_
  | moderation_requests_total_ | worker_requests_total_ | poll_errors_total_ | command_signing_errors_total_
  | ext_inventory_requests_total_ | ext_precheck_requests_total_ | ext_deployments_requests_total_
  | ext_schedules_requests_total_ | ext_precheck_failed_total_ | ext_command_id_conflict_total_
  | ext_scheduler_runs_total_ | ext_scheduler_due_total_ | ext_deployment_wave_total_ | ext_wave_failed_total_
  | ext_rollbacks_total_ | ext_clock_skew_failed_total_ | ext_deployments_completed_total_
  | ext_deployments_failed_total_ | ext_store_read_ok_total_ | ext_store_read_fail_total_
  | ext_store_write_ok_total_.

#[export] Instance counter_eq_dec : EqDecision counter.
Proof. solve_decision. Defined.

Record WorkerSnapshot := mkWorkerSnapshot {
  configured : bool;
  worker_available : bool;
  updated_at_ms : Z;
  w_pending : Z;
  flush_total : Z;
  flush_ok_total : Z;
  flush_fail_total : Z;
  flush_dlq_total : Z;
  ack_total : Z;
  ack_fail_total : Z;
  reclaim_total : Z;
  reclaim_error_total : Z;
  source_url : string;
  last_error : string;
}.

Record InstanceDetailSnapshot := mkInstanceDetailSnapshot {
  metrics_url : string;
  ready_reason : string;
  detail_updated_at_ms : Z;
}.

Record AuditEvent := mkAuditEvent {
  request_id : Z;
  ev_actor : string;
  ev_role : string;
  ev_method : string;
  ev_path : string;
  resource : string;
  result : string;
  status_code : Z;
  latency_ms : Z;
  ev_source_ip : string;
}.

Record AuditTrendPoint := mkAuditTrendPoint {
  timestamp_ms : Z;
  pt_errors : Z;
  pt_unauthorized : Z;
  pt_forbidden : Z;
  pt_server_errors : Z;
}.

Record ExtArtifactInventoryItem := mkExtItem {
  artifact_id : string;
  kind : string;
  name : string;
  version : string;
  hook_scope : list string;
  stage : string;
  priority : Z;
  exclusive_group : string;
  checksum : string;
  target_profiles : list string;
  allowed_decisions : list string;
  description : string;
  owner : string;
  manifest_path : string;
  artifact_path : string;
  issues : list string;
}.

Record ExtRolloutStrategy := mkRollout { rollout_type : string; waves : list Z; rollback_on_failure : bool }.
Definition default_rollout : ExtRolloutStrategy := mkRollout "all_at_once" [100] false.

Record ExtCommandSpec := mkExtCommandSpec {
  command_id : string;
  cmd_artifact_id : string;
  cmd_selector : InstanceSelector;
  cmd_selector_specified : bool;
  cmd_run_at_utc : option Z;
  cmd_rollout : ExtRolloutStrategy;
}.

Record ExtPrecheckIssue := mkIssue { code : string; message : string }.
Record ExtPrecheckResult := mkPrecheck { pre_ok : bool; pre_target_count : Z; pre_issues : list ExtPrecheckIssue }.
Record ExtPrecheckRecord := mkPrecheckRecord { pr_command : ExtCommandSpec; pr_result : ExtPrecheckResult; pr_created_at_ms : Z }.

Record ExtDeploymentRecord := mkExtDeployment {
  d_command_id : string;
  d_artifact_id : string;
  d_actor : string;
  d_status : string;
  d_status_reason : string;
  d_selector : InstanceSelector;
  d_selector_specified : bool;
  d_run_at_utc : option Z;
  d_rollout : ExtRolloutStrategy;
  d_kind : string;
  d_hook_scope : list string;
  d_stage : string;
  d_priority : Z;
  d_exclusive_group : string;
  d_target_count : Z;
  d_applied_targets : Z;
  d_issues : list ExtPrecheckIssue;
  d_created_at_ms : Z;
  d_updated_at_ms : Z;
}.

Record Caches := mkCaches {
  instances_cache_ : list InstanceRecord;
  instances_index_ : gmap string InstanceRecord;
  instance_details_index_ : gmap string InstanceDetailSnapshot;
  instances_updated_at_ms_ : Z;
  worker_cache_ : WorkerSnapshot;
  audit_trend_points_ : list AuditTrendPoint;
}.

Record Ext := mkExt {
  ext_inventory_cache_ : list ExtArtifactInventoryItem;
  ext_inventory_index_ : gmap string nat;
  ext_inventory_updated_at_ms_ : Z;
  ext_inventory_error_count_ : Z;
  ext_precheck_cache_ : gmap string ExtPrecheckRecord;
  ext_deployments_ : gmap string ExtDeploymentRecord;
}.

(** What leaves the process: a command with the answer of Redis, an audit record, and the
    deployments given to the file. *)
Inductive effect :=
  | Published (channel payload : string) (ok : bool)
  | Audited (event : AuditEvent)
  | Saved (deployments : gmap string ExtDeploymentRecord).

Record AdminState := mkAdminState {
  host : AppHost.t;
  redis_ : bool;
  registry_backend_ : bool;
  redis_available_ : bool;
  caches : Caches;
  ext : Ext;
  counters : counter -> Z;
  request_seq_ : Z;
  trace : list effect;
}.

Definition set_counters (c : counter -> Z) (s : AdminState) : AdminState :=
  mkAdminState (host s) (redis_ s) (registry_backend_ s) (redis_available_ s) (caches s) (ext s) c (request_seq_ s) (trace s).
Definition set_caches (c : Caches) (s : AdminState) : AdminState :=
  mkAdminState (host s) (redis_ s) (registry_backend_ s) (redis_available_ s) c (ext s) (counters s) (request_seq_ s) (trace s).
Definition set_ext (e : Ext) (s : AdminState) : AdminState :=
  mkAdminState (host s) (redis_ s) (registry_backend_ s) (redis_available_ s) (caches s) e (counters s) (request_seq_ s) (trace s).
Definition set_seq (n : Z) (s : AdminState) : AdminState :=
  mkAdminState (host s) (redis_ s) (registry_backend_ s) (redis_available_ s) (caches s) (ext s) (counters s) n (trace s).
Definition add_trace (e : effect) (s : AdminState) : AdminState :=
  mkAdminState (host s) (redis_ s) (registry_backend_ s) (redis_available_ s) (caches s) (ext s) (counters s)
    (request_seq_ s) (trace s ++ [e]).
Definition set_deployments (d : gmap string ExtDeploymentRecord) (s : AdminState) : AdminState :=
  set_ext (mkExt (ext_inventory_cache_ (ext s)) (ext_inventory_index_ (ext s)) (ext_inventory_updated_at_ms_ (ext s))
             (ext_inventory_error_count_ (ext s)) (ext_precheck_cache_ (ext s)) d) s.
Definition set_precheck_cache (c : gmap string ExtPrecheckRecord) (s : AdminState) : AdminState :=
  set_ext (mkExt (ext_inventory_cache_ (ext s)) (ext_inventory_index_ (ext s)) (ext_inventory_updated_at_ms_ (ext s))
             (ext_inventory_error_count_ (ext s)) c (ext_deployments_ (ext s))) s.

Definition add_counter (c : counter) (n : Z) (s : AdminState) : AdminState :=
  set_counters (fun k => if bool_decide (k = c) then u64 (counters s k + n) else counters s k) s.

(** ** Handlers *)

(** A handler changes the state and returns a value, or leaves early with an answer. *)
Definition M (A : Type) : Type := AdminState -> AdminState * (RouteResponse + A).
#[export] Instance M_ret : MRet M := fun A a s => (s, inr a).
#[export] Instance M_bind : MBind M := fun A B f m s =>
  match m s with
  | (s', inl r) => (s', inl r)
  | (s', inr a) => f a s'
  end.

Definition get : M AdminState := fun s => (s, inr s).
Definition modify (f : AdminState -> AdminState) : M unit := fun s => (f s, inr tt).
Definition bump (c : counter) : M unit := modify (add_counter c 1).
Definition answer {A} (r : RouteResponse) : M A := fun s => (s, inl r).

(** The clock of a request: the handler's own reading, the one in the answer, and the time
    the request took. *)
Record Clock := mkClock { now : Z; generated_at : Z; elapsed : Z }.

Definition json_type : string := "application/json; charset=utf-8".
Definition meta (clock : Clock) (request_id : Z) : string * string :=
  ("meta"%string, jobj [("request_id"%string, quote +:+ "admin-" +:+ to_string request_id +:+ quote);
                        ("generated_at_ms"%string, jnum (generated_at clock))]).

Definition json_ok (clock : Clock) (request_id : Z) (data_json : string) : RouteResponse :=
  mkRouteResponse "200 OK" json_type (jobj [("data"%string, data_json); meta clock request_id]).

Definition json_error (clock : Clock) (request_id : Z) (status code message details_json : string) : RouteResponse :=
  mkRouteResponse status json_type
    (jobj [("error"%string, jobj [("code"%string, jstr code); ("message"%string, jstr message);
                                  ("details"%string, details_json)]);
           meta clock request_id]).

(** Every error answer of a handler counts one error. *)
Definition fail {A} (clock : Clock) (request_id : Z) (status code message details_json : string) : M A :=
  bump http_errors_total_ ≫= fun _ => answer (json_error clock request_id status code message details_json).
Definition bad_request {A} (clock : Clock) (request_id : Z) (message details_json : string) : M A :=
  fail clock request_id "400 Bad Request" "BAD_REQUEST" message details_json.
Definition unavailable {A} (clock : Clock) (request_id : Z) (message : string) : M A :=
  fail clock request_id "503 Service Unavailable" "UPSTREAM_UNAVAILABLE" message "{}".

Definition guard (b : bool) (otherwise : M unit) : M unit := if b then mret tt else otherwise.

(** ** Authentication *)

Record AuthContext := mkAuthContext { actor : string; role : string; auth_error : option Error }.

Definition unauthorized (message : string) : AuthContext :=
  mkAuthContext "anonymous" "none" (Some (mkError "401 Unauthorized" "UNAUTHORIZED" message)).
Definition forbidden (actor role : string) : AuthContext :=
  mkAuthContext actor role (Some (mkError "403 Forbidden" "FORBIDDEN" "role is not allowed")).

Section authentication.
Context (cfg : AdminConfig) (request : HttpRequest).

Definition from_header : option AuthContext :=
  match headers request !! auth_user_header_name_ cfg with
  | None => None
  | Some user =>
      let actor := trim_ascii user in
      Some (if bool_decide (actor = EmptyString) then unauthorized "identity header is empty"
            else
              let role := match headers request !! auth_role_header_name_ cfg with
                          | Some r => normalize_role r
                          | None => "viewer"%string
                          end in
              let role := if bool_decide (role = EmptyString) then "viewer"%string else role in
              if negb (is_supported_role role) then forbidden actor role else mkAuthContext actor role None)
  end.

Definition from_bearer : option AuthContext :=
  match headers request !! "authorization"%string with
  | None => None
  | Some value =>
      Some (match parse_bearer_token value with
            | None => unauthorized "authorization header must be Bearer token"
            | Some bearer =>
                if bool_decide (auth_bearer_token_ cfg = EmptyString) then unauthorized "bearer auth is not configured"
                else if negb (bool_decide (bearer = auth_bearer_token_ cfg)) then unauthorized "invalid bearer token"
                else if negb (is_supported_role (auth_bearer_role_ cfg))
                then forbidden (auth_bearer_actor_ cfg) (auth_bearer_role_ cfg)
                else mkAuthContext (auth_bearer_actor_ cfg) (auth_bearer_role_ cfg) None
            end)
  end.

Definition authenticate_request : AuthContext :=
  match auth_mode_ cfg with
  | kOff => mkAuthContext "anonymous" (auth_off_role_ cfg) None
  | kHeader => default (unauthorized "missing identity header") from_header
  | kBearer => default (unauthorized "missing authorization header") from_bearer
  | kHeaderOrBearer =>
      match from_header with
      | Some ctx => ctx
      | None => default (unauthorized "missing credentials") from_bearer
      end
  end.

(** ** Audit *)

(** [finalize] of [handle_route]. *)
Definition finalize (clock : Clock) (request_id : Z) (auth : AuthContext) (method path : string)
    (response : RouteResponse) (s : AdminState) : AdminState * RouteResponse :=
  let status_code := parse_http_status_code (rr_status response) in
  let event := mkAuditEvent request_id (actor auth) (role auth) method path (resource_from_path path)
                 (if (200 <=? status_code) && (status_code <? 400) then "ok" else "error")
                 status_code (elapsed clock)
                 (if bool_decide (source_ip request = EmptyString) then "unknown"%string else source_ip request) in
  let s := if status_code =? 401 then add_counter http_unauthorized_total_ 1 s
           else if status_code =? 403 then add_counter http_forbidden_total_ 1 s else s in
  let s := if 500 <=? status_code then add_counter http_server_errors_total_ 1 s else s in
  (add_trace (Audited event) s, response).

End authentication.

(** The oldest points are dropped beyond the limit. *)
Definition capture_audit_trend_point (cfg : AdminConfig) (now : Z) (s : AdminState) : AdminState :=
  let point := mkAuditTrendPoint now (counters s http_errors_total_) (counters s http_unauthorized_total_)
                 (counters s http_forbidden_total_) (counters s http_server_errors_total_) in
  let points := audit_trend_points_ (caches s) ++ [point] in
  let points := drop (length points - Z.to_nat (audit_trend_max_points_ cfg)) points in
  set_caches (mkCaches (instances_cache_ (caches s)) (instances_index_ (caches s)) (instance_details_index_ (caches s))
                (instances_updated_at_ms_ (caches s)) (worker_cache_ (caches s)) points) s.

(** ** Commands *)

Section commands.
Context (HMAC : chars -> chars -> option (list Z)) (cfg : AdminConfig).

(** [issued_at] and [nonce] are what the signing reads from the clock and the generator. *)
Definition build_signed_admin_message (fields : params_t) (issued_at : Z) (nonce : string) (s : AdminState) :
    AdminState * option string :=
  match chars_of (admin_command_signing_secret_ cfg) with
  | [] => (add_counter command_signing_errors_total_ 1 s, None)
  | secret =>
      match append_signature_fields HMAC fields secret issued_at nonce with
      | (_, false) => (add_counter command_signing_errors_total_ 1 s, None)
      | (signed, true) => (s, Some ("gw=admin_app" +:+ newline +:+ str (to_kv_payload signed)))
      end
  end.

End commands.
