(* ===== verification/AdminCommands.v ===== *)
(** The administration service, third part of [tools/admin_app/main.cpp]: the four
    handlers that send a signed command to the servers (disconnect, announcement, runtime
    setting, moderation). *)

From S2P Require Import Prelude Text ChatText AdminAuth InstanceRegistry HttpServer AppHost ChatAdmin AdminQuery AdminState.

Definition kMaxDisconnectTargets : Z := 200.
Definition kMaxAnnouncementTextBytes : Z := 512.

(** What a command needs from outside: the issue time and the nonce of its signature, and
    whether Redis takes it. *)
Record Outside := mkOutside { issued_at_ms : Z; nonce_text : string; publish_ok : bool }.

(** ** Targets *)

Definition valid_target (normalized : string) : bool :=
  negb (bool_decide (normalized = EmptyString)) && negb (contains "/" normalized) && (slen normalized <=? 128).

(** The loop that drops invalid and repeated names. *)
Definition dedupe_step (acc : list string * gset string) (target : string) : list string * gset string :=
  let normalized := trim_ascii target in
  if negb (valid_target normalized) then acc
  else if bool_decide (normalized ∈ acc.2) then acc
  else (acc.1 ++ [normalized], {[normalized]} ∪ acc.2).
Definition dedupe (targets : list string) : list string := (fold_left dedupe_step targets ([], ∅)).1.

Definition requested_targets (params : params_t) : list string :=
  match params !! "client_id"%string with
  | Some v => let one := trim_ascii v in if bool_decide (one = EmptyString) then [] else [one]
  | None => []
  end
  ++ match params !! "client_ids"%string with Some v => split_csv_trimmed v | None => [] end.

Section handlers.
Context (HMAC : chars -> chars -> option (list Z)) (cfg : AdminConfig).
Context (clock : Clock) (out : Outside) (request_id : Z) (auth : AuthContext).

Definition command_targets (params : params_t) : M (list string) :=
  let targets := requested_targets params in
  guard (nonempty targets) (bad_request clock request_id "client_id or client_ids is required" "{}") ≫= fun _ =>
  let deduped := dedupe targets in
  guard (nonempty deduped) (bad_request clock request_id "no valid client ids provided" "{}") ≫= fun _ =>
  guard (zlen deduped <=? kMaxDisconnectTargets)
    (bad_request clock request_id "too many client ids" (json_details "max" (to_string kMaxDisconnectTargets))) ≫= fun _ =>
  mret deduped.

(** The start common to the handlers: Redis is up and the selector is well formed. *)
Definition command_selector (query_string : string) : M SelectorParseResult :=
  s ← get;
  guard (redis_ s && redis_available_ s) (unavailable clock request_id "redis command channel unavailable") ≫= fun _ =>
  match parse_instance_selector_query query_string with
  | inl sel => mret sel
  | inr e => bad_request clock request_id (bad_message e) (bad_param_details e)
  end.

(** The fields every command has. *)
Definition command_fields (op : string) : params_t :=
  <["request_id"%string := "admin-" +:+ to_string request_id]>
    (<["actor"%string := sanitize_single_line (actor auth)]> (<["op"%string := op]> ∅)).

(** Signing and publishing. *)
Definition send_command (channel : string) (fields : params_t) (failed : string) : M unit := fun s =>
  match build_signed_admin_message HMAC cfg fields (issued_at_ms out) (nonce_text out) s with
  | (s, None) =>
      fail clock request_id "503 Service Unavailable" "MISCONFIGURED" "admin command signing is not configured" "{}" s
  | (s, Some message) =>
      let s := add_trace (Published channel message (publish_ok out)) s in
      if publish_ok out then (s, inr tt) else unavailable clock request_id failed s
  end.

Definition accepted (members : list (string * string)) : M RouteResponse :=
  mret (json_ok clock request_id (jobj (("accepted"%string, "true"%string) :: members))).

(** ** Disconnect *)

Definition disconnect_reason (params : params_t) : string :=
  let sanitized := match params !! "reason"%string with Some v => sanitize_single_line v | None => EmptyString end in
  str_take 200 (if bool_decide (sanitized = EmptyString) then "Disconnected by administrator" else sanitized).

Definition disconnect_fields (sel : SelectorParseResult) (reason : string) (deduped : list string) : params_t :=
  append_selector_command_fields sel
    (<["client_ids"%string := join_csv deduped]>
      (<["reason"%string := sanitize_single_line reason]> (command_fields "disconnect"))).

Definition handle_disconnect_users (query_string : string) : M RouteResponse :=
  sel ← command_selector query_string;
  let params := parse_query_string query_string in
  deduped ← command_targets params;
  let reason := disconnect_reason params in
  let channel := redis_channel_prefix_ cfg +:+ "fanout:admin:disconnect" in
  send_command channel (disconnect_fields sel reason deduped) "failed to publish disconnect command" ≫= fun _ =>
  accepted [("channel"%string, jstr channel); ("submitted_count"%string, jnum (zlen deduped));
            ("reason"%string, jstr reason); ("targets"%string, jarr (map jstr deduped)); append_selector_response_json sel].

(** ** Announcement *)

Definition announcement_priority (params : params_t) : string :=
  match params !! "priority"%string with
  | Some v => let normalized := to_lower_ascii (trim_ascii v) in
              if bool_decide (normalized ∈ ["info"; "warn"; "critical"]%string) then normalized else "info"
  | None => "info"
  end.

Definition announcement_fields (sel : SelectorParseResult) (priority text : string) : params_t :=
  append_selector_command_fields sel
    (<["text"%string := text]> (<["priority"%string := priority]> (command_fields "announce"))).

Definition handle_announcement (query_string : string) : M RouteResponse :=
  sel ← command_selector query_string;
  let params := parse_query_string query_string in
  let text := match params !! "text"%string with Some v => sanitize_single_line v | None => EmptyString end in
  guard (negb (bool_decide (text = EmptyString))) (bad_request clock request_id "text is required" "{}") ≫= fun _ =>
  guard (slen text <=? kMaxAnnouncementTextBytes)
    (bad_request clock request_id "text is too long"
       (json_details "max_bytes" (to_string kMaxAnnouncementTextBytes))) ≫= fun _ =>
  let priority := announcement_priority params in
  let channel := redis_channel_prefix_ cfg +:+ "fanout:admin:announce" in
  send_command channel (announcement_fields sel priority text) "failed to publish announcement command" ≫= fun _ =>
  accepted [("channel"%string, jstr channel); ("priority"%string, jstr priority); ("text"%string, jstr text);
            append_selector_response_json sel].

(** ** Runtime settings *)

Definition setting_fields (sel : SelectorParseResult) (key : string) (value : Z) : params_t :=
  append_selector_command_fields sel
    (<["value"%string := to_string value]> (<["key"%string := sanitize_single_line key]> (command_fields "settings"))).

Definition check_setting (key value : string) : M Z :=
  match parse_u32_strict value with
  | None => bad_request clock request_id "value must be an unsigned integer" (json_details "value" value)
  | Some parsed_value =>
      match find_runtime_setting_rule key with
      | None => bad_request clock request_id "unsupported setting key" "{}"
      | Some rule =>
          if (parsed_value <? min_value rule) || (max_value rule <? parsed_value)
          then bad_request clock request_id (runtime_setting_range_error_message rule) "{}"
          else mret parsed_value
      end
  end.

Definition handle_runtime_setting (query_string : string) : M RouteResponse :=
  sel ← command_selector query_string;
  let params := parse_query_string query_string in
  let key := match params !! "key"%string with Some v => to_lower_ascii (trim_ascii v) | None => EmptyString end in
  let value := match params !! "value"%string with Some v => trim_ascii v | None => EmptyString end in
  guard (negb (bool_decide (key = EmptyString)) && negb (bool_decide (value = EmptyString)))
    (bad_request clock request_id "key and value are required" "{}") ≫= fun _ =>
  parsed_value ← check_setting key value;
  let channel := redis_channel_prefix_ cfg +:+ "fanout:admin:settings" in
  send_command channel (setting_fields sel key parsed_value) "failed to publish settings command" ≫= fun _ =>
  accepted [("channel"%string, jstr channel); ("key"%string, jstr key); ("value"%string, jnum parsed_value);
            append_selector_response_json sel].

(** ** Moderation *)

Definition moderation_duration (params : params_t) : M Z :=
  match params !! "duration_sec"%string with
  | None => mret 0
  | Some raw =>
      if bool_decide (raw = EmptyString) then mret 0
      else match parse_u32_strict (trim_ascii raw) with
           | Some n => mret n
           | None => bad_request clock request_id "duration_sec must be an unsigned integer" (json_details "value" raw)
           end
  end.

Definition moderation_reason (params : params_t) : string :=
  match params !! "reason"%string with Some v => str_take 200 (sanitize_single_line v) | None => EmptyString end.

Definition moderation_fields (sel : SelectorParseResult) (op : string) (duration_sec : Z) (reason : string)
    (deduped : list string) : params_t :=
  append_selector_command_fields sel
    (<["client_ids"%string := join_csv deduped]>
      (<["reason"%string := reason]>
        (<["duration_sec"%string := to_string duration_sec]> (command_fields (sanitize_single_line op))))).

Definition handle_user_moderation (op query_string : string) : M RouteResponse :=
  sel ← command_selector query_string;
  let params := parse_query_string query_string in
  deduped ← command_targets params;
  duration_sec ← moderation_duration params;
  let reason := moderation_reason params in
  let channel := redis_channel_prefix_ cfg +:+ "fanout:admin:moderation" in
  send_command channel (moderation_fields sel op duration_sec reason deduped)
    "failed to publish moderation command" ≫= fun _ =>
  accepted [("channel"%string, jstr channel); ("op"%string, jstr op); ("duration_sec"%string, jnum duration_sec);
            ("submitted_count"%string, jnum (zlen deduped)); ("targets"%string, jarr (map jstr deduped));
            append_selector_response_json sel].

End handlers.
