(* ===== verification/Fanout.v ===== *)
(** Messages between the processes, the subscription of [server/src/app/bootstrap.cpp]:
    the echo filter, the channels, verification of administration commands and their
    selectors, and the call each message ends in.

    The call is a value of [Action]; its bodies are in [ChatAdmin.v] and [ChatCommands.v].
    A byte payload that protobuf reads stays a text here. *)

From S2P Require Import Prelude Text ChatText AdminAuth InstanceRegistry HttpServer.

(** ** Text *)

(** The loop over the lines ends with the text. *)
Definition kv_line (out : gmap string string) (line : string) : gmap string string :=
  if contains "=" line then
    let (k, rest) := take_until (fun c => byte_of_ascii c =? 61) line in
    let key := trim_ascii k in
    let value := trim_ascii (str_drop 1 rest) in
    if bool_decide (key = EmptyString) then out else <[key := value]> out
  else out.
Definition parse_kv_lines (payload : string) : gmap string string :=
  fold_left (fun out t => kv_line out (str t)) (split_sep 10 (chars_of payload)) ∅.

Definition split_csv (input : string) : list string :=
  List.filter (fun t => negb (bool_decide (t = EmptyString)))
    (map (fun t => trim_ascii (str t)) (split_sep 44 (chars_of input))).

(** ** Selectors *)

Record AdminSelectorParseResult := mkAdminSelector {
  admin_selector : InstanceSelector;
  admin_selector_specified : bool;
  admin_selector_valid : bool;
}.

Definition admin_yes (s : string) : bool := bool_decide (s ∈ [EmptyString; "1"; "true"; "yes"; "on"]%string).
Definition admin_no (s : string) : bool := bool_decide (s ∈ ["0"; "false"; "no"; "off"]%string).

Definition admin_csv (fields : gmap string string) (key : string) : list string :=
  match fields !! key with Some v => split_csv v | None => [] end.

Definition parse_admin_selector_fields (fields : gmap string string) : AdminSelectorParseResult :=
  let csv all := mkInstanceSelector all (admin_csv fields "server_ids") (admin_csv fields "roles")
                   (admin_csv fields "game_modes") (admin_csv fields "regions") (admin_csv fields "shards")
                   (admin_csv fields "tags") in
  let named := existsb (fun key => bool_decide (is_Some (fields !! key)))
                 ["server_ids"; "roles"; "game_modes"; "regions"; "shards"; "tags"]%string in
  match fields !! "all"%string with
  | None => mkAdminSelector (csv false) named true
  | Some raw =>
      let normalized := to_lower_ascii (trim_ascii raw) in
      if admin_yes normalized then mkAdminSelector (csv true) true true
      else if admin_no normalized then mkAdminSelector (csv false) true true
      else mkAdminSelector (mkInstanceSelector false [] [] [] [] [] []) true false
  end.

(** ** The subscriber *)

Inductive ExactFanoutChannel := kWhisper | kAdminDisconnect | kAdminAnnounce | kAdminSettings | kAdminModeration.

#[export] Instance ExactFanoutChannel_eq_dec : EqDecision ExactFanoutChannel.
Proof. solve_decision. Defined.

Inductive Action :=
  | BroadcastRefreshLocal (room : string)
  | BroadcastRoom (room payload : string)
  | DeliverRemoteWhisper (payload : string)
  | AdminDisconnectUsers (users : list string) (reason : string)
  | AdminBroadcastNotice (text : string)
  | AdminApplyRuntimeSetting (key value : string)
  | AdminApplyUserModeration (op : string) (users : list string) (duration_sec : Z) (reason : string).

Inductive fanout_counter :=
  | g_admin_command_verify_ok_total | g_admin_command_verify_fail_total (why : VerifyResult)
  | g_admin_command_target_mismatch_total | g_subscribe_total.

Section subscriber.
Context (HMAC : chars -> chars -> option (list Z)).
Context (channel_prefix gwid : string) (local_instance_selector_context : InstanceRecord).

Definition exact_channels : list (string * ExactFanoutChannel) :=
  [(channel_prefix +:+ "fanout:whisper", kWhisper); (channel_prefix +:+ "fanout:admin:disconnect", kAdminDisconnect);
   (channel_prefix +:+ "fanout:admin:announce", kAdminAnnounce);
   (channel_prefix +:+ "fanout:admin:settings", kAdminSettings);
   (channel_prefix +:+ "fanout:admin:moderation", kAdminModeration)].

Definition find_channel (channel : string) : option ExactFanoutChannel :=
  match find (fun entry => bool_decide (channel = entry.1)) exact_channels with
  | Some (_, k) => Some k
  | None => None
  end.

(** A present field that is not empty. *)
Definition field (fields : gmap string string) (key : string) : option string :=
  match fields !! key with
  | Some v => if bool_decide (v = EmptyString) then None else Some v
  | None => None
  end.

(** The last switch. *)
Definition admin_action (kind : ExactFanoutChannel) (payload : string) (fields : gmap string string) : option Action :=
  match kind with
  | kWhisper => Some (DeliverRemoteWhisper payload)
  | kAdminDisconnect =>
      ids ← field fields "client_ids";
      if nonempty (split_csv ids)
      then Some (AdminDisconnectUsers (split_csv ids) (default "Disconnected by administrator"%string (field fields "reason")))
      else None
  | kAdminAnnounce => AdminBroadcastNotice <$> field fields "text"
  | kAdminSettings =>
      key ← field fields "key";
      value ← field fields "value";
      Some (AdminApplyRuntimeSetting key value)
  | kAdminModeration =>
      op ← field fields "op";
      ids ← field fields "client_ids";
      let duration_sec := match field fields "duration_sec" with
                          | Some v => match stoull v with Some (n, _) => u32 n | None => 0 end
                          | None => 0
                          end in
      if nonempty (split_csv ids)
      then Some (AdminApplyUserModeration op (split_csv ids) duration_sec (default EmptyString (fields !! "reason"%string)))
      else None
  end.

Definition counted (a : option Action) : list fanout_counter :=
  match a with Some _ => [g_subscribe_total] | None => [] end.

(** A verified command, for the instances its selector matches. *)
Definition admin_command (kind : ExactFanoutChannel) (payload : string) (now_ms : Z) (v : Verifier) :
    Verifier * list fanout_counter * option Action :=
  let fields := parse_kv_lines payload in
  match verify HMAC fields now_ms v with
  | (v, AdminAuth.kOk) =>
      let sel := parse_admin_selector_fields fields in
      let ok := [g_admin_command_verify_ok_total] in
      if admin_selector_specified sel
         && negb (admin_selector_valid sel && matches_selector local_instance_selector_context (admin_selector sel))
      then (v, ok ++ [g_admin_command_target_mismatch_total], None)
      else let a := admin_action kind payload fields in (v, ok ++ counted a, a)
  | (v, why) => (v, [g_admin_command_verify_fail_total why], None)
  end.

(** The callback of the subscription. *)
Definition on_message (channel message : string) (now_ms : Z) (v : Verifier) :
    Verifier * list fanout_counter * option Action :=
  if negb (String.prefix "gw=" message) then (v, [], None)
  else
    let (from, rest) := take_until is_newline (str_drop 3 message) in
    let has_payload := negb (bool_decide (rest = EmptyString)) in
    let payload := str_drop 1 rest in
    let refresh_prefix := channel_prefix +:+ "fanout:refresh:" in
    let room_prefix := channel_prefix +:+ "fanout:room:" in
    if bool_decide (from = gwid) then (v, [], None)
    else if String.prefix refresh_prefix channel then
      (v, [], Some (BroadcastRefreshLocal (str_drop (String.length refresh_prefix) channel)))
    else if String.prefix room_prefix channel then
      if has_payload
      then (v, [g_subscribe_total], Some (BroadcastRoom (str_drop (String.length room_prefix) channel) payload))
      else (v, [], None)
    else match find_channel channel with
         | None => (v, [], None)
         | Some kind =>
             if negb has_payload then (v, [], None)
             else if bool_decide (kind = kWhisper) then
               let a := admin_action kind payload ∅ in (v, counted a, a)
             else admin_command kind payload now_ms v
         end.

End subscriber.
