(* ===== verification/AdminFanoutProps.v ===== *)
(** Commands from the administration service to the servers: what a handler of
    [AdminCommands.v] publishes is read back by the subscriber of [Fanout.v] field by field,
    passes its verifier, and ends in the call the request asked for, at the servers the
    selector means. *)

From stdpp Require Import sorting.
From S2P Require Import Prelude Text ChatText AdminAuth InstanceRegistry InstanceRegistryProps HttpServer HttpServerProps AppHost GatewayConfig ChatState ChatAdmin AdminQuery AdminState AdminCommands Fanout.

(** ** Trimmed text *)

Lemma drop_while_head f l : drop_while f l = [] \/ exists c l', drop_while f l = c :: l' /\ f c = false.
Proof. induction l as [|c l IH]; [by left|]. cbn. destruct (f c) eqn:Hc; [done|]. right. eauto. Qed.

Lemma drop_while_suffix f l : exists pre, l = pre ++ drop_while f l.
Proof.
  induction l as [|c l [pre IH]]; [by exists []|]. cbn. destruct (f c); [|by exists []].
  exists (c :: pre). cbn. by rewrite <- IH.
Qed.

(** Trimming leaves nothing or a text with proper ends, made of the same characters. *)
Lemma trim_cases f s :
  (trim f s = EmptyString \/ edges f (chars_of (trim f s)))
  /\ (forall P : Ascii.ascii -> Prop, Forall P (chars_of s) -> Forall P (chars_of (trim f s))).
Proof.
  rewrite <- (str_chars s), trim_str, !chars_of_string_of_list. set (l := chars_of s).
  destruct (drop_while_suffix f l) as [pre Hpre]. set (m := drop_while f l) in *.
  destruct (drop_while_suffix f (rev m)) as [suf Hsuf]. set (n := drop_while f (rev m)) in *.
  assert (Hm : m = rev n ++ rev suf) by (by rewrite <- rev_app_distr, <- Hsuf, rev_involutive).
  split.
  - destruct (drop_while_head f (rev m)) as [Hn|(z & n' & Hn & Hz)].
    { left. fold n in Hn. by rewrite Hn. }
    right. fold n in Hn. rewrite Hn. cbn [rev]. split; [|by exists (rev n'), z].
    destruct (drop_while_head f l) as [Hm0|(c & m' & Hm0 & Hc)]; fold m in Hm0.
    { rewrite Hm0 in Hm. rewrite Hn in Hm. cbn [rev] in Hm. by destruct (rev n'). }
    rewrite Hn, Hm0 in Hm. cbn [rev] in Hm. destruct (rev n') as [|c' l']; cbn in Hm |- *; injection Hm as <- _; eauto.
  - intros P HP. rewrite Hpre, Hm in HP. by rewrite !Forall_app in HP; destruct HP as [_ [HP _]].
Qed.

Lemma trim_edges_id f s : edges f (chars_of s) -> trim f s = s.
Proof.
  intros He. pose proof (trim_edges f [] (chars_of s) []) as Ht. cbn [app] in Ht.
  rewrite app_nil_r, str_chars in Ht. by apply Ht.
Qed.

Lemma trim_idem f s : trim f (trim f s) = trim f s.
Proof. destruct (trim_cases f s) as [[->|He] _]; [done|]. by apply trim_edges_id. Qed.

(** A text that survives a line of the payload. *)
Definition tidy (s : string) : Prop := has_none is_newline s /\ trim_ascii s = s.
(** A text that survives a list of names. *)
Definition tidy_name (s : string) : Prop := s <> EmptyString /\ tidy s /\ has_none (is_sep 44) s.

#[export] Instance tidy_dec s : Decision (tidy s).
Proof. unfold tidy, has_none. apply _. Defined.
#[export] Instance tidy_name_dec s : Decision (tidy_name s).
Proof. unfold tidy_name, has_none. apply _. Defined.

Lemma tidy_edges s : tidy s -> s <> EmptyString -> edges isspace (chars_of s).
Proof. intros [_ Ht] Hne. destruct (trim_cases isspace s) as [[He|He] _]; unfold trim_ascii in Ht; congruence. Qed.

Lemma tidy_trim s : has_none is_newline s -> tidy (trim_ascii s).
Proof. intros Hn. split; [by apply trim_cases|apply trim_idem]. Qed.

Lemma sanitize_tidy s : tidy (sanitize_single_line s).
Proof.
  apply tidy_trim. unfold has_none. rewrite chars_of_string_of_list. apply Forall_map, Forall_forall.
  intros c _. unfold one_line, is_newline. destruct (byte_of_ascii c =? 10) eqn:Hc; [done|]. cbn [orb].
  by destruct (byte_of_ascii c =? 13).
Qed.

Lemma digits_tidy n : 0 <= n -> tidy (to_string n).
Proof.
  intros Hn. destruct (decimal_digits n Hn) as (Hds & _ & Hne). split.
  - unfold has_none, to_string. rewrite chars_of_string_of_list. eapply Forall_impl; [exact Hds|].
    intros c Hc. pose proof (digit10_byte c Hc) as [Hr _]. unfold is_newline. zbool; lia || done.
  - apply trim_edges_id. unfold to_string. rewrite chars_of_string_of_list. apply digits_edges; [|done..].
    intros c Hc. by apply digit10_plain.
Qed.

Lemma hex_tidy digest : tidy (str (to_hex digest)).
Proof.
  assert (Hhex : Forall (fun c => isspace c = false) (to_hex digest)).
  { unfold to_hex. apply Forall_concat, Forall_map, Forall_forall. intros b _.
    assert (Hk : forall n, 0 <= n < 16 -> isspace (kHex n) = false).
    { intros n Hn. unfold isspace, kHex. destruct (Z.ltb_spec n 10); rewrite byte_ascii_id by (widths; lia); zbool; lia || done. }
    repeat constructor; apply Hk; change 0x0F with (Z.ones 4); rewrite Z.land_ones by lia; zlia. }
  split.
  - unfold has_none. rewrite chars_of_string_of_list. eapply Forall_impl; [exact Hhex|]. intros c Hc.
    unfold isspace, is_newline in *. destruct (Z.eqb_spec (byte_of_ascii c) 10) as [He|]; [|done]. by rewrite He in Hc.
  - destruct (to_hex digest) as [|c l] eqn:Hl; [done|]. apply trim_edges_id. rewrite chars_of_string_of_list.
    split; [inv Hhex; eauto|]. destruct (exists_last (l := c :: l)) as (l' & z & Hz); [done|].
    rewrite Hz in Hhex |- *. apply Forall_app in Hhex as [_ Hz']. rewrite Forall_singleton in Hz'. eauto.
Qed.

(** ** Lists of names *)

Lemma join_csv_chars names : chars_of (join_csv names) = join_sep 44 (map chars_of names).
Proof. apply chars_of_string_of_list. Qed.

Lemma join_edges f toks : toks <> [] -> Forall (edges f) toks -> edges f (join_sep 44 toks).
Proof.
  intros Hne Hall. destruct toks as [|tok toks]; [done|]. apply Forall_cons in Hall as [Htok Hall]. cbn [join_sep].
  split.
  - destruct Htok as [(c & l & -> & Hc) _]. cbn. eauto.
  - destruct toks as [|t toks' _] using rev_ind; [cbn; rewrite app_nil_r; apply Htok|].
    apply Forall_app in Hall as [_ Ht]. rewrite Forall_singleton in Ht. destruct Ht as [_ (l & z & -> & Hz)].
    rewrite map_app, concat_app. cbn. exists (tok ++ concat (map (fun t => ascii_of_byte 44 :: t) toks') ++ ascii_of_byte 44 :: l), z.
    split; [|done]. by rewrite app_nil_r, <- !app_assoc.
Qed.

Lemma join_csv_tidy names : Forall tidy_name names -> tidy (join_csv names).
Proof.
  intros Hall. split.
  - unfold has_none. rewrite join_csv_chars. destruct Hall as [|n names Hn Hall]; [constructor|]. cbn [map join_sep].
    apply Forall_app. split; [apply Hn|]. apply Forall_concat, Forall_map, Forall_map.
    eapply Forall_impl; [exact Hall|]. intros m (_ & [Hm _] & _). by constructor.
  - destruct names as [|n names]; [done|]. apply trim_edges_id. rewrite join_csv_chars. apply join_edges; [done|].
    apply Forall_map. eapply Forall_impl; [exact Hall|]. intros m (Hne & Hm & _). by apply tidy_edges.
Qed.

Lemma split_csv_join names : names <> [] -> Forall tidy_name names -> split_csv (join_csv names) = names.
Proof.
  intros Hne Hall. unfold split_csv. rewrite join_csv_chars, split_join;
    [|by vm_compute|by destruct names|apply Forall_map; eapply Forall_impl; [exact Hall|]; by intros m (_ & _ & Hm)].
  rewrite map_map. induction Hall as [|n names (Hn & [_ Ht] & _) Hall IH]; [done|]. cbn [map List.filter].
  rewrite str_chars, Ht, bool_decide_eq_false_2 by done. cbn [negb]. f_equal.
  destruct names; [done|]. by apply IH.
Qed.

(** ** The payload *)

Definition tidy_entry (k v : string) : Prop :=
  k <> EmptyString /\ tidy k /\ has_none (is_sep 61) k /\ tidy v.
Definition tidy_fields (f : gmap string string) : Prop := map_Forall tidy_entry f.

Lemma contains_eq k v : contains "=" (k +:+ "=" +:+ v) = true.
Proof.
  induction k as [|c k IH]; [by destruct v|]. change (String c k +:+ "=" +:+ v) with (String c (k +:+ "=" +:+ v)).
  cbn [contains]. rewrite IH. apply orb_true_r.
Qed.

Lemma kv_line_entry out k v : tidy_entry k v -> kv_line out (str (entry_line (k, v))) = <[k := v]> out.
Proof.
  intros (Hne & [_ Hk] & Heq & [_ Hv]). unfold entry_line. rewrite !str_app, !str_chars. cbn [fst snd].
  change (str [ascii_of_byte 61]) with "="%string. unfold kv_line. rewrite contains_eq.
  change ("=" +:+ v) with (String (ascii_of_byte 61) v).
  rewrite (take_until_app (fun c => byte_of_ascii c =? 61) k (ascii_of_byte 61) v Heq eq_refl). cbn [str_drop]. rewrite Hk, Hv. by rewrite bool_decide_eq_false_2.
Qed.

Lemma tidy_entry_newline k v : tidy_entry k v -> Forall (fun c => is_sep 10 c = false) (entry_line (k, v)).
Proof.
  intros (_ & [Hk _] & _ & [Hv _]). unfold entry_line. rewrite !Forall_app. split_and!; [exact Hk| |exact Hv].
  by constructor.
Qed.

Lemma fold_kv_lines entries out :
  Forall (fun e => tidy_entry e.1 e.2) entries ->
  fold_left (fun out t => kv_line out (str t)) (map entry_line entries) out
  = fold_left (fun out e => <[e.1 := e.2]> out) entries out.
Proof.
  intros Hall. revert out. induction Hall as [|[k v] entries He _ IH]; intros out; [done|]. cbn [map fold_left].
  by rewrite kv_line_entry.
Qed.

Lemma fold_insert_lookup (entries : list (string * string)) (out : gmap string string) k :
  NoDup entries.*1 ->
  fold_left (fun out e => <[e.1 := e.2]> out) entries out !! k
  = match (list_to_map entries : gmap string string) !! k with Some v => Some v | None => out !! k end.
Proof.
  intros Hnd. revert out. induction entries as [|[k' v'] entries IH]; intros out; [by rewrite list_to_map_nil, lookup_empty|].
  rewrite fmap_cons in Hnd. apply NoDup_cons in Hnd as [Hni Hnd]. cbn [fold_left fst snd].
  rewrite IH, list_to_map_cons by done. destruct (decide (k = k')) as [->|Hne].
  - rewrite (not_elem_of_list_to_map_1 entries k' Hni), !lookup_insert_eq. done.
  - by rewrite !lookup_insert_ne.
Qed.

Lemma sorted_entries_nodup (f : gmap string string) : NoDup (merge_sort key_le (map_to_list f)).*1.
Proof. rewrite merge_sort_Permutation. apply NoDup_fst_map_to_list. Qed.

(** The subscriber reads the fields the signer wrote. *)
Lemma parse_payload f : tidy_fields f -> parse_kv_lines (str (to_kv_payload f)) = f.
Proof.
  intros Hf. unfold parse_kv_lines, to_kv_payload, kv_lines. rewrite chars_of_string_of_list.
  pose proof (sorted_entries_nodup f) as Hnd. pose proof (merge_sort_Permutation key_le (map_to_list f)) as Hp.
  set (entries := merge_sort key_le (map_to_list f)) in *.
  assert (Hall : Forall (fun e => tidy_entry e.1 e.2) entries).
  { rewrite Hp. apply Forall_forall. intros [k v] Hin. apply elem_of_map_to_list in Hin. by apply Hf. }
  assert (Hfold : fold_left (fun out t => kv_line out (str t)) (map entry_line entries) ∅ = f).
  { rewrite fold_kv_lines by done. apply map_eq. intros k. rewrite fold_insert_lookup, lookup_empty by done.
    assert (Hl : (list_to_map entries : gmap string string) = f).
    { rewrite <- (list_to_map_to_list f). by apply list_to_map_proper. }
    rewrite Hl. by destruct (f !! k). }
  destruct (decide (entries = [])) as [He|He]; [rewrite He in Hfold |- *; exact Hfold|].
  rewrite split_join; [done|by vm_compute|by intros Hn%map_eq_nil|]. apply Forall_map. eapply Forall_impl; [exact Hall|]. intros [k v] Hkv. by apply tidy_entry_newline.
Qed.

(** ** Signed commands at a server *)

Lemma tidy_fields_insert k v f : tidy_entry k v -> tidy_fields f -> tidy_fields (<[k := v]> f).
Proof. apply map_Forall_insert_2. Qed.

Lemma tidy_fields_signed f issued nonce digest :
  tidy_fields f -> 0 <= issued -> tidy nonce -> tidy_fields (signed_fields f issued nonce (to_hex digest)).
Proof.
  intros Hf Hi Hn. unfold signed_fields. apply tidy_fields_insert.
  { split_and!; [done| |by repeat constructor|apply hex_tidy]. by_decide. }
  apply map_Forall_delete, tidy_fields_insert; [split_and!; [done| |by repeat constructor|done]|].
  { by_decide. }
  apply tidy_fields_insert; [|done]. split_and!; [done| |by repeat constructor|by apply digits_tidy].
  by_decide.
Qed.

(** What signing does not touch. *)
Lemma signed_fields_lookup f issued nonce sg k :
  ~ k ∈ ["signature"; "nonce"; "issued_at"]%string -> signed_fields f issued nonce sg !! k = f !! k.
Proof.
  intros Hk. unfold signed_fields. rewrite lookup_insert_ne, lookup_delete_ne, !lookup_insert_ne by set_solver. done.
Qed.

(** The conditions under which a server takes a command: another gateway name than the
    service's, the same secret, and a time and a nonce its verifier accepts. *)
Record receives (cfg : AdminConfig) (out : Outside) (gwid : string) (now : Z) (v : Verifier) : Prop := {
  rc_other : gwid <> "admin_app"%string;
  rc_secret : secret_ v = chars_of (admin_command_signing_secret_ cfg);
  rc_fresh : seen_nonces_ v !! nonce_text out = None;
  rc_future : issued_at_ms out <= now + future_skew_ms (options_ v) < 2 ^ 64;
  rc_alive : now <= issued_at_ms out + ttl_ms (options_ v) < 2 ^ 64;
  rc_time : 0 <= now /\ 0 <= future_skew_ms (options_ v) /\ 0 <= ttl_ms (options_ v);
  rc_issued : fits 64 (issued_at_ms out);
}.

Definition sound_HMAC (HMAC : chars -> chars -> option (list Z)) : Prop := forall k d, exists b g, HMAC k d = Some (b :: g).

(** What a verified command does at a server with the fields the handler wrote. *)
Definition reaction (rec : InstanceRecord) (kind : ExactFanoutChannel) (fields : gmap string string) : option Action :=
  let sel := parse_admin_selector_fields fields in
  if admin_selector_specified sel && negb (admin_selector_valid sel && matches_selector rec (admin_selector sel))
  then None else admin_action kind EmptyString fields.

Definition outside_ok (out : Outside) : Prop := nonce_text out <> EmptyString /\ tidy (nonce_text out) /\ 0 <= issued_at_ms out.

Lemma on_message_admin HMAC prefix gwid rec channel kind payload now v :
  gwid <> "admin_app"%string -> kind <> kWhisper ->
  String.prefix (prefix +:+ "fanout:refresh:") channel = false ->
  String.prefix (prefix +:+ "fanout:room:") channel = false ->
  find_channel prefix channel = Some kind ->
  on_message HMAC prefix gwid rec channel ("gw=admin_app" +:+ newline +:+ payload) now v
  = admin_command HMAC rec kind payload now v.
Proof.
  intros Hg Hk Hr Hm Hc. unfold on_message.
  change ("gw=admin_app" +:+ newline +:+ payload) with ("gw=" +:+ "admin_app" +:+ String (ascii_of_byte 10) payload).
  assert (Hp : String.prefix "gw=" ("gw=" +:+ "admin_app" +:+ String (ascii_of_byte 10) payload) = true) by done.
  rewrite Hp. cbn [negb]. change (str_drop 3 ("gw=" +:+ ?x)) with x.
  rewrite take_until_app; [|by repeat constructor|done].
  rewrite (bool_decide_eq_false_2 ("admin_app"%string = gwid)) by congruence.
  rewrite Hr, Hm, Hc. rewrite bool_decide_eq_false_2 by done. cbn [negb str_drop].
  by rewrite bool_decide_eq_false_2.
Qed.

Lemma reaction_signed rec kind fields issued nonce sg payload :
  kind <> kWhisper ->
  (let sel := parse_admin_selector_fields (signed_fields fields issued nonce sg) in
   if admin_selector_specified sel && negb (admin_selector_valid sel && matches_selector rec (admin_selector sel))
   then None else admin_action kind payload (signed_fields fields issued nonce sg))
  = reaction rec kind fields.
Proof.
  intros Hk. unfold reaction.
  assert (Hs : parse_admin_selector_fields (signed_fields fields issued nonce sg) = parse_admin_selector_fields fields).
  { unfold parse_admin_selector_fields, admin_csv. cbn [existsb].
    by rewrite !signed_fields_lookup by by_decide. }
  rewrite Hs. case_match; [done|].
  destruct kind; [done|..]; unfold admin_action, field;
    by rewrite !signed_fields_lookup by by_decide.
Qed.

(** A command the handler sent, at a server. *)
Lemma send_command_reaches HMAC cfg clock out rid channel fields failed s s' :
  send_command HMAC cfg clock out rid channel fields failed s = (s', inr tt) ->
  sound_HMAC HMAC -> outside_ok out -> tidy_fields fields ->
  exists msg, s' = add_trace (Published channel msg true) s
  /\ forall gwid rec kind now v, receives cfg out gwid now v -> kind <> kWhisper ->
     String.prefix (redis_channel_prefix_ cfg +:+ "fanout:refresh:") channel = false ->
     String.prefix (redis_channel_prefix_ cfg +:+ "fanout:room:") channel = false ->
     find_channel (redis_channel_prefix_ cfg) channel = Some kind ->
     (on_message HMAC (redis_channel_prefix_ cfg) gwid rec channel msg now v).2 = reaction rec kind fields.
Proof.
  intros Hsend Hmac (Hne & Htidy & Hi) Hf. unfold send_command, build_signed_admin_message in Hsend.
  destruct (chars_of (admin_command_signing_secret_ cfg)) as [|c secret] eqn:Hsec; [done|].
  destruct (append_signature_fields HMAC fields (c :: secret) (issued_at_ms out) (nonce_text out)) as [signed ok] eqn:Hsig.
  destruct ok; [|done]. destruct (publish_ok out); [|done]. injection Hsend as <-. eexists. split; [done|].
  intros gwid rec kind now v [Hg Hs Hfresh Hfut Hal Ht Hiss] Hk Hr Hm Hc.
  rewrite (on_message_admin HMAC _ gwid rec channel kind) by done. unfold admin_command.
  destruct v as [vsec opts seen]. cbn [secret_ options_ seen_nonces_] in *. rewrite Hsec in Hs. subst vsec.
  destruct (append_signature_verifies HMAC fields c secret (issued_at_ms out) (nonce_text out) opts seen now)
    as (digest & Hsig' & Hok); [done|done|done|done|lia|lia|lia|lia|].
  rewrite Hsig in Hsig'. injection Hsig' as ->.
  rewrite parse_payload by (by apply tidy_fields_signed).
  destruct (verify HMAC _ now _) as [v' r]. cbn [snd] in Hok. subst r. cbv zeta.
  rewrite <- (reaction_signed rec kind fields (issued_at_ms out) (nonce_text out) (to_hex digest)
                (str (to_kv_payload (signed_fields fields (issued_at_ms out) (nonce_text out) (to_hex digest)))) Hk).
  cbv zeta. by case_match.
Qed.

(** ** Selectors *)

Definition selector_lists (sel : InstanceSelector) : list (list string) :=
  [server_ids sel; roles sel; game_modes sel; regions sel; shards sel; sel_tags sel].

(** Which instances a request means. *)
Definition targeted (sel : SelectorParseResult) (rec : InstanceRecord) : bool :=
  negb (selector_specified sel) || matches_selector rec (selector sel).

(** A selector whose form on the wire says the same: its names are plain, and it says
    something. *)
Record wire_selector (sel : SelectorParseResult) : Prop := {
  ws_names : Forall (Forall tidy_name) (selector_lists (selector sel));
  ws_all : all_specified sel = false -> sel_all (selector sel) = false;
  ws_says : selector_specified sel = true ->
            all_specified sel = true \/ existsb nonempty (selector_lists (selector sel)) = true;
}.

Definition selector_fields : list string := "all"%string :: selector_keys.

Lemma append_csv_lookup k key values f : k <> key -> append_csv_field key values f !! k = f !! k.
Proof. intros Hk. unfold append_csv_field. destruct (nonempty values); [by rewrite lookup_insert_ne|done]. Qed.

Lemma append_selector_lookup sel f k :
  ~ k ∈ selector_fields -> append_selector_command_fields sel f !! k = f !! k.
Proof.
  unfold selector_fields, selector_keys. intros Hk. unfold append_selector_command_fields.
  destruct (selector_specified sel); cbn [negb]; [|done].
  rewrite !append_csv_lookup by set_solver. destruct (all_specified sel); [|done]. by rewrite lookup_insert_ne by set_solver.
Qed.

Lemma append_csv_read key values f :
  Forall tidy_name values -> f !! key = None ->
  admin_csv (append_csv_field key values f) key = values
  /\ bool_decide (is_Some (append_csv_field key values f !! key)) = nonempty values.
Proof.
  intros Hv Hf. unfold admin_csv, append_csv_field. destruct values as [|v values]; cbn [nonempty].
  - by rewrite Hf.
  - rewrite lookup_insert_eq. by rewrite split_csv_join.
Qed.

Lemma append_csv_other key key' values f :
  key <> key' -> admin_csv (append_csv_field key' values f) key = admin_csv f key.
Proof. intros Hk. unfold admin_csv. by rewrite append_csv_lookup. Qed.

Lemma append_csv_present key key' values f :
  key <> key' ->
  bool_decide (is_Some (append_csv_field key' values f !! key)) = bool_decide (is_Some (f !! key)).
Proof. intros Hk. by rewrite append_csv_lookup. Qed.

(** The subscriber reads the selector the service wrote. *)
Lemma selector_read sel f :
  wire_selector sel -> (forall k, k ∈ selector_fields -> f !! k = None) ->
  let p := parse_admin_selector_fields (append_selector_command_fields sel f) in
  if selector_specified sel
  then p = mkAdminSelector (selector sel) true true
  else admin_selector_specified p = false.
Proof.
  intros [Hnames Hall Hsays] Hf. unfold append_selector_command_fields.
  destruct (selector_specified sel) eqn:Hspec; cbn [negb]; cbv zeta; unfold parse_admin_selector_fields.
  2: { rewrite (Hf "all"%string) by by_decide. cbn [admin_selector_specified existsb].
       by rewrite !Hf by by_decide. }
  set (g := if all_specified sel then _ else f).
  assert (Hg : forall k, k ∈ selector_keys -> g !! k = None).
  { intros k Hk. unfold g. assert (k <> "all"%string) by (intros ->; revert Hk; by_decide).
    destruct (all_specified sel); [rewrite lookup_insert_ne by done|]; apply Hf; by right. }
  assert (Hga : g !! "all"%string = if all_specified sel then Some (if sel_all (selector sel) then "1"%string else "0"%string) else None).
  { unfold g. destruct (all_specified sel); [by rewrite lookup_insert_eq|]. apply Hf. by_decide. }
  clearbody g. unfold selector_lists in *. rewrite !Forall_cons in Hnames. destruct Hnames as (H1 & H2 & H3 & H4 & H5 & H6 & _).
  cbn [existsb]. rewrite !(append_csv_present "server_ids"), !(append_csv_present "roles"), !(append_csv_present "game_modes"),
    !(append_csv_present "regions"), !(append_csv_present "shards"), !(append_csv_lookup "all") by done.
  rewrite !(append_csv_other "server_ids"), !(append_csv_other "roles"), !(append_csv_other "game_modes"),
    !(append_csv_other "regions"), !(append_csv_other "shards") by done.
  repeat match goal with |- context [append_csv_field ?k ?v ?h] =>
    let Hr := fresh in let Hp := fresh in
    destruct (append_csv_read k v h) as [Hr Hp];
      [assumption|rewrite ?append_csv_lookup by done; apply Hg; by_decide|];
    rewrite ?Hr, ?Hp; clear Hr Hp end.
  rewrite Hga. destruct (selector sel) as [all l1 l2 l3 l4 l5 l6]. cbn in *. destruct (all_specified sel).
  - by destruct all.
  - destruct (Hsays eq_refl) as [|Hex]; [done|]. rewrite Hall by done. f_equal. exact Hex.
Qed.

(** ** Handlers *)

Lemma bind_inr {A B} (m : M A) (f : A -> M B) s s' b :
  (m ≫= f) s = (s', inr b) -> exists s1 a, m s = (s1, inr a) /\ f a s1 = (s', inr b).
Proof. unfold mbind, M_bind. destruct (m s) as [s1 [r|a]]; [done|]. eauto. Qed.

Lemma fail_inr {A} clock rid status code msg details s s' (a : A) :
  fail clock rid status code msg details s <> (s', inr a).
Proof. done. Qed.

Lemma guard_fail b clock rid status code msg details s s' :
  guard b (fail clock rid status code msg details) s = (s', inr tt) -> b = true /\ s' = s.
Proof. destruct b; cbn [guard]; [|done]. by intros [= <-]. Qed.

(** The steps of a handler that answered. *)
Ltac answered :=
  repeat match goal with
  | H : (_ ≫= _) _ = (_, inr _) |- _ =>
      let s1 := fresh "s" in let a := fresh "a" in let H1 := fresh "H" in
      apply bind_inr in H as (s1 & a & H1 & H)
  | H : guard _ _ _ = (_, inr ?u) |- _ => destruct u; apply guard_fail in H as [? ->]
  | H : get _ = (_, inr _) |- _ => injection H as <- <-
  | H : mret _ _ = (_, inr _) |- _ => injection H as <- <-
  | H : fail _ _ _ _ _ _ _ = (_, inr _) |- _ => by apply fail_inr in H
  | H : bad_request _ _ _ _ _ = (_, inr _) |- _ => by apply fail_inr in H
  end.

Lemma command_selector_inr clock rid q s s' sel :
  command_selector clock rid q s = (s', inr sel) -> s' = s /\ parse_instance_selector_query q = inl sel.
Proof.
  unfold command_selector. intros H. answered.
  destruct (parse_instance_selector_query q) as [sel'|e]; answered. done.
Qed.

Lemma command_targets_inr clock rid params s s' names :
  command_targets clock rid params s = (s', inr names) ->
  s' = s /\ names = dedupe (requested_targets params) /\ names <> [].
Proof.
  unfold command_targets. intros H. answered. split_and!; [done|done|]. by destruct (dedupe _).
Qed.

Lemma moderation_duration_inr clock rid params s s' n :
  moderation_duration clock rid params s = (s', inr n) ->
  s' = s /\ 0 <= n < 2 ^ 32
  /\ n = match params !! "duration_sec"%string with Some raw => default 0 (parse_u32_strict (trim_ascii raw)) | None => 0 end.
Proof.
  unfold moderation_duration. destruct (params !! "duration_sec"%string) as [raw|]; [|intros [= <- <-]; lia || (split; [done|lia])].
  case_bool_decide as Hr; [intros [= <- <-]; subst; split; [done|split; [lia|done]]|].
  destruct (parse_u32_strict (trim_ascii raw)) as [m|] eqn:Hp; [|intros H; answered]. intros [= <- <-]. split; [done|].
  split; [|done]. unfold parse_u32_strict, parse_u32 in Hp. repeat case_match; simplify_eq. unfold u32, wrap. zlia.
Qed.

(** ** Requests *)

(** No newline in a parameter, and no comma in a single name: what the wire format
    cannot carry. *)
Record plain_params (params : params_t) : Prop := {
  pp_lines : map_Forall (fun _ v => has_none is_newline v) params;
  pp_name : forall v, params !! "client_id"%string = Some v -> has_none (is_sep 44) v;
}.

Lemma split_sep_tokens sep l :
  Forall (Forall (fun c => is_sep sep c = false)) (split_sep sep l)
  /\ forall P : Ascii.ascii -> Prop, Forall P l -> Forall (Forall P) (split_sep sep l).
Proof.
  induction l as [|c l [IH1 IH2]]; [by repeat constructor|]. cbn [split_sep].
  destruct (is_sep sep c) eqn:Hc; split.
  - by constructor.
  - intros P [_ HP]%Forall_cons. constructor; [done|by apply IH2].
  - destruct (split_sep sep l); [by repeat constructor|]. apply Forall_cons in IH1 as [? ?]. by repeat constructor.
  - intros P [Hc' HP]%Forall_cons. specialize (IH2 P HP). destruct (split_sep sep l); [by repeat constructor|].
    apply Forall_cons in IH2 as [? ?]. by repeat constructor.
Qed.

Lemma split_csv_names v : has_none is_newline v -> Forall tidy_name (split_csv_trimmed v).
Proof.
  intros Hv. unfold split_csv_trimmed. destruct (split_sep_tokens 44 (chars_of v)) as [Hs Hp].
  specialize (Hp _ Hv). apply Forall_forall. intros t Ht. apply list_elem_of_In, filter_In in Ht as [Hin Hne].
  apply in_map_iff in Hin as (tok & <- & Hin). apply list_elem_of_In in Hin.
  rewrite Forall_forall in Hs, Hp. specialize (Hs tok Hin). specialize (Hp tok Hin).
  apply negb_true_iff, bool_decide_eq_false in Hne. split_and!; [done| |].
  - apply tidy_trim. unfold has_none. by rewrite chars_of_string_of_list.
  - apply trim_cases. by rewrite chars_of_string_of_list.
Qed.

Lemma csv_field_names params key : plain_params params -> Forall tidy_name (csv_field params key).
Proof.
  intros [Hl _]. unfold csv_field. destruct (params !! key) as [v|] eqn:Hv; [|constructor].
  apply split_csv_names. by apply (Hl key).
Qed.

Lemma dedupe_names (P : string -> Prop) targets :
  (forall t, t ∈ targets -> valid_target (trim_ascii t) = true -> P (trim_ascii t)) -> Forall P (dedupe targets).
Proof.
  intros HP. unfold dedupe. assert (Hgen : forall acc, Forall P acc.1 -> Forall P (fold_left dedupe_step targets acc).1);
    [|by apply Hgen].
  induction targets as [|t targets IH]; intros acc Hacc; [done|]. cbn [fold_left]. apply IH.
  - intros t' Ht'. apply HP. by right.
  - unfold dedupe_step. destruct (valid_target (trim_ascii t)) eqn:Hv; cbn [negb]; [|done].
    case_bool_decide; [done|]. cbn. apply Forall_app. split; [done|]. constructor; [|done]. apply HP; [by left|done].
Qed.

Lemma requested_names params : plain_params params -> Forall tidy_name (dedupe (requested_targets params)).
Proof.
  intros [Hl Hn]. apply dedupe_names. intros t Ht Hv. unfold requested_targets in Ht. apply elem_of_app in Ht as [Ht|Ht].
  - destruct (params !! "client_id"%string) as [v|] eqn:Hc; [|set_solver]. cbv zeta in Ht.
    case_bool_decide as He; [set_solver|]. apply list_elem_of_singleton in Ht as ->. unfold trim_ascii. rewrite trim_idem.
    split_and!; [exact He|apply tidy_trim; by apply (Hl _ _ Hc)|]. apply trim_cases. by apply Hn.
  - destruct (params !! "client_ids"%string) as [v|] eqn:Hc; [|set_solver].
    pose proof (split_csv_names v (Hl _ _ Hc)) as Hall. rewrite Forall_forall in Hall. specialize (Hall t Ht).
    pose proof Hall as (_ & [_ Htrim] & _). by rewrite Htrim.
Qed.

Lemma parsed_selector q sel :
  parse_instance_selector_query q = inl sel -> plain_params (parse_query_string q) ->
  Forall (Forall tidy_name) (selector_lists (selector sel))
  /\ (all_specified sel = false -> sel_all (selector sel) = false).
Proof.
  intros Hq Hp. unfold parse_instance_selector_query in Hq. case_bool_decide; [injection Hq as <-; by repeat constructor|].
  cbv zeta in Hq. repeat case_match; simplify_eq; (split; [|done]); repeat constructor; by apply csv_field_names.
Qed.

(** ** What a request asks for *)

Inductive WriteOp := WDisconnect | WAnnounce | WSetting | WModerate (op : string).

Definition handle_write HMAC cfg clock out rid auth (w : WriteOp) (q : string) : M RouteResponse :=
  match w with
  | WDisconnect => handle_disconnect_users HMAC cfg clock out rid auth q
  | WAnnounce => handle_announcement HMAC cfg clock out rid auth q
  | WSetting => handle_runtime_setting HMAC cfg clock out rid auth q
  | WModerate op => handle_user_moderation HMAC cfg clock out rid auth op q
  end.

Definition wire_channel (cfg : AdminConfig) (w : WriteOp) : string :=
  redis_channel_prefix_ cfg +:+
    match w with
    | WDisconnect => "fanout:admin:disconnect" | WAnnounce => "fanout:admin:announce"
    | WSetting => "fanout:admin:settings" | WModerate _ => "fanout:admin:moderation"
    end.
Definition channel_kind (w : WriteOp) : ExactFanoutChannel :=
  match w with
  | WDisconnect => kAdminDisconnect | WAnnounce => kAdminAnnounce | WSetting => kAdminSettings
  | WModerate _ => kAdminModeration
  end.

Definition param (params : params_t) (key : string) : string := default EmptyString (params !! key).

(** The call a request asks the servers for. *)
Definition requested (w : WriteOp) (params : params_t) : Action :=
  match w with
  | WDisconnect =>
      AdminDisconnectUsers (dedupe (requested_targets params)) (sanitize_single_line (disconnect_reason params))
  | WAnnounce => AdminBroadcastNotice (sanitize_single_line (param params "text"))
  | WSetting =>
      AdminApplyRuntimeSetting (to_lower_ascii (trim_ascii (param params "key")))
        (to_string (default 0 (parse_u32_strict (trim_ascii (param params "value")))))
  | WModerate op =>
      AdminApplyUserModeration op (dedupe (requested_targets params))
        (default 0 (parse_u32_strict (trim_ascii (param params "duration_sec")))) (moderation_reason params)
  end.

(** The names of the moderation endpoints, and a reason that was not cut after a blank. *)
Definition carried (w : WriteOp) (params : params_t) : Prop :=
  match w with
  | WModerate op => op ∈ ["mute"; "unmute"; "ban"; "unban"; "kick"]%string /\ tidy (moderation_reason params)
  | _ => True
  end.

Lemma bool_decide_app p a b : bool_decide (p +:+ a = p +:+ b) = bool_decide (a = b).
Proof.
  apply bool_decide_ext. split; [|by intros ->]. intros He.
  apply (f_equal chars_of) in He. rewrite !chars_of_app in He. apply app_inv_head in He. by apply chars_of_inj.
Qed.

Lemma wire_channel_kind cfg w :
  find_channel (redis_channel_prefix_ cfg) (wire_channel cfg w) = Some (channel_kind w).
Proof.
  unfold find_channel, exact_channels. cbn [find fst].
  unfold wire_channel. rewrite !bool_decide_app. by destruct w.
Qed.

Lemma prefix_app p a b : String.prefix (p +:+ a) (p +:+ b) = String.prefix a b.
Proof.
  induction p as [|c p IH]; [done|]. change (String.prefix (String c (p +:+ a)) (String c (p +:+ b)) = String.prefix a b).
  cbn [String.prefix]. by destruct (Ascii.ascii_dec c c).
Qed.

Lemma wire_channel_other cfg w :
  String.prefix (redis_channel_prefix_ cfg +:+ "fanout:refresh:") (wire_channel cfg w) = false
  /\ String.prefix (redis_channel_prefix_ cfg +:+ "fanout:room:") (wire_channel cfg w) = false.
Proof. unfold wire_channel. rewrite !prefix_app. by destruct w. Qed.

Lemma tidy_app a b : tidy a -> tidy b -> a <> EmptyString -> b <> EmptyString -> tidy (a +:+ b).
Proof.
  intros Ha Hb Hna Hnb. split; [apply has_none_app; [apply Ha|apply Hb]|]. apply trim_edges_id. rewrite chars_of_app.
  destruct (tidy_edges a Ha Hna) as [(c & l & -> & Hc) _], (tidy_edges b Hb Hnb) as [_ (l' & z & -> & Hz)].
  split; [eauto|]. exists ((c :: l) ++ l'), z. by rewrite <- app_assoc.
Qed.

(** The key of a field is written in the source. *)
Lemma tidy_entry_key k v : bool_decide (k <> EmptyString /\ tidy k /\ has_none (is_sep 61) k) = true -> tidy v -> tidy_entry k v.
Proof. intros (? & ? & ?)%bool_decide_eq_true Hv. by split_and!. Qed.

Ltac tidy_key := apply tidy_entry_key; [vm_compute; reflexivity|].

Lemma to_string_nonempty n : 0 <= n -> to_string n <> EmptyString.
Proof. intros Hn. destruct (decimal_digits n Hn) as (_ & _ & Hne). unfold to_string. by destruct (decimal n). Qed.

Lemma command_fields_tidy rid auth op : 0 <= rid -> tidy op -> tidy_fields (command_fields rid auth op).
Proof.
  intros Hr Hop. unfold command_fields. apply tidy_fields_insert; [tidy_key|apply tidy_fields_insert; [tidy_key|
    apply tidy_fields_insert; [tidy_key|apply map_Forall_empty]]].
  - apply tidy_app; [by_decide|by apply digits_tidy|done|by apply to_string_nonempty].
  - apply sanitize_tidy.
  - done.
Qed.

Lemma append_selector_tidy sel f : wire_selector sel -> tidy_fields f -> tidy_fields (append_selector_command_fields sel f).
Proof.
  intros [Hn _ _] Hf. unfold append_selector_command_fields. destruct (selector_specified sel); cbn [negb]; [|done].
  unfold selector_lists in Hn. rewrite !Forall_cons in Hn. destruct Hn as (H1 & H2 & H3 & H4 & H5 & H6 & _).
  assert (Hcsv : forall k values g, bool_decide (k <> EmptyString /\ tidy k /\ has_none (is_sep 61) k) = true ->
    Forall tidy_name values -> tidy_fields g -> tidy_fields (append_csv_field k values g)).
  { intros k values g Hk Hv Hg. unfold append_csv_field. destruct (nonempty values); [|done].
    apply tidy_fields_insert; [|done]. apply tidy_entry_key; [done|]. by apply join_csv_tidy. }
  do 6 (apply Hcsv; [vm_compute; reflexivity|done|]).
  destruct (all_specified sel); [|done]. apply tidy_fields_insert; [tidy_key|done]. destruct (sel_all (selector sel)); by_decide.
Qed.

(** The fields of a command, before the selector. *)
Definition base_fields (rid : Z) (auth : AuthContext) (w : WriteOp) (params : params_t) : params_t :=
  match requested w params with
  | AdminDisconnectUsers users reason =>
      <["client_ids"%string := join_csv users]> (<["reason"%string := reason]> (command_fields rid auth "disconnect"))
  | AdminBroadcastNotice text =>
      <["text"%string := text]> (<["priority"%string := announcement_priority params]> (command_fields rid auth "announce"))
  | AdminApplyRuntimeSetting key value =>
      <["value"%string := value]> (<["key"%string := sanitize_single_line key]> (command_fields rid auth "settings"))
  | AdminApplyUserModeration op users duration_sec reason =>
      <["client_ids"%string := join_csv users]>
        (<["reason"%string := reason]>
          (<["duration_sec"%string := to_string duration_sec]> (command_fields rid auth (sanitize_single_line op))))
  | _ => ∅
  end.

Definition parsed_u32 (raw : string) : Z := default 0 (parse_u32_strict raw).

Lemma parsed_u32_range raw : 0 <= parsed_u32 raw < 2 ^ 32.
Proof.
  unfold parsed_u32, parse_u32_strict, parse_u32. repeat case_match; cbn; try lia. unfold u32, wrap. zlia.
Qed.

Lemma announcement_priority_tidy params : tidy (announcement_priority params).
Proof.
  unfold announcement_priority. destruct (params !! "priority"%string) as [v|]; [|by_decide]. cbv zeta.
  case_bool_decide as Hv; [|by_decide].
  assert (Hall : Forall tidy ["info"; "warn"; "critical"]%string) by by_decide. rewrite Forall_forall in Hall. by apply Hall.
Qed.

Lemma base_fields_tidy rid auth w params :
  0 <= rid -> plain_params params -> carried w params -> tidy_fields (base_fields rid auth w params).
Proof.
  intros Hr Hp Hc. pose proof (join_csv_tidy _ (requested_names params Hp)) as Hn. unfold base_fields.
  destruct w as [| | |op]; cbn [requested].
  - apply tidy_fields_insert; [by tidy_key|]. apply tidy_fields_insert; [tidy_key; apply sanitize_tidy|].
    apply command_fields_tidy; [done|by_decide].
  - apply tidy_fields_insert; [tidy_key; apply sanitize_tidy|].
    apply tidy_fields_insert; [tidy_key; apply announcement_priority_tidy|]. apply command_fields_tidy; [done|by_decide].
  - apply tidy_fields_insert; [tidy_key; apply digits_tidy; apply (parsed_u32_range (trim_ascii (param params "value")))|].
    apply tidy_fields_insert; [tidy_key; apply sanitize_tidy|]. apply command_fields_tidy; [done|by_decide].
  - destruct Hc as [_ Hc]. apply tidy_fields_insert; [by tidy_key|]. apply tidy_fields_insert; [by tidy_key|].
    apply tidy_fields_insert; [tidy_key; apply digits_tidy; apply (parsed_u32_range (trim_ascii (param params "duration_sec")))|].
    apply command_fields_tidy; [done|apply sanitize_tidy].
Qed.

Lemma base_fields_selector rid auth w params k : k ∈ selector_fields -> base_fields rid auth w params !! k = None.
Proof.
  intros Hk. assert (Hne : Forall (fun k' => k <> k')
    ["client_ids"; "reason"; "request_id"; "actor"; "op"; "text"; "priority"; "value"; "key"; "duration_sec"]%string).
  { assert (Hall : Forall (fun k => Forall (fun k' => k <> k')
      ["client_ids"; "reason"; "request_id"; "actor"; "op"; "text"; "priority"; "value"; "key"; "duration_sec"]%string)
      selector_fields) by by_decide. rewrite Forall_forall in Hall. by apply Hall. }
  rewrite !Forall_cons in Hne. destruct Hne as (? & ? & ? & ? & ? & ? & ? & ? & ? & ? & _).
  unfold base_fields, command_fields. destruct w; cbn [requested]; by rewrite !lookup_insert_ne, lookup_empty by done.
Qed.

(** What a handler has checked when it answers. *)
Definition established (w : WriteOp) (params : params_t) : Prop :=
  match w with
  | WDisconnect | WModerate _ => dedupe (requested_targets params) <> []
  | WAnnounce => sanitize_single_line (param params "text") <> EmptyString
  | WSetting => exists rule,
      find_runtime_setting_rule (to_lower_ascii (trim_ascii (param params "key"))) = Some rule
      /\ min_value rule <= parsed_u32 (trim_ascii (param params "value")) <= max_value rule
  end.

(** The parts of a handler that answered. *)
Ltac handler_parts :=
  answered; unfold accepted in *; answered;
  repeat match goal with
  | H : command_selector _ _ _ _ = (_, inr _) |- _ => apply command_selector_inr in H as [-> ?]
  | H : command_targets _ _ _ _ = (_, inr _) |- _ => apply command_targets_inr in H as (-> & -> & ?)
  | H : moderation_duration _ _ _ _ = (_, inr _) |- _ => apply moderation_duration_inr in H as (-> & _ & ->)
  | H : send_command _ _ _ _ _ _ _ _ _ = (_, inr ?u) |- _ => destruct u
  end.

Lemma param_default {A} (params : params_t) key (f : string -> A) d :
  f EmptyString = d -> match params !! key with Some v => f v | None => d end = f (param params key).
Proof. intros <-. unfold param. by destruct (params !! key). Qed.

Lemma check_setting_inr clock rid key value s s' n :
  check_setting clock rid key value s = (s', inr n) ->
  s' = s /\ n = parsed_u32 value
  /\ exists rule, find_runtime_setting_rule key = Some rule /\ min_value rule <= n <= max_value rule.
Proof.
  unfold check_setting, parsed_u32. intros H. destruct (parse_u32_strict value) as [m|]; [|answered].
  destruct (find_runtime_setting_rule key) as [rule|]; [|answered].
  destruct ((m <? min_value rule) || (max_value rule <? m)) eqn:Hr; [answered|]. answered.
  apply orb_false_iff in Hr as [? ?]. split_and!; [done|done|]. exists rule. split; [done|]. zbool; lia.
Qed.

Lemma admin_write_inv HMAC cfg clock out rid auth w q s s' resp :
  handle_write HMAC cfg clock out rid auth w q s = (s', inr resp) ->
  let params := parse_query_string q in
  exists sel failed,
    parse_instance_selector_query q = inl sel
    /\ send_command HMAC cfg clock out rid (wire_channel cfg w)
         (append_selector_command_fields sel (base_fields rid auth w params)) failed s = (s', inr tt)
    /\ established w params.
Proof.
  destruct w as [| | |op]; cbn [handle_write]; intros H; cbv zeta.
  - unfold handle_disconnect_users in H. handler_parts. by eexists _, _.
  - unfold handle_announcement in H. handler_parts. rewrite param_default in * by done. eexists _, _.
    split_and!; [done..|]. cbn [established].
    by match goal with Hb : negb (bool_decide (_ = EmptyString)) = true |- _ => apply negb_true_iff, bool_decide_eq_false in Hb end.
  - unfold handle_runtime_setting in H. handler_parts. rewrite !param_default in * by done.
    match goal with Hc : check_setting _ _ _ _ _ = _ |- _ => apply check_setting_inr in Hc as (-> & -> & Hrule) end.
    by eexists _, _.
  - unfold handle_user_moderation in H. handler_parts. eexists _, _. split_and!; [done| |done].
    unfold base_fields. cbn [requested]. by rewrite (param_default _ "duration_sec" (fun raw => parsed_u32 (trim_ascii raw)) 0) in *.
Qed.

Lemma join_csv_nonempty names : names <> [] -> Forall tidy_name names -> join_csv names <> EmptyString.
Proof.
  intros Hne Hall He. apply (f_equal chars_of) in He. rewrite join_csv_chars in He.
  destruct Hall as [|n names (Hn & _) _]; [done|]. cbn [map join_sep] in He. apply app_eq_nil in He as [He _]. by destruct n.
Qed.

Lemma drop_while_nil f l : drop_while f l = [] -> Forall (fun c => f c = true) l.
Proof.
  induction l as [|c l IH]; [constructor|]. cbn. destruct (f c) eqn:E; [|done]. intros Hl. constructor; auto.
Qed.

(** Only blanks are trimmed to nothing. *)
Lemma trim_empty f s : trim f s = EmptyString -> Forall (fun c => f c = true) (chars_of s).
Proof.
  rewrite <- (str_chars s) at 1. rewrite trim_str. intros He. apply (f_equal chars_of) in He.
  rewrite chars_of_string_of_list in He. apply (f_equal (@rev _)) in He. rewrite rev_involutive in He.
  apply drop_while_nil, Forall_rev in He. rewrite rev_involutive in He. apply drop_while_nil.
  destruct (drop_while_head f (chars_of s)) as [|(c & l & Hd & Hc)]; [done|]. rewrite Hd in He. inv He. congruence.
Qed.

Lemma sanitize_take s n : (0 < n)%nat -> s <> EmptyString -> tidy s -> sanitize_single_line (str_take n s) <> EmptyString.
Proof.
  intros Hn Hs Ht. destruct (tidy_edges s Ht Hs) as [(c & l & Hl & Hc) _]. destruct s as [|c' s]; [done|].
  injection Hl as -> _. destruct n as [|n]; [lia|]. cbn [str_take]. intros He%trim_empty.
  rewrite chars_of_string_of_list in He. apply Forall_cons in He as [He _]. unfold one_line in He.
  destruct ((byte_of_ascii c =? 10) || (byte_of_ascii c =? 13)) eqn:Hb; [|congruence].
  unfold isspace in Hc. apply orb_true_iff in Hb as [Hb|Hb]; apply Z.eqb_eq in Hb; by rewrite Hb in Hc.
Qed.

Lemma disconnect_reason_nonempty params : sanitize_single_line (disconnect_reason params) <> EmptyString.
Proof.
  unfold disconnect_reason. cbv zeta. set (r := match _ with Some v => sanitize_single_line v | None => _ end).
  assert (Ht : tidy r) by (unfold r; case_match; [apply sanitize_tidy|by_decide]).
  case_bool_decide as Hr; [by vm_compute|]. apply sanitize_take; [lia|done|done].
Qed.

Lemma find_rule_name key rules rule : find_rule key rules = Some rule -> rule ∈ rules /\ key_name rule = key.
Proof.
  induction rules as [|r rules IH]; [done|]. cbn [find_rule]. case_bool_decide as Hk.
  - intros [= <-]. split; [by left|done].
  - intros [? ?]%IH. split; [by right|done].
Qed.

(** The name of a setting is written as it is. *)
Lemma rule_key key rule : find_runtime_setting_rule key = Some rule -> sanitize_single_line key = key /\ key <> EmptyString.
Proof.
  intros [Hin <-]%find_rule_name.
  assert (Hall : Forall (fun r => sanitize_single_line (key_name r) = key_name r /\ key_name r <> EmptyString) kRuntimeSettingRules)
    by by_decide. rewrite Forall_forall in Hall. by apply Hall.
Qed.

Lemma field_some fields k v : fields !! k = Some v -> v <> EmptyString -> field fields k = Some v.
Proof. intros Hf Hv. unfold field. by rewrite Hf, bool_decide_eq_false_2. Qed.

(** The fields make the subscriber call what the request asks for. *)
Lemma base_action rid auth w params sel :
  plain_params params -> carried w params -> established w params ->
  admin_action (channel_kind w) EmptyString (append_selector_command_fields sel (base_fields rid auth w params))
  = Some (requested w params).
Proof.
  intros Hp Hc He. pose proof (requested_names params Hp) as Hn.
  assert (Hlook : forall k, ~ k ∈ selector_fields ->
    append_selector_command_fields sel (base_fields rid auth w params) !! k = base_fields rid auth w params !! k)
    by (intros; by apply append_selector_lookup).
  set (f := append_selector_command_fields _ _) in *. clearbody f. unfold base_fields in Hlook.
  destruct w as [| | |op]; cbn [channel_kind admin_action requested established carried] in *.
  - rewrite (field_some f "client_ids" (join_csv (dedupe (requested_targets params)))); [|by rewrite Hlook by by_decide|by apply join_csv_nonempty].
    cbn [mbind option_bind]. rewrite split_csv_join by done.
    rewrite (field_some f "reason" (sanitize_single_line (disconnect_reason params))); [|by rewrite Hlook by by_decide|apply disconnect_reason_nonempty].
    by destruct (dedupe (requested_targets params)).
  - by rewrite (field_some f "text" (sanitize_single_line (param params "text"))); [|rewrite Hlook by by_decide|].
  - destruct He as (rule & Hrule & _). destruct (rule_key _ _ Hrule) as [Hs Hk].
    rewrite (field_some f "key" (to_lower_ascii (trim_ascii (param params "key")))); [|rewrite Hlook by by_decide; cbn; by rewrite Hs|done].
    rewrite (field_some f "value" (to_string (parsed_u32 (trim_ascii (param params "value"))))); [done|by rewrite Hlook by by_decide|].
    apply to_string_nonempty, parsed_u32_range.
  - destruct Hc as [Hop _].
    assert (Hops : Forall (fun o => sanitize_single_line o = o /\ o <> EmptyString) ["mute"; "unmute"; "ban"; "unban"; "kick"]%string)
      by by_decide. rewrite Forall_forall in Hops. destruct (Hops op Hop) as [Hs Hne].
    rewrite (field_some f "op" op); [|rewrite Hlook by by_decide; cbn; by rewrite Hs|done].
    rewrite (field_some f "client_ids" (join_csv (dedupe (requested_targets params)))); [|by rewrite Hlook by by_decide|by apply join_csv_nonempty].
    pose proof (parsed_u32_range (trim_ascii (param params "duration_sec"))) as Hr.
    rewrite (field_some f "duration_sec" (to_string (parsed_u32 (trim_ascii (param params "duration_sec")))));
      [|by rewrite Hlook by by_decide|apply to_string_nonempty; lia].
    rewrite (Hlook "reason"%string) by by_decide. cbn [mbind option_bind]. rewrite split_csv_join by done.
    unfold to_string. rewrite stoull_decimal by (widths; lia). cbv iota beta. fold (parsed_u32 (trim_ascii (param params "duration_sec"))). rewrite wrap_id by (widths; lia).
    by destruct (dedupe (requested_targets params)).
Qed.

(** ** Theorems *)

(** C10. A command that was accepted is what the servers do.  When one of the four write
    handlers answers with success, it has published exactly one message; and every server
    with the same channel prefix and secret that receives it, within the lifetime of the
    signature and with a nonce it has not seen, calls exactly what the request asked for if
    the request's selector means it, and nothing otherwise.  This is for requests whose
    parameters have no newline and whose single name has no comma, for selectors that name
    something, and for moderation reasons that were not cut after a blank. *)
Theorem admin_command_reaches_servers HMAC cfg clock out rid auth w q s s' resp :
  handle_write HMAC cfg clock out rid auth w q s = (s', inr resp) ->
  sound_HMAC HMAC -> outside_ok out -> 0 <= rid ->
  let params := parse_query_string q in
  plain_params params -> carried w params ->
  (forall sel, parse_instance_selector_query q = inl sel -> selector_specified sel = true ->
     all_specified sel = true \/ existsb nonempty (selector_lists (selector sel)) = true) ->
  exists sel msg,
    parse_instance_selector_query q = inl sel
    /\ s' = add_trace (Published (wire_channel cfg w) msg true) s
    /\ forall gwid rec now v, receives cfg out gwid now v ->
       (on_message HMAC (redis_channel_prefix_ cfg) gwid rec (wire_channel cfg w) msg now v).2
       = if targeted sel rec then Some (requested w params) else None.
Proof.
  intros Hw Hmac Hout Hrid params Hp Hc Hsays.
  apply admin_write_inv in Hw as (sel & failed & Hsel & Hsend & He). fold params in Hsend, He.
  destruct (parsed_selector q sel Hsel Hp) as [Hnames Hall].
  assert (Hws : wire_selector sel) by (constructor; auto).
  apply send_command_reaches in Hsend as (msg & -> & Hmsg);
    [|done|done|by apply append_selector_tidy, base_fields_tidy].
  exists sel, msg. split_and!; [done|done|]. intros gwid rec now v Hrc.
  destruct (wire_channel_other cfg w) as [Hr1 Hr2].
  rewrite (Hmsg gwid rec (channel_kind w) now v Hrc) by (done || apply wire_channel_kind || by destruct w).
  unfold reaction. rewrite base_action by done.
  pose proof (selector_read sel (base_fields rid auth w params) Hws ltac:(intros; by apply base_fields_selector)) as Hread.
  cbv zeta in *. unfold targeted. destruct (selector_specified sel).
  - rewrite Hread. cbn. by destruct (matches_selector rec (selector sel)).
  - by rewrite Hread.
Qed.

(** *** Concrete commands *)

Definition sample_config : AdminConfig :=
  load_config (fun key => if bool_decide (key = "ADMIN_COMMAND_SIGNING_SECRET"%string) then Some "s3cret"%string else None).
Definition sample_worker : WorkerSnapshot := mkWorkerSnapshot false false 0 0 0 0 0 0 0 0 0 0 EmptyString EmptyString.
Definition sample_state : AdminState :=
  mkAdminState AppHost.new true true true (mkCaches [] ∅ ∅ 0 sample_worker []) (mkExt [] ∅ 0 0 ∅ ∅) (fun _ => 0) 0 [].
Definition sample_clock : Clock := mkClock 1000 1000 3.
Definition sample_outside : Outside := mkOutside 1000 "n1" true.
Definition sample_auth : AuthContext := mkAuthContext "root" "admin" None.
Definition sample_verifier : Verifier := new_Verifier (chars_of "s3cret") default_VerifyOptions.
Definition sample_server (id region : string) : InstanceRecord :=
  mkInstanceRecord id EmptyString 0 "chat" EmptyString region EmptyString [] 0 0 true 0.

(** What a handler published. *)
Definition published (s : AdminState) : list (string * string) :=
  omap (fun e => match e with Published c m _ => Some (c, m) | _ => None end) (trace s).
Definition sample_run (w : WriteOp) (q : string) : AdminState :=
  (handle_write toy_HMAC sample_config sample_clock sample_outside 7 sample_auth w q sample_state).1.
(** What a server does with it. *)
Definition sample_reaction (rec : InstanceRecord) (w : WriteOp) (q : string) : list (list fanout_counter * option Action) :=
  map (fun cm => let '(_, c, a) := on_message toy_HMAC EmptyString "gw-1" rec cm.1 cm.2 1500 sample_verifier in (c, a))
    (published (sample_run w q)).

#[export] Instance plain_params_dec params : Decision (plain_params params).
Proof.
  destruct (decide (map_Forall (fun _ v => has_none is_newline v) params)) as [Hl|Hl]; [|right; by intros [? _]].
  destruct (params !! "client_id"%string) as [v|] eqn:Hc.
  - destruct (decide (has_none (is_sep 44) v)) as [Hv|Hv].
    + left. constructor; [done|]. intros v' Hv'. by simplify_eq.
    + right. intros [_ Hn]. by apply Hv, Hn.
  - left. constructor; [done|]. intros v' Hv'. by simplify_eq.
Defined.

Lemma admin_command_reaches_servers_witness :
  let q := "key=chat_spam_threshold&value=7&regions=eu"%string in
  exists s' resp msg,
    handle_write toy_HMAC sample_config sample_clock sample_outside 7 sample_auth WSetting q sample_state = (s', inr resp)
    /\ s' = add_trace (Published (wire_channel sample_config WSetting) msg true) sample_state
    /\ (on_message toy_HMAC (redis_channel_prefix_ sample_config) "gw-1" (sample_server "a" "eu") (wire_channel sample_config WSetting) msg 1500 sample_verifier).2
       = Some (AdminApplyRuntimeSetting "chat_spam_threshold" "7")
    /\ (on_message toy_HMAC (redis_channel_prefix_ sample_config) "gw-1" (sample_server "b" "us") (wire_channel sample_config WSetting) msg 1500 sample_verifier).2
       = None.
Proof.
  intros q.
  destruct (handle_write toy_HMAC sample_config sample_clock sample_outside 7 sample_auth WSetting q sample_state)
    as [s' [r|resp]] eqn:Hw; [exfalso; apply (f_equal (fun x => match x.2 with inl _ => true | inr _ => false end)) in Hw; by vm_compute in Hw|].
  destruct (admin_command_reaches_servers toy_HMAC sample_config sample_clock sample_outside 7 sample_auth WSetting q
    sample_state s' resp Hw) as (sel & msg & Hsel & Hs & Hmsg).
  - intros k d. by eexists _, _.
  - split_and!; [done|by_decide|by vm_compute].
  - done.
  - by_decide.
  - done.
  - intros sel Hsel _. right. apply (f_equal (fun x => match x with inl s => existsb nonempty (selector_lists (selector s)) | _ => true end)) in Hsel.
    vm_compute in Hsel |- *. by rewrite <- Hsel.
  - assert (Hrc : receives sample_config sample_outside "gw-1" 1500 sample_verifier)
      by (constructor; [discriminate|reflexivity|reflexivity|cbn; lia|cbn; lia|cbn; lia|unfold fits; cbn; lia]).
    exists s', resp, msg. split_and!; [done|done| |].
    + rewrite (Hmsg "gw-1"%string (sample_server "a" "eu") 1500 sample_verifier Hrc).
      injection Hsel as <-. vm_compute. reflexivity.
    + rewrite (Hmsg "gw-1"%string (sample_server "b" "us") 1500 sample_verifier Hrc).
      injection Hsel as <-. vm_compute. reflexivity.
Defined.

(** A selector with an empty value reaches everyone.  The service takes it as a selector
    that matches no instance, but sends no field for it, and a server without fields for a
    selector does not filter. *)
Lemma empty_selector_reaches_everyone :
  let q := "text=hello&roles="%string in
  (exists sel, parse_instance_selector_query q = inl sel /\ targeted sel (sample_server "a" "eu") = false)
  /\ sample_reaction (sample_server "a" "eu") WAnnounce q
     = [([g_admin_command_verify_ok_total; g_subscribe_total], Some (AdminBroadcastNotice "hello"))].
Proof.
  intros q. split; [exists (mkSelectorParseResult no_selector true false); split|]; vm_compute; reflexivity.
Qed.

(** A moderation reason cut after a blank makes the command fail at the servers, which trim
    the value before they check the signature; the service has answered with success. *)
Lemma cut_reason_is_refused :
  let q := "client_id=bob&reason=" +:+ str (replicate 199 (ascii_of_byte 97)) +:+ "+tail" in
  (exists s' resp, handle_write toy_HMAC sample_config sample_clock sample_outside 7 sample_auth (WModerate "ban") q sample_state
                   = (s', inr resp))
  /\ sample_reaction (sample_server "a" "eu") (WModerate "ban") q
     = [([g_admin_command_verify_fail_total kSignatureMismatch], None)].
Proof.
  split; [|vm_compute; reflexivity].
  destruct (handle_write _ _ _ _ _ _ _ _ _) as [s' [r|resp]] eqn:Hw; [|by eexists _, _].
  apply (f_equal (fun x => match x.2 with inl _ => true | inr _ => false end)) in Hw. by vm_compute in Hw.
Qed.

(** One name with a comma is two users at the servers. *)
Lemma comma_in_name :
  dedupe (requested_targets (parse_query_string "client_id=ann,bob")) = ["ann,bob"%string]
  /\ sample_reaction (sample_server "a" "eu") WDisconnect "client_id=ann,bob"
     = [([g_admin_command_verify_ok_total; g_subscribe_total],
         Some (AdminDisconnectUsers ["ann"; "bob"]%string "Disconnected by administrator"))].
Proof. split; vm_compute; reflexivity. Qed.

(** The service accepts a history length the servers refuse: they also require it to be no
    smaller than the number of messages a client is shown. *)
Lemma accepted_setting_is_refused c :
  recent_limit c = 20 ->
  sample_reaction (sample_server "a" "eu") WSetting "key=room_recent_maxlen&value=5"
  = [([g_admin_command_verify_ok_total; g_subscribe_total], Some (AdminApplyRuntimeSetting "room_recent_maxlen" "5"))]
  /\ (apply_setting "room_recent_maxlen" "5" c).2 = Rejected "out_of_range".
Proof.
  intros Hc. split; [vm_compute; reflexivity|]. unfold apply_setting.
  change (parse_u32 (trim_ascii_local "5")) with (Some 5).
  change (find_runtime_setting_rule (to_lower_ascii_local (trim_ascii_local "room_recent_maxlen")))
    with (Some (mkRule kRoomRecentMaxlen "room_recent_maxlen" 5 5000)).
  cbn [key_id min_value max_value]. rewrite bool_decide_eq_true_2, Hc by done. done.
Qed.
