(* ===== verification/AdminExt.v ===== *)
(** Extensions in the administration service, fourth part of [tools/admin_app/main.cpp]:
    the inventory of plugins and scripts from their manifests, the commands that deploy
    them, the checks before a deployment, and the file the deployments are kept in.

    A manifest is its directory, its file name and what reading and parsing it gives;
    [exists] tells which files exist.  The traversal order of the deployments, an
    [unordered_map], is a parameter. *)

From stdpp Require Import sorting.
From S2P Require Import Prelude Text ChatText GatewayConfig InstanceRegistry HttpServer AppHost ChatAdmin AdminQuery AdminState.

(** ** JSON *)

(** [contains] and [operator\[\]] of an object. *)
Definition jfield (key : string) (j : json) : option json :=
  match j with
  | JObject members => snd <$> find (fun m => bool_decide (m.1 = key)) members
  | _ => None
  end.
Definition jstring (key : string) (j : json) : option string :=
  match jfield key j with Some (JString s) => Some s | _ => None end.
Definition jbool (key : string) (j : json) : option bool :=
  match jfield key j with Some (JBool b) => Some b | _ => None end.
Definition junsigned (key : string) (j : json) : option Z :=
  match jfield key j with Some (JUnsigned n) => Some n | _ => None end.
(** A present member that is not null. *)
Definition jpresent (key : string) (j : json) : option json :=
  match jfield key j with Some JNull => None | v => v end.

Definition parse_json_string_list (node : json) : list string :=
  match node with
  | JArray items =>
      List.filter (fun t => negb (bool_decide (t = EmptyString)))
        (omap (fun item => match item with JString s => Some (trim_ascii s) | _ => None end) items)
  | _ => []
  end.
Definition jlist (key : string) (j : json) : list string :=
  match jfield key j with Some node => parse_json_string_list node | None => [] end.

(** ** The inventory *)

Definition is_ext_valid_hook_scope (hook : string) : bool :=
  bool_decide (hook ∈ ["on_chat_send"; "on_login"; "on_join"; "on_leave"; "on_session_event"; "on_admin_command"]%string).
Definition is_ext_valid_stage (stage : string) : bool :=
  bool_decide (stage ∈ ["pre_validate"; "mutate"; "authorize"; "side_effect"; "observe"]%string).
Definition is_ext_valid_kind (kind : string) : bool := bool_decide (kind ∈ ["native_plugin"; "lua_script"]%string).
Definition is_ext_valid_target_profile (profile : string) : bool := bool_decide (profile ∈ ["chat"; "world"; "all"]%string).
Definition is_ext_valid_terminal_decision (decision : string) : bool :=
  bool_decide (decision ∈ ["block"; "deny"; "handled"; "modify"; "pass"; "allow"]%string).

Definition terminal_decision_priority (decision : string) : Z :=
  if bool_decide (decision ∈ ["block"; "deny"]%string) then 0
  else if bool_decide (decision = "handled"%string) then 1
  else if bool_decide (decision = "modify"%string) then 2 else 3.

Record Manifest := mkManifest { directory : string; filename : string; content : option (option json) }.

(** [ends_with], and what precedes it. *)
Fixpoint strip_suffix (suffix s : string) : option string :=
  if bool_decide (s = suffix) then Some EmptyString
  else match s with
       | String c s' => String c <$> strip_suffix suffix s'
       | EmptyString => None
       end.

Definition plugin_stem (filename : string) : option string := strip_suffix ".plugin.json" filename.
Definition script_stem (filename : string) : option string := strip_suffix ".script.json" filename.

Definition expected_kind (filename : string) : string :=
  match plugin_stem filename with
  | Some _ => "native_plugin"
  | None => match script_stem filename with Some _ => "lua_script" | None => EmptyString end
  end.

Definition make_ext_artifact_id (kind filename : string) : string :=
  match bool_decide (kind = "native_plugin"%string), plugin_stem filename with
  | true, Some stem => "plugin:" +:+ stem
  | _, _ =>
      match bool_decide (kind = "lua_script"%string), script_stem filename with
      | true, Some stem => "script:" +:+ stem
      | _, _ => "artifact:" +:+ filename
      end
  end.

Section manifests.
Context (exists_file : string -> bool).

(** The empty path when the kind does not fit the name. *)
Definition derive_ext_artifact_path (m : Manifest) (kind : string) : string :=
  match bool_decide (kind = "native_plugin"%string), plugin_stem (filename m) with
  | true, Some stem =>
      let candidates := map (fun e => directory m +:+ "/" +:+ stem +:+ e) [".so"; ".dll"; ".dylib"; ".cpp"]%string in
      default (directory m +:+ "/" +:+ stem +:+ ".so") (find exists_file candidates)
  | _, _ =>
      match bool_decide (kind = "lua_script"%string), script_stem (filename m) with
      | true, Some stem => directory m +:+ "/" +:+ stem +:+ ".lua"
      | _, _ => EmptyString
      end
  end.

Definition issue_if (b : bool) (issue : string) : list string := if b then [issue] else [].

Definition read_priority (parsed : json) : Z * list string :=
  match jfield "priority" parsed with
  | Some (JUnsigned n) => (u32 n, [])
  | Some (JInteger z) => if 0 <=? z then (u32 z, []) else (0, ["priority_must_be_non_negative"%string])
  | _ => (0, ["priority_missing"%string])
  end.

(** The loop over the decisions, with the rank of the last valid one. *)
Fixpoint decision_issues (prev_rank : Z) (decisions : list string) : list string :=
  match decisions with
  | [] => []
  | raw :: decisions =>
      let decision := to_lower_ascii (trim_ascii raw) in
      if negb (is_ext_valid_terminal_decision decision) then "terminal_decision_invalid"%string :: decision_issues prev_rank decisions
      else let rank := terminal_decision_priority decision in
           issue_if (rank <? prev_rank) "terminal_decision_precedence_invalid" ++ decision_issues rank decisions
  end.

Definition only_pass (decisions : list string) : bool :=
  forallb (fun raw => bool_decide (to_lower_ascii (trim_ascii raw) = "pass"%string)) decisions.

Definition manifest_issues (expected kind0 kind name version stage group : string) (hooks profiles decisions : list string) :
    list string :=
  issue_if (negb (is_ext_valid_kind kind0)) "kind_invalid"
  ++ issue_if (negb (bool_decide (expected = EmptyString)) && negb (bool_decide (kind = EmptyString))
               && negb (bool_decide (kind = expected))) "kind_mismatch"
  ++ issue_if (bool_decide (name = EmptyString)) "name_missing"
  ++ issue_if (bool_decide (version = EmptyString)) "version_missing"
  ++ issue_if (negb (is_ext_valid_stage stage)) "stage_invalid"
  ++ issue_if (bool_decide (group = EmptyString)) "exclusive_group_missing"
  ++ (if nonempty hooks then issue_if (negb (forallb is_ext_valid_hook_scope hooks)) "hook_scope_invalid"
      else ["hook_scope_missing"%string])
  ++ issue_if (negb (forallb is_ext_valid_target_profile profiles)) "target_profile_invalid"
  ++ decision_issues (-1) decisions
  ++ issue_if (nonempty decisions && bool_decide (stage = "observe"%string) && negb (only_pass decisions))
       "observe_stage_decision_forbidden".

Definition unreadable_item (m : Manifest) (issue : string) : ExtArtifactInventoryItem :=
  let kind := expected_kind (filename m) in
  mkExtItem (make_ext_artifact_id (if bool_decide (kind = EmptyString) then "native_plugin" else kind) (filename m)) kind
    EmptyString EmptyString [] EmptyString 0 EmptyString EmptyString [] [] EmptyString EmptyString
    (directory m +:+ "/" +:+ filename m) EmptyString [issue].

Definition parse_ext_manifest_file (m : Manifest) : ExtArtifactInventoryItem :=
  match content m with
  | None => unreadable_item m "manifest_read_failed"
  | Some (Some (JObject members)) =>
      let parsed := JObject members in
      let read_string key := match jstring key parsed with Some s => trim_ascii s | None => EmptyString end in
      let expected := expected_kind (filename m) in
      let '(priority, priority_issues) := read_priority parsed in
      let kind0 := read_string "kind"%string in
      let kind1 := if negb (is_ext_valid_kind kind0) && negb (bool_decide (expected = EmptyString)) then expected else kind0 in
      let hooks := jlist "hook_scope" parsed in
      let profiles := jlist "target_profiles" parsed in
      let decisions := jlist "allowed_decisions" parsed in
      let issues := priority_issues
        ++ manifest_issues expected kind0 kind1 (read_string "name"%string) (read_string "version"%string)
             (read_string "stage"%string) (read_string "exclusive_group"%string) hooks profiles decisions in
      let kind := if bool_decide (kind1 = EmptyString)
                  then (if bool_decide (expected = EmptyString) then "native_plugin"%string else expected) else kind1 in
      let artifact_path := derive_ext_artifact_path m kind in
      mkExtItem (make_ext_artifact_id kind (filename m)) kind (read_string "name"%string) (read_string "version"%string)
        hooks (read_string "stage"%string) priority (read_string "exclusive_group"%string) (read_string "checksum"%string)
        profiles decisions (read_string "description"%string) (read_string "owner"%string)
        (directory m +:+ "/" +:+ filename m) artifact_path
        (issues ++ issue_if (negb (bool_decide (artifact_path = EmptyString)) && negb (exists_file artifact_path)) "artifact_missing")
  | Some _ => unreadable_item m "manifest_json_invalid"
  end.

Definition with_issue (issue : string) (i : ExtArtifactInventoryItem) : ExtArtifactInventoryItem :=
  mkExtItem (artifact_id i) (kind i) (name i) (version i) (hook_scope i) (stage i) (priority i) (exclusive_group i)
    (checksum i) (target_profiles i) (allowed_decisions i) (description i) (owner i) (manifest_path i) (artifact_path i)
    (issues i ++ [issue]).

(** The index keeps the first item of an identifier; the others get an issue. *)
Fixpoint index_items (i : nat) (items : list ExtArtifactInventoryItem) (index : gmap string nat) :
    list ExtArtifactInventoryItem * gmap string nat :=
  match items with
  | [] => ([], index)
  | item :: items =>
      match index !! artifact_id item with
      | Some _ => let '(items, index) := index_items (S i) items index in (with_issue "artifact_id_collision" item :: items, index)
      | None => let '(items, index) := index_items (S i) items (<[artifact_id item := i]> index) in (item :: items, index)
      end
  end.

(** [manifests] are the files found, sorted and without repetitions. *)
Definition refresh_ext_inventory_cache (manifests : list Manifest) (now : Z) (s : AdminState) : AdminState :=
  let parsed := map parse_ext_manifest_file manifests in
  let error_count := sum_list_with (fun i => length (issues i)) parsed in
  let '(items, index) := index_items 0 parsed ∅ in
  set_ext (mkExt items index now (Z.of_nat error_count) (ext_precheck_cache_ (ext s)) (ext_deployments_ (ext s))) s.

End manifests.

Definition find_ext_inventory_item_locked (artifact_id : string) (e : Ext) : option ExtArtifactInventoryItem :=
  match ext_inventory_index_ e !! artifact_id with
  | Some i => ext_inventory_cache_ e !! i
  | None => None
  end.

Definition resolve_ext_targets (sel : InstanceSelector) (specified : bool) (c : Caches) : list InstanceRecord :=
  if specified then (select_instances (instances_cache_ c) sel).1 else instances_cache_ c.

(** ** Commands *)

Definition wave_value (wave : json) : Z + string :=
  let out_of_range := "rollout_strategy.waves must contain values 1..100"%string in
  let check value := if (value =? 0) || (100 <? value) then inr out_of_range else inl value in
  match wave with
  | JUnsigned n => check (u32 n)
  | JInteger z => if z <? 0 then inr out_of_range else check (u32 z)
  | _ => inr "rollout_strategy.waves must be numeric"%string
  end.

Fixpoint wave_values (l : list json) : list Z + string :=
  match l with
  | [] => inl []
  | wave :: l =>
      match wave_value wave with
      | inr e => inr e
      | inl v => match wave_values l with inr e => inr e | inl vs => inl (v :: vs) end
      end
  end.

(** [std::is_sorted] and the absence of an [std::adjacent_find]. *)
Fixpoint is_sorted (l : list Z) : bool :=
  match l with x :: ((y :: _) as l') => negb (y <? x) && is_sorted l' | _ => true end.
Fixpoint no_adjacent (l : list Z) : bool :=
  match l with x :: ((y :: _) as l') => negb (x =? y) && no_adjacent l' | _ => true end.

Definition check_waves (rollback : bool) (given : list Z) : ExtRolloutStrategy + string :=
  let waves := if nonempty given then given else [5; 25; 100] in
  if negb (is_sorted waves) then inr "rollout_strategy.waves must be ascending"%string
  else if negb (no_adjacent waves) then inr "rollout_strategy.waves must be strictly increasing"%string
  else if negb (bool_decide (last waves = Some 100)) then inr "rollout_strategy.waves last value must be 100"%string
  else inl (mkRollout "canary_wave" waves rollback).

Definition parse_rollout_strategy_json (root : json) : ExtRolloutStrategy + string :=
  match jpresent "rollout_strategy" root with
  | None => inl default_rollout
  | Some (JObject members) =>
      let strategy := JObject members in
      match match jfield "type" strategy with
            | None => inl "all_at_once"%string
            | Some (JString s) => inl (to_lower_ascii (trim_ascii s))
            | Some _ => inr "rollout_strategy.type must be a string"%string
            end with
      | inr e => inr e
      | inl type =>
          match match jfield "rollback_on_failure" strategy with
                | None => inl false
                | Some (JBool b) => inl b
                | Some _ => inr "rollout_strategy.rollback_on_failure must be a boolean"%string
                end with
          | inr e => inr e
          | inl rollback =>
              if bool_decide (type = "all_at_once"%string) then inl (mkRollout type [100] rollback)
              else if negb (bool_decide (type = "canary_wave"%string))
              then inr "rollout_strategy.type must be all_at_once or canary_wave"%string
              else match jfield "waves" strategy with
                   | Some (JArray l) => match wave_values l with inr e => inr e | inl vs => check_waves rollback vs end
                   | _ => check_waves rollback []
                   end
          end
      end
  | Some _ => inr "rollout_strategy must be an object"%string
  end.

(** [parse_array_field] of the selector. *)
Definition array_field (key : string) (selector_json : json) : list string + string :=
  match jfield key selector_json with
  | None => inl []
  | Some (JArray l) => inl (parse_json_string_list (JArray l))
  | Some _ => inr ("selector." +:+ key +:+ " must be array")
  end.

(** The next check, unless this one has failed. *)
Definition and_then {A B} (m : A + string) (f : A -> B + string) : B + string :=
  match m with inl a => f a | inr e => inr e end.
Declare Scope admin_scope.
Notation "'let?' x ':=' m 'in' k" := (and_then m (fun x => k)) (at level 10, x binder, k at level 200) : admin_scope.
Open Scope admin_scope.

Definition parse_selector_json (parsed : json) : (InstanceSelector * bool) + string :=
  match jpresent "selector" parsed with
  | None => inl (no_selector, false)
  | Some (JObject members) =>
      let sj := JObject members in
      let? all := (match jfield "all" sj with
             | None => inl false
             | Some (JBool b) => inl b
             | Some _ => inr "selector.all must be boolean"%string
             end) in
      let? server_ids := array_field "server_ids" sj in
      let? roles := array_field "roles" sj in
      let? game_modes := array_field "game_modes" sj in
      let? regions := array_field "regions" sj in
      let? shards := array_field "shards" sj in
      let? tags := array_field "tags" sj in
      inl (mkInstanceSelector all server_ids roles game_modes regions shards tags, true)
  | Some _ => inr "selector must be an object"%string
  end.

Definition parse_run_at (parsed : json) : option Z + string :=
  match jpresent "run_at_utc" parsed with
  | None => inl None
  | Some (JUnsigned n) => inl (Some n)
  | Some (JInteger z) => if z <? 0 then inr "run_at_utc must be >= 0"%string else inl (Some z)
  | Some (JString s) =>
      match parse_u64_strict s with Some n => inl (Some n) | None => inr "run_at_utc must be an unsigned integer"%string end
  | Some _ => inr "run_at_utc must be null or unsigned integer"%string
  end.

Definition parse_ext_command_request (parse : string -> option json) (request : HttpRequest) (require_run_at : bool) :
    ExtCommandSpec + string :=
  if bool_decide (body request = EmptyString) then inr "JSON body is required"%string
  else if negb (String.prefix "application/json" (content_type request)) then inr "content-type must be application/json"%string
  else match parse (body request) with
       | Some (JObject members) =>
           let parsed := JObject members in
           match jstring "command_id" parsed, jstring "artifact_id" parsed with
           | None, _ => inr "command_id is required"%string
           | Some _, None => inr "artifact_id is required"%string
           | Some command, Some artifact =>
               let command_id := trim_ascii command in
               let artifact_id := trim_ascii artifact in
               if bool_decide (command_id = EmptyString) || bool_decide (artifact_id = EmptyString)
               then inr "command_id and artifact_id must be non-empty"%string
               else
                 let? sel := parse_selector_json parsed in
                 let? run_at := parse_run_at parsed in
                 if require_run_at && negb (bool_decide (is_Some run_at)) then inr "run_at_utc is required for schedules"%string
                 else
                   let? rollout := parse_rollout_strategy_json parsed in
                   inl (mkExtCommandSpec command_id artifact_id sel.1 sel.2 run_at rollout)
           end
       | _ => inr "malformed JSON body"%string
       end.

(** ** Checks *)

Definition live (d : ExtDeploymentRecord) : bool :=
  negb (bool_decide (d_status d = "failed"%string)) && negb (bool_decide (d_status d = "cancelled"%string)).

Definition hook_overlap (hooks other : list string) : bool := existsb (fun hook => bool_decide (hook ∈ other)) hooks.

Definition conflicts (command_id artifact_id : string) (artifact : ExtArtifactInventoryItem)
    (entry : string * ExtDeploymentRecord) : bool :=
  negb (bool_decide (entry.1 = command_id)) && live entry.2
  && negb (bool_decide (d_artifact_id entry.2 = artifact_id))
  && bool_decide (d_stage entry.2 = stage artifact)
  && bool_decide (d_exclusive_group entry.2 = exclusive_group artifact)
  && hook_overlap (hook_scope artifact) (d_hook_scope entry.2).

Definition check (b : bool) (code message : string) : list ExtPrecheckIssue := if b then [] else [mkIssue code message].

Section precheck.
Context (order : gmap string ExtDeploymentRecord -> list (string * ExtDeploymentRecord)).

Definition run_ext_precheck_locked (command : ExtCommandSpec) (s : AdminState) : ExtPrecheckResult :=
  match find_ext_inventory_item_locked (cmd_artifact_id command) (ext s) with
  | None => mkPrecheck false 0 [mkIssue "artifact_not_found" "artifact_id not found in inventory"]
  | Some artifact =>
      let targets := resolve_ext_targets (cmd_selector command) (cmd_selector_specified command) (caches s) in
      let found :=
        check (negb (nonempty (issues artifact))) "artifact_manifest_invalid" "artifact manifest has validation issues"
        ++ check (is_ext_valid_stage (stage artifact)) "stage_invalid"
             "stage must be one of pre_validate|mutate|authorize|side_effect|observe"
        ++ check (nonempty (hook_scope artifact)) "hook_scope_missing" "artifact hook_scope is required"
        ++ check (negb (bool_decide (exclusive_group artifact = EmptyString))) "exclusive_group_missing"
             "artifact exclusive_group is required"
        ++ check (negb (bool_decide (stage artifact = "observe"%string)) || only_pass (allowed_decisions artifact))
             "observe_stage_decision_forbidden" "observe stage artifacts must only allow pass"
        ++ map (fun entry => mkIssue "exclusive_group_conflict"
                   ("hook_scope/stage/exclusive_group conflict with command_id=" +:+ entry.1))
             (List.filter (conflicts (command_id command) (cmd_artifact_id command) artifact)
                (order (ext_deployments_ (ext s))))
        ++ check (nonempty targets) "target_empty" "selector does not match any live server instance" in
      mkPrecheck (negb (nonempty found)) (zlen targets) found
  end.
End precheck.

(** ** The file of deployments *)

Definition jstrings (l : list string) : json := JArray (map JString l).

Definition selector_json (sel : InstanceSelector) : json :=
  JObject [("all"%string, JBool (sel_all sel)); ("game_modes"%string, jstrings (game_modes sel));
           ("regions"%string, jstrings (regions sel)); ("roles"%string, jstrings (roles sel));
           ("server_ids"%string, jstrings (server_ids sel)); ("shards"%string, jstrings (shards sel));
           ("tags"%string, jstrings (sel_tags sel))].

Definition deployment_json (d : ExtDeploymentRecord) : json :=
  JObject [
    ("actor"%string, JString (d_actor d));
    ("applied_targets"%string, JUnsigned (d_applied_targets d));
    ("artifact_id"%string, JString (d_artifact_id d));
    ("command_id"%string, JString (d_command_id d));
    ("created_at_ms"%string, JUnsigned (d_created_at_ms d));
    ("exclusive_group"%string, JString (d_exclusive_group d));
    ("hook_scope"%string, jstrings (d_hook_scope d));
    ("issues"%string, JArray (map (fun i => JObject [("code"%string, JString (code i)); ("message"%string, JString (message i))])
                                (d_issues d)));
    ("kind"%string, JString (d_kind d));
    ("priority"%string, JUnsigned (d_priority d));
    ("rollout_strategy"%string,
      JObject [("rollback_on_failure"%string, JBool (rollback_on_failure (d_rollout d)));
               ("type"%string, JString (rollout_type (d_rollout d)));
               ("waves"%string, JArray (map JUnsigned (waves (d_rollout d))))]);
    ("run_at_utc"%string, match d_run_at_utc d with Some t => JUnsigned t | None => JNull end);
    ("selector"%string, selector_json (d_selector d));
    ("selector_specified"%string, JBool (d_selector_specified d));
    ("stage"%string, JString (d_stage d));
    ("status"%string, JString (d_status d));
    ("status_reason"%string, JString (d_status_reason d));
    ("target_count"%string, JUnsigned (d_target_count d));
    ("updated_at_ms"%string, JUnsigned (d_updated_at_ms d))].

(** In the order of the sorted keys. *)
Definition command_le (a b : string * ExtDeploymentRecord) : Prop := String.leb a.1 b.1 = true.
#[export] Instance command_le_dec a b : Decision (command_le a b).
Proof. unfold command_le. apply _. Defined.

Definition store_json (now : Z) (ds : gmap string ExtDeploymentRecord) : json :=
  JObject [("deployments"%string, JArray (map (fun kv => deployment_json kv.2) (merge_sort command_le (map_to_list ds))));
           ("saved_at_ms"%string, JUnsigned now); ("version"%string, JUnsigned 1)].

Definition ext_status_text (status : string) : string :=
  if bool_decide (status ∈ ["pending"; "precheck_passed"; "executing"; "completed"; "failed"; "cancelled"]%string)
  then status else "failed".

Definition trimmed (key : string) (j : json) : string :=
  match jstring key j with Some s => trim_ascii s | None => EmptyString end.

Definition load_selector (item : json) : InstanceSelector :=
  match jfield "selector" item with
  | Some (JObject members) =>
      let sj := JObject members in
      mkInstanceSelector (default false (jbool "all" sj)) (jlist "server_ids" sj) (jlist "roles" sj) (jlist "game_modes" sj)
        (jlist "regions" sj) (jlist "shards" sj) (jlist "tags" sj)
  | _ => no_selector
  end.

Definition load_run_at (item : json) : option Z :=
  match jfield "run_at_utc" item with
  | Some (JUnsigned n) => Some n
  | Some (JInteger z) => if 0 <=? z then Some z else None
  | _ => None
  end.

Definition load_wave (wave : json) : option Z :=
  match wave with
  | JUnsigned n => Some (u32 n)
  | JInteger z => if 0 <=? z then Some (u32 z) else None
  | _ => None
  end.

Definition load_rollout (item : json) : ExtRolloutStrategy :=
  let '(mkRollout type waves rollback) :=
    match jfield "rollout_strategy" item with
    | Some (JObject members) =>
        let rj := JObject members in
        mkRollout (match jstring "type" rj with Some s => to_lower_ascii (trim_ascii s) | None => "all_at_once" end)
          (match jfield "waves" rj with Some (JArray l) => omap load_wave l | _ => [100] end)
          (default false (jbool "rollback_on_failure" rj))
    | _ => default_rollout
    end in
  mkRollout type
    (if nonempty waves then waves else if bool_decide (type = "canary_wave"%string) then [5; 25; 100] else [100]) rollback.

Definition load_issue (j : json) : option ExtPrecheckIssue :=
  match j with
  | JObject _ =>
      let code := default EmptyString (jstring "code" j) in
      let message := default EmptyString (jstring "message" j) in
      if bool_decide (code = EmptyString) && bool_decide (message = EmptyString) then None else Some (mkIssue code message)
  | _ => None
  end.

Definition load_deployment (item : json) : option ExtDeploymentRecord :=
  match item, jstring "command_id" item with
  | JObject _, Some id =>
      let command_id := trim_ascii id in
      if bool_decide (command_id = EmptyString) then None
      else Some (mkExtDeployment command_id (trimmed "artifact_id" item) (trimmed "actor" item)
        (match jstring "status" item with Some s => ext_status_text s | None => "pending" end)
        (trimmed "status_reason" item)
        (load_selector item) (default false (jbool "selector_specified" item)) (load_run_at item) (load_rollout item)
        (trimmed "kind" item) (jlist "hook_scope" item) (trimmed "stage" item)
        (u32 (default 0 (junsigned "priority" item))) (trimmed "exclusive_group" item)
        (default 0 (junsigned "target_count" item)) (default 0 (junsigned "applied_targets" item))
        (match jfield "issues" item with Some (JArray l) => omap load_issue l | _ => [] end)
        (default 0 (junsigned "created_at_ms" item)) (default 0 (junsigned "updated_at_ms" item)))
  | _, _ => None
  end.

Definition load_items (items : list json) : gmap string ExtDeploymentRecord :=
  fold_left (fun loaded d => <[d_command_id d := d]> loaded) (omap load_deployment items) ∅.

(** [text] is what the file holds, [None] when it cannot be opened. *)
Definition load_ext_deployments_store (parse : string -> option json) (text : option string) (s : AdminState) : AdminState :=
  match text with
  | None => s
  | Some text =>
      match parse text with
      | Some (JObject members) =>
          match jfield "deployments" (JObject members) with
          | Some (JArray items) => add_counter ext_store_read_ok_total_ 1 (set_deployments (load_items items) s)
          | _ => add_counter ext_store_read_fail_total_ 1 s
          end
      | _ => add_counter ext_store_read_fail_total_ 1 s
      end
  end.

(** *** Replacing the file *)

Abbreviation files := (gmap string string).

Definition rename (from to : string) (fs : files) : files :=
  match fs !! from with Some text => <[to := text]> (delete from fs) | None => fs end.

(** What the operating system answers: whether the temporary file can be written, and
    which renames succeed. *)
Record file_answers := mkFileAnswers { can_write : bool; can_backup : bool; can_replace : bool; can_restore : bool }.

(** The states of the directory on the way, and whether the save succeeded. *)
Definition save_file (path text : string) (a : file_answers) (fs : files) : list files * bool :=
  let tmp := path +:+ ".tmp" in
  let backup := path +:+ ".bak" in
  if negb (can_write a) then ([fs], false)
  else
    let fs1 := <[tmp := text]> fs in
    let fs2 := if bool_decide (is_Some (fs1 !! path)) then delete backup fs1 else fs1 in
    let fs3 := if bool_decide (is_Some (fs1 !! path)) && can_backup a then rename path backup fs2 else fs2 in
    if can_replace a then
      let fs4 := rename tmp path fs3 in
      ([fs; fs1; fs2; fs3; fs4; delete backup fs4], true)
    else
      let fs4 := if can_restore a then rename backup path fs3 else fs3 in
      ([fs; fs1; fs2; fs3; fs4], false).

(** [save_ext_deployments_locked]; [ok] is the outcome of [save_file]. *)
Definition save_ext_deployments_locked (ok : bool) (s : AdminState) : AdminState :=
  let s := add_trace (Saved (ext_deployments_ (ext s))) s in
  if ok then add_counter ext_store_write_ok_total_ 1 s else s.
