(* ===== verification/AdminDeploy.v ===== *)
(** Deployments in the administration service, fifth part of [tools/admin_app/main.cpp]:
    the endpoints that check and submit a deployment, and the scheduler of the poller that
    executes due deployments in waves.

    [execute_ext_deployment] releases its lock while it publishes; its two locked parts and
    the waves between them are separate definitions, so that requests can come between.
    [std::ceil] of the product of a count and a percentage over 100 is exact for the
    counts that fit in memory, and is written with integers. *)

From stdpp Require Import sorting.
From S2P Require Import Prelude Text ChatText AdminAuth GatewayConfig InstanceRegistry HttpServer AppHost ChatAdmin AdminQuery AdminState AdminCommands AdminExt.

Definition status_is (status : string) (d : ExtDeploymentRecord) : bool := bool_decide (d_status d = status).
(** A deployment the scheduler may start. *)
Definition startable (d : ExtDeploymentRecord) : bool := status_is "pending" d || status_is "precheck_passed" d.

Definition with_status (status reason : string) (now : Z) (issue : list ExtPrecheckIssue) (d : ExtDeploymentRecord) :
    ExtDeploymentRecord :=
  mkExtDeployment (d_command_id d) (d_artifact_id d) (d_actor d) status reason (d_selector d) (d_selector_specified d)
    (d_run_at_utc d) (d_rollout d) (d_kind d) (d_hook_scope d) (d_stage d) (d_priority d) (d_exclusive_group d)
    (d_target_count d) (d_applied_targets d) (d_issues d ++ issue) (d_created_at_ms d) now.
Definition with_targets (total applied : Z) (d : ExtDeploymentRecord) : ExtDeploymentRecord :=
  mkExtDeployment (d_command_id d) (d_artifact_id d) (d_actor d) (d_status d) (d_status_reason d) (d_selector d)
    (d_selector_specified d) (d_run_at_utc d) (d_rollout d) (d_kind d) (d_hook_scope d) (d_stage d) (d_priority d)
    (d_exclusive_group d) total applied (d_issues d) (d_created_at_ms d) (d_updated_at_ms d).

(** ** Endpoints *)

Definition issue_json (i : ExtPrecheckIssue) : string :=
  jobj [("code"%string, jstr (code i)); ("message"%string, jstr (message i))].
Definition rollout_json (r : ExtRolloutStrategy) : string :=
  jobj [("type"%string, jstr (rollout_type r)); ("waves"%string, jarr (map jnum (waves r)));
        ("rollback_on_failure"%string, bool_json (rollback_on_failure r))].
Definition run_at_json (t : option Z) : string := match t with Some t => jnum t | None => "null" end.

Section endpoints.
Context (order : gmap string ExtDeploymentRecord -> list (string * ExtDeploymentRecord)).
Context (parse : string -> option json) (clock : Clock) (request_id : Z) (auth : AuthContext) (save_ok : bool).

Definition record_precheck (command : ExtCommandSpec) (result : ExtPrecheckResult) (s : AdminState) : AdminState :=
  set_precheck_cache
    (<[command_id command := mkPrecheckRecord command result (now clock)]> (ext_precheck_cache_ (ext s))) s.

(** The checks both endpoints start with; [details] lists the members of a failure. *)
Definition checked_command (command : ExtCommandSpec) (with_count : bool) : M ExtPrecheckResult :=
  s ← get;
  match ext_deployments_ (ext s) !! command_id command with
  | Some _ =>
      bump ext_command_id_conflict_total_ ≫= fun _ =>
      fail clock request_id "409 Conflict" "IDEMPOTENT_REJECTED" "command_id already exists and cannot be reused" "{}"
  | None =>
      let precheck := run_ext_precheck_locked order command s in
      modify (record_precheck command precheck) ≫= fun _ =>
      if pre_ok precheck then mret precheck
      else
        bump ext_precheck_failed_total_ ≫= fun _ =>
        fail clock request_id "409 Conflict" "PRECHECK_FAILED" "precheck failed; deployment blocked"
          (jobj ([("command_id"%string, jstr (command_id command)); ("status"%string, quote +:+ "failed" +:+ quote)]
                 ++ (if with_count then [("target_count"%string, jnum (pre_target_count precheck))] else [])
                 ++ [("issues"%string, jarr (map issue_json (pre_issues precheck)))]))
  end.

Definition parsed_command (request : HttpRequest) (require_run_at : bool) : M ExtCommandSpec :=
  match parse_ext_command_request parse request require_run_at with
  | inl command => mret command
  | inr e => bad_request clock request_id e "{}"
  end.

Definition handle_ext_precheck (request : HttpRequest) : M RouteResponse :=
  command ← parsed_command request false;
  precheck ← checked_command command true;
  mret (json_ok clock request_id
    (jobj [("command_id"%string, jstr (command_id command)); ("status"%string, quote +:+ "precheck_passed" +:+ quote);
           ("target_count"%string, jnum (pre_target_count precheck)); ("issues"%string, "[]"%string);
           ("actor"%string, jstr (actor auth))])).

Definition new_deployment (command : ExtCommandSpec) (artifact : ExtArtifactInventoryItem) (target_count : Z) :
    ExtDeploymentRecord :=
  mkExtDeployment (command_id command) (cmd_artifact_id command) (sanitize_single_line (actor auth)) "pending" EmptyString
    (cmd_selector command) (cmd_selector_specified command) (cmd_run_at_utc command) (cmd_rollout command)
    (kind artifact) (hook_scope artifact) (stage artifact) (priority artifact) (exclusive_group artifact)
    target_count 0 [] (now clock) (now clock).

Definition with_run_at (t : Z) (c : ExtCommandSpec) : ExtCommandSpec :=
  mkExtCommandSpec (command_id c) (cmd_artifact_id c) (cmd_selector c) (cmd_selector_specified c) (Some t) (cmd_rollout c).

Definition handle_ext_deployment_submit (request : HttpRequest) (require_schedule_time : bool) : M RouteResponse :=
  command ← parsed_command request require_schedule_time;
  guard (require_schedule_time || negb (bool_decide (is_Some (cmd_run_at_utc command))))
    (bad_request clock request_id "run_at_utc must be null or omitted for deployments" "{}") ≫= fun _ =>
  let command := if require_schedule_time then command else with_run_at (now clock) command in
  precheck ← checked_command command false;
  s ← get;
  match find_ext_inventory_item_locked (cmd_artifact_id command) (ext s) with
  | None => fail clock request_id "409 Conflict" "PRECHECK_FAILED" "artifact_id not found in inventory" "{}"
  | Some artifact =>
      let deployment := new_deployment command artifact (pre_target_count precheck) in
      modify (fun s => save_ext_deployments_locked save_ok
                         (set_deployments (<[d_command_id deployment := deployment]> (ext_deployments_ (ext s))) s)) ≫= fun _ =>
      mret (mkRouteResponse "202 Accepted" json_type
        (rr_body (json_ok clock request_id
          (jobj [("command_id"%string, jstr (command_id command)); ("status"%string, quote +:+ "pending" +:+ quote);
                 ("target_count"%string, jnum (pre_target_count precheck));
                 ("rollout_strategy"%string, rollout_json (cmd_rollout command));
                 ("run_at_utc"%string, run_at_json (cmd_run_at_utc command))]))))
  end.

End endpoints.

(** ** The scheduler *)

Section scheduler.
Context (HMAC : chars -> chars -> option (list Z)) (cfg : AdminConfig).

Definition set_deployment (id : string) (d : ExtDeploymentRecord) (s : AdminState) : AdminState :=
  set_deployments (<[id := d]> (ext_deployments_ (ext s))) s.

Definition wave_fields (d : ExtDeploymentRecord) (target_ids : list string) (wave_index : nat) (wave_percent : Z)
    (rollback : bool) : params_t :=
  let fields : params_t := list_to_map [
    ("op"%string, if rollback then "ext_rollback"%string else "ext_deploy"%string);
    ("actor"%string, sanitize_single_line (d_actor d));
    ("request_id"%string, "admin-ext-" +:+ d_command_id d +:+ "-wave-" +:+ to_string (Z.of_nat wave_index + 1));
    ("command_id"%string, d_command_id d);
    ("artifact_id"%string, d_artifact_id d);
    ("kind"%string, d_kind d);
    ("stage"%string, d_stage d);
    ("priority"%string, to_string (d_priority d));
    ("exclusive_group"%string, d_exclusive_group d);
    ("hook_scope"%string, join_csv (d_hook_scope d));
    ("rollout_type"%string, rollout_type (d_rollout d));
    ("wave_index"%string, to_string (Z.of_nat wave_index + 1));
    ("wave_percent"%string, to_string wave_percent);
    ("server_ids"%string, join_csv target_ids);
    ("all"%string, "0"%string)] in
  match d_run_at_utc d with Some t => <["run_at_utc"%string := to_string t]> fields | None => fields end.

Definition publish_ext_wave_command (out : Outside) (d : ExtDeploymentRecord) (target_ids : list string)
    (wave_index : nat) (wave_percent : Z) (rollback : bool) (s : AdminState) : AdminState * bool :=
  if negb (redis_ s && redis_available_ s) then (s, false)
  else
    let channel := redis_channel_prefix_ cfg +:+ (if rollback then "fanout:admin:ext:rollback" else "fanout:admin:ext:deploy") in
    let s := set_seq (u64 (request_seq_ s + 1)) s in
    match build_signed_admin_message HMAC cfg (wave_fields d target_ids wave_index wave_percent rollback)
            (issued_at_ms out) (nonce_text out) s with
    | (s, None) => (s, false)
    | (s, Some message) => (add_trace (Published channel message (publish_ok out)) s, publish_ok out)
    end.

(** The first locked part: [None] when there is nothing to execute. *)
Definition begin_ext_deployment (id : string) (now : Z) (save_ok : bool) (s : AdminState) :
    AdminState * option ExtDeploymentRecord :=
  match ext_deployments_ (ext s) !! id with
  | None => (s, None)
  | Some d =>
      if negb (startable d) then (s, None)
      else if match d_run_at_utc d with Some t => u64 (t + ext_max_clock_skew_ms_ cfg) <? now | None => false end then
        (save_ext_deployments_locked save_ok
          (add_counter ext_clock_skew_failed_total_ 1 (add_counter ext_deployments_failed_total_ 1
            (set_deployment id
              (with_status "failed" "clock_skew" now [mkIssue "clock_skew" "run_at_utc exceeded max_clock_skew_ms"] d) s))), None)
      else
        let d := with_status "executing" (d_status_reason d) now [] d in
        (save_ext_deployments_locked save_ok (set_deployment id d s), Some d)
  end.

Definition record_le (a b : InstanceRecord) : Prop := String.leb (instance_id a) (instance_id b) = true.
#[export] Instance record_le_dec a b : Decision (record_le a b).
Proof. unfold record_le. apply _. Defined.

Definition ext_targets (d : ExtDeploymentRecord) (c : Caches) : list string :=
  map instance_id (merge_sort record_le (resolve_ext_targets (d_selector d) (d_selector_specified d) c)).

(** Where a wave ends. *)
Definition wave_end (total : Z) (wave_percent : Z) (applied : Z) : Z :=
  Z.min (Z.max applied ((total * wave_percent + 99) / 100)) total.

(** The loop over the waves, from the targets not yet reached; [outs] has what the waves
    need from outside. *)
Fixpoint run_waves (outs : nat -> Outside) (d : ExtDeploymentRecord) (targets : list string) (wave_index : nat)
    (percents : list Z) (applied_ids : list string) (s : AdminState) :
    AdminState * list string * option ExtPrecheckIssue :=
  match percents with
  | [] => (s, applied_ids, None)
  | wave_percent :: percents =>
      let applied := zlen applied_ids in
      let bounded_end := wave_end (zlen targets) wave_percent applied in
      if bounded_end <=? applied then run_waves outs d targets (S wave_index) percents applied_ids s
      else if (0 <? ext_force_fail_wave_index_ cfg) && (Z.of_nat wave_index + 1 =? ext_force_fail_wave_index_ cfg) then
        (add_counter ext_wave_failed_total_ 1 s, applied_ids,
         Some (mkIssue "wave_forced_failure" ("forced failure at wave " +:+ to_string (Z.of_nat wave_index + 1)
                                              +:+ " by ADMIN_EXT_FORCE_FAIL_WAVE_INDEX")))
      else
        let wave_targets := take (Z.to_nat (bounded_end - applied)) (drop (length applied_ids) targets) in
        match publish_ext_wave_command (outs wave_index) d wave_targets wave_index wave_percent false s with
        | (s, false) =>
            (add_counter ext_wave_failed_total_ 1 s, applied_ids,
             Some (mkIssue "wave_publish_failed" ("failed to publish deployment wave " +:+ to_string (Z.of_nat wave_index + 1))))
        | (s, true) =>
            run_waves outs d targets (S wave_index) percents (applied_ids ++ wave_targets)
              (add_counter ext_deployment_wave_total_ 1 s)
        end
  end.

(** The last locked part. *)
Definition end_ext_deployment (id : string) (now : Z) (save_ok : bool) (rollback_out : Outside) (total : Z)
    (applied_ids : list string) (failure : option ExtPrecheckIssue) (s : AdminState) : AdminState :=
  match ext_deployments_ (ext s) !! id with
  | None => s
  | Some d =>
      let d := with_targets total (zlen applied_ids) d in
      match failure with
      | Some issue =>
          let d := with_status "failed" (code issue) now [issue] d in
          let s := add_counter ext_deployments_failed_total_ 1 (set_deployment id d s) in
          let s :=
            if rollback_on_failure (d_rollout d) && nonempty applied_ids then
              let '(s, ok) := publish_ext_wave_command rollback_out d applied_ids 0 100 true s in
              if ok : bool then add_counter ext_rollbacks_total_ 1 s else s
            else s in
          save_ext_deployments_locked save_ok s
      | None =>
          save_ext_deployments_locked save_ok
            (add_counter ext_deployments_completed_total_ 1 (set_deployment id (with_status "completed" EmptyString now [] d) s))
      end
  end.

(** No target at all. *)
Definition end_without_targets (id : string) (now : Z) (save_ok : bool) (s : AdminState) : AdminState :=
  match ext_deployments_ (ext s) !! id with
  | None => s
  | Some d =>
      save_ext_deployments_locked save_ok
        (add_counter ext_deployments_failed_total_ 1
          (set_deployment id
            (with_status "failed" "target_empty" now
               [mkIssue "target_empty" "selector does not match any live server instance"] d) s))
  end.

(** What one execution needs from outside: the clock at its end, the file, the waves and
    the rollback. *)
Record Execution := mkExecution {
  end_now : Z;
  begin_save : bool;
  end_save : bool;
  wave_out : nat -> Outside;
  roll_out : Outside;
}.

(** What comes after the first locked part. *)
Definition finish_ext_deployment (id : string) (d : ExtDeploymentRecord) (x : Execution) (s : AdminState) : AdminState :=
  let targets := ext_targets d (caches s) in
  if negb (nonempty targets) then end_without_targets id (end_now x) (end_save x) s
  else
    let '(s, applied_ids, failure) := run_waves (wave_out x) d targets 0 (waves (d_rollout d)) [] s in
    end_ext_deployment id (end_now x) (end_save x) (roll_out x) (zlen targets) applied_ids failure s.

Definition execute_ext_deployment (id : string) (now : Z) (x : Execution) (s : AdminState) : AdminState :=
  match begin_ext_deployment id now (begin_save x) s with
  | (s, None) => s
  | (s, Some d) => finish_ext_deployment id d x s
  end.

Definition due (now : Z) (d : ExtDeploymentRecord) : bool :=
  startable d && match d_run_at_utc d with Some t => t <=? now | None => true end.

Definition due_commands (order : gmap string ExtDeploymentRecord -> list (string * ExtDeploymentRecord)) (now : Z)
    (s : AdminState) : list string :=
  map fst (List.filter (fun kv => due now kv.2) (order (ext_deployments_ (ext s)))).

Definition process_ext_deployment_queue (order : gmap string ExtDeploymentRecord -> list (string * ExtDeploymentRecord))
    (now : Z) (xs : string -> Execution) (s : AdminState) : AdminState :=
  let s := add_counter ext_scheduler_runs_total_ 1 s in
  let ids := due_commands order now s in
  let s := add_counter ext_scheduler_due_total_ (zlen ids) s in
  fold_left (fun s id => execute_ext_deployment id now (xs id) s) ids s.

End scheduler.
