(* ===== verification/AdminViews.v ===== *)
(** The administration service, sixth part of [tools/admin_app/main.cpp]: the endpoints
    that only read, with their answers as the code writes them, and the metrics page.

    What Redis answers while a request is handled is a record of functions. The [get] of
    [storage/redis/client.cpp] answers with no value when it fails; [rv_get] is [None] for
    a client that throws, which only the lookup of one session handles. The flag
    [worker_available_] changes together with [available] of the snapshot, and is read
    from it. *)

From stdpp Require Import sorting.
From S2P Require Import Prelude Text ChatText GatewayConfig InstanceRegistry HttpServer AppHost ChatAdmin AdminQuery AdminState AdminExt AdminDeploy.

(** What Redis answers: [GET], [MGET] (failed or with the values), [SCAN] and [SMEMBERS]. *)
Record RedisView := mkRedisView {
  rv_get : string -> option (option string);
  rv_mget : list string -> option (list (option string));
  rv_scan_keys : string -> option (list string);
  rv_smembers : string -> option (list string);
}.

Definition string_le (a b : string) : Prop := String.leb a b = true.
#[export] Instance string_le_dec a b : Decision (string_le a b).
Proof. unfold string_le. apply _. Defined.

(** ** Pages *)

Definition jnull_or (s : string) : string := if bool_decide (s = EmptyString) then "null" else jstr s.

Section views.
Context (cfg : AdminConfig) (clock : Clock) (request_id : Z).

(** The cursor, checked against the number of items. *)
Definition cursor_of (options : QueryOptions) (size : Z) : M Z :=
  if bool_decide (cursor options = EmptyString) then mret 0
  else match parse_u32_strict (cursor options) with
       | None => bad_request clock request_id "cursor must be a non-negative integer" (json_details "cursor" (cursor options))
       | Some c =>
           if size <? c then bad_request clock request_id "cursor is out of range" (json_details "cursor" (cursor options))
           else mret c
       end.

(** The items from the cursor on, at most [limit], and where they end. *)
Definition page_of {A} (options : QueryOptions) (c : Z) (items : list A) : list A * Z :=
  let n := Z.min (zlen items - c) (limit options) in
  (take (Z.to_nat n) (drop (Z.to_nat c) items), c + n).

Definition next_cursor (e total : Z) : option Z := if e <? total then Some e else None.

Definition paging_json (options : QueryOptions) (e total : Z) : string :=
  jobj [("limit"%string, jnum (limit options)); ("cursor"%string, jnull_or (cursor options));
        ("next_cursor"%string, match next_cursor e total with Some e => quote +:+ jnum e +:+ quote | None => "null" end);
        ("total"%string, jnum total)].

(** ** Service *)

Definition allowed (role required : string) : string := bool_json (negb (admin_read_only_ cfg) && has_min_role role required).

Definition handle_auth_context (auth : AuthContext) : M RouteResponse :=
  mret (json_ok clock request_id
    (jobj [("actor"%string, jstr (actor auth)); ("role"%string, jstr (role auth));
           ("mode"%string, jstr (auth_mode_to_string (auth_mode_ cfg)));
           ("headers"%string, jobj [("user"%string, jstr (auth_user_header_name_ cfg));
                                    ("role"%string, jstr (auth_role_header_name_ cfg))]);
           ("read_only"%string, bool_json (admin_read_only_ cfg));
           ("capabilities"%string,
             jobj [("disconnect"%string, allowed (role auth) "admin"); ("announce"%string, allowed (role auth) "operator");
                   ("settings"%string, allowed (role auth) "admin"); ("moderation"%string, allowed (role auth) "admin");
                   ("ext_deploy"%string, allowed (role auth) "admin")])])).

Definition trend_json (p : AuditTrendPoint) : string :=
  jobj [("timestamp_ms"%string, jnum (timestamp_ms p)); ("http_errors_total"%string, jnum (pt_errors p));
        ("http_unauthorized_total"%string, jnum (pt_unauthorized p)); ("http_forbidden_total"%string, jnum (pt_forbidden p));
        ("http_server_errors_total"%string, jnum (pt_server_errors p))].

Definition service_json (configured available : bool) : string :=
  jobj [("configured"%string, bool_json configured); ("available"%string, bool_json available)].

Definition handle_overview : M RouteResponse :=
  s ← get;
  let items := instances_cache_ (caches s) in
  let total := zlen items in
  let ready := zlen (List.filter ready items) in
  let worker := worker_cache_ (caches s) in
  let count c := jnum (counters s c) in
  mret (json_ok clock request_id
    (jobj [("service"%string, quote +:+ "admin_app" +:+ quote); ("mode"%string, quote +:+ "control_plane" +:+ quote);
           ("healthy"%string, bool_json (AppHost.healthy_ (host s))); ("ready"%string, bool_json (AppHost.ready (host s)));
           ("stop_requested"%string, bool_json (AppHost.stop_requested (host s)));
           ("read_only"%string, bool_json (admin_read_only_ cfg));
           ("services"%string,
             jobj [("redis"%string, service_json (negb (bool_decide (redis_uri_ cfg = EmptyString))) (redis_available_ s));
                   ("wb_metrics"%string, service_json (configured worker) (worker_available worker));
                   ("gateway"%string, service_json true (redis_available_ s));
                   ("server"%string, jobj [("configured"%string, "true"%string); ("available"%string, bool_json (0 <? total));
                                           ("ready_count"%string, jnum ready); ("total_count"%string, jnum total)]);
                   ("wb_worker"%string, service_json (configured worker) (worker_available worker));
                   ("haproxy"%string, service_json false false)]);
           ("counts"%string,
             jobj [("instances_total"%string, jnum total); ("instances_ready"%string, jnum ready);
                   ("instances_not_ready"%string, jnum (if ready <=? total then total - ready else 0));
                   ("http_errors_total"%string, count http_errors_total_);
                   ("http_unauthorized_total"%string, count http_unauthorized_total_);
                   ("http_forbidden_total"%string, count http_forbidden_total_);
                   ("http_server_errors_total"%string, count http_server_errors_total_)]);
           ("audit_trend"%string,
             jobj [("step_ms"%string, jnum (poll_interval_ms_ cfg)); ("max_points"%string, jnum (audit_trend_max_points_ cfg));
                   ("points"%string, jarr (map trend_json (audit_trend_points_ (caches s))))]);
           ("updated_at"%string, jobj [("instances_ms"%string, jnum (instances_updated_at_ms_ (caches s)));
                                       ("worker_ms"%string, jnum (updated_at_ms worker))]);
           ("links"%string,
             jobj [("instances"%string, quote +:+ "/api/v1/instances" +:+ quote); ("users"%string, quote +:+ "/api/v1/users" +:+ quote);
                   ("worker"%string, quote +:+ "/api/v1/worker/write-behind" +:+ quote);
                   ("ext_inventory"%string, quote +:+ "/api/v1/ext/inventory" +:+ quote);
                   ("ext_deployments"%string, quote +:+ "/api/v1/ext/deployments" +:+ quote)])])).

(** A cache older than the limit a request sets. *)
Definition stale (options : QueryOptions) (updated_ms : Z) : bool :=
  timeout_overridden options
  && let age := if (0 <? updated_ms) && (updated_ms <=? now clock) then now clock - updated_ms else now clock in
     (updated_ms =? 0) || (timeout_ms options <? age).

Definition timeout {A} (options : QueryOptions) (message : string) : M A :=
  fail clock request_id "504 Gateway Timeout" "TIMEOUT" message (json_details "timeout_ms" (to_string (timeout_ms options))).

(** ** Instances *)

Definition instance_members (it : InstanceRecord) : list (string * string) :=
  [("instance_id"%string, jstr (instance_id it)); ("host"%string, jstr (InstanceRegistry.host it));
   ("port"%string, jnum (port it)); ("role"%string, jstr (InstanceRegistry.role it)); ("game_mode"%string, jstr (game_mode it));
   ("region"%string, jstr (region it)); ("shard"%string, jstr (shard it)); ("tags"%string, jarr (map jstr (tags it)));
   ("ready"%string, bool_json (InstanceRegistry.ready it))].
Definition instance_source (id : string) : string * string :=
  ("source"%string, jobj [("registry_key"%string, jstr (registry_prefix_ cfg +:+ id))]).

Definition handle_instances (options : QueryOptions) (selector_query : string) : M RouteResponse :=
  s ← get;
  guard (registry_backend_ s && redis_available_ s) (unavailable clock request_id "redis registry unavailable") ≫= fun _ =>
  let updated_ms := instances_updated_at_ms_ (caches s) in
  sel ← (match parse_instance_selector_query selector_query with
         | inl sel => mret sel
         | inr e => bad_request clock request_id (bad_message e) (bad_param_details e)
         end : M SelectorParseResult);
  let '(items, stats) := if selector_specified sel then select_instances (instances_cache_ (caches s)) (selector sel)
                         else (instances_cache_ (caches s), mkSelectorMatchStats 0 0 0) in
  modify (fun s => if selector_specified sel
                   then add_counter instances_selector_mismatch_total_ (selector_mismatch stats)
                          (add_counter instances_selector_requests_total_ 1 s) else s) ≫= fun _ =>
  guard (negb (stale options updated_ms)) (timeout options "instances cache is older than timeout_ms") ≫= fun _ =>
  c ← cursor_of options (zlen items);
  let '(page, e) := page_of options c items in
  mret (json_ok clock request_id
    (jobj [("items"%string, jarr (map (fun it => jobj (instance_members it ++
             [("active_sessions"%string, jnum (active_sessions it)); ("last_heartbeat_ms"%string, jnum (last_heartbeat_ms it));
              instance_source (instance_id it)])) page));
           ("paging"%string, paging_json options e (zlen items));
           ("selector"%string,
             jobj [("applied"%string, bool_json (selector_specified sel));
                   ("layer"%string, quote +:+ selector_policy_layer_name (classify_selector_policy_layer (selector sel)) +:+ quote);
                   ("scanned"%string, jnum (scanned stats)); ("matched"%string, jnum (matched stats));
                   ("mismatch"%string, jnum (selector_mismatch stats))]);
           ("updated_at_ms"%string, jnum updated_ms)])).

Definition make_instance_metrics_url (item : InstanceRecord) : string :=
  "http://" +:+ InstanceRegistry.host item +:+ ":" +:+ to_string (instance_metrics_port_ cfg) +:+ "/metrics".

Definition handle_instance_detail (id : string) : M RouteResponse :=
  guard (negb (bool_decide (id = EmptyString)) && negb (contains "/" id))
    (bad_request clock request_id "invalid instance id" "{}") ≫= fun _ =>
  s ← get;
  guard (registry_backend_ s && redis_available_ s) (unavailable clock request_id "redis registry unavailable") ≫= fun _ =>
  match instances_index_ (caches s) !! id with
  | None => fail clock request_id "404 Not Found" "NOT_FOUND" "instance not found" "{}"
  | Some item =>
      let detail := instance_details_index_ (caches s) !! id in
      let url := match detail with Some d => metrics_url d | None => make_instance_metrics_url item end in
      let reason := match detail with
                    | Some d => ready_reason d
                    | None => if InstanceRegistry.ready item then "ready (registry)" else "not ready (registry)"
                    end in
      mret (json_ok clock request_id
        (jobj (instance_members item ++
               [("ready_reason"%string, jstr reason); ("active_sessions"%string, jnum (active_sessions item));
                ("last_heartbeat_ms"%string, jnum (last_heartbeat_ms item)); ("metrics_url"%string, jstr url);
                instance_source (instance_id item)])))
  end.

(** ** Extensions *)

(** A filter that is absent lets everything pass. *)
Definition filter_of (params : params_t) (key : string) : string :=
  match params !! key with Some v => to_lower_ascii (trim_ascii v) | None => EmptyString end.
Definition passes (filter : string) (values : list string) : bool :=
  bool_decide (filter = EmptyString) || existsb (fun v => bool_decide (to_lower_ascii v = filter)) values.

Definition artifact_le (a b : ExtArtifactInventoryItem) : Prop := String.leb (artifact_id a) (artifact_id b) = true.
#[export] Instance artifact_le_dec a b : Decision (artifact_le a b).
Proof. unfold artifact_le. apply _. Defined.

Definition inventory_item_json (i : ExtArtifactInventoryItem) : string :=
  jobj [("artifact_id"%string, jstr (artifact_id i)); ("kind"%string, jstr (kind i)); ("name"%string, jstr (name i));
        ("version"%string, jstr (version i)); ("hook_scope"%string, jarr (map jstr (hook_scope i)));
        ("stage"%string, jstr (stage i)); ("priority"%string, jnum (priority i));
        ("exclusive_group"%string, jstr (exclusive_group i)); ("checksum"%string, jstr (checksum i));
        ("target_profiles"%string, jarr (map jstr (target_profiles i))); ("description"%string, jstr (description i));
        ("owner"%string, jstr (owner i)); ("issues"%string, jarr (map jstr (issues i)))].

Definition inventory_filter (params : params_t) (i : ExtArtifactInventoryItem) : bool :=
  passes (filter_of params "kind") [kind i] && passes (filter_of params "stage") [stage i]
  && passes (filter_of params "hook_scope") (hook_scope i) && passes (filter_of params "target_profile") (target_profiles i).

Definition handle_ext_inventory (query_string : string) : M RouteResponse :=
  s ← get;
  let params := parse_query_string query_string in
  let filtered := merge_sort artifact_le (List.filter (inventory_filter params) (ext_inventory_cache_ (ext s))) in
  mret (json_ok clock request_id
    (jobj [("items"%string, jarr (map inventory_item_json filtered)); ("count"%string, jnum (zlen filtered));
           ("inventory_errors"%string, jnum (ext_inventory_error_count_ (ext s)));
           ("updated_at_ms"%string, jnum (ext_inventory_updated_at_ms_ (ext s)))])).

(** The newest first. *)
Definition deployment_le (a b : ExtDeploymentRecord) : Prop :=
  if d_created_at_ms a =? d_created_at_ms b then String.leb (d_command_id a) (d_command_id b) = true
  else d_created_at_ms b < d_created_at_ms a.
#[export] Instance deployment_le_dec a b : Decision (deployment_le a b).
Proof. unfold deployment_le. destruct (_ =? _); apply _. Defined.

Definition deployment_view (d : ExtDeploymentRecord) : string :=
  jobj [("command_id"%string, jstr (d_command_id d)); ("artifact_id"%string, jstr (d_artifact_id d));
        ("status"%string, jstr (d_status d)); ("status_reason"%string, jstr (d_status_reason d));
        ("target_count"%string, jnum (d_target_count d)); ("applied_targets"%string, jnum (d_applied_targets d));
        ("run_at_utc"%string, run_at_json (d_run_at_utc d)); ("rollout_strategy"%string, rollout_json (d_rollout d));
        ("issues"%string, jarr (map issue_json (d_issues d))); ("created_at_ms"%string, jnum (d_created_at_ms d));
        ("updated_at_ms"%string, jnum (d_updated_at_ms d))].

Definition deployment_filter (params : params_t) (d : ExtDeploymentRecord) : bool :=
  let id := match params !! "command_id"%string with Some v => trim_ascii v | None => EmptyString end in
  (bool_decide (id = EmptyString) || bool_decide (d_command_id d = id)) && passes (filter_of params "status") [d_status d].

Definition handle_ext_deployments (order : gmap string ExtDeploymentRecord -> list (string * ExtDeploymentRecord))
    (options : QueryOptions) (query_string : string) : M RouteResponse :=
  s ← get;
  let params := parse_query_string query_string in
  let sorted := merge_sort deployment_le (map snd (order (ext_deployments_ (ext s)))) in
  let filtered := List.filter (deployment_filter params) sorted in
  c ← cursor_of options (zlen filtered);
  let '(page, e) := page_of options c filtered in
  mret (json_ok clock request_id
    (jobj [("items"%string, jarr (map deployment_view page)); ("paging"%string, paging_json options e (zlen filtered))])).

(** ** Users *)

Definition backend_members (b : InstanceRecord) (with_role : bool) : string :=
  jobj ([("instance_id"%string, jstr (instance_id b)); ("host"%string, jstr (InstanceRegistry.host b)); ("port"%string, jnum (port b))]
        ++ (if with_role then [("role"%string, jstr (InstanceRegistry.role b))] else [])
        ++ [("ready"%string, bool_json (InstanceRegistry.ready b)); ("active_sessions"%string, jnum (active_sessions b))]).

Definition handle_session_lookup (rv : RedisView) (client_id : string) : M RouteResponse :=
  guard (negb (bool_decide (client_id = EmptyString)) && negb (contains "/" client_id))
    (bad_request clock request_id "invalid client id" "{}") ≫= fun _ =>
  s ← get;
  guard (redis_ s && redis_available_ s) (unavailable clock request_id "redis session directory unavailable") ≫= fun _ =>
  let key := session_prefix_ cfg +:+ client_id in
  match rv_get rv key with
  | None => unavailable clock request_id "redis session lookup failed"
  | Some found =>
      let backend_id := default EmptyString found in
      let backend := if bool_decide (backend_id = EmptyString) then None else instances_index_ (caches s) !! backend_id in
      mret (json_ok clock request_id
        (jobj [("client_id"%string, jstr client_id); ("backend_instance_id"%string, jnull_or backend_id);
               ("source"%string, jobj [("session_key"%string, jstr key)]);
               ("backend"%string, match backend with Some b => backend_members b true | None => "null" end)]))
  end.

Definition room_name (room_key : string) : string :=
  if String.prefix "room:users:" room_key then str_drop 11 room_key else room_key.

(** The first room that lists a user counts. *)
Definition add_member (room : string) (users : gmap string string) (raw_member : string) : gmap string string :=
  let member := trim_ascii raw_member in
  if bool_decide (member = EmptyString) then users
  else match users !! member with Some _ => users | None => <[member := room]> users end.

Fixpoint collect_users (rv : RedisView) (room_keys : list string) (users : gmap string string) : option (gmap string string) :=
  match room_keys with
  | [] => Some users
  | key :: room_keys =>
      match rv_smembers rv key with
      | None => None
      | Some members => collect_users rv room_keys (fold_left (add_member (room_name key)) members users)
      end
  end.

(** One lookup for all keys, or one for each when it fails or is short. *)
Definition lookup_backends (rv : RedisView) (session_keys : list string) : list (option string) :=
  if negb (nonempty session_keys) then []
  else match rv_mget rv session_keys with
       | Some values => if Nat.eqb (length values) (length session_keys) then values
                        else map (fun k => default None (rv_get rv k)) session_keys
       | None => map (fun k => default None (rv_get rv k)) session_keys
       end.

Definition user_json (instances : gmap string InstanceRecord) (users : gmap string string) (entry : string * option string) : string :=
  let '(user, found) := entry in
  let room := default EmptyString (users !! user) in
  let backend_id := default EmptyString found in
  jobj [("client_id"%string, jstr user); ("room"%string, jstr room); ("backend_instance_id"%string, jnull_or backend_id);
        ("source"%string, jobj [("session_key"%string, jstr (session_prefix_ cfg +:+ user));
                                ("room_key"%string, jstr ("room:users:" +:+ room))]);
        ("backend"%string,
          match (if bool_decide (backend_id = EmptyString) then None else instances !! backend_id) with
          | Some b => backend_members b false
          | None => "null"
          end)].

Definition handle_users (rv : RedisView) (options : QueryOptions) (query_string : string) : M RouteResponse :=
  s ← get;
  guard (redis_ s && redis_available_ s) (unavailable clock request_id "redis user directory unavailable") ≫= fun _ =>
  let params := parse_query_string query_string in
  let room_filter := match params !! "room"%string with Some v => trim_ascii v | None => EmptyString end in
  room_keys ← (if bool_decide (room_filter = EmptyString)
               then match rv_scan_keys rv "room:users:*" with
                    | None => unavailable clock request_id "redis room users scan failed"
                    | Some keys => mret (merge_sort string_le keys)
                    end
               else mret ["room:users:" +:+ room_filter] : M (list string));
  users ← (match collect_users rv room_keys ∅ with
           | None => unavailable clock request_id "redis room members lookup failed"
           | Some users => mret users
           end : M (gmap string string));
  let names := merge_sort string_le (map fst (map_to_list users)) in
  c ← cursor_of options (zlen names);
  let '(page, e) := page_of options c names in
  let backend_ids := lookup_backends rv (map (fun user => session_prefix_ cfg +:+ user) page) in
  mret (json_ok clock request_id
    (jobj [("items"%string, jarr (map (user_json (instances_index_ (caches s)) users) (zip page backend_ids)));
           ("paging"%string, paging_json options e (zlen names));
           ("filter"%string, jobj [("room"%string, jnull_or room_filter)]);
           ("updated_at_ms"%string, jnum (now clock))])).

(** ** Worker and links *)

Definition handle_worker (options : QueryOptions) : M RouteResponse :=
  s ← get;
  let w := worker_cache_ (caches s) in
  guard (negb (stale options (updated_at_ms w))) (timeout options "worker snapshot is older than timeout_ms") ≫= fun _ =>
  guard (configured w) (unavailable clock request_id "worker metrics url is not configured") ≫= fun _ =>
  guard (worker_available w)
    (unavailable clock request_id (if bool_decide (last_error w = EmptyString) then "worker metrics unavailable" else last_error w)) ≫= fun _ =>
  mret (json_ok clock request_id
    (jobj [("source_url"%string, jstr (source_url w)); ("updated_at_ms"%string, jnum (updated_at_ms w));
           ("pending"%string, jnum (w_pending w)); ("flush_total"%string, jnum (flush_total w));
           ("flush_ok_total"%string, jnum (flush_ok_total w)); ("flush_fail_total"%string, jnum (flush_fail_total w));
           ("flush_dlq_total"%string, jnum (flush_dlq_total w)); ("ack_total"%string, jnum (ack_total w));
           ("ack_fail_total"%string, jnum (ack_fail_total w)); ("reclaim_total"%string, jnum (reclaim_total w));
           ("reclaim_error_total"%string, jnum (reclaim_error_total w))])).

Definition handle_metrics_links : M RouteResponse :=
  mret (json_ok clock request_id
    (jobj [("grafana"%string, jobj [("base_url"%string, jstr (grafana_base_url_ cfg)); ("dashboards"%string, jarr [jstr "/"])]);
           ("prometheus"%string, jobj [("base_url"%string, jstr (prometheus_base_url_ cfg));
                                       ("queries"%string, jarr [jstr "chat_session_active"; jstr "wb_pending"])])])).

End views.

(** ** Metrics *)

Definition metric (name kind : string) (value : Z) : string :=
  "# TYPE " +:+ name +:+ " " +:+ kind +:+ newline +:+ name +:+ " " +:+ to_string value +:+ newline.

Definition metric_counters : list (string * counter) :=
  [("http_requests", http_requests_total_); ("http_errors", http_errors_total_); ("http_unauthorized", http_unauthorized_total_);
   ("http_forbidden", http_forbidden_total_); ("http_server_errors", http_server_errors_total_);
   ("overview_requests", overview_requests_total_); ("auth_context_requests", auth_context_requests_total_);
   ("instances_requests", instances_requests_total_); ("instances_selector_requests", instances_selector_requests_total_);
   ("instances_selector_mismatch", instances_selector_mismatch_total_); ("session_lookup_requests", session_lookup_requests_total_);
   ("users_requests", users_requests_total_); ("disconnect_requests", disconnect_requests_total_);
   ("announce_requests", announce_requests_total_); ("settings_requests", settings_requests_total_);
   ("moderation_requests", moderation_requests_total_); ("worker_requests", worker_requests_total_);
   ("poll_errors", poll_errors_total_); ("command_signing_errors", command_signing_errors_total_);
   ("ext_inventory_requests", ext_inventory_requests_total_); ("ext_precheck_requests", ext_precheck_requests_total_);
   ("ext_deployments_requests", ext_deployments_requests_total_); ("ext_schedules_requests", ext_schedules_requests_total_);
   ("ext_precheck_failed", ext_precheck_failed_total_); ("ext_command_id_conflict", ext_command_id_conflict_total_);
   ("ext_scheduler_runs", ext_scheduler_runs_total_); ("ext_scheduler_due", ext_scheduler_due_total_);
   ("ext_deployment_wave", ext_deployment_wave_total_); ("ext_wave_failed", ext_wave_failed_total_);
   ("ext_rollbacks", ext_rollbacks_total_); ("ext_clock_skew_failed", ext_clock_skew_failed_total_);
   ("ext_deployments_completed", ext_deployments_completed_total_); ("ext_deployments_failed", ext_deployments_failed_total_);
   ("ext_store_read_ok", ext_store_read_ok_total_); ("ext_store_read_fail", ext_store_read_fail_total_);
   ("ext_store_write_ok", ext_store_write_ok_total_)]%string.

Definition flag (b : bool) : Z := if b then 1 else 0.

(** [build_info] is the text of [append_build_info]. *)
Definition render_metrics (cfg : AdminConfig) (build_info : string) (s : AdminState) : string :=
  build_info
  +:+ foldr (fun m acc => metric ("admin_" +:+ m.1 +:+ "_total") "counter" (counters s m.2) +:+ acc) EmptyString metric_counters
  +:+ metric "admin_instances_cached" "gauge" (zlen (instances_cache_ (caches s)))
  +:+ metric "admin_ext_inventory_cached" "gauge" (zlen (ext_inventory_cache_ (ext s)))
  +:+ metric "admin_ext_deployments_cached" "gauge" (Z.of_nat (size (ext_deployments_ (ext s))))
  +:+ metric "admin_ext_inventory_errors_total" "gauge" (ext_inventory_error_count_ (ext s))
  +:+ metric "admin_redis_available" "gauge" (flag (redis_available_ s))
  +:+ metric "admin_worker_metrics_available" "gauge" (flag (worker_available (worker_cache_ (caches s))))
  +:+ metric "admin_read_only_mode" "gauge" (flag (admin_read_only_ cfg))
  +:+ AppHost.dependency_metrics_text (host s).
