(* ===== verification/AdminApp.v ===== *)
(** The administration service, last part of [tools/admin_app/main.cpp]: the router with its
    guards, the start of the service and a round of the poller.

    What a request meets outside the process is the record [World]; the page of the user
    interface is an argument. A fetch over HTTP is a function, and the extraction of a
    floating point number from a stream, converted to an unsigned integer, is an argument
    of [parse_prom_u64]. *)

From stdpp Require Import sorting.
From S2P Require Import Prelude Text ChatText AdminAuth GatewayConfig InstanceRegistry HttpServer AppHost ChatAdmin AdminQuery AdminState AdminCommands AdminExt AdminDeploy AdminViews.

(** ** The router *)

Definition kRoleRequiredDisconnect : string := "admin".
Definition kRoleRequiredAnnouncement : string := "operator".
Definition kRoleRequiredSettings : string := "admin".
Definition kRoleRequiredModeration : string := "admin".

(** The operation of a path of moderation. *)
Definition moderation_op (path : string) : option string :=
  if bool_decide (path = "/api/v1/users/mute"%string) then Some "mute"%string
  else if bool_decide (path = "/api/v1/users/unmute"%string) then Some "unmute"%string
  else if bool_decide (path = "/api/v1/users/ban"%string) then Some "ban"%string
  else if bool_decide (path = "/api/v1/users/unban"%string) then Some "unban"%string
  else if bool_decide (path = "/api/v1/users/kick"%string) then Some "kick"%string
  else None.

(** What a request meets: the clock, the channel of the commands, Redis and the file. *)
Record World := mkWorld { w_clock : Clock; w_out : Outside; w_redis : RedisView; w_save_ok : bool }.

Section router.
Context (HMAC : chars -> chars -> option (list Z)) (parse : string -> option json).
Context (order : gmap string ExtDeploymentRecord -> list (string * ExtDeploymentRecord)).
Context (cfg : AdminConfig) (admin_ui_html_ : string) (w : World).

Section request.
Context (request_id : Z) (auth : AuthContext) (request : HttpRequest) (method : string) (split : SplitTarget).
Definition at_path (p : string) : bool := bool_decide (AdminQuery.path split = p).
Definition by_method (m : string) : bool := bool_decide (method = m).

Definition not_allowed (message : string) : M unit :=
  fail (w_clock w) request_id "405 Method Not Allowed" "METHOD_NOT_ALLOWED" message "{}".
(** A path accepts its methods only. *)
Definition only (endpoint : bool) (methods : list string) (message : string) : M unit :=
  guard (negb (endpoint && negb (existsb by_method methods))) (not_allowed message).

Definition require_role (minimum_role : string) : M unit :=
  guard (has_min_role (role auth) minimum_role)
    (fail (w_clock w) request_id "403 Forbidden" "FORBIDDEN" "insufficient role for this action"
       (jobj [("required_role"%string, quote +:+ minimum_role +:+ quote)])).

Definition is_legacy_write_endpoint : bool :=
  at_path "/api/v1/users/disconnect" || at_path "/api/v1/announcements" || at_path "/api/v1/settings"
  || bool_decide (is_Some (moderation_op (AdminQuery.path split))).
Definition is_ext_deployments_write : bool := at_path "/api/v1/ext/deployments" && by_method "POST".
Definition is_ext_write_endpoint : bool :=
  at_path "/api/v1/ext/precheck" || is_ext_deployments_write || at_path "/api/v1/ext/schedules".
Definition is_readonly_blocked_endpoint : bool :=
  is_legacy_write_endpoint || is_ext_deployments_write || at_path "/api/v1/ext/schedules".
Definition is_write_endpoint : bool := is_legacy_write_endpoint || is_ext_write_endpoint.

Definition check_method : M unit :=
  only (negb is_write_endpoint) ["GET"%string] "this endpoint supports GET only" ≫= fun _ =>
  only (at_path "/api/v1/users/disconnect") ["POST"%string] "disconnect endpoint requires POST" ≫= fun _ =>
  only (at_path "/api/v1/announcements") ["POST"%string] "announcements endpoint requires POST" ≫= fun _ =>
  only (at_path "/api/v1/settings") ["PATCH"%string] "settings endpoint requires PATCH" ≫= fun _ =>
  only (bool_decide (is_Some (moderation_op (AdminQuery.path split)))) ["POST"%string] "moderation endpoints require POST" ≫= fun _ =>
  only (at_path "/api/v1/ext/inventory") ["GET"%string] "ext inventory endpoint requires GET" ≫= fun _ =>
  only (at_path "/api/v1/ext/precheck") ["POST"%string] "ext precheck endpoint requires POST" ≫= fun _ =>
  only (at_path "/api/v1/ext/deployments") ["GET"; "POST"]%string "ext deployments endpoint supports GET and POST" ≫= fun _ =>
  only (at_path "/api/v1/ext/schedules") ["POST"%string] "ext schedules endpoint requires POST".

Definition check_read_only : M unit :=
  guard (negb (is_readonly_blocked_endpoint && admin_read_only_ cfg))
    (fail (w_clock w) request_id "403 Forbidden" "READ_ONLY" "write endpoints are disabled by ADMIN_READ_ONLY" "{}").

Definition read_options : M QueryOptions :=
  if is_write_endpoint then mret default_QueryOptions
  else match parse_common_query_options (query split) with
       | inl options => mret options
       | inr e => bad_request (w_clock w) request_id (bad_message e) (bad_param_details e)
       end.

Definition write_params : M string :=
  if is_legacy_write_endpoint then
    match merge_write_params_from_request parse (query split) request with
    | inl merged => mret merged
    | inr e => fail (w_clock w) request_id (error_status e) (error_code e) (error_message e) "{}"
    end
  else mret EmptyString.

(** A write needs its role; the request is counted once it has it. *)
Definition write_as (minimum_role : string) (c : counter) (handler : M RouteResponse) : M RouteResponse :=
  require_role minimum_role ≫= fun _ => bump c ≫= fun _ => handler.
Definition read_as (c : counter) (handler : M RouteResponse) : M RouteResponse := bump c ≫= fun _ => handler.

Definition dispatch (options : QueryOptions) (write_query_string : string) : M RouteResponse :=
  if at_path "/api/v1/auth/context" then
    read_as auth_context_requests_total_ (handle_auth_context cfg (w_clock w) request_id auth)
  else if at_path "/api/v1/overview" then read_as overview_requests_total_ (handle_overview cfg (w_clock w) request_id)
  else if at_path "/api/v1/instances" then
    read_as instances_requests_total_ (handle_instances cfg (w_clock w) request_id options (query split))
  else if String.prefix "/api/v1/instances/" (AdminQuery.path split) then
    read_as instances_requests_total_ (handle_instance_detail cfg (w_clock w) request_id (str_drop 18 (AdminQuery.path split)))
  else if at_path "/api/v1/ext/inventory" then
    read_as ext_inventory_requests_total_ (handle_ext_inventory (w_clock w) request_id (query split))
  else if at_path "/api/v1/ext/precheck" then
    write_as kRoleRequiredSettings ext_precheck_requests_total_
      (handle_ext_precheck order parse (w_clock w) request_id auth request)
  else if at_path "/api/v1/ext/deployments" then
    read_as ext_deployments_requests_total_
      (if by_method "GET" then handle_ext_deployments (w_clock w) request_id order options (query split)
       else require_role kRoleRequiredSettings ≫= fun _ =>
            handle_ext_deployment_submit order parse (w_clock w) request_id auth (w_save_ok w) request false)
  else if at_path "/api/v1/ext/schedules" then
    write_as kRoleRequiredSettings ext_schedules_requests_total_
      (handle_ext_deployment_submit order parse (w_clock w) request_id auth (w_save_ok w) request true)
  else if at_path "/api/v1/users" then
    read_as users_requests_total_ (handle_users cfg (w_clock w) request_id (w_redis w) options (query split))
  else if String.prefix "/api/v1/sessions/" (AdminQuery.path split) then
    read_as session_lookup_requests_total_ (handle_session_lookup cfg (w_clock w) request_id (w_redis w) (str_drop 17 (AdminQuery.path split)))
  else if at_path "/api/v1/users/disconnect" then
    write_as kRoleRequiredDisconnect disconnect_requests_total_
      (handle_disconnect_users HMAC cfg (w_clock w) (w_out w) request_id auth write_query_string)
  else if at_path "/api/v1/announcements" then
    write_as kRoleRequiredAnnouncement announce_requests_total_
      (handle_announcement HMAC cfg (w_clock w) (w_out w) request_id auth write_query_string)
  else if at_path "/api/v1/settings" then
    write_as kRoleRequiredSettings settings_requests_total_
      (handle_runtime_setting HMAC cfg (w_clock w) (w_out w) request_id auth write_query_string)
  else match moderation_op (AdminQuery.path split) with
  | Some op =>
      write_as kRoleRequiredModeration moderation_requests_total_
        (handle_user_moderation HMAC cfg (w_clock w) (w_out w) request_id auth op write_query_string)
  | None =>
      if at_path "/api/v1/worker/write-behind" then read_as worker_requests_total_ (handle_worker (w_clock w) request_id options)
      else if at_path "/api/v1/metrics/links" then handle_metrics_links cfg (w_clock w) request_id
      else fail (w_clock w) request_id "404 Not Found" "NOT_FOUND" "endpoint not found" "{}"
  end.

Definition handle_api : M RouteResponse :=
  bump http_requests_total_ ≫= fun _ =>
  check_method ≫= fun _ =>
  check_read_only ≫= fun _ =>
  options ← read_options;
  merged ← write_params;
  dispatch options merged.

Definition handle_ui : M RouteResponse :=
  if by_method "GET" then mret (mkRouteResponse "200 OK" "text/html; charset=utf-8" admin_ui_html_)
  else bump http_errors_total_ ≫= fun _ =>
       answer (mkRouteResponse "405 Method Not Allowed" "text/plain; charset=utf-8" ("Method Not Allowed" +:+ newline)).

Definition handle_authenticated : M RouteResponse :=
  match auth_error auth with
  | Some e => fail (w_clock w) request_id (error_status e) (error_code e) (error_message e) "{}"
  | None => if at_path "/admin" || at_path "/admin/" then handle_ui else handle_api
  end.

End request.

Definition respond (result : RouteResponse + RouteResponse) : RouteResponse :=
  match result with inl r | inr r => r end.

Definition handle_route (request : HttpRequest) (s : AdminState) : AdminState * option RouteResponse :=
  let split := split_target (target request) in
  let path := AdminQuery.path split in
  let is_admin_ui := bool_decide (path = "/admin"%string) || bool_decide (path = "/admin/"%string) in
  if negb is_admin_ui && negb (String.prefix "/api/" path) then (s, None)
  else
    let request_id := u64 (request_seq_ s + 1) in
    let s := set_seq request_id s in
    let method := if bool_decide (HttpServer.method request = EmptyString) then "GET"%string else HttpServer.method request in
    let auth := authenticate_request cfg request in
    let '(s, result) := handle_authenticated request_id auth request method split s in
    let '(s, response) := finalize request (w_clock w) request_id auth method path (respond result) s in
    (s, Some response).

End router.

(** ** The start and the poller *)

Definition set_host (h : AppHost.t) (s : AdminState) : AdminState :=
  mkAdminState h (redis_ s) (registry_backend_ s) (redis_available_ s) (caches s) (ext s) (counters s) (request_seq_ s) (trace s).
Definition set_redis_available (ok : bool) (s : AdminState) : AdminState :=
  mkAdminState (AppHost.set_dependency_ok "redis" ok (host s)) (redis_ s) (registry_backend_ s) ok (caches s) (ext s)
    (counters s) (request_seq_ s) (trace s).

Definition init_dependencies (s : AdminState) : AdminState :=
  let h := AppHost.declare_dependency "admin_api" AppHost.kRequired (host s) in
  let h := AppHost.declare_dependency "redis" AppHost.kOptional h in
  let h := AppHost.declare_dependency "wb_metrics" AppHost.kOptional h in
  let h := AppHost.set_dependency_ok "admin_api" true h in
  let h := AppHost.set_dependency_ok "redis" false h in
  let h := AppHost.set_dependency_ok "wb_metrics" false h in
  set_host (AppHost.set_ready true (AppHost.set_healthy true h)) s.

(** [client] is the client made, if any, with the answer of its health check. *)
Definition init_backends (cfg : AdminConfig) (client : option bool) (s : AdminState) : AdminState :=
  if bool_decide (redis_uri_ cfg = EmptyString) then s
  else
    let healthy := default false client in
    set_redis_available healthy
      (mkAdminState (host s) (bool_decide (is_Some client)) (registry_backend_ s || healthy) (redis_available_ s) (caches s)
         (ext s) (counters s) (request_seq_ s) (trace s)).

Section poller.
Context (cfg : AdminConfig) (http_get_response : HttpUrl -> option (Z * string)) (extract : string -> option Z).

Definition make_instance_ready_url (item : InstanceRecord) : string :=
  "http://" +:+ InstanceRegistry.host item +:+ ":" +:+ to_string (instance_metrics_port_ cfg) +:+ "/readyz".

Definition probe_instance_ready_reason (item : InstanceRecord) : string :=
  let fallback := if InstanceRegistry.ready item then "ready (registry)"%string else "not ready (registry)"%string in
  match parse_http_url (make_instance_ready_url item) ≫= http_get_response with
  | None => fallback
  | Some (status_code, body) =>
      let reason := trim_ascii body in
      if bool_decide (reason = EmptyString) then if status_code =? 200 then "ready" else "not ready" else reason
  end.

(** [listed] is what [list_instances] returns, [None] when it throws; [now] is the clock. *)
Definition refresh_instances_cache (listed : option (list InstanceRecord)) (now : Z) (s : AdminState) : AdminState :=
  if negb (registry_backend_ s) then s
  else match listed with
  | None => set_redis_available false (add_counter poll_errors_total_ 1 s)
  | Some items =>
      let items := merge_sort record_le items in
      let index := fold_left (fun m it => <[instance_id it := it]> m) items ∅ in
      let details := fold_left (fun m it =>
        <[instance_id it := mkInstanceDetailSnapshot (make_instance_metrics_url cfg it) (probe_instance_ready_reason it) now]> m)
        items ∅ in
      set_redis_available true
        (set_caches (mkCaches items index details now (worker_cache_ (caches s)) (audit_trend_points_ (caches s))) s)
  end.

(** The number of the first line with the name of the metric that has one. *)
Fixpoint find_metric (metric_name : string) (lines : list string) : option Z :=
  match lines with
  | [] => None
  | line :: lines =>
      let rest := str_drop (String.length metric_name) line in
      let skipped := bool_decide (line = EmptyString) || String.prefix "#" line || negb (String.prefix metric_name line)
                     || match chars_of rest with
                        | c :: _ => negb (is_char 32 c || is_char 9 c)
                        | [] => false
                        end in
      if skipped then find_metric metric_name lines
      else match extract rest with Some v => Some v | None => find_metric metric_name lines end
  end.

Definition parse_prom_u64 (metrics_text metric_name : string) : option Z :=
  find_metric metric_name (map str (split_sep 10 (chars_of metrics_text))).

Definition http_get_text (url : HttpUrl) : option string :=
  match http_get_response url with
  | Some (status_code, body) => if status_code =? 200 then Some body else None
  | None => None
  end.

Definition set_worker (snapshot : WorkerSnapshot) (s : AdminState) : AdminState :=
  set_host (AppHost.set_dependency_ok "wb_metrics" (worker_available snapshot) (host s))
    (set_caches (mkCaches (instances_cache_ (caches s)) (instances_index_ (caches s)) (instance_details_index_ (caches s))
                   (instances_updated_at_ms_ (caches s)) snapshot (audit_trend_points_ (caches s))) s).

Definition refresh_worker_cache (now : Z) (s : AdminState) : AdminState :=
  let empty configured error := mkWorkerSnapshot configured false 0 0 0 0 0 0 0 0 0 0 (worker_metrics_raw_url_ cfg) error in
  match worker_metrics_url_ cfg with
  | None => set_worker (empty false EmptyString) s
  | Some url =>
      match http_get_text url with
      | None => set_worker (empty true "worker metrics fetch failed"%string) s
      | Some text =>
          let value name := default 0 (parse_prom_u64 text name) in
          set_worker (mkWorkerSnapshot true true now (value "wb_pending"%string) (value "wb_flush_total"%string)
                        (value "wb_flush_ok_total"%string) (value "wb_flush_fail_total"%string)
                        (value "wb_flush_dlq_total"%string) (value "wb_ack_total"%string) (value "wb_ack_fail_total"%string)
                        (value "wb_reclaim_total"%string) (value "wb_reclaim_error_total"%string)
                        (worker_metrics_raw_url_ cfg) EmptyString) s
      end
  end.

End poller.

(** What a round of the poller meets. *)
Record Round := mkRound {
  listed : option (list InstanceRecord);
  manifests : list Manifest;
  exists_file : string -> bool;
  round_now : Z;
  executions : string -> Execution;
}.

Section rounds.
Context (HMAC : chars -> chars -> option (list Z)) (cfg : AdminConfig) (parse : string -> option json).
Context (http_get_response : HttpUrl -> option (Z * string)) (extract : string -> option Z).
Context (order : gmap string ExtDeploymentRecord -> list (string * ExtDeploymentRecord)).

(** The body of [poll_loop]. *)
Definition poll_round (r : Round) (s : AdminState) : AdminState :=
  let s := refresh_instances_cache cfg http_get_response (listed r) (round_now r) s in
  let s := refresh_worker_cache cfg http_get_response extract (round_now r) s in
  let s := refresh_ext_inventory_cache (exists_file r) (manifests r) (round_now r) s in
  let s := process_ext_deployment_queue HMAC cfg order (round_now r) (executions r) s in
  capture_audit_trend_point cfg (round_now r) s.

(** The start of [run], up to the first round; [client] and [store] are what Redis and
    the file answer. *)
Definition start (client : option bool) (store : option string) (r : Round) : AdminState :=
  let none := mkWorkerSnapshot false false 0 0 0 0 0 0 0 0 0 0 EmptyString EmptyString in
  let s := mkAdminState AppHost.new false false false (mkCaches [] ∅ ∅ 0 none []) (mkExt [] ∅ 0 0 ∅ ∅) (fun _ => 0) 0 [] in
  let s := init_backends cfg client (init_dependencies s) in
  let s := refresh_ext_inventory_cache (exists_file r) (manifests r) (round_now r) s in
  let s := load_ext_deployments_store parse store s in
  capture_audit_trend_point cfg (round_now r) s.

End rounds.

(** The line of the log of an audit record. *)
Definition emit_audit_log (now : Z) (e : AuditEvent) : string :=
  jobj [("event"%string, jstr "admin_audit"); ("request_id"%string, quote +:+ "admin-" +:+ to_string (AdminState.request_id e) +:+ quote);
        ("actor"%string, jstr (ev_actor e)); ("role"%string, jstr (ev_role e)); ("method"%string, jstr (ev_method e));
        ("path"%string, jstr (ev_path e)); ("resource"%string, jstr (resource e)); ("result"%string, jstr (result e));
        ("status_code"%string, jnum (status_code e)); ("latency_ms"%string, jnum (latency_ms e));
        ("source_ip"%string, jstr (ev_source_ip e)); ("timestamp"%string, jnum now)].
