(* ===== verification/AdminAppProps.v ===== *)
(** Theorems of the administration service as a whole: who can make it write, and what it
    records of a request.

    [Within b m] bounds what a handler does outside its own counters: it writes no audit
    record, and with [b = false] it publishes nothing and leaves the deployments alone.
    The class is closed under the monad, so that the bound of a handler is found by the
    search for instances. *)

From stdpp Require Import sorting.
From S2P Require Import Prelude Text ChatText AdminAuth GatewayConfig InstanceRegistry HttpServer AppHost ChatAdmin AdminQuery AdminState AdminCommands AdminExt AdminDeploy AdminViews AdminApp.

Definition is_audit (e : effect) : Prop := match e with Audited _ => True | _ => False end.
Definition deployments (s : AdminState) : gmap string ExtDeploymentRecord := ext_deployments_ (ext s).

(** What the checks of a deployment read. *)
Definition core (s : AdminState) := (caches s, ext_inventory_cache_ (ext s), ext_inventory_index_ (ext s), deployments s).

(** A command as a request gives it; an immediate deployment gets the time of the clock. *)
Definition requested_command (c : ExtCommandSpec) : Prop :=
  exists parse request later c0, parse_ext_command_request parse request later = inl c0
    /\ (c = c0 \/ exists t, c = with_run_at t c0).

Section bounds.
Context (order : gmap string ExtDeploymentRecord -> list (string * ExtDeploymentRecord)).

(** A deployment a state lets in: its command id is new, its artifact is in the inventory
    and the checks found nothing. *)
Record admitted (s : AdminState) (d : ExtDeploymentRecord) : Prop := {
  admitted_new : deployments s !! d_command_id d = None;
  admitted_from : exists clock auth command artifact,
    requested_command command
    /\ pre_ok (run_ext_precheck_locked order command s) = true
    /\ find_ext_inventory_item_locked (cmd_artifact_id command) (ext s) = Some artifact
    /\ d = new_deployment clock auth command artifact (pre_target_count (run_ext_precheck_locked order command s));
}.

(** One admission, on what the checks read. *)
Definition admits (c c' : Caches * list ExtArtifactInventoryItem * gmap string nat * gmap string ExtDeploymentRecord) : Prop :=
  exists s d, core s = c /\ admitted s d /\ c' = (c.1, <[d_command_id d := d]> (deployments s)).

(** What a state gained. *)
Record gained (b : bool) (s s' : AdminState) (l : list effect) : Prop := {
  gained_trace : trace s' = trace s ++ l;
  gained_core : rtc admits (core s) (core s');
  gained_no_audit : Forall (fun e => ~ is_audit e) l;
  gained_quiet : b = false -> l = [] /\ core s' = core s;
}.

Class Within {A} (b : bool) (m : M A) : Prop := within s : exists l, gained b s (m s).1 l.

Lemma gained_refl b s s' : trace s' = trace s -> core s' = core s -> gained b s s' [].
Proof. intros Ht Hd. split; [by rewrite app_nil_r|rewrite Hd; apply rtc_refl|constructor|done]. Qed.

Lemma gained_trans b s1 s2 s3 l1 l2 : gained b s1 s2 l1 -> gained b s2 s3 l2 -> gained b s1 s3 (l1 ++ l2).
Proof.
  intros [T1 G1 A1 Q1] [T2 G2 A2 Q2]. split.
  - by rewrite T2, T1, <- app_assoc.
  - by apply (transitivity (y := core s2)).
  - by apply Forall_app.
  - intros Hb. destruct (Q1 Hb) as [-> D1], (Q2 Hb) as [-> D2]. by rewrite D2, D1.
Qed.

(** The search does not unfold handlers. *)
#[local] Hint Constants Opaque : typeclass_instances.

Lemma within_weaken {A} (m : M A) : Within false m -> Within true m.
Proof. intros H s. destruct (H s) as [l [T G N Q]]. exists l. by split. Qed.

#[export] Instance within_ret {A} b (a : A) : Within b (mret a : M A).
Proof. intros s. exists []. by apply gained_refl. Qed.
#[export] Instance within_bind {A B} b (m : M A) (f : A -> M B) :
  Within b m -> (forall a, Within b (f a)) -> Within b (m ≫= f).
Proof.
  intros Hm Hf s. unfold mbind, M_bind. destruct (Hm s) as [l1 H1]. destruct (m s) as [s1 [r|a]]; [by exists l1|].
  destruct (Hf a s1) as [l2 H2]. exists (l1 ++ l2). by eapply gained_trans.
Qed.
#[export] Instance within_get b : Within b get.
Proof. intros s. exists []. by apply gained_refl. Qed.
#[export] Instance within_answer {A} b r : Within b (answer r : M A).
Proof. intros s. exists []. by apply gained_refl. Qed.
#[export] Instance within_bump b c : Within b (bump c).
Proof. intros s. exists []. by apply gained_refl. Qed.
#[export] Instance within_fail {A} b clock rid st co me de : Within b (fail clock rid st co me de : M A).
Proof. unfold fail. apply _. Qed.
#[export] Instance within_guard b c m : Within b m -> Within b (guard c m).
Proof. intros H. unfold guard. destruct c; apply _. Qed.
#[export] Instance within_bad_request {A} b clock rid me de : Within b (bad_request clock rid me de : M A).
Proof. unfold bad_request. apply _. Qed.
#[export] Instance within_unavailable {A} b clock rid me : Within b (unavailable clock rid me : M A).
Proof. unfold unavailable. apply _. Qed.
#[export] Instance within_timeout {A} b clock rid o me : Within b (timeout clock rid o me : M A).
Proof. unfold timeout. apply _. Qed.

(** Instances inside the branches of a handler. *)
Ltac within :=
  cbv zeta;
  repeat first
    [ progress (intros; cbv beta zeta)
    | solve [apply _]
    | apply within_bind
    | apply within_guard
    | match goal with |- Within _ (let '(_, _) := ?x in _) => destruct x end
    | match goal with |- Within _ (match ?x with _ => _ end) => destruct x end ].

(** ** The handlers *)

#[export] Instance within_cursor b clock rid o n : Within b (cursor_of clock rid o n).
Proof. unfold cursor_of. within. Qed.

Section reads.
Context (cfg : AdminConfig) (clock : Clock) (rid : Z) (b : bool).

#[export] Instance within_overview : Within b (handle_overview cfg clock rid).
Proof. unfold handle_overview. within. Qed.
#[export] Instance within_auth_context auth : Within b (handle_auth_context cfg clock rid auth).
Proof. unfold handle_auth_context. within. Qed.
#[export] Instance within_mismatch (c : bool) n :
  Within b (modify (fun s => if c then add_counter instances_selector_mismatch_total_ n
                                         (add_counter instances_selector_requests_total_ 1 s) else s)).
Proof. intros s. exists []. by apply gained_refl; destruct c. Qed.
#[export] Instance within_instances o q : Within b (handle_instances cfg clock rid o q).
Proof. unfold handle_instances. within. Qed.
#[export] Instance within_instance_detail id : Within b (handle_instance_detail cfg clock rid id).
Proof. unfold handle_instance_detail. within. Qed.
#[export] Instance within_inventory q : Within b (handle_ext_inventory clock rid q).
Proof. unfold handle_ext_inventory. within. Qed.
#[export] Instance within_deployments o q : Within b (handle_ext_deployments clock rid order o q).
Proof. unfold handle_ext_deployments. within. Qed.
#[export] Instance within_users rv o q : Within b (handle_users cfg clock rid rv o q).
Proof. unfold handle_users. within. Qed.
#[export] Instance within_session rv id : Within b (handle_session_lookup cfg clock rid rv id).
Proof. unfold handle_session_lookup. within. Qed.
#[export] Instance within_worker o : Within b (handle_worker clock rid o).
Proof. unfold handle_worker. within. Qed.
#[export] Instance within_links : Within b (handle_metrics_links cfg clock rid).
Proof. unfold handle_metrics_links. within. Qed.

End reads.

Section writes.
Context (HMAC : chars -> chars -> option (list Z)) (cfg : AdminConfig) (clock : Clock) (out : Outside) (rid : Z) (auth : AuthContext).

#[export] Instance within_send channel fields failed : Within true (send_command HMAC cfg clock out rid channel fields failed).
Proof.
  intros s. unfold send_command, build_signed_admin_message.
  destruct (chars_of _); [exists []; by apply gained_refl|].
  destruct (append_signature_fields _ _ _ _ _) as [signed [|]]; [|exists []; by apply gained_refl].
  exists [Published channel ("gw=admin_app" +:+ newline +:+ str (to_kv_payload signed)) (publish_ok out)].
  destruct (publish_ok out); (split; [done|apply rtc_refl| |done]); by apply Forall_singleton; intros [].
Qed.
#[export] Instance within_targets params : Within true (command_targets clock rid params).
Proof. unfold command_targets. within. Qed.
#[export] Instance within_selector q : Within true (command_selector clock rid q).
Proof. unfold command_selector. within. Qed.
#[export] Instance within_disconnect q : Within true (handle_disconnect_users HMAC cfg clock out rid auth q).
Proof. unfold handle_disconnect_users, accepted. within. Qed.
#[export] Instance within_announcement q : Within true (handle_announcement HMAC cfg clock out rid auth q).
Proof. unfold handle_announcement, accepted. within. Qed.
#[export] Instance within_check_setting k v : Within true (check_setting clock rid k v).
Proof. unfold check_setting. within. Qed.
#[export] Instance within_setting q : Within true (handle_runtime_setting HMAC cfg clock out rid auth q).
Proof. unfold handle_runtime_setting, accepted. within. Qed.
#[export] Instance within_duration p : Within true (moderation_duration clock rid p).
Proof. unfold moderation_duration. within. Qed.
#[export] Instance within_moderation op q : Within true (handle_user_moderation HMAC cfg clock out rid auth op q).
Proof. unfold handle_user_moderation, accepted. within. Qed.

End writes.

Section deployments.
Context (parse : string -> option json) (clock : Clock) (rid : Z) (auth : AuthContext) (save_ok : bool).

#[export] Instance within_parsed b request later : Within b (parsed_command parse clock rid request later).
Proof. unfold parsed_command. within. Qed.
#[export] Instance within_record b command result : Within b (modify (record_precheck clock command result)).
Proof. intros s. exists []. by apply gained_refl. Qed.
#[export] Instance within_checked b command with_count : Within b (checked_command order clock rid command with_count).
Proof. unfold checked_command. within. Qed.
#[export] Instance within_precheck b request : Within b (handle_ext_precheck order parse clock rid auth request).
Proof. unfold handle_ext_precheck. within. Qed.

Lemma checked_fresh command with_count s s' p :
  checked_command order clock rid command with_count s = (s', inr p) ->
  deployments s !! command_id command = None /\ p = run_ext_precheck_locked order command s
  /\ pre_ok p = true /\ s' = record_precheck clock command p s.
Proof.
  unfold checked_command, mbind, M_bind, get, modify, deployments. cbn.
  destruct (ext_deployments_ (ext s) !! command_id command); [done|].
  destruct (pre_ok _) eqn:E; [|done]. intros H. by injection H as <- <-.
Qed.

Lemma bind_run {A B} (m : M A) (f : A -> M B) s :
  (m ≫= f) s = match m s with (s', inl r) => (s', inl r) | (s', inr a) => f a s' end.
Proof. done. Qed.

(** A submission adds one record, or leaves early as the checks do. *)
Lemma submit_cases request later s :
  let r := handle_ext_deployment_submit order parse clock rid auth save_ok request later s in
  (trace r.1 = trace s /\ core r.1 = core s)
  \/ exists d, admitted s d /\ core r.1 = ((core s).1, <[d_command_id d := d]> (deployments s))
       /\ trace r.1 = trace s ++ [Saved (deployments r.1)].
Proof.
  cbv zeta. unfold handle_ext_deployment_submit.
  rewrite bind_run. unfold parsed_command.
  destruct (parse_ext_command_request parse request later) as [command0|e] eqn:Hparse; [|left; by split].
  cbn [mret M_ret]. rewrite bind_run. unfold guard. destruct (later || _); [|left; by split]. cbn [mret M_ret].
  set (command := if later then command0 else with_run_at (now clock) command0). rewrite bind_run.
  destruct (within_checked false command false s) as [l [T _ _ Q]]. destruct (Q eq_refl) as [-> D]. rewrite app_nil_r in T.
  destruct (checked_command order clock rid command false s) as [s1 [r|pre]] eqn:E; [by left|].
  apply checked_fresh in E as (Hf & -> & Hok & ->). rewrite bind_run. cbn [get].
  change (find_ext_inventory_item_locked (cmd_artifact_id command) (ext (record_precheck _ _ _ s)))
    with (find_ext_inventory_item_locked (cmd_artifact_id command) (ext s)).
  destruct (find_ext_inventory_item_locked (cmd_artifact_id command) (ext s)) as [artifact|] eqn:Ha; [|by left].
  right. exists (new_deployment clock auth command artifact (pre_target_count (run_ext_precheck_locked order command s))).
  split_and!; [|unfold save_ext_deployments_locked; by destruct save_ok..].
  split; [done|]. exists clock, auth, command, artifact. split_and!; [|done..].
  exists parse, request, later, command0. split; [done|]. unfold command. destruct later; [by left|right; by eexists].
Qed.

#[export] Instance within_submit request later :
  Within true (handle_ext_deployment_submit order parse clock rid auth save_ok request later).
Proof.
  intros s. destruct (submit_cases request later s) as [[T D]|(d & Hd & D & T)]; [exists []; by apply gained_refl|].
  eexists [_]. split; [exact T| | |done].
  - rewrite D. apply rtc_once. by exists s, d.
  - apply Forall_singleton. intros [].
Qed.

End deployments.

(** ** The router *)

(** The endpoints that write: path, method and the least role. *)
Definition write_endpoints : list (string * string * string) :=
  [("/api/v1/users/disconnect", "POST", "admin"); ("/api/v1/announcements", "POST", "operator");
   ("/api/v1/settings", "PATCH", "admin"); ("/api/v1/users/mute", "POST", "admin");
   ("/api/v1/users/unmute", "POST", "admin"); ("/api/v1/users/ban", "POST", "admin");
   ("/api/v1/users/unban", "POST", "admin"); ("/api/v1/users/kick", "POST", "admin");
   ("/api/v1/ext/deployments", "POST", "admin"); ("/api/v1/ext/schedules", "POST", "admin")]%string.

(** A request that may write. *)
Definition authorised (cfg : AdminConfig) (auth : AuthContext) (method path : string) : Prop :=
  auth_error auth = None /\ admin_read_only_ cfg = false
  /\ exists least, (path, method, least) ∈ write_endpoints /\ has_min_role (role auth) least = true.

(** A handler that stays quiet unless [P] holds. *)
Definition Guarded {A} (P : Prop) (m : M A) : Prop :=
  forall s, exists l, gained true s (m s).1 l /\ (gained false s (m s).1 l \/ P).

Section guarded.
Context (P : Prop).

Lemma guarded_quiet {A} (m : M A) : Within false m -> Guarded P m.
Proof. intros H s. destruct (H s) as [l G]. exists l. destruct G. split; [by split|left; by split]. Qed.

Lemma guarded_true {A} (m : M A) : P -> Within true m -> Guarded P m.
Proof. intros HP H s. destruct (H s) as [l G]. exists l. auto. Qed.

Lemma guarded_bind {A B} (m : M A) (f : A -> M B) : Within false m -> (forall a, Guarded P (f a)) -> Guarded P (m ≫= f).
Proof.
  intros Hm Hf s. unfold mbind, M_bind. destruct (Hm s) as [l1 G1].
  assert (G1' : gained true s (m s).1 l1) by (by destruct G1).
  destruct (m s) as [s1 [r|a]]; [exists l1; auto|].
  destruct (Hf a s1) as (l2 & G2 & HP). exists (l1 ++ l2). split; [by eapply gained_trans|].
  destruct HP; [left; by eapply gained_trans|auto].
Qed.

Lemma guarded_fail {A} c clock rid st co me de (f : unit -> M A) :
  (c = true -> Guarded P (f tt)) -> Guarded P (guard c (fail clock rid st co me de) ≫= f).
Proof.
  intros Hf s. destruct c; [by apply Hf|].
  exists []. split; [|left]; by apply gained_refl.
Qed.

Lemma guarded_assoc {A B C} (m : M A) (f : A -> M B) (g : B -> M C) :
  Guarded P (m ≫= (fun a => f a ≫= g)) -> Guarded P ((m ≫= f) ≫= g).
Proof. intros H s. specialize (H s). unfold mbind, M_bind in *. by destruct (m s) as [s1 [r|a]]. Qed.

End guarded.

Lemma moderation_paths p op : moderation_op p = Some op -> (p, "POST"%string, "admin"%string) ∈ write_endpoints.
Proof.
  unfold moderation_op. repeat case_bool_decide; intros; subst; try done; by_decide.
Qed.

Lemma only_inv method (e : bool) ms :
  negb (e && negb (existsb (by_method method) ms)) = true -> e = true -> method ∈ ms.
Proof.
  intros H ->. cbn in H. rewrite negb_involutive in H. apply existsb_exists in H as (m & Hin & Hm).
  apply bool_decide_eq_true in Hm as ->. by apply list_elem_of_In.
Qed.

Section route.
Context (HMAC : chars -> chars -> option (list Z)) (parse : string -> option json).
Context (cfg : AdminConfig) (ui : string) (w : World) (rid : Z) (auth : AuthContext) (request : HttpRequest).
Context (method : string) (split : SplitTarget).

#[local] Instance within_options : Within false (read_options w rid method split).
Proof. unfold read_options. within. Qed.
#[local] Instance within_params : Within false (write_params parse w rid request split).
Proof. unfold write_params. within. Qed.

Lemma role_guarded (P : Prop) {A} least (f : unit -> M A) :
  (has_min_role (role auth) least = true -> Guarded P (f tt)) -> Guarded P (require_role w rid auth least ≫= f).
Proof. apply guarded_fail. Qed.

Lemma only_guarded (P : Prop) {A} e ms me (f : unit -> M A) :
  ((e = true -> method ∈ ms) -> Guarded P (f tt)) -> Guarded P (only w rid method e ms me ≫= f).
Proof. intros H. unfold only, not_allowed. apply guarded_fail. intros He. apply H. by apply only_inv. Qed.

Lemma write_guarded (P : Prop) least c h :
  (has_min_role (role auth) least = true -> P) -> Within true h -> Guarded P (write_as w rid auth least c h).
Proof. intros HP Hh. apply role_guarded. intros Hr. apply guarded_true; [auto|]. apply _. Qed.

Lemma read_guarded (P : Prop) c h : Within false h -> Guarded P (read_as c h).
Proof. intros Hh. apply guarded_quiet. unfold read_as. apply _. Qed.

(** What the checks before the dispatch establish for the endpoints that write. *)
Definition checked : Prop :=
  (forall p m least, (p, m, least) ∈ write_endpoints -> AdminQuery.path split = p ->
     p <> "/api/v1/ext/deployments"%string -> method = m)
  /\ (AdminQuery.path split = "/api/v1/ext/deployments"%string -> method = "GET"%string \/ method = "POST"%string)
  /\ (is_readonly_blocked_endpoint method split = true -> admin_read_only_ cfg = false).

Lemma blocked m least :
  (AdminQuery.path split, m, least) ∈ write_endpoints -> method = m -> is_readonly_blocked_endpoint method split = true.
Proof.
  unfold is_readonly_blocked_endpoint, is_legacy_write_endpoint, is_ext_deployments_write, at_path, by_method.
  destruct split as [p q]. cbn [AdminQuery.path]. intros H ->. apply list_elem_of_In in H.
  cbn in H. repeat destruct H as [H|H]; try done; by injection H as <- <- <-.
Qed.

Lemma endpoint_authorised p m least :
  auth_error auth = None -> checked -> at_path split p = true -> (p, m, least) ∈ write_endpoints -> method = m ->
  has_min_role (role auth) least = true -> authorised cfg auth method (AdminQuery.path split).
Proof.
  intros Ha (_ & _ & Hro) Hp Hin Hm Hr. apply bool_decide_eq_true in Hp. subst p. split_and!; [done| |].
  - by eapply Hro, blocked.
  - exists least. by rewrite Hm.
Qed.

Lemma endpoint_guarded p m least c h :
  auth_error auth = None -> checked -> at_path split p = true ->
  (p, m, least) ∈ write_endpoints -> p <> "/api/v1/ext/deployments"%string -> Within true h ->
  Guarded (authorised cfg auth method (AdminQuery.path split)) (write_as w rid auth least c h).
Proof.
  intros Ha Hc Hp Hin Hne Hh. apply write_guarded; [|done]. intros Hr.
  apply (endpoint_authorised p m least); try done.
  destruct Hc as [Hm _]. apply (Hm p m least); try done. by apply bool_decide_eq_true in Hp.
Qed.

Ltac listed := apply list_elem_of_In; cbn; solve [repeat first [left; reflexivity | right]].

Lemma dispatch_guarded options merged :
  auth_error auth = None -> checked ->
  Guarded (authorised cfg auth method (AdminQuery.path split))
    (dispatch HMAC parse order cfg w rid auth request method split options merged).
Proof.
  intros Ha Hc. unfold dispatch.
  repeat match goal with
  | |- Guarded _ (if at_path split ?p then _ else _) => destruct (at_path split p) eqn:?
  | |- Guarded _ (if ?c then _ else _) => destruct c
  | |- Guarded _ (read_as _ _) => apply read_guarded; apply _
  | H : at_path split ?p = true |- Guarded _ (write_as _ _ _ _ _ _) =>
      apply (endpoint_guarded p (if String.prefix "/api/v1/settings" p then "PATCH" else "POST") _ _ _ Ha Hc H);
        [listed|done|apply _]
  end.
  - unfold write_as. apply guarded_quiet. unfold require_role. within.
  - apply guarded_bind; [apply _|]. intros _. destruct (by_method method "GET") eqn:Hg.
    { apply guarded_quiet. apply _. }
    apply role_guarded. intros Hr. apply guarded_true; [|apply _].
    apply (endpoint_authorised "/api/v1/ext/deployments" "POST" "admin"); try done.
    + listed.
    + apply bool_decide_eq_false in Hg. destruct Hc as (_ & Hd & _).
      by destruct Hd; [by eapply bool_decide_eq_true|..].
  - destruct (moderation_op (AdminQuery.path split)) as [op|] eqn:Hop.
    { apply (endpoint_guarded (AdminQuery.path split) "POST"); try done; [by apply bool_decide_eq_true| | |apply _].
      - by eapply moderation_paths.
      - intros E. by rewrite E in Hop. }
    repeat match goal with |- Guarded _ (if ?c then _ else _) => destruct c end; apply guarded_quiet; [|apply _..].
    unfold read_as. apply _.
Qed.

Lemma readonly_guarded (P : Prop) {A} (f : unit -> M A) :
  ((is_readonly_blocked_endpoint method split = true -> admin_read_only_ cfg = false) -> Guarded P (f tt)) ->
  Guarded P (check_read_only cfg w rid method split ≫= f).
Proof.
  intros H. unfold check_read_only. apply guarded_fail. intros Hc. apply H. intros Hb. rewrite Hb in Hc. cbn in Hc.
  by apply negb_true_iff in Hc.
Qed.

Lemma api_guarded :
  auth_error auth = None ->
  Guarded (authorised cfg auth method (AdminQuery.path split)) (handle_api HMAC parse order cfg w rid auth request method split).
Proof.
  intros Hauth. unfold handle_api. apply guarded_bind; [apply _|]. intros _.
  unfold check_method. do 8 (apply guarded_assoc, only_guarded; intros ?; cbv beta).
  apply only_guarded. intros ?. apply readonly_guarded. intros Hro.
  apply guarded_bind; [apply _|]. intros options. apply guarded_bind; [apply _|]. intros merged.
  apply dispatch_guarded; [done|]. unfold at_path in *. split_and!; [|intros E|done].
  - intros p m least Hin E Hne. apply list_elem_of_In in Hin. rewrite E in *. cbn in Hin.
    repeat destruct Hin as [Hin|Hin]; try done; injection Hin as <- <- <-; try done;
      match goal with H : _ -> method ∈ [?x] |- method = ?x => by apply list_elem_of_singleton, H end.
  - match goal with H : _ -> method ∈ [_; _] |- _ => rewrite E in H; specialize (H eq_refl); apply list_elem_of_In in H end.
    cbn in *. intuition.
Qed.

Lemma authenticated_guarded :
  Guarded (authorised cfg auth method (AdminQuery.path split))
    (handle_authenticated HMAC parse order cfg ui w rid auth request method split).
Proof.
  unfold handle_authenticated, handle_ui. destruct (auth_error auth) eqn:Ha; [apply guarded_quiet; apply _|].
  destruct (_ || _); [|by apply api_guarded]. apply guarded_quiet. within.
Qed.

End route.

(** What the audit record of a request holds. *)
Definition records (cfg : AdminConfig) (request : HttpRequest) (s : AdminState) (response : RouteResponse) (e : AuditEvent) : Prop :=
  AdminState.request_id e = u64 (request_seq_ s + 1)
  /\ ev_actor e = actor (authenticate_request cfg request) /\ ev_role e = role (authenticate_request cfg request)
  /\ ev_path e = AdminQuery.path (split_target (target request))
  /\ status_code e = parse_http_status_code (rr_status response).

Lemma finalize_gained request clock rid auth method path response s :
  exists e, trace (finalize request clock rid auth method path response s).1 = trace s ++ [Audited e]
  /\ core (finalize request clock rid auth method path response s).1 = core s
  /\ (finalize request clock rid auth method path response s).2 = response
  /\ AdminState.request_id e = rid /\ ev_actor e = actor auth /\ ev_role e = role auth /\ ev_method e = method /\ ev_path e = path
  /\ status_code e = parse_http_status_code (rr_status response).
Proof.
  unfold finalize. cbv zeta. eexists. cbn [fst snd].
  set (code := parse_http_status_code _).
  destruct (code =? 401), (code =? 403), (500 <=? code); split_and!; reflexivity.
Qed.

(** A request changes what the checks read by admissions only. *)
Lemma route_core HMAC parse cfg ui w request s :
  rtc admits (core s) (core (handle_route HMAC parse order cfg ui w request s).1).
Proof.
  unfold handle_route. cbv zeta. destruct (negb _ && negb _); [apply rtc_refl|].
  match goal with |- context [handle_authenticated _ _ _ _ _ _ ?rid ?auth _ ?m ?split _] =>
    destruct (authenticated_guarded HMAC parse cfg ui w rid auth request m split (set_seq rid s)) as (l & [_ C _ _] & _) end.
  destruct (handle_authenticated _ _ _ _ _ _ _ _ _ _ _ _) as [s1 result]. cbn [fst] in C.
  match goal with |- context [finalize ?r ?c ?rid ?a ?m ?p ?resp s1] =>
    destruct (finalize_gained r c rid a m p resp s1) as (e & _ & De & _) end.
  destruct (finalize _ _ _ _ _ _ _ _) as [s2 response]. cbn [fst] in *. by rewrite De.
Qed.

(** C1. A request the service answers leaves exactly one audit record, the last of what the
    request sends out, with the caller, the path and the status of the answer. Before it
    the request publishes a command or changes the deployments only when the caller was
    authenticated, the service is not read only, and the path is an endpoint that writes,
    with its method and at least its role. Other requests are left to the next handler
    and change nothing. *)
Theorem admin_writes_authorised HMAC parse cfg ui w request s :
  let s' := (handle_route HMAC parse order cfg ui w request s).1 in
  match (handle_route HMAC parse order cfg ui w request s).2 with
  | None => s' = s
  | Some response => exists l e,
      trace s' = trace s ++ l ++ [Audited e] /\ Forall (fun x => ~ is_audit x) l /\ records cfg request s response e
      /\ (l = [] /\ deployments s' = deployments s
          \/ authorised cfg (authenticate_request cfg request) (ev_method e) (ev_path e))
  end.
Proof.
  unfold handle_route. cbv zeta. destruct (negb _ && negb _); [done|].
  set (rid := u64 (request_seq_ s + 1)). set (auth := authenticate_request cfg request).
  set (split := split_target (target request)). set (m := if bool_decide _ then _ else _).
  destruct (authenticated_guarded HMAC parse cfg ui w rid auth request m split (set_seq rid s)) as (l & [T _ N _] & Q).
  destruct (handle_authenticated _ _ _ _ _ _ _ _ _ _ _ _) as [s1 result] eqn:E. cbn [fst] in T, Q.
  destruct (finalize_gained request (w_clock w) rid auth m (AdminQuery.path split) (respond result) s1)
    as (e & Te & De & Re & Hrid & Hactor & Hrole & Hm & Hp & Hst).
  destruct (finalize _ _ _ _ _ _ _ _) as [s2 response]. cbn [fst snd] in *. subst response.
  exists l, e. rewrite Te, T, Hm, Hp. split_and!; [by rewrite <- app_assoc|done|by split_and!|].
  destruct Q as [[_ _ _ Q]|Q]; [left|by right]. destruct (Q eq_refl) as [-> Hc]. split; [done|].
  rewrite Hc in De. by injection De.
Qed.

End bounds.
