(* ===== verification/AdminDeployProps.v ===== *)
(** Theorems of the deployments of the administration service: the life of a deployment
    while requests come between the steps of the scheduler, the exclusive groups, and
    the waves of a rollout.

    [step] is one step of the service: a request, a refresh of the caches by the poller, or
    one part of an execution between two of its locks. *)

From stdpp Require Import sorting.
From S2P Require Import Prelude Text ChatText AdminAuth GatewayConfig InstanceRegistry HttpServer AppHost ChatAdmin AdminQuery AdminState AdminCommands Fanout AdminFanoutProps AdminExt AdminDeploy AdminViews AdminApp AdminAppProps.

(** ** Steps *)

(** Where the thread of the scheduler is. *)
Inductive phase :=
  | Idle
  | Running (id : string) (d : ExtDeploymentRecord)
  | Ending (id : string) (total : Z) (applied : list string) (failure : option ExtPrecheckIssue).

(** The state, the thread of the scheduler, and the executions begun so far. *)
Record Sys := mkSys { st : AdminState; ph : phase; started : list string }.

Section lifecycle.
Context (HMAC : chars -> chars -> option (list Z)) (parse : string -> option json).
Context (order : gmap string ExtDeploymentRecord -> list (string * ExtDeploymentRecord)).
Context (cfg : AdminConfig) (ui : string).
Context (http_get_response : HttpUrl -> option (Z * string)) (extract : string -> option Z).

(** The part of [poll_round] before the scheduler. *)
Definition refreshed (r : Round) (s : AdminState) : AdminState :=
  refresh_ext_inventory_cache (exists_file r) (manifests r) (round_now r)
    (refresh_worker_cache cfg http_get_response extract (round_now r)
      (refresh_instances_cache cfg http_get_response (listed r) (round_now r) s)).

Inductive step : Sys -> Sys -> Prop :=
  | StepRequest s p b w request :
      step (mkSys s p b) (mkSys (handle_route HMAC parse order cfg ui w request s).1 p b)
  | StepRefresh s b r : step (mkSys s Idle b) (mkSys (refreshed r s) Idle b)
  | StepCount s b c n : step (mkSys s Idle b) (mkSys (add_counter c n s) Idle b)
  | StepTrend s b now : step (mkSys s Idle b) (mkSys (capture_audit_trend_point cfg now s) Idle b)
  | StepSkip s s' b id now ok :
      begin_ext_deployment cfg id now ok s = (s', None) -> step (mkSys s Idle b) (mkSys s' Idle b)
  | StepBegin s s' b id d now ok :
      begin_ext_deployment cfg id now ok s = (s', Some d) -> step (mkSys s Idle b) (mkSys s' (Running id d) (b ++ [id]))
  | StepEmpty s b id d now ok :
      ext_targets d (caches s) = [] ->
      step (mkSys s (Running id d) b) (mkSys (end_without_targets id now ok s) Idle b)
  | StepWaves s s' b id d outs applied failure :
      ext_targets d (caches s) <> [] ->
      run_waves HMAC cfg outs d (ext_targets d (caches s)) 0 (waves (d_rollout d)) [] s = (s', applied, failure) ->
      step (mkSys s (Running id d) b) (mkSys s' (Ending id (zlen (ext_targets d (caches s))) applied failure) b)
  | StepEnd s b id total applied failure now ok out :
      step (mkSys s (Ending id total applied failure) b)
           (mkSys (end_ext_deployment HMAC cfg id now ok out total applied failure s) Idle b).

(** An execution of the scheduler is a run of steps. *)
Lemma execute_steps id now x s b :
  exists b', rtc step (mkSys s Idle b) (mkSys (execute_ext_deployment HMAC cfg id now x s) Idle b').
Proof.
  unfold execute_ext_deployment. destruct (begin_ext_deployment cfg id now (begin_save x) s) as [s1 [d|]] eqn:E.
  - exists (b ++ [id]). eapply rtc_l; [by eapply StepBegin|]. unfold finish_ext_deployment.
    destruct (ext_targets d (caches s1)) as [|t l] eqn:Ht; cbn [nonempty negb].
    { by apply rtc_once, StepEmpty. }
    destruct (run_waves _ _ _ _ _ _ _ _ _) as [[s2 applied] failure] eqn:Hw.
    eapply rtc_l; [eapply StepWaves; rewrite Ht; [done|exact Hw]|]. rewrite Ht. apply rtc_once, StepEnd.
  - exists b. by eapply rtc_once, StepSkip.
Qed.

Lemma executions_steps now xs ids s b :
  exists b', rtc step (mkSys s Idle b)
    (mkSys (fold_left (fun s id => execute_ext_deployment HMAC cfg id now (xs id) s) ids s) Idle b').
Proof.
  revert s b. induction ids as [|id ids IH]; intros s b; cbn [fold_left]; [by exists b|].
  destruct (execute_steps id now (xs id) s b) as [b1 H1]. destruct (IH (execute_ext_deployment HMAC cfg id now (xs id) s) b1) as [b2 H2].
  exists b2. by etrans.
Qed.

(** So is a round of the poller. *)
Lemma poll_round_steps r s b :
  exists b', rtc step (mkSys s Idle b) (mkSys (poll_round HMAC cfg http_get_response extract order r s) Idle b').
Proof.
  unfold poll_round, process_ext_deployment_queue. cbv zeta.
  match goal with |- context [fold_left (fun s id => execute_ext_deployment _ _ id ?now (?xs id) s) ?ids ?s0] =>
    destruct (executions_steps now xs ids s0 b) as [b' H] end.
  exists b'. eapply rtc_l; [apply StepRefresh|]. do 2 (eapply rtc_l; [apply StepCount|]).
  eapply rtc_r; [exact H|]. apply StepTrend.
Qed.

(** ** The life of a deployment *)

Inductive status_step : string -> string -> Prop :=
  | pending_executes : status_step "pending" "executing"
  | pending_fails : status_step "pending" "failed"
  | passed_executes : status_step "precheck_passed" "executing"
  | passed_fails : status_step "precheck_passed" "failed"
  | executing_completes : status_step "executing" "completed"
  | executing_fails : status_step "executing" "failed".

(** Neither waiting nor executing. *)
Definition finished (d : ExtDeploymentRecord) : bool := negb (startable d) && negb (status_is "executing" d).

(** What a deployment keeps for its life. *)
Definition same_order (d d' : ExtDeploymentRecord) : Prop :=
  d_command_id d' = d_command_id d /\ d_artifact_id d' = d_artifact_id d /\ d_actor d' = d_actor d
  /\ d_selector d' = d_selector d /\ d_selector_specified d' = d_selector_specified d
  /\ d_run_at_utc d' = d_run_at_utc d /\ d_rollout d' = d_rollout d /\ d_kind d' = d_kind d
  /\ d_hook_scope d' = d_hook_scope d /\ d_stage d' = d_stage d /\ d_priority d' = d_priority d
  /\ d_exclusive_group d' = d_exclusive_group d /\ d_created_at_ms d' = d_created_at_ms d.

Record evolves (d d' : ExtDeploymentRecord) : Prop := {
  evolves_order : same_order d d';
  evolves_status : rtc status_step (d_status d) (d_status d');
  evolves_finished : finished d = true -> d' = d;
}.

#[export] Instance same_order_preorder : PreOrder same_order.
Proof.
  unfold same_order. split; [intros d; by split_and!|]. intros x y z H1 H2. destruct_and!. split_and!; congruence.
Qed.
#[export] Instance evolves_preorder : PreOrder evolves.
Proof.
  split; [intros d; by split|]. intros x y z [O1 S1 F1] [O2 S2 F2]. split; [by etrans..|].
  intros H. pose proof (F1 H) as ->. by apply F2.
Qed.

Lemma executing_evolves d d' :
  d_status d = "executing"%string -> same_order d d' -> status_step "executing" (d_status d') -> evolves d d'.
Proof.
  intros Hs Ho Hst. split; [done| |].
  - rewrite Hs. by apply rtc_once.
  - unfold finished, status_is. rewrite Hs, bool_decide_true by done. by rewrite andb_false_r.
Qed.

Lemma startable_evolves d d' :
  startable d = true -> same_order d d' -> d_status d' ∈ ["executing"; "failed"]%string -> evolves d d'.
Proof.
  intros Hs Ho Hst. split; [done| |unfold finished; by rewrite Hs].
  unfold startable, status_is in Hs. apply orb_true_iff in Hs as [Hs|Hs]; apply bool_decide_eq_true in Hs; rewrite Hs;
    apply rtc_once; apply list_elem_of_In in Hst; cbn in Hst; destruct Hst as [<-|[<-|[]]]; constructor.
Qed.

(** *** What the parts of an execution do to the records *)

Lemma save_deployments ok s : deployments (save_ext_deployments_locked ok s) = deployments s.
Proof. by destruct ok. Qed.

Lemma begin_effect id now ok s s' o :
  begin_ext_deployment cfg id now ok s = (s', o) ->
  match o with
  | None => deployments s' = deployments s
      \/ exists d d', deployments s !! id = Some d /\ deployments s' = <[id := d']> (deployments s)
           /\ startable d = true /\ same_order d d' /\ d_status d' = "failed"%string
  | Some d' => exists d, deployments s !! id = Some d /\ deployments s' = <[id := d']> (deployments s)
      /\ startable d = true /\ same_order d d' /\ d_status d' = "executing"%string
  end.
Proof.
  unfold begin_ext_deployment. fold (deployments s). destruct (deployments s !! id) as [d|] eqn:Hd;
    [|intros H; injection H as <- <-; by left].
  destruct (startable d) eqn:Hs; cbn [negb]; [|intros H; injection H as <- <-; by left].
  destruct (match d_run_at_utc d with Some _ => _ | None => _ end); intros H; injection H as <- <-.
  - right. exists d. eexists. split_and!; [done|by rewrite save_deployments|done..].
  - exists d. split_and!; [done|by rewrite save_deployments|done..].
Qed.

Lemma publish_core out d ids i p rb s : core (publish_ext_wave_command HMAC cfg out d ids i p rb s).1 = core s.
Proof.
  unfold publish_ext_wave_command, build_signed_admin_message. destruct (negb _); [done|].
  destruct (chars_of _); [done|]. by destruct (append_signature_fields _ _ _ _ _) as [signed [|]].
Qed.

Lemma waves_core outs d targets i percents applied s :
  core (run_waves HMAC cfg outs d targets i percents applied s).1.1 = core s.
Proof.
  revert i applied s. induction percents as [|p percents IH]; intros i applied s; cbn [run_waves]; [done|].
  destruct (_ <=? _); [apply IH|]. destruct (_ && _); [done|].
  match goal with |- context [publish_ext_wave_command ?h ?c ?o ?d ?t ?i ?p ?r s] =>
    pose proof (publish_core o d t i p r s) as Hc; destruct (publish_ext_wave_command h c o d t i p r s) as [s1 [|]] end.
  - rewrite IH. exact Hc.
  - exact Hc.
Qed.

Lemma end_effect id now ok out total applied failure s :
  let s' := end_ext_deployment HMAC cfg id now ok out total applied failure s in
  deployments s' = deployments s
  \/ exists d d', deployments s !! id = Some d /\ deployments s' = <[id := d']> (deployments s)
       /\ same_order d d' /\ status_step "executing" (d_status d').
Proof.
  cbv zeta. unfold end_ext_deployment. fold (deployments s). destruct (deployments s !! id) as [d|] eqn:Hd; [|by left].
  right. exists d. destruct failure as [issue|].
  - exists (with_status "failed" (code issue) now [issue] (with_targets total (zlen applied) d)).
    split_and!; [done| |done|apply executing_fails]. rewrite save_deployments.
    destruct (_ && nonempty applied); [|done].
    match goal with |- context [publish_ext_wave_command ?h ?c ?o ?d ?t ?i ?p ?r ?s0] =>
      pose proof (publish_core o d t i p r s0) as Hc; destruct (publish_ext_wave_command h c o d t i p r s0) as [s1 [|]] end;
      by injection Hc.
  - eexists. split_and!; [done|by rewrite save_deployments|done|apply executing_completes].
Qed.

Lemma empty_effect id now ok s :
  let s' := end_without_targets id now ok s in
  deployments s' = deployments s
  \/ exists d d', deployments s !! id = Some d /\ deployments s' = <[id := d']> (deployments s)
       /\ same_order d d' /\ status_step "executing" (d_status d').
Proof.
  cbv zeta. unfold end_without_targets. fold (deployments s). destruct (deployments s !! id) as [d|] eqn:Hd; [|by left].
  right. exists d. eexists. split_and!; [done|by rewrite save_deployments|done|apply executing_fails].
Qed.

Lemma refreshed_deployments r s : deployments (refreshed r s) = deployments s.
Proof.
  unfold refreshed, refresh_ext_inventory_cache, refresh_worker_cache, refresh_instances_cache.
  destruct (index_items _ _ _) as [items index]. cbn.
  destruct (worker_metrics_url_ cfg) as [url|]; [destruct (http_get_text _ _)|];
    (destruct (negb _); [|destruct (listed r)]; reflexivity).
Qed.

(** *** The invariant *)

Definition keyed (ds : gmap string ExtDeploymentRecord) : Prop := forall id d, ds !! id = Some d -> d_command_id d = id.
Definition moves (ds ds' : gmap string ExtDeploymentRecord) : Prop :=
  forall id d, ds !! id = Some d -> exists d', ds' !! id = Some d' /\ evolves d d'.

(** Executions begin once for each deployment, and the one under way is executing. *)
Record inv (x : Sys) : Prop := {
  inv_keyed : keyed (deployments (st x));
  inv_once : NoDup (started x);
  inv_started id : id ∈ started x -> exists d, deployments (st x) !! id = Some d /\ startable d = false;
  inv_phase : match ph x with
              | Idle => True
              | Running id _ | Ending id _ _ _ =>
                  exists d, deployments (st x) !! id = Some d /\ d_status d = "executing"%string
              end;
}.

#[export] Instance moves_preorder : PreOrder moves.
Proof.
  split; [intros ds id d H; by exists d|]. intros x y z H1 H2 id d Hd.
  destruct (H1 id d Hd) as (d1 & Hy & E1). destruct (H2 id d1 Hy) as (d2 & Hz & E2). exists d2. split; [done|by etrans].
Qed.

Lemma moves_insert ds id d d' : ds !! id = Some d -> evolves d d' -> moves ds (<[id := d']> ds).
Proof.
  intros Hd He i di Hi. destruct (decide (i = id)) as [->|Hne].
  - exists d'. rewrite lookup_insert_eq. by simplify_eq.
  - exists di. by rewrite lookup_insert_ne.
Qed.

Lemma moves_subseteq ds ds' : ds ⊆ ds' -> moves ds ds'.
Proof. intros H id d Hd. exists d. split; [by eapply lookup_weaken|done]. Qed.

Lemma keyed_insert ds id d d' : keyed ds -> ds !! id = Some d -> same_order d d' -> keyed (<[id := d']> ds).
Proof.
  intros Hk Hd (Hid & _) i di Hi. apply lookup_insert_Some in Hi as [[<- <-]|[_ Hi]]; [|by apply Hk].
  rewrite Hid. by apply Hk.
Qed.

Lemma evolves_not_startable d d' : evolves d d' -> startable d = false -> startable d' = false.
Proof.
  intros [_ Hs Hf] Hn. unfold finished in Hf. rewrite Hn in Hf. cbn in Hf.
  unfold status_is in Hf. destruct (decide (d_status d = "executing"%string)) as [He|He].
  - rewrite He in Hs. unfold startable, status_is.
    apply rtc_inv in Hs as [<-|(y & H1 & H2)]; [done|].
    inversion H1; subst; (apply rtc_inv in H2 as [<-|(z & H3 & _)]; [done|inversion H3]).
  - rewrite bool_decide_false in Hf by done. by rewrite (Hf eq_refl).
Qed.

Lemma admits_grows c c' : rtc (admits order) c c' -> c.2 ⊆ c'.2 /\ (keyed c.2 -> keyed c'.2).
Proof.
  induction 1 as [|x y z (s & d & <- & Hd & ->) _ [IH1 IH2]]; [done|]. cbn in *.
  assert (Hn : deployments s !! d_command_id d = None) by apply Hd. split.
  - etrans; [|exact IH1]. by apply insert_subseteq.
  - intros Hk. apply IH2. intros id e He. apply lookup_insert_Some in He as [[<- <-]|[_ He]]; [done|by apply Hk].
Qed.

(** A step that changes one record, or none, and leaves the thread idle. *)
Lemma touched x s' :
  inv x ->
  (deployments s' = deployments (st x)
   \/ exists id d d', deployments (st x) !! id = Some d /\ deployments s' = <[id := d']> (deployments (st x)) /\ evolves d d') ->
  moves (deployments (st x)) (deployments s') /\ inv (mkSys s' Idle (started x)).
Proof.
  intros [Hk Ho Hst _] [E|(id & d & d' & Hd & E & He)].
  - rewrite E. split; [done|]. by split; cbn; rewrite ?E.
  - assert (Hm : moves (deployments (st x)) (deployments s')) by (rewrite E; by eapply moves_insert).
    split; [done|]. split; cbn; [rewrite E; by eapply keyed_insert, evolves_order|done| |done].
    intros i Hi. destruct (Hst i Hi) as (di & Hdi & Hn). destruct (Hm i di Hdi) as (d2 & Hd2 & He2).
    exists d2. split; [done|by eapply evolves_not_startable].
Qed.

(** The two ends of an execution. *)
Lemma ended x s' id :
  inv x -> (exists d, deployments (st x) !! id = Some d /\ d_status d = "executing"%string) ->
  (deployments s' = deployments (st x)
   \/ exists d d', deployments (st x) !! id = Some d /\ deployments s' = <[id := d']> (deployments (st x))
        /\ same_order d d' /\ status_step "executing" (d_status d')) ->
  moves (deployments (st x)) (deployments s') /\ inv (mkSys s' Idle (started x)).
Proof.
  intros Hi (d0 & Hd0 & Hs0) H. apply touched; [done|]. destruct H as [H|(d & d' & Hd & E & Ho & Hs)]; [by left|].
  right. exists id, d, d'. split_and!; [done|done|]. simplify_eq. by apply executing_evolves.
Qed.

(** An execution begins. *)
Lemma begun x s' id d d' :
  inv x -> deployments (st x) !! id = Some d -> deployments s' = <[id := d']> (deployments (st x)) ->
  startable d = true -> same_order d d' -> d_status d' = "executing"%string ->
  moves (deployments (st x)) (deployments s') /\ inv (mkSys s' (Running id d') (started x ++ [id])).
Proof.
  intros Hi Hd E Hs Ho Hs'.
  assert (He : evolves d d') by (apply startable_evolves; [done..|rewrite Hs'; by apply list_elem_of_In; left]).
  destruct (touched x s' Hi) as [Hm [Hk Hn Hst _]]; [right; by exists id, d, d'|]. cbn [st ph started] in *.
  assert (Hid : id ∉ started x).
  { intros Hin. destruct (inv_started x Hi id Hin) as (d1 & Hd1 & Hn1). simplify_eq. congruence. }
  split; [done|]. split; cbn; [done| | |exists d'; by rewrite E, lookup_insert_eq].
  - apply NoDup_app. split_and!; [done|set_solver|apply NoDup_singleton].
  - intros i. rewrite elem_of_app, list_elem_of_singleton. intros [Hin| ->]; [by apply Hst|].
    exists d'. rewrite E, lookup_insert_eq. split; [done|]. unfold startable, status_is. by rewrite Hs'.
Qed.

Lemma step_moves x y : inv x -> step x y -> moves (deployments (st x)) (deployments (st y)) /\ inv y.
Proof.
  intros Hi Hs. pose proof Hi as [Hk Ho Hst Hp].
  inversion Hs as [s p b w request|s b r|s b c n|s b now|s s' b id now ok Hb|s s' b id d now ok Hb
                  |s b id d now ok Ht|s s' b id d outs applied failure Ht Hw|s b id total applied failure now ok out];
    subst; cbn [st ph started] in *.
  - destruct (admits_grows _ _ (route_core order HMAC parse cfg ui w request s)) as [Hsub Hkey]. cbn in Hsub, Hkey.
    split; [by apply moves_subseteq|]. split; cbn; [by apply Hkey|done| |].
    + intros i Hin. destruct (Hst i Hin) as (d & Hd & Hn). exists d. split; [by eapply lookup_weaken|done].
    + destruct p; [done|..]; destruct Hp as (d' & Hd & He); exists d'; (split; [by eapply lookup_weaken|done]).
  - apply (touched _ _ Hi). left. apply refreshed_deployments.
  - apply (touched _ _ Hi). by left.
  - apply (touched _ _ Hi). by left.
  - apply (touched _ _ Hi). apply begin_effect in Hb as [E|(d & d' & Hd & E & Hs' & Hord & Hf)]; [by left|].
    right. exists id, d, d'. split_and!; [done|done|]. apply startable_evolves; [done..|].
    rewrite Hf. apply list_elem_of_In. cbn. tauto.
  - apply begin_effect in Hb as (d0 & Hd & E & Hs' & Hord & Hf). by apply (begun (mkSys s Idle b) s' id d0 d).
  - apply (ended _ _ id Hi Hp), empty_effect.
  - assert (E : core s' = core s).
    { change s' with (s', applied, failure).1.1. rewrite <- Hw. apply waves_core. }
    injection E as _ _ _ E. rewrite E. split; [done|]. by split; cbn; rewrite ?E.
  - apply (ended _ _ id Hi Hp), end_effect.
Qed.

(** C5. The deployments of a service that has been running: between any two moments of a run
    a deployment keeps what was ordered, its status only goes from waiting to executing
    and to completed or failed, and once it is finished its record never changes. No
    deployment is executed twice, whatever requests come between. *)
Theorem deployment_lifecycle x y :
  inv x -> rtc step x y ->
  NoDup (started y) /\ inv y
  /\ forall id d, deployments (st x) !! id = Some d ->
       exists d', deployments (st y) !! id = Some d' /\ same_order d d'
         /\ rtc status_step (d_status d) (d_status d') /\ (finished d = true -> d' = d).
Proof.
  intros Hi Hr. assert (H : moves (deployments (st x)) (deployments (st y)) /\ inv y).
  { induction Hr as [x|x y z Hs _ IH]; [done|]. destruct (step_moves x y Hi Hs) as [H1 H2]. destruct (IH H2) as [H3 H4].
    split; [by etrans|done]. }
  destruct H as [Hm Hy]. split_and!; [apply Hy|done|]. intros id d Hd. destruct (Hm id d Hd) as (d' & Hd' & [Ho Hs Hf]).
  by exists d'.
Qed.

(** ** Exclusive groups *)

(** Two live deployments of different artifacts that would run on the same hook, in the
    same stage and the same exclusive group. *)
Definition clash (d e : ExtDeploymentRecord) : bool :=
  live d && live e && negb (bool_decide (d_artifact_id d = d_artifact_id e))
  && bool_decide (d_stage d = d_stage e) && bool_decide (d_exclusive_group d = d_exclusive_group e)
  && hook_overlap (d_hook_scope d) (d_hook_scope e).
Definition exclusive (ds : gmap string ExtDeploymentRecord) : Prop :=
  forall i j d e, ds !! i = Some d -> ds !! j = Some e -> clash d e = false.

Lemma hook_overlap_sym l k : hook_overlap l k = hook_overlap k l.
Proof.
  apply eq_bool_prop_intro. unfold hook_overlap. split; intros H; apply Is_true_eq_true, existsb_exists in H as (x & Hx & Hk);
    apply bool_decide_eq_true in Hk; apply Is_true_eq_left, existsb_exists; exists x;
    (split; [by apply list_elem_of_In|by apply bool_decide_eq_true, list_elem_of_In]).
Qed.

Lemma clash_sym d e : clash d e = clash e d.
Proof.
  unfold clash. rewrite (hook_overlap_sym (d_hook_scope d)). rewrite (andb_comm (live d)).
  by rewrite (bool_decide_ext (d_artifact_id d = _) _ (symmetry_iff _ _ _)), (bool_decide_ext (d_stage d = _) _ (symmetry_iff _ _ _)),
    (bool_decide_ext (d_exclusive_group d = _) _ (symmetry_iff _ _ _)).
Qed.

Lemma clash_self d : clash d d = false.
Proof. unfold clash. rewrite (bool_decide_true (d_artifact_id d = _)) by done. cbn. by rewrite andb_false_r. Qed.

(** A deployment that has failed does not come back to life. *)
Lemma evolves_live d d' : evolves d d' -> live d' = true -> live d = true.
Proof.
  intros [_ _ Hf] Hl. destruct (live d) eqn:E; [done|]. rewrite Hf in Hl; [congruence|].
  unfold live in E. unfold finished, startable, status_is.
  apply andb_false_iff in E as [E|E]; apply negb_false_iff, bool_decide_eq_true in E; by rewrite E.
Qed.

Lemma evolves_clash d d' e : evolves d d' -> clash d' e = true -> clash d e = true.
Proof.
  intros He. pose proof (evolves_order _ _ He) as Ho. unfold same_order in Ho. destruct_and! Ho.
  unfold clash. rewrite !andb_true_iff. intros [[[[[L1 L2] L3] L4] L5] L6]. apply (evolves_live d) in L1; [|done].
  by replace (d_artifact_id d) with (d_artifact_id d'); replace (d_stage d) with (d_stage d');
    replace (d_exclusive_group d) with (d_exclusive_group d'); replace (d_hook_scope d) with (d_hook_scope d').
Qed.

Lemma exclusive_insert ds i d' :
  exclusive ds -> (forall j e, ds !! j = Some e -> j <> i -> clash d' e = false) -> exclusive (<[i := d']> ds).
Proof.
  intros Hx Hn j k d e Hj Hk. apply lookup_insert_Some in Hj as [[<- <-]|[Hij Hj]], Hk as [[<- <-]|[Hik Hk]].
  - apply clash_self.
  - by eapply Hn.
  - rewrite clash_sym. by eapply Hn.
  - by eapply Hx.
Qed.

Context (order_complete : forall ds kv, kv ∈ map_to_list ds -> kv ∈ order ds).

Lemma admitted_no_clash s d j e :
  admitted order s d -> deployments s !! j = Some e -> clash d e = false.
Proof.
  intros [Hnew (clock & auth & command & artifact & _ & Hok & Ha & ->)] He.
  unfold run_ext_precheck_locked in Hok. rewrite Ha in Hok. cbn [pre_ok] in Hok. apply negb_true_iff in Hok.
  match type of Hok with nonempty ?l = false => destruct l eqn:El; [|done] end. clear Hok.
  apply app_eq_nil in El as [_ El]. do 4 apply app_eq_nil in El as [_ El]. apply app_eq_nil in El as [El _].
  apply map_eq_nil in El.
  assert (Hc : conflicts (command_id command) (cmd_artifact_id command) artifact (j, e) = false).
  { apply not_true_iff_false. intros Hc. assert (Hin : In (j, e) []); [|done]. rewrite <- El. apply filter_In. split; [|done].
    apply list_elem_of_In, order_complete. by apply elem_of_map_to_list. }
  apply not_true_iff_false. intros Hcl. apply not_true_iff_false in Hc. apply Hc. unfold clash in Hcl. cbn in Hcl.
  unfold conflicts. cbn. rewrite !andb_true_iff in *. destruct Hcl as [[[[[L1 L2] L3] L4] L5] L6]. split_and!; try done.
  - apply negb_true_iff, bool_decide_eq_false. intros ->. cbn in Hnew. congruence.
  - apply negb_true_iff, bool_decide_eq_false in L3. by apply negb_true_iff, bool_decide_eq_false.
  - apply bool_decide_eq_true in L4. by apply bool_decide_eq_true.
  - apply bool_decide_eq_true in L5. by apply bool_decide_eq_true.
Qed.

Lemma admits_exclusive c c' : rtc (admits order) c c' -> exclusive c.2 -> exclusive c'.2.
Proof.
  induction 1 as [|x y z (s & d & <- & Hd & ->) _ IH]; [done|]. intros Hx. apply IH. cbn in *.
  apply exclusive_insert; [done|]. intros j e He _. by eapply admitted_no_clash.
Qed.

Lemma moves_exclusive ds ds' :
  dom ds' ⊆ dom ds -> moves ds ds' -> exclusive ds -> exclusive ds'.
Proof.
  intros Hdom Hm Hx i j d' e' Hi Hj.
  assert (Hback : forall k r', ds' !! k = Some r' -> exists r, ds !! k = Some r /\ evolves r r').
  { intros k r' Hk. assert (Hin : k ∈ dom ds) by (apply Hdom, elem_of_dom; by exists r'). apply elem_of_dom in Hin as [r Hr].
    destruct (Hm k r Hr) as (r2 & Hr2 & He). exists r. by simplify_eq. }
  destruct (Hback i d' Hi) as (d & Hd & Ed). destruct (Hback j e' Hj) as (e & He & Ee).
  apply not_true_iff_false. intros Hc. apply (evolves_clash d) in Hc; [|done]. rewrite clash_sym in Hc.
  apply (evolves_clash e) in Hc; [|done]. rewrite clash_sym, (Hx i j d e) in Hc; done.
Qed.

(** A step is a request, or adds no deployment. *)
Lemma step_request_or_same x y :
  step x y -> rtc (admits order) (core (st x)) (core (st y)) \/ dom (deployments (st y)) ⊆ dom (deployments (st x)).
Proof.
  assert (Hdom : forall id d d' s s', deployments s !! id = Some d -> deployments s' = <[id := d']> (deployments s) ->
            dom (deployments s') ⊆ dom (deployments s)).
  { intros id d d' s s' Hd ->. rewrite dom_insert_L. apply elem_of_dom_2 in Hd. set_solver. }
  intros Hs. inversion Hs as [s p b w request|s b r|s b c n|s b now|s s' b id now ok Hb|s s' b id d now ok Hb
                  |s b id d now ok Ht|s s' b id d outs applied failure Ht Hw|s b id total applied failure now ok out];
    subst; cbn [st].
  - left. apply route_core.
  - right. by rewrite refreshed_deployments.
  - by right.
  - by right.
  - right. apply begin_effect in Hb as [->|(d & d' & Hd & E & _)]; [done|by eapply Hdom].
  - right. apply begin_effect in Hb as (d0 & Hd & E & _). by eapply Hdom.
  - right. destruct (empty_effect id now ok s) as [->|(d0 & d' & Hd & E & _)]; [done|by eapply Hdom].
  - left. replace (core s') with (core s); [apply rtc_refl|]. symmetry.
    change s' with (s', applied, failure).1.1. rewrite <- Hw. apply waves_core.
  - right. destruct (end_effect id now ok out total applied failure s) as [->|(d0 & d' & Hd & E & _)]; [done|by eapply Hdom].
Qed.

(** C20. No run of the service brings two live deployments of different artifacts together in
    one exclusive group on one hook and stage. *)
Theorem exclusive_groups_respected x y :
  inv x -> exclusive (deployments (st x)) -> rtc step x y -> exclusive (deployments (st y)).
Proof.
  intros Hi Hx Hr. induction Hr as [x|x y z Hs _ IH]; [done|]. destruct (step_moves x y Hi Hs) as [Hm Hy]. apply IH; [done|].
  destruct (step_request_or_same x y Hs) as [Hc|Hd].
  - exact (admits_exclusive _ _ Hc Hx).
  - by eapply moves_exclusive.
Qed.

End lifecycle.

(** ** The waves of a rollout *)

Section waves.
Context (HMAC : chars -> chars -> option (list Z)) (cfg : AdminConfig) (outs : nat -> Outside) (d : ExtDeploymentRecord).

Definition deploy_channel : string := redis_channel_prefix_ cfg +:+ "fanout:admin:ext:deploy".

(** A wave: its index, its percentage and its targets. *)
Definition wave : Type := nat * Z * list string.

(** The command of a wave, signed and published. *)
Definition carries (w : wave) (e : effect) : Prop :=
  let '(i, p, ids) := w in
  exists m s0 s1, e = Published deploy_channel m true
    /\ build_signed_admin_message HMAC cfg (wave_fields d ids i p false) (issued_at_ms (outs i)) (nonce_text (outs i)) s0 = (s1, Some m).

(** The targets of waves. *)
Definition reached (ws : list wave) : list string := concat (map snd ws).

(** The share of [total] a percentage stands for, rounded up. *)
Definition share (total p : Z) : Z := (total * p + 99) / 100.

(** Each wave brings the number of targets reached to its share. *)
Fixpoint sized (total done : Z) (ws : list wave) : Prop :=
  match ws with
  | [] => True
  | (_, p, ids) :: ws => ids <> [] /\ done + zlen ids = Z.min (share total p) total /\ sized total (done + zlen ids) ws
  end.

Definition lost (l : list effect) : Prop := l = [] \/ exists m, l = [Published deploy_channel m false].

Lemma publish_spec i p ids s s' ok :
  publish_ext_wave_command HMAC cfg (outs i) d ids i p false s = (s', ok) ->
  exists l, trace s' = trace s ++ l /\ if ok then exists e, l = [e] /\ carries (i, p, ids) e else lost l.
Proof.
  unfold publish_ext_wave_command. destruct (negb _); [intros H; injection H as <- <-; exists []; split; [by rewrite app_nil_r|by left]|].
  destruct (build_signed_admin_message _ _ _ _ _ _) as [s1 [m|]] eqn:E.
  - intros H. injection H as <- <-. exists [Published deploy_channel m (publish_ok (outs i))].
    assert (Ht : trace s1 = trace s).
    { unfold build_signed_admin_message in E. destruct (chars_of _); [done|].
      destruct (append_signature_fields _ _ _ _ _) as [signed [|]]; [|done]. by injection E as <- _. }
    split; [cbn; by rewrite Ht|]. destruct (publish_ok (outs i)).
    + eexists. split; [done|]. by exists m, (set_seq (u64 (request_seq_ s + 1)) s), s1.
    + right. by exists m.
  - intros H. injection H as <- <-. exists []. rewrite app_nil_r. split; [|by left].
    unfold build_signed_admin_message in E. destruct (chars_of _); [by injection E as <-|].
    destruct (append_signature_fields _ _ _ _ _) as [signed [|]]; [done|by injection E as <-].
Qed.

(** What a run of waves from [applied] on did. *)
Record rolled (targets : list string) (i : nat) (percents : list Z) (applied applied' : list string)
    (failure : option ExtPrecheckIssue) (s s' : AdminState) (ws : list wave) (es tail : list effect) : Prop := {
  rolled_applied : applied' = applied ++ reached ws;
  rolled_prefix : applied' `prefix_of` targets;
  rolled_trace : trace s' = trace s ++ es ++ tail;
  rolled_carried : Forall2 carries ws es;
  rolled_lost : lost tail /\ (failure = None -> tail = []);
  rolled_percents : Forall (fun w => (i <= w.1.1)%nat /\ percents !! (w.1.1 - i)%nat = Some w.1.2) ws;
  rolled_sized : sized (zlen targets) (zlen applied) ws;
  rolled_all : failure = None -> last percents = Some 100 -> applied' = targets;
}.

Lemma share_all n : 0 <= n -> Z.min (share n 100) n = n.
Proof. intros H. unfold share. rewrite Z.mul_comm. pose proof (Z.div_le_lower_bound (100 * n + 99) 100 n). lia. Qed.

Lemma prefix_all (l k : list string) : l `prefix_of` k -> zlen k <= zlen l -> l = k.
Proof.
  intros [r ->] H. rewrite length_app in H. destruct r; [by rewrite app_nil_r|]. cbn in H. lia.
Qed.

Lemma rolled_percents_cons i p ps ws :
  Forall (fun w : wave => (S i <= w.1.1)%nat /\ ps !! (w.1.1 - S i)%nat = Some w.1.2) ws ->
  Forall (fun w : wave => (i <= w.1.1)%nat /\ (p :: ps) !! (w.1.1 - i)%nat = Some w.1.2) ws.
Proof.
  intros H. eapply Forall_impl; [exact H|]. intros w [H1 H2]. split; [lia|]. by replace (w.1.1 - i)%nat with (S (w.1.1 - S i)) by lia.
Qed.

(** A wave with nothing to do. *)
Lemma rolled_skip targets i p ps applied applied' failure s s' ws es tail :
  wave_end (zlen targets) p (zlen applied) <= zlen applied -> applied `prefix_of` targets -> (ps = [] -> applied' = applied) ->
  rolled targets (S i) ps applied applied' failure s s' ws es tail ->
  rolled targets i (p :: ps) applied applied' failure s s' ws es tail.
Proof.
  intros Hend Hpre Hnil [A P T C L N S H]. split; try done; [by apply rolled_percents_cons|].
  intros Hf Hl. destruct ps as [|q ps]; [|by apply H].
  rewrite Hnil by done. cbn in Hl. injection Hl as ->. apply prefix_all; [done|].
  pose proof (share_all (zlen targets)). unfold wave_end in Hend. fold (share (zlen targets) 100) in Hend. lia.
Qed.

(** A wave that went out. *)
Lemma rolled_sent targets i p ps applied n applied' failure s s1 s' e ws es tail :
  let ids := take n (drop (length applied) targets) in
  wave_end (zlen targets) p (zlen applied) = zlen applied + Z.of_nat n -> (0 < n)%nat -> applied `prefix_of` targets ->
  (ps = [] -> applied' = applied ++ ids) ->
  trace s1 = trace s ++ [e] -> carries (i, p, ids) e ->
  rolled targets (S i) ps (applied ++ ids) applied' failure s1 s' ws es tail ->
  rolled targets i (p :: ps) applied applied' failure s s' ((i, p, ids) :: ws) (e :: es) tail.
Proof.
  intros ids Hend Hn [k ->] Hnil Ht He [A P T C L N S H].
  assert (Hlen : zlen ids = Z.of_nat n).
  { unfold ids. rewrite drop_app_length, length_take. unfold wave_end in Hend. rewrite length_app in Hend. lia. }
  split.
  - rewrite A. unfold reached. cbn [map concat snd]. by rewrite app_assoc.
  - done.
  - rewrite T, Ht. by rewrite <- !app_assoc.
  - by constructor.
  - done.
  - constructor; [|by apply rolled_percents_cons]. cbn. rewrite Nat.sub_diag. split; [lia|done].
  - cbn [sized]. rewrite (length_app applied ids), Nat2Z.inj_add in S. split_and!; [|unfold wave_end, share in *; lia|done].
    intros E. rewrite E in Hlen. cbn in Hlen. lia.
  - intros Hf Hl. destruct ps as [|q ps]; [|by apply H].
    cbn in Hl. injection Hl as ->. rewrite Hnil by done. apply prefix_all; [by rewrite <- Hnil|].
    rewrite (length_app applied ids), Nat2Z.inj_add, Hlen, <- Hend. unfold wave_end.
    pose proof (share_all (zlen (applied ++ k))). unfold share in *. lia.
Qed.

Lemma run_waves_rolled targets i percents applied s s' applied' failure :
  applied `prefix_of` targets ->
  run_waves HMAC cfg outs d targets i percents applied s = (s', applied', failure) ->
  exists ws es tail, rolled targets i percents applied applied' failure s s' ws es tail.
Proof.
  revert i applied s. induction percents as [|p ps IH]; intros i applied s Hpre H; cbn [run_waves] in H.
  { injection H as <- <- <-. exists [], [], []. split; try done; [by rewrite app_nil_r..|by split; [left|]]. }
  destruct (Z.leb_spec (wave_end (zlen targets) p (zlen applied)) (zlen applied)) as [Hend|Hend].
  { destruct (IH _ _ _ Hpre H) as (ws & es & tail & Hr). exists ws, es, tail. apply rolled_skip; try done.
    intros ->. by injection H as _ <- _. }
  destruct (_ && _).
  { injection H as <- <- <-. exists [], [], []. split; try done; [by rewrite app_nil_r..|by split; [left|]]. }
  set (n := Z.to_nat (wave_end (zlen targets) p (zlen applied) - zlen applied)) in *.
  destruct (publish_ext_wave_command _ _ _ _ _ _ _ _ _) as [s1 [|]] eqn:E; apply publish_spec in E as (l & Hl & Hok).
  - destruct Hok as (e & -> & He). destruct Hpre as [k Hk].
    assert (Hpre' : applied ++ take n (drop (length applied) targets) `prefix_of` targets).
    { rewrite Hk, drop_app_length. exists (drop n k). by rewrite <- app_assoc, take_drop. }
    destruct (IH _ _ _ Hpre' H) as (ws & es & tail & Hr).
    exists ((i, p, take n (drop (length applied) targets)) :: ws), (e :: es), tail.
    eapply rolled_sent; [lia|lia|by exists k|intros ->; by injection H as _ <- _|exact Hl|done|].
    by destruct Hr; split.
  - injection H as <- <- <-. exists [], [], l. split; try done. by rewrite app_nil_r.
Qed.

End waves.

(** C14. The waves of a rollout with targets [targets] reach them in order, each one at most
    once and none that is not a target: the targets of the waves, one after the other, are
    the first ones of the list. Each wave that goes out is one signed command on the channel
    of deployments, it brings the number of targets reached to its percentage, rounded up,
    and never beyond. A failure stops the rollout, and without one the last wave of 100
    percent has reached every target. *)
Theorem rollout_reaches_targets HMAC cfg outs d targets percents s s' applied failure :
  run_waves HMAC cfg outs d targets 0 percents [] s = (s', applied, failure) ->
  exists ws es tail,
    applied = reached ws /\ applied `prefix_of` targets
    /\ trace s' = trace s ++ es ++ tail /\ Forall2 (carries HMAC cfg outs d) ws es /\ lost cfg tail
    /\ Forall (fun w => percents !! w.1.1 = Some w.1.2) ws /\ sized (zlen targets) 0 ws
    /\ (failure = None -> tail = [] /\ (last percents = Some 100 -> applied = targets)).
Proof.
  intros H. apply run_waves_rolled in H as (ws & es & tail & [A P T C [L1 L2] N S F]); [|by exists targets].
  exists ws, es, tail. split_and!; try done; [|by auto].
  eapply Forall_impl; [exact N|]. intros w [_ Hw]. by rewrite Nat.sub_0_r in Hw.
Qed.

(** ** Concrete deployments *)

(** A deployment in two waves, on two servers. *)
Definition sample_deployment (id artifact group status : string) : ExtDeploymentRecord :=
  mkExtDeployment id artifact "root" status EmptyString no_selector false (Some 1000) (mkRollout "canary_wave" [50; 100] true)
    "lua_script" ["on_join"%string] "observe" 5 group 2 0 [] 900 900.
Definition waiting : ExtDeploymentRecord := sample_deployment "cmd-1" "script:welcome" "greet" "pending".
Definition other : ExtDeploymentRecord := sample_deployment "cmd-0" "script:audit" "audit" "completed".
Definition sample_records : gmap string ExtDeploymentRecord := <["cmd-1"%string := waiting]> (<["cmd-0"%string := other]> ∅).
Definition sample_service : AdminState :=
  set_deployments sample_records
    (set_caches (mkCaches [sample_server "b" "us"; sample_server "a" "eu"] ∅ ∅ 0 sample_worker []) sample_state).
Definition sample_execution : Execution := mkExecution 1300 true true (fun _ => sample_outside) sample_outside.
Definition sample_after : AdminState := execute_ext_deployment toy_HMAC sample_config "cmd-1" 1200 sample_execution sample_service.
Definition no_http : HttpUrl -> option (Z * string) := fun _ => None.
Definition no_number : string -> option Z := fun _ => None.
Definition no_json : string -> option json := fun _ => None.

Lemma sample_lookup i d :
  deployments sample_service !! i = Some d -> (i = "cmd-1"%string /\ d = waiting) \/ (i = "cmd-0"%string /\ d = other).
Proof.
  change (deployments sample_service) with sample_records. unfold sample_records.
  rewrite !lookup_insert_Some, lookup_empty. naive_solver.
Qed.

Lemma sample_inv : inv (mkSys sample_service Idle []).
Proof.
  split; cbn; [|constructor|intros ? []%not_elem_of_nil|done].
  intros id d Hd. by apply sample_lookup in Hd as [[-> ->]|[-> ->]].
Qed.

Lemma deployment_lifecycle_witness :
  exists (b : list string) (d' : ExtDeploymentRecord), NoDup b /\ deployments sample_after !! "cmd-1"%string = Some d' /\ same_order waiting d'
    /\ rtc status_step "pending" (d_status d') /\ deployments sample_after !! "cmd-0"%string = Some other.
Proof.
  destruct (execute_steps toy_HMAC no_json map_to_list sample_config EmptyString no_http no_number
    "cmd-1" 1200 sample_execution sample_service []) as [b Hr].
  destruct (deployment_lifecycle toy_HMAC no_json map_to_list sample_config EmptyString no_http no_number
    _ _ sample_inv Hr) as (Hn & _ & Hall).
  destruct (Hall "cmd-1"%string waiting) as (d' & Hd' & Ho & Hs & _); [reflexivity|].
  destruct (Hall "cmd-0"%string other) as (o & Hd0 & _ & _ & Hf); [reflexivity|].
  exists b, d'. split_and!; [done|exact Hd'|done|done|]. rewrite (Hf eq_refl) in Hd0. exact Hd0.
Defined.

Lemma exclusive_groups_respected_witness : exclusive (deployments sample_service) /\ exclusive (deployments sample_after).
Proof.
  assert (Hx : exclusive (deployments sample_service)).
  { intros i j d e Hi Hj. apply sample_lookup in Hi as [[-> ->]|[-> ->]], Hj as [[-> ->]|[-> ->]]; vm_compute; reflexivity. }
  split; [done|].
  destruct (execute_steps toy_HMAC no_json map_to_list sample_config EmptyString no_http no_number
    "cmd-1" 1200 sample_execution sample_service []) as [b Hr].
  exact (exclusive_groups_respected toy_HMAC no_json map_to_list sample_config EmptyString no_http no_number
    (fun _ _ H => H) _ _ sample_inv Hx Hr).
Defined.

Lemma rollout_reaches_targets_witness :
  exists s' ws es,
    run_waves toy_HMAC sample_config (fun _ => sample_outside) waiting ["a"; "b"; "c"]%string 0 [50; 100] [] sample_state
    = (s', ["a"; "b"; "c"]%string, None)
    /\ reached ws = ["a"; "b"; "c"]%string /\ sized 3 0 ws /\ trace s' = trace sample_state ++ es
    /\ Forall2 (carries toy_HMAC sample_config (fun _ => sample_outside) waiting) ws es.
Proof.
  destruct (run_waves toy_HMAC sample_config (fun _ => sample_outside) waiting ["a"; "b"; "c"]%string 0 [50; 100] [] sample_state)
    as [[s' applied] failure] eqn:E.
  assert (Hf : failure = None) by (apply (f_equal snd) in E; by vm_compute in E).
  destruct (rollout_reaches_targets toy_HMAC sample_config _ _ _ _ _ _ _ _ E)
    as (ws & es & tail & Ha & _ & Ht & Hc & _ & _ & Hsz & Hall).
  destruct (Hall Hf) as [-> Hap]. rewrite app_nil_r in Ht. specialize (Hap eq_refl). subst.
  exists s', ws, es. split_and!; [by rewrite Hap|done|done|done|done].
Defined.

(** ** Where the code falls short *)

(** No server listens for deployments: a message on either channel is dropped without a
    trace, while the service counts its targets as reached. *)
Lemma deployments_reach_no_server HMAC prefix gwid rec rollback message now v :
  on_message HMAC prefix gwid rec
    (prefix +:+ (if rollback : bool then "fanout:admin:ext:rollback" else "fanout:admin:ext:deploy")) message now v = (v, [], None).
Proof.
  unfold on_message, find_channel, exact_channels. cbn [find fst]. rewrite !prefix_app, !bool_decide_app.
  destruct (negb _); [done|]. destruct (take_until _ _) as [from rest]. case_bool_decide; [done|]. by destruct rollback.
Qed.

(** A deployment that was executing when the service stopped is never taken up again, and
    still counts as live, so that it blocks its exclusive group. *)
Lemma executing_is_stuck HMAC cfg id now x s d :
  deployments s !! id = Some d -> d_status d = "executing"%string ->
  execute_ext_deployment HMAC cfg id now x s = s /\ due now d = false /\ live d = true.
Proof.
  intros Hd Hs. unfold execute_ext_deployment, begin_ext_deployment. fold (deployments s). rewrite Hd.
  unfold due, startable, status_is, live. rewrite Hs. done.
Qed.

(** The poller comes once in an interval of up to a minute, and the tolerance of the clock
    can be zero: a deployment submitted for immediate execution then fails. *)
Lemma immediate_deployment_fails cfg id now ok s d t :
  deployments s !! id = Some d -> startable d = true -> d_run_at_utc d = Some t ->
  u64 (t + ext_max_clock_skew_ms_ cfg) < now ->
  exists s' d', begin_ext_deployment cfg id now ok s = (s', None) /\ deployments s' !! id = Some d'
    /\ d_status d' = "failed"%string /\ d_status_reason d' = "clock_skew"%string.
Proof.
  intros Hd Hs Ht Hlt. unfold begin_ext_deployment. fold (deployments s). rewrite Hd, Hs, Ht. cbn [negb].
  rewrite (proj2 (Z.ltb_lt _ _) Hlt). eexists _, _. split; [done|]. rewrite save_deployments.
  split; [by apply lookup_insert_eq|done].
Qed.

(** Numbers beyond the width of a wave are cut before they are checked, and a negative time
    given as text is a time in the far future. *)
Lemma numbers_are_cut :
  wave_value (JUnsigned 4294967301) = inl 5
  /\ parse_run_at (JObject [("run_at_utc"%string, JString "-1")]) = inl (Some (2 ^ 64 - 1)).
Proof. split; vm_compute; reflexivity. Qed.
