(* ===== verification/AdminStoreProps.v ===== *)
(** The file of the deployments: what every run of the administration service writes into
    it is read back unchanged by the next start. *)

From stdpp Require Import sorting.
From S2P Require Import Prelude Text ChatText AdminAuth GatewayConfig InstanceRegistry HttpServer AppHost ChatAdmin AdminQuery AdminState AdminCommands AdminFanoutProps AdminExt AdminDeploy AdminViews AdminApp AdminAppProps AdminDeployProps.

(** A text the reader leaves alone, and one it keeps in a list. *)
Definition clean (s : string) : Prop := trim_ascii s = s.
Definition kept (s : string) : Prop := clean s /\ s <> EmptyString.

Lemma clean_trim s : clean (trim_ascii s).
Proof. apply trim_idem. Qed.

Definition kept_selector (sel : InstanceSelector) : Prop :=
  Forall kept (server_ids sel) /\ Forall kept (roles sel) /\ Forall kept (game_modes sel)
  /\ Forall kept (regions sel) /\ Forall kept (shards sel) /\ Forall kept (sel_tags sel).

Definition kept_rollout (r : ExtRolloutStrategy) : Prop :=
  to_lower_ascii (trim_ascii (rollout_type r)) = rollout_type r /\ waves r <> [] /\ Forall (fits 32) (waves r).

Definition kept_issue (i : ExtPrecheckIssue) : Prop := code i <> EmptyString \/ message i <> EmptyString.

(** A record the file keeps. *)
Record storable (d : ExtDeploymentRecord) : Prop := {
  st_id : kept (d_command_id d);
  st_artifact : clean (d_artifact_id d);
  st_actor : clean (d_actor d);
  st_status : ext_status_text (d_status d) = d_status d;
  st_reason : clean (d_status_reason d);
  st_selector : kept_selector (d_selector d);
  st_rollout : kept_rollout (d_rollout d);
  st_kind : clean (d_kind d);
  st_hooks : Forall kept (d_hook_scope d);
  st_stage : clean (d_stage d);
  st_priority : fits 32 (d_priority d);
  st_group : clean (d_exclusive_group d);
  st_issues : Forall kept_issue (d_issues d);
}.

(** ** Reading back *)

Lemma parse_kept l : Forall kept l -> parse_json_string_list (jstrings l) = l.
Proof.
  unfold jstrings, parse_json_string_list. induction 1 as [|s l [Hc Hn] _ IH]; [done|]. cbn.
  rewrite Hc, bool_decide_false by done. cbn. by rewrite IH.
Qed.

Lemma load_waves l : Forall (fits 32) l -> omap load_wave (map JUnsigned l) = l.
Proof. induction 1 as [|n l Hn _ IH]; [done|]. cbn. by rewrite wrap_id, IH. Qed.

Lemma load_issues l :
  Forall kept_issue l ->
  omap load_issue (map (fun i => JObject [("code"%string, JString (code i)); ("message"%string, JString (message i))]) l) = l.
Proof.
  induction 1 as [|[c m] l Hi _ IH]; [done|]. cbn [map omap list_omap]. rewrite IH.
  assert (E : load_issue (JObject [("code"%string, JString c); ("message"%string, JString m)])
              = if bool_decide (c = EmptyString) && bool_decide (m = EmptyString) then None else Some (mkIssue c m)) by reflexivity.
  cbn [code message]. rewrite E. destruct Hi as [Hi|Hi]; cbn in Hi.
  - by rewrite (bool_decide_false (c = _)).
  - by rewrite (bool_decide_false (m = _)), andb_false_r.
Qed.

Lemma load_selector_json sel : kept_selector sel -> load_selector (JObject [("selector"%string, selector_json sel)]) = sel.
Proof.
  intros (H1 & H2 & H3 & H4 & H5 & H6).
  transitivity (mkInstanceSelector (sel_all sel) (parse_json_string_list (jstrings (server_ids sel)))
    (parse_json_string_list (jstrings (roles sel))) (parse_json_string_list (jstrings (game_modes sel)))
    (parse_json_string_list (jstrings (regions sel))) (parse_json_string_list (jstrings (shards sel)))
    (parse_json_string_list (jstrings (sel_tags sel)))); [reflexivity|].
  rewrite !parse_kept by done. by destruct sel.
Qed.

Definition rollout_value (r : ExtRolloutStrategy) : json :=
  JObject [("rollback_on_failure"%string, JBool (rollback_on_failure r)); ("type"%string, JString (rollout_type r));
           ("waves"%string, JArray (map JUnsigned (waves r)))].

Lemma load_rollout_json r : kept_rollout r -> load_rollout (JObject [("rollout_strategy"%string, rollout_value r)]) = r.
Proof.
  intros (H1 & H2 & H3).
  transitivity (mkRollout (to_lower_ascii (trim_ascii (rollout_type r)))
    (if nonempty (omap load_wave (map JUnsigned (waves r))) then omap load_wave (map JUnsigned (waves r))
     else if bool_decide (to_lower_ascii (trim_ascii (rollout_type r)) = "canary_wave"%string) then [5; 25; 100] else [100])
    (rollback_on_failure r)); [reflexivity|].
  rewrite load_waves, H1 by done. destruct r as [t ws b]. cbn in *. by destruct ws.
Qed.

Lemma load_deployment_json d : storable d -> load_deployment (deployment_json d) = Some d.
Proof.
  intros H. destruct H as [[Hid Hne] Ha Hac Hst Hr Hsel Hroll Hk Hh Hsg Hp Hg Hi].
  transitivity (if bool_decide (trim_ascii (d_command_id d) = EmptyString) then None
    else Some (mkExtDeployment (trim_ascii (d_command_id d)) (trim_ascii (d_artifact_id d)) (trim_ascii (d_actor d))
      (ext_status_text (d_status d)) (trim_ascii (d_status_reason d))
      (load_selector (JObject [("selector"%string, selector_json (d_selector d))])) (d_selector_specified d)
      (load_run_at (JObject [("run_at_utc"%string, match d_run_at_utc d with Some t => JUnsigned t | None => JNull end)]))
      (load_rollout (JObject [("rollout_strategy"%string, rollout_value (d_rollout d))]))
      (trim_ascii (d_kind d)) (parse_json_string_list (jstrings (d_hook_scope d))) (trim_ascii (d_stage d))
      (u32 (d_priority d)) (trim_ascii (d_exclusive_group d)) (d_target_count d) (d_applied_targets d)
      (omap load_issue (map (fun i => JObject [("code"%string, JString (code i)); ("message"%string, JString (message i))]) (d_issues d)))
      (d_created_at_ms d) (d_updated_at_ms d))); [reflexivity|].
  unfold clean in *. rewrite Hid, bool_decide_false by done.
  rewrite load_selector_json, load_rollout_json, parse_kept, load_issues, wrap_id by done.
  replace (load_run_at _) with (d_run_at_utc d) by (by destruct (d_run_at_utc d)).
  rewrite Ha, Hac, Hst, Hr, Hk, Hsg, Hg. by destruct d.
Qed.

Lemma load_keyed (l : list (string * ExtDeploymentRecord)) (m : gmap string ExtDeploymentRecord) :
  Forall (fun kv => storable kv.2 /\ d_command_id kv.2 = kv.1) l ->
  fold_left (fun loaded d => <[d_command_id d := d]> loaded) (omap load_deployment (map (fun kv => deployment_json kv.2) l)) m
  = fold_left (fun loaded kv => <[kv.1 := kv.2]> loaded) l m.
Proof.
  intros H. revert m. induction H as [|[k d] l [Hs Hk] _ IH]; intros m; [done|]. cbn in Hs, Hk.
  cbn [map omap list_omap fold_left snd fst]. rewrite load_deployment_json by done. cbn [fold_left]. by rewrite IH, Hk.
Qed.

Lemma fold_insert_map (l : list (string * ExtDeploymentRecord)) (m : gmap string ExtDeploymentRecord) :
  NoDup l.*1 -> fold_left (fun loaded kv => <[kv.1 := kv.2]> loaded) l m = list_to_map l ∪ m.
Proof.
  revert m. induction l as [|[k d] l IH]; intros m Hn; cbn; [by rewrite (left_id_L ∅ (∪))|].
  apply NoDup_cons in Hn as [Hk Hn]. rewrite IH by done. rewrite <- insert_union_l, insert_union_r; [done|].
  by apply not_elem_of_list_to_map.
Qed.

(** Writing the deployments and reading them back. *)
Lemma load_store now ds parse dump s :
  parse (dump (store_json now ds)) = Some (store_json now ds) ->
  keyed ds -> map_Forall (fun _ d => storable d) ds ->
  deployments (load_ext_deployments_store parse (Some (dump (store_json now ds))) s) = ds.
Proof.
  intros Hp Hk Hs. unfold load_ext_deployments_store. rewrite Hp. cbn [store_json].
  set (l := merge_sort command_le (map_to_list ds)).
  assert (Hl : l ≡ₚ map_to_list ds) by apply merge_sort_Permutation.
  transitivity (load_items (map (fun kv => deployment_json kv.2) l)); [reflexivity|].
  unfold load_items. rewrite load_keyed.
  - rewrite fold_insert_map; [|rewrite Hl; apply NoDup_fst_map_to_list].
    rewrite (right_id_L ∅ (∪)), (list_to_map_proper l (map_to_list ds)); [apply list_to_map_to_list| |done].
    rewrite Hl. apply NoDup_fst_map_to_list.
  - rewrite Hl. apply Forall_forall. intros [k d] Hin. apply elem_of_map_to_list in Hin. split; [by apply (Hs k)|by apply Hk].
Qed.

(** ** What the service writes *)

Lemma list_kept node : Forall kept (parse_json_string_list node).
Proof.
  unfold parse_json_string_list. destruct node; try constructor.
  apply Forall_forall. intros s Hs. apply list_elem_of_In, filter_In in Hs as [Hs Hne].
  apply list_elem_of_In, list_elem_of_omap in Hs as (x & _ & Hx). destruct x; try done. injection Hx as <-.
  split; [apply clean_trim|]. by apply negb_true_iff, bool_decide_eq_false in Hne.
Qed.
Lemma jlist_kept key j : Forall kept (jlist key j).
Proof. unfold jlist. destruct (jfield key j); [apply list_kept|constructor]. Qed.
Lemma trimmed_clean key j : clean (trimmed key j).
Proof. unfold trimmed. destruct (jstring key j); [apply clean_trim|done]. Qed.

(** Lower case keeps the ends of a text. *)
Lemma tolower_space c : isspace (tolower c) = isspace c /\ tolower (tolower c) = tolower c.
Proof. destruct c as [[] [] [] [] [] [] [] []]; vm_compute; done. Qed.

Lemma chars_lower s : chars_of (to_lower_ascii s) = map tolower (chars_of s).
Proof. induction s as [|c s IH]; [done|]. cbn. f_equal. exact IH. Qed.

Lemma lower_idem s : to_lower_ascii (to_lower_ascii s) = to_lower_ascii s.
Proof. induction s as [|c s IH]; [done|]. cbn. f_equal; [apply tolower_space|exact IH]. Qed.

Lemma lower_trim_idem s : to_lower_ascii (trim_ascii (to_lower_ascii (trim_ascii s))) = to_lower_ascii (trim_ascii s).
Proof.
  destruct (trim_cases isspace s) as [[He|[(c & l & Hc & Hsp) (l' & c' & Hc' & Hsp')]] _].
  - unfold trim_ascii. by rewrite He.
  - fold (trim_ascii s) in *. unfold trim_ascii at 1. rewrite trim_edges_id; [apply lower_idem|].
    rewrite chars_lower. split.
    + exists (tolower c), (map tolower l). rewrite Hc. split; [done|]. by rewrite (proj1 (tolower_space c)).
    + exists (map tolower l'), (tolower c'). rewrite Hc', map_app. split; [done|]. by rewrite (proj1 (tolower_space c')).
Qed.

Lemma status_text_idem st : ext_status_text (ext_status_text st) = ext_status_text st.
Proof. unfold ext_status_text at 2 3. case_bool_decide as H; [unfold ext_status_text; by rewrite bool_decide_true|done]. Qed.

Lemma u32_waves l : Forall (fits 32) (omap load_wave l).
Proof.
  apply Forall_forall. intros n Hn. apply list_elem_of_omap in Hn as (j & _ & Hj).
  destruct j; try done; cbn in Hj; [destruct (0 <=? z); [|done]|]; injection Hj as <-; by apply wrap_fits.
Qed.

Lemma load_rollout_kept j : kept_rollout (load_rollout j).
Proof.
  assert (H100 : Forall (fits 32) [100]) by by_decide. unfold load_rollout, kept_rollout.
  assert (D : forall t ws b, to_lower_ascii (trim_ascii t) = t -> Forall (fits 32) ws ->
    let r := mkRollout t (if nonempty ws then ws else if bool_decide (t = "canary_wave"%string) then [5; 25; 100] else [100]) b in
    to_lower_ascii (trim_ascii (rollout_type r)) = rollout_type r /\ waves r <> [] /\ Forall (fits 32) (waves r)).
  { intros t ws b Ht Hw. cbn. split; [done|]. destruct ws; cbn; [|done]. case_bool_decide; (split; [done|]); by_decide. }
  destruct (jfield "rollout_strategy" j) as [[]|]; try (apply D; [done|exact H100]).
  apply D.
  - destruct (jstring _ _); [apply lower_trim_idem|done].
  - destruct (jfield "waves" _) as [[]|]; try exact H100. apply u32_waves.
Qed.

Lemma load_selector_kept j : kept_selector (load_selector j).
Proof.
  unfold load_selector. destruct (jfield "selector" j) as [[]|]; try (by repeat split; constructor).
  by repeat split; apply jlist_kept.
Qed.

(** Whatever the file holds, what is read from it is kept by it. *)
Lemma load_deployment_storable j d : load_deployment j = Some d -> storable d.
Proof.
  unfold load_deployment. destruct j; try done. destruct (jstring "command_id" _); [|done].
  case_bool_decide as Hid; [done|]. intros H. injection H as <-.
  split; cbn [d_command_id d_artifact_id d_actor d_status d_status_reason d_selector d_rollout d_kind d_hook_scope d_stage
              d_priority d_exclusive_group d_issues];
    try apply trimmed_clean; try apply jlist_kept.
  - split; [apply clean_trim|done].
  - destruct (jstring "status" (JObject members)); [apply status_text_idem|done].
  - apply load_selector_kept.
  - apply load_rollout_kept.
  - by apply wrap_fits.
  - match goal with |- Forall _ (match ?x with _ => _ end) => destruct x as [[]|] end; try constructor. apply Forall_forall. intros i Hi.
    apply list_elem_of_omap in Hi as (k & _ & Hk). unfold load_issue in Hk. destruct k; try done.
    cbv zeta in Hk. destruct (_ && _) eqn:E in Hk; [done|]. injection Hk as <-.
    apply andb_false_iff in E as [E|E]; apply bool_decide_eq_false in E; [by left|by right].
Qed.

(** *** Items, commands and new deployments *)

Record good_item (i : ExtArtifactInventoryItem) : Prop := {
  gi_kind : clean (kind i);
  gi_hooks : Forall kept (hook_scope i);
  gi_stage : clean (stage i);
  gi_priority : fits 32 (priority i);
  gi_group : clean (exclusive_group i);
}.

Lemma expected_clean f : clean (expected_kind f).
Proof. unfold expected_kind. destruct (plugin_stem f); [done|]. by destruct (script_stem f). Qed.

Lemma parse_good exists_file m : good_item (parse_ext_manifest_file exists_file m).
Proof.
  assert (Hun : forall issue, good_item (unreadable_item m issue)).
  { intros issue. split; cbn; [apply expected_clean|constructor|done|by_decide|done]. }
  unfold parse_ext_manifest_file. destruct (content m) as [[[]|]|]; try apply Hun.
  destruct (read_priority _) as [p pi] eqn:Hp. split; cbn [kind hook_scope stage priority exclusive_group].
  - assert (Hr : forall key, clean (match jstring key (JObject members) with Some s => trim_ascii s | None => EmptyString end)).
    { intros key. destruct (jstring key _); [apply clean_trim|done]. }
    pose proof (expected_clean (filename m)). repeat case_bool_decide; destruct (negb (is_ext_valid_kind _)); cbn; done || apply Hr.
  - apply jlist_kept.
  - destruct (jstring "stage" _); [apply clean_trim|done].
  - assert (H0 : fits 32 0) by by_decide. unfold read_priority in Hp.
    destruct (jfield "priority" (JObject members)) as [[]|]; try (destruct (0 <=? z)); injection Hp as <- _;
      exact H0 || by apply wrap_fits.
  - destruct (jstring "exclusive_group" _); [apply clean_trim|done].
Qed.

Lemma index_items_good n items index :
  Forall good_item items -> Forall good_item (index_items n items index).1.
Proof.
  intros H. revert n index. induction H as [|i items Hi _ IH]; intros n index; cbn; [constructor|].
  destruct (index !! artifact_id i).
  - specialize (IH (S n) index). destruct (index_items (S n) items index). constructor; [|done]. by destruct Hi; split.
  - specialize (IH (S n) (<[artifact_id i := n]> index)). destruct (index_items (S n) items _). by constructor.
Qed.

Lemma refresh_good exists_file manifests now s :
  Forall good_item (ext_inventory_cache_ (ext (refresh_ext_inventory_cache exists_file manifests now s))).
Proof.
  unfold refresh_ext_inventory_cache.
  pose proof (index_items_good 0 (map (parse_ext_manifest_file exists_file) manifests) ∅) as H.
  destruct (index_items _ _ _) as [items index]. apply H. apply Forall_forall. intros i Hi.
  apply list_elem_of_In, in_map_iff in Hi as (m & <- & _). apply parse_good.
Qed.

Record good_command (c : ExtCommandSpec) : Prop := {
  gc_id : kept (command_id c);
  gc_artifact : clean (cmd_artifact_id c);
  gc_selector : kept_selector (cmd_selector c);
  gc_rollout : kept_rollout (cmd_rollout c);
}.

Lemma wave_values_fit l vs : wave_values l = inl vs -> Forall (fits 32) vs.
Proof.
  revert vs. induction l as [|j l IH]; intros vs H; cbn in H; [injection H as <-; constructor|].
  destruct (wave_value j) as [v|] eqn:Ev; [|done]. destruct (wave_values l) as [ws|]; [|done]. injection H as <-.
  constructor; [|by apply IH]. unfold wave_value in Ev.
  destruct j; try done; cbn in Ev; [destruct (z <? 0); [done|]|];
    match type of Ev with (if ?b then _ else _) = _ => destruct b end; try done; injection Ev as <-; by apply wrap_fits.
Qed.

Lemma check_waves_kept rb vs r : Forall (fits 32) vs -> check_waves rb vs = inl r -> kept_rollout r.
Proof.
  intros Hv H. unfold check_waves in H. destruct (negb (is_sorted _)); [done|]. destruct (negb (no_adjacent _)); [done|].
  destruct (negb _); [done|]. injection H as <-. unfold kept_rollout. cbn [rollout_type waves]. split; [by vm_compute|].
  destruct vs; cbn; (split; [done|]); [by_decide|done].
Qed.

Lemma parse_rollout_kept j r : parse_rollout_strategy_json j = inl r -> kept_rollout r.
Proof.
  assert (Hd : forall rb, kept_rollout (mkRollout "all_at_once" [100] rb)).
  { intros rb. split; [by vm_compute|]. cbn. split; [done|by_decide]. }
  unfold parse_rollout_strategy_json. destruct (jpresent _ j) as [[]|]; try done; [|intros H; injection H as <-; apply Hd].
  destruct (match jfield "type" _ with Some _ => _ | None => _ end) as [type|]; [|done].
  destruct (match jfield "rollback_on_failure" _ with Some _ => _ | None => _ end) as [rb|]; [|done].
  case_bool_decide as Ht; [intros H; injection H as <-; subst; apply Hd|]. destruct (negb _); [done|].
  destruct (jfield "waves" _) as [[]|]; try (by apply check_waves_kept; constructor).
  destruct (wave_values l) eqn:E; [|done]. apply check_waves_kept. by eapply wave_values_fit.
Qed.

Lemma array_field_kept key j l : array_field key j = inl l -> Forall kept l.
Proof.
  unfold array_field. destruct (jfield key j) as [[]|]; try done; intros H; injection H as <-; [apply (list_kept (JArray _))|constructor].
Qed.

Lemma parse_selector_kept j sel b : parse_selector_json j = inl (sel, b) -> kept_selector sel.
Proof.
  unfold parse_selector_json. destruct (jpresent _ j) as [[]|]; try done; [|intros H; injection H as <- <-; by repeat split; constructor].
  unfold and_then. destruct (match jfield "all" _ with Some _ => _ | None => _ end); [|done].
  do 6 (match goal with |- context [array_field ?k ?j] =>
          let H := fresh "A" in destruct (array_field k j) eqn:H; [apply array_field_kept in H|done] end).
  intros H. injection H as <- <-. by repeat split.
Qed.

Lemma parse_command_good parse request later c : parse_ext_command_request parse request later = inl c -> good_command c.
Proof.
  unfold parse_ext_command_request. case_bool_decide; [done|]. destruct (negb _); [done|].
  destruct (parse (body request)) as [[]|]; try done.
  destruct (jstring "command_id" _) as [id|]; [|done]. destruct (jstring "artifact_id" _) as [art|]; [|done].
  destruct (_ || _) eqn:Ene; [done|]. apply orb_false_iff in Ene as [Hid _]. apply bool_decide_eq_false in Hid.
  unfold and_then. destruct (parse_selector_json _) as [[sel b]|] eqn:Hsel; [|done].
  destruct (parse_run_at _) as [t|]; [|done]. destruct (later && _); [done|].
  destruct (parse_rollout_strategy_json _) as [r|] eqn:Hr; [|done]. intros Hc. injection Hc as <-.
  split; cbn; [split; [apply clean_trim|done]|apply clean_trim|by eapply parse_selector_kept|by eapply parse_rollout_kept].
Qed.

Lemma new_deployment_storable clock auth c i n : good_command c -> good_item i -> storable (new_deployment clock auth c i n).
Proof.
  intros [? ? ? ?] [? ? ? ? ?]. split; cbn; try done. apply clean_trim.
Qed.

(** ** Runs *)

Definition stocked (s : AdminState) : Prop :=
  Forall good_item (ext_inventory_cache_ (ext s)) /\ map_Forall (fun _ d => storable d) (deployments s).
Definition good_failure (i : ExtPrecheckIssue) : Prop := kept_issue i /\ clean (code i).
(** A failure the end of an execution will write down. *)
Definition stocked_sys (x : Sys) : Prop :=
  stocked (st x) /\ match ph x with Ending _ _ _ (Some i) => good_failure i | _ => True end.

Lemma admits_stocked order c c' :
  rtc (admits order) c c' ->
  Forall good_item c.1.1.2 /\ map_Forall (fun _ d => storable d) c.2 ->
  Forall good_item c'.1.1.2 /\ map_Forall (fun _ d => storable d) c'.2.
Proof.
  induction 1 as [|x y z (s & d & <- & [Hnew Hfrom] & ->) _ IH]; [done|]. intros [Hi Hs]. apply IH. cbn in *.
  split; [done|]. apply map_Forall_insert_2; [|done].
  destruct Hfrom as (clock & auth & c & i & Hc & _ & Hf & ->). apply new_deployment_storable.
  - destruct Hc as (parse & request & later & c0 & Hp & Hc). apply parse_command_good in Hp.
    destruct Hc as [->|[t ->]]; [done|]. by destruct Hp.
  - unfold find_ext_inventory_item_locked in Hf. destruct (ext_inventory_index_ (ext s) !! _); [|done].
    by eapply Forall_lookup_1.
Qed.

Lemma storable_with_status st r now iss d :
  storable d -> ext_status_text st = st -> clean r -> Forall kept_issue iss -> storable (with_status st r now iss d).
Proof. intros [] ? ? ?. split; cbn; try done. by apply Forall_app. Qed.
Lemma storable_with_targets t a d : storable d -> storable (with_targets t a d).
Proof. intros []. by split. Qed.

(** Saving keeps what it saves. *)
Lemma stocked_core s s' : core s' = core s -> stocked s -> stocked s'.
Proof. unfold stocked. intros E [H1 H2]. injection E as _ Ei _ Ed. unfold deployments in *. by rewrite Ei, Ed. Qed.
Lemma stocked_save ok s : stocked s -> stocked (save_ext_deployments_locked ok s).
Proof. apply stocked_core. by destruct ok. Qed.
Lemma stocked_set id d s : storable d -> stocked s -> stocked (set_deployment id d s).
Proof. intros Hd [H1 H2]. split; [done|]. by apply map_Forall_insert_2. Qed.

Lemma stocked_lookup s id d : stocked s -> ext_deployments_ (ext s) !! id = Some d -> storable d.
Proof. intros [_ H] Hd. by apply (H id). Qed.

Section runs.
Context (HMAC : chars -> chars -> option (list Z)) (parse : string -> option json).
Context (order : gmap string ExtDeploymentRecord -> list (string * ExtDeploymentRecord)).
Context (cfg : AdminConfig) (ui : string).
Context (http_get_response : HttpUrl -> option (Z * string)) (extract : string -> option Z).

Lemma begin_stocked id now ok s : stocked s -> stocked (begin_ext_deployment cfg id now ok s).1.
Proof.
  intros H. unfold begin_ext_deployment. destruct (ext_deployments_ (ext s) !! id) as [d|] eqn:Hd; [|done].
  pose proof (stocked_lookup _ _ _ H Hd) as Hsd. destruct (negb _); [done|]. destruct (match d_run_at_utc d with Some _ => _ | None => _ end);
    cbn [fst]; apply stocked_save; apply (stocked_set id); try done; apply storable_with_status; try done; [|apply Hsd].
  apply Forall_singleton. by left.
Qed.

Lemma empty_stocked id now ok s : stocked s -> stocked (end_without_targets id now ok s).
Proof.
  intros H. unfold end_without_targets. destruct (ext_deployments_ (ext s) !! id) as [d|] eqn:Hd; [|done].
  apply stocked_save. apply (stocked_set id); [|done]. apply storable_with_status; [by eapply stocked_lookup|done..|].
  apply Forall_singleton. by left.
Qed.

Lemma waves_failure outs d targets i percents applied s :
  match (run_waves HMAC cfg outs d targets i percents applied s).2 with Some f => good_failure f | None => True end.
Proof.
  revert i applied s. induction percents as [|p ps IH]; intros i applied s; cbn [run_waves]; [done|].
  destruct (_ <=? _); [apply IH|]. destruct (_ && _); [by split; [left|]|].
  destruct (publish_ext_wave_command _ _ _ _ _ _ _ _ _) as [s1 [|]]; [apply IH|]. by split; [left|].
Qed.

Lemma end_stocked id now ok out total applied failure s :
  stocked s -> match failure with Some f => good_failure f | None => True end ->
  stocked (end_ext_deployment HMAC cfg id now ok out total applied failure s).
Proof.
  intros H Hf. unfold end_ext_deployment. destruct (ext_deployments_ (ext s) !! id) as [d|] eqn:Hd; [|done].
  pose proof (stocked_lookup _ _ _ H Hd) as Hsd.
  destruct failure as [issue|].
  - destruct Hf as [Hi Hc]. apply stocked_save.
    assert (Hs : stocked (set_deployment id (with_status "failed" (code issue) now [issue] (with_targets total (zlen applied) d)) s)).
    { apply stocked_set; [|done]. apply storable_with_status; [by apply storable_with_targets|done|done|by constructor]. }
    destruct (_ && nonempty applied); [|exact Hs].
    match goal with |- context [publish_ext_wave_command ?h ?c ?o ?d ?t ?i ?p ?r ?s0] =>
      pose proof (publish_core HMAC cfg o d t i p r s0) as E; destruct (publish_ext_wave_command h c o d t i p r s0) as [s1 [|]] end;
      exact (stocked_core _ _ E Hs).
  - apply stocked_save, (stocked_set id); [|done].
    apply storable_with_status; [by apply storable_with_targets|done|done|constructor].
Qed.

Lemma step_stocked x y :
  step HMAC parse order cfg ui http_get_response extract x y -> stocked_sys x -> stocked_sys y.
Proof.
  intros Hs [H Hp]. inversion Hs as [s p b w request|s b r|s b c n|s b now|s s' b id now ok Hb|s s' b id d now ok Hb
                  |s b id d now ok Ht|s s' b id d outs applied failure Ht Hw|s b id total applied failure now ok out];
    subst; cbn [st ph] in *; (split; cbn [st ph]; [|try done]).
  - exact (admits_stocked order _ _ (route_core order HMAC parse cfg ui w request s) H).
  - split; [apply refresh_good|]. rewrite refreshed_deployments. apply H.
  - exact H.
  - exact H.
  - pose proof (begin_stocked id now ok s H) as Hy. by rewrite Hb in Hy.
  - pose proof (begin_stocked id now ok s H) as Hy. by rewrite Hb in Hy.
  - by apply empty_stocked.
  - pose proof (waves_core HMAC cfg outs d (ext_targets d (caches s)) 0 (waves (d_rollout d)) [] s) as E. rewrite Hw in E.
    exact (stocked_core _ _ E H).
  - pose proof (waves_failure outs d (ext_targets d (caches s)) 0 (waves (d_rollout d)) [] s) as E. by rewrite Hw in E.
  - by apply end_stocked.
Qed.

(** ** The start *)

Lemma load_items_good items :
  keyed (load_items items) /\ map_Forall (fun _ d => storable d) (load_items items).
Proof.
  unfold load_items.
  assert (H : forall l m, keyed m /\ map_Forall (fun _ d => storable d) m -> Forall storable l ->
            let m' := fold_left (fun loaded d => <[d_command_id d := d]> loaded) l m in
            keyed m' /\ map_Forall (fun _ d => storable d) m').
  { induction l as [|d l IH]; intros m [Hk Hm] Hl; [done|]. apply Forall_cons in Hl as [Hd Hl]. apply IH; [|done]. split.
    - intros i e He. apply lookup_insert_Some in He as [[<- <-]|[_ He]]; [done|by apply Hk].
    - by apply map_Forall_insert_2. }
  apply H; [split; [by intros ? ? ?|apply map_Forall_empty]|].
  apply Forall_forall. intros d Hd. apply list_elem_of_omap in Hd as (j & _ & Hj). by eapply load_deployment_storable.
Qed.

Lemma init_deployments client s : deployments (init_backends cfg client (init_dependencies s)) = deployments s.
Proof. unfold init_backends. by destruct (bool_decide _). Qed.

Lemma start_good client store r :
  inv (mkSys (start cfg parse client store r) Idle []) /\ stocked (start cfg parse client store r).
Proof.
  unfold start. cbv zeta. set (s0 := mkAdminState _ _ _ _ _ _ _ _ _).
  set (s1 := refresh_ext_inventory_cache _ _ _ _).
  assert (H1 : Forall good_item (ext_inventory_cache_ (ext s1))) by apply refresh_good.
  assert (D1 : deployments s1 = ∅).
  { unfold s1, refresh_ext_inventory_cache. destruct (index_items _ _ _). exact (init_deployments client s0). }
  clearbody s1. set (s2 := load_ext_deployments_store parse store s1).
  assert (H2 : Forall good_item (ext_inventory_cache_ (ext s2)) /\ keyed (deployments s2) /\ map_Forall (fun _ d => storable d) (deployments s2)).
  { assert (H0 : Forall good_item (ext_inventory_cache_ (ext s1)) /\ keyed (deployments s1) /\ map_Forall (fun _ d => storable d) (deployments s1)).
    { rewrite D1. split_and!; [done|by intros ? ? ?|apply map_Forall_empty]. }
    unfold s2, load_ext_deployments_store. destruct store as [text|]; [|done]. destruct (parse text) as [[]|]; try exact H0.
    destruct (jfield "deployments" _) as [[]|]; try exact H0. split; [exact H1|]. exact (load_items_good l). }
  destruct H2 as (Hi & Hk & Hm). split; [|by split]. split; cbn; [exact Hk|constructor|intros ? []%not_elem_of_nil|done].
Qed.

(** C11. Whatever happened since the start, with requests and executions in any order: the
    file the service writes, read by the next start, gives back the same deployments. The
    hypothesis is that the JSON library reads back the value it wrote. *)
Theorem restart_keeps_deployments client store r y dump now s0 :
  rtc (step HMAC parse order cfg ui http_get_response extract) (mkSys (start cfg parse client store r) Idle []) y ->
  let ds := deployments (st y) in
  parse (dump (store_json now ds)) = Some (store_json now ds) ->
  deployments (load_ext_deployments_store parse (Some (dump (store_json now ds))) s0) = ds.
Proof.
  intros Hr ds Hp. destruct (start_good client store r) as [Hinv Hst].
  assert (H : inv y /\ stocked_sys y).
  { assert (Hx : stocked_sys (mkSys (start cfg parse client store r) Idle [])) by done. revert Hinv Hx. clear Hst Hp.
    induction Hr as [x|x y z Hs _ IH]; [done|]. intros Hi Hx. apply IH; [|by eapply step_stocked].
    by apply (step_moves HMAC parse order cfg ui http_get_response extract x y Hi). }
  destruct H as [Hi [[_ Hs] _]]. apply load_store; [done|apply Hi|done].
Qed.

End runs.

(** A file with one deployment, read and written. *)
Definition one_record : gmap string ExtDeploymentRecord := {["cmd-1"%string := waiting]}.
Definition one_file : string -> option json := fun _ => Some (store_json 5 one_record).
Definition first_round : Round := mkRound None [] (fun _ => false) 900 (fun _ => sample_execution).

Lemma restart_keeps_deployments_witness :
  deployments (load_ext_deployments_store one_file (Some "file"%string) sample_state) !! "cmd-1"%string = Some waiting.
Proof.
  assert (E : deployments (start sample_config one_file (Some true) (Some "file"%string) first_round) = one_record)
    by (vm_compute; reflexivity).
  pose proof (restart_keeps_deployments toy_HMAC one_file map_to_list sample_config EmptyString no_http no_number
    (Some true) (Some "file"%string) first_round _ (fun _ => "file"%string) 5 sample_state (rtc_refl _ _)) as H.
  cbn [st] in H. rewrite E in H. rewrite (H eq_refl). reflexivity.
Defined.

(** ** Replacing the file *)

(** The save goes through a directory without the file: a crash between the two renames
    leaves only the backup, which the next start does not read. *)
Lemma crash_loses_file parse s :
  let fs : files := {["store"%string := "old"%string]} in
  exists f, f ∈ (save_file "store" "new" (mkFileAnswers true true true true) fs).1
    /\ f !! "store"%string = None /\ f !! "store.bak"%string = Some "old"%string
    /\ load_ext_deployments_store parse (f !! "store"%string) s = s.
Proof.
  intros fs. exists (list_to_map [("store.bak", "old"); ("store.tmp", "new")]%string).
  split_and!; [apply (list_elem_of_lookup_2 _ 3)|..]; vm_compute; reflexivity.
Qed.
