(* ===== verification/AdminViewsProps.v ===== *)
(** Theorems of the views of the administration service: following the cursors of a
    paged endpoint ends and, of a listing that stays the same, visits each entry once; and what rewriting the parameters of a request does
    to their values. *)

From stdpp Require Import sorting.
From S2P Require Import Prelude Text ChatText AdminAuth GatewayConfig InstanceRegistry HttpServer AppHost ChatAdmin AdminQuery AdminState AdminCommands Fanout AdminFanoutProps AdminExt AdminDeploy AdminViews.

(** The cursor of a page is read back as written. *)
Lemma parse_u32_to_string n : fits 32 n -> parse_u32_strict (to_string n) = Some n.
Proof.
  intros Hn. unfold parse_u32_strict, parse_u32. rewrite bool_decide_false by (apply to_string_nonempty, Hn).
  unfold to_string. rewrite stoull_decimal by (eapply fits_mono; [|exact Hn]; lia). destruct Hn as [H0 H1].
  rewrite bool_decide_true by done. cbn [negb orb]. destruct (Z.ltb_spec (2 ^ 32 - 1) n); [lia|]. by rewrite wrap_id.
Qed.

(** ** Paging *)

(** What a request meets: the clock, its number, Redis and the state of the service. *)
Record Moment := mkMoment { m_clock : Clock; m_rid : Z; m_redis : RedisView; m_state : AdminState }.

(** An endpoint that answers with a page of a listing.  [listing] is [None] when the request
    is refused before the page is cut; [rows] is the text of the items of a page. *)
Class Paged (A : Type) (handler : Moment -> QueryOptions -> M RouteResponse) := {
  listing : Moment -> option (list A);
  rows : Moment -> list A -> string;
  paged m options items :
    timeout_overridden options = false -> listing m = Some items ->
    exists s1 rest,
      handler m options (m_state m)
      = (c ← cursor_of (m_clock m) (m_rid m) options (zlen items);
         let '(page, e) := page_of options c items in
         mret (json_ok (m_clock m) (m_rid m)
           (jobj (("items"%string, rows m page) :: ("paging"%string, paging_json options e (zlen items)) :: rest)))) s1;
}.
Arguments listing {A} handler {_} m.
Arguments rows {A} handler {_} m page.
Arguments paged {A} handler {_} m options items.

Section endpoints.
Context (cfg : AdminConfig) (query_string : string).

(** Deployments, newest first. *)
#[export] Instance deployments_paged (order : gmap string ExtDeploymentRecord -> list (string * ExtDeploymentRecord)) :
  Paged ExtDeploymentRecord (fun m options => handle_ext_deployments (m_clock m) (m_rid m) order options query_string).
Proof.
  refine {|
    listing m := Some (List.filter (deployment_filter (parse_query_string query_string))
                         (merge_sort deployment_le (map snd (order (ext_deployments_ (ext (m_state m)))))));
    rows m page := jarr (map deployment_view page) |}.
  intros m options items _ [= <-]. by exists (m_state m), [].
Defined.

(** Instances, the selected ones when there is a selector. *)
#[export] Instance instances_paged :
  Paged InstanceRecord (fun m options => handle_instances cfg (m_clock m) (m_rid m) options query_string).
Proof.
  refine {|
    listing m :=
      let s := m_state m in
      if registry_backend_ s && redis_available_ s then
        match parse_instance_selector_query query_string with
        | inl sel => Some (if selector_specified sel then (select_instances (instances_cache_ (caches s)) (selector sel)).1
                           else instances_cache_ (caches s))
        | inr _ => None
        end
      else None;
    rows m page := jarr (map (fun it => jobj (instance_members it ++
      [("active_sessions"%string, jnum (active_sessions it)); ("last_heartbeat_ms"%string, jnum (last_heartbeat_ms it));
       instance_source cfg (instance_id it)])) page) |}.
  intros m options items Ht. cbv zeta. destruct (registry_backend_ _ && redis_available_ _) eqn:Eb; [|done].
  destruct (parse_instance_selector_query query_string) as [sel|e] eqn:Es; [|done]. intros [= <-].
  unfold handle_instances. cbv [mbind M_bind get guard]. rewrite Eb, Es. unfold stale. rewrite Ht. cbn [andb negb mret M_ret].
  destruct (selector_specified sel) eqn:Esel; cbv [mret M_ret modify].
  - destruct (select_instances _ _) as [chosen stats]. eexists _, _. reflexivity.
  - eexists _, _. reflexivity.
Defined.

(** Users, by name. *)
#[export] Instance users_paged :
  Paged string (fun m options => handle_users cfg (m_clock m) (m_rid m) (m_redis m) options query_string).
Proof.
  set (room := match parse_query_string query_string !! "room"%string with Some v => trim_ascii v | None => EmptyString end).
  set (users m :=
    if redis_ (m_state m) && redis_available_ (m_state m) then
      match (if bool_decide (room = EmptyString)
             then option_map (merge_sort string_le) (rv_scan_keys (m_redis m) "room:users:*")
             else Some ["room:users:" +:+ room]) with
      | Some keys => collect_users (m_redis m) keys ∅
      | None => None
      end
    else None).
  refine {|
    listing m := option_map (fun us => merge_sort string_le (map fst (map_to_list us))) (users m);
    rows m page := jarr (map (user_json cfg (instances_index_ (caches (m_state m))) (default ∅ (users m)))
      (zip page (lookup_backends (m_redis m) (map (fun user => session_prefix_ cfg +:+ user) page)))) |}.
  intros m options items _. destruct (users m) as [us|] eqn:Eu; [|done]. intros [= <-]. cbn [default from_option id].
  unfold users in Eu. destruct (redis_ _ && redis_available_ _) eqn:Eb; [|done].
  exists (m_state m), [("filter"%string, jobj [("room"%string, jnull_or room)]); ("updated_at_ms"%string, jnum (now (m_clock m)))].
  unfold handle_users. fold room. cbv [mbind M_bind get guard]. rewrite Eb. cbn [mret M_ret].
  destruct (bool_decide (room = EmptyString)).
  - destruct (rv_scan_keys _ _) as [keys|]; [|done]. cbn [option_map] in Eu. cbn [mret M_ret]. by rewrite Eu.
  - cbn [mret M_ret]. by rewrite Eu.
Defined.

End endpoints.

(** The button for the next page of the user interface (the functions [refreshInstances],
    [updateInstancesPaging] and the click on [instancesNext] of [admin_ui.html], and their
    counterparts for users): it asks with the next cursor of the last answer, and is
    disabled by an answer without one and by an error. *)
Section paging.
Context {A : Type} (handler : Moment -> QueryOptions -> M RouteResponse) `{!Paged A handler}.
Context (timeout lim : Z) (moments : nat -> Moment).

Definition asked (cur : string) : QueryOptions := mkQueryOptions timeout lim cur false true.

(** A page as it was shown: the cursor asked with, its items and the next cursor. *)
Record Shown := mkShown { shown_cursor : string; shown_page : list A; shown_next : option Z }.

(** Pressing the button until it is disabled, the requests being answered at [moments k],
    [moments (S k)] and so on: the pages shown and whether the last answer was a page.
    [None] if it is still enabled after [fuel] requests. *)
Fixpoint walk (fuel k : nat) (cur : string) : option (list Shown * bool) :=
  match fuel with
  | O => None
  | S fuel =>
      match listing handler (moments k) with
      | None => Some ([], false)
      | Some items =>
          match (cursor_of (m_clock (moments k)) (m_rid (moments k)) (asked cur) (zlen items) (m_state (moments k))).2 with
          | inl _ => Some ([], false)
          | inr c =>
              let '(page, e) := page_of (asked cur) c items in
              let next := next_cursor e (zlen items) in
              match next with
              | None => Some ([mkShown cur page next], true)
              | Some e =>
                  match walk fuel (S k) (to_string e) with
                  | Some (shown, ended) => Some (mkShown cur page next :: shown, ended)
                  | None => None
                  end
              end
          end
      end
  end.

Definition cursor_at (n : Z) (cur : string) : Prop := (n = 0 /\ cur = EmptyString) \/ cur = to_string n.

Lemma cursor_cases clock rid n cur total s :
  cursor_at n cur -> 0 <= n < 2 ^ 32 -> 0 <= total ->
  if total <? n then exists s' r, cursor_of clock rid (asked cur) total s = (s', inl r)
  else cursor_of clock rid (asked cur) total s = (s, inr n).
Proof.
  intros Hc Hn Ht. unfold cursor_of, asked. cbn [cursor]. destruct Hc as [[-> ->]| ->].
  - by destruct (Z.ltb_spec total 0); [lia|].
  - rewrite bool_decide_false by (apply to_string_nonempty; lia). rewrite parse_u32_to_string by (unfold fits; lia).
    destruct (Z.ltb_spec total n); [|done]. by eexists _, _.
Qed.

(** What the answer with a page says. *)
Definition answered (m : Moment) (sh : Shown) : Prop :=
  exists items s' rest, listing handler m = Some items
    /\ handler m (asked (shown_cursor sh)) (m_state m)
       = (s', inr (json_ok (m_clock m) (m_rid m)
           (jobj (("items"%string, rows handler m (shown_page sh))
                  :: ("paging"%string,
                       jobj [("limit"%string, jnum lim); ("cursor"%string, jnull_or (shown_cursor sh));
                             ("next_cursor"%string, match shown_next sh with
                                                    | Some e => quote +:+ jnum e +:+ quote | None => "null" end);
                             ("total"%string, jnum (zlen items))])
                  :: rest)))).

(** The part of [walk] that starts at the cursor [n]: it ends, every page is one the
    endpoint answered with, and of a listing that stays the same it shows the rest. *)
Record walked (k : nat) (n : Z) (shown : list Shown) (ended : bool) : Prop := {
  wk_answered : forall i sh, shown !! i = Some sh -> answered (moments (k + i)) sh /\ zlen (shown_page sh) <= lim;
  wk_all items : (forall i, (k <= i)%nat -> listing handler (moments i) = Some items) -> n <= zlen items ->
    ended = true /\ concat (map shown_page shown) = drop (Z.to_nat n) items;
}.

Lemma page_answered m cur n (items : list A) :
  cursor_at n cur -> 0 <= n < 2 ^ 32 -> n <= zlen items -> listing handler m = Some items ->
  let '(page, e) := page_of (asked cur) n items in answered m (mkShown cur page (next_cursor e (zlen items))).
Proof.
  intros Hc Hn Hle Hl. destruct (paged handler m (asked cur) items eq_refl Hl) as (s1 & rest & Hh).
  pose proof (cursor_cases (m_clock m) (m_rid m) n cur (zlen items) s1 Hc Hn ltac:(lia)) as Hcur.
  destruct (Z.ltb_spec (zlen items) n); [lia|]. cbv [mbind M_bind] in Hh. rewrite Hcur in Hh.
  destruct (page_of (asked cur) n items) as [page e]. exists items, s1, rest. split; [done|]. exact Hh.
Qed.

Lemma page_facts cur n (items page : list A) e :
  1 <= lim -> 0 <= n <= zlen items -> page_of (asked cur) n items = (page, e) ->
  zlen page <= lim /\ n <= e <= zlen items
  /\ match next_cursor e (zlen items) with
     | Some e' => e' = e /\ n < e < zlen items /\ page ++ drop (Z.to_nat e) items = drop (Z.to_nat n) items
     | None => page = drop (Z.to_nat n) items
     end.
Proof.
  intros Hlim Hn [= <- <-]. unfold next_cursor. cbn [limit asked]. set (k := Z.min (zlen items - n) lim).
  split; [rewrite length_take; lia|]. split; [lia|]. destruct (Z.ltb_spec (n + k) (zlen items)).
  - split; [done|]. split; [lia|]. rewrite <- (take_drop (Z.to_nat k) (drop (Z.to_nat n) items)) at 2. f_equal.
    rewrite drop_drop. f_equal. lia.
  - apply take_ge. rewrite length_drop. lia.
Qed.

Lemma walked_cons k n e sh shown ended items :
  listing handler (moments k) = Some items -> answered (moments k) sh -> zlen (shown_page sh) <= lim -> n <= e < zlen items ->
  shown_page sh ++ drop (Z.to_nat e) items = drop (Z.to_nat n) items ->
  walked (S k) e shown ended -> walked k n (sh :: shown) ended.
Proof.
  intros Hl Ha Hs He Hcat [H1 H2]. constructor.
  - intros [|i] sh' Hi; [injection Hi as <-; by rewrite Nat.add_0_r|]. specialize (H1 i sh' Hi).
    by replace (k + S i)%nat with (S k + i)%nat by lia.
  - intros items' Hfix Hn. assert (items' = items) as -> by (rewrite Hfix in Hl; [congruence|lia]).
    destruct (H2 items) as [-> Hrest]; [intros; apply Hfix; lia|lia|]. split; [done|]. cbn [map concat]. by rewrite Hrest.
Qed.

Lemma walk_from bound :
  1 <= lim -> bound < 2 ^ 32 -> (forall k items, listing handler (moments k) = Some items -> zlen items <= bound) ->
  forall fuel k n cur, cursor_at n cur -> 0 <= n <= bound -> bound - n < Z.of_nat fuel ->
  exists shown ended, walk fuel k cur = Some (shown, ended) /\ zlen shown <= bound - n + 1 /\ walked k n shown ended.
Proof.
  intros Hlim Hb Hbound fuel. induction fuel as [|fuel IH]; intros k n cur Hc Hn Hf; [lia|]. cbn [walk].
  assert (Hrefused : (forall items, listing handler (moments k) = Some items -> zlen items < n) ->
    exists shown ended, Some ([], false) = Some (shown, ended) /\ zlen shown <= bound - n + 1 /\ walked k n shown ended).
  { intros Hno. exists [], false. split_and!; [done|cbn; lia|]. constructor; [intros i sh Hi; by rewrite lookup_nil in Hi|].
    intros items Hfix Hle. specialize (Hno items (Hfix k ltac:(lia))). lia. }
  destruct (listing handler (moments k)) as [items|] eqn:El; [|by apply Hrefused].
  pose proof (Hbound k items El) as Hi.
  pose proof (cursor_cases (m_clock (moments k)) (m_rid (moments k)) n cur (zlen items) (m_state (moments k)) Hc ltac:(lia) ltac:(lia)) as Hcur.
  destruct (Z.ltb_spec (zlen items) n) as [Hlt|Hge].
  { destruct Hcur as (s' & r & ->). apply Hrefused. intros items' [= <-]. done. }
  rewrite Hcur. cbn [snd]. pose proof (page_answered (moments k) cur n items Hc ltac:(lia) ltac:(lia) El) as Ha.
  destruct (page_of (asked cur) n items) as [page e] eqn:Ep. destruct (page_facts cur n items page e Hlim ltac:(lia) Ep) as (Hp & He & Hnext).
  destruct (next_cursor e (zlen items)) as [e'|] eqn:En.
  - destruct Hnext as (-> & Hlt & Hcat). destruct (IH (S k) e (to_string e)) as (shown & ended & -> & Hlen & Hw); [by right|lia|lia|].
    eexists _, _. split; [reflexivity|]. split; [rewrite length_cons; lia|]. 
    apply (walked_cons k n e _ shown ended items); try done. lia.
  - eexists _, _. split; [reflexivity|]. split; [cbn; lia|]. constructor.
    + intros [|i] sh Hsh; [|done]. injection Hsh as <-. by rewrite Nat.add_0_r.
    + intros items' Hfix _. assert (items' = items) as -> by (rewrite Hfix in El; [congruence|lia]). split; [done|].
      cbn [map concat shown_page]. by rewrite app_nil_r.
Qed.

End paging.




(** Redis with one room, of the given members. *)
Definition room_of (members : list string) : RedisView :=
  mkRedisView (fun _ => Some None) (fun keys => Some (map (fun _ => None) keys))
    (fun _ => Some ["room:users:lobby"%string]) (fun _ => Some members).


(** Rewriting the parameters does not encode them: a text with an ampersand in a body is
    split, and its rest is taken for further parameters. *)
Lemma rewritten_body_injects_parameters :
  let request := mkHttpRequest "POST" "/api/v1/announcements" {["content-type"%string := "application/json"%string]} "{}" EmptyString in
  let body := JObject [("text"%string, JString "sale&server_ids=s-1&priority=critical")] in
  exists merged, merge_write_params_from_request (fun _ => Some body) EmptyString request = inl merged
    /\ parse_query_string merged !! "text"%string = Some "sale"%string
    /\ parse_query_string merged !! "server_ids"%string = Some "s-1"%string
    /\ parse_query_string merged !! "priority"%string = Some "critical"%string.
Proof.
  exists "text=sale&server_ids=s-1&priority=critical"%string. split_and!; vm_compute; reflexivity.
Qed.
