(* ===== verification/ChatInv.v ===== *)
(** Consistency of the chat service's tables.

    [chat_inv] relates rooms, names and authentication; every critical section preserves
    it, so it holds between any two sections of any number of jobs, whatever Redis, the
    database, the plugins and the clocks answer ([crit_all] and [chat_step]). *)

From S2P Require Import Prelude Text Utf8 ChatText ChatState ChatCore ChatViews ChatRooms ChatCommands ChatSend ChatAdmin.

(** ** The invariant *)

Abbreviation lobby := "lobby"%string.

Record rooms_inv (al : gset Z) (s : State) : Prop := {
  inv_member x r : x ∈ al -> s.(session_tables).(cur_room) !! x = Some r ->
    exists X, s.(room_tables).(rooms) !! r = Some X /\ x ∈ X;
  inv_lobby x r : s.(session_tables).(cur_room) !! x = Some r ->
    is_Some (s.(room_tables).(rooms) !! lobby);
  inv_room_name x r : s.(session_tables).(cur_room) !! x = Some r -> r <> EmptyString;
  inv_lobby_owner : s.(room_tables).(room_owners) !! lobby = None;
  inv_lobby_invites : s.(room_tables).(room_invites) !! lobby = None;
}.

Record users_inv (al : gset Z) (s : State) : Prop := {
  inv_named x n : x ∈ al -> s.(session_tables).(user) !! x = Some n ->
    exists X, s.(session_tables).(by_user) !! n = Some X /\ x ∈ X;
  inv_by_user n X x : s.(session_tables).(by_user) !! n = Some X -> x ∈ X ->
    s.(session_tables).(user) !! x = Some n;
  inv_authed x : x ∈ s.(session_tables).(authed) <-> is_Some (s.(session_tables).(user) !! x);
  inv_user_name x n : s.(session_tables).(user) !! x = Some n -> n <> EmptyString;
  inv_guest : s.(session_tables).(guest) ⊆ s.(session_tables).(authed);
}.

Record chat_inv (al : gset Z) (s : State) : Prop := {
  inv_rooms : rooms_inv al s;
  inv_users : users_inv al s;
  inv_placed x : x ∈ s.(session_tables).(authed) -> is_Some (s.(session_tables).(cur_room) !! x);
}.

(** ** Frames *)

Definition rooms_view (s : State) :=
  (s.(room_tables).(rooms), s.(room_tables).(room_owners), s.(room_tables).(room_invites),
   s.(session_tables).(cur_room)).

Definition users_view (s : State) :=
  (s.(session_tables).(user), s.(session_tables).(by_user), s.(session_tables).(authed),
   s.(session_tables).(guest)).

Lemma rooms_view_cur s s' : rooms_view s' = rooms_view s ->
  s'.(session_tables).(cur_room) = s.(session_tables).(cur_room).
Proof. unfold rooms_view. by intros [= _ _ _ ?]. Qed.

Lemma users_view_authed s s' : users_view s' = users_view s ->
  s'.(session_tables).(authed) = s.(session_tables).(authed).
Proof. unfold users_view. by intros [= _ _ ? _]. Qed.

Lemma users_view_user s s' : users_view s' = users_view s ->
  s'.(session_tables).(user) = s.(session_tables).(user).
Proof. unfold users_view. by intros [= ? _ _ _]. Qed.

Lemma rooms_inv_frame al s s' : rooms_view s' = rooms_view s -> rooms_inv al s -> rooms_inv al s'.
Proof.
  intros Hv [H1 H2 H3 H4 H5]. unfold rooms_view in Hv. injection Hv as E1 E2 E3 E4.
  split; rewrite ?E1, ?E2, ?E3, ?E4; done.
Qed.

Lemma users_inv_frame al s s' : users_view s' = users_view s -> users_inv al s -> users_inv al s'.
Proof.
  intros Hv [H1 H2 H3 H4 H5]. unfold users_view in Hv. injection Hv as E1 E2 E3 E4.
  split; rewrite ?E1, ?E2, ?E3, ?E4; done.
Qed.

(** A section that leaves the names alone and keeps everyone placed. *)
Lemma chat_inv_rooms al s s' :
  users_view s' = users_view s ->
  (forall x, is_Some (s.(session_tables).(cur_room) !! x) -> is_Some (s'.(session_tables).(cur_room) !! x)) ->
  rooms_inv al s' -> chat_inv al s -> chat_inv al s'.
Proof.
  intros Hv Hcur Hr [_ Hu Hp]. split; [done|by apply (users_inv_frame al s)|].
  intros x Hx. apply Hcur, Hp. by rewrite <- (users_view_authed _ _ Hv).
Qed.

Lemma chat_inv_frame al s s' :
  rooms_view s' = rooms_view s -> users_view s' = users_view s -> chat_inv al s -> chat_inv al s'.
Proof.
  intros Hr Hu HI. apply (chat_inv_rooms al s); [done| |by apply (rooms_inv_frame al s), HI|done].
  by rewrite (rooms_view_cur _ _ Hr).
Qed.

(** ** Programs whose sections satisfy a relation *)

Fixpoint crit_all (P : gset Z -> State -> State -> Prop) {A} (p : prog A) : Prop :=
  match p with
  | Ret _ | Raise => True
  | Crit f k => (forall al s, P al s (f al s).1.1) /\ forall r, crit_all P (k r)
  | Emit _ k => crit_all P k
  | Ask _ k => forall r, crit_all P (k r)
  end.

Section crit_all.
  Context (P : gset Z -> State -> State -> Prop).

Lemma crit_all_bind {A B} (p : prog A) (f : A -> prog B) :
  crit_all P p -> (forall a, crit_all P (f a)) -> crit_all P (p ≫= f).
Proof.
  intros Hp Hf. unfold mbind, prog_bind.
  induction p as [a| |R c k IH|os k IH|R q k IH]; simpl in *; naive_solver.
Qed.

Lemma crit_all_try {A} (p h : prog A) : crit_all P p -> crit_all P h -> crit_all P (try_catch p h).
Proof.
  intros Hp Hh. induction p as [a| |R c k IH|os k IH|R q k IH]; simpl in *; naive_solver.
Qed.

Lemma crit_all_crit {R : Set} (f : gset Z -> State -> State * list Out * R) :
  (forall al s, P al s (f al s).1.1) -> crit_all P (crit f).
Proof. done. Qed.

Lemma crit_all_call {R : Set} (q : query (res R)) : crit_all P (call q).
Proof. by intros []. Qed.

Lemma crit_all_when b p : crit_all P p -> crit_all P (when b p).
Proof. by destruct b. Qed.

Lemma crit_all_for_each {A} (f : A -> prog unit) l :
  (forall a, crit_all P (f a)) -> crit_all P (for_each f l).
Proof. intros Hf. induction l; simpl; [done|]. by apply crit_all_bind. Qed.
End crit_all.

(** Decomposes a program down to its critical sections. *)
Ltac crit_step :=
  match goal with
  | |- crit_all _ (mbind _ _) => apply crit_all_bind; [|intros ?]
  | |- crit_all _ (try_catch _ _) => apply crit_all_try
  | |- crit_all _ (when _ _) => apply crit_all_when
  | |- crit_all _ (for_each _ _) => apply crit_all_for_each; intros ?
  | |- crit_all _ (call _) => apply crit_all_call
  | |- crit_all _ (mret _) => exact Logic.I
  | |- crit_all _ (Ret _) => exact Logic.I
  | |- crit_all _ (emit _) => exact Logic.I
  | |- crit_all _ (ask _) => intros ?; exact Logic.I
  | |- crit_all _ (crit _) => let a := fresh "al" in let t := fresh "st" in apply crit_all_crit; intros a t
  | |- crit_all _ (if ?b then _ else _) => destruct b eqn:?
  | |- crit_all _ (let (_, _) := ?x in _) => destruct x as [??] eqn:?
  | |- crit_all _ (match ?x with _ => _ end) => destruct x eqn:?
  | |- crit_all _ (let _ := _ in _) => cbv zeta
  end.

(** ** Sections on rooms *)

Section sections.
  Context `{!ChatEnv}.

(** Every live member of a set is kept when expired ones are purged. *)
Lemma elem_of_collect al X x : x ∈ (collect_room_sessions al X).2 <-> x ∈ X /\ x ∈ al.
Proof.
  unfold collect_room_sessions; cbn [snd]. rewrite list_elem_of_filter, weak_order_perm, elem_of_elements.
  naive_solver.
Qed.

Lemma NoDup_collect al X : NoDup (collect_room_sessions al X).2.
Proof.
  unfold collect_room_sessions; cbn [snd]. apply NoDup_filter. rewrite weak_order_perm. apply NoDup_elements.
Qed.

Lemma collect_room_view al room s :
  users_view (collect_room al room s).1 = users_view s
  /\ (collect_room al room s).1.(session_tables) = s.(session_tables)
  /\ (collect_room al room s).1.(moderation) = s.(moderation)
  /\ (collect_room al room s).1.(settings) = s.(settings).
Proof. unfold collect_room. by destruct (_ !! room). Qed.

Lemma collect_user_view al u s :
  rooms_view (collect_user al u s).1 = rooms_view s
  /\ (collect_user al u s).1.(room_tables) = s.(room_tables)
  /\ (collect_user al u s).1.(moderation) = s.(moderation)
  /\ (collect_user al u s).1.(settings) = s.(settings).
Proof. unfold collect_user. by destruct (_ !! u). Qed.

(** The rooms change so that live sessions stay in their room. *)
Lemma rooms_inv_update al s s' :
  s'.(session_tables).(cur_room) = s.(session_tables).(cur_room) ->
  (forall r X x, x ∈ al -> s.(session_tables).(cur_room) !! x = Some r ->
     s.(room_tables).(rooms) !! r = Some X -> x ∈ X ->
     exists X', s'.(room_tables).(rooms) !! r = Some X' /\ x ∈ X') ->
  (is_Some (s.(room_tables).(rooms) !! lobby) -> is_Some (s'.(room_tables).(rooms) !! lobby)) ->
  s'.(room_tables).(room_owners) !! lobby = None ->
  s'.(room_tables).(room_invites) !! lobby = None ->
  rooms_inv al s -> rooms_inv al s'.
Proof.
  intros Hcur Hkeep Hlobby Hown Hinv HI. split; rewrite ?Hcur; [| | |done..].
  - intros x r Hx Hr. destruct (inv_member _ _ HI x r Hx Hr) as (X & HX & HxX). eauto.
  - intros x r Hr. apply Hlobby. by eapply inv_lobby.
  - intros x r. by apply HI.
Qed.

Lemma rooms_inv_weaken al al' s : al' ⊆ al -> rooms_inv al s -> rooms_inv al' s.
Proof. intros Hsub [H1 H2 H3 H4 H5]. split; [|done..]. intros x r Hx. apply H1. set_solver. Qed.

(** Only expired sessions, and [x], leave the set of a room. *)
Lemma rooms_inv_shrink al x room X' s :
  (forall X y, s.(room_tables).(rooms) !! room = Some X -> y ∈ X -> y ∈ al -> y <> x -> y ∈ X') ->
  rooms_inv (al ∖ {[x]}) s ->
  rooms_inv (al ∖ {[x]}) (set_rooms (<[room := X']> s.(room_tables).(rooms)) s).
Proof.
  intros Hkeep HI. apply (rooms_inv_update _ s); [done| | |apply HI|apply HI|done]; simpl.
  - intros r Y y Hy Hr HY HyY. destruct (decide (r = room)) as [->|Hne].
    + rewrite lookup_insert_eq. exists X'. apply elem_of_difference in Hy as [Hy Hyx].
      split; [done|]. apply (Hkeep Y); [done..|set_solver].
    + rewrite lookup_insert_ne by done. eauto.
  - intros Hs. destruct (decide (lobby = room)) as [<-|Hne];
      [by rewrite lookup_insert_eq|by rewrite lookup_insert_ne].
Qed.

(** A room without live sessions is dropped. *)
Lemma drop_room_inv al room s :
  room <> lobby ->
  (forall X y, s.(room_tables).(rooms) !! room = Some X -> y ∈ X -> y ∈ al ->
     s.(session_tables).(cur_room) !! y <> Some room) ->
  rooms_inv al s -> rooms_inv al (drop_room room s).
Proof.
  intros Hne Hempty HI. apply (rooms_inv_update _ s); simpl; [done| | | | |done].
  - intros r Y y Hy Hr HY HyY. destruct (decide (r = room)) as [->|Hrne]; [|rewrite lookup_delete_ne by done; eauto].
    by destruct (Hempty Y y HY HyY Hy).
  - by rewrite lookup_delete_ne.
  - rewrite lookup_delete_ne by done. apply HI.
  - rewrite lookup_delete_ne by done. apply HI.
Qed.

Lemma replace_owner_inv al al' room leaver X s :
  room <> lobby -> rooms_inv al s -> rooms_inv al (replace_owner al' room leaver X s).
Proof.
  intros Hne HI. unfold replace_owner. case_bool_decide; [|done]. cbv zeta. case_bool_decide; [|done].
  apply (rooms_inv_update _ s); [done|eauto|done| |apply HI|done]. simpl.
  rewrite lookup_insert_ne by done. apply HI.
Qed.

Lemma depart_room_inv al x room leaver s :
  rooms_inv (al ∖ {[x]}) s -> rooms_inv (al ∖ {[x]}) (depart_room al x room leaver s).1.
Proof.
  intros HI. unfold depart_room. destruct (s.(room_tables).(rooms) !! room) as [X|] eqn:HX; [|done].
  cbn [collect_room_sessions fst]. set (X' := X ∖ {[x]} ∩ al).
  assert (rooms_inv (al ∖ {[x]}) (set_rooms (<[room := X']> s.(room_tables).(rooms)) s)) as HI'.
  { apply rooms_inv_shrink; [|done]. intros Y y HY. simplify_eq. set_solver. }
  case_bool_decide as Hl; [done|]. destruct (decide (X' = ∅)) as [He|Hn]; cbn [fst].
  - apply drop_room_inv; [done| |done]. simpl. rewrite lookup_insert_eq. intros Y y [= <-]. set_solver.
  - by apply replace_owner_inv.
Qed.

(** Placing a session in a room. *)
Lemma place_inv al x room s :
  room <> EmptyString -> is_Some (s.(room_tables).(rooms) !! lobby) \/ room = lobby ->
  rooms_inv (al ∖ {[x]}) s ->
  rooms_inv al (insert_room x room (set_cur_room (<[x := room]> s.(session_tables).(cur_room)) s)).
Proof.
  intros Hne Hlobby HI. unfold insert_room. split; simpl; [| | |apply HI|apply HI].
  - intros y r Hy. destruct (decide (y = x)) as [->|Hyx].
    + rewrite lookup_insert_eq. intros [= <-]. rewrite lookup_insert_eq. eexists; split; [done|set_solver].
    + rewrite lookup_insert_ne by done. intros Hr.
      destruct (inv_member _ _ HI y r) as (X & HX & HyX); [set_solver|done|].
      destruct (decide (r = room)) as [->|Hrr].
      * rewrite lookup_insert_eq, HX. eexists; split; [done|]. simpl. set_solver.
      * rewrite lookup_insert_ne by done. eauto.
  - intros y r _. destruct (decide (lobby = room)) as [<-|Hlr]; [by rewrite lookup_insert_eq|].
    rewrite lookup_insert_ne by done. by destruct Hlobby.
  - intros y r. destruct (decide (y = x)) as [->|Hyx].
    + rewrite lookup_insert_eq. congruence.
    + rewrite lookup_insert_ne by done. apply HI.
Qed.

Lemma move_to_lobby_inv al x s : rooms_inv (al ∖ {[x]}) s -> rooms_inv al (move_to_lobby x s).
Proof. intros HI. apply place_inv; [done|by right|done]. Qed.

Lemma collect_room_inv al room s : rooms_inv al s -> rooms_inv al (collect_room al room s).1.
Proof.
  intros HI. unfold collect_room.
  destruct (s.(room_tables).(rooms) !! room) as [X|] eqn:HX; [|done].
  apply (rooms_inv_update al s); [done| | |apply HI|apply HI|done]; simpl.
  - intros r Y x Hx Hr HY HxY. destruct (decide (r = room)) as [->|Hne].
    + rewrite lookup_insert_eq. exists (X ∩ al). simplify_eq. set_solver.
    + rewrite lookup_insert_ne by done. eauto.
  - intros Hs. destruct (decide (lobby = room)) as [<-|Hne];
      [by rewrite lookup_insert_eq|by rewrite lookup_insert_ne].
Qed.

Lemma purge_rooms_inv al s : rooms_inv al s -> rooms_inv al (purge_rooms al s).
Proof.
  intros HI. apply (rooms_inv_update al s); [done| | |apply HI|apply HI|done]; simpl.
  - intros r X x Hx Hr HX HxX. exists (X ∩ al). split; [|set_solver].
    apply map_lookup_filter_Some. rewrite lookup_fmap, HX. simpl. split; [done|]. left. set_solver.
  - intros [X HX]. exists (X ∩ al). apply map_lookup_filter_Some. rewrite lookup_fmap, HX. simpl. auto.
Qed.

(** ** Sections on names *)

Lemma users_inv_weaken al al' s : al' ⊆ al -> users_inv al s -> users_inv al' s.
Proof. intros Hsub [H1 H2 H3 H4 H5]. split; [|done..]. intros x n Hx. apply H1. set_solver. Qed.

(** The entry of a name loses expired sessions, or sessions not called so. *)
Lemma users_inv_shrink al u X' s :
  (forall X y, s.(session_tables).(by_user) !! u = Some X -> y ∈ X' -> y ∈ X) ->
  (forall X y, s.(session_tables).(by_user) !! u = Some X -> y ∈ X -> y ∈ al -> y ∈ X') ->
  is_Some (s.(session_tables).(by_user) !! u) ->
  users_inv al s -> users_inv al (set_by_user (<[u := X']> s.(session_tables).(by_user)) s).
Proof.
  intros Hsub Hkeep [X HX] HI. split; simpl; [| |apply HI..].
  - intros x n Hx Hn. destruct (inv_named _ _ HI x n Hx Hn) as (Y & HY & HxY).
    destruct (decide (n = u)) as [->|Hne]; [|rewrite lookup_insert_ne by done; eauto].
    rewrite lookup_insert_eq. exists X'. split; [done|]. by apply (Hkeep Y).
  - intros n Y x. destruct (decide (n = u)) as [->|Hne].
    + rewrite lookup_insert_eq. intros [= <-] Hx. apply (inv_by_user _ _ HI u X); [done|]. by apply (Hsub X).
    + rewrite lookup_insert_ne by done. apply HI.
Qed.

Lemma collect_user_inv al u s : users_inv al s -> users_inv al (collect_user al u s).1.
Proof.
  intros HI. unfold collect_user. destruct (s.(session_tables).(by_user) !! u) as [X|] eqn:HX; [|done].
  apply users_inv_shrink; [..|done]; [| |by eexists]; intros Y y HY; simplify_eq; set_solver.
Qed.

Lemma any_live_spec al order X :
  let '(X', taken) := any_live al order X in
  (forall y, y ∈ X' -> y ∈ X) /\ (forall y, y ∈ X -> y ∈ al -> y ∈ X')
  /\ (taken = true <-> exists y, y ∈ order /\ y ∈ al).
Proof.
  revert X. induction order as [|p order IH]; intros X; simpl.
  { split_and!; [done|done|]. split; [done|]. intros (y & Hy & _). by apply elem_of_nil in Hy. }
  case_decide as Hp.
  { split_and!; [done|done|]. split; [|done]. intros _. exists p. set_solver. }
  specialize (IH (X ∖ {[p]})). destruct (any_live al order (X ∖ {[p]})) as [X' taken].
  destruct IH as (H1 & H2 & H3). split_and!; [set_solver|set_solver|]. rewrite H3. set_solver.
Qed.

Lemma ensure_unique_inv x desired names last al s :
  users_inv al s -> users_inv al (ensure_unique_section x desired names last al s).1.1.
Proof.
  intros HI. unfold ensure_unique_section. destruct (_ && _); [|done].
  destruct (s.(session_tables).(by_user) !! desired) as [X|] eqn:HX; [|done].
  pose proof (any_live_spec al (weak_order X) X) as Hs.
  destruct (any_live al (weak_order X) X) as [X' taken]. destruct Hs as (H1 & H2 & _).
  assert (users_inv al (set_by_user (<[desired := X']> s.(session_tables).(by_user)) s)).
  { apply users_inv_shrink; [| |by eexists|done]; intros Y y HY; simplify_eq; eauto. }
  by destruct taken.
Qed.

Lemma ensure_unique_rooms_view x desired names last al s :
  rooms_view (ensure_unique_section x desired names last al s).1.1 = rooms_view s.
Proof.
  unfold ensure_unique_section. destruct (_ && _); [|done]. destruct (_ !! _); [|done].
  destruct (any_live _ _ _) as [X' []]; done.
Qed.

(** A session takes a name. *)
Lemma users_inv_take al x n (s s' : State) :
  n <> EmptyString ->
  s'.(session_tables).(user) = <[x := n]> s.(session_tables).(user) ->
  (forall m X y, s'.(session_tables).(by_user) !! m = Some X -> y ∈ X ->
     (y = x /\ m = n) \/ (y <> x /\ exists Y, s.(session_tables).(by_user) !! m = Some Y /\ y ∈ Y)) ->
  (forall m Y y, s.(session_tables).(by_user) !! m = Some Y -> y ∈ Y -> y <> x ->
     exists X, s'.(session_tables).(by_user) !! m = Some X /\ y ∈ X) ->
  (exists X, s'.(session_tables).(by_user) !! n = Some X /\ x ∈ X) ->
  s'.(session_tables).(authed) = {[x]} ∪ s.(session_tables).(authed) ->
  s'.(session_tables).(guest) ⊆ {[x]} ∪ s.(session_tables).(guest) ->
  users_inv al s -> users_inv al s'.
Proof.
  intros Hn Huser Hsound Hkeep Hin Hauth Hguest HI. split; rewrite ?Huser.
  - intros y m Hy. destruct (decide (y = x)) as [->|Hyx].
    + rewrite lookup_insert_eq. by intros [= <-].
    + rewrite lookup_insert_ne by done. intros Hm.
      destruct (inv_named _ _ HI y m Hy Hm) as (Y & HY & HyY). eauto.
  - intros m X y HX Hy. destruct (Hsound m X y HX Hy) as [[-> ->]|(Hyx & Y & HY & HyY)].
    + by rewrite lookup_insert_eq.
    + rewrite lookup_insert_ne by done. by apply (inv_by_user _ _ HI m Y).
  - intros y. rewrite Hauth. destruct (decide (y = x)) as [->|Hyx].
    + rewrite lookup_insert_eq. split; [done|set_solver].
    + rewrite lookup_insert_ne by done. rewrite <- (inv_authed _ _ HI y). set_solver.
  - intros y m. destruct (decide (y = x)) as [->|Hyx].
    + rewrite lookup_insert_eq. by intros [= <-].
    + rewrite lookup_insert_ne by done. apply HI.
  - rewrite Hauth. pose proof (inv_guest _ _ HI). set_solver.
Qed.

(** The table of names after [erase_by_user]. *)
Lemma erase_by_user_lookup x u s m X :
  (erase_by_user x u s).(session_tables).(by_user) !! m = Some X <->
  exists Y, s.(session_tables).(by_user) !! m = Some Y /\ X = (if decide (m = u) then Y ∖ {[x]} else Y).
Proof.
  unfold erase_by_user. destruct (s.(session_tables).(by_user) !! u) as [Z|] eqn:HZ; simpl.
  - destruct (decide (m = u)) as [->|Hne].
    + rewrite lookup_insert_eq, HZ. naive_solver.
    + rewrite lookup_insert_ne by done. naive_solver.
  - destruct (decide (m = u)) as [->|Hne]; [|naive_solver]. rewrite HZ. naive_solver.
Qed.

Lemma erase_by_user_view x u s :
  rooms_view (erase_by_user x u s) = rooms_view s
  /\ (erase_by_user x u s).(session_tables).(user) = s.(session_tables).(user)
  /\ (erase_by_user x u s).(session_tables).(authed) = s.(session_tables).(authed)
  /\ (erase_by_user x u s).(session_tables).(guest) = s.(session_tables).(guest)
  /\ (erase_by_user x u s).(room_tables) = s.(room_tables)
  /\ (erase_by_user x u s).(moderation) = s.(moderation).
Proof. unfold erase_by_user. by destruct (_ !! u). Qed.

Lemma forget_name_spec al x s :
  users_inv al s ->
  (forall m X y, (forget_name x s).(session_tables).(by_user) !! m = Some X -> y ∈ X ->
     y <> x /\ exists Y, s.(session_tables).(by_user) !! m = Some Y /\ y ∈ Y)
  /\ (forall m Y y, s.(session_tables).(by_user) !! m = Some Y -> y ∈ Y -> y <> x ->
     exists X, (forget_name x s).(session_tables).(by_user) !! m = Some X /\ y ∈ X).
Proof.
  intros HI. unfold forget_name. destruct (s.(session_tables).(user) !! x) as [old|] eqn:Hold.
  - split.
    + intros m X y (Y & HY & ->)%erase_by_user_lookup Hy. split; [|exists Y; case_decide; set_solver].
      intros ->. case_decide as Hm; [set_solver|].
      pose proof (inv_by_user _ _ HI m Y x HY Hy). congruence.
    + intros m Y y HY Hy Hyx. exists (if decide (m = old) then Y ∖ {[x]} else Y). split.
      * apply erase_by_user_lookup. eauto.
      * case_decide; set_solver.
  - split; [|eauto]. intros m X y HX Hy. split; [|eauto]. intros ->.
    pose proof (inv_by_user _ _ HI m X x HX Hy). congruence.
Qed.

(** Two states agree on what the invariants mention. *)
Lemma forget_name_view x s :
  rooms_view (forget_name x s) = rooms_view s
  /\ (forget_name x s).(session_tables).(user) = s.(session_tables).(user)
  /\ (forget_name x s).(session_tables).(authed) = s.(session_tables).(authed)
  /\ (forget_name x s).(session_tables).(guest) = s.(session_tables).(guest).
Proof.
  unfold forget_name. destruct (_ !! x) as [old|]; [|done].
  destruct (erase_by_user_view x old s) as (? & ? & ? & ? & _). done.
Qed.

Lemma record_origin_view x n ip h s :
  rooms_view (record_origin x n ip h s) = rooms_view s /\ users_view (record_origin x n ip h s) = users_view s.
Proof. unfold record_origin. repeat case_bool_decide; done. Qed.

Lemma move_to_lobby_view x s s' :
  rooms_view s = rooms_view s' ->
  rooms_view (move_to_lobby x s) = rooms_view (move_to_lobby x s') /\ users_view (move_to_lobby x s) = users_view s.
Proof.
  intros Hv. split; [|done]. unfold rooms_view, move_to_lobby, insert_room in *. simpl.
  by injection Hv as -> -> -> ->.
Qed.

Lemma take_name_inv x n g al s :
  n <> EmptyString -> users_inv al s -> users_inv al (take_name x n g (forget_name x s)).
Proof.
  intros Hn Hu. destruct (forget_name_spec al x s Hu) as [Hsound Hkeep].
  destruct (forget_name_view x s) as (_ & Euser & Eauth & Eguest).
  apply (users_inv_take al x n s); try done; simpl; rewrite ?Euser, ?Eauth, ?Eguest; try done.
  - intros m X y. destruct (decide (m = n)) as [->|Hne].
    + rewrite lookup_insert_eq. intros [= <-] Hy. destruct (decide (y = x)) as [->|Hyx]; [by left|right].
      split; [done|]. destruct ((forget_name x s).(session_tables).(by_user) !! n) as [Y|] eqn:HY; [|set_solver].
      destruct (Hsound n Y y) as [_ ?]; [done|set_solver|done].
    + rewrite lookup_insert_ne by done. intros HX Hy. right. eauto.
  - intros m Y y HY Hy Hyx. destruct (Hkeep m Y y HY Hy Hyx) as (X & HX & HyX).
    destruct (decide (m = n)) as [->|Hne]; [|rewrite lookup_insert_ne by done; eauto].
    rewrite lookup_insert_eq, HX. eexists; split; [done|]. simpl. set_solver.
  - rewrite lookup_insert_eq. eexists; split; [done|set_solver].
  - destruct g; set_solver.
Qed.

Lemma login_section_inv x n g ip h al s :
  n <> EmptyString -> chat_inv al s -> chat_inv al (login_section x n g ip h al s).1.1.
Proof.
  intros Hn [Hr Hu Hp]. unfold login_section. cbn [fst].
  set (s1 := take_name x n g (forget_name x s)).
  assert (rooms_view s1 = rooms_view s) as Hv1 by apply (forget_name_view x s).
  destruct (record_origin_view x n ip h s1) as [Hv2 Hu2].
  destruct (move_to_lobby_view x (record_origin x n ip h s1) s) as [Hv3 Hu3]; [by rewrite Hv2|].
  split.
  - apply (rooms_inv_frame al (move_to_lobby x s)); [done|]. apply move_to_lobby_inv.
    apply (rooms_inv_weaken al); [set_solver|done].
  - apply (users_inv_frame al s1); [by rewrite Hu3, Hu2|]. by apply take_name_inv.
  - intros y. rewrite (rooms_view_cur _ _ Hv3), (users_view_authed _ _ Hu3), (users_view_authed _ _ Hu2).
    subst s1. simpl. destruct (forget_name_view x s) as (_ & _ & -> & _). intros Hy.
    destruct (decide (y = x)) as [->|Hyx]; [by rewrite lookup_insert_eq|].
    rewrite lookup_insert_ne by done. apply Hp. set_solver.
Qed.

(** ** Sections of the handlers *)

Lemma depart_room_view al x room leaver s :
  (depart_room al x room leaver s).1.(session_tables) = s.(session_tables)
  /\ (depart_room al x room leaver s).1.(moderation) = s.(moderation).
Proof.
  unfold depart_room. destruct (_ !! room); [|done]. cbn [collect_room_sessions fst].
  case_bool_decide; [done|]. case_decide; [done|]. unfold replace_owner.
  case_bool_decide; [|done]. cbv zeta. by case_bool_decide.
Qed.

Lemma enter_room_view x room sender invited s :
  (enter_room x room sender invited s).(session_tables)
  = (set_cur_room (<[x := room]> s.(session_tables).(cur_room)) s).(session_tables)
  /\ (enter_room x room sender invited s).(moderation) = s.(moderation).
Proof.
  unfold enter_room. case_bool_decide; [done|]. cbv zeta.
  destruct invited; repeat case_match; done.
Qed.

Lemma enter_room_inv al x room sender invited s :
  room <> EmptyString -> is_Some (s.(room_tables).(rooms) !! lobby) \/ room = lobby ->
  rooms_inv (al ∖ {[x]}) s -> rooms_inv al (enter_room x room sender invited s).
Proof.
  intros Hne Hlobby HI. unfold enter_room.
  pose proof (place_inv al x room s Hne Hlobby HI) as HP. cbv zeta.
  set (s1 := insert_room _ _ _) in *. case_bool_decide as Hl; [done|].
  set (s2 := match s1.(room_tables).(room_owners) !! room with Some _ => s1 | None => _ end).
  assert (rooms_inv al s2) as H2.
  { subst s2. destruct (s1.(room_tables).(room_owners) !! room); [done|]. case_bool_decide; [|done].
    apply (rooms_inv_update _ s1); [done|eauto|done| |apply HP|done]. simpl.
    rewrite lookup_insert_ne by done. apply HP. }
  clearbody s2. destruct invited; [|done]. destruct (s2.(room_tables).(room_invites) !! room); [|done].
  case_decide; (apply (rooms_inv_update _ s2); [done|eauto|done|apply H2| |done]); simpl.
  - rewrite lookup_delete_ne by done. apply H2.
  - rewrite lookup_insert_ne by done. apply H2.
Qed.

(** A session moves: out of its room, if that is another one, and into [room]. *)
Lemma move_inv al x room sender invited s s1 :
  x ∈ s.(session_tables).(authed) -> room <> EmptyString ->
  s1 = s \/ (exists old, s1 = (depart_room al x old sender s).1) ->
  chat_inv al s -> chat_inv al (enter_room x room sender invited s1).
Proof.
  intros Hx Hne Hs1 HI.
  assert (rooms_inv (al ∖ {[x]}) s1 /\ s1.(session_tables) = s.(session_tables)) as [Hr1 Est].
  { assert (rooms_inv (al ∖ {[x]}) s) by (apply (rooms_inv_weaken al); [set_solver|apply HI]).
    destruct Hs1 as [->|[old ->]]; [done|]. split; [by apply depart_room_inv|apply depart_room_view]. }
  destruct (enter_room_view x room sender invited s1) as [Ev _].
  destruct (inv_placed _ _ HI x Hx) as [r Hr].
  apply (chat_inv_rooms al s); [| | |done].
  - unfold users_view. rewrite Ev. simpl. by rewrite Est.
  - intros y. rewrite Ev. simpl. rewrite Est. destruct (decide (y = x)) as [->|Hyx];
      [by rewrite lookup_insert_eq|by rewrite lookup_insert_ne].
  - apply enter_room_inv; [done| |done]. left. apply (inv_lobby _ _ Hr1 x r). by rewrite Est.
Qed.

Lemma renew_password_view a room provided s s' h :
  renew_password a room provided s = Some (s', h) ->
  rooms_view s' = rooms_view s /\ s'.(session_tables) = s.(session_tables).
Proof. unfold renew_password. cbv zeta. intros. repeat case_match; by simplify_eq. Qed.

Lemma chat_inv_collect_room al room s : chat_inv al s -> chat_inv al (collect_room al room s).1.
Proof.
  intros HI. destruct (collect_room_view al room s) as (Hv & Est & _).
  apply (chat_inv_rooms al s); [done|by rewrite Est|apply collect_room_inv, HI|done].
Qed.

Lemma join_section_inv x room provided found hooks ts al s :
  room <> EmptyString ->
  chat_inv al s -> chat_inv al (join_section x room provided found hooks ts al s).1.1.
Proof.
  intros Hne HI. unfold join_section. case_bool_decide as Hx; cbn [negb]; [|done].
  destruct (maybe_handle_join_hook _ _ _) as [outs []]; [done|].
  set (s1 := match found with Some _ => _ | None => s end).
  assert (chat_inv al s1 /\ s1.(session_tables) = s.(session_tables)) as [HI1 E1].
  { subst s1. destruct found; [|done]. split; [|done]. by apply (chat_inv_frame al s). }
  clearbody s1. cbv zeta. destruct (denied _); [done|].
  destruct (renew_password _ _ _ _) as [[s2 h]|] eqn:Hpw; [|done].
  apply renew_password_view in Hpw as [Hv2 E2].
  assert (chat_inv al s2) as HI2.
  { apply (chat_inv_frame al s1); [done| |done]. unfold users_view. by rewrite E2. }
  set (s3 := match s2.(session_tables).(cur_room) !! x with Some _ => _ | None => s2 end).
  assert (s3 = s2 \/ (exists old, s3 = (depart_room al x old (name_or_guest s x) s2).1)) as H3.
  { subst s3. destruct (s2.(session_tables).(cur_room) !! x) as [old|]; [|by left]. case_bool_decide; eauto. }
  clearbody s3. set (s4 := enter_room _ _ _ _ s3).
  assert (chat_inv al s4) as HI4 by (apply (move_inv al x room _ _ s2); [by rewrite E2, E1|done..]).
  apply (chat_inv_collect_room al room) in HI4. by destruct (collect_room al room s4).
Qed.

Lemma leave_section_inv x requested hooks ts al s :
  chat_inv al s -> chat_inv al (leave_section x requested hooks ts al s).1.1.
Proof.
  intros HI. unfold leave_section. case_bool_decide as Hx; cbn [negb]; [|done].
  destruct (s.(session_tables).(cur_room) !! x) as [room|] eqn:Hroom; [|done].
  destruct (_ && _); [done|].
  destruct (s.(room_tables).(rooms) !! room) eqn:Hr.
  - cbv zeta. destruct (maybe_handle_leave_hook _ _ _) as [outs []]; [done|].
    destruct (depart_room al x room _ s) as [s1 targets] eqn:Hd. cbn [fst].
    change (move_to_lobby x s1) with (enter_room x lobby (name_or_guest s x) false s1).
    apply (move_inv al x lobby _ _ s); [done|done| |done]. right. exists room. by rewrite Hd.
  - cbn [fst]. change (move_to_lobby x s) with (enter_room x lobby EmptyString false s).
    apply (move_inv al x lobby _ _ s); [done|done|by left|done].
Qed.

Lemma forget_session_view x nm s :
  rooms_view (forget_session x nm s) = rooms_view s
  /\ (forget_session x nm s).(session_tables).(user) = delete x s.(session_tables).(user)
  /\ (forget_session x nm s).(session_tables).(by_user)
     = (if bool_decide (nm <> EmptyString) then erase_by_user x nm s else s).(session_tables).(by_user)
  /\ (forget_session x nm s).(session_tables).(authed) = s.(session_tables).(authed) ∖ {[x]}
  /\ (forget_session x nm s).(session_tables).(guest) = s.(session_tables).(guest) ∖ {[x]}.
Proof.
  unfold forget_session, erase_by_user. case_bool_decide; [|done]. simpl.
  by destruct (s.(session_tables).(by_user) !! nm).
Qed.

Lemma forget_session_inv al x s :
  users_inv al s -> users_inv al (forget_session x (name_or_guest s x) s).
Proof.
  intros HI. destruct (forget_session_view x (name_or_guest s x) s) as (_ & Eu & Eb & Ea & Eg).
  assert (Hname : forall n, s.(session_tables).(user) !! x = Some n -> name_or_guest s x = n /\ n <> EmptyString).
  { intros n Hn. split; [unfold name_or_guest; by rewrite Hn|by apply (inv_user_name _ _ HI x)]. }
  assert (Hb : forall m X, (forget_session x (name_or_guest s x) s).(session_tables).(by_user) !! m = Some X ->
    exists Y, s.(session_tables).(by_user) !! m = Some Y /\ X ⊆ Y /\ (forall y, y ∈ Y -> y <> x -> y ∈ X)
              /\ (x ∉ X)).
  { intros m X. rewrite Eb. case_bool_decide as Hne.
    - intros (Y & HY & ->)%erase_by_user_lookup. exists Y. split; [done|].
      case_decide as Hm; [set_solver|]. split_and!; [done|done|]. intros HxY.
      apply Hm. symmetry. apply Hname. by apply (inv_by_user _ _ HI m Y).
    - intros HX. exists X. split_and!; [done..|]. intros HxX.
      destruct (Hname m) as [? ?]; [by apply (inv_by_user _ _ HI m X)|congruence]. }
  assert (Hk : forall m Y, s.(session_tables).(by_user) !! m = Some Y ->
    is_Some ((forget_session x (name_or_guest s x) s).(session_tables).(by_user) !! m)).
  { intros m Y HY. rewrite Eb. case_bool_decide; [|by rewrite HY]. eexists. apply erase_by_user_lookup. eauto. }
  generalize dependent (forget_session x (name_or_guest s x) s). intros s' Eu Eb Ea Eg Hb Hk.
  split; rewrite ?Eu, ?Ea, ?Eg.
  - intros y n Hy. rewrite lookup_delete_Some. intros [Hyx Hn].
    destruct (inv_named _ _ HI y n Hy Hn) as (Y & HY & HyY). destruct (Hk n Y HY) as [X HX].
    exists X. split; [done|]. destruct (Hb n X HX) as (Y' & HY' & _ & Hin & _). simplify_eq. by apply Hin.
  - intros m X y HX Hy. destruct (Hb m X HX) as (Y & HY & Hsub & _ & HxX).
    rewrite lookup_delete_ne by set_solver. apply (inv_by_user _ _ HI m Y); [done|set_solver].
  - intros y. destruct (decide (y = x)) as [->|Hyx].
    + rewrite lookup_delete_eq, is_Some_alt. set_solver.
    + rewrite lookup_delete_ne by done. rewrite <- (inv_authed _ _ HI y). set_solver.
  - intros y n. rewrite lookup_delete_Some. intros [_ Hn]. by apply (inv_user_name _ _ HI y).
  - pose proof (inv_guest _ _ HI). set_solver.
Qed.

(** Without an entry in [cur_room] a session need not be in a room. *)
Lemma unplace_inv al x s :
  rooms_inv (al ∖ {[x]}) s ->
  rooms_inv al (set_cur_room (delete x s.(session_tables).(cur_room)) s).
Proof.
  intros HI. split; simpl; [| | |apply HI|apply HI].
  - intros y r Hy. rewrite lookup_delete_Some. intros [Hyx Hr]. apply (inv_member _ _ HI); [set_solver|done].
  - intros y r. rewrite lookup_delete_Some. intros [_ Hr]. by apply (inv_lobby _ _ HI y r).
  - intros y r. rewrite lookup_delete_Some. intros [_ Hr]. by apply (inv_room_name _ _ HI y r).
Qed.

Lemma close_section_inv x al s : chat_inv al s -> chat_inv al (close_section x al s).1.1.
Proof.
  intros [Hr Hu Hp]. unfold close_section. cbv zeta.
  destruct (forget_session_view x (name_or_guest s x) s) as (Hv & _ & _ & Ea & _).
  pose proof (forget_session_inv al x s Hu) as Hu1.
  generalize dependent (forget_session x (name_or_guest s x) s). intros s1 Hv Ea Hu1.
  apply (rooms_inv_frame al s s1) in Hr; [|done]. rewrite <- (rooms_view_cur _ _ Hv) in Hp.
  assert (Hp1 : forall y, y ∈ s1.(session_tables).(authed) -> y <> x /\ is_Some (s1.(session_tables).(cur_room) !! y)).
  { intros y. rewrite Ea. intros [Hy Hyx]%elem_of_difference. split; [set_solver|by apply Hp]. }
  destruct (s1.(session_tables).(cur_room) !! x) as [room|] eqn:Hroom.
  - pose proof (depart_room_inv al x room (name_or_guest s x) s1) as Hd.
    destruct (depart_room_view al x room (name_or_guest s x) s1) as [Est _].
    destruct (depart_room al x room (name_or_guest s x) s1) as [s2 targets]. cbn [fst] in *.
    split.
    + apply unplace_inv, Hd. apply (rooms_inv_weaken al); [set_solver|done].
    + apply (users_inv_frame al s1); [|done]. unfold users_view. simpl. by rewrite Est.
    + intros y Hy. cbn in Hy |- *. rewrite Est in Hy |- *. destruct (Hp1 y Hy) as [Hyx Hc].
      by rewrite lookup_delete_ne.
  - split; [done|done|]. intros y Hy. by apply Hp1.
Qed.
End sections.
