(* ===== verification/ChatConsistency.v ===== *)
(** Every job of the chat service keeps its tables consistent: the commands that move
    sessions, then the jobs, then all interleavings of all jobs. *)

From S2P Require Import Prelude Text Utf8 ChatText ChatState ChatCore ChatViews ChatRooms ChatCommands ChatSend ChatAdmin ChatInv.

Section jobs.
  Context `{!ChatEnv}.

(** ** Kicking and removing *)

Lemma kick_sessions_view target_room found order s kicked :
  let s' := (kick_sessions target_room found order s kicked).1 in
  users_view s' = users_view s /\ s'.(moderation) = s.(moderation) /\ s'.(settings) = s.(settings)
  /\ (forall x, is_Some (s.(session_tables).(cur_room) !! x) -> is_Some (s'.(session_tables).(cur_room) !! x)).
Proof.
  revert s kicked. induction order as [|c rest IH]; intros s kicked; [done|]. cbv zeta. cbn [kick_sessions].
  case_bool_decide; [|apply IH]. cbv zeta.
  set (s1 := if found then _ else s).
  assert (users_view s1 = users_view s /\ s1.(moderation) = s.(moderation) /\ s1.(settings) = s.(settings)
          /\ s1.(session_tables) = s.(session_tables)) as (H1 & H2 & H3 & H4) by (subst s1; by destruct found).
  clearbody s1. destruct (IH (move_to_lobby c s1) (kicked ++ [c])) as (I1 & I2 & I3 & I4).
  split_and!; [by rewrite I1|by rewrite I2|by rewrite I3|]. intros x Hx. apply I4. simpl. rewrite H4.
  destruct (decide (x = c)) as [->|Hne]; [by rewrite lookup_insert_eq|by rewrite lookup_insert_ne].
Qed.

Lemma kick_sessions_inv al target_room found order s kicked :
  target_room <> lobby ->
  rooms_inv al s -> rooms_inv al (kick_sessions target_room found order s kicked).1.
Proof.
  intros Hne. revert s kicked. induction order as [|c rest IH]; intros s kicked HI; [done|].
  cbn [kick_sessions]. case_bool_decide; [|by apply IH]. apply IH, move_to_lobby_inv.
  apply (rooms_inv_weaken al (al ∖ {[c]})) in HI; [|set_solver]. destruct found; [|done].
  apply (rooms_inv_update _ s); simpl; [done| | |apply HI|apply HI|done].
  - intros r X y Hy Hr HX HyX. destruct (decide (r = target_room)) as [->|Hr'].
    + rewrite lookup_alter_eq, HX. eexists; split; [done|set_solver].
    + rewrite lookup_alter_ne by done. eauto.
  - by rewrite lookup_alter_ne.
Qed.

Lemma kick_section_inv x target_user target_room al s :
  target_room <> lobby ->
  chat_inv al s -> chat_inv al (kick_section x target_user target_room al s).1.1.
Proof.
  intros Hne HI. unfold kick_section. destruct (controls_room _ _ _); [|done].
  destruct (s.(session_tables).(by_user) !! target_user) as [X|] eqn:HX; [|done]. cbv zeta.
  set (found := bool_decide _).
  destruct (collect_user_view al target_user s) as (Hv & _).
  assert (chat_inv al (collect_user al target_user s).1) as HI1.
  { split; [by apply (rooms_inv_frame al s), HI|by apply collect_user_inv, HI|].
    intros y. rewrite (rooms_view_cur _ _ Hv). unfold collect_user. rewrite HX. apply HI. }
  destruct (collect_user al target_user s) as [s1 candidates]. cbn [fst] in HI1. clear Hv.
  pose proof (kick_sessions_inv al target_room found candidates s1 [] Hne (inv_rooms _ _ HI1)) as HR2.
  destruct (kick_sessions_view target_room found candidates s1 []) as (Hu2 & _ & _ & Hc2).
  destruct (kick_sessions target_room found candidates s1 []) as [s2 kicked]. cbn [fst] in *.
  assert (chat_inv al s2) as HI2 by (by apply (chat_inv_rooms al s1)).
  destruct found; cbn [negb]; [|done].
  destruct (s2.(room_tables).(rooms) !! target_room) as [Y|] eqn:HY; [|done].
  case_decide as He.
  - apply (chat_inv_rooms al s2); [done|done| |done]. apply drop_room_inv; [done| |apply HI2].
    intros Z y HZ. simplify_eq. set_solver.
  - apply (chat_inv_rooms al s2); [| | |done].
    + unfold replace_owner. case_bool_decide; [|done]. cbv zeta. by case_bool_decide.
    + unfold replace_owner. case_bool_decide; [|done]. cbv zeta. by case_bool_decide.
    + by apply replace_owner_inv, HI2.
Qed.

(** The members of a room, moved to the lobby one by one. *)
Lemma move_all_spec al l s :
  rooms_inv al s ->
  let s' := foldl (fun s c => move_to_lobby c s) s l in
  rooms_inv al s' /\ users_view s' = users_view s /\ s'.(moderation) = s.(moderation)
  /\ (forall y, y ∈ l -> s'.(session_tables).(cur_room) !! y = Some lobby)
  /\ (forall y, y ∉ l -> s'.(session_tables).(cur_room) !! y = s.(session_tables).(cur_room) !! y)
  /\ (forall r, r <> lobby -> s'.(room_tables).(rooms) !! r = s.(room_tables).(rooms) !! r).
Proof.
  cbv zeta. revert s. induction l as [|c l IH]; intros s HI; cbn [foldl].
  { split_and!; [done|done|done|by intros y Hy%elem_of_nil|done|done]. }
  destruct (IH (move_to_lobby c s)) as (H1 & H2 & H3 & H4 & H5 & H6).
  { apply move_to_lobby_inv. apply (rooms_inv_weaken al); [set_solver|done]. }
  split_and!; [done|by rewrite H2|by rewrite H3| | |].
  - intros y Hy. destruct (decide (y ∈ l)) as [Hl|Hl]; [by apply H4|]. rewrite H5 by done.
    assert (y = c) as -> by set_solver. simpl. by rewrite lookup_insert_eq.
  - intros y Hy. rewrite H5 by set_solver. simpl. rewrite lookup_insert_ne; [done|set_solver].
  - intros r Hr. rewrite H6 by done. simpl. by rewrite lookup_insert_ne.
Qed.

Lemma remove_section_inv x target_room al s :
  target_room <> lobby ->
  chat_inv al s -> chat_inv al (remove_section x target_room al s).1.1.
Proof.
  intros Hne HI. unfold remove_section. destruct (controls_room _ _ _); [|done]. cbv zeta. cbn [fst].
  set (members := match s.(room_tables).(rooms) !! target_room with Some _ => _ | None => [] end).
  destruct (move_all_spec al members s (inv_rooms _ _ HI)) as (H1 & H2 & _ & H4 & H5 & H6).
  assert (Hm : forall X y, s.(room_tables).(rooms) !! target_room = Some X -> y ∈ X -> y ∈ al -> y ∈ members).
  { intros X y HX Hy Hal. subst members. rewrite HX. by apply elem_of_collect. }
  clearbody members. generalize dependent (foldl (fun s c => move_to_lobby c s) s members). intros s' H1 H2 H4 H5 H6.
  apply (chat_inv_rooms al s); [done| | |done].
  - intros y Hy. simpl. destruct (decide (y ∈ members)); [by rewrite H4|by rewrite H5].
  - apply drop_room_inv; [done| |done]. intros X y HX Hy Hal. rewrite H6 in HX by done.
    rewrite H4 by eauto. congruence.
Qed.

(** ** Jobs *)

Definition keeps_inv (al : gset Z) (s s' : State) : Prop := chat_inv al s -> chat_inv al s'.

Abbreviation safe := (crit_all keeps_inv).

(** Sections that touch neither the rooms nor the names. *)
Lemma keeps_frame al s s' :
  rooms_view s' = rooms_view s -> users_view s' = users_view s -> keeps_inv al s s'.
Proof. intros ?? HI. by apply (chat_inv_frame al s). Qed.

Lemma safe_reads {R : Set} (f : State -> R) : safe (reads f).
Proof. split; [|done]. intros al s. by apply keeps_frame. Qed.

Lemma safe_notice x text : safe (send_system_notice x text).
Proof. unfold send_system_notice. repeat crit_step. Qed.

Lemma safe_collect_room al room s : keeps_inv al s (collect_room al room s).1.
Proof. intros HI. by apply chat_inv_collect_room. Qed.

Lemma safe_collect_user al u s : keeps_inv al s (collect_user al u s).1.
Proof.
  intros HI. destruct (collect_user_view al u s) as (Hv & _).
  split; [by apply (rooms_inv_frame al s), HI|by apply collect_user_inv, HI|].
  intros y. rewrite (rooms_view_cur _ _ Hv). unfold collect_user. destruct (_ !! u); apply HI.
Qed.

Lemma safe_refresh room : safe (broadcast_refresh room).
Proof.
  unfold broadcast_refresh, broadcast_refresh_local. repeat crit_step.
  pose proof (safe_collect_room al room st). by destruct (collect_room al room st).
Qed.

Create HintDb safe discriminated.
#[local] Hint Resolve safe_reads safe_notice safe_refresh : safe.
#[local] Hint Extern 1 (crit_all _ (reads _)) => apply safe_reads : safe.

(** Reduces a job to its sections that are not frames. *)
Ltac safe_step := first [solve [eauto 2 with safe nocore] | crit_step].
Ltac safe_job := repeat safe_step; try (by apply keeps_frame).

Lemma safe_session_uuid x : safe (get_or_create_session_uuid x).
Proof.
  unfold get_or_create_session_uuid. safe_job.
  destruct (_ !! x); [|by apply keeps_frame]. case_bool_decide; by apply keeps_frame.
Qed.

Lemma safe_ensure_room_id room : safe (ensure_room_id_ci room).
Proof. unfold ensure_room_id_ci. safe_job. destruct (_ !! room); by apply keeps_frame. Qed.

Lemma safe_touch uid : safe (touch_user_presence uid).
Proof. unfold touch_user_presence. safe_job. Qed.

Lemma safe_write_behind type sid uid rid fields : safe (emit_write_behind_event type sid uid rid fields).
Proof. unfold emit_write_behind_event. safe_job. Qed.
#[local] Hint Resolve safe_session_uuid safe_ensure_room_id safe_touch safe_write_behind : safe.

Lemma safe_purge al s : keeps_inv al s (purge_rooms al s).
Proof. intros HI. apply (chat_inv_rooms al s); [done|done|apply purge_rooms_inv, HI|done]. Qed.

Lemma safe_redis_rooms : safe load_redis_rooms.
Proof.
  unfold load_redis_rooms, count_users. safe_job.
  generalize 0%nat. induction (default [] a) as [|r l IH]; intros i; [done|]. cbn [redis_room_infos].
  unfold count_users. safe_job.
Qed.
#[local] Hint Resolve safe_redis_rooms : safe.

Lemma safe_rooms_list x : safe (send_rooms_list x).
Proof. unfold send_rooms_list. safe_job. apply safe_purge. Qed.

Lemma safe_local_names room : safe (local_names room).
Proof.
  unfold local_names. safe_job. pose proof (safe_collect_room al room st). by destruct (collect_room al room st).
Qed.

Lemma safe_cache rid m : safe (cache_recent_message rid m).
Proof. unfold cache_recent_message. safe_job. Qed.
#[local] Hint Resolve safe_rooms_list safe_local_names safe_cache : safe.

Lemma safe_load_cache rid : safe (load_recent_messages_from_cache rid).
Proof.
  unfold load_recent_messages_from_cache. safe_job. generalize (z :: l). clear. intros ids.
  induction ids as [|id ids IH]; [done|]. cbn [load_each]. safe_job.
Qed.

Lemma safe_add_rows rid msgs acc : safe (add_rows rid msgs acc).
Proof. revert acc. induction msgs as [|m msgs IH]; intros acc; [done|]. cbn [add_rows]. safe_job. Qed.
#[local] Hint Resolve safe_load_cache safe_add_rows : safe.

Lemma safe_snapshot x current : safe (send_snapshot x current).
Proof.
  unfold send_snapshot, snapshot_users, recent_messages, db_history. safe_job. apply safe_purge.
Qed.
#[local] Hint Resolve safe_snapshot : safe.

Lemma member_scan_spec al x order X :
  (forall y, y ∈ (member_scan al x order X).1 -> y ∈ X)
  /\ (forall y, y ∈ X -> y ∈ al -> y ∈ (member_scan al x order X).1).
Proof.
  revert X. induction order as [|p order IH]; intros X; cbn [member_scan]; [done|].
  case_decide; [case_decide; [done|apply IH]|]. destruct (IH (X ∖ {[p]})) as [H1 H2]. split; set_solver.
Qed.

Lemma safe_room_users x target : safe (send_room_users x target).
Proof.
  unfold send_room_users. safe_job. intros HI. unfold room_users_section. cbv zeta.
  destruct (st.(room_tables).(rooms) !! target) as [X|] eqn:HX; [|done].
  pose proof (member_scan_spec al x (weak_order X) X) as [_ Hkeep].
  destruct (member_scan al x (weak_order X) X) as [X' m]. cbn [fst] in *.
  apply (chat_inv_rooms al st); [done|done| |done].
  apply (rooms_inv_update al st); [done| | |apply HI|apply HI|apply HI]; simpl.
  - intros r Y y Hy Hr HY HyY. destruct (decide (r = target)) as [->|Hne].
    + rewrite lookup_insert_eq. simplify_eq. eauto.
    + rewrite lookup_insert_ne by done. eauto.
  - intros Hs. destruct (decide (lobby = target)) as [<-|Hne];
      [by rewrite lookup_insert_eq|by rewrite lookup_insert_ne].
Qed.
#[local] Hint Resolve safe_room_users : safe.

Lemma safe_login_db x n ip : safe (login_db x n ip).
Proof. unfold login_db, obtain_uid, find_uid. safe_job. Qed.
#[local] Hint Resolve safe_login_db : safe.

Lemma ban_section_view now n ip h al s :
  rooms_view (ban_section now n ip h al s).1.1 = rooms_view s
  /\ users_view (ban_section now n ip h al s).1.1 = users_view s.
Proof.
  unfold ban_section. destruct (penalty_check _ _ _ _). case_bool_decide; [done|].
  destruct (expiry_check _ _ _ _). case_bool_decide; [done|]. by destruct (expiry_check _ _ _ _).
Qed.

Lemma keeps_ensure_unique x n names last al s :
  keeps_inv al s (ensure_unique_section x n names last al s).1.1.
Proof.
  intros HI. pose proof (ensure_unique_rooms_view x n names last al s) as Hv.
  pose proof (ensure_unique_inv x n names last al s (inv_users _ _ HI)) as Hu.
  split; [by apply (rooms_inv_frame al s), HI|done|].
  intros y. rewrite (rooms_view_cur _ _ Hv). unfold ensure_unique_section. destruct (_ && _); [|apply HI].
  destruct (_ !! n) as [X|]; [|apply HI]. destruct (any_live _ _ _) as [X' []]; apply HI.
Qed.

(** A login is admitted under a name. *)
Fixpoint returns {A} (Q : A -> Prop) (p : prog A) : Prop :=
  match p with
  | Ret a => Q a
  | Raise => True
  | Crit _ k => forall r, returns Q (k r)
  | Emit _ k => returns Q k
  | Ask _ k => forall r, returns Q (k r)
  end.

Lemma safe_bind_returns {A B} (Q : A -> Prop) (p : prog A) (f : A -> prog B) :
  safe p -> returns Q p -> (forall a, Q a -> safe (f a)) -> safe (p ≫= f).
Proof.
  intros Hp Hr Hf. unfold mbind, prog_bind.
  induction p as [a| |R c k IH|os k IH|R q k IH]; simpl in *; naive_solver.
Qed.

Lemma returns_bind {A B} (Q : B -> Prop) (p : prog A) (f : A -> prog B) :
  (forall a, returns Q (f a)) -> returns Q (p ≫= f).
Proof.
  intros Hf. unfold mbind, prog_bind. induction p as [a| |R c k IH|os k IH|R q k IH]; simpl in *; auto.
Qed.

Lemma login_admit_named x n token : returns (fun r => r <> Some EmptyString) (login_admit x n token).
Proof.
  unfold login_admit. do 2 (apply returns_bind; intros ?). case_bool_decide; [done|].
  do 2 (apply returns_bind; intros ?). destruct (maybe_handle_login_hook _ _ _) as [outs []];
    apply returns_bind; intros ?; [done|]. do 2 (apply returns_bind; intros ?). case_bool_decide; simpl; congruence.
Qed.

Lemma safe_login x n token : safe (login_job x n token).
Proof.
  unfold login_job. apply crit_all_bind; [apply safe_session_uuid|]. intros sid. cbv zeta.
  eapply safe_bind_returns; [|apply login_admit_named|].
  - unfold login_admit, ensure_unique_or_error. safe_job.
    + apply keeps_ensure_unique.
    + apply keeps_frame; apply ban_section_view.
  - intros [new_user|] Hne; [|done]. unfold login_finish. safe_job.
    intros HI. apply login_section_inv; [congruence|done].
Qed.

Lemma safe_join x requested password : safe (join_job x requested password).
Proof.
  unfold join_job, join_db, join_redis, forget_room. cbv zeta.
  assert (HR : (if bool_decide (requested = EmptyString) then lobby else requested) <> EmptyString)
    by (case_bool_decide; done).
  generalize dependent (if bool_decide (requested = EmptyString) then lobby else requested). intros room HR.
  safe_job.
  - intros HI. by apply join_section_inv.
  - intros HI. apply (chat_inv_rooms al st); [done|done| |done].
    apply (rooms_inv_update al st); [done|eauto|done| | |apply HI]; simpl.
    + apply lookup_delete_None. right. apply HI.
    + apply lookup_delete_None. right. apply HI.
Qed.

Lemma safe_leave x requested : safe (leave_job x requested).
Proof.
  unfold leave_job, leave_redis, forget_room. safe_job.
  - intros HI. by apply leave_section_inv.
  - intros HI. apply (chat_inv_rooms al st); [done|done| |done].
    apply (rooms_inv_update al st); [done|eauto|done| | |apply HI]; simpl.
    + apply lookup_delete_None. right. apply HI.
    + apply lookup_delete_None. right. apply HI.
  - pose proof (safe_collect_room al lobby st). by destruct (collect_room al lobby st).
Qed.

Lemma safe_close x : safe (close_job x).
Proof. unfold close_job, close_redis. safe_job. intros HI. by apply close_section_inv. Qed.

Lemma safe_whisper x u text : safe (dispatch_whisper x u text).
Proof.
  unfold dispatch_whisper, send_whisper_result. safe_job.
  pose proof (safe_collect_user al u st) as Hc. unfold whisper_section. by destruct (collect_user al u st).
Qed.

#[local] Hint Resolve safe_login safe_join safe_leave safe_close safe_whisper : safe.

(** ** Commands *)

Lemma ban_user_view u until why s :
  rooms_view (ban_user u until why s) = rooms_view s /\ users_view (ban_user u until why s) = users_view s.
Proof.
  unfold ban_user. cbv zeta. simpl. destruct (_ !! u) as [ip|].
  - case_bool_decide; simpl; destruct (_ !! u); [case_bool_decide|..]; done || case_bool_decide; done.
  - simpl. destruct (_ !! u); [case_bool_decide|]; done.
Qed.

Lemma unban_user_view u s :
  rooms_view (unban_user u s).1 = rooms_view s /\ users_view (unban_user u s).1 = users_view s.
Proof.
  unfold unban_user. cbv zeta. simpl. destruct (_ !! u) as [ip|].
  - case_bool_decide; simpl; destruct (_ !! u); [case_bool_decide|..]; done || case_bool_decide; done.
  - simpl. destruct (_ !! u); [case_bool_decide|]; done.
Qed.

Lemma keeps_ban_collect al u until why s :
  keeps_inv al s (collect_user al u (ban_user u until why s)).1.
Proof.
  intros HI. apply safe_collect_user. destruct (ban_user_view u until why s). by apply (chat_inv_frame al s).
Qed.

Lemma safe_disconnect text l : safe (disconnect_all text l).
Proof. unfold disconnect_all. safe_job. Qed.
#[local] Hint Resolve safe_disconnect : safe.

Lemma keeps_gate x now al s : keeps_inv al s (gate_section x now al s).1.1.
Proof.
  unfold gate_section. case_bool_decide; [by apply keeps_frame|].
  destruct (penalty_check _ _ _ _) as [mu muted]. simpl. destruct (penalty_check _ _ _ _) as [bu banned].
  do 2 (case_bool_decide; [by apply keeps_frame|]). unfold spam_check. cbv zeta.
  destruct (_ <=? _); [by apply keeps_frame|]. destruct (_ <=? _).
  - set (s1 := set_spam_violations _ _).
    assert (keeps_inv al s s1) as Hf by (by apply keeps_frame). clearbody s1.
    match goal with |- context [ban_user ?u ?t ?w s1] => pose proof (keeps_ban_collect al u t w s1) as Hb end.
    intros HI. apply Hf, Hb in HI. by destruct (collect_user _ _ _).
  - by apply keeps_frame.
Qed.

Lemma safe_message x room sender text : safe (broadcast_message x room sender text).
Proof.
  unfold broadcast_message, persist_message. safe_job.
  unfold chat_targets. pose proof (safe_collect_room al room st). by destruct (collect_room al room st).
Qed.
#[local] Hint Resolve safe_message : safe.

Lemma safe_plain x room text : safe (plain_message x room text).
Proof. unfold plain_message, refuse. safe_job. apply keeps_gate. Qed.

Lemma safe_refresh_job x : safe (handle_refresh x).
Proof. unfold handle_refresh. safe_job. Qed.

Lemma room_target_ok u r : bad_room_target u r = false -> r <> lobby.
Proof. unfold bad_room_target. intros H' ->. by rewrite (bool_decide_true (lobby = lobby)), orb_true_r in H'. Qed.

Lemma safe_invite x room args : safe (cmd_invite x room args).
Proof.
  unfold cmd_invite. safe_job. unfold invite_section. destruct (controls_room _ _ _); [|by apply keeps_frame].
  intros HI. apply (chat_inv_rooms al st); [done|done| |done].
  apply (rooms_inv_update al st); [done|eauto|done|apply HI| |apply HI]. simpl.
  rewrite lookup_insert_ne; [apply HI|]. by eapply room_target_ok.
Qed.

Lemma safe_kick x room args : safe (cmd_kick x room args).
Proof.
  unfold cmd_kick. safe_job. intros HI. apply kick_section_inv; [|done]. by eapply room_target_ok.
Qed.

Lemma safe_remove x room args : safe (cmd_room_remove x room args).
Proof.
  unfold cmd_room_remove. safe_job. intros HI. apply remove_section_inv; [|done].
  match goal with E : _ || _ = false |- _ => apply orb_false_iff in E as [_ E]; by apply bool_decide_eq_false in E end.
Qed.
#[local] Hint Resolve safe_plain safe_refresh_job safe_invite safe_kick safe_remove : safe.

Lemma safe_sanctions x args :
  safe (cmd_mute x args) /\ safe (cmd_unmute x args) /\ safe (cmd_ban x args) /\ safe (cmd_unban x args)
  /\ safe (cmd_gkick x args).
Proof.
  split_and!.
  - unfold cmd_mute. safe_job. unfold mute_section. destruct (is_admin_user _ _); by apply keeps_frame.
  - unfold cmd_unmute. safe_job. unfold unmute_section. destruct (is_admin_user _ _); by apply keeps_frame.
  - unfold cmd_ban. safe_job. unfold ban_command_section. destruct (is_admin_user _ _); [|by apply keeps_frame].
    match goal with |- context [ban_user ?u ?t ?w st] => pose proof (keeps_ban_collect al u t w st) as Hb end.
    by destruct (collect_user _ _ _).
  - unfold cmd_unban. safe_job. unfold unban_section. destruct (is_admin_user _ _); [|by apply keeps_frame].
    match goal with |- context [unban_user ?u st] => pose proof (unban_user_view u st) as [??] end.
    destruct (unban_user _ _). by apply keeps_frame.
  - unfold cmd_gkick. safe_job. unfold gkick_section. destruct (is_admin_user _ _); [|by apply keeps_frame].
    match goal with |- context [collect_user al ?u st] => pose proof (safe_collect_user al u st) as Hb end.
    by destruct (collect_user _ _ _).
Qed.

Lemma safe_blacklist x text : safe (cmd_blacklist x text).
Proof.
  unfold cmd_blacklist. safe_job. unfold blacklist_remove. destruct (_ !! _); by apply keeps_frame.
Qed.

Lemma safe_chat x requested text : safe (chat_job x requested text).
Proof.
  unfold chat_job, slash_command. safe_job.
  - unfold room_check. repeat case_match; by apply keeps_frame.
  - revert Heqo0. repeat case_match; intros; simplify_eq; unfold cmd_whisper, send_whisper_result;
      try (by safe_job); try (by apply safe_sanctions). apply safe_blacklist.
Qed.
#[local] Hint Resolve safe_chat : safe.

(** ** The administrator's jobs and the calls of scripts *)

Lemma keeps_moderate op now d why al l s affected :
  keeps_inv al s (foldl (moderate_one op now d why al) (s, affected) l).1.
Proof.
  revert s affected. induction l as [|u l IH]; intros s affected; [by apply keeps_frame|]. cbn [foldl].
  assert (keeps_inv al s (moderate_one op now d why al (s, affected) u).1) as H1.
  { unfold moderate_one, add_user_sessions. case_bool_decide; [by apply keeps_frame|].
    case_bool_decide; [by apply keeps_frame|]. case_bool_decide.
    { match goal with |- context [ban_user ?v ?t ?w s] => pose proof (keeps_ban_collect al v t w s) as Hb end.
      by destruct (collect_user _ _ _). }
    case_bool_decide; [apply keeps_frame; apply unban_user_view|].
    case_bool_decide; [|by apply keeps_frame].
    pose proof (safe_collect_user al u s). by destruct (collect_user _ _ _). }
  intros HI. destruct (moderate_one _ _ _ _ _ _ _) as [s1 a1]. by apply IH, H1.
Qed.

Lemma safe_moderation op targets d why : safe (moderation_job op targets d why).
Proof.
  unfold moderation_job. safe_job. unfold moderation_section.
  pose proof (keeps_moderate op a d why al targets st []) as Hm. by destruct (foldl _ _ _).
Qed.

Lemma keeps_disconnect targets al s : keeps_inv al s (disconnect_section targets al s).1.1.
Proof.
  unfold disconnect_section. set (step := fun acc u => _). cbv zeta.
  assert (forall l s affected, keeps_inv al s (foldl step (s, affected) l).1) as Hf.
  { clear s targets. induction l as [|u l IH]; intros s affected; [by apply keeps_frame|]. cbn [foldl].
    pose proof (safe_collect_user al u s) as Hc. intros HI. unfold step at 2.
    destruct (collect_user al u s) as [s1 live]. by apply IH, Hc. }
  specialize (Hf targets s []). by destruct (foldl step (s, []) targets).
Qed.

Lemma keeps_everyone al s : keeps_inv al s (everyone_section al s).1.1.
Proof.
  intros HI. unfold everyone_section. cbv zeta. cbn [fst].
  apply (chat_inv_rooms al s); [done|done| |done].
  apply (rooms_inv_update al s); [done| | |apply HI|apply HI|apply HI]; simpl.
  - intros r X x Hx Hr HX HxX. rewrite lookup_fmap, HX. eexists; split; [done|set_solver].
  - intros [X HX]. by rewrite lookup_fmap, HX.
Qed.

Lemma keeps_find_session sid al s : keeps_inv al s (find_session_by_id_locked sid al s).1.
Proof. unfold find_session_by_id_locked. repeat case_match; by apply keeps_frame. Qed.

Lemma safe_broadcast_room room sender body : safe (broadcast_room room sender body).
Proof.
  unfold broadcast_room. safe_job. pose proof (safe_collect_room al room st). by destruct (collect_room al room st).
Qed.
#[local] Hint Resolve safe_moderation safe_broadcast_room : safe.

(** The programs the service submits to its worker queue or runs on other threads. *)
Inductive service_job : prog unit -> Prop :=
  | JobLogin x n token : service_job (login_job x n token)
  | JobJoin x room password : service_job (join_job x room password)
  | JobLeave x room : service_job (leave_job x room)
  | JobClose x : service_job (close_job x)
  | JobChat x room text : service_job (chat_job x room text)
  | JobWhisper x u text : service_job (dispatch_whisper x u text)
  | JobRooms x : service_job (send_rooms_list x)
  | JobRoomUsers x room : service_job (room_users_job x room)
  | JobRefresh x : service_job (handle_refresh x)
  | JobRefreshLocal room : service_job (broadcast_refresh_local room)
  | JobRemoteChat room sender body : service_job (broadcast_room room sender body)
  | JobRemoteWhisper sender recipient text ts : service_job (deliver_remote_whisper sender recipient text ts)
  | JobModeration op targets d why : service_job (moderation_job op targets d why)
  | JobSetting key value p : admin_apply_runtime_setting key value = Some p -> service_job p
  | JobDisconnect users notice p : admin_disconnect_users users notice = Some p -> service_job p
  | JobNotice notice p : broadcast_notice_to_all_sessions notice = Some p -> service_job p
  | JobLuaMuted n : service_job (_ ← lua_is_user_muted n; mret tt)
  | JobLuaBanned n : service_job (_ ← lua_is_user_banned n; mret tt)
  | JobLuaUser sid : service_job (_ ← lua_get_user_name sid; mret tt)
  | JobLuaRoom sid : service_job (_ ← lua_get_user_room sid; mret tt)
  | JobLuaUsers room : service_job (_ ← lua_get_room_users room; mret tt)
  | JobLuaNotice sid text : service_job (_ ← lua_send_notice sid text; mret tt)
  | JobLuaKick sid why : service_job (_ ← lua_kick_user sid why; mret tt)
  | JobLuaBroadcast room text : service_job (_ ← lua_broadcast_room room text; mret tt).

Lemma safe_script_calls p :
  (exists n, p = (_ ← lua_is_user_muted n; mret tt) \/ p = (_ ← lua_is_user_banned n; mret tt)
             \/ p = (_ ← lua_get_room_users n; mret tt)) \/
  (exists sid, p = (_ ← lua_get_user_name sid; mret tt) \/ p = (_ ← lua_get_user_room sid; mret tt)
             \/ (exists t, p = (_ ← lua_send_notice sid t; mret tt) \/ p = (_ ← lua_kick_user sid t; mret tt))) ->
  safe p.
Proof.
  intros [(n & [->|[->| ->]])|(sid & [->|[->|(t & [->| ->])]])].
  - unfold lua_is_user_muted. safe_job. destruct (_ !! n); [case_match|]; by apply keeps_frame.
  - unfold lua_is_user_banned. safe_job. destruct (_ !! n); [case_match|]; by apply keeps_frame.
  - unfold lua_get_room_users. safe_job.
    pose proof (safe_collect_room al n st). by destruct (collect_room al n st).
  - unfold lua_get_user_name. safe_job.
    pose proof (keeps_find_session sid al st). by destruct (find_session_by_id_locked _ _ _).
  - unfold lua_get_user_room. safe_job.
    pose proof (keeps_find_session sid al st). by destruct (find_session_by_id_locked _ _ _).
  - unfold lua_send_notice. safe_job.
    pose proof (keeps_find_session sid al st). by destruct (find_session_by_id_locked _ _ _).
  - unfold lua_kick_user. safe_job.
    pose proof (keeps_find_session sid al st). by destruct (find_session_by_id_locked _ _ _).
Qed.

Lemma service_job_safe p : service_job p -> safe p.
Proof.
  destruct 1 as [| | | | | | | | | | | | |key value p Hp|users notice p Hp|notice p Hp| | | | | | | |];
    try (by eauto with safe); try (apply safe_script_calls; naive_solver).
  - unfold room_users_job. safe_job.
  - unfold broadcast_refresh_local. safe_job.
    pose proof (safe_collect_room al room st). by destruct (collect_room al room st).
  - unfold deliver_remote_whisper. safe_job. destruct (has_blocked _ _ _); [by apply keeps_frame|].
    pose proof (safe_collect_user al recipient st). by destruct (collect_user al recipient st).
  - unfold admin_apply_runtime_setting in Hp. case_match; simplify_eq. safe_job.
  - unfold admin_disconnect_users in Hp. cbv zeta in Hp. case_match; simplify_eq. safe_job. apply keeps_disconnect.
  - unfold broadcast_notice_to_all_sessions in Hp. case_match; simplify_eq. safe_job. apply keeps_everyone.
  - unfold lua_broadcast_room. safe_job.
Qed.

(** ** All interleavings *)

Lemma empty_State_inv al cfg : chat_inv al (empty_State cfg).
Proof. split; [split|split|]; simpl; try set_solver; try done; intros *; rewrite ?lookup_empty; try done. Qed.

Lemma expired_as_unknown x g (m : gmap string RoomSet) :
  (forall r X, m !! r = Some X -> x ∉ X) -> expired_as x g <$> m = m.
Proof.
  intros Hm. apply map_eq. intros r. rewrite lookup_fmap. destruct (m !! r) as [X|] eqn:HX; [|done].
  cbn. unfold expired_as. by rewrite bool_decide_false by eauto.
Qed.

Lemma reuse_address_views x g s : unknown x s ->
  rooms_view (reuse_address x g s) = rooms_view s /\ users_view (reuse_address x g s) = users_view s.
Proof.
  intros (_ & _ & _ & _ & Hr & Hb). unfold rooms_view, users_view, reuse_address. cbn.
  by rewrite !expired_as_unknown.
Qed.

Lemma create_inv al x g s :
  unknown x s -> chat_inv al s -> chat_inv ({[x]} ∪ al) (reuse_address x g s).
Proof.
  intros Hx HI. destruct (reuse_address_views x g s Hx) as [Hv1 Hv2].
  apply (chat_inv_frame _ s); [done..|]. destruct Hx as (Hu & Hc & _). destruct HI as [Hr HU Hp].
  split; [| |done].
  - split; [|apply Hr..]. intros y r Hy Hyr. apply (inv_member _ _ Hr); [|done]. set_solver.
  - split; [|apply HU..]. intros y n Hy Hyn. apply (inv_named _ _ HU); [|done]. set_solver.
Qed.

Lemma destroy_inv al x s : chat_inv al s -> chat_inv (al ∖ {[x]}) s.
Proof.
  intros [Hr HU Hp]. split; [|  |done].
  - apply (rooms_inv_weaken al); [set_solver|done].
  - apply (users_inv_weaken al); [set_solver|done].
Qed.

Fixpoint all_safe (ts : list (prog unit)) : Prop :=
  match ts with [] => True | p :: ts' => safe p /\ all_safe ts' end.

Lemma all_safe_app ts1 ts2 : all_safe (ts1 ++ ts2) <-> all_safe ts1 /\ all_safe ts2.
Proof. induction ts1 as [|p ts1 IH]; simpl; [tauto|]. rewrite IH. tauto. Qed.

Lemma chat_step_inv c c' :
  fresh_step service_job c c' ->
  chat_inv c.(calive) c.(cstate) /\ all_safe c.(cthreads) ->
  chat_inv c'.(calive) c'.(cstate) /\ all_safe c'.(cthreads).
Proof.
  intros [Hs Hfresh].
  destruct Hs as [s al pre p post tr s' os p' Hstep|s al ts tr p Hp|s al ts tr x g Hx Hg Hunk|s al ts tr x];
    cbn in *; intros [HI Hts].
  - apply all_safe_app in Hts as (Hpre & Hp & Hpost). rewrite all_safe_app. cbn [all_safe].
    destruct Hstep as [R f k s s' os r Hf|os k s|R q k s r]; [|done|by split_and!].
    destruct Hp as [Hf' Hk]. specialize (Hf' al s). rewrite Hf in Hf'. split_and!; [by apply Hf'|done..].
  - split; [done|]. apply all_safe_app. split; [done|]. split; [by apply service_job_safe|done].
  - split; [|done]. apply create_inv; [|done]. apply Hfresh; set_solver.
  - split; [by apply destroy_inv|done].
Qed.

Lemma chat_reachable_inv cfg c :
  rtc (fresh_step service_job) (initial_config cfg) c ->
  chat_inv c.(calive) c.(cstate) /\ all_safe c.(cthreads).
Proof.
  intros Hr. assert (chat_inv (initial_config cfg).(calive) (initial_config cfg).(cstate)
    /\ all_safe (initial_config cfg).(cthreads)) as H0.
  { split; [apply empty_State_inv|done]. }
  induction Hr as [|c1 c2 c3 Hstep _ IH]; [done|]. apply IH. by apply (chat_step_inv c1).
Qed.

(** C4. However the jobs of the chat service interleave and whatever the world answers, between any two
    critical sections its tables are consistent, as long as a new session is never
    created at an address the tables still name: a live session is in the set of the room
    the server holds it to be in (it may be in another room's set too), and listed under
    its name; only sessions with that name are listed under a name; authenticated are
    exactly the named ones, each with a room; guests are authenticated; the lobby exists
    once anyone has a room and is never owned or by invitation.  Nothing is said of the
    owners of other rooms.  The condition on addresses is not ensured by the code
    ([reused_address_is_logged_in]). *)
Theorem chat_tables_consistent cfg c :
  rtc (fresh_step service_job) (initial_config cfg) c -> chat_inv c.(calive) c.(cstate).
Proof. intros Hr. by apply (chat_reachable_inv cfg). Qed.
End jobs.

(** ** A service and a world for examples *)

#[export] Program Instance example_env : ChatEnv := {
  weak_order X := elements X;
  table_order M := map_to_list M;
  session_id x := x;
  remote_ip _ := "10.0.0.1";
  redis_ := false;
  db_pool_ := false;
  redis_pubsub_enabled_ := false;
  gateway_id_ := "gw-default";
  presence_prefix := EmptyString;
  admin_users_ := {["root"%string]};
  wb_enabled := false;
  stream_key := EmptyString;
  fetch_factor := 3;
  cache_ttl_sec := 3600;
  sha256 s := Some (bytes_of_string s);
  std_hash s := zlen (bytes_of_string s);
  serialize_message _ := None;
  parse_message _ := None;
}.
Solve All Obligations with done.

(** No answer from Redis or the database, no plugins, the clock at [w]. *)
Definition example_world (R : Set) (q : query R) (w : Z) : R * Z :=
  (match q in query R return R with
   | NowQ => w
   | WallMsQ => w
   | RngQ => w
   | TraceQ => (EmptyString, EmptyString)
   | HooksQ _ => fun _ _ => (None, hook_pass)
   | ChatHookQ _ _ _ _ => None
   | RedisGet _ | RedisSMembers _ | RedisSCard _ | RedisMGet _ | RedisSCardMany _ | RedisLRange _ _ _
   | RedisSetEx _ _ _ | RedisDel _ | RedisSAdd _ _ | RedisSRem _ _ | RedisLPushTrim _ _ _
   | RedisPublish _ _ _ | RedisXAdd _ _ | DbBegin | DbCommit | DbFindUser _ | DbCreateGuest _
   | DbUpdateLastLogin _ _ | DbCreateMessage _ _ _ _ | DbFindRoom _ | DbCreateRoom _ | DbCloseRoom _
   | DbUpsertJoin _ _ | DbGetLastId _ | DbGetLastSeen _ _ | DbUpdateLastSeen _ _ _
   | DbFetchRecent _ _ _ => Exn
   end, w).

Definition default_settings : Settings := mkSettings 30 20 200 6 5 30 600 3.
