(* ===== verification/ChatProps.v ===== *)
(** Who gets into a room of the chat service, and the tools for theorems about what a job
    sends: executable schedules, and the programs that send only certain messages
    ([emits]) or cannot throw ([total]). *)

From S2P Require Import Prelude Text ProtocolErrors Utf8 ChatText ChatState ChatCore ChatViews ChatRooms ChatCommands ChatSend ChatAdmin ChatInv ChatConsistency.

(** ** Running schedules *)

Lemma exec1_step {W} (world : forall R : Set, query R -> W -> R * W) al p s w s' w' os p' :
  exec1 world al p s w = (s', w', os, p') -> thread_step al s p s' os p' \/ (s' = s /\ os = [] /\ p' = p).
Proof.
  destruct p as [a| |R f k|os' k|R q k]; simpl.
  - intros [= <- <- <- <-]. by right.
  - intros [= <- <- <- <-]. by right.
  - destruct (f al s) as [[s1 o1] r] eqn:Hf. intros [= <- <- <- <-]. left. by constructor.
  - intros [= <- <- <- <-]. left. constructor.
  - destruct (world R q w) as [r w1]. intros [= <- <- <- <-]. left. constructor.
Qed.

(** A schedule of an executable world is a run of the relation. *)
Lemma run_threads_sound {W} (world : forall R : Set, query R -> W -> R * W) job sched c w :
  rtc (fresh_step job) c (run_threads world sched c w).1.
Proof.
  revert c w. induction sched as [|i sched IH]; intros c w; cbn [run_threads]; [apply rtc_refl|].
  destruct (c.(cthreads) !! i) as [p|] eqn:Hp; [|apply IH].
  destruct (exec1 world c.(calive) p c.(cstate) w) as [[[s' w'] os] p'] eqn:He.
  assert (exists pre post, c.(cthreads) = pre ++ p :: post /\ <[i := p']> c.(cthreads) = pre ++ p' :: post)
    as (pre & post & Hts & Hts').
  { clear -Hp. revert i Hp. induction c.(cthreads) as [|t ts IHts]; intros [|i]; cbn; intros [=]; subst.
    - by exists [], ts.
    - destruct (IHts i) as (pre & post & -> & Hi); [done|]. exists (t :: pre), post.
      split; [done|]. cbn. f_equal. exact Hi. }
  destruct c as [s al ts tr]. cbn in *. rewrite Hts'.
  destruct (exec1_step world al p s w s' w' os p' He) as [Hstep|(-> & -> & ->)].
  - eapply rtc_l; [|apply IH]. rewrite Hts. split; [by constructor|done].
  - rewrite app_nil_r, <- Hts. apply IH.
Qed.

(** A session is created and a job submitted. *)
Definition with_session (x : Z) (c : Config) : Config :=
  mkConfig c.(cstate) ({[x]} ∪ c.(calive)) c.(cthreads) c.(ctrace).
Definition with_job (p : prog unit) (c : Config) : Config :=
  mkConfig c.(cstate) c.(calive) (c.(cthreads) ++ [p]) c.(ctrace).

Lemma unknown_empty x cfg : unknown x (empty_State cfg).
Proof. unfold unknown; cbn. split_and!; try done; try set_solver. Qed.

Lemma with_session_step job x c cfg :
  x ∉ c.(calive) -> c.(cstate) = empty_State cfg -> fresh_step job c (with_session x c).
Proof.
  destruct c as [s al ts tr]. cbn. intros Hx ->. split.
  - apply (StepCreate job (empty_State cfg) al ts tr x (fresh ({[x]} ∪ al)) Hx); [apply is_fresh|apply unknown_empty].
  - intros. apply unknown_empty.
Qed.

Lemma with_job_step (job : prog unit -> Prop) p c : job p -> fresh_step job c (with_job p c).
Proof. destruct c. intros Hp. split; [by apply StepSubmit|done]. Qed.

(** Sessions of a fresh service, and a sequence of jobs for them. *)
Definition service (cfg : Settings) (xs : list Z) (jobs : list (prog unit)) : Config :=
  mkConfig (empty_State cfg) (list_to_set xs) jobs [].

Lemma service_reachable cfg xs jobs :
  NoDup xs -> (forall p, In p jobs -> service_job p) ->
  rtc (fresh_step service_job) (initial_config cfg) (service cfg xs jobs).
Proof.
  intros Hnd Hjobs. apply (rtc_trans _ (service cfg xs [])).
  - clear Hjobs. induction Hnd as [|x xs Hx Hnd IH]; [apply rtc_refl|].
    eapply rtc_r; [apply IH|]. apply (with_session_step service_job x (service cfg xs []) cfg); [|done]. cbn. set_solver.
  - revert Hjobs. induction jobs as [|p jobs IH] using rev_ind; intros Hjobs; [apply rtc_refl|].
    eapply rtc_r; [apply IH|].
    + intros q Hq. apply Hjobs, in_or_app. by left.
    + apply (with_job_step service_job p (service cfg xs jobs)). apply Hjobs, in_or_app. right. by left.
Qed.

(** Two sessions that log in under the same name. *)
Definition two_logins (n : string) : Config :=
  service default_settings [1; 2] [login_job 1 n EmptyString; login_job 2 n EmptyString].

Lemma two_logins_reachable n : rtc (fresh_step service_job) (initial_config default_settings) (two_logins n).
Proof.
  apply service_reachable; [by apply (bool_decide_unpack _)|].
  intros p [<-|[<-|[]]]; constructor.
Qed.

Lemma chat_tables_consistent_witness :
  let c := (run_threads example_world (replicate 60 0%nat) (two_logins "alice") 5).1 in
  chat_inv c.(calive) c.(cstate)
  /\ c.(cstate).(session_tables).(cur_room) !! 1 = Some "lobby"%string.
Proof.
  cbv zeta. split; [|by vm_compute].
  apply (chat_tables_consistent default_settings).
  eapply rtc_trans; [apply (two_logins_reachable "alice")|apply run_threads_sound].
Defined.

(** ** Joining *)

Section join.
  Context `{!ChatEnv}.

(** The password that guards a room: Redis' if there is one, else the local one. *)
Definition guard (s : State) (room : string) (found : option string) : string :=
  match found with
  | Some v => v
  | None => default EmptyString (s.(room_tables).(room_passwords) !! room)
  end.

(** Whether the service knows the room, here or in Redis. *)
Definition known_room (s : State) (room : string) (found : option string) : Prop :=
  is_Some (s.(room_tables).(rooms) !! room) \/ is_Some (s.(room_tables).(room_owners) !! room)
  \/ is_Some (s.(room_tables).(room_passwords) !! room) \/ is_Some found.

(** Who may enter a room: anyone the lobby or a new room, otherwise an administrator, the
    owner, an invited user, or whoever gives the password. *)
Definition may_enter (s : State) (sender room provided : string) (found : option string) : Prop :=
  room = lobby \/ ~ known_room s room found \/ sender ∈ admin_users_
  \/ s.(room_tables).(room_owners) !! room = Some sender
  \/ sender ∈ default ∅ (s.(room_tables).(room_invites) !! room)
  \/ (guard s room found <> EmptyString /\ provided <> EmptyString
      /\ verify_room_password provided (guard s room found) = true).

Definition cached_password (room : string) (found : option string) (s : State) : State :=
  match found with
  | Some v => set_room_passwords (<[room := v]> s.(room_tables).(room_passwords)) s
  | None => s
  end.

(** The room has no password yet, and the one provided for it cannot be hashed. *)
Definition unhashable (s : State) (room provided : string) (found : option string) : Prop :=
  room <> lobby /\ guard s room found = EmptyString /\ provided <> EmptyString
  /\ hash_room_password provided = EmptyString.

Lemma expected_password_guard s sender room provided found :
  (room_access (cached_password room found s) sender room provided found).(expected_password)
  = guard s room found.
Proof.
  unfold room_access, guard, cached_password; simpl. destruct found as [v|]; [|done].
  case_bool_decide; [done|]. simpl. by rewrite lookup_insert_eq.
Qed.

Lemma room_access_denied s sender room provided found :
  (room_access (cached_password room found s) sender room provided found).(denied) = false
  <-> may_enter s sender room provided found.
Proof.
  pose proof (expected_password_guard s sender room provided found) as Hexp. revert Hexp.
  unfold may_enter, known_room, guard, room_access; simpl. intros ->. fold (guard s room found).
  assert (Hpw : is_Some ((cached_password room found s).(room_tables).(room_passwords) !! room)
                <-> is_Some (s.(room_tables).(room_passwords) !! room) \/ is_Some found).
  { unfold cached_password. destruct found as [v|]; simpl.
    - rewrite lookup_insert_eq. split; [by right|done].
    - split; [by left|]. by intros [?|[? [=]]]. }
  assert (Hr : (cached_password room found s).(room_tables).(rooms) = s.(room_tables).(rooms)
    /\ (cached_password room found s).(room_tables).(room_owners) = s.(room_tables).(room_owners)
    /\ (cached_password room found s).(room_tables).(room_invites) = s.(room_tables).(room_invites))
    by (unfold cached_password; by destruct found).
  destruct Hr as (-> & -> & ->).
  rewrite (bool_decide_ext _ _ Hpw).
  assert (Hg : guard s room found <> EmptyString ->
    is_Some (s.(room_tables).(room_passwords) !! room) \/ is_Some found).
  { unfold guard. destruct found; [by right|]. destruct (_ !! room); simpl; [by left|done]. }
  rewrite !andb_false_iff, !negb_false_iff, !andb_true_iff, !orb_false_iff, !bool_decide_eq_false,
    !bool_decide_eq_true.
  destruct (decide (room = lobby)); tauto.
Qed.

(** An admitted join fails only on a password that cannot be hashed. *)
Lemma renew_password_none s sender room provided found s1 :
  renew_password (room_access (cached_password room found s) sender room provided found) room provided s1 = None
  <-> unhashable s room provided found.
Proof.
  pose proof (expected_password_guard s sender room provided found) as Hexp.
  set (a := room_access _ _ _ _ _) in *.
  assert (Hhas : has_password a = bool_decide (guard s room found <> EmptyString))
    by (rewrite <- Hexp; reflexivity).
  unfold renew_password, unhashable. cbv zeta. rewrite Hhas.
  repeat (case_bool_decide || case_match); simpl in *; naive_solver.
Qed.

(** The code a refused join answers with, and why. *)
Definition refused_with (s : State) (x : Z) (room provided : string) (found : option string)
    (stopped : bool) (code : Z) : Prop :=
  ((x ∉ s.(session_tables).(authed)) /\ code = UNAUTHORIZED)
  \/ (x ∈ s.(session_tables).(authed) /\ stopped = true /\ code = FORBIDDEN)
  \/ (x ∈ s.(session_tables).(authed) /\ stopped = false
      /\ ~ may_enter s (name_or_guest s x) room provided found /\ code = FORBIDDEN)
  \/ (x ∈ s.(session_tables).(authed) /\ stopped = false
      /\ may_enter s (name_or_guest s x) room provided found
      /\ unhashable s room provided found /\ code = INTERNAL_ERROR).

Lemma hook_stop_error what ts x hooks :
  (hook_verdict what ts x hooks).2 = true ->
  exists text, SendError x FORBIDDEN text ∈ (hook_verdict what ts x hooks).1.
Proof.
  destruct hooks as [[out|] lua]; unfold hook_verdict; simpl.
  - destruct (stop_default out); simpl; intros Hs; [|rewrite Hs];
      eexists; rewrite !elem_of_app; [right|right; right]; by apply list_elem_of_here.
  - intros ->. eexists. rewrite elem_of_app. right. by apply list_elem_of_here.
Qed.

(** Departing removes the session from the room it leaves. *)
Lemma depart_room_gone al x room leaver s X :
  (depart_room al x room leaver s).1.(room_tables).(rooms) !! room = Some X -> x ∉ X.
Proof.
  unfold depart_room. destruct (s.(room_tables).(rooms) !! room) as [Y|] eqn:HY; [|cbn; congruence].
  cbn [collect_room_sessions fst]. case_bool_decide as Hl.
  { cbn. rewrite lookup_insert_eq. intros [= <-]. set_solver. }
  case_decide; cbn.
  - by rewrite lookup_delete_eq.
  - unfold replace_owner. case_bool_decide; [cbv zeta; case_bool_decide|]; cbn;
      rewrite lookup_insert_eq; intros [= <-]; set_solver.
Qed.

(** Entering changes no other room. *)
Lemma enter_room_rooms x room sender invited s r :
  (enter_room x room sender invited s).(room_tables).(rooms) !! r
  = if decide (r = room) then Some ({[x]} ∪ default ∅ (s.(room_tables).(rooms) !! room))
    else s.(room_tables).(rooms) !! r.
Proof.
  assert (Hins : (insert_room x room (set_cur_room (<[x := room]> s.(session_tables).(cur_room)) s))
            .(room_tables).(rooms) !! r
          = if decide (r = room) then Some ({[x]} ∪ default ∅ (s.(room_tables).(rooms) !! room))
            else s.(room_tables).(rooms) !! r).
  { cbn. case_decide as Hr; [subst; by rewrite lookup_insert_eq|by rewrite lookup_insert_ne]. }
  unfold enter_room. cbv zeta. case_bool_decide; [done|].
  destruct invited; repeat case_match; done.
Qed.

Lemma collect_room_rooms al room s r :
  (collect_room al room s).1.(room_tables).(rooms) !! r
  = if decide (r = room) then (fun X => X ∩ al) <$> s.(room_tables).(rooms) !! r
    else s.(room_tables).(rooms) !! r.
Proof.
  unfold collect_room. destruct (s.(room_tables).(rooms) !! room) as [X|] eqn:HX; cbn.
  - case_decide as Hr; [subst; by rewrite lookup_insert_eq, HX|by rewrite lookup_insert_ne].
  - case_decide; [subst; by rewrite HX|done].
Qed.

End join.

(** The state after the logins of the given sessions, one after the other. *)
Definition logged_in (al : gset Z) (names : list (Z * string)) : State :=
  foldl (fun s xn => (exec example_world al (login_job xn.1 xn.2 EmptyString) s 5).1.1.1)
    (empty_State default_settings) names.

Definition no_hooks : string -> string -> option HookOutcome * HookOutcome := fun _ _ => (None, hook_pass).


(** ** Messages *)

Section messages.
  Context `{!ChatEnv}.

(** Who hears a message: the live members of the room with a name who do not block the
    sender, each once. *)
Lemma chat_targets_spec sender room al s :
  NoDup (chat_targets sender room al s).2
  /\ forall t, t ∈ (chat_targets sender room al s).2 <->
       t ∈ al /\ (exists X, s.(room_tables).(rooms) !! room = Some X /\ t ∈ X)
       /\ exists n, s.(session_tables).(user) !! t = Some n /\ has_blocked s n sender = false.
Proof.
  unfold chat_targets. destruct (collect_room_view al room s) as (Hv & Est & Em & _).
  assert (Hc : NoDup (collect_room al room s).2 /\ forall t, t ∈ (collect_room al room s).2 <->
    t ∈ al /\ exists X, s.(room_tables).(rooms) !! room = Some X /\ t ∈ X).
  { unfold collect_room. destruct (s.(room_tables).(rooms) !! room) as [X|] eqn:HX; simpl.
    - split; [apply NoDup_collect|]. intros t. pose proof (elem_of_collect al X t). naive_solver.
    - split; [constructor|]. intros t. rewrite elem_of_nil. naive_solver. }
  destruct (collect_room al room s) as [s1 live]. cbn [fst snd] in *. destruct Hc as [Hnd Hlive].
  split; [by apply NoDup_filter|]. intros t. unfold filter_targets. rewrite list_elem_of_filter, Hlive.
  unfold accepts, has_blocked. rewrite Est, Em.
  destruct (s.(session_tables).(user) !! t) as [n|]; [rewrite negb_true_iff|]; naive_solver.
Qed.

End messages.

(** ** Programs by what they send and whether they can throw *)

Fixpoint emits (P : Out -> Prop) {A} (p : prog A) : Prop :=
  match p with
  | Ret _ | Raise => True
  | Crit f k => (forall al s o, o ∈ (f al s).1.2 -> P o) /\ forall r, emits P (k r)
  | Emit os k => (forall o, o ∈ os -> P o) /\ emits P k
  | Ask _ k => forall r, emits P (k r)
  end.

Section emits.
  Context (P : Out -> Prop).

Lemma emits_bind {A B} (p : prog A) (f : A -> prog B) :
  emits P p -> (forall a, emits P (f a)) -> emits P (p ≫= f).
Proof.
  intros Hp Hf. unfold mbind, prog_bind.
  induction p as [a| |R c k IH|os k IH|R q k IH]; simpl in *; naive_solver.
Qed.

Lemma emits_try {A} (p h : prog A) : emits P p -> emits P h -> emits P (try_catch p h).
Proof.
  intros Hp Hh. induction p as [a| |R c k IH|os k IH|R q k IH]; simpl in *; naive_solver.
Qed.

Lemma emits_call {R : Set} (q : query (res R)) : emits P (call q).
Proof. by intros []. Qed.

Lemma emits_reads {R : Set} (f : State -> R) : emits P (reads f).
Proof. split; [|done]. intros al s o Ho. by apply elem_of_nil in Ho. Qed.

Lemma emits_crit {R : Set} (f : gset Z -> State -> State * list Out * R) :
  (forall al s, (f al s).1.2 = []) -> emits P (crit f).
Proof. intros Hf. split; [|done]. intros al s o. rewrite Hf. by intros Ho%elem_of_nil. Qed.

Lemma emits_when b p : emits P p -> emits P (when b p).
Proof. by destruct b. Qed.

Lemma exec_emits {W} (world : forall R : Set, query R -> W -> R * W) al {A} (p : prog A) s w o :
  emits P p -> o ∈ (exec world al p s w).1.2 -> P o.
Proof.
  revert s w. induction p as [a| |R f k IH|os k IH|R q k IH]; intros s w; simpl.
  - by intros _ Ho%elem_of_nil.
  - by intros _ Ho%elem_of_nil.
  - intros [Hf Hk]. destruct (f al s) as [[s1 o1] r] eqn:Hfs. specialize (IH r s1 w (Hk r)).
    destruct (exec world al (k r) s1 w) as [[[s2 w2] o2] a]. simpl in *. intros [Ho|Ho]%elem_of_app; [|by apply IH].
    apply (Hf al s). by rewrite Hfs.
  - intros [Hf Hk]. specialize (IH s w Hk). destruct (exec world al k s w) as [[[s2 w2] o2] a]. simpl in *.
    intros [Ho|Ho]%elem_of_app; [by apply Hf|by apply IH].
  - intros Hk. destruct (world R q w) as [r w']. by apply IH.
Qed.
End emits.

Ltac emits_step :=
  match goal with
  | |- emits _ (mbind _ _) => apply emits_bind; [|intros ?]
  | |- emits _ (try_catch _ _) => apply emits_try
  | |- emits _ (when _ _) => apply emits_when
  | |- emits _ (call _) => apply emits_call
  | |- emits _ (reads _) => apply emits_reads
  | |- emits _ (crit _) => apply emits_crit; intros ??
  | |- emits _ (mret _) => exact Logic.I
  | |- emits _ (ask _) => intros ?; exact Logic.I
  | |- emits _ (if ?b then _ else _) => destruct b eqn:?
  | |- emits _ (match ?x with _ => _ end) => destruct x eqn:?
  | |- emits _ (let _ := _ in _) => cbv zeta
  end.

Lemma exec_bind {W} (world : forall R : Set, query R -> W -> R * W) al {A B} (p : prog A) (f : A -> prog B) s w :
  exec world al (p ≫= f) s w
  = let '(s1, w1, o1, a) := exec world al p s w in
    match a with
    | Some a => let '(s2, w2, o2, b) := exec world al (f a) s1 w1 in (s2, w2, o1 ++ o2, b)
    | None => (s1, w1, o1, None)
    end.
Proof.
  unfold mbind, prog_bind. revert s w. induction p as [a| |R c k IH|os k IH|R q k IH]; intros s w; simpl.
  - by destruct (exec world al (f a) s w) as [[[s2 w2] o2] b].
  - done.
  - destruct (c al s) as [[s1 o1] r]. rewrite IH. destruct (exec world al (k r) s1 w) as [[[s2 w2] o2] [a|]]; [|done].
    destruct (exec world al (f a) s2 w2) as [[[s3 w3] o3] b]. by rewrite app_assoc.
  - rewrite IH. destruct (exec world al k s w) as [[[s2 w2] o2] [a|]]; [|done].
    destruct (exec world al (f a) s2 w2) as [[[s3 w3] o3] b]. by rewrite app_assoc.
  - destruct (world R q w) as [r w']. apply IH.
Qed.

Lemma exec_reads {W} (world : forall R : Set, query R -> W -> R * W) al {R : Set} {B} (g : State -> R)
    (f : R -> prog B) s w :
  exec world al (reads g ≫= f) s w = exec world al (f (g s)) s w.
Proof. cbn. by destruct (exec world al (f (g s)) s w) as [[[s1 w1] o1] b]. Qed.

Lemma exec_ask {W} (world : forall R : Set, query R -> W -> R * W) al {R : Set} {B} (q : query R)
    (f : R -> prog B) s w :
  exec world al (ask q ≫= f) s w = exec world al (f (world R q w).1) s (world R q w).2.
Proof. cbn. by destruct (world R q w). Qed.

(** No exception leaves the program. *)
Fixpoint total {A} (p : prog A) : Prop :=
  match p with
  | Ret _ => True
  | Raise => False
  | Crit _ k => forall r, total (k r)
  | Emit _ k => total k
  | Ask _ k => forall r, total (k r)
  end.

Lemma total_bind {A B} (p : prog A) (f : A -> prog B) : total p -> (forall a, total (f a)) -> total (p ≫= f).
Proof.
  intros Hp Hf. unfold mbind, prog_bind.
  induction p as [a| |R c k IH|os k IH|R q k IH]; simpl in *; naive_solver.
Qed.

Lemma total_try {A} (p h : prog A) : total h -> total (try_catch p h).
Proof. intros Hh. induction p as [a| |R c k IH|os k IH|R q k IH]; simpl in *; naive_solver. Qed.

Lemma total_when b p : total p -> total (when b p).
Proof. by destruct b. Qed.

Lemma exec_total {W} (world : forall R : Set, query R -> W -> R * W) al {A} (p : prog A) s w :
  total p -> is_Some (exec world al p s w).2.
Proof.
  revert s w. induction p as [a| |R f k IH|os k IH|R q k IH]; intros s w Hp; simpl in *.
  - done.
  - done.
  - destruct (f al s) as [[s1 o1] r]. specialize (IH r s1 w (Hp r)).
    by destruct (exec world al (k r) s1 w) as [[[s2 w2] o2] a].
  - specialize (IH s w Hp). by destruct (exec world al k s w) as [[[s2 w2] o2] a].
  - destruct (world R q w) as [r w']. by apply IH.
Qed.

Ltac total_step :=
  match goal with
  | |- total (mbind _ _) => apply total_bind; [|intros ?]
  | |- total (try_catch _ _) => apply total_try
  | |- total (when _ _) => apply total_when
  | |- total (reads _) => intros ?; exact Logic.I
  | |- total (crit _) => intros ?; exact Logic.I
  | |- total (ask _) => intros ?; exact Logic.I
  | |- total (emit _) => exact Logic.I
  | |- total (mret _) => exact Logic.I
  | |- total (if ?b then _ else _) => destruct b eqn:?
  | |- total (match ?x with _ => _ end) => destruct x eqn:?
  | |- total (let _ := _ in _) => cbv zeta
  end.

(** ** The parts of a message *)

Section quiet.
  Context `{!ChatEnv}.

(** The chat messages of a room among what is sent. *)
Definition is_chat (room : string) (o : Out) : bool :=
  match o with Send _ (ChatBroadcast r _ _ _ _) _ => bool_decide (r = room) | _ => false end.

Definition chat_outs (room : string) (os : list Out) : list Out := filter (fun o => is_chat room o = true) os.

Lemma chat_outs_quiet room os : (forall o, o ∈ os -> is_chat room o = false) -> chat_outs room os = [].
Proof. intros Hq. apply filter_none. apply Forall_forall. intros o Ho. by rewrite Hq. Qed.

Abbreviation quiet room := (emits (fun o => is_chat room o = false)).

Lemma quiet_ensure_room room r : quiet room (ensure_room_id_ci r).
Proof. unfold ensure_room_id_ci. repeat emits_step; done. Qed.

Lemma quiet_persist room x r text : quiet room (persist_message x r text).
Proof. unfold persist_message. repeat first [apply quiet_ensure_room|emits_step]. Qed.

Lemma quiet_cache room rid m : quiet room (cache_recent_message rid m).
Proof. unfold cache_recent_message. repeat emits_step. Qed.

Lemma quiet_touch room uid : quiet room (touch_user_presence uid).
Proof. unfold touch_user_presence. repeat emits_step. Qed.

Lemma total_ensure_room r : total (ensure_room_id_ci r).
Proof. unfold ensure_room_id_ci. repeat total_step. Qed.

Lemma total_persist x r text : total (persist_message x r text).
Proof. unfold persist_message. repeat first [apply total_ensure_room|total_step]. Qed.
End quiet.
