(* ===== verification/ChatDelivery.v ===== *)
(** Delivery in the chat service: who hears a chat message and who hears a whisper. *)

From S2P Require Import Prelude Text ProtocolErrors Utf8 ChatText ChatState ChatCore ChatViews ChatRooms ChatCommands ChatSend ChatAdmin ChatInv ChatConsistency ChatProps.

(** ** Chat messages *)

Section delivery.
  Context `{!ChatEnv}.

(** What a message becomes on the wire: one copy per receiver, the sender's marked; an
    empty room still answers the sender. *)
Definition copies (x : Z) (body : Msg) (targets : list Z) : list Out :=
  match targets with
  | [] => [Send x body FLAG_SELF]
  | _ => (fun t => Send t body (if bool_decide (t = x) then FLAG_SELF else 0)) <$> targets
  end.

Lemma chat_outs_copies room x sender text sid ts targets :
  chat_outs room (copies x (ChatBroadcast room sender text sid ts) targets)
  = copies x (ChatBroadcast room sender text sid ts) targets.
Proof.
  apply filter_all. apply Forall_forall. intros o. unfold copies. destruct targets as [|t l].
  - intros ->%list_elem_of_singleton. simpl. by rewrite bool_decide_true.
  - intros (t' & -> & _)%list_elem_of_fmap. simpl. by rewrite bool_decide_true.
Qed.

Lemma chat_outs_exec_quiet {W} (world : forall R : Set, query R -> W -> R * W) al room {A} (p : prog A) s w :
  emits (fun o => is_chat room o = false) p -> chat_outs room (exec world al p s w).1.2 = [].
Proof. intros Hq. apply chat_outs_quiet. intros o Ho. by apply (exec_emits _ world al p s w o Hq). Qed.

Lemma chat_outs_app room os1 os2 : chat_outs room (os1 ++ os2) = chat_outs room os1 ++ chat_outs room os2.
Proof. apply filter_app. Qed.

(** The last part of [broadcast_message], after the copies are sent. *)
Lemma quiet_after room x r body (rid : string) (id : Z) :
  emits (fun o => is_chat room o = false)
    (when redis_ (try_catch (uid ← reads (fun s => uuid_of s x); touch_user_presence uid) (mret tt));;
     when (redis_ && redis_pubsub_enabled_)
       (try_catch
          (_ ← call (RedisPublish (String.append presence_prefix (String.append "fanout:room:" r))
                       (String.append "gw=" gateway_id_) (Some body));
           mret tt)
          (mret tt));;
     when (db_pool_ && (0 <? id) && bool_decide (rid <> EmptyString))
       (uid ← reads (fun s => uuid_of s x);
        when (bool_decide (uid <> EmptyString))
          (try_catch (_ ← call DbBegin; _ ← call (DbUpdateLastSeen uid rid id); _ ← call DbCommit; mret tt)
                     (mret tt)))).
Proof. repeat first [apply quiet_touch|emits_step]. Qed.

(** C13. A message that passed the gate reaches each live, named member of the room who does not
    block its sender exactly once, the sender's own copy flagged, and nobody else; only an
    exception of the recent-history cache, for which both Redis and the database must be
    in use, keeps it from everyone. *)
Theorem message_delivery {W} (world : forall R : Set, query R -> W -> R * W) al x room sender text s w :
  let targets := (chat_targets sender room al s).2 in
  let sent := chat_outs room (exec world al (broadcast_message x room sender text) s w).1.2 in
  (NoDup targets /\ forall t, t ∈ targets <->
     t ∈ al /\ (exists X, s.(room_tables).(rooms) !! room = Some X /\ t ∈ X)
     /\ exists n, s.(session_tables).(user) !! t = Some n /\ has_blocked s n sender = false)
  /\ ((exists ts, sent = copies x (ChatBroadcast room sender text (session_id x) ts) targets)
      \/ (sent = [] /\ redis_ = true /\ db_pool_ = true)).
Proof.
  cbv zeta. split; [apply chat_targets_spec|]. unfold broadcast_message.
  destruct (chat_targets sender room al s) as [[s1 o1] targets] eqn:Ht.
  assert (o1 = []) as ->.
  { unfold chat_targets in Ht. by destruct (collect_room al room s) as [? ?]; simplify_eq. }
  rewrite exec_bind. cbn [crit exec]. rewrite Ht. cbn [app].
  rewrite exec_bind. cbn [ask exec]. destruct (world _ WallMsQ w) as [ts w1]. cbv zeta.
  set (body := ChatBroadcast room sender text (session_id x) (u64 ts)).
  rewrite exec_bind.
  match goal with |- context [exec world al ?p s1 w1] => set (persist := p) end.
  assert (Hp : emits (fun o => is_chat room o = false) persist)
    by (subst persist; destruct db_pool_; [apply quiet_persist|done]).
  assert (Htot : total persist) by (subst persist; destruct db_pool_; [apply total_persist|done]).
  pose proof (chat_outs_exec_quiet world al room persist s1 w1 Hp) as Q1.
  assert (Hdb : db_pool_ = false -> persist = mret (EmptyString, 0)) by (subst persist; by intros ->).
  clearbody persist.
  pose proof (exec_total world al persist s1 w1 Htot) as Hs.
  destruct (exec world al persist s1 w1) as [[[s2 w2] o2] res] eqn:Epersist. cbn [fst snd] in Q1, Hs |- *.
  destruct Hs as [[rid id] ->].
  rewrite exec_bind. set (cache := when (redis_ && _ && _) _).
  assert (Hc : emits (fun o => is_chat room o = false) cache)
    by (subst cache; repeat first [apply quiet_cache|emits_step]).
  pose proof (chat_outs_exec_quiet world al room cache s2 w2 Hc) as Q2.
  destruct (exec world al cache s2 w2) as [[[s3 w3] o3] [u|]] eqn:Ecache; cbn [fst snd] in Q2 |- *.
  - left. exists (u64 ts). fold body. rewrite exec_bind. cbn [emit exec]. fold (copies x body targets).
    pose proof (chat_outs_exec_quiet world al room _ s3 w3 (quiet_after room x room body rid id)) as Q3.
    destruct (exec world al _ s3 w3) as [[[s4 w4] o4] r4]. cbn [fst snd] in Q3 |- *.
    rewrite !chat_outs_app, Q1, Q2, Q3. subst body. rewrite chat_outs_copies.
    change (chat_outs room []) with (@nil Out). by rewrite !app_nil_r.
  - right. rewrite !chat_outs_app, Q1, Q2. split; [done|]. subst cache.
    destruct redis_; [|by cbn in Ecache]. split; [done|]. destruct db_pool_; [done|].
    rewrite (Hdb eq_refl) in Epersist. cbn in Epersist. by simplify_eq.
Qed.
End delivery.

(** ** Whispers *)

Section whispers.
  Context `{!ChatEnv}.

Definition is_incoming (o : Out) : bool :=
  match o with Send _ (WhisperNotice _ _ _ _ false) _ => true | _ => false end.

Definition whispers (os : list Out) : list Out := filter (fun o => is_incoming o = true) os.

Lemma whispers_app os1 os2 : whispers (os1 ++ os2) = whispers os1 ++ whispers os2.
Proof. apply filter_app. Qed.

Lemma whispers_quiet {W} (world : forall R : Set, query R -> W -> R * W) al {A} (p : prog A) s w :
  emits (fun o => is_incoming o = false) p -> whispers (exec world al p s w).1.2 = [].
Proof.
  intros Hq. apply filter_none, Forall_forall. intros o Ho.
  by rewrite (exec_emits _ world al p s w o Hq Ho).
Qed.

Lemma emits_emit1 (P : Out -> Prop) o : P o -> emits P (emit [o]).
Proof. intros Ho. split; [|done]. by intros o' ->%list_elem_of_singleton. Qed.

Lemma quiet_notice x text : emits (fun o => is_incoming o = false) (send_system_notice x text).
Proof. unfold send_system_notice. emits_step; [emits_step|]. by apply emits_emit1. Qed.

Lemma quiet_result x ok why : emits (fun o => is_incoming o = false) (send_whisper_result x ok why).
Proof. by apply emits_emit1. Qed.

(** The sessions a whisper reaches. *)
Definition whisper_reaches (s : State) (al : gset Z) (x : Z) (sender u : string) (t : Z) : Prop :=
  t ∈ al /\ t <> x /\ (exists X, s.(session_tables).(by_user) !! u = Some X /\ t ∈ X)
  /\ t ∈ s.(session_tables).(authed) /\ (t ∉ s.(session_tables).(guest))
  /\ has_blocked s sender u = false /\ has_blocked s u sender = false.

Lemma whisper_section_spec x sender u al s :
  let w := (whisper_section x sender u al s).2 in
  NoDup w.(wt_targets) /\ (forall t, t ∈ w.(wt_targets) <-> whisper_reaches s al x sender u t)
  /\ (whisper_section x sender u al s).1.2 = [].
Proof.
  cbv zeta. unfold whisper_section.
  assert (Hc : (collect_user al u s).1.(session_tables).(authed) = s.(session_tables).(authed)
    /\ (collect_user al u s).1.(session_tables).(guest) = s.(session_tables).(guest)
    /\ NoDup (collect_user al u s).2
    /\ forall t, t ∈ (collect_user al u s).2 <-> t ∈ al /\ exists X, s.(session_tables).(by_user) !! u = Some X /\ t ∈ X).
  { unfold collect_user. destruct (s.(session_tables).(by_user) !! u) as [X|] eqn:HX; simpl.
    - split_and!; [done|done|apply NoDup_collect|]. intros t. pose proof (elem_of_collect al X t). naive_solver.
    - split_and!; [done|done|constructor|]. intros t. rewrite elem_of_nil. naive_solver. }
  destruct (collect_user al u s) as [s1 live]. cbn [fst snd] in *. destruct Hc as (Ha & Hg & Hnd & Hlive).
  unfold whisper_reaches. cbn [snd fst wt_targets].
  destruct (has_blocked s sender u), (has_blocked s u sender); cbn [orb]; try (split_and!; [constructor| |done];
    intros t; rewrite elem_of_nil; naive_solver).
  split_and!; [by do 2 apply NoDup_filter| |done]. intros t.
  rewrite !list_elem_of_filter, Hlive. unfold whisper_eligible. rewrite Ha, Hg, andb_true_iff, negb_true_iff,
    bool_decide_eq_true, bool_decide_eq_false. naive_solver.
Qed.

(** When a whisper is sent at all. *)
Definition may_whisper (s : State) (x : Z) (u text : string) : Prop :=
  u <> EmptyString /\ text <> EmptyString /\ x ∈ s.(session_tables).(authed)
  /\ name_or_guest s x <> "guest"%string /\ (x ∉ s.(session_tables).(guest)) /\ u <> name_or_guest s x.

(** C19. A whisper is delivered on this server to exactly the live, logged-in sessions of its recipient,
    each once and with the sender's own name, if sender and recipient do not block each
    other; it is delivered to nobody if the sender is not logged in under a name, or
    whispers to itself, or gives no text. *)
Theorem whisper_privacy {W} (world : forall R : Set, query R -> W -> R * W) al x u text s w :
  let sent := whispers (exec world al (dispatch_whisper x u text) s w).1.2 in
  let sender := name_or_guest s x in
  (may_whisper s x u text ->
     exists targets ts, sent = (fun t => Send t (WhisperNotice sender u text ts false) 0) <$> targets
       /\ NoDup targets /\ forall t, t ∈ targets <-> whisper_reaches s al x sender u t)
  /\ (~ may_whisper s x u text -> sent = []).
Proof.
  cbv zeta. unfold dispatch_whisper, may_whisper.
  destruct (bool_decide (u = EmptyString) || bool_decide (text = EmptyString)) eqn:He.
  { assert (Hq : u = EmptyString \/ text = EmptyString)
      by (apply orb_true_iff in He; by rewrite !bool_decide_eq_true in He).
    split; [naive_solver|intros _]. apply whispers_quiet.
    emits_step; [apply quiet_notice|apply quiet_result]. }
  apply orb_false_iff in He as [Hu Ht]. apply bool_decide_eq_false in Hu, Ht.
  rewrite exec_reads. case_bool_decide as Hx; cbn [negb].
  2: { split; [naive_solver|intros _]. by apply (whispers_quiet world al _ s w), emits_emit1. }
  rewrite exec_reads. cbv beta iota.
  destruct (bool_decide (name_or_guest s x = "guest"%string) || bool_decide (x ∈ s.(session_tables).(guest))) eqn:Hg.
  { apply orb_true_iff in Hg. rewrite !bool_decide_eq_true in Hg. split; [naive_solver|intros _].
    apply (whispers_quiet world al _ s w). emits_step; [apply quiet_notice|].
    emits_step; [apply quiet_result|by apply emits_emit1]. }
  apply orb_false_iff in Hg as [Hg1 Hg2]. apply bool_decide_eq_false in Hg1, Hg2.
  case_bool_decide as Hself.
  { split; [naive_solver|intros _]. apply (whispers_quiet world al _ s w).
    emits_step; [apply quiet_notice|apply quiet_result]. }
  split; [intros _|naive_solver].
  rewrite exec_bind. cbn [crit exec app]. pose proof (whisper_section_spec x (name_or_guest s x) u al s) as Hw.
  destruct (whisper_section x (name_or_guest s x) u al s) as [[s1 o1] wt]. cbn [fst snd] in Hw |- *.
  destruct Hw as (Hnd & Hreach & ->). cbn [app].
  destruct (bool_decide (wt.(wt_targets) = []) && wt.(wt_ineligible)) eqn:Hin.
  { apply andb_true_iff in Hin as [Hnil%bool_decide_eq_true _]. exists [], 0. rewrite Hnil in *.
    split_and!; [|constructor|done]. set (p := if wt_blocked_by_sender wt then _ else _).
    assert (emits (fun o => is_incoming o = false) p) as Hq.
    { subst p. destruct (wt_blocked_by_sender wt); (emits_step; [apply quiet_notice|apply quiet_result]). }
    pose proof (whispers_quiet world al p s1 w Hq) as Q. by destruct (exec world al p s1 w) as [[[??]?]?]. }
  rewrite exec_ask. destruct (world Z WallMsQ w) as [ts w1]. cbn [fst snd]. cbv zeta.
  exists wt.(wt_targets), (u64 ts). split_and!; [|done|done].
  match goal with |- context [exec world al ?p s1 w1] => set (prog_ := p) end.
  enough (whispers (exec world al prog_ s1 w1).1.2 = (fun t => Send t (WhisperNotice (name_or_guest s x) u text (u64 ts) false) 0)
            <$> wt.(wt_targets)) as Hs by (by destruct (exec world al prog_ s1 w1) as [[[??]?]?]).
  subst prog_. set (outgoing := emit [Send x (WhisperNotice (name_or_guest s x) u text (u64 ts) true) 0];;
                                send_whisper_result x true EmptyString).
  assert (emits (fun o => is_incoming o = false) outgoing) as Hout.
  { subst outgoing. emits_step; [by apply emits_emit1|apply quiet_result]. }
  case_bool_decide as Hnil.
  - rewrite Hnil. apply whispers_quiet. emits_step; [repeat emits_step|].
    emits_step; [|done]. emits_step; [apply quiet_notice|apply quiet_result].
  - rewrite exec_bind. cbn [emit exec]. pose proof (whispers_quiet world al outgoing s1 w1 Hout) as Q.
    destruct (exec world al outgoing s1 w1) as [[[??]?]?]. cbn [fst snd] in Q |- *.
    rewrite !whispers_app, Q. change (whispers []) with (@nil Out). rewrite !app_nil_r.
    apply filter_all, Forall_forall. by intros o' (t & -> & _)%list_elem_of_fmap.
Qed.
End whispers.
