(* ===== verification/ChatGate.v ===== *)
(** The sanctions and the spam gate in front of a chat message, the bans at login, and the
    authority that commands need. *)

From Stdlib Require Import Sorting.Sorted.
From S2P Require Import Prelude Text ProtocolErrors Utf8 ChatText ChatState ChatCore ChatViews ChatRooms ChatCommands ChatSend ChatAdmin ChatInv ChatConsistency ChatProps.

Section gate.
  Context `{!ChatEnv}.

(** ** Sanctions *)

Definition active (table : gmap string TimedPenalty) (u : string) (now : Z) : Prop :=
  exists p, table !! u = Some p /\ now < p.(expires_at).

Lemma penalty_check_spec now u table text :
  text <> EmptyString ->
  ((penalty_check now u table text).2 <> EmptyString <-> active table u now)
  /\ (forall v t, now <= t -> active (penalty_check now u table text).1 v t <-> active table v t)
  /\ (forall v, v <> u -> (penalty_check now u table text).1 !! v = table !! v).
Proof.
  intros Htext. unfold penalty_check, active. destruct (table !! u) as [p|] eqn:Hp.
  - destruct (Z.leb_spec p.(expires_at) now) as [Hle|Hgt]; cbn [fst snd].
    + split_and!.
      * split; [done|]. intros (q & Hq & Hlt). simplify_eq. lia.
      * intros v t Ht. destruct (decide (v = u)) as [->|Hne].
        -- rewrite lookup_delete_eq, Hp. split; [by intros (q & [=] & _)|]. intros (q & [= <-] & Hq). lia.
        -- by rewrite lookup_delete_ne.
      * intros v Hv. by rewrite lookup_delete_ne.
    + split_and!; [|done|done]. split; [intros _; eauto|]. intros _. by case_bool_decide.
  - split_and!; [|done|done]. split; [done|]. by intros (q & [=] & _).
Qed.

(** The tables of sanctions and of names after the gate's checks. *)
Definition checked (x now : Z) (s : State) : State :=
  let u := name_or_guest s x in
  set_banned_users (penalty_check now u s.(moderation).(banned_users) "temporarily banned").1
    (set_muted_users (penalty_check now u s.(moderation).(muted_users) "temporarily muted").1 s).

(** No sanction holds against the sender at the time. *)
Definition unsanctioned (s : State) (u : string) (now : Z) : Prop :=
  ~ active s.(moderation).(banned_users) u now /\ ~ active s.(moderation).(muted_users) u now.

Lemma gate_section_cases x now al s :
  let u := name_or_guest s x in
  u <> "guest"%string ->
  (active s.(moderation).(banned_users) u now
   /\ (exists why, (gate_section x now al s).2 = Banned why) /\ (gate_section x now al s).1.1 = checked x now s)
  \/ (~ active s.(moderation).(banned_users) u now /\ active s.(moderation).(muted_users) u now
   /\ (exists why, (gate_section x now al s).2 = Muted why) /\ (gate_section x now al s).1.1 = checked x now s)
  \/ (unsanctioned s u now
   /\ (gate_section x now al s).1.1 = (spam_check u now al (checked x now s)).1
   /\ (gate_section x now al s).2 = (spam_check u now al (checked x now s)).2).
Proof.
  cbv zeta. intros Hg. unfold gate_section, checked, unsanctioned. rewrite bool_decide_false by done.
  destruct (penalty_check_spec now (name_or_guest s x) s.(moderation).(muted_users) "temporarily muted")
    as (Hm & _); [done|].
  destruct (penalty_check_spec now (name_or_guest s x) s.(moderation).(banned_users) "temporarily banned")
    as (Hb & _); [done|].
  destruct (penalty_check now _ s.(moderation).(muted_users) _) as [mu muted]. cbn [fst snd] in *. cbn.
  destruct (penalty_check now _ s.(moderation).(banned_users) _) as [bu banned]. cbn [fst snd] in *.
  case_bool_decide as Hbe; [left; naive_solver|]. right.
  case_bool_decide as Hme; [left; naive_solver|]. right.
  destruct (spam_check _ _ _ _) as [s' g]. split; [split; naive_solver|done].
Qed.

(** ** The spam gate *)

Lemma checked_view x now s :
  (checked x now s).(session_tables) = s.(session_tables)
  /\ (checked x now s).(settings) = s.(settings)
  /\ (checked x now s).(moderation).(spam_events) = s.(moderation).(spam_events)
  /\ (checked x now s).(moderation).(spam_violations) = s.(moderation).(spam_violations)
  /\ (checked x now s).(room_tables) = s.(room_tables).
Proof. done. Qed.

Lemma checked_active x now s u t :
  now <= t ->
  (active (checked x now s).(moderation).(banned_users) u t <-> active s.(moderation).(banned_users) u t)
  /\ (active (checked x now s).(moderation).(muted_users) u t <-> active s.(moderation).(muted_users) u t).
Proof. intros Ht. split; apply penalty_check_spec; done. Qed.

Lemma drop_old_spec cutoff events :
  exists old, events = old ++ drop_old cutoff events /\ Forall (fun e => e < cutoff) old.
Proof.
  induction events as [|e events (old & Ho & Hf)]; simpl; [by exists []|].
  destruct (Z.ltb_spec e cutoff); [|by exists []].
  exists (e :: old). simpl. rewrite <- Ho. split; [done|by constructor].
Qed.

(** The table of names loses at most expired entries; sanctions are added. *)
Lemma ban_user_tables u until why s :
  (ban_user u until why s).(session_tables) = s.(session_tables)
  /\ (ban_user u until why s).(settings) = s.(settings)
  /\ (ban_user u until why s).(moderation).(spam_events) = s.(moderation).(spam_events)
  /\ (ban_user u until why s).(moderation).(muted_users) = s.(moderation).(muted_users)
  /\ (ban_user u until why s).(moderation).(banned_users)
     = <[u := mkTimedPenalty until why]> s.(moderation).(banned_users).
Proof.
  unfold ban_user. cbv zeta. simpl. destruct (_ !! u) as [ip|]; [case_bool_decide|]; simpl;
    destruct (_ !! u); try case_bool_decide; done.
Qed.

Lemma collect_user_user al u s :
  (collect_user al u s).1.(session_tables).(user) = s.(session_tables).(user).
Proof. unfold collect_user. by destruct (s.(session_tables).(by_user) !! u). Qed.

(** What the spam gate does to the sender's record. *)
Lemma spam_check_spec u now al s :
  let cfg := s.(settings) in
  let events := drop_old (now - sec cfg.(spam_window_sec)) (default [] (s.(moderation).(spam_events) !! u)) ++ [now] in
  let '(s', g) := spam_check u now al s in
  s'.(settings) = cfg /\ s'.(session_tables).(user) = s.(session_tables).(user)
  /\ (g = Pass u /\ zlen events <= cfg.(spam_message_threshold)
      /\ s'.(moderation).(spam_events) !! u = Some events
      /\ s'.(moderation).(banned_users) = s.(moderation).(banned_users)
      /\ s'.(moderation).(muted_users) = s.(moderation).(muted_users)
     \/ cfg.(spam_message_threshold) < zlen events /\ (forall v, g <> Pass v)
        /\ s'.(moderation).(spam_events) !! u = Some []
        /\ ((exists p, s'.(moderation).(banned_users) !! u = Some p /\ p.(expires_at) = now + sec cfg.(spam_ban_sec))
            \/ (exists p, s'.(moderation).(muted_users) !! u = Some p
                  /\ p.(expires_at) = now + sec cfg.(spam_mute_sec)))).
Proof.
  cbv zeta. unfold spam_check. cbv zeta. set (events := drop_old _ _ ++ [now]).
  destruct (Z.leb_spec (zlen events) s.(settings).(spam_message_threshold)) as [Hle|Hgt].
  { split_and!; [done|done|]. left. split_and!; try done. cbn. by rewrite lookup_insert_eq. }
  destruct (_ <=? u32 _).
  - set (s1 := set_spam_violations _ _).
    match goal with |- context [ban_user u ?t ?w s1] => destruct (ban_user_tables u t w s1) as (B1 & B2 & B3 & B4 & B5);
      destruct (collect_user_view al u (ban_user u t w s1)) as (_ & _ & C1 & C2);
      pose proof (collect_user_user al u (ban_user u t w s1)) as C3;
      destruct (collect_user al u (ban_user u t w s1)) as [s2 sessions] end. cbn [fst] in *.
    split_and!; [by rewrite C2, B2|by rewrite C3, B1|]. right. split_and!; [done|done| |].
    + rewrite C1, B3. cbn. by rewrite lookup_insert_eq.
    + left. rewrite C1, B5, lookup_insert_eq. eauto.
  - split_and!; [done|done|]. right. split_and!; [done|done| |].
    + cbn. by rewrite lookup_insert_eq.
    + right. cbn. rewrite lookup_insert_eq. eauto.
Qed.

(** ** The rate of messages *)

(** A sender's messages at the given times: those that pass. *)
Fixpoint gate_run (x : Z) (al : gset Z) (times : list Z) (s : State) : State * list Z :=
  match times with
  | [] => (s, [])
  | t :: rest =>
      let '(s1, _, g) := gate_section x t al s in
      let '(s2, later) := gate_run x al rest s1 in
      (s2, match g with Pass _ => t :: later | _ => later end)
  end.

(** Whenever a message passes, at most [thr] have passed in the window that ends with it. *)
Definition rate_ok (thr window : Z) (passed : list Z) : Prop :=
  forall pre t rest, passed = pre ++ t :: rest ->
    zlen (filter (fun a => t - window <= a) (pre ++ [t])) <= thr.

(** What the gate remembers of the messages [passed] up to time [T]: the recent ones are
    in the record, the others have left the window of any message that can still pass. *)
Record remembers (x : Z) (cfg : Settings) (T : Z) (passed : list Z) (s : State) : Prop := {
  rem_cfg : s.(settings) = cfg;
  rem_past : Forall (fun a => a <= T) passed;
  rem_rate : rate_ok cfg.(spam_message_threshold) (sec cfg.(spam_window_sec)) passed;
  rem_split : exists old, passed = old ++ default [] (s.(moderation).(spam_events) !! name_or_guest s x)
    /\ forall a t, a ∈ old -> T <= t -> unsanctioned s (name_or_guest s x) t ->
         a + sec cfg.(spam_window_sec) < t;
}.

Lemma rate_ok_snoc thr window passed t :
  rate_ok thr window passed -> zlen (filter (fun a => t - window <= a) (passed ++ [t])) <= thr ->
  rate_ok thr window (passed ++ [t]).
Proof.
  intros Hr Ht pre a rest E. destruct rest as [|b rest _] using rev_ind.
  - apply app_inj_tail in E as [-> ->]. done.
  - apply (Hr pre a rest). rewrite app_comm_cons, app_assoc in E. by apply app_inj_tail in E as [-> _].
Qed.

Lemma filter_window_bound (old events : list Z) lo :
  Forall (fun a => a < lo) old -> zlen (filter (fun a => lo <= a) (old ++ events)) <= zlen events.
Proof.
  intros Ho. rewrite filter_app, filter_none.
  - simpl. pose proof (length_filter (fun a => lo <= a) events). lia.
  - eapply Forall_impl; [exact Ho|]. simpl. lia.
Qed.

Lemma unsanctioned_ext s s' u t :
  (active s'.(moderation).(banned_users) u t <-> active s.(moderation).(banned_users) u t) ->
  (active s'.(moderation).(muted_users) u t <-> active s.(moderation).(muted_users) u t) ->
  unsanctioned s' u t <-> unsanctioned s u t.
Proof. unfold unsanctioned. intros -> ->. done. Qed.

Lemma remembers_step x cfg al T t passed s :
  cfg.(spam_window_sec) < cfg.(spam_mute_sec) -> cfg.(spam_window_sec) < cfg.(spam_ban_sec) ->
  T <= t -> name_or_guest s x <> "guest"%string -> remembers x cfg T passed s ->
  let '(s', _, g) := gate_section x t al s in
  remembers x cfg t (match g with Pass _ => passed ++ [t] | _ => passed end) s'
  /\ name_or_guest s' x = name_or_guest s x.
Proof.
  intros Hmute Hban HT Hg [Ec Hpast Hrate (old & Hsplit & Hold)].
  assert (Hpast' : Forall (fun a => a <= t) passed) by (eapply Forall_impl; [exact Hpast|simpl; lia]).
  pose proof (gate_section_cases x t al s Hg) as Hcases. cbv zeta in Hcases.
  destruct (gate_section x t al s) as [[s' os] g]. cbn [fst snd] in Hcases.
  (* refused by a sanction *)
  assert (Hrefused : remembers x cfg t passed (checked x t s)).
  { split; [done|done|done|]. exists old. split; [done|]. intros a t' Ha Ht' Hun.
    apply (Hold a t' Ha); [lia|]. eapply unsanctioned_ext; [..|exact Hun];
      symmetry; by apply (checked_active x t s (name_or_guest s x) t'). }
  destruct Hcases as [(_ & (why & ->) & ->)|[(_ & _ & (why & ->) & ->)|(Hun & Es & Eg)]]; [done..|].
  pose proof (spam_check_spec (name_or_guest s x) t al (checked x t s)) as Hspec. cbv zeta in Hspec.
  destruct (spam_check (name_or_guest s x) t al (checked x t s)) as [s2 g2]. cbn [fst snd] in Es, Eg. subst s2 g2.
  destruct (checked_view x t s) as (_ & E2 & E3 & _). rewrite E2, E3, Ec in Hspec.
  destruct Hspec as (Hcfg & Huser & Hcase).
  assert (Hname : name_or_guest s' x = name_or_guest s x) by (unfold name_or_guest; by rewrite Huser).
  split; [|done].
  set (events := drop_old _ _ ++ [t]) in *.
  destruct (drop_old_spec (t - sec cfg.(spam_window_sec)) (default [] (s.(moderation).(spam_events) !! name_or_guest s x)))
    as (gone & Hgone & Hlt).
  assert (Happ : passed ++ [t] = (old ++ gone) ++ events)
    by (subst events; rewrite Hsplit, Hgone at 1; by rewrite !app_assoc).
  destruct Hcase as [(-> & Hlen & Hev & Hbu & Hmu)|(Hlen & Hnp & Hev & Hsanction)].
  - assert (Hfar : Forall (fun a => a < t - sec cfg.(spam_window_sec)) (old ++ gone)).
    { apply Forall_app. split; [|done]. apply Forall_forall. intros a Ha.
      pose proof (Hold a t Ha HT Hun). lia. }
    split; [done| | |].
    + apply Forall_app. split; [done|]. by apply Forall_singleton.
    + apply rate_ok_snoc; [done|]. rewrite Happ.
      pose proof (filter_window_bound (old ++ gone) events (t - sec cfg.(spam_window_sec)) Hfar). lia.
    + exists (old ++ gone). rewrite Hname, Hev. split; [done|]. intros a t' Ha Ht' _.
      rewrite Forall_forall in Hfar. pose proof (Hfar a Ha). simpl in *. lia.
  - replace (match g with Pass _ => passed ++ [t] | _ => passed end) with passed
      by (destruct g as [| | | | |v]; [done..|by destruct (Hnp v)]).
    split; [done|done|done|]. exists passed. rewrite Hname, Hev. split; [by rewrite app_nil_r|].
    intros a t' Ha Ht' [Hnb Hnm]. rewrite Forall_forall in Hpast'. pose proof (Hpast' a Ha).
    unfold active, sec in *. destruct Hsanction as [(p & Hp & Ep)|(p & Hp & Ep)].
    + assert (~ t' < p.(expires_at)) by (intros ?; apply Hnb; eauto). lia.
    + assert (~ t' < p.(expires_at)) by (intros ?; apply Hnm; eauto). lia.
Qed.

Lemma gate_run_rate x cfg al times T passed s :
  cfg.(spam_window_sec) < cfg.(spam_mute_sec) -> cfg.(spam_window_sec) < cfg.(spam_ban_sec) ->
  StronglySorted Z.le times -> Forall (fun t => T <= t) times ->
  name_or_guest s x <> "guest"%string -> remembers x cfg T passed s ->
  rate_ok cfg.(spam_message_threshold) (sec cfg.(spam_window_sec)) (passed ++ (gate_run x al times s).2).
Proof.
  intros Hm Hb. revert T passed s. induction times as [|t times IH]; intros T passed s Hs HT Hg Hr; cbn [gate_run].
  { cbn [snd]. rewrite app_nil_r. apply Hr. }
  apply StronglySorted_inv in Hs as [Hs Ht]. apply Forall_cons in HT as [HTt HT].
  pose proof (remembers_step x cfg al T t passed s Hm Hb HTt Hg Hr) as Hstep.
  destruct (gate_section x t al s) as [[s1 os] g]. destruct Hstep as [Hr1 Hn].
  specialize (IH t _ s1 Hs Ht ltac:(by rewrite Hn) Hr1).
  destruct (gate_run x al times s1) as [s2 later]. cbn [snd] in *.
  destruct g; try done. by rewrite <- app_assoc in IH.
Qed.

(** C31. However fast a named user with no recorded messages sends, whenever one of their
    messages passes the gate at most [spam_message_threshold] have passed within the last
    [spam_window_sec] seconds, for settings in which mutes and bans outlast the window, and
    as long as nobody lifts them (the steps are those of the gate alone).  For the shorter
    mutes the settings also allow the bound fails: [short_mute_exceeds_threshold]. *)
Theorem spam_rate_bound x al times s :
  name_or_guest s x <> "guest"%string ->
  s.(moderation).(spam_events) !! name_or_guest s x = None ->
  s.(settings).(spam_window_sec) < s.(settings).(spam_mute_sec) ->
  s.(settings).(spam_window_sec) < s.(settings).(spam_ban_sec) ->
  StronglySorted Z.le times ->
  rate_ok s.(settings).(spam_message_threshold) (sec s.(settings).(spam_window_sec)) (gate_run x al times s).2.
Proof.
  intros Hg Hev Hm Hb Hs.
  destruct times as [|t0 times]; [by intros [|] ?? [=]|].
  apply (gate_run_rate x s.(settings) al (t0 :: times) t0 [] s); [done|done|done| |done|].
  - apply StronglySorted_inv in Hs as [_ Ht]. constructor; [lia|done].
  - split; [done|constructor|by intros [|] ?? [=]|]. exists []. rewrite Hev. split; [done|].
    intros a t Ha. by apply elem_of_nil in Ha.
Qed.
End gate.

Lemma spam_rate_bound_witness :
  let s := logged_in {[1]} [(1, "alice"%string)] in
  rate_ok 6 (sec 5) (gate_run 1 {[1]} [0; 1; 2; 3; 4; 5; 6; 7; 8] s).2
  /\ (gate_run 1 {[1]} [0; 1; 2; 3; 4; 5; 6; 7; 8] s).2 = [0; 1; 2; 3; 4; 5].
Proof.
  cbv zeta. split; [|by vm_compute].
  apply (spam_rate_bound 1 {[1]} [0; 1; 2; 3; 4; 5; 6; 7; 8] (logged_in {[1]} [(1, "alice"%string)])).
  - by vm_compute.
  - by vm_compute.
  - by vm_compute.
  - by vm_compute.
  - repeat constructor; lia.
Defined.

(** With a mute no longer than the window the bound fails: the violation forgets the messages
    that passed, so after a mute of 5 seconds a second batch passes in the same window of
    120 seconds.  Both values are in the ranges the settings allow. *)
Lemma short_mute_exceeds_threshold :
  let s := set_settings (mkSettings 30 20 200 6 120 5 600 3) (logged_in {[1]} [(1, "alice"%string)]) in
  let late := map (Z.add (sec 6)) [0; 1; 2; 3; 4; 5] in
  let passed := (gate_run 1 {[1]} ([0; 1; 2; 3; 4; 5; 6] ++ late) s).2 in
  passed = [0; 1; 2; 3; 4; 5] ++ late /\ ~ rate_ok 6 (sec 120) passed.
Proof.
  cbv zeta. match goal with |- ?p = ?q /\ _ => assert (E : p = q) by (by vm_compute); rewrite E; split; [done|] end.
  intros Hr. specialize (Hr ([0; 1; 2; 3; 4; 5] ++ map (Z.add (sec 6)) [0; 1; 2; 3; 4]) (sec 6 + 5) [] eq_refl).
  apply Hr. reflexivity.
Qed.

(** ** Bans at login *)

Section login.
  Context `{!ChatEnv}.

(** A ban of the name, of the address or of the device. *)
Definition banned_at (s : State) (n ip hwid : string) (now : Z) : Prop :=
  active s.(moderation).(banned_users) n now
  \/ (ip <> EmptyString /\ exists e, s.(moderation).(banned_ips) !! ip = Some e /\ now < e)
  \/ (hwid <> EmptyString /\ exists e, s.(moderation).(banned_hwid_hashes) !! hwid = Some e /\ now < e).

Lemma expiry_check_spec now key table text :
  text <> EmptyString ->
  (expiry_check now key table text).2 <> EmptyString <->
  key <> EmptyString /\ exists e, table !! key = Some e /\ now < e.
Proof.
  intros Ht. unfold expiry_check. case_bool_decide as Hk; [naive_solver|].
  destruct (table !! key) as [e|]; [destruct (Z.leb_spec e now)|]; cbn; naive_solver lia.
Qed.

Lemma ban_section_spec now n ip hwid al s :
  (ban_section now n ip hwid al s).2 <> EmptyString <-> banned_at s n ip hwid now.
Proof.
  unfold ban_section, banned_at.
  destruct (penalty_check_spec now n s.(moderation).(banned_users) "temporarily banned") as (Hb & _); [done|].
  destruct (penalty_check now n _ _) as [bu d1]. cbn [fst snd] in *. rewrite <- Hb.
  case_bool_decide as H1; [naive_solver|]. cbn.
  pose proof (expiry_check_spec now ip s.(moderation).(banned_ips) "temporarily banned (ip)" ltac:(done)) as Hi.
  destruct (expiry_check now ip _ _) as [bi d2]. cbn [fst snd] in *. rewrite <- Hi.
  case_bool_decide as H2; [naive_solver|]. cbn.
  pose proof (expiry_check_spec now hwid s.(moderation).(banned_hwid_hashes) "temporarily banned (device)" ltac:(done)) as Hh.
  destruct (expiry_check now hwid _ _) as [bh d3]. cbn [fst snd] in *. rewrite <- Hh. naive_solver.
Qed.

(** The part of the state a login may not change before it is admitted. *)
Definition login_view (s : State) :=
  (s.(room_tables), s.(session_tables).(user), s.(session_tables).(cur_room), s.(session_tables).(authed)).

(** A name of the user's own, not one the server makes up. *)
Definition own_name (n : string) : Prop := n <> EmptyString /\ n <> "guest"%string.

(** A live session is listed under the name. *)
Definition name_taken (al : gset Z) (s : State) (n : string) : Prop :=
  exists X y, s.(session_tables).(by_user) !! n = Some X /\ y ∈ X /\ y ∈ al.

Lemma gen_temp_name_nonempty rng : gen_temp_name_uuid8 rng <> EmptyString.
Proof.
  assert (Hlen : forall n s, String.length (pad_left n s) = (n + String.length s)%nat).
  { intros n. induction n as [|n IH]; intros s; [done|]. cbn [pad_left]. rewrite IH. cbn. lia. }
  unfold gen_temp_name_uuid8. cbv zeta. intros He. apply (f_equal String.length) in He.
  rewrite Hlen in He. cbn in He. lia.
Qed.

Lemma first_free_nonempty s names last :
  last <> EmptyString -> Forall (fun c => c <> EmptyString) names -> first_free s names last <> EmptyString.
Proof. intros Hl Hn. induction Hn; cbn [first_free]; [done|]. by repeat case_match. Qed.

Lemma ensure_unique_result x n names last al s :
  last <> EmptyString -> Forall (fun c => c <> EmptyString) names ->
  let '(s', os, r) := ensure_unique_section x n names last al s in
  (own_name n -> r = EmptyString \/ r = n) /\ login_view s' = login_view s /\ s'.(moderation) = s.(moderation)
  /\ (forall o, o ∈ os -> o = SendError x NAME_TAKEN "name taken")
  /\ (r = EmptyString -> SendError x NAME_TAKEN "name taken" ∈ os /\ own_name n /\ name_taken al s n).
Proof.
  intros Hl Hnames. unfold ensure_unique_section, own_name.
  destruct (bool_decide (n <> EmptyString) && bool_decide (n <> "guest"%string)) eqn:Eown.
  2: { split_and!; [|done|done|by intros o Ho%elem_of_nil|].
       - intros [Hn Hg]. by rewrite !bool_decide_true in Eown.
       - intros He. by apply first_free_nonempty in He. }
  apply andb_true_iff in Eown as [Hn%bool_decide_eq_true Hg%bool_decide_eq_true].
  destruct (s.(session_tables).(by_user) !! n) as [X|] eqn:HX.
  2: { split_and!; [by right|done|done|by intros o Ho%elem_of_nil|by intros ->]. }
  pose proof (any_live_spec al (weak_order X) X) as Hs.
  destruct (any_live al (weak_order X) X) as [X' []]; destruct Hs as (_ & _ & Ht).
  - destruct Ht as [(y & Hy & Hal) _]; [done|].
    split_and!; [by left|done|done|by intros o ->%list_elem_of_singleton|]. intros _.
    split_and!; [by apply list_elem_of_singleton|done|done|]. exists X, y.
    split_and!; [done| |done]. by rewrite weak_order_perm, elem_of_elements in Hy.
  - split_and!; [by right|done|done|by intros o Ho%elem_of_nil|by intros ->].
Qed.

Lemma session_uuid_exec {W} (world : forall R : Set, query R -> W -> R * W) al x s w :
  let '(s', _, os, r) := exec world al (get_or_create_session_uuid x) s w in
  login_view s' = login_view s /\ s'.(moderation) = s.(moderation)
  /\ s'.(session_tables).(by_user) = s.(session_tables).(by_user) /\ os = [] /\ is_Some r.
Proof.
  unfold get_or_create_session_uuid. rewrite !exec_ask. cbn [crit exec].
  destruct (s.(session_tables).(session_uuid) !! x) as [id|]; [|done]. by case_bool_decide.
Qed.

(** A name that [ensure_unique_section] grants is no live session's. *)
Lemma ensure_unique_free x n names last al s :
  n <> EmptyString -> n <> "guest"%string ->
  users_inv al s -> (ensure_unique_section x n names last al s).2 = n ->
  forall y, y ∈ al -> s.(session_tables).(user) !! y <> Some n.
Proof.
  intros Hn Hg HI Hr y Hy Hyn. destruct (inv_named _ _ HI y n Hy Hyn) as (X & HX & HyX).
  revert Hr. unfold ensure_unique_section. rewrite !bool_decide_true by done. cbn [andb]. rewrite HX.
  pose proof (any_live_spec al (weak_order X) X) as Hs.
  destruct (any_live al (weak_order X) X) as [X' taken]. destruct Hs as (_ & _ & Ht).
  assert (taken = true) as ->; [|cbn; congruence].
  apply Ht. exists y. split; [|done]. by rewrite weak_order_perm, elem_of_elements.
Qed.

Lemma ban_section_login_view now n ip h al s :
  login_view (ban_section now n ip h al s).1.1 = login_view s /\ (ban_section now n ip h al s).1.2 = [].
Proof.
  unfold ban_section. destruct (penalty_check _ _ _ _). case_bool_decide; [done|].
  destruct (expiry_check _ _ _ _). case_bool_decide; [done|]. by destruct (expiry_check _ _ _ _).
Qed.

Lemma hook_not_authenticated what ts x hooks y : Authenticated y ∉ (hook_verdict what ts x hooks).1.
Proof.
  assert (Hn : forall l, Authenticated y ∉ hook_notices ts x l) by (intros l (? & [=] & _)%list_elem_of_fmap).
  destruct hooks as [[out|] lua]; unfold hook_verdict.
  - destruct (stop_default out), (stop_default lua); cbn [fst];
      rewrite !elem_of_app, ?list_elem_of_singleton, ?elem_of_nil; naive_solver.
  - destruct (stop_default lua); cbn [fst]; rewrite !elem_of_app, ?list_elem_of_singleton, ?elem_of_nil; naive_solver.
Qed.

(** Why a login was refused: a plugin or a ban, or the name is taken. *)
Definition login_refusal (al : gset Z) (s : State) (n : string) (code : Z) : Prop :=
  code = FORBIDDEN \/ (code = NAME_TAKEN /\ own_name n /\ name_taken al s n).

(** Admission: nothing visible changes, nobody is authenticated; who is admitted was not
    banned, and had a name of their own free; who is not gets an error. *)
Lemma login_admit_exec {W} (world : forall R : Set, query R -> W -> R * W) al x n token s w :
  let '(s', _, os, r) := exec world al (login_admit x n token) s w in
  login_view s' = login_view s /\ (Authenticated x ∉ os)
  /\ match r with
     | Some (Some m) =>
         (own_name n -> m = n /\ (users_inv al s -> forall y, y ∈ al -> s.(session_tables).(user) !! y <> Some n))
         /\ exists w', ~ banned_at s m (remote_ip x) (hash_hwid_token token) (world Z NowQ w').1
     | Some None => exists code text, SendError x code text ∈ os /\ login_refusal al s n code
     | None => False
     end.
Proof.
  unfold login_admit. rewrite exec_bind. cbn [crit exec app]. set (s2 := set_by_session_id _ s).
  assert (V2 : login_view s2 = login_view s /\ users_view s2 = users_view s /\ s2.(moderation) = s.(moderation)
               /\ s2.(session_tables).(by_user) = s.(session_tables).(by_user)) by done.
  clearbody s2. destruct V2 as (V2 & U2 & M2 & B2).
  rewrite exec_bind. unfold ensure_unique_or_error. rewrite !exec_ask. cbn [crit exec].
  match goal with |- context [ensure_unique_section x n ?l ?d al s2] =>
    pose proof (ensure_unique_result x n l d al s2 (gen_temp_name_nonempty _)
      ltac:(repeat constructor; apply gen_temp_name_nonempty)) as H3;
    pose proof (fun Hn Hg => ensure_unique_free x n l d al s2 Hn Hg) as Hfree;
    destruct (ensure_unique_section x n l d al s2) as [[s3 o3] r3] end.
  destruct H3 as (Hr & V3 & M3 & Ho3 & Hne). cbn [app snd] in *.
  assert (Hno : Authenticated x ∉ o3) by (intros Ho; by apply Ho3 in Ho).
  case_bool_decide as Hre.
  { cbn. rewrite !app_nil_r. split_and!; [by rewrite V3|done|]. destruct (Hne Hre) as (Herr & Hown & X & y & HX & ?).
    exists NAME_TAKEN, "name taken"%string. split; [done|]. right. split_and!; [done..|].
    exists X, y. by rewrite <- B2. }
  rewrite !exec_ask.
  match goal with |- context [maybe_handle_login_hook ?ts x ?h] =>
    pose proof (hook_stop_error "login" ts x h) as Hstop;
    destruct (maybe_handle_login_hook ts x h) as [ho stop] eqn:Hh end.
  unfold maybe_handle_login_hook in Hh. rewrite Hh in Hstop. cbn [fst snd] in Hstop.
  assert (Hnoh : Authenticated x ∉ ho) by (intros Ho; eapply hook_not_authenticated; by rewrite Hh).
  rewrite exec_bind. cbn [emit exec app]. rewrite app_nil_r. destruct stop.
  { cbn. rewrite !app_nil_r. split_and!; [by rewrite V3|rewrite elem_of_app; naive_solver|].
    destruct Hstop as [text Ht]; [done|]. exists FORBIDDEN, text. split; [|by left]. apply elem_of_app. by right. }
  rewrite exec_ask, exec_bind. cbn [crit exec].
  match goal with |- context [ban_section (world Z NowQ ?w').1 r3 ?ip ?h al s3] =>
    pose proof (ban_section_spec (world Z NowQ w').1 r3 ip h al s3) as Hdeny;
    pose proof (ban_section_login_view (world Z NowQ w').1 r3 ip h al s3) as [V4 O4];
    destruct (ban_section (world Z NowQ w').1 r3 ip h al s3) as [[s4 o4] deny];
    assert (banned_at s3 r3 ip h (world Z NowQ w').1 <-> banned_at s r3 ip h (world Z NowQ w').1) as Hb
      by (unfold banned_at; by rewrite M3, M2); set (w1 := w') in * end.
  cbn [fst snd] in *. subst o4.
  case_bool_decide as Hd; cbn; rewrite ?app_nil_r.
  - split_and!; [by rewrite V4, V3| |].
    + rewrite !elem_of_app, ?list_elem_of_singleton. naive_solver.
    + exists FORBIDDEN, deny. split; [|by left]. rewrite !elem_of_app, ?list_elem_of_singleton. naive_solver.
  - split_and!; [by rewrite V4, V3|rewrite ?elem_of_app; naive_solver| |].
    + intros Hown. destruct (Hr Hown) as [->| ->]; [done|]. split; [done|]. intros HU.
      assert (s2.(session_tables).(user) = s.(session_tables).(user)) as Eu
        by (unfold login_view in V2; by simplify_eq).
      rewrite <- Eu. destruct Hown. apply Hfree; [done|done| |done]. by apply (users_inv_frame al s).
    + exists w1. rewrite <- Hb, <- Hdeny. naive_solver.
Qed.

(** Bans that apply to a login: of the name if it is the user's own, of the address, of the
    device. *)
Definition login_banned (s : State) (n ip hwid : string) (now : Z) : Prop :=
  (own_name n /\ active s.(moderation).(banned_users) n now)
  \/ (ip <> EmptyString /\ exists e, s.(moderation).(banned_ips) !! ip = Some e /\ now < e)
  \/ (hwid <> EmptyString /\ exists e, s.(moderation).(banned_hwid_hashes) !! hwid = Some e /\ now < e).

(** C36. While a ban of the name (for a login with a name of its own), of the address or of the
    device holds, a login is refused: no name, room, room membership or authentication of
    any session changes, the session is not authenticated, and it gets an error: FORBIDDEN,
    or NAME_TAKEN when a live session is listed under the name, which is checked first. *)
Theorem login_refuses_banned {W} (world : forall R : Set, query R -> W -> R * W) al x n token s w :
  (forall w', login_banned s n (remote_ip x) (hash_hwid_token token) (world Z NowQ w').1) ->
  let '(s', _, os, _) := exec world al (login_job x n token) s w in
  login_view s' = login_view s /\ (Authenticated x ∉ os)
  /\ exists code text, SendError x code text ∈ os
       /\ (code = FORBIDDEN \/ (code = NAME_TAKEN /\ own_name n /\ name_taken al s n)).
Proof.
  intros Hban. unfold login_job. rewrite exec_bind.
  pose proof (session_uuid_exec world al x s w) as H1.
  destruct (exec world al (get_or_create_session_uuid x) s w) as [[[s1 w1] o1] r1].
  destruct H1 as (V1 & M1 & B1 & -> & [sid ->]). cbv zeta. rewrite exec_bind.
  pose proof (login_admit_exec world al x n token s1 w1) as H2.
  destruct (exec world al (login_admit x n token) s1 w1) as [[[s2 w2] o2] r2].
  destruct H2 as (V2 & Hno & Hadm). destruct r2 as [[m|]|]; [| |done].
  - destruct Hadm as (Hm & w' & Hnot). destruct Hnot. unfold banned_at. rewrite M1.
    destruct (Hban w') as [[Hown Ha]|[Hi|Hi]]; [left|by right; left|by right; right].
    by destruct (Hm Hown) as [-> _].
  - cbn. rewrite app_nil_r. split_and!; [by rewrite V2|done|]. destruct Hadm as (code & text & Hin & Hc).
    exists code, text. split; [done|]. destruct Hc as [->|(-> & Hown & X & y & HX & Hy)]; [by left|right].
    split_and!; [done|apply Hown..|]. exists X, y. by rewrite <- B1.
Qed.
End login.

(** The world of [example_world] with the clock standing still. *)
Definition fixed_world (now : Z) (R : Set) (q : query R) (w : Z) : R * Z := ((example_world R q now).1, w).

Lemma login_refuses_banned_witness :
  let s := ban_user "bob" 100 "banned by admin" (empty_State default_settings) in
  let '(s', _, os, _) := exec (fixed_world 5) {[1]} (login_job 1 "bob" "token") s 0 in
  login_view s' = login_view s /\ (Authenticated 1 ∉ os)
  /\ exists code text, SendError 1 code text ∈ os
       /\ (code = FORBIDDEN \/ (code = NAME_TAKEN /\ own_name "bob" /\ name_taken {[1]} s "bob")).
Proof.
  cbv zeta.
  apply (login_refuses_banned (fixed_world 5) {[1]} 1 "bob" "token"
           (ban_user "bob" 100 "banned by admin" (empty_State default_settings)) 0).
  intros w'. left. split; [by split|]. exists (mkTimedPenalty 100 "banned by admin"). by vm_compute.
Defined.

(** ** Authority *)

Section authority.
  Context `{!ChatEnv}.

(** A program that only talks to sessions. *)
Definition harmless (p : prog unit) : Prop :=
  emits (fun o => forall y, o <> Stop y) p /\ crit_all (fun _ s s' => s' = s) p.

Lemma harmless_exec {W} (world : forall R : Set, query R -> W -> R * W) al p s w :
  harmless p -> (exec world al p s w).1.1.1 = s /\ forall y, Stop y ∉ (exec world al p s w).1.2.
Proof.
  intros [He Hc]. split; [|intros y Hy; by eapply (exec_emits _ world al p s w _ He Hy)].
  clear He. revert s w. induction p as [a| |R f k IH|os k IH|R q k IH]; intros s w; cbn in *; [done|done| | |].
  - destruct Hc as [Hf Hk]. specialize (Hf al s). destruct (f al s) as [[s1 o1] r]. cbn in Hf. subst s1.
    specialize (IH r (Hk r) s w). by destruct (exec world al (k r) s w) as [[[??]?]?].
  - specialize (IH Hc s w). by destruct (exec world al k s w) as [[[??]?]?].
  - destruct (world R q w) as [r w']. by apply IH.
Qed.

Lemma harmless_notice x text : harmless (send_system_notice x text).
Proof. split; [|done]. intros ts. split; [|done]. by intros o ->%list_elem_of_singleton. Qed.

(** Running into a refusal: the section does nothing and says so. *)
Lemma refused_exec {W} (world : forall R : Set, query R -> W -> R * W) al {R : Set}
    (f : gset Z -> State -> State * list Out * R) (k : R -> prog unit) s w r :
  f al s = (s, [], r) -> harmless (k r) ->
  (exec world al (crit f ≫= k) s w).1.1.1 = s /\ forall y, Stop y ∉ (exec world al (crit f ≫= k) s w).1.2.
Proof.
  intros Hf Hk. rewrite exec_bind. cbn [crit exec]. rewrite Hf. cbn [app].
  destruct (harmless_exec world al (k r) s w Hk) as [H1 H2].
  by destruct (exec world al (k r) s w) as [[[??]?]?].
Qed.

(** Who may manage a room: an administrator or its owner, but no guest. *)
Definition may_manage (s : State) (n r : string) : Prop :=
  n <> "guest"%string /\ (n ∈ admin_users_ \/ s.(room_tables).(room_owners) !! r = Some n).

Lemma controls_room_spec s n r : ~ may_manage s n r -> controls_room s n r = false.
Proof.
  intros Hn. destruct (controls_room s n r) eqn:Hc; [|done]. destruct Hn. unfold controls_room in Hc.
  by rewrite andb_true_iff, orb_true_iff, !bool_decide_eq_true in Hc.
Qed.

(** The room a command names: the next word, or the room of the session. *)
Definition named_room (room rest : string) : string :=
  let r := (next_word rest).1 in if bool_decide (r = EmptyString) then room else r.

End authority.

