(* ===== verification/ChatNames.v ===== *)
(** Names of the chat service: unique as long as logins run one after the other, not when
    they interleave; and examples of what sessions leave behind. *)

From S2P Require Import Prelude Text ProtocolErrors Utf8 ChatText ChatState ChatCore ChatViews ChatRooms ChatCommands ChatSend ChatAdmin ChatInv ChatConsistency ChatProps ChatGate.

(** ** What a program keeps *)

Lemma exec_crit_all {W} (world : forall R : Set, query R -> W -> R * W) al (P : gset Z -> State -> State -> Prop)
    {A} (p : prog A) s w :
  (forall s, P al s s) -> (forall s1 s2 s3, P al s1 s2 -> P al s2 s3 -> P al s1 s3) ->
  crit_all P p -> P al s (exec world al p s w).1.1.1.
Proof.
  intros Hrefl Htrans. revert s w. induction p as [a| |R f k IH|os k IH|R q k IH]; intros s w Hc; cbn in *;
    [apply Hrefl|apply Hrefl| | |].
  - destruct Hc as [Hf Hk]. specialize (Hf al s). destruct (f al s) as [[s1 o1] r]. cbn in Hf.
    specialize (IH r s1 w (Hk r)). destruct (exec world al (k r) s1 w) as [[[s2 w2] o2] a]. cbn in *. by apply (Htrans _ s1).
  - specialize (IH s w Hc). by destruct (exec world al k s w) as [[[s2 w2] o2] a].
  - destruct (world R q w) as [r w']. by apply IH.
Qed.

(** ** Unique names *)

Definition unique_names (al : gset Z) (s : State) : Prop :=
  forall x y n, x ∈ al -> y ∈ al -> s.(session_tables).(user) !! x = Some n ->
    s.(session_tables).(user) !! y = Some n -> x = y.

Definition same_names (_ : gset Z) (s s' : State) : Prop := s'.(session_tables).(user) = s.(session_tables).(user).

Section names.
  Context `{!ChatEnv}.

Abbreviation renames_nobody := (crit_all same_names).

Ltac names_job := repeat crit_step; try done.

Lemma names_reads {R : Set} (f : State -> R) : renames_nobody (reads f).
Proof. by split. Qed.

Lemma names_refresh room : renames_nobody (broadcast_refresh room).
Proof.
  unfold broadcast_refresh, broadcast_refresh_local. names_job. unfold collect_room, same_names.
  by destruct (_ !! room).
Qed.

Lemma names_ensure_room room : renames_nobody (ensure_room_id_ci room).
Proof. unfold ensure_room_id_ci. names_job. unfold same_names. by destruct (_ !! room). Qed.

Lemma names_login_db x n ip : renames_nobody (login_db x n ip).
Proof. unfold login_db, obtain_uid, find_uid. repeat first [apply names_ensure_room|crit_step]; done. Qed.

Lemma names_login_finish x sid n ip : renames_nobody (login_finish x sid n ip).
Proof.
  unfold login_finish, touch_user_presence, emit_write_behind_event.
  repeat first [apply names_login_db|apply names_refresh|apply names_reads|crit_step]; done.
Qed.

Lemma login_section_user x n g ip h al s :
  (login_section x n g ip h al s).1.1.(session_tables).(user) = <[x := n]> s.(session_tables).(user).
Proof.
  unfold login_section. cbn [fst]. destruct (forget_name_view x s) as (_ & Eu & _).
  destruct (record_origin_view x n ip h (take_name x n g (forget_name x s))) as [_ Hv].
  change ((record_origin x n ip h (take_name x n g (forget_name x s))).(session_tables).(user)
          = <[x := n]> s.(session_tables).(user)).
  rewrite (users_view_user _ _ Hv). cbn. by rewrite Eu.
Qed.

(** Run by itself, a login under a name leaves no two live sessions with the same name. *)
Theorem login_keeps_names_unique {W} (world : forall R : Set, query R -> W -> R * W) al x n token s w :
  n <> EmptyString -> n <> "guest"%string -> chat_inv al s -> unique_names al s ->
  unique_names al (exec world al (login_job x n token) s w).1.1.1.
Proof.
  intros Hn Hg HI Hu. unfold login_job. rewrite exec_bind.
  pose proof (session_uuid_exec world al x s w) as H1.
  pose proof (exec_crit_all world al keeps_inv (get_or_create_session_uuid x) s w ltac:(by unfold keeps_inv)
    ltac:(unfold keeps_inv; naive_solver) (safe_session_uuid x) HI) as HI1.
  destruct (exec world al (get_or_create_session_uuid x) s w) as [[[s1 w1] o1] r1]. cbn [fst] in HI1.
  destruct H1 as (V1 & _ & _ & -> & [sid ->]). cbv zeta. rewrite exec_bind.
  assert (E1 : s1.(session_tables).(user) = s.(session_tables).(user)) by (unfold login_view in V1; by simplify_eq).
  pose proof (login_admit_exec world al x n token s1 w1) as H2.
  destruct (exec world al (login_admit x n token) s1 w1) as [[[s2 w2] o2] r2].
  destruct H2 as (V2 & _ & Hadm).
  assert (E2 : s2.(session_tables).(user) = s.(session_tables).(user))
    by (unfold login_view in V2; simplify_eq; congruence).
  destruct r2 as [[m|]|]; [|cbn; unfold unique_names; by rewrite E2..].
  destruct (proj1 Hadm (conj Hn Hg)) as [-> Hfree]. specialize (Hfree (inv_users _ _ HI1)). rewrite E1 in Hfree.
  rewrite exec_bind. cbn [crit exec].
  match goal with |- context [login_section x n ?g ?ip ?h al s2] =>
    pose proof (login_section_user x n g ip h al s2) as E3; destruct (login_section x n g ip h al s2) as [[s3 o3] []] end.
  cbn [fst] in E3. rewrite E2 in E3.
  pose proof (exec_crit_all world al same_names (login_finish x sid n (remote_ip x)) s3 w2 ltac:(by unfold same_names)
    ltac:(unfold same_names; congruence) (names_login_finish x sid n (remote_ip x))) as E4.
  destruct (exec world al (login_finish x sid n (remote_ip x)) s3 w2) as [[[s4 w4] o4] r4]. cbn [fst] in E4 |- *.
  unfold same_names in E4. unfold unique_names. rewrite E4, E3. intros y z m Hy Hz.
  destruct (decide (y = x)) as [->|Hyx], (decide (z = x)) as [->|Hzx]; [done|..];
    rewrite ?lookup_insert_eq, ?(lookup_insert_ne _ x y), ?(lookup_insert_ne _ x z) by done.
  - intros [= <-] Hm. by destruct (Hfree z Hz).
  - intros Hm [= <-]. by destruct (Hfree y Hy).
  - by apply Hu.
Qed.
End names.

(** States of the examples are consistent. *)
Lemma logged_in_inv al names : chat_inv al (logged_in al names).
Proof.
  unfold logged_in. assert (chat_inv al (empty_State default_settings)) as HI by apply empty_State_inv.
  revert HI. generalize (empty_State default_settings). induction names as [|[x n] names IH]; intros s HI; [done|].
  cbn [foldl]. apply IH. apply (exec_crit_all example_world al keeps_inv); [by unfold keeps_inv| |apply safe_login|done].
  unfold keeps_inv. naive_solver.
Qed.

Lemma login_keeps_names_unique_witness :
  unique_names {[1; 2]}
    (exec example_world {[1; 2]} (login_job 2 "bob" "token") (logged_in {[1; 2]} [(1, "alice"%string)]) 5).1.1.1
  /\ (exec example_world {[1; 2]} (login_job 2 "bob" "token")
       (logged_in {[1; 2]} [(1, "alice"%string)]) 5).1.1.1.(session_tables).(user) !! 2 = Some "bob"%string.
Proof.
  split; [|by vm_compute].
  apply (login_keeps_names_unique example_world {[1; 2]} 2 "bob" "token"); [done|done|apply logged_in_inv|].
  intros x y n Hx Hy Hnx Hny.
  assert ((logged_in {[1; 2]} [(1, "alice"%string)]).(session_tables).(user) = {[1 := "alice"%string]}) as E by (by vm_compute).
  rewrite E in Hnx, Hny. apply lookup_singleton_Some in Hnx as [<- _], Hny as [<- _]. done.
Defined.

(** ** What goes wrong *)

(** Two logins under one name, each past its check before the other stores its name, give
    two live sessions the name. *)
Lemma interleaved_logins_share_a_name :
  let c := (run_threads example_world (replicate 10 0%nat ++ replicate 60 1%nat ++ replicate 60 0%nat)
              (two_logins "alice") 5).1 in
  rtc (fresh_step service_job) (initial_config default_settings) c /\ ~ unique_names c.(calive) c.(cstate).
Proof.
  cbv zeta. split.
  - eapply rtc_trans; [apply (two_logins_reachable "alice")|apply run_threads_sound].
  - intros Hu. discriminate (Hu 1 2 "alice"%string ltac:(by vm_compute) ltac:(by vm_compute)
                               ltac:(by vm_compute) ltac:(by vm_compute)).
Qed.

(** A login that runs after the job of its session's close leaves the session in the tables.
    The next session at that address is alive, logged in under the name and in no room's
    set, before it has sent anything. *)
Definition late_login : Config :=
  (run_threads example_world (replicate 60 1%nat ++ replicate 60 0%nat)
     (service default_settings [1] [login_job 1 "alice" EmptyString; close_job 1]) 5).1.

Lemma late_login_reachable : rtc (chat_step service_job) (initial_config default_settings) late_login.
Proof.
  apply (rtc_subrel (fresh_step service_job)); [by intros ?? [? _]|].
  eapply rtc_trans; [|apply run_threads_sound].
  apply service_reachable; [by apply (bool_decide_unpack _)|]. intros p [<-|[<-|[]]]; constructor.
Qed.

Lemma reused_address_is_logged_in :
  exists c, rtc (chat_step service_job) (initial_config default_settings) c
    /\ c.(calive) = {[1]} /\ 1 ∈ c.(cstate).(session_tables).(authed)
    /\ c.(cstate).(session_tables).(user) !! 1 = Some "alice"%string
    /\ forall r X, c.(cstate).(room_tables).(rooms) !! r = Some X -> 1 ∉ X.
Proof.
  pose proof late_login_reachable as Hc.
  assert (Hr : late_login.(cstate).(room_tables).(rooms) = {["lobby"%string := {[1]}]}) by (vm_compute; reflexivity).
  assert (Hb : late_login.(cstate).(session_tables).(by_user) = {["alice"%string := {[1]}]}) by (vm_compute; reflexivity).
  assert (Hu : late_login.(cstate).(session_tables).(user) = {[1 := "alice"%string]}) by (vm_compute; reflexivity).
  assert (Hcur : late_login.(cstate).(session_tables).(cur_room) = {[1 := "lobby"%string]}) by (vm_compute; reflexivity).
  assert (Ha : late_login.(cstate).(session_tables).(authed) = {[1]}) by (vm_compute; reflexivity).
  assert (Hgu : late_login.(cstate).(session_tables).(guest) = ∅) by (vm_compute; reflexivity).
  assert (Hal : late_login.(calive) = {[1]}) by (vm_compute; reflexivity).
  revert Hc Hr Hb Hu Hcur Ha Hgu Hal. generalize late_login. intros [s al ts tr]. cbn. intros Hc Hr Hb Hu Hcur Ha Hgu ->.
  exists (mkConfig (reuse_address 1 2 s) ({[1]} ∪ ({[1]} ∖ {[1]})) ts tr). split_and!.
  - eapply rtc_trans; [exact Hc|]. apply (rtc_l _ _ (mkConfig s ({[1]} ∖ {[1]}) ts tr)); [constructor|].
    apply rtc_once. constructor; [set_solver|set_solver|]. unfold unknown. rewrite Hr, Hb, Hu, Hcur, Ha, Hgu.
    split_and!; [done|done|set_solver|set_solver|..]; intros ? X [_ <-]%lookup_singleton_Some; set_solver.
  - cbn. set_solver.
  - cbn. rewrite Ha. set_solver.
  - cbn. by rewrite Hu.
  - cbn. rewrite Hr, map_fmap_singleton. intros ? X [_ <-]%lookup_singleton_Some.
    unfold expired_as. rewrite bool_decide_true by set_solver. set_solver.
Qed.

(** A session that logs in again from a room stays in the room's set beside the lobby's. *)
Definition relogin_state : State :=
  let s := logged_in {[1]} [(1, "alice"%string)] in
  let s := (exec example_world {[1]} (join_job 1 "den" EmptyString) s 5).1.1.1 in
  (exec example_world {[1]} (login_job 1 "alice2" EmptyString) s 5).1.1.1.

Lemma relogin_in_two_rooms :
  relogin_state.(session_tables).(cur_room) !! 1 = Some lobby
  /\ relogin_state.(room_tables).(rooms) !! lobby = Some {[1]}
  /\ relogin_state.(room_tables).(rooms) !! "den"%string = Some {[1]}.
Proof. by vm_compute. Qed.

(** The password of a room of another server, seen by a refused join, still locks the name
    here after that room is gone: no room, no owner, no password in Redis. *)
Lemma refused_join_locks_name :
  let s := logged_in {[1; 2]} [(1, "alice"%string); (2, "bob"%string)] in
  let s1 := (join_section 1 "den" EmptyString (Some "sha256:00"%string) no_hooks 5 {[1; 2]} s).1.1 in
  s1.(room_tables).(rooms) !! "den"%string = None /\ s1.(room_tables).(room_owners) !! "den"%string = None
  /\ (join_section 2 "den" EmptyString None no_hooks 5 {[1; 2]} s1).1.2
     = [SendError 2 FORBIDDEN "room locked"].
Proof. by vm_compute. Qed.

(** ** With Redis *)

(** The example service connected to a Redis that keeps sets and answers every command. *)
Definition redis_env : ChatEnv := {|
  weak_order := @weak_order example_env;
  weak_order_perm := @weak_order_perm example_env;
  table_order := @table_order example_env;
  table_order_perm := @table_order_perm example_env;
  session_id := @session_id example_env;
  remote_ip := @remote_ip example_env;
  redis_ := true;
  db_pool_ := false;
  redis_pubsub_enabled_ := true;
  gateway_id_ := "gw-default";
  presence_prefix := EmptyString;
  admin_users_ := @admin_users_ example_env;
  wb_enabled := false;
  stream_key := EmptyString;
  fetch_factor := 3;
  cache_ttl_sec := 3600;
  sha256 := @sha256 example_env;
  std_hash := @std_hash example_env;
  serialize_message := @serialize_message example_env;
  parse_message := @parse_message example_env;
|}.

Definition redis_world (R : Set) (q : query R) (w : gmap string (gset string)) : R * gmap string (gset string) :=
  let members k := default ∅ (w !! k) in
  match q in query R return R * gmap string (gset string) with
  | RedisSAdd k v => (Val (bool_decide (v ∉ members k)), <[k := {[v]} ∪ members k]> w)
  | RedisSRem k v => (Val (bool_decide (v ∈ members k)), <[k := members k ∖ {[v]}]> w)
  | RedisSCard k => (Val (Some (Z.of_nat (size (members k)))), w)
  | RedisSMembers k => (Val (Some (elements (members k))), w)
  | RedisSCardMany ks => (Val (Some (map (fun k => Z.of_nat (size (members k))) ks)), w)
  | RedisGet _ => (Val None, w)
  | RedisMGet ks => (Val (Some (map (fun _ => None) ks)), w)
  | RedisSetEx _ _ _ => (Val true, w)
  | RedisDel _ => (Val true, w)
  | RedisPublish _ _ _ => (Val true, w)
  | q => ((example_world _ q 5).1, w)
  end.

(** A login, a join and the end of the connection with Redis' sets: the user is gone from
    every table but is listed in the lobby from then on. *)
Definition joined_and_closed : State * gmap string (gset string) :=
  let run p sw := let '(s', w', _, _) := exec redis_world {[1]} p (sw : _ * _).1 sw.2 in (s', w') in
  run (@close_job redis_env 1) (run (@join_job redis_env 1 "den" EmptyString)
    (run (@login_job redis_env 1 "alice" EmptyString) (empty_State default_settings, ∅))).

Lemma closed_user_stays_in_lobby :
  joined_and_closed.1.(session_tables).(user) !! 1 = None
  /\ joined_and_closed.2 !! "room:users:lobby"%string = Some {["alice"%string]}.
Proof. by vm_compute. Qed.
