(* ===== verification/ChatHistory.v ===== *)
(** The recent history a snapshot carries, and the ranges of the runtime settings. *)

From S2P Require Import Prelude Text Utf8 ChatText ChatState ChatCore ChatViews ChatRooms ChatCommands ChatSend ChatAdmin ChatInv ChatConsistency ChatProps.

(** ** What a program returns *)

(** [ok] says which answers the world gives; [cfg] are the settings throughout. *)
Section ensures.
  Context (ok : forall R : Set, query R -> R -> Prop) (cfg : Settings).

Fixpoint ensures {A} (Q : A -> Prop) (p : prog A) : Prop :=
  match p with
  | Ret a => Q a
  | Raise => True
  | Crit f k => forall al s, s.(settings) = cfg -> ensures Q (k (f al s).2)
  | Emit _ k => ensures Q k
  | Ask q k => forall r, ok _ q r -> ensures Q (k r)
  end.

Lemma ensures_bind {A B} (Q1 : A -> Prop) (Q2 : B -> Prop) (p : prog A) (f : A -> prog B) :
  ensures Q1 p -> (forall a, Q1 a -> ensures Q2 (f a)) -> ensures Q2 (p ≫= f).
Proof.
  intros Hp Hf. unfold mbind, prog_bind.
  induction p as [a| |R c k IH|os k IH|R q k IH]; cbn in *; auto.
Qed.

Lemma ensures_any {A} (p : prog A) : ensures (fun _ => True) p.
Proof. induction p; cbn; auto. Qed.

Lemma ensures_skip {A B} (Q : B -> Prop) (p : prog A) (f : A -> prog B) :
  (forall a, ensures Q (f a)) -> ensures Q (p ≫= f).
Proof. intros Hf. by apply (ensures_bind (fun _ => True)); [apply ensures_any|]. Qed.

Lemma ensures_impl {A} (Q1 Q2 : A -> Prop) (p : prog A) :
  (forall a, Q1 a -> Q2 a) -> ensures Q1 p -> ensures Q2 p.
Proof. intros Hi. induction p; cbn; eauto. Qed.

Lemma ensures_try {A} (Q : A -> Prop) (p h : prog A) : ensures Q p -> ensures Q h -> ensures Q (try_catch p h).
Proof. intros Hp Hh. induction p; cbn in *; auto. Qed.

(** An execution in a world that answers so, and with these settings. *)
Lemma exec_ensures {W} (world : forall R : Set, query R -> W -> R * W) al {A} (Q : A -> Prop) (p : prog A) s w a :
  (forall R (q : query R) w, ok R q (world R q w).1) ->
  crit_all (fun _ s s' => s.(settings) = cfg -> s'.(settings) = cfg) p -> s.(settings) = cfg ->
  ensures Q p -> (exec world al p s w).2 = Some a -> Q a.
Proof.
  intros Hw. revert s w. induction p as [b| |R f k IH|os k IH|R q k IH]; intros s w Hc Hs He; cbn in *.
  - by intros [= <-].
  - done.
  - destruct Hc as [Hf Hk]. specialize (Hf al s Hs). specialize (He al s Hs).
    destruct (f al s) as [[s1 o1] r]. cbn in *. specialize (IH r s1 w (Hk r) Hf He).
    destruct (exec world al (k r) s1 w) as [[[s2 w2] o2] b]. cbn in *. done.
  - specialize (IH s w Hc Hs He). by destruct (exec world al k s w) as [[[s2 w2] o2] b].
  - specialize (Hw R q w). destruct (world R q w) as [r w']. apply IH; [done|done|]. by apply He.
Qed.
End ensures.

(** ** History *)

Section history.
  Context `{!ChatEnv}.

Lemma dedup_ids_spec seen ms :
  NoDup (msg_id <$> dedup_ids seen ms) /\ (forall m, m ∈ dedup_ids seen ms -> m.(msg_id) ∉ seen)
  /\ (length (dedup_ids seen ms) <= length ms)%nat.
Proof.
  revert seen. induction ms as [|m ms IH]; intros seen; cbn [dedup_ids].
  { split_and!; [constructor|by intros m Hm%elem_of_nil|done]. }
  case_decide as Hm.
  - destruct (IH seen) as (H1 & H2 & H3). split_and!; [done|done|simpl; lia].
  - destruct (IH ({[m.(msg_id)]} ∪ seen)) as (H1 & H2 & H3). split_and!; [| |simpl; lia].
    + cbn [fmap list_fmap]. constructor; [|done]. intros (m' & Heq & Hin)%list_elem_of_fmap.
      apply (H2 m' Hin). rewrite <- Heq. set_solver.
    + intros m' [->|Hin]%elem_of_cons; [done|]. specialize (H2 m' Hin). set_solver.
Qed.

Definition row_id (row : Z * option string * string * Z) : Z := row.1.1.1.

Lemma db_message_id (rows : list (Z * option string * string * Z)) : msg_id <$> (db_message <$> rows) = row_id <$> rows.
Proof. induction rows as [|[[[id who] text] ts] rows IH]; [done|]. cbn. by rewrite IH. Qed.

Lemma sublist_last_n {A} n (l : list A) : last_n n l `sublist_of` l.
Proof. unfold last_n. apply sublist_drop. Qed.

Lemma length_last_n {A} n (l : list A) : (length (last_n n l) <= n)%nat.
Proof. unfold last_n. rewrite length_drop. lia. Qed.

Lemma select_rows_spec added limit cached rows :
  NoDup (row_id <$> rows) ->
  let msgs := select_rows added limit cached rows in
  NoDup (msg_id <$> msgs) /\ (forall m, m ∈ msgs -> m.(msg_id) ∉ added)
  /\ zlen msgs <= Z.max 0 (limit - cached).
Proof.
  intros Hnd. cbv zeta. unfold select_rows. set (fresh := filter _ rows).
  set (budget := if limit <=? cached then 0 else limit - cached).
  assert (Hsub : last_n (Z.to_nat budget) (last_n (Z.to_nat limit) fresh) `sublist_of` fresh)
    by (etrans; apply sublist_last_n).
  split_and!.
  - rewrite db_message_id. eapply sublist_NoDup; [exact Hnd|].
    apply fmap_sublist. etrans; [exact Hsub|]. apply sublist_filter.
  - intros m ([[[id who] text] ts] & -> & Hin)%list_elem_of_fmap. cbn.
    eapply elem_of_sublist in Hin; [|exact Hsub]. by apply list_elem_of_filter in Hin as [? _].
  - rewrite length_fmap. pose proof (length_last_n (Z.to_nat budget) (last_n (Z.to_nat limit) fresh)).
    subst budget. destruct (Z.leb_spec limit cached); lia.
Qed.

(** The messages that [add_rows] has added when it stops. *)
Lemma add_rows_ensures ok cfg rid msgs acc :
  ensures ok cfg (fun r => exists l, r = acc ++ l /\ l `prefix_of` msgs) (add_rows rid msgs acc).
Proof.
  revert acc. induction msgs as [|m msgs IH]; intros acc; cbn [add_rows].
  { exists []. by rewrite app_nil_r. }
  apply ensures_skip. intros [].
  - eapply ensures_impl; [|apply IH]. intros r (l & -> & Hl). exists (m :: l).
    rewrite <- app_assoc. split; [done|]. by apply prefix_cons.
  - exists [m]. split; [done|]. apply prefix_cons, prefix_nil.
Qed.

(** The documented behaviour of Redis and of the database that the history relies on:
    a range has no more entries than asked for, rows have distinct identifiers. *)
Definition history_answers (R : Set) (q : query R) : R -> Prop :=
  match q in query R return R -> Prop with
  | RedisLRange _ start stop => fun r =>
      forall l, r = Val (Some l) -> zlen l <= Z.max 0 (stop - start + 1)
  | DbFetchRecent _ _ _ => fun r => forall rows, r = Val rows -> NoDup (row_id <$> rows)
  | _ => fun _ => True
  end.

Definition history_ok (limit : Z) (ms : list SnapshotMessage) : Prop :=
  NoDup (msg_id <$> ms) /\ zlen ms <= limit.

Lemma load_each_length ok cfg ids : ensures ok cfg (fun l => (length l <= length ids)%nat) (load_each ids).
Proof.
  induction ids as [|id ids IH]; cbn [load_each]; [cbn; lia|]. apply ensures_skip. intros payload.
  eapply ensures_bind; [exact IH|]. intros l Hl. cbn in Hl. destruct payload as [p|]; cbn; [destruct (parse_message p); cbn; lia|lia].
Qed.

Lemma length_omap {A B} (f : A -> option B) (l : list A) : (length (omap f l) <= length l)%nat.
Proof. induction l as [|a l IH]; cbn; [lia|]. destruct (f a); simpl; lia. Qed.

Lemma load_cache_ensures cfg rid :
  0 <= cfg.(recent_limit) ->
  ensures history_answers cfg (fun r => forall l, r = Some l -> zlen l <= cfg.(recent_limit))
    (load_recent_messages_from_cache rid).
Proof.
  intros H0. unfold load_recent_messages_from_cache.
  apply (ensures_bind _ _ (fun limit => limit = cfg.(recent_limit))); [cbn; by intros al s ->|].
  intros limit ->. destruct (_ || _ || _); [by cbn|].
  eapply (ensures_bind _ _ (fun ids => zlen (default [] ids) <= cfg.(recent_limit))).
  { intros [ids|] Hok; cbn in Hok |- *; [|done]. destruct ids as [l|]; cbn; [|lia]. specialize (Hok l eq_refl). lia. }
  intros ids Hids. pose proof (length_omap valid_id (default [] ids)) as Hv.
  destruct (omap valid_id (default [] ids)) as [|z valid] eqn:Ev; [by cbn|].
  apply ensures_skip. intros payloads.
  apply (ensures_bind _ _ (fun parsed => (length parsed <= length (z :: valid))%nat)).
  { unfold batch. destruct payloads as [ps|]; [|apply load_each_length].
    destruct (Nat.eqb_spec (length ps) (length (z :: valid))) as [Hlen|]; [|apply load_each_length].
    change (length (omap (fun p : option string => p ≫= parse_message) ps) <= length (z :: valid))%nat.
    rewrite <- Hlen. apply length_omap. }
  intros parsed Hp. destruct parsed as [|m parsed]; [by cbn|]. intros l Hl.
  assert (l = reverse (m :: parsed)) as -> by (by injection Hl).
  rewrite length_reverse. simpl in *. lia.
Qed.

Lemma db_history_ensures cfg x rid loaded n acc :
  NoDup (msg_id <$> acc) -> zlen acc <= n -> n <= cfg.(recent_limit) ->
  ensures history_answers cfg (fun r => history_ok cfg.(recent_limit) r.2) (db_history x rid loaded n acc).
Proof.
  intros Hnd Hlen Hn. assert (Hacc : history_ok cfg.(recent_limit) acc) by (split; [done|lia]).
  unfold db_history. do 2 (apply ensures_skip; intros ?). case_match; [|done].
  apply (ensures_bind _ _ (fun c => c = cfg)); [cbn; by intros al s ->|]. intros c ->.
  destruct (_ && _); [done|].
  apply (ensures_bind _ _ (fun r => forall rows, r = Some rows -> NoDup (row_id <$> rows))).
  { apply ensures_try; [|by cbn]. apply ensures_skip. intros last_id.
    apply (ensures_bind _ _ (fun rows => NoDup (row_id <$> rows))).
    - intros [rows|] Hok; cbn in Hok |- *; [by apply Hok|done].
    - cbn. by intros rows Hr rows' [= <-]. }
  intros [rows|] Hrows; [|done]. specialize (Hrows rows eq_refl).
  eapply ensures_bind; [apply add_rows_ensures|]. intros r (l & -> & Hl). cbn.
  destruct (select_rows_spec (list_to_set (msg_id <$> acc)) cfg.(recent_limit) n rows Hrows) as (H1 & H2 & H3).
  destruct Hl as [rest Hsel]. rewrite Hsel in H1, H2, H3. split.
  - rewrite fmap_app in H1 |- *. apply NoDup_app in H1 as (Hl & _). apply NoDup_app. split_and!; [done| |done].
    intros id Hid (m & -> & Hm)%list_elem_of_fmap. apply (H2 m); [apply elem_of_app; by left|].
    by apply elem_of_list_to_set.
  - rewrite length_app in H3 |- *. lia.
Qed.

(** The history leaves the settings alone. *)
Lemma recent_messages_settings cfg x room :
  crit_all (fun _ s s' => s.(settings) = cfg -> s'.(settings) = cfg) (recent_messages x room).
Proof.
  assert (Hcache : forall rid m, crit_all (fun _ s s' => s.(settings) = cfg -> s'.(settings) = cfg) (cache_recent_message rid m))
    by (intros; unfold cache_recent_message, reads; repeat first [crit_step|split; [done|done]]).
  assert (Hrows : forall rid l acc, crit_all (fun _ s s' => s.(settings) = cfg -> s'.(settings) = cfg) (add_rows rid l acc)).
  { intros rid l. induction l as [|m l IH]; intros acc; cbn [add_rows]; [done|]. repeat first [apply Hcache|apply IH|crit_step]. }
  assert (Heach : forall l, crit_all (fun _ s s' => s.(settings) = cfg -> s'.(settings) = cfg) (load_each l)).
  { induction l as [|i l IH]; cbn [load_each]; [done|]. repeat first [apply IH|crit_step]. }
  unfold recent_messages, db_history, load_recent_messages_from_cache, ensure_room_id_ci, reads.
  repeat first [apply Hrows|apply Heach|crit_step|split; [done|done]].
  destruct (_ !! room); done.
Qed.

(** Whatever Redis has cached and the database returns, the history in a snapshot has
    distinct messages, and no more than [recent_history_limit] of them. *)
Theorem snapshot_history_bounded {W} (world : forall R : Set, query R -> W -> R * W) al x room s w r :
  (forall R (q : query R) w, history_answers R q (world R q w).1) ->
  0 <= s.(settings).(recent_limit) ->
  (exec world al (recent_messages x room) s w).2 = Some r ->
  history_ok s.(settings).(recent_limit) r.2.
Proof.
  intros Hw H0. apply (exec_ensures history_answers s.(settings) world al (fun r => history_ok s.(settings).(recent_limit) r.2)); [done| |done|].
  - apply recent_messages_settings.
  - unfold recent_messages. do 2 (apply ensures_skip; intros ?).
    apply (ensures_bind _ _ (fun c => forall l, c = Some l -> zlen l <= s.(settings).(recent_limit))).
    { destruct (_ && _); [by apply load_cache_ensures|by cbn]. }
    intros cached Hc. apply ensures_skip. intros limit. cbv zeta.
    assert (zlen (default [] cached) <= s.(settings).(recent_limit)) as Hl
      by (destruct cached as [l|]; [by apply Hc|cbn; lia]).
    destruct (dedup_ids_spec ∅ (default [] cached)) as (H1 & _ & H3).
    destruct (_ && _).
    + apply db_history_ensures; [done|lia|done].
    + cbn. split; [done|lia].
Qed.
End history.

(** ** An example with cache and database *)

(** Messages 1 to 10 of a room in the database, the last three also in the cache, newest
    first; the cached payload of a message is its number. *)
Definition history_env : ChatEnv := {|
  weak_order := @weak_order example_env;
  weak_order_perm := @weak_order_perm example_env;
  table_order := @table_order example_env;
  table_order_perm := @table_order_perm example_env;
  session_id := @session_id example_env;
  remote_ip := @remote_ip example_env;
  redis_ := true;
  db_pool_ := true;
  redis_pubsub_enabled_ := false;
  gateway_id_ := "gw-default";
  presence_prefix := EmptyString;
  admin_users_ := ∅;
  wb_enabled := false;
  stream_key := EmptyString;
  fetch_factor := 3;
  cache_ttl_sec := 3600;
  sha256 := @sha256 example_env;
  std_hash := @std_hash example_env;
  serialize_message m := Some (pretty m.(msg_id));
  parse_message p := (fun v => mkSnapshotMessage v "alice" EmptyString 0) <$> strtoull p;
|}.

Definition history_rows : list (Z * option string * string * Z) :=
  (fun i => (i, Some "alice"%string, EmptyString, 0)) <$> [1; 2; 3; 4; 5; 6; 7; 8; 9; 10].

(** The world's state is the cached list. *)
Definition history_world (R : Set) (q : query R) (w : list string) : R * list string :=
  match q in query R return R * list string with
  | RedisLRange _ start stop => (Val (Some (take (Z.to_nat (stop - start + 1)) (drop (Z.to_nat start) w))), w)
  | RedisMGet ks => (Val (Some (map (fun k => Some (str_drop 4 k)) ks)), w)
  | RedisSetEx _ _ _ => (Val true, w)
  | RedisLPushTrim _ v maxlen => (Val true, take (Z.to_nat maxlen) (v :: w))
  | DbBegin => (Val tt, w)
  | DbCommit => (Val tt, w)
  | DbFindRoom _ => (Val (Some "r1"%string), w)
  | DbGetLastId _ => (Val 10, w)
  | DbGetLastSeen _ _ => (Val None, w)
  | DbFetchRecent _ since limit =>
      (Val (take (Z.to_nat limit) (filter (fun row => since < row_id row) history_rows)), w)
  | q => ((example_world _ q 5).1, w)
  end.

Lemma history_world_answers R (q : query R) w : history_answers R q (history_world R q w).1.
Proof.
  destruct q; cbn [history_answers history_world fst]; try done.
  - intros l [= <-]. rewrite length_take. lia.
  - intros rows [= <-]. eapply sublist_NoDup; [|apply fmap_sublist; etrans; [apply sublist_take|apply sublist_filter]].
    by apply (bool_decide_unpack _).
Qed.

Definition example_history : option (Z * list SnapshotMessage) :=
  (exec history_world {[1]} (@recent_messages history_env 1 "lobby") (empty_State default_settings)
     ["10"; "9"; "8"]%string).2.

Lemma snapshot_history_bounded_witness :
  match example_history with Some r => history_ok 20 r.2 | None => False end.
Proof.
  destruct example_history as [r|] eqn:E; [|by vm_compute in E].
  apply (@snapshot_history_bounded history_env _ history_world {[1]} 1 "lobby" (empty_State default_settings)
           ["10"; "9"; "8"]%string); [apply history_world_answers|done|exact E].
Defined.

(** The history is not in the order of the messages: what the database adds is older than
    the cached messages but follows them; and the cache is repaired by pushing the older
    messages in front of the newer ones, where the next reader expects the newest. *)
Lemma history_out_of_order :
  option_map (fun r => map msg_id r.2) example_history = Some [8; 9; 10; 1; 2; 3; 4; 5; 6; 7]
  /\ (exec history_world {[1]} (@recent_messages history_env 1 "lobby") (empty_State default_settings)
       ["10"; "9"; "8"]%string).1.1.2 = ["7"; "6"; "5"; "4"; "3"; "2"; "1"; "10"; "9"; "8"]%string.
Proof. by vm_compute. Qed.

(** ** Settings *)

Definition settings_ok (c : Settings) : Prop :=
  5 <= c.(presence_ttl) <= 3600 /\ 5 <= c.(recent_limit) <= 2000
  /\ c.(recent_limit) <= c.(max_list_len) <= 5000
  /\ 3 <= c.(spam_message_threshold) <= 100 /\ 1 <= c.(spam_window_sec) <= 120
  /\ 5 <= c.(spam_mute_sec) <= 86400 /\ 10 <= c.(spam_ban_sec) <= 604800
  /\ 1 <= c.(spam_ban_violation_threshold) <= 20.

Lemma find_rule_range key rule :
  find_runtime_setting_rule key = Some rule ->
  rule.(key_name) = key /\ In rule kRuntimeSettingRules.
Proof.
  unfold find_runtime_setting_rule. induction kRuntimeSettingRules as [|r rules IH]; cbn; [done|].
  case_bool_decide as Hk; [intros [= <-]; auto|]. intros [? ?]%IH. auto.
Qed.

(** A runtime setting is stored only under a known key and within its range, and the settings
    stay within their ranges, the history limit never above the length of the cached
    list; a rejected request changes nothing. *)
Theorem settings_stay_in_range key value c :
  settings_ok c ->
  let '(c', r) := apply_setting key value c in
  settings_ok c'
  /\ match r with
     | Rejected _ => c' = c
     | Applied k v =>
         exists rule, find_runtime_setting_rule (to_lower_ascii_local (trim_ascii_local key)) = Some rule
           /\ k = rule.(key_name) /\ rule.(min_value) <= v <= rule.(max_value)
           /\ parse_u32 (trim_ascii_local value) = Some v /\ c' = store_setting rule.(key_id) v c
     end.
Proof.
  intros Hc. unfold apply_setting. destruct (parse_u32 _) as [v|] eqn:Hv; [|done].
  destruct (find_runtime_setting_rule _) as [rule|] eqn:Hr; [|done].
  pose proof (find_rule_range _ _ Hr) as [_ Hin].
  assert (Hfit : u32 c.(recent_limit) = c.(recent_limit)).
  { apply wrap_id. unfold fits, settings_ok in *. lia. }
  rewrite Hfit. set (lo := if bool_decide _ then _ else _).
  destruct ((v <? lo) || (rule.(max_value) <? v)) eqn:Hrange; [done|].
  apply orb_false_iff in Hrange as [Hlo Hhi]. apply Z.ltb_ge in Hlo, Hhi.
  assert (rule.(min_value) <= lo) by (subst lo; case_bool_decide; lia).
  split; [|exists rule; split_and!; [done|done|lia|lia|done|done]].
  destruct c as [ttl limit maxlen thr win mute ban viol]. unfold settings_ok in *. cbn in Hc, lo.
  clear Hr. cbn in Hin. destruct_or! Hin; subst rule; subst lo; cbn in *; try done; try lia.
  - destruct (Z.ltb_spec maxlen v); lia.
  - rewrite bool_decide_true in Hlo by done. lia.
Qed.

Lemma settings_stay_in_range_witness :
  settings_ok default_settings
  /\ let '(c', r) := apply_setting " Recent_History_Limit" "500 " default_settings in
     settings_ok c' /\ r = Applied "recent_history_limit" 500 /\ c'.(max_list_len) = 500.
Proof.
  assert (H0 : settings_ok default_settings) by (unfold settings_ok; cbn; lia). split; [done|].
  pose proof (settings_stay_in_range " Recent_History_Limit" "500 " default_settings H0) as P.
  assert (E : apply_setting " Recent_History_Limit" "500 " default_settings
    = (mkSettings 30 500 500 6 5 30 600 3, Applied "recent_history_limit" 500)) by (by vm_compute).
  rewrite E in P |- *. destruct P as [P _]. split; [exact P|done].
Defined.
